(* ===== verification/_CoqProject ===== *)
-Q . S2P
Prelude.v
RecoveryProof.v
RecoveryGraph.v
RecoverySession.v
UnrollPlan.v
UnrollFsm.v
UnrollInvariants.v
UnrollExit.v
CoinSelect.v
BatchSchedule.v
CreditFsm.v
CreditOps.v
CreditSafety.v
VtxoExpiry.v
VtxoForfeit.v
VtxoFsm.v
VtxoActor.v
VtxoSafety.v
VtxoWorld.v
VtxoManager.v
VtxoLeases.v
VtxoAdmission.v
Ledger.v
LedgerSafety.v
LedgerBooks.v
OorReplay.v
OorInputs.v
OorFsm.v
OorActor.v
OorSafety.v
OorTurn.v
OorCommit.v
OorResume.v
OorWorld.v
OorTransfers.v
TxTree.v
TxTreeSafety.v
TxTreeBuild.v
TxTreeBatch.v
RoundQuote.v
RoundQuoteSafety.v
RoundValidate.v
RoundFsm.v
RoundSteps.v
RoundChecks.v
RoundSound.v
RoundDemo.v
