(* ===== verification/Prelude.v ===== *)
(** * Wavelength: a verification library of the coin, exit, round and credit cores

    Wavelength is an Ark wallet: a user holds virtual outputs (VTXOs) that live
    in off-chain transaction trees, and must at any time be able to leave
    unilaterally by broadcasting the chain of transactions that leads to the
    output, waiting for its CSV delay and sweeping it.  Until then an actor per
    output watches its expiry, spends it, or forfeits it for a fresh one in a
    round, and a manager admits those uses.  Amounts too small for a virtual
    output are held as credit with a swap server and moved by durable credit
    operations.  Outputs are passed on between rounds by out-of-round transfers,
    which the operator co-signs.  In a round the operator batches what its clients
    ask for into one commitment transaction with trees of pre-signed transactions
    below it.  A ledger books what happens.  This library models the code that keeps
    the outputs safe, that makes the exit, the rounds, the transfers, the credit
    operations and the books correct, and two self-contained algorithms
    every client depends on, and proves the properties that code relies on.

    ** Parts of the program and where they are modelled

    - [RecoveryProof.v] and [RecoveryGraph.v]: [src/lib/recovery/proof.go].  The
      immutable recovery proof, a graph of transactions ending in the target.
      [RecoveryProof] holds the data ([Node], [Proof_]), the construction
      [NewProof] with its stages (indexing, edges, reachability by breadth-first
      search, Kahn layering) and the accessors.  [RecoveryGraph] proves what a
      constructed proof promises, as the type class [WfProof]; the components
      below are proved against that interface only.
    - [RecoverySession.v]: [src/lib/recovery/session.go] and [state.go].  The
      caller-driven session: the [Mark*] transitions, snapshots, CSV maturity,
      export and restore.  A concurrent caller is a sequence of transitions
      because every method holds the session's mutex.
    - [UnrollPlan.v]: [src/unrollplan/planner.go].  The stateless planner over a
      durable state: validation, planning, sweep lifecycle.
    - [UnrollFsm.v]: [src/unroll/fsm_types.go], [fsm_logic.go], and the slice
      helpers of [src/unroll/actor.go].  The state machine of one exit: job
      state, events, outbox effects, [ProcessEvent].
    - [UnrollInvariants.v] and [UnrollExit.v]: the invariants and the theorems of
      that state machine, for the environment the actor builds (a constructed
      proof and its planner).
    - [CoinSelect.v]: [src/coinselect/selector.go], largest-first selection.
    - [BatchSchedule.v]: [src/lib/batchschedule/schedule.go] and [published.go],
      the operator's UTC timetable and the client's published view.
    - [CreditFsm.v]: [src/credit]: the state machines of credit pays, receives and
      redemptions ([transitions.go], [states.go]), the durable actor that drives
      them ([op_actor.go]), the resume snapshot ([snapshot.go]), admission rows
      and the documented transition table.  A turn is a computation in a state
      and error monad [M] over the memory, the durable row, the environment and
      the history of calls; [node_step] adds starts, deliveries and kills.
    - [CreditOps.v] and [CreditSafety.v]: the invariant that ties memory, row and
      history together, by symbolic execution ([wp]) of every step, and the
      theorems about reachable operations.
    - [VtxoExpiry.v]: [src/vtxo/expiry.go] and the row of [interfaces.go]: how many
      blocks an exit needs, when a coin is refreshed and when it is critical.
    - [VtxoForfeit.v]: the forfeit transaction and its signatures: [policy.go],
      [src/lib/tx/forfeit.go], [src/lib/arkscript/spend_path.go] and the signing
      part of [transitions.go].  Taproot, signatures and the policy compiler are
      the classes [Txscript] and [Arkscript].
    - [VtxoFsm.v]: [states.go], [events.go], [transitions.go] and
      [forfeit_admission.go]: every state and event of one coin.
    - [VtxoActor.v]: [actor.go] and its companions, with the store's row updates of
      [src/db/vtxo_store.go]: preflights, cooldowns, persistence and delivery of
      the outbox, recovery from the row.  A turn returns its effects in order; a
      [Turn] holds what the outside answers during it.
    - [VtxoSafety.v] and [VtxoWorld.v]: the node of one coin, whose turns can be cut
      after any effect and which restarts from its row; its invariant and the
      theorems about reachable nodes.
    - [VtxoManager.v]: [manager.go], [messages.go], [expiry_reconcile.go] and
      [src/lib/actormsg/vtxo_admission.go]: every message of the manager and its
      start, as computations [MM] over its memory, a world and the history of its
      calls.
    - [VtxoLeases.v] and [VtxoAdmission.v]: the reservation map as a table of
      leases that every message refines, and a logic of calls ([mwp]) for what a
      turn may ask of the actors and write to the rows.
    - [Ledger.v]: [src/ledger] ([actor.go], [handlers.go], [messages.go]) and its
      stores [src/db/ledger_store.go] and [utxo_audit_store.go]: the messages, the
      keys, the handlers and the tables, as transactions [LTx] that may fail at any
      access.
    - [LedgerSafety.v] and [LedgerBooks.v]: a logic of transactions ([lwp]), the
      invariant of the tables, and the theorems about histories of turns.
    - [OorReplay.v]: [src/oor/outgoing_replay.go] and the recipient order of
      [src/lib/tx/oor/build.go]: the proof that a repeated request is answered with.
    - [OorInputs.v]: [src/oor/transfer_inputs.go], [transfer_input_snapshot.go]: the
      inputs of a transfer, their defaults and checks, and their stored form.
    - [OorFsm.v]: [src/oor/transitions.go], [receive_transitions.go], the states,
      events and outboxes, [resume.go] and the snapshots of both directions.
    - [OorActor.v]: [src/oor/session_actor.go], [session_actor_handlers.go],
      [session_registry_bridge.go] and [src/db/oor_session_registry_store.go]: the
      turn of a session, as a computation [OM] over its memory followed by a
      transaction [TM] over the tables that may fail at any access.
    - [OorSafety.v] (moves of the machine), [OorTurn.v] (dispatch), [OorCommit.v]
      (the transaction), [OorResume.v] (loading), [OorWorld.v] (tables and actors
      with starts, turns and stops, and their invariant) and [OorTransfers.v] (the
      theorems, a transfer run from its start to its completion, and edge cases).
    - [TxTree.v]: [src/lib/tree]: structure and materialisation of the tree of a
      batch, the outputs it hangs from, path extraction, the checks of a client and
      the submission of signatures.  Hashing, scripts and key aggregation are
      classes ([Musig] and those of the files above).
    - [TxTreeSafety.v] (what the checks establish), [TxTreeBuild.v] (what is built
      passes them) and [TxTreeBatch.v] (trees and batch outputs fit).
    - [RoundQuote.v]: the quote part of [src/round/transitions.go]: change outputs,
      echoes, fees, the decision.  [RoundQuoteSafety.v]: what acceptance means.
    - [RoundValidate.v]: the checks of a commitment transaction and its connectors
      and assets, the indices and signatures of deposits ([transitions.go],
      [validation.go], [sweep_policy.go], [asset_vtxo_state.go]).
    - [RoundFsm.v]: [states.go], [events.go], [outbox_messages.go], [transitions.go],
      [fsm_timeouts.go] and [admission_timeout.go]: every state of a client's round,
      and the loop of [src/baselib/protofsm/state_machine.go] that drives it.  A
      step returns the transition or error, the effects on stores and wallet in
      their order, and the admission budget.
    - [RoundSteps.v] (single events: releases, budget, settling), [RoundChecks.v]
      (what the checks of a round establish), [RoundSound.v] (the reachable machine
      and its invariant) and [RoundDemo.v] (a round from its start to its
      signatures).

    The session and the planner share the proof and [ComputeMaturityHeight]; the
    state machine calls the planner's [Validate] and [Plan] on every event and
    stores a planner state in its job; the actor around it (not modelled)
    executes the outbox effects and feeds the results back as events.  A coin's
    actor hands its exit to that machine and its refresh to the manager; the
    manager selects coins with [CoinSelect], asks the actors and applies what the
    exit reports back.  An outgoing transfer spends coins the manager reserved and
    tells the ledger what it sent; a receiving one tells it what it stored.  A round
    takes the coins the manager put up for forfeit, asks their actors for the
    signatures of [VtxoForfeit], keeps the paths of [TxTree] that later become
    recovery proofs, and gives the coins back when it fails.

    ** Modelling conventions

    A Go function returning a value and an error is a function into [result];
    errors are the texts of their format strings (with [wrap] for wrapped
    errors), pointers that the code checks for nil are [option]s, and 32- and
    64-bit integers are integers with their wrap-around written out ([int32],
    [int64], [uint32], [uint64]) wherever an operation can leave the width.  A
    hash is the number its 32 bytes spell big-endian, so that [bytes.Compare] is
    the order of [N].  Maps are [gmap]s and [fn.Set]s are [gset]s; a range over a
    map is a loop over the elements in some order, and the theorems do not
    depend on which (hashes are sorted wherever the order would show).  Code of
    other repositories is a parameter: transaction hashing and the textual form
    of a hash are the classes [Chain] and [ChainText], the SHA-256 of a schedule's identity is an
    argument of [New], and the TLV streams of a credit snapshot are the class
    [TLV], with their round trip as the law [TLVLaws].  The server, the wallet,
    the clock and the database a credit operation calls are one function
    [handle] over an arbitrary world: the theorems hold for every such function,
    hence for every sequence of answers, errors and process deaths.  The manager
    calls the store, the actors, the round and the clock in the same way.  A
    transfer session gets its answers as a record of functions, arbitrary in every
    turn; packets and the checks on them are the class [OorTx], keys and scripts the
    class [ArkScripts].  Two conditions stand for code around it: [routed], which
    messages the registry sends to the actor of a session, and [handler_contract],
    what the persistence handler answers.

    Fuel: the breadth-first search and the layering loop of [NewProof] run on
    fuel.  The search gets one unit per edge target plus two, since an
    iteration removes a queued transaction and each is queued once; the
    layering gets one unit per node plus one, since every layer is non-empty.
    [NewProof_never_out_of_fuel] proves that the fuel error is never returned;
    the driving loop of a credit turn has fuel 8, two more than the largest
    distance of a state to the end, and [credit_turn_settles] proves it enough;
    the outbox of a transfer session is driven with fuel 4, one more than the
    longest chain of follow-up events, and [oor_turn_terminates] proves it enough;
    three events suffice for a message to a round ([round_events_settle]); the
    structure of a tree gets one unit per leaf, since positive leaves are always
    split, and [tree_fits_batch_output] shows that it is always built;
    everything else is structurally recursive.

    ** What the theorems show

    - Proofs: [NewProof] accepts exactly the acyclic graphs in which every node
      is an ancestor of the target (within the size bounds), whatever order the
      nodes come in; layers are a topological order with the target last.
    - Sessions: the invariant of every reachable session; snapshots list exactly
      the ready, awaited and blocked transactions and never stall; sweep
      readiness is CSV maturity; history is monotone; restart round trip.
    - Planner: validation is equivalent to a declarative specification; the plan
      partitions the proof, is exact, never stalls, asks for the sweep exactly at
      maturity, fails only on height overflow, and agrees with the session.
    - State machine: reachable jobs always pass their own validators; state names
      mean what they say; nothing is broadcast before its parents confirm and no
      sweep is requested before maturity; restarts re-emit everything; fee
      rejections are absorbed once and retries are bounded; fraud deferrals last
      until their deadline; confirmations are always accepted, and every exit
      without a fraud deferral can be driven to completion.
    - Coin selection: covers the target, uses as few coins as possible, and
      reports errors exactly.  Schedules: the next cutoff is the first one after
      an instant, client and operator agree, clock estimates have bounded error.
    - Credit operations, across crashes, lost answers and failed writes: transfers,
      redemptions and pays are never repeated with different arguments; effects
      are checkpointed first; pays follow their credited top-up; terminal rows
      are explained by the history and final; turns end and waiting is bounded;
      a restart resumes the committed state; redemptions respect earmarks and
      floors; the machine follows its documented table but for two edges.
    - Coins, across crashes after any effect: no message leaves before the row
      that explains it is written; memory and row agree and the row follows the
      documented lifecycle; a coin whose forfeit is signed is never exited or made
      spendable but by the round's own outcome; forfeits are signed only for the
      transaction and the spend path of the row; critical coins exit even in a
      cooldown; the thresholds leave room for the exit and equal their declarative
      specification; expired coins do not become live again.
    - Manager, whatever it is answered: spends are exclusive, leases are refined by
      every message and old holders cannot end new leases; selections are sound;
      startup releases only what the store shows to be orphaned; exits are applied
      to exiting rows only and in crash-safe order; cohorts are bounded, uniform
      and undone when their handoff fails.
    - Ledger, for any messages in any order, redelivered and interrupted: the books
      balance, identities are unique and outputs are received once; failures
      change nothing and only transient ones are retried; redelivery books nothing;
      recycled coins are counted once; exits, sweeps and receipts move the balances
      they should.
    - Transfers, across failing transactions, crashes and restarts: every stored
      session rests in a state the tables account for; inputs are given back only
      while no finalize is out, and only those that were submitted; a key names one
      session for good; received outputs are acknowledged with their storage; a
      failed turn is forgotten; a stored session is loaded as it was stored; turns
      end, receivers give up and submits are retried for a bounded time; recipient
      proofs are decoded to what was encoded, and nothing else is accepted.
    - Trees: a client that validated its path and the operator's signatures holds a
      signed chain from the batch output to its leaf, value by value; the tree built
      for a batch passes all checks and spends the output computed for it.
    - Rounds, however the operator behaves and whatever fails: an accepted quote is
      the request, with an exactly declared and capped fee; deposits and forfeits are
      signed only after the checkpoint and for a commitment transaction that pays
      everything quoted, with forfeits bound to it by their connectors; reserved
      inputs return exactly when a round fails before its checkpoint or is reported
      dead after it; no event extends the budget of an attempt, and none survives it;
      events settle.

    A few theorems record where code and documentation part: restoring a failed
    session without message, unready broadcasts in restored sessions, re-starting
    a deferring job with another trigger, unnamed failures, exact fits under a
    change floor, two undocumented edges of the credit machine, a forfeit that
    cannot be read back, an overflowing CSV delay, a stale cohort release, leases
    that count neither as spendable nor as locked, a lost actor, sweeps that are
    refused after their inputs or booked unbalanced, submits repeated without their
    recipients, keyless inputs that cannot be loaded, inputs released after a
    malformed co-signature, a keyed retry after a finalize, and trees of leaves without
    amounts.

    ** Not modelled

    The actor around the exit machine (durable mailbox, database stores,
    subscriptions), the TLV codecs of the exit's durable states and of transfer
    sessions, the credit registry, the registry of transfer sessions and the
    handler that authenticates and stores received outputs, ancestry resolution,
    the actor of the rounds with its routing, scheduling and wire encodings, the
    authorisation a client joins a round with, signing sessions (their results are
    verified where they enter), wallet and RPC layers, the swap protocols,
    construction and signing of other transactions, fee estimation, and the codecs
    and listings of the ledger.  They are input and output around the modelled
    decisions, or separate protocols. *)

From stdpp Require Export base list gmap sets sorting strings pretty relations.
From Stdlib Require Export ZArith NArith Lia.

Set Default Goal Selector "!".

(** ** Results: Go's [(value, error)] pairs *)

(** A Go function returning [(T, error)] returns exactly one of the two on
    every path of the modelled code; [E] enumerates the errors. *)
Inductive result (E A : Type) : Type :=
| Ok (a : A)
| Err (e : E).
Arguments Ok {E A} a.
Arguments Err {E A} e.

Definition is_ok {E A} (r : result E A) : bool :=
  match r with Ok _ => true | Err _ => false end.

Declare Scope go_scope.
Delimit Scope go_scope with go.
Notation "'let*' x ':=' c 'in' k" :=
  (match c with Ok x => k | Err e => Err e end)
  (at level 10, x pattern, c at level 100, k at level 200) : go_scope.
Notation "'check*' c 'in' k" :=
  (match c with Ok _ => k | Err e => Err e end)
  (at level 10, c at level 100, k at level 200) : go_scope.
Notation "'guard*' b 'else' e 'in' k" :=
  (if b then k else Err e)
  (at level 10, b at level 100, e at level 100, k at level 200) : go_scope.
Open Scope go_scope.

(** Go errors are compared by nobody and only propagated, so an error is the
    text of its format string, without the formatted arguments. *)
Abbreviation error := string.

(** [fmt.Errorf("prefix: %w", err)] around a failing call. *)
Definition wrap {A} (prefix : string) (r : result error A) : result error A :=
  match r with Ok a => Ok a | Err e => Err (prefix +:+ e) end.

(** [for _, x := range l { if err := f(x); err != nil { return err } }] *)
Fixpoint for_each {E A} (f : A → result E unit) (l : list A) : result E unit :=
  match l with
  | [] => Ok tt
  | x :: l => check* f x in for_each f l
  end.

(** ** Machine integers *)

Definition MaxInt32 : Z := 2147483647.

(** Conversion to [int32]: two's complement wrap-around. *)
Definition int32 (z : Z) : Z := (z + 2147483648) mod 4294967296 - 2147483648.
(** Conversion to [int64]. *)
Definition int64 (z : Z) : Z :=
  (z + 9223372036854775808) mod 18446744073709551616 - 9223372036854775808.
(** Conversion to [uint32] and [uint64]. *)
Definition uint32 (z : Z) : Z := z mod 4294967296.
Definition uint64 (z : Z) : Z := z mod 18446744073709551616.

Definition is_int32 (z : Z) : Prop := (-2147483648 ≤ z ≤ 2147483647)%Z.
Definition is_int64 (z : Z) : Prop :=
  (-9223372036854775808 ≤ z ≤ 9223372036854775807)%Z.
Definition is_uint32 (z : Z) : Prop := (0 ≤ z ≤ 4294967295)%Z.

#[export] Instance is_int32_dec z : Decision (is_int32 z).
Proof. unfold is_int32. apply _. Defined.
#[export] Instance is_int64_dec z : Decision (is_int64 z).
Proof. unfold is_int64. apply _. Defined.
#[export] Instance is_uint32_dec z : Decision (is_uint32 z).
Proof. unfold is_uint32. apply _. Defined.

(** ** Hashes

    A [chainhash.Hash] is 32 raw bytes.  It is represented by the natural
    number those bytes spell big-endian, so that [==] is equality and
    [bytes.Compare] is the order of [N]. *)
Abbreviation Hash := N.

#[export] Instance Nle_total : Total N.le.
Proof. intros x y. lia. Qed.

(** [sort.Slice(hashes, bytes.Compare(h_i, h_j) < 0)]: the order is total and
    antisymmetric, so the unstable sort has one possible result. *)
Definition hash_sort (hs : list Hash) : list Hash := merge_sort N.le hs.

(** ** Automation *)

Create HintDb wave.
Create Rewrite HintDb wave.

(** Splits [let*]/[check*]/[guard*] chains in a hypothesis [f x = Ok y]. *)
Ltac inv_ok :=
  repeat match goal with
  | H : Ok _ = Ok _ |- _ => injection H; clear H; intros; subst
  | H : Err _ = Ok _ |- _ => discriminate H
  | H : Ok _ = Err _ |- _ => discriminate H
  | H : Err _ = Err _ |- _ => injection H; clear H; intros; subst
  | H : match ?c with Ok _ => _ | Err _ => _ end = Ok _ |- _ =>
      let E := fresh "E" in destruct c eqn:E; [|discriminate H]
  | H : (if ?b then _ else Err _) = Ok _ |- _ =>
      let E := fresh "G" in destruct b eqn:E; [|discriminate H]
  | H : (if ?b then Err _ else _) = Ok _ |- _ =>
      let E := fresh "G" in destruct b eqn:E; [discriminate H|]
  | u : unit |- _ => destruct u
  end.

(** Turns boolean comparisons in the context into propositions. *)
Ltac zbool :=
  repeat match goal with
  | H : negb _ = true |- _ => apply negb_true_iff in H
  | H : negb _ = false |- _ => apply negb_false_iff in H
  | H : (_ && _)%bool = true |- _ => apply andb_true_iff in H; destruct H
  | H : (_ || _)%bool = false |- _ => apply orb_false_iff in H; destruct H
  | H : (_ <=? _)%Z = true |- _ => apply Z.leb_le in H
  | H : (_ <=? _)%Z = false |- _ => apply Z.leb_gt in H
  | H : (_ <? _)%Z = true |- _ => apply Z.ltb_lt in H
  | H : (_ <? _)%Z = false |- _ => apply Z.ltb_ge in H
  | H : (_ =? _)%Z = true |- _ => apply Z.eqb_eq in H
  | H : (_ =? _)%Z = false |- _ => apply Z.eqb_neq in H
  | H : bool_decide _ = true |- _ => apply bool_decide_eq_true_1 in H
  | H : bool_decide _ = false |- _ => apply bool_decide_eq_false_1 in H
  end.

(** ** Integer lemmas *)

Lemma int32_id z : is_int32 z → int32 z = z.
Proof. unfold is_int32, int32. intros. rewrite Z.mod_small; lia. Qed.

Lemma int64_id z : is_int64 z → int64 z = z.
Proof. unfold is_int64, int64. intros. rewrite Z.mod_small; lia. Qed.

Lemma uint32_id z : is_uint32 z → uint32 z = z.
Proof. unfold is_uint32, uint32. intros. rewrite Z.mod_small; lia. Qed.

Lemma int32_range z : is_int32 (int32 z).
Proof.
  unfold is_int32, int32.
  pose proof (Z.mod_pos_bound (z + 2147483648) 4294967296). lia.
Qed.

Lemma int64_range z : is_int64 (int64 z).
Proof.
  unfold is_int64, int64.
  pose proof (Z.mod_pos_bound (z + 9223372036854775808) 18446744073709551616).
  lia.
Qed.

(** ** List lemmas *)

Lemma wrap_ok {A} prefix (r : result error A) a : wrap prefix r = Ok a ↔ r = Ok a.
Proof. by destruct r. Qed.

Lemma for_each_ok {E A} (f : A → result E unit) l :
  for_each f l = Ok tt ↔ ∀ x, x ∈ l → f x = Ok tt.
Proof.
  induction l as [|x l IH]; simpl.
  - split; [|done]. intros _ x Hx. by apply not_elem_of_nil in Hx.
  - destruct (f x) as [[]|e] eqn:Hfx.
    + rewrite IH. split.
      * intros H y [->|Hy]%elem_of_cons; auto.
      * intros H y Hy. apply H. by constructor.
    + split; [done|]. intros H. specialize (H x (list_elem_of_here _ _)).
      congruence.
Qed.

(** Filters and partial maps only look at the elements of the list. *)
Lemma filter_ext_elem {A} (P Q : A → Prop) `{!∀ x, Decision (P x), !∀ x, Decision (Q x)} (l : list A) :
  (∀ x, x ∈ l → P x ↔ Q x) → filter P l = filter Q l.
Proof.
  induction l as [|x l IH]; intros Hl; [done|].
  assert (P x ↔ Q x) as Hx by (apply Hl; constructor).
  rewrite !filter_cons, IH by (intros; apply Hl; by constructor).
  destruct (decide (P x)), (decide (Q x)); tauto.
Qed.

Lemma omap_ext_elem {A B} (f g : A → option B) (l : list A) :
  (∀ x, x ∈ l → f x = g x) → omap f l = omap g l.
Proof.
  intros Hl. apply list_omap_ext, Forall_Forall2_diag, Forall_forall. exact Hl.
Qed.

Lemma hash_sort_perm hs : hash_sort hs ≡ₚ hs.
Proof. apply merge_sort_Permutation. Qed.

Lemma elem_of_hash_sort x hs : x ∈ hash_sort hs ↔ x ∈ hs.
Proof. by rewrite hash_sort_perm. Qed.

Lemma NoDup_hash_sort hs : NoDup (hash_sort hs) ↔ NoDup hs.
Proof. by rewrite hash_sort_perm. Qed.

Lemma length_hash_sort hs : length (hash_sort hs) = length hs.
Proof. by rewrite hash_sort_perm. Qed.

Lemma hash_sort_sorted hs : StronglySorted N.le (hash_sort hs).
Proof. apply StronglySorted_merge_sort; apply _. Qed.

(** Sorting is a function of the set of hashes, whatever order a map range
    produced them in. *)
Lemma hash_sort_canonical hs hs' : hs ≡ₚ hs' → hash_sort hs = hash_sort hs'.
Proof.
  intros Hp. apply (StronglySorted_unique N.le).
  - apply hash_sort_sorted.
  - apply hash_sort_sorted.
  - by rewrite !hash_sort_perm.
Qed.

Lemma hash_sort_id hs : StronglySorted N.le hs → hash_sort hs = hs.
Proof.
  intros Hs. apply (StronglySorted_unique N.le).
  - apply hash_sort_sorted.
  - done.
  - apply hash_sort_perm.
Qed.

#[export] Instance hash_sort_Proper : Proper ((≡ₚ) ==> (=)) hash_sort.
Proof. intros ???. by apply hash_sort_canonical. Qed.

#[export] Hint Resolve int32_range int64_range hash_sort_sorted : wave.
#[export] Hint Rewrite elem_of_hash_sort NoDup_hash_sort length_hash_sort : wave.
