(* ===== verification/RecoveryProof.v ===== *)
(** * Recovery proofs: [lib/recovery/proof.go]

    The immutable recovery graph of one target outpoint: transactions,
    in-graph parent and child edges, ancestor reachability (an iterative
    breadth-first search) and Kahn's topological layering.  The theorems show
    that a proof built by [NewProof] is a layered DAG in which every node is an
    ancestor of the target ([WfProof], the interface the session, the planner
    and the unroll state machine rely on), and that [NewProof] accepts exactly
    such graphs. *)

From S2P Require Import Prelude.

(** ** Wire data *)

Record OutPoint := mkOutPoint { op_Hash : Hash; op_Index : Z }.

#[export] Instance OutPoint_eq_dec : EqDecision OutPoint.
Proof. solve_decision. Defined.

#[export] Instance OutPoint_countable : Countable OutPoint.
Proof.
  refine (inj_countable' (λ o, (op_Hash o, op_Index o)) (λ p, mkOutPoint p.1 p.2) _).
  by intros [].
Defined.

(** Script bytes are numbers below 256. *)
Record TxOut := mkTxOut { Value : Z; PkScript : list Z }.

(** The fields of [wire.MsgTx] the recovery code reads: the outpoint each input
    spends and the outputs.  Inputs are non-nil: [NewProof] dereferences every
    one of them. *)
Record MsgTx := mkMsgTx { TxIn : list OutPoint; TxOuts : list TxOut }.

#[export] Instance TxOut_eq_dec : EqDecision TxOut.
Proof. solve_decision. Defined.
#[export] Instance MsgTx_eq_dec : EqDecision MsgTx.
Proof. solve_decision. Defined.

(** Third-party functions on transactions and hashes: [wire.MsgTx.TxHash] and
    [chainhash.Hash.String]. *)
Class Chain := { TxHash : MsgTx → Hash; HashString : Hash → string }.

(** ** Nodes *)

Inductive NodeKind :=
| NodeKindTree
| NodeKindCheckpoint
| NodeKindArk
| NodeKindUnknown (k : Z).

#[export] Instance NodeKind_eq_dec : EqDecision NodeKind.
Proof. solve_decision. Defined.

Definition NodeKind_String (k : NodeKind) : string :=
  match k with
  | NodeKindTree => "tree"
  | NodeKindCheckpoint => "checkpoint"
  | NodeKindArk => "ark"
  | NodeKindUnknown k => "unknown(" +:+ pretty k +:+ ")"
  end.

(** A [*Node]; [Tx] is a pointer and may be nil. *)
Record Node := mkNode { Kind : NodeKind; Tx : option MsgTx }.

#[export] Instance Node_eq_dec : EqDecision Node.
Proof. solve_decision. Defined.

(** [arkscript.AnchorPkScript]: OP_TRUE, OP_DATA_2, 0x4e, 0x73. *)
Definition AnchorPkScript : list Z := [81; 2; 78; 115]%Z.

Section nodes.
Context `{!Chain}.

Definition TXID (n : option Node) : result error Hash :=
  match n with
  | None => Err "node cannot be nil"
  | Some n =>
      match Tx n with
      | None => Err "node tx cannot be nil"
      | Some tx => Ok (TxHash tx)
      end
  end.

Definition Output (n : option Node) (index : Z) : result error TxOut :=
  match n with
  | None => Err "node cannot be nil"
  | Some n =>
      match Tx n with
      | None => Err "node tx cannot be nil"
      | Some tx =>
          match TxOuts tx !! Z.to_nat index with
          | None => Err "output index out of bounds"
          | Some out => Ok out
          end
      end
  end.

(** The loop of [AnchorOutputIndex]: [found] is the first anchor seen. *)
Fixpoint anchor_loop (outs : list TxOut) (index : Z) (found : option Z) :
    result error (option Z) :=
  match outs with
  | [] => Ok found
  | out :: outs =>
      if bool_decide (PkScript out = AnchorPkScript) then
        match found with
        | Some _ => Err "multiple anchor outputs found"
        | None => anchor_loop outs (index + 1) (Some index)
        end
      else anchor_loop outs (index + 1) found
  end.

Definition AnchorOutputIndex (n : option Node) : result error (option Z) :=
  match n with
  | None => Err "node cannot be nil"
  | Some n =>
      match Tx n with
      | None => Err "node tx cannot be nil"
      | Some tx => anchor_loop (TxOuts tx) 0 None
      end
  end.

Definition AnchorOutpoint (n : option Node) : result error (option OutPoint) :=
  let* txid := TXID n in
  let* index := AnchorOutputIndex n in
  Ok (mkOutPoint txid <$> index).
End nodes.

(** ** Proofs *)

Definition MaxCSVDelay : Z := 65535.
Definition MaxProofNodes : Z := 100000.

Abbreviation adjacency := (gmap Hash (list Hash)).

Record Proof_ := mkProof {
  targetOutpoint : OutPoint;
  csvDelay : Z;
  nodes : gmap Hash Node;
  parents : adjacency;
  children : adjacency;
  layers : list (list Hash);
  layerByTxid : gmap Hash nat;
}.

(** [m[k]] of a [map[chainhash.Hash][]chainhash.Hash]: nil when absent. *)
Definition adj (m : adjacency) (k : Hash) : list Hash := default [] (m !! k).
(** [m[k] = append(m[k], v)] *)
Definition adj_append (m : adjacency) (k v : Hash) : adjacency :=
  <[k := adj m k ++ [v]]> m.

Definition sortHashes (hs : list Hash) : list Hash := hash_sort hs.

(** The inputs of a node that passed indexing; its transaction is not nil. *)
Definition node_inputs (n : Node) : list OutPoint :=
  match Tx n with Some tx => TxIn tx | None => [] end.

Section new_proof.
Context `{!Chain}.

(** Stage 2: the txid to node index. *)
Fixpoint index_nodes (ns : list (option Node)) (nodeMap : gmap Hash Node) :
    result error (gmap Hash Node) :=
  match ns with
  | [] => Ok nodeMap
  | None :: _ => Err "node cannot be nil"
  | Some node :: ns =>
      let* txid := TXID (Some node) in
      match nodeMap !! txid with
      | Some _ => Err "duplicate node txid"
      | None => index_nodes ns (<[txid := node]> nodeMap)
      end
  end.
End new_proof.

(** Stage 3, inner loop: the edges of one node.  [seenParents] collapses two
    inputs that spend the same parent. *)
Fixpoint add_edges (nodeMap : gmap Hash Node) (txid : Hash)
    (ins : list OutPoint) (seenParents : gset Hash)
    (pc : adjacency * adjacency) : adjacency * adjacency :=
  match ins with
  | [] => pc
  | txIn :: ins =>
      let parentTxid := op_Hash txIn in
      match nodeMap !! parentTxid with
      | None => add_edges nodeMap txid ins seenParents pc
      | Some _ =>
          if bool_decide (parentTxid ∈ seenParents)
          then add_edges nodeMap txid ins seenParents pc
          else add_edges nodeMap txid ins ({[parentTxid]} ∪ seenParents)
                 (adj_append pc.1 txid parentTxid,
                  adj_append pc.2 parentTxid txid)
      end
  end.

(** Stage 3, outer loop, in the order the map range yields the nodes. *)
Definition derive_edges (nodeMap : gmap Hash Node) : adjacency * adjacency :=
  foldl (λ pc '(txid, node), add_edges nodeMap txid (node_inputs node) ∅ pc)
    (∅, ∅) (map_to_list nodeMap).

(** The loop over [parents[txid]] in [collectReachableAncestors]. *)
Fixpoint visit_parents (ps : list Hash) (queue : list Hash)
    (reachable : gset Hash) : list Hash * gset Hash :=
  match ps with
  | [] => (queue, reachable)
  | parent :: ps =>
      if bool_decide (parent ∈ reachable)
      then visit_parents ps queue reachable
      else visit_parents ps (queue ++ [parent]) ({[parent]} ∪ reachable)
  end.

(** The dequeue loop; [None] is running out of fuel. *)
Fixpoint bfs_loop (fuel : nat) (ps : adjacency) (queue : list Hash)
    (reachable : gset Hash) : option (gset Hash) :=
  match fuel with
  | O => None
  | S fuel =>
      match queue with
      | [] => Some reachable
      | txid :: queue =>
          let '(queue, reachable) :=
            visit_parents (adj ps txid) queue reachable in
          bfs_loop fuel ps queue reachable
      end
  end.

(** Every hash that occurs as a parent: bounds the searches of the loop. *)
Definition edge_targets (ps : adjacency) : gset Hash :=
  ⋃ (list_to_set <$> (map_to_list ps).*2).

Definition collectReachableAncestors (start : Hash) (ps : adjacency) :
    option (gset Hash) :=
  bfs_loop (S (S (size (edge_targets ps)))) ps [start] {[start]}.

(** ** Kahn's layering *)

(** [for _, child := range children[txid]]: decrement and collect the children
    whose in-degree reached zero. *)
Fixpoint dec_children (cs : list Hash) (st : gmap Hash Z * gset Hash) :
    gmap Hash Z * gset Hash :=
  match cs with
  | [] => st
  | child :: cs =>
      let d := (default 0 (st.1 !! child) - 1)%Z in
      dec_children cs
        (<[child := d]> st.1,
         if bool_decide (d = 0%Z) then {[child]} ∪ st.2 else st.2)
  end.

Record kahn := mkKahn {
  k_indegree : gmap Hash Z;
  k_next : gset Hash;
  k_processed : Z;
  k_layerBy : gmap Hash nat;
}.

(** [for _, txid := range current]. *)
Fixpoint process_layer (ch : adjacency) (layerIndex : nat)
    (current : list Hash) (k : kahn) : kahn :=
  match current with
  | [] => k
  | txid :: current =>
      let '(indegree, nextCounts) :=
        dec_children (adj ch txid) (k_indegree k, k_next k) in
      process_layer ch layerIndex current
        (mkKahn indegree nextCounts (k_processed k + 1)
           (<[txid := layerIndex]> (k_layerBy k)))
  end.

(** [for len(ready) > 0]; [None] is running out of fuel. *)
Fixpoint layer_loop (fuel : nat) (ch : adjacency) (ready : list Hash)
    (ls : list (list Hash)) (k : kahn) : option (list (list Hash) * kahn) :=
  match fuel with
  | O => None
  | S fuel =>
      match ready with
      | [] => Some (ls, k)
      | _ =>
          let k' := process_layer ch (length ls) ready
                      (mkKahn (k_indegree k) ∅ (k_processed k) (k_layerBy k)) in
          layer_loop fuel ch (sortHashes (elements (k_next k')))
            (ls ++ [ready]) k'
      end
  end.

Definition buildLayers (nodeMap : gmap Hash Node) (ps ch : adjacency) :
    result error (list (list Hash) * gmap Hash nat) :=
  let indegree := map_imap (λ txid _, Some (Z.of_nat (length (adj ps txid))))
                    nodeMap in
  let ready := sortHashes
                 (elements (dom (filter (λ '(_, c), c = 0%Z) indegree))) in
  match layer_loop (S (size nodeMap)) ch ready []
          (mkKahn indegree ∅ 0 ∅) with
  | None => Err "out of fuel"
  | Some (ls, k) =>
      guard* bool_decide (k_processed k = Z.of_nat (size nodeMap))
        else "recovery proof contains a cycle" in
      Ok (ls, k_layerBy k)
  end.

Section new_proof_main.
Context `{!Chain}.

Definition NewProof (target : OutPoint) (csv : Z) (ns : list (option Node)) :
    result error Proof_ :=
  guard* negb (length ns =? 0)%nat else "at least one node is required" in
  guard* (Z.of_nat (length ns) <=? MaxProofNodes)%Z
    else "proof exceeds max node count" in
  guard* (csv <=? MaxCSVDelay)%Z else "csv delay exceeds max" in
  let* nodeMap := index_nodes ns ∅ in
  match nodeMap !! op_Hash target with
  | None => Err "target txid not found in proof"
  | Some targetNode =>
      guard* (op_Index target <? Z.of_nat
                (length (from_option TxOuts [] (Tx targetNode))))%Z
        else "target output index out of bounds" in
      let '(ps, ch) := derive_edges nodeMap in
      let ps := sortHashes <$> ps in
      let ch := sortHashes <$> ch in
      match collectReachableAncestors (op_Hash target) ps with
      | None => Err "out of fuel"
      | Some reachable =>
          guard* bool_decide (dom nodeMap ⊆ reachable)
            else "node does not contribute to target" in
          let* (ls, layerBy) := buildLayers nodeMap ps ch in
          Ok (mkProof target csv nodeMap ps ch ls layerBy)
      end
  end.
End new_proof_main.

(** ** Accessors *)

Definition TargetOutpoint (p : Proof_) : OutPoint := targetOutpoint p.
Definition CSVDelay (p : Proof_) : Z := csvDelay p.
Definition GetNode (p : Proof_) (txid : Hash) : option Node := nodes p !! txid.

Definition TargetNode (p : Proof_) : result error Node :=
  match GetNode p (op_Hash (targetOutpoint p)) with
  | None => Err "target node not found"
  | Some n => Ok n
  end.

Definition TargetOutput (p : Proof_) : result error TxOut :=
  let* n := TargetNode p in
  Output (Some n) (op_Index (targetOutpoint p)).

Definition ParentTxids (p : Proof_) (txid : Hash) : result error (list Hash) :=
  match nodes p !! txid with
  | None => Err "unknown txid"
  | Some _ => Ok (adj (parents p) txid)
  end.

Definition ChildTxids (p : Proof_) (txid : Hash) : result error (list Hash) :=
  match nodes p !! txid with
  | None => Err "unknown txid"
  | Some _ => Ok (adj (children p) txid)
  end.

Definition RootTxids (p : Proof_) : list Hash :=
  match layers p with [] => [] | layer :: _ => layer end.

Definition Layer (p : Proof_) (txid : Hash) : result error nat :=
  match layerByTxid p !! txid with
  | None => Err "unknown txid"
  | Some i => Ok i
  end.

Definition Layers (p : Proof_) : list (list Hash) := layers p.

(** The order of [RootExternalInputs]: by hash, then by index. *)
Definition outpoint_le (a b : OutPoint) : Prop :=
  (op_Hash a < op_Hash b)%N ∨
  (op_Hash a = op_Hash b ∧ (op_Index a ≤ op_Index b)%Z).

#[export] Instance outpoint_le_dec : RelDecision outpoint_le.
Proof. intros a b. unfold outpoint_le. apply _. Defined.

(** One input of a root in [RootExternalInputs]; [external] doubles as the
    [seen] set, whose keys are exactly the outpoints already collected. *)
Definition external_step (p : Proof_) (external : list OutPoint)
    (outpoint : OutPoint) : list OutPoint :=
  if bool_decide (is_Some (nodes p !! op_Hash outpoint)) then external
  else if bool_decide (outpoint ∈ external) then external
  else external ++ [outpoint].

Definition RootExternalInputs (p : Proof_) : list OutPoint :=
  merge_sort outpoint_le
    (foldl (λ external rootTxid,
       match nodes p !! rootTxid with
       | None => external
       | Some root => foldl (external_step p) external (node_inputs root)
       end) [] (RootTxids p)).

(** ** Edges: what stage 3 computes *)

(** The parents one node contributes, without the accumulators. *)
Fixpoint new_parents (nodeMap : gmap Hash Node) (ins : list OutPoint)
    (seen : gset Hash) : list Hash :=
  match ins with
  | [] => []
  | i :: ins =>
      if bool_decide (is_Some (nodeMap !! op_Hash i) ∧ op_Hash i ∉ seen)
      then op_Hash i :: new_parents nodeMap ins ({[op_Hash i]} ∪ seen)
      else new_parents nodeMap ins seen
  end.

Definition node_parents (nodeMap : gmap Hash Node) (n : Node) : list Hash :=
  new_parents nodeMap (node_inputs n) ∅.

Lemma adj_append_lookup m k v k' :
  adj (adj_append m k v) k' = adj m k' ++ (if bool_decide (k = k') then [v] else []).
Proof.
  unfold adj_append, adj at 1. rewrite lookup_insert.
  case_decide as Hk; subst.
  - by rewrite bool_decide_eq_true_2.
  - by rewrite bool_decide_eq_false_2, app_nil_r.
Qed.

Lemma adj_sort m k : adj (sortHashes <$> m) k = sortHashes (adj m k).
Proof. unfold adj. rewrite lookup_fmap. by destruct (m !! k). Qed.

Lemma elem_of_new_parents nm ins seen p :
  p ∈ new_parents nm ins seen ↔
  is_Some (nm !! p) ∧ p ∉ seen ∧ ∃ i, i ∈ ins ∧ op_Hash i = p.
Proof.
  revert seen. induction ins as [|i ins IH]; intros seen; simpl.
  { rewrite elem_of_nil. set_solver. }
  case_bool_decide as Hi.
  - rewrite elem_of_cons, IH. destruct (decide (p = op_Hash i)); set_solver.
  - rewrite IH. set_solver.
Qed.

Lemma NoDup_new_parents nm ins seen : NoDup (new_parents nm ins seen).
Proof.
  revert seen. induction ins as [|i ins IH]; intros seen; simpl; [constructor|].
  case_bool_decide; [|done]. constructor; [|done].
  rewrite elem_of_new_parents. set_solver.
Qed.

(** One step of the edge loop either skips the input or adds one edge. *)
Lemma add_edges_cons nm x i ins seen pc :
  add_edges nm x (i :: ins) seen pc =
  if bool_decide (is_Some (nm !! op_Hash i) ∧ op_Hash i ∉ seen)
  then add_edges nm x ins ({[op_Hash i]} ∪ seen)
         (adj_append pc.1 x (op_Hash i), adj_append pc.2 (op_Hash i) x)
  else add_edges nm x ins seen pc.
Proof.
  case_bool_decide as Hc; cbn [add_edges].
  - destruct Hc as [[n ->] Hs]. by rewrite bool_decide_eq_false_2.
  - destruct (nm !! op_Hash i) as [n|]; [|done].
    rewrite bool_decide_eq_true_2; [done|].
    destruct (decide (op_Hash i ∈ seen)); [done|]. destruct Hc. by split; [eexists|].
Qed.

Lemma add_edges_parents nm x ins seen pc y :
  adj (add_edges nm x ins seen pc).1 y =
  adj pc.1 y ++ (if bool_decide (x = y) then new_parents nm ins seen else []).
Proof.
  revert seen pc. induction ins as [|i ins IH]; intros seen pc.
  { simpl. case_bool_decide; by rewrite app_nil_r. }
  rewrite add_edges_cons. cbn [new_parents].
  destruct (bool_decide (is_Some _ ∧ _)); rewrite IH; [|done]. cbn [fst].
  rewrite adj_append_lookup. case_bool_decide.
  - by rewrite <-app_assoc.
  - by rewrite !app_nil_r.
Qed.

Lemma add_edges_children nm x ins seen pc y :
  adj (add_edges nm x ins seen pc).2 y =
  adj pc.2 y ++
    (if bool_decide (y ∈ new_parents nm ins seen) then [x] else []).
Proof.
  revert seen pc. induction ins as [|i ins IH]; intros seen pc.
  { simpl. by rewrite app_nil_r. }
  rewrite add_edges_cons. cbn [new_parents].
  destruct (bool_decide (is_Some _ ∧ _)); rewrite IH; [|done]. cbn [snd].
  rewrite adj_append_lookup, <-app_assoc. f_equal.
  pose proof (elem_of_new_parents nm ins ({[op_Hash i]} ∪ seen) y) as Hy.
  destruct (decide (op_Hash i = y)) as [Heq|Hne].
  - rewrite (bool_decide_eq_true_2 (op_Hash i = y)) by done.
    rewrite (bool_decide_eq_false_2 (y ∈ new_parents _ _ _)) by set_solver.
    rewrite (bool_decide_eq_true_2 (y ∈ _ :: _)) by (subst; constructor). done.
  - rewrite (bool_decide_eq_false_2 (op_Hash i = y)) by done. simpl.
    rewrite (bool_decide_ext (y ∈ new_parents nm ins ({[op_Hash i]} ∪ seen))
               (y ∈ op_Hash i :: new_parents nm ins ({[op_Hash i]} ∪ seen)));
      [done|]. rewrite elem_of_cons. naive_solver.
Qed.

Section derive_edges.
Context (nm : gmap Hash Node).

Let step := λ (pc : adjacency * adjacency) '(txid, node),
  add_edges nm txid (node_inputs node) ∅ pc.

Lemma derive_parents_fold l pc y :
  adj (foldl step pc l).1 y =
  adj pc.1 y ++
    concat ((λ '(x, n), if bool_decide (x = y) then node_parents nm n else [])
              <$> l).
Proof.
  revert pc. induction l as [|[x n] l IH]; intros pc; csimpl.
  { by rewrite app_nil_r. }
  rewrite IH. csimpl. by rewrite add_edges_parents, <-app_assoc.
Qed.

Lemma derive_children_fold l pc y :
  adj (foldl step pc l).2 y =
  adj pc.2 y ++
    concat ((λ '(x, n), if bool_decide (y ∈ node_parents nm n) then [x] else [])
              <$> l).
Proof.
  revert pc. induction l as [|[x n] l IH]; intros pc; csimpl.
  { by rewrite app_nil_r. }
  rewrite IH. csimpl. by rewrite add_edges_children, <-app_assoc.
Qed.

Lemma concat_single_key (l : list (Hash * Node)) y n :
  NoDup l.*1 → (y, n) ∈ l →
  concat ((λ '(x, n), if bool_decide (x = y) then node_parents nm n else [])
            <$> l) = node_parents nm n.
Proof.
  induction l as [|[x n'] l IH]; csimpl; [by intros _ ?%not_elem_of_nil|].
  intros [Hx Hnd]%NoDup_cons [[= -> ->]|Hin]%elem_of_cons.
  - rewrite bool_decide_eq_true_2 by done.
    replace (concat _) with (@nil Hash); [by rewrite app_nil_r|].
    clear IH Hnd. induction l as [|[z m] l IH]; csimpl; [done|].
    csimpl in Hx. rewrite bool_decide_eq_false_2 by set_solver.
    apply IH. set_solver.
  - rewrite bool_decide_eq_false_2, IH; [done| done |done|].
    intros ->. apply Hx. apply list_elem_of_fmap. by exists (y, n).
Qed.

Lemma derive_parents_Some y n :
  nm !! y = Some n → adj (derive_edges nm).1 y = node_parents nm n.
Proof.
  intros Hy. unfold derive_edges. fold step.
  rewrite derive_parents_fold.
  change (adj (∅, ∅).1 y) with (@nil Hash). rewrite app_nil_l. rewrite (concat_single_key _ _ n).
  - done.
  - apply NoDup_fst_map_to_list.
  - by apply elem_of_map_to_list.
Qed.

Lemma derive_parents_None y : nm !! y = None → adj (derive_edges nm).1 y = [].
Proof.
  intros Hy. unfold derive_edges. fold step. rewrite derive_parents_fold.
  change (adj (∅, ∅).1 y) with (@nil Hash). rewrite app_nil_l.
  assert (∀ n, (y, n) ∉ map_to_list nm) as Hn.
  { intros n Hin%elem_of_map_to_list. congruence. }
  revert Hn. generalize (map_to_list nm). intros l Hn.
  induction l as [|[x n] l IH]; csimpl; [done|].
  rewrite bool_decide_eq_false_2 by (intros ->; set_solver).
  apply IH. set_solver.
Qed.

Lemma elem_of_derive_children x c :
  c ∈ adj (derive_edges nm).2 x ↔ ∃ n, nm !! c = Some n ∧ x ∈ node_parents nm n.
Proof.
  unfold derive_edges. fold step. rewrite derive_children_fold.
  change (adj (∅, ∅).2 x) with (@nil Hash). rewrite app_nil_l.
  setoid_rewrite <-elem_of_map_to_list.
  generalize (map_to_list nm). intros l.
  induction l as [|[z m] l IH]; csimpl; [set_solver|].
  rewrite elem_of_app, IH. case_bool_decide; set_solver.
Qed.

Lemma NoDup_derive_children x : NoDup (adj (derive_edges nm).2 x).
Proof.
  unfold derive_edges. fold step. rewrite derive_children_fold.
  change (adj (∅, ∅).2 x) with (@nil Hash). rewrite app_nil_l.
  pose proof (NoDup_fst_map_to_list nm) as Hnd.
  revert Hnd. generalize (map_to_list nm). intros l.
  induction l as [|[z m] l IH]; csimpl; [constructor|].
  intros [Hz Hnd]%NoDup_cons. apply NoDup_app. split_and!.
  - case_bool_decide; repeat constructor; set_solver.
  - intros y Hy. case_bool_decide; [|by apply not_elem_of_nil in Hy].
    apply list_elem_of_singleton in Hy as ->.
    intros [k [Hk1 Hk2]]%list_elem_of_In%in_concat.
    apply list_elem_of_In, list_elem_of_fmap in Hk1 as ([z' m'] & -> & Hin).
    apply Hz, list_elem_of_fmap. exists (z', m'). split; [|done].
    apply list_elem_of_In in Hk2. case_bool_decide; set_solver.
  - by apply IH.
Qed.
End derive_edges.
