(* ===== verification/RecoveryGraph.v ===== *)
(** * Recovery proofs: correctness of [NewProof]

    The breadth-first ancestor search computes reflexive-transitive
    reachability, Kahn's layering succeeds exactly on acyclic graphs and puts
    every parent in an earlier layer, and both loops finish within their fuel.
    [WfProof] collects what a constructed proof guarantees to its clients. *)

From S2P Require Import Prelude RecoveryProof.

(** ** Breadth-first search *)

(** [x] has the in-graph parent [p]. *)
Definition has_parent (ps : adjacency) (x p : Hash) : Prop := p ∈ adj ps x.

Lemma visit_parents_spec l q r :
  ∃ new, visit_parents l q r = (q ++ new, list_to_set new ∪ r) ∧
    NoDup new ∧ (∀ x, x ∈ new → x ∈ l ∧ x ∉ r) ∧
    (∀ x, x ∈ l → x ∈ r ∨ x ∈ new).
Proof.
  revert q r. induction l as [|p l IH]; intros q r; simpl.
  { exists []. rewrite app_nil_r. split_and!; [|constructor|set_solver..].
    f_equal. set_solver. }
  case_bool_decide as Hp.
  - destruct (IH q r) as (new & -> & ? & Hin & Hcov).
    exists new. split_and!; [done|done|set_solver|]. set_solver.
  - destruct (IH (q ++ [p]) ({[p]} ∪ r)) as (new & -> & ? & Hin & Hcov).
    exists (p :: new). rewrite <-app_assoc. split_and!.
    + f_equal. set_solver.
    + constructor; [|done]. intros Hnew%Hin. set_solver.
    + set_solver.
    + set_solver.
Qed.

Lemma elem_of_edge_targets ps x p : p ∈ adj ps x → p ∈ edge_targets ps.
Proof.
  unfold adj, edge_targets. destruct (ps !! x) as [l|] eqn:Hx; simpl.
  2:{ by intros ?%not_elem_of_nil. }
  intros Hp. apply elem_of_union_list. exists (list_to_set l). split; [|set_solver].
  apply list_elem_of_fmap. exists l. split; [done|].
  apply list_elem_of_fmap. exists (x, l). split; [done|].
  by apply elem_of_map_to_list.
Qed.

Section bfs.
Context (ps : adjacency) (start : Hash).

Record bfs_inv (queue : list Hash) (r : gset Hash) : Prop := {
  bfs_queue : ∀ x, x ∈ queue → x ∈ r;
  bfs_start : start ∈ r;
  bfs_sound : ∀ x, x ∈ r → rtc (has_parent ps) start x;
  bfs_closed : ∀ x p, x ∈ r → p ∈ adj ps x → x ∈ queue ∨ p ∈ r;
}.

Lemma bfs_step x q r :
  bfs_inv (x :: q) r →
  ∃ q' r', visit_parents (adj ps x) q r = (q', r') ∧ bfs_inv q' r' ∧
    length q' + size (edge_targets ps ∖ r') <
    length (x :: q) + size (edge_targets ps ∖ r).
Proof.
  intros [Hq Hs Hsound Hcl].
  destruct (visit_parents_spec (adj ps x) q r) as (new & -> & Hnd & Hin & Hcov).
  eexists _, _. split; [done|]. split.
  - constructor; [set_solver|set_solver| |].
    + intros y [Hy|Hy]%elem_of_union; [|by apply Hsound].
      apply elem_of_list_to_set, Hin in Hy as [Hy _].
      apply rtc_r with x; [apply Hsound, Hq; constructor|done].
    + intros y p [Hy|Hy]%elem_of_union Hp; [set_solver|].
      destruct (Hcl y p Hy Hp) as [[->|?]%elem_of_cons|]; [|set_solver..].
      right. destruct (Hcov p Hp); set_solver.
  - rewrite length_app. simpl.
    assert (list_to_set new ⊆ edge_targets ps ∖ r) as Hsub.
    { intros y Hy%elem_of_list_to_set. apply Hin in Hy as [??].
      apply elem_of_difference. by split; [eapply elem_of_edge_targets|]. }
    assert (size (edge_targets ps ∖ r) =
            length new + size (edge_targets ps ∖ (list_to_set new ∪ r))) as ->.
    { rewrite <-(size_list_to_set (C:=gset Hash) new Hnd).
      rewrite <-size_union by set_solver. f_equal. apply set_eq. intros y.
      destruct (decide (y ∈ (list_to_set new : gset Hash))); set_solver. }
    lia.
Qed.

Lemma bfs_loop_spec fuel q r :
  bfs_inv q r → length q + size (edge_targets ps ∖ r) < fuel →
  ∃ r', bfs_loop fuel ps q r = Some r' ∧ bfs_inv [] r'.
Proof.
  revert q r. induction fuel as [|fuel IH]; intros q r Hinv Hf; [lia|].
  destruct q as [|x q]; simpl; [by exists r|].
  destruct (bfs_step x q r Hinv) as (q' & r' & -> & Hinv' & Hm).
  apply IH; [done|]. simpl in *. lia.
Qed.

(** The search always finishes and returns exactly the ancestors of [start]. *)
Lemma collectReachableAncestors_spec :
  ∃ r, collectReachableAncestors start ps = Some r ∧
    ∀ x, x ∈ r ↔ rtc (has_parent ps) start x.
Proof.
  unfold collectReachableAncestors.
  destruct (bfs_loop_spec (S (S (size (edge_targets ps)))) [start] {[start]})
    as (r & -> & [_ Hs Hsound Hcl]).
  - constructor; [set_solver|set_solver| |].
    + intros x ->%elem_of_singleton. constructor.
    + set_solver.
  - simpl. pose proof (subseteq_size (edge_targets ps ∖ {[start]})
      (edge_targets ps)) as Hle. specialize (Hle ltac:(set_solver)). lia.
  - exists r. split; [done|]. intros x. split; [apply Hsound|].
    revert x. apply (rtc_ind_r (.∈ r)); [done|].
    intros y z _ Hyz IH. destruct (Hcl _ _ IH Hyz) as [?%not_elem_of_nil|]; done.
Qed.
End bfs.

(** ** Kahn's algorithm *)

Lemma dec_children_spec cs m nx :
  NoDup cs →
  let st := dec_children cs (m, nx) in
  (∀ c, st.1 !! c = if bool_decide (c ∈ cs)
                    then Some (default 0 (m !! c) - 1)%Z else m !! c) ∧
  (∀ c, c ∈ st.2 ↔ c ∈ nx ∨ (c ∈ cs ∧ default 0%Z (m !! c) = 1%Z)).
Proof.
  revert m nx. induction cs as [|c cs IH]; intros m nx;
    cbn [dec_children fst snd].
  { intros _. split; [done|]. intros c. rewrite elem_of_nil. naive_solver. }
  intros [Hc Hnd]%NoDup_cons.
  destruct (IH (<[c := (default 0 (m !! c) - 1)%Z]> m)
    (if bool_decide ((default 0 (m !! c) - 1)%Z = 0%Z) then {[c]} ∪ nx else nx)
    Hnd) as [Hm Hn].
  split; intros d.
  - rewrite Hm, lookup_insert. destruct (decide (c = d)) as [Hd|Hd]; subst.
    + rewrite (bool_decide_eq_false_2 (d ∈ cs)) by done.
      rewrite (bool_decide_eq_true_2 (d ∈ d :: cs)) by constructor. done.
    + rewrite (bool_decide_ext (d ∈ cs) (d ∈ c :: cs)); [done|].
      rewrite elem_of_cons. naive_solver.
  - rewrite Hn, lookup_insert, elem_of_cons.
    destruct (decide (c = d)) as [Hd|Hd]; subst.
    + case_bool_decide; simpl.
      * split; [intros _; right; split; [by left|lia]|]. set_solver.
      * split; [naive_solver|]. intros [?|[_ ?]]; [by left|lia].
    + case_bool_decide; simpl; set_solver.
Qed.

Section kahn.
Context (nm : gmap Hash Node) (ps ch : adjacency).
Hypothesis ps_nodup : ∀ x, NoDup (adj ps x).
Hypothesis ch_nodup : ∀ x, NoDup (adj ch x).
Hypothesis ch_ps : ∀ x c, c ∈ adj ch x ↔ x ∈ adj ps c.
Hypothesis ps_dom : ∀ x p, p ∈ adj ps x → x ∈ dom nm ∧ p ∈ dom nm.

(** The parents of [c] outside the set [D] of processed nodes. *)
Definition missing (D : gset Hash) (c : Hash) : gset Hash :=
  list_to_set (adj ps c) ∖ D.

Definition deg_ok (D : gset Hash) (m : gmap Hash Z) : Prop :=
  ∀ c, c ∈ dom nm → m !! c = Some (Z.of_nat (size (missing D c))).

Lemma missing_empty D c : missing D c = ∅ ↔ ∀ p, p ∈ adj ps c → p ∈ D.
Proof.
  unfold missing. rewrite set_eq. setoid_rewrite elem_of_difference.
  setoid_rewrite elem_of_list_to_set. split.
  - intros H p Hp. destruct (decide (p ∈ D)); [done|]. set_solver.
  - set_solver.
Qed.

Lemma missing_size D x c :
  x ∉ D →
  size (missing D c) =
  size (missing ({[x]} ∪ D) c) + (if bool_decide (c ∈ adj ch x) then 1 else 0).
Proof.
  intros Hx. case_bool_decide as Hc; rewrite ch_ps in Hc.
  - assert (missing D c = {[x]} ∪ missing ({[x]} ∪ D) c) as ->.
    { unfold missing. apply set_eq. intros y.
      destruct (decide (y = x)); set_solver. }
    rewrite size_union by (unfold missing; set_solver).
    rewrite size_singleton. lia.
  - rewrite Nat.add_0_r. f_equal. unfold missing. apply set_eq. intros y.
    destruct (decide (y = x)); set_solver.
Qed.

Lemma missing_nonempty D c : missing D c ≠ ∅ ↔ 0 < size (missing D c).
Proof.
  pose proof (size_empty_iff (missing D c)) as He. fold_leibniz.
  destruct (decide (missing D c = ∅)); [|destruct (size (missing D c))];
    naive_solver lia.
Qed.

(** A node runs out of missing parents either exactly when [x] is processed or
    later. *)
Lemma missing_step D x c D2 :
  x ∉ D → {[x]} ∪ D ⊆ D2 →
  (c ∈ adj ch x ∧ size (missing D c) = 1) ∨
    (c ∈ dom nm ∧ missing ({[x]} ∪ D) c ≠ ∅ ∧ missing D2 c = ∅) ↔
  (c ∈ dom nm ∧ missing D c ≠ ∅ ∧ missing D2 c = ∅).
Proof.
  intros HxD Hsub. pose proof (missing_size D x c HxD) as Hsz.
  rewrite !missing_nonempty.
  assert (size (missing ({[x]} ∪ D) c) = 0 → missing D2 c = ∅) as Hmono.
  { rewrite size_empty_iff. fold_leibniz. rewrite !missing_empty. set_solver. }
  case_bool_decide as Hcx; [|naive_solver lia].
  assert (c ∈ dom nm) by (apply ch_ps, ps_dom in Hcx; tauto).
  destruct (decide (size (missing ({[x]} ∪ D) c) = 0)); naive_solver lia.
Qed.

(** Processing one layer moves it into [D] and collects exactly the nodes
    whose last missing parent was in it. *)
Lemma process_layer_spec li cur D k :
  deg_ok D (k_indegree k) → NoDup cur → (∀ x, x ∈ cur → x ∉ D) →
  let k' := process_layer ch li cur k in
  let D' := list_to_set cur ∪ D in
  deg_ok D' (k_indegree k') ∧
  (∀ c, c ∈ k_next k' ↔ c ∈ k_next k ∨
     (c ∈ dom nm ∧ missing D c ≠ ∅ ∧ missing D' c = ∅)) ∧
  k_processed k' = (k_processed k + Z.of_nat (length cur))%Z ∧
  (∀ x, k_layerBy k' !! x = if bool_decide (x ∈ cur) then Some li
                            else k_layerBy k !! x).
Proof.
  revert D k. induction cur as [|x cur IH]; intros D k Hdeg Hnd HD;
    cbn [process_layer list_to_set length].
  { replace (∅ ∪ D) with D by set_solver. split_and!; [done| |lia|done].
    intros c. split; [by left|]. intros [?|(? & ? & ?)]; done. }
  apply NoDup_cons in Hnd as [Hx Hnd].
  assert (x ∉ D) as HxD by set_solver.
  destruct (dec_children_spec (adj ch x) (k_indegree k) (k_next k)
              (ch_nodup x)) as [Hm Hn].
  destruct (dec_children (adj ch x) (k_indegree k, k_next k)) as [m1 n1].
  simpl in Hm, Hn.
  assert (deg_ok ({[x]} ∪ D) m1) as Hdeg1.
  { intros c Hc. rewrite Hm, (Hdeg c Hc), (missing_size D x c HxD).
    case_bool_decide; simpl; f_equal; lia. }
  destruct (IH ({[x]} ∪ D) (mkKahn m1 n1 (k_processed k + 1)
    (<[x:=li]> (k_layerBy k))) Hdeg1 Hnd ltac:(set_solver))
    as (Hd & Hnx & Hp & Hl). simpl in *.
  replace ({[x]} ∪ list_to_set cur ∪ D)
    with (list_to_set cur ∪ ({[x]} ∪ D)) by set_solver.
  split_and!; [done| |lia|].
  - intros c. rewrite Hnx, Hn.
    rewrite <-(missing_step D x c) by (done || set_solver).
    destruct (decide (c ∈ dom nm)) as [Hc|Hc].
    + rewrite (Hdeg c Hc). simpl. naive_solver lia.
    + assert (c ∉ adj ch x) by (rewrite ch_ps; intros ?%ps_dom; tauto).
      naive_solver.
  - intros y. rewrite Hl, lookup_insert.
    destruct (decide (x = y)) as [->|Hne].
    + rewrite (bool_decide_eq_false_2 (y ∈ cur)) by done.
      by rewrite (bool_decide_eq_true_2 (y ∈ y :: cur)) by constructor.
    + rewrite (bool_decide_ext (y ∈ x :: cur) (y ∈ cur)); [done|].
      rewrite elem_of_cons. naive_solver.
Qed.
(** [x] stands in layer [i]. *)
Definition in_layer (ls : list (list Hash)) (i : nat) (x : Hash) : Prop :=
  ∃ l, ls !! i = Some l ∧ x ∈ l.

Lemma in_layer_snoc ls l i x :
  in_layer (ls ++ [l]) i x ↔ in_layer ls i x ∨ (i = length ls ∧ x ∈ l).
Proof.
  unfold in_layer. split.
  - intros (l' & Hl & Hx). apply lookup_app_Some in Hl as [Hl|[Hge Hl]].
    + left. eauto.
    + apply list_lookup_singleton_Some in Hl as [? ->]. right. split; [lia|done].
  - intros [(l' & Hl & Hx)|[-> Hx]].
    + exists l'. split; [|done]. by apply lookup_app_l_Some.
    + exists l. split; [|done]. by rewrite list_lookup_middle.
Qed.

Lemma elem_of_concat_layers ls x : x ∈ concat ls ↔ ∃ i, in_layer ls i x.
Proof.
  unfold in_layer. rewrite list_elem_of_In, in_concat. split.
  - intros (l & Hl & Hx). apply list_elem_of_In, list_elem_of_lookup in Hl as [i Hi].
    exists i, l. split; [done|]. by apply list_elem_of_In.
  - intros (i & l & Hl & Hx). exists l.
    split; apply list_elem_of_In; [|done]. by apply list_elem_of_lookup_2 in Hl.
Qed.

(** What the layers computed so far, with the frontier [ready], satisfy. *)
Record layer_inv (ls : list (list Hash)) (ready : list Hash) (k : kahn) : Prop := {
  li_nodup : NoDup (concat ls ++ ready);
  li_dom : ∀ x, x ∈ concat ls ++ ready → x ∈ dom nm;
  li_deg : deg_ok (list_to_set (concat ls)) (k_indegree k);
  li_front : ∀ c, c ∈ dom nm →
    missing (list_to_set (concat ls)) c = ∅ → c ∈ concat ls ++ ready;
  li_ready : ∀ c, c ∈ ready → missing (list_to_set (concat ls)) c = ∅;
  li_processed : k_processed k = Z.of_nat (length (concat ls));
  li_layerBy : ∀ x i, k_layerBy k !! x = Some i ↔ in_layer ls i x;
  li_parents : ∀ x p i, in_layer ls i x → p ∈ adj ps x →
    ∃ j, j < i ∧ in_layer ls j p;
  li_tight : ∀ x i, in_layer ls (S i) x → ∃ p, p ∈ adj ps x ∧ in_layer ls i p;
  li_ready_tight : ∀ x i, x ∈ ready → length ls = S i →
    ∃ p, p ∈ adj ps x ∧ in_layer ls i p;
  li_sorted : ∀ l, l ∈ ls → StronglySorted N.le l;
  li_ready_sorted : StronglySorted N.le ready;
  li_nonempty : ∀ l, l ∈ ls → l ≠ [];
}.

Lemma concat_snoc {A} (ls : list (list A)) l : concat (ls ++ [l]) = concat ls ++ l.
Proof. rewrite concat_app. simpl. by rewrite app_nil_r. Qed.

(** Parents of a new layer are in earlier layers. *)
Lemma parents_snoc ls ready :
  (∀ x p i, in_layer ls i x → p ∈ adj ps x → ∃ j, j < i ∧ in_layer ls j p) →
  (∀ c, c ∈ ready → missing (list_to_set (concat ls)) c = ∅) →
  ∀ x p i, in_layer (ls ++ [ready]) i x → p ∈ adj ps x →
    ∃ j, j < i ∧ in_layer (ls ++ [ready]) j p.
Proof.
  intros Hpa Hrd x p i. rewrite in_layer_snoc. intros [Hx|[-> Hx]] Hp.
  - destruct (Hpa _ _ _ Hx Hp) as (j & ? & ?). exists j.
    rewrite in_layer_snoc. auto.
  - pose proof (proj1 (missing_empty _ x) (Hrd x Hx) p Hp) as HpD.
    apply elem_of_list_to_set, elem_of_concat_layers in HpD as [j Hj].
    exists j. rewrite in_layer_snoc. split; [|by left].
    destruct Hj as (l & Hl & _). by apply lookup_lt_Some in Hl.
Qed.

(** A node that becomes ready has a parent in the layer just processed. *)
Lemma ready_tight_snoc ls ready D x i :
  missing D x ≠ ∅ → missing (list_to_set ready ∪ D) x = ∅ → i = length ls →
  ∃ p, p ∈ adj ps x ∧ in_layer (ls ++ [ready]) i p.
Proof.
  intros Hm Hm' ->.
  destruct (set_choose_or_empty (missing D x)) as [[p Hp]|He]; [|set_solver].
  unfold missing in Hp. apply elem_of_difference in Hp as [Hp HpD].
  apply elem_of_list_to_set in Hp. exists p. split; [done|].
  rewrite in_layer_snoc. right. split; [done|].
  pose proof (proj1 (missing_empty _ x) Hm' p Hp). set_solver.
Qed.

Lemma layer_inv_step ls ready k :
  ready ≠ [] → layer_inv ls ready k →
  let k' := process_layer ch (length ls) ready
              (mkKahn (k_indegree k) ∅ (k_processed k) (k_layerBy k)) in
  layer_inv (ls ++ [ready]) (sortHashes (elements (k_next k'))) k'.
Proof.
  intros Hne [Hnd Hdom Hdeg Hfr Hrd Hpr Hlb Hpa Hti Hrt Hso Hrs Hem].
  apply NoDup_app in Hnd as (Hnd1 & Hdisj & Hnd2).
  set (D := list_to_set (concat ls) : gset Hash) in *.
  destruct (process_layer_spec (length ls) ready D
    (mkKahn (k_indegree k) ∅ (k_processed k) (k_layerBy k)) Hdeg Hnd2)
    as (Hdeg' & Hnx & Hpr' & Hlb'); simpl in *.
  { intros x Hx HD%elem_of_list_to_set. by apply (Hdisj x). }
  set (k' := process_layer _ _ _ _) in *.
  assert (∀ c, c ∈ sortHashes (elements (k_next k')) ↔
    c ∈ dom nm ∧ missing D c ≠ ∅ ∧ missing (list_to_set ready ∪ D) c = ∅)
    as Hready'.
  { intros c. unfold sortHashes. rewrite elem_of_hash_sort, elem_of_elements, Hnx.
    set_solver. }
  assert (list_to_set (concat (ls ++ [ready])) = list_to_set ready ∪ D) as HD'.
  { rewrite concat_snoc, list_to_set_app_L. unfold D. set_solver. }
  assert (∀ c, missing D c = ∅ → missing (list_to_set ready ∪ D) c = ∅) as Hmono.
  { intros c. rewrite !missing_empty. set_solver. }
  assert (∀ c, c ∈ concat ls → missing D c = ∅) as Hdone.
  { intros c [i Hc]%elem_of_concat_layers. apply missing_empty. intros p Hp.
    destruct (Hpa _ _ _ Hc Hp) as (j & _ & Hj).
    apply elem_of_list_to_set, elem_of_concat_layers. eauto. }
  constructor; rewrite ?HD', ?concat_snoc, <-?app_assoc.
  - apply NoDup_app. split_and!; [done| |apply NoDup_app; split_and!; [done| |]].
    + intros x Hx [Hr|[_ [Hm _]]%Hready']%elem_of_app; [by apply (Hdisj x)|].
      by apply Hm, Hdone.
    + intros x Hx [_ [Hm _]]%Hready'. by apply Hm, Hrd.
    + apply NoDup_hash_sort, NoDup_elements.
  - intros x. rewrite app_assoc, elem_of_app, Hready'. intros [?|[? _]]; auto.
  - done.
  - intros c Hc Hm. rewrite app_assoc, elem_of_app, Hready'.
    destruct (decide (missing D c = ∅)); auto.
  - intros c. rewrite Hready'. tauto.
  - rewrite Hpr', Hpr, length_app. lia.
  - intros x i. rewrite Hlb', in_layer_snoc. case_bool_decide as Hx.
    + split; [intros [= <-]; by right|]. intros [Hi|[-> _]]; [|done].
      exfalso. apply (Hdisj x); [|done]. apply elem_of_concat_layers. eauto.
    + rewrite Hlb. naive_solver.
  - by apply parents_snoc.
  - intros x i. setoid_rewrite in_layer_snoc. intros [Hx|[Hi Hx]].
    + destruct (Hti _ _ Hx) as (p & ? & ?). eauto.
    + destruct (Hrt x i Hx (eq_sym Hi)) as (p & ? & ?). eauto.
  - intros x i Hx%Hready' Hi. rewrite length_app in Hi. simpl in Hi.
    apply (ready_tight_snoc ls ready D); [tauto..|lia].
  - intros l [?| ->%list_elem_of_singleton]%elem_of_app; auto.
  - apply hash_sort_sorted.
  - intros l [?| ->%list_elem_of_singleton]%elem_of_app; auto.
Qed.

Lemma layer_loop_spec fuel ls ready k :
  layer_inv ls ready k →
  size nm - length (concat ls) < fuel →
  ∃ ls' k', layer_loop fuel ch ready ls k = Some (ls', k') ∧
    layer_inv ls' [] k'.
Proof.
  revert ls ready k. induction fuel as [|fuel IH]; intros ls ready k Hinv Hf; [lia|].
  destruct ready as [|x ready]; cbn [layer_loop]; [eauto|].
  pose proof (layer_inv_step ls (x :: ready) k ltac:(done) Hinv) as Hstep.
  apply IH; [done|]. destruct Hinv as [Hnd Hdom ???????????].
  assert (length (concat ls ++ x :: ready) ≤ size nm) as Hle.
  { rewrite <-(size_list_to_set (C:=gset Hash) _ Hnd), <-size_dom.
    apply subseteq_size. intros y Hy%elem_of_list_to_set. auto. }
  rewrite concat_snoc, length_app in *. simpl in *. lia.
Qed.
Lemma layer_inv_init :
  let indegree := map_imap (λ txid _, Some (Z.of_nat (length (adj ps txid)))) nm in
  layer_inv []
    (sortHashes (elements (dom (filter (λ '(_, c), c = 0%Z) indegree))))
    (mkKahn indegree ∅ 0 ∅).
Proof.
  intros indegree.
  assert (∀ c, missing ∅ c = list_to_set (adj ps c)) as Hmi.
  { intros c. unfold missing. set_solver. }
  assert (deg_ok ∅ indegree) as Hdeg.
  { intros c [n Hn]%elem_of_dom. unfold indegree.
    rewrite map_lookup_imap, Hn, Hmi, size_list_to_set; [done|]. apply ps_nodup. }
  assert (∀ c, c ∈ dom (filter (λ '(_, d), d = 0%Z) indegree) ↔
    c ∈ dom nm ∧ missing ∅ c = ∅) as Hready.
  { intros c. rewrite elem_of_dom. split.
    - intros [d [Hd ->]%map_lookup_filter_Some].
      assert (c ∈ dom nm) as Hc.
      { unfold indegree in Hd. rewrite map_lookup_imap in Hd.
        apply elem_of_dom. by destruct (nm !! c). }
      split; [done|]. rewrite (Hdeg c Hc) in Hd. injection Hd as Hd.
      apply leibniz_equiv, size_empty_iff. lia.
    - intros [Hc Hm]. exists 0%Z. apply map_lookup_filter_Some.
      rewrite (Hdeg c Hc), Hm, size_empty. done. }
  constructor; unfold sortHashes; simpl; rewrite ?list_to_set_nil_L.
  - apply NoDup_hash_sort, NoDup_elements.
  - intros x. rewrite elem_of_hash_sort, elem_of_elements, Hready. tauto.
  - done.
  - intros c Hc Hm. rewrite elem_of_hash_sort, elem_of_elements, Hready. tauto.
  - intros c. rewrite elem_of_hash_sort, elem_of_elements, Hready. tauto.
  - done.
  - intros x i. rewrite lookup_empty. unfold in_layer. set_solver.
  - unfold in_layer. set_solver.
  - unfold in_layer. set_solver.
  - done.
  - set_solver.
  - apply hash_sort_sorted.
  - set_solver.
Qed.

(** A layering of the whole graph. *)
Record Layering (ls : list (list Hash)) (layerBy : gmap Hash nat) : Prop := {
  lay_perm : concat ls ≡ₚ elements (dom nm);
  lay_by : ∀ x i, layerBy !! x = Some i ↔ in_layer ls i x;
  lay_parents : ∀ x p i, in_layer ls i x → p ∈ adj ps x →
    ∃ j, j < i ∧ in_layer ls j p;
  lay_tight : ∀ x i, in_layer ls (S i) x → ∃ p, p ∈ adj ps x ∧ in_layer ls i p;
  lay_sorted : ∀ l, l ∈ ls → StronglySorted N.le l;
  lay_nonempty : ∀ l, l ∈ ls → l ≠ [];
}.

(** No fuel error, and the cycle error exactly when nodes were left over. *)
Lemma buildLayers_cases :
  ∃ ls k, layer_inv ls [] k ∧
    buildLayers nm ps ch =
      if bool_decide (length (concat ls) = size nm)
      then Ok (ls, k_layerBy k) else Err "recovery proof contains a cycle".
Proof.
  unfold buildLayers.
  destruct (layer_loop_spec (S (size nm)) _ _ _ layer_inv_init)
    as (ls & k & Heq & Hinv); [simpl; lia|].
  rewrite Heq. exists ls, k. split; [done|]. rewrite (li_processed _ _ _ Hinv).
  erewrite bool_decide_ext; [done|]. lia.
Qed.

Lemma layer_inv_complete ls k :
  layer_inv ls [] k → length (concat ls) = size nm → Layering ls (k_layerBy k).
Proof.
  intros [Hnd Hdom _ _ _ _ Hlb Hpa Hti _ Hso _ Hem] Hlen.
  rewrite app_nil_r in *. constructor; try done.
  apply NoDup_Permutation_bis.
  - apply NoDup_ListNoDup, Hnd.
  - apply Nat.eq_le_incl. rewrite Hlen, <-size_dom. done.
  - intros x Hx%list_elem_of_In. apply list_elem_of_In, elem_of_elements. auto.
Qed.

Lemma buildLayers_ok ls lb : buildLayers nm ps ch = Ok (ls, lb) → Layering ls lb.
Proof.
  destruct buildLayers_cases as (ls' & k & Hinv & ->).
  case_bool_decide as Hlen; [|done]. intros [= <- <-].
  by apply layer_inv_complete.
Qed.

(** A graph has a rank function when every edge leads to a smaller rank: it is
    acyclic. *)
Definition ranked (rank : Hash → nat) : Prop :=
  ∀ x p, p ∈ adj ps x → rank p < rank x.

Lemma layer_inv_ranked rank ls k :
  ranked rank → layer_inv ls [] k → ∀ x, x ∈ dom nm → x ∈ concat ls.
Proof.
  intros Hr Hinv x. induction x as [x IH] using (induction_ltof1 _ rank). intros Hx.
  pose proof (li_front _ _ _ Hinv x Hx) as Hfr. rewrite app_nil_r in Hfr.
  apply Hfr, missing_empty. intros p Hp. apply elem_of_list_to_set, IH.
  - by apply Hr.
  - by apply (ps_dom x).
Qed.

Lemma buildLayers_complete :
  is_ok (buildLayers nm ps ch) = true ↔ ∃ rank, ranked rank.
Proof.
  split.
  - destruct (buildLayers nm ps ch) as [[ls lb]|] eqn:Hb; [|done]. intros _.
    apply buildLayers_ok in Hb as Hl. exists (λ x, default 0 (lb !! x)).
    intros x p Hp. destruct (ps_dom x p Hp) as [Hx _].
    assert (x ∈ concat ls) as [i Hi]%elem_of_concat_layers.
    { rewrite (lay_perm _ _ Hl). by apply elem_of_elements. }
    destruct (lay_parents _ _ Hl _ _ _ Hi Hp) as (j & Hlt & Hj).
    apply (lay_by _ _ Hl) in Hi as ->, Hj as ->. done.
  - intros [rank Hr]. destruct buildLayers_cases as (ls & k & Hinv & ->).
    rewrite bool_decide_eq_true_2; [done|].
    destruct Hinv as [Hnd Hdom ???????????] eqn:E. clear E. rewrite app_nil_r in *.
    rewrite <-(size_list_to_set (C:=gset Hash) _ Hnd), <-size_dom. f_equal.
    apply set_eq. intros x. rewrite elem_of_list_to_set. split; [apply Hdom|].
    eapply layer_inv_ranked; [done|]. constructor; try done; by rewrite app_nil_r.
Qed.
End kahn.

(** ** The interface of a constructed proof *)

(** What [NewProof] promises to the session, the planner and the unroll state
    machine. *)
Class WfProof (p : Proof_) : Prop := {
  wf_csv : (0 ≤ csvDelay p ≤ MaxCSVDelay)%Z;
  wf_target : op_Hash (targetOutpoint p) ∈ dom (nodes p);
  wf_parents : ∀ x q, q ∈ adj (parents p) x ↔
    q ∈ dom (nodes p) ∧
    ∃ n i, nodes p !! x = Some n ∧ i ∈ node_inputs n ∧ op_Hash i = q;
  wf_parents_nodup : ∀ x, NoDup (adj (parents p) x);
  wf_parents_sorted : ∀ x, StronglySorted N.le (adj (parents p) x);
  wf_children : ∀ x c, c ∈ adj (children p) x ↔ x ∈ adj (parents p) c;
  wf_children_nodup : ∀ x, NoDup (adj (children p) x);
  wf_reach : ∀ x, x ∈ dom (nodes p) →
    rtc (has_parent (parents p)) (op_Hash (targetOutpoint p)) x;
  wf_layering : Layering (nodes p) (parents p) (layers p) (layerByTxid p);
}.

Section specification.
Context `{!Chain}.

(** The node list names the transaction [x] as node [n]. *)
Definition listed (ns : list (option Node)) (x : Hash) (n : Node) : Prop :=
  Some n ∈ ns ∧ ∃ tx, Tx n = Some tx ∧ TxHash tx = x.

Definition txids (ns : list (option Node)) : list Hash :=
  omap (λ n, TxHash <$> (n ≫= Tx)) ns.

(** Transaction [x] of the list spends an output of transaction [q] of the
    list. *)
Definition spends (ns : list (option Node)) (x q : Hash) : Prop :=
  q ∈ txids ns ∧ ∃ n i, listed ns x n ∧ i ∈ node_inputs n ∧ op_Hash i = q.

(** The graphs a recovery proof is meant to be built from. *)
Record valid_graph (target : OutPoint) (csv : Z) (ns : list (option Node)) :
    Prop := {
  vg_size : ns ≠ [] ∧ (Z.of_nat (length ns) ≤ MaxProofNodes)%Z;
  vg_csv : (csv ≤ MaxCSVDelay)%Z;
  vg_nodes : ∀ n, n ∈ ns → is_Some (n ≫= Tx);
  vg_nodup : NoDup (txids ns);
  vg_target : ∃ n tx, listed ns (op_Hash target) n ∧ Tx n = Some tx ∧
    (op_Index target < Z.of_nat (length (TxOuts tx)))%Z;
  vg_contributes : ∀ x, x ∈ txids ns → rtc (spends ns) (op_Hash target) x;
  vg_acyclic : ∃ rank : Hash → nat, ∀ x q, spends ns x q → rank q < rank x;
}.

Lemma elem_of_txids ns x : x ∈ txids ns ↔ ∃ n, listed ns x n.
Proof.
  unfold txids, listed. rewrite list_elem_of_omap. split.
  - intros ([n|] & Hn & Hx); simpl in Hx; [|done].
    destruct (Tx n) as [tx|] eqn:Htx; simpl in Hx; [|done].
    injection Hx as <-. eauto.
  - intros (n & Hn & tx & Htx & <-). exists (Some n). simpl. by rewrite Htx.
Qed.

(** Validity only depends on the collection of nodes. *)
Lemma valid_graph_perm target csv ns ns' :
  ns ≡ₚ ns' → valid_graph target csv ns → valid_graph target csv ns'.
Proof.
  intros Hperm [[Hne Hsz] ? Hn Hnd (n & tx & Hl & ?) Hc [rank Hr]].
  assert (∀ x n, listed ns x n ↔ listed ns' x n) as Hli.
  { intros. unfold listed. by rewrite Hperm. }
  assert (txids ns ≡ₚ txids ns') as Htx by (unfold txids; by rewrite Hperm).
  assert (∀ x q, spends ns x q ↔ spends ns' x q) as Hs.
  { intros. unfold spends. rewrite Htx. by setoid_rewrite Hli. }
  constructor; [|done| | | | |].
  - split; [|by rewrite <-Hperm]. intros ->. by apply Hne, Permutation_nil_r.
  - intros o. rewrite <-Hperm. apply Hn.
  - by rewrite <-Htx.
  - exists n, tx. by rewrite <-Hli.
  - intros x. rewrite <-Htx. intros Hx%Hc. eapply rtc_subrel; [|done].
    intros ??. by rewrite Hs.
  - exists rank. intros x q. rewrite <-Hs. apply Hr.
Qed.

Lemma index_nodes_ok ns m m' :
  index_nodes ns m = Ok m' →
  (∀ n, n ∈ ns → is_Some (n ≫= Tx)) ∧ NoDup (txids ns) ∧
  (∀ x, x ∈ txids ns → m !! x = None) ∧
  (∀ x n, m' !! x = Some n ↔ m !! x = Some n ∨ listed ns x n).
Proof.
  revert m. induction ns as [|[n|] ns IH]; intros m; simpl; [| |done].
  { intros [= <-]. unfold listed. split_and!; [set_solver|constructor|set_solver|].
    set_solver. }
  destruct (Tx n) as [tx|] eqn:Htx; simpl; [|done].
  destruct (m !! TxHash tx) eqn:Hm; [done|].
  intros (Hall & Hnd & Hfr & Hm')%IH.
  assert (TxHash tx ∉ txids ns) as Hnew.
  { intros Hin. specialize (Hfr _ Hin). by rewrite lookup_insert_eq in Hfr. }
  split_and!.
  - intros o [->|Ho]%elem_of_cons; [|auto]. simpl. rewrite Htx. eauto.
  - by constructor.
  - intros x [->|Hx]%elem_of_cons; [done|].
    specialize (Hfr _ Hx). rewrite lookup_insert in Hfr. by case_decide.
  - intros x n'. rewrite Hm', lookup_insert. unfold listed. setoid_rewrite elem_of_cons.
    case_decide as Hx; subst; [|naive_solver].
    split; [naive_solver|]. intros [?|([?|?] & ? & ? & ?)]; [naive_solver..|].
    exfalso. apply Hnew, elem_of_txids. unfold listed. naive_solver.
Qed.

Lemma index_nodes_no_fuel ns m : index_nodes ns m ≠ Err "out of fuel".
Proof.
  revert m. induction ns as [|[n|] ns IH]; intros m; simpl; [done| |done].
  destruct (Tx n); simpl; [|done]. by destruct (m !! _).
Qed.

Lemma index_nodes_complete ns m :
  (∀ n, n ∈ ns → is_Some (n ≫= Tx)) → NoDup (txids ns) →
  (∀ x, x ∈ txids ns → m !! x = None) → ∃ m', index_nodes ns m = Ok m'.
Proof.
  revert m. induction ns as [|[n|] ns IH]; intros m Hall Hnd Hfr; simpl.
  - eauto.
  - destruct (Hall (Some n)) as [tx Htx]; [constructor|]. simpl in *.
    rewrite Htx in *. simpl in *. apply NoDup_cons in Hnd as [Hn Hnd].
    rewrite (Hfr (TxHash tx)) by constructor. apply IH; [set_solver|done|].
    intros x Hx. rewrite lookup_insert_ne by set_solver. set_solver.
  - destruct (Hall None) as [? [=]]. constructor.
Qed.
End specification.

(** ** The edges of an indexed graph *)

Section edges.
Context (nm : gmap Hash Node).
Let ps := sortHashes <$> (derive_edges nm).1.
Let ch := sortHashes <$> (derive_edges nm).2.

Lemma edges_parents x q :
  q ∈ adj ps x ↔
  q ∈ dom nm ∧ ∃ n i, nm !! x = Some n ∧ i ∈ node_inputs n ∧ op_Hash i = q.
Proof.
  unfold ps. rewrite adj_sort. unfold sortHashes. rewrite elem_of_hash_sort.
  destruct (nm !! x) as [n|] eqn:Hx.
  - rewrite (derive_parents_Some _ _ _ Hx). unfold node_parents.
    rewrite elem_of_new_parents, elem_of_dom. set_solver.
  - rewrite (derive_parents_None _ _ Hx), elem_of_nil. naive_solver.
Qed.

Lemma edges_parents_nodup x : NoDup (adj ps x).
Proof.
  unfold ps. rewrite adj_sort. apply NoDup_hash_sort.
  destruct (nm !! x) as [n|] eqn:Hx.
  - rewrite (derive_parents_Some _ _ _ Hx). apply NoDup_new_parents.
  - rewrite (derive_parents_None _ _ Hx). constructor.
Qed.

Lemma edges_parents_sorted x : StronglySorted N.le (adj ps x).
Proof. unfold ps. rewrite adj_sort. apply hash_sort_sorted. Qed.

Lemma edges_children_nodup x : NoDup (adj ch x).
Proof.
  unfold ch. rewrite adj_sort. apply NoDup_hash_sort, NoDup_derive_children.
Qed.

Lemma edges_children x c : c ∈ adj ch x ↔ x ∈ adj ps c.
Proof.
  unfold ch. rewrite adj_sort. unfold sortHashes.
  rewrite elem_of_hash_sort, elem_of_derive_children, edges_parents.
  unfold node_parents. setoid_rewrite elem_of_new_parents.
  rewrite elem_of_dom. set_solver.
Qed.

Lemma edges_dom x p : p ∈ adj ps x → x ∈ dom nm ∧ p ∈ dom nm.
Proof.
  intros (? & n & i & Hx & _)%edges_parents. split; [|done]. apply elem_of_dom. eauto.
Qed.
End edges.

(** ** [NewProof] *)

Section new_proof_correct.
Context `{!Chain}.

(** The constructed map holds the listed nodes, and its edges are the spends. *)
Lemma index_edges ns nm :
  index_nodes ns ∅ = Ok nm →
  (∀ x, x ∈ dom nm ↔ x ∈ txids ns) ∧
  (∀ x q, has_parent (sortHashes <$> (derive_edges nm).1) x q ↔ spends ns x q).
Proof.
  intros (_ & _ & _ & Hnm)%index_nodes_ok.
  assert (∀ x, x ∈ dom nm ↔ x ∈ txids ns) as Hdom.
  { intros x. rewrite elem_of_dom, elem_of_txids. unfold is_Some.
    setoid_rewrite Hnm. setoid_rewrite lookup_empty. naive_solver. }
  split; [done|]. intros x q. unfold has_parent, spends. rewrite edges_parents, Hdom.
  setoid_rewrite Hnm. setoid_rewrite lookup_empty. naive_solver.
Qed.

Lemma NewProof_inv target csv ns p :
  NewProof target csv ns = Ok p →
  ∃ n ls lb r,
    index_nodes ns ∅ = Ok (nodes p) ∧
    (ns ≠ [] ∧ (Z.of_nat (length ns) ≤ MaxProofNodes)%Z) ∧
    (csv ≤ MaxCSVDelay)%Z ∧
    nodes p !! op_Hash target = Some n ∧
    (op_Index target < Z.of_nat (length (from_option TxOuts [] (Tx n))))%Z ∧
    collectReachableAncestors (op_Hash target)
      (sortHashes <$> (derive_edges (nodes p)).1) = Some r ∧
    dom (nodes p) ⊆ r ∧
    buildLayers (nodes p) (sortHashes <$> (derive_edges (nodes p)).1)
      (sortHashes <$> (derive_edges (nodes p)).2) = Ok (ls, lb) ∧
    p = mkProof target csv (nodes p)
          (sortHashes <$> (derive_edges (nodes p)).1)
          (sortHashes <$> (derive_edges (nodes p)).2) ls lb.
Proof.
  unfold NewProof. intros HP. inv_ok. destruct (a !! op_Hash target) eqn:Hn; [|done].
  inv_ok. destruct (derive_edges a) as [ps ch] eqn:Hd.
  destruct (collectReachableAncestors _ _) as [r|] eqn:Hr; [|done].
  inv_ok. destruct a0 as [ls lb]. injection HP as <-. simpl. rewrite Hd. simpl.
  zbool. destruct ns as [|o ns]; [done|].
  exists n, ls, lb, r. split_and!; done.
Qed.

Lemma NewProof_wf target csv ns p :
  is_uint32 csv → NewProof target csv ns = Ok p → WfProof p.
Proof.
  intros Hcsv (n & ls & lb & r & Hix & Hsz & Hmax & Ht & Hout & Hr & Hsub & Hb & Hp)
    %NewProof_inv.
  set (nm := nodes p) in *.
  destruct (collectReachableAncestors_spec
    (sortHashes <$> (derive_edges nm).1) (op_Hash target)) as (r' & Hr' & Hspec).
  rewrite Hr in Hr'. injection Hr' as <-.
  rewrite Hp. constructor; simpl.
  - unfold is_uint32 in Hcsv. lia.
  - apply elem_of_dom. eauto.
  - apply edges_parents.
  - apply edges_parents_nodup.
  - apply edges_parents_sorted.
  - apply edges_children.
  - apply edges_children_nodup.
  - intros x Hx. by apply Hspec, Hsub.
  - eapply (buildLayers_ok _ _ (sortHashes <$> (derive_edges nm).2));
      [|apply edges_children_nodup|apply edges_children|apply edges_dom|done].
    apply edges_parents_nodup.
Qed.

(** Acceptance and rejection: [NewProof] succeeds on exactly the valid graphs. *)
Lemma NewProof_sound target csv ns p :
  NewProof target csv ns = Ok p → valid_graph target csv ns.
Proof.
  intros (n & ls & lb & r & Hix & Hsz & Hmax & Ht & Hout & Hr & Hsub & Hb & Hp)
    %NewProof_inv.
  destruct (index_edges _ _ Hix) as [Hdom Hedge].
  destruct (index_nodes_ok _ _ _ Hix) as (Hall & Hnd & _ & Hnm).
  constructor; [done|done|done|done| | |].
  - apply Hnm in Ht as [?|Hl]; [done|]. destruct Hl as (? & tx & Htx & Heq).
    exists n, tx. rewrite Htx in Hout. split_and!; [|done|done]. split; eauto.
  - intros x Hx%Hdom%Hsub.
    destruct (collectReachableAncestors_spec
      (sortHashes <$> (derive_edges (nodes p)).1) (op_Hash target))
      as (r' & Hr' & Hspec). rewrite Hr in Hr'. injection Hr' as <-.
    apply Hspec in Hx. eapply rtc_subrel; [|done]. intros ??. by rewrite Hedge.
  - destruct (proj1 (buildLayers_complete (nodes p) _ _ (edges_parents_nodup _)
      (edges_children_nodup _) (edges_children _) (edges_dom _)))
      as [rank Hrank]; [by rewrite Hb|].
    exists rank. intros x q Hs%Hedge. by apply Hrank.
Qed.

Lemma NewProof_complete target csv ns :
  valid_graph target csv ns → ∃ p, NewProof target csv ns = Ok p.
Proof.
  intros [[Hne Hlen] Hcsv Hall Hnd (n & tx & Hl & Htx & Hout) Hreach [rank Hrank]].
  destruct (index_nodes_complete ns ∅ Hall Hnd) as [nm Hix]; [done|].
  destruct (index_edges _ _ Hix) as [Hdom Hedge].
  destruct (index_nodes_ok _ _ _ Hix) as (_ & _ & _ & Hnm).
  unfold NewProof. destruct ns as [|o ns]; [done|]. simpl negb.
  rewrite (proj2 (Z.leb_le _ _) Hlen), (proj2 (Z.leb_le _ _) Hcsv), Hix.
  rewrite (proj2 (Hnm (op_Hash target) n)) by (by right).
  rewrite Htx. simpl. rewrite (proj2 (Z.ltb_lt _ _) Hout).
  destruct (derive_edges nm) as [ps ch] eqn:Hd.
  destruct (collectReachableAncestors_spec (sortHashes <$> ps) (op_Hash target))
    as (r & -> & Hspec).
  replace ps with (derive_edges nm).1 in * by (by rewrite Hd).
  replace ch with (derive_edges nm).2 in * by (by rewrite Hd).
  rewrite bool_decide_eq_true_2.
  2:{ intros x Hx%Hdom%Hreach. apply Hspec. eapply rtc_subrel; [|done].
      intros ??. by rewrite Hedge. }
  destruct (buildLayers nm _ _) as [[ls lb]|] eqn:Hb; [eauto|].
  pose proof (proj2 (buildLayers_complete nm _ _ (edges_parents_nodup _)
    (edges_children_nodup _) (edges_children _) (edges_dom _))) as Hc.
  rewrite Hb in Hc. discriminate Hc. exists rank. intros x q Hq. by apply Hrank, Hedge.
Qed.
End new_proof_correct.

(** ** Consequences for clients of a constructed proof *)

Section wf.
Context (p : Proof_) `{!WfProof p}.

Lemma wf_layers_elem x : x ∈ concat (layers p) ↔ x ∈ dom (nodes p).
Proof. by rewrite (lay_perm _ _ _ _ wf_layering), elem_of_elements. Qed.

Lemma wf_layers_nodup : NoDup (concat (layers p)).
Proof. rewrite (lay_perm _ _ _ _ wf_layering). apply NoDup_elements. Qed.

Lemma wf_layer_exists x : x ∈ dom (nodes p) → ∃ i, in_layer (layers p) i x.
Proof. by rewrite <-wf_layers_elem, elem_of_concat_layers. Qed.

Lemma wf_parent_dom x q :
  q ∈ adj (parents p) x → x ∈ dom (nodes p) ∧ q ∈ dom (nodes p).
Proof.
  intros (? & n & i & Hx & _)%wf_parents. split; [|done]. apply elem_of_dom. eauto.
Qed.

Lemma wf_layer_unique x i j :
  in_layer (layers p) i x → in_layer (layers p) j x → i = j.
Proof.
  rewrite <-!(lay_by _ _ _ _ wf_layering). congruence.
Qed.

Lemma wf_layer_lt x q i j :
  q ∈ adj (parents p) x → in_layer (layers p) i x → in_layer (layers p) j q → j < i.
Proof.
  intros Hq Hi Hj. destruct (lay_parents _ _ _ _ wf_layering _ _ _ Hi Hq)
    as (k & Hlt & Hk). by rewrite (wf_layer_unique _ _ _ Hj Hk).
Qed.

(** Walking up from a node never increases the layer. *)
Lemma wf_layer_rtc x q i j :
  rtc (has_parent (parents p)) x q → in_layer (layers p) i x →
  in_layer (layers p) j q → q = x ∨ j < i.
Proof.
  intros Hr. revert i. induction Hr as [x|x y z Hxy Hyz IH]; intros i Hi Hj; [by left|].
  right. destruct (lay_parents _ _ _ _ wf_layering _ _ _ Hi Hxy) as (k & Hlt & Hk).
  destruct (IH k Hk Hj) as [->|?]; [|lia]. by rewrite (wf_layer_unique _ _ _ Hj Hk).
Qed.

(** Well-founded induction along parent edges. *)
Lemma wf_parent_ind (P : Hash → Prop) :
  (∀ x, x ∈ dom (nodes p) → (∀ q, q ∈ adj (parents p) x → P q) → P x) →
  ∀ x, x ∈ dom (nodes p) → P x.
Proof.
  intros IH x Hx. destruct (wf_layer_exists x Hx) as [i Hi].
  revert x Hx Hi. induction i as [i IHi] using lt_wf_ind. intros x Hx Hi.
  apply IH; [done|]. intros q Hq.
  destruct (lay_parents _ _ _ _ wf_layering _ _ _ Hi Hq) as (j & Hj & Hqj).
  by apply (IHi j); [|apply (wf_parent_dom x)|].
Qed.

(** Either every node satisfies [P] or some earliest one does not. *)
Lemma wf_frontier (P : Hash → Prop) `{!∀ x, Decision (P x)} :
  (∀ x, x ∈ dom (nodes p) → P x) ∨
  ∃ x, x ∈ dom (nodes p) ∧ ¬ P x ∧ ∀ q, q ∈ adj (parents p) x → P q.
Proof.
  destruct (filter (λ x, ¬ P x ∧ Forall P (adj (parents p) x))
              (elements (dom (nodes p)))) as [|x l] eqn:Hf.
  - left. apply wf_parent_ind. intros x Hx IH.
    destruct (decide (P x)); [done|]. exfalso. eapply (not_elem_of_nil x).
    rewrite <-Hf, list_elem_of_filter, elem_of_elements, Forall_forall. auto.
  - right. exists x. assert (x ∈ x :: l) as Hx by constructor.
    rewrite <-Hf, list_elem_of_filter, elem_of_elements, Forall_forall in Hx.
    naive_solver.
Qed.

(** A parent-closed set of nodes that holds the target holds everything. *)
Lemma wf_closed_target (P : Hash → Prop) :
  (∀ x q, P x → q ∈ adj (parents p) x → P q) →
  P (op_Hash (targetOutpoint p)) → ∀ x, x ∈ dom (nodes p) → P x.
Proof.
  intros Hcl Ht x Hx%wf_reach. revert x Hx.
  apply (rtc_ind_r P); [done|]. intros y z _ Hyz HP. by apply (Hcl y).
Qed.

Lemma wf_root_iff x :
  x ∈ RootTxids p ↔ x ∈ dom (nodes p) ∧ adj (parents p) x = [].
Proof.
  assert (x ∈ RootTxids p ↔ in_layer (layers p) 0 x) as ->.
  { unfold RootTxids, in_layer. destruct (layers p); set_solver. }
  split.
  - intros H0. split; [apply wf_layers_elem, elem_of_concat_layers; eauto|].
    destruct (adj (parents p) x) as [|q l] eqn:Hq; [done|].
    destruct (lay_parents _ _ _ _ wf_layering x q 0 H0) as (j & ? & _); [|lia].
    rewrite Hq. constructor.
  - intros [Hx Hn]. destruct (wf_layer_exists x Hx) as [[|i] Hi]; [done|].
    destruct (lay_tight _ _ _ _ wf_layering _ _ Hi) as (q & Hq & _).
    rewrite Hn in Hq. by apply not_elem_of_nil in Hq.
Qed.

Lemma Layer_in_layer x i : Layer p x = Ok i ↔ in_layer (layers p) i x.
Proof.
  rewrite <-(lay_by _ _ _ _ wf_layering). unfold Layer.
  destruct (layerByTxid p !! x); naive_solver congruence.
Qed.

Lemma ParentTxids_ok x :
  x ∈ dom (nodes p) → ParentTxids p x = Ok (adj (parents p) x).
Proof. intros [n Hn]%elem_of_dom. unfold ParentTxids. by rewrite Hn. Qed.
End wf.

(** ** External inputs of the roots *)

Lemma external_fold p ins ext o :
  o ∈ foldl (external_step p) ext ins ↔
  o ∈ ext ∨ (o ∈ ins ∧ nodes p !! op_Hash o = None).
Proof.
  revert ext. induction ins as [|i ins IH]; intros ext; simpl.
  { rewrite elem_of_nil. naive_solver. }
  rewrite IH, elem_of_cons. unfold external_step.
  case_bool_decide as Hi.
  { destruct Hi as [? Hi]. naive_solver congruence. }
  apply eq_None_not_Some in Hi. case_bool_decide; set_solver.
Qed.

Lemma external_nodup p ins ext :
  NoDup ext → NoDup (foldl (external_step p) ext ins).
Proof.
  revert ext. induction ins as [|i ins IH]; intros ext Hnd; simpl; [done|].
  apply IH. unfold external_step. case_bool_decide; [done|]. case_bool_decide; [done|].
  apply NoDup_app. split_and!; [done|set_solver|]. repeat constructor. set_solver.
Qed.

Lemma roots_fold p rs ext o :
  o ∈ foldl (λ external rootTxid,
       match nodes p !! rootTxid with
       | None => external
       | Some root => foldl (external_step p) external (node_inputs root)
       end) ext rs ↔
  o ∈ ext ∨ ∃ x n, x ∈ rs ∧ nodes p !! x = Some n ∧ o ∈ node_inputs n ∧
    nodes p !! op_Hash o = None.
Proof.
  revert ext. induction rs as [|x rs IH]; intros ext; simpl; [set_solver|].
  rewrite IH. destruct (nodes p !! x) as [n|] eqn:Hx.
  - rewrite external_fold. setoid_rewrite elem_of_cons. naive_solver.
  - setoid_rewrite elem_of_cons. naive_solver congruence.
Qed.

Lemma roots_fold_nodup p rs ext :
  NoDup ext →
  NoDup (foldl (λ external rootTxid,
       match nodes p !! rootTxid with
       | None => external
       | Some root => foldl (external_step p) external (node_inputs root)
       end) ext rs).
Proof.
  revert ext. induction rs as [|x rs IH]; intros ext Hnd; simpl; [done|].
  apply IH. destruct (nodes p !! x); [|done]. by apply external_nodup.
Qed.

(** ** A concrete proof graph

    Two tree roots feed a checkpoint, which the target Ark transaction spends
    twice.  Transactions are named by the value of their first output. *)
Module Demo.

Definition chain_TxHash (tx : MsgTx) : Hash :=
  match TxOuts tx with [] => 0%N | o :: _ => Z.to_N (Value o) end.

(** Any injective naming serves: unary digits. *)
Definition chain_HashString (h : Hash) : string :=
  N.iter h (String.String (Ascii.ascii_of_nat 49)) EmptyString.

Definition demo_chain : Chain :=
  {| TxHash := chain_TxHash; HashString := chain_HashString |}.
#[local] Existing Instance demo_chain.

Definition tx (id : Z) (ins : list Hash) : MsgTx :=
  mkMsgTx ((λ h, mkOutPoint h 0) <$> ins)
    [mkTxOut id [0%Z]; mkTxOut 0 AnchorPkScript].

Definition node (k : NodeKind) (id : Z) (ins : list Hash) : Node :=
  mkNode k (Some (tx id ins)).

Definition node_list : list (option Node) :=
  [ Some (node NodeKindArk 30 [20; 20]%N);
    Some (node NodeKindTree 11 [101]%N);
    Some (node NodeKindCheckpoint 20 [10; 11]%N);
    Some (node NodeKindTree 10 [100]%N) ].

Definition target : OutPoint := mkOutPoint 30 0.

Definition proof : Proof_ :=
  match NewProof target 144 node_list with
  | Ok p => p
  | Err _ => mkProof target 0 ∅ ∅ ∅ [] ∅
  end.

Lemma proof_ok : NewProof target 144 node_list = Ok proof.
Proof. vm_compute. reflexivity. Qed.

#[global] Instance proof_wf : WfProof proof.
Proof.
  apply (NewProof_wf target 144 node_list); [unfold is_uint32; lia|apply proof_ok].
Qed.

Example proof_layers : layers proof = [[10; 11]; [20]; [30]]%N.
Proof. vm_compute. reflexivity. Qed.

Example proof_cycle :
  NewProof (mkOutPoint 1 0) 144
    [Some (node NodeKindTree 1 [2]%N); Some (node NodeKindTree 2 [1]%N)] =
  Err "recovery proof contains a cycle".
Proof. vm_compute. reflexivity. Qed.

Example proof_orphan :
  NewProof (mkOutPoint 1 0) 144
    [Some (node NodeKindTree 1 [9]%N); Some (node NodeKindTree 2 [1]%N)] =
  Err "node does not contribute to target".
Proof. vm_compute. reflexivity. Qed.

End Demo.

(** ** Properties *)

Section properties.
Context `{!Chain}.

(** C40 [NewProof] accepts exactly the intended graphs: between one and
    100,000 nodes with non-nil, pairwise distinct transactions, a CSV delay
    within the BIP-68 limit, an existing target output, every transaction an
    ancestor of the target, and no cycle of spends. *)
Theorem NewProof_accepts_exactly_valid_graphs target csv ns :
  (∃ p, NewProof target csv ns = Ok p) ↔ valid_graph target csv ns.
Proof.
  split; [|apply NewProof_complete]. intros [p Hp]. by eapply NewProof_sound.
Qed.

(** Layering: in an accepted proof every transaction of the list is in
    exactly one layer, each in-proof parent of a transaction sits in a strictly
    earlier layer, and every transaction beyond layer 0 has a parent in the
    layer just before, so layers are as early as possible. *)
Theorem NewProof_layers_are_topological target csv ns p :
  is_uint32 csv → NewProof target csv ns = Ok p →
  concat (Layers p) ≡ₚ txids ns ∧
  (∀ x q, spends ns x q → ∃ i j, Layer p x = Ok i ∧ Layer p q = Ok j ∧ j < i) ∧
  (∀ x i, Layer p x = Ok (S i) → ∃ q, spends ns x q ∧ Layer p q = Ok i).
Proof.
  intros Hcsv Hp. pose proof (NewProof_wf _ _ _ _ Hcsv Hp) as Hwf.
  apply NewProof_inv in Hp as (n & ls & lb & r & Hix & _ & _ & _ & _ & _ & _ & _ & Hp).
  destruct (index_edges _ _ Hix) as [Hdom Hedge].
  destruct (index_nodes_ok _ _ _ Hix) as (_ & Hnd & _ & _).
  replace (sortHashes <$> (derive_edges (nodes p)).1) with (parents p) in Hedge
    by (by rewrite Hp).
  pose proof (Layer_in_layer p) as HL. split_and!.
  - unfold Layers. rewrite (lay_perm _ _ _ _ wf_layering).
    apply NoDup_Permutation; [apply NoDup_elements|done|].
    intros x. by rewrite elem_of_elements, Hdom.
  - intros x q Hs. setoid_rewrite HL. apply Hedge in Hs as Hq.
    destruct (wf_layer_exists p x) as [i Hi]; [by apply (wf_parent_dom p x q)|].
    destruct (lay_parents _ _ _ _ wf_layering _ _ _ Hi Hq) as (j & ? & ?). eauto.
  - intros x i Hi%HL. destruct (lay_tight _ _ _ _ wf_layering _ _ Hi) as (q & Hq & Hqi).
    exists q. rewrite HL. by rewrite <-Hedge.
Qed.

(** The target stands alone in the last layer: its layer index is the
    maximum, and every other transaction has a smaller one. *)
Theorem NewProof_target_in_last_layer target csv ns p x i j :
  is_uint32 csv → NewProof target csv ns = Ok p →
  Layer p (op_Hash target) = Ok i → Layer p x = Ok j →
  S i = length (Layers p) ∧ (x = op_Hash target ∨ j < i).
Proof.
  intros Hcsv Hp. pose proof (NewProof_wf _ _ _ _ Hcsv Hp) as Hwf.
  assert (targetOutpoint p = target) as Ht.
  { apply NewProof_inv in Hp as (n & ls & lb & r & ? & _ & _ & _ & _ & _ & _ & _ & ->).
    done. }
  rewrite !(Layer_in_layer p). intros Hi Hj. subst target.
  assert (∀ y k, in_layer (layers p) k y → y = op_Hash (targetOutpoint p) ∨ k < i)
    as Hmax.
  { intros y k Hy. apply (wf_layer_rtc p _ y i k); [|done|done].
    apply wf_reach, wf_layers_elem, elem_of_concat_layers; [done|]. eauto. }
  split; [|by apply Hmax]. unfold Layers.
  pose proof Hi as (l & Hl & _). apply lookup_lt_Some in Hl as Hlt.
  destruct (decide (S i = length (layers p))) as [|Hne]; [done|exfalso].
  destruct (lookup_lt_is_Some_2 (layers p) (S i)) as [l' Hl']; [lia|].
  destruct l' as [|y l'].
  { eapply (lay_nonempty _ _ _ _ wf_layering []); [|done].
    by apply list_elem_of_lookup_2 in Hl'. }
  assert (in_layer (layers p) (S i) y) as Hy by (exists (y :: l'); set_solver).
  destruct (Hmax y (S i) Hy) as [->|]; [|lia].
  pose proof (wf_layer_unique p _ _ _ Hi Hy). lia.
Qed.

(** Canonical form: a proof is a function of the set of transactions.
    Listing the same nodes in another order builds the identical proof, layer
    lists and adjacency lists included. *)
Theorem NewProof_order_independent target csv ns ns' p :
  ns ≡ₚ ns' → NewProof target csv ns = Ok p → NewProof target csv ns' = Ok p.
Proof.
  intros Hperm Hp.
  pose proof (valid_graph_perm _ _ _ _ Hperm (NewProof_sound _ _ _ _ Hp)) as Hv.
  destruct (NewProof_complete _ _ _ Hv) as [p' Hp']. rewrite Hp'. f_equal.
  apply NewProof_inv in Hp as (n & ls & lb & r & Hix & _ & _ & _ & _ & _ & _ & Hb & Hp).
  apply NewProof_inv in Hp' as (n' & ls' & lb' & r' & Hix' & _ & _ & _ & _ & _ & _ & Hb' & Hp').
  assert (nodes p' = nodes p) as Heq.
  { apply map_eq. intros x. apply option_eq. intros m.
    apply index_nodes_ok in Hix as (_ & _ & _ & ->).
    apply index_nodes_ok in Hix' as (_ & _ & _ & ->).
    unfold listed. by rewrite Hperm. }
  rewrite Heq in Hb', Hp'. rewrite Hb in Hb'. injection Hb' as <- <-.
  by rewrite Hp, Hp'.
Qed.

(** [NewProof] terminates: neither the ancestor search nor the layering
    loop ever runs out of the fuel the model gives it, on any input. *)
Theorem NewProof_never_out_of_fuel target csv ns :
  NewProof target csv ns ≠ Err "out of fuel".
Proof.
  unfold NewProof. do 3 (case_match; [|done]).
  destruct (index_nodes ns ∅) as [nm|e] eqn:Hix.
  2:{ intros [= ->]. by eapply index_nodes_no_fuel. }
  do 2 (case_match; [|done]). destruct (derive_edges nm) as [ps ch] eqn:Hd.
  replace ps with (derive_edges nm).1 by (by rewrite Hd).
  replace ch with (derive_edges nm).2 by (by rewrite Hd).
  destruct (collectReachableAncestors_spec (sortHashes <$> (derive_edges nm).1)
    (op_Hash target)) as (r & -> & _).
  case_match; [|done].
  destruct (buildLayers_cases nm _ _ (edges_parents_nodup _)
      (edges_children_nodup _) (edges_children _) (edges_dom _)) as (ls & k & _ & ->).
  destruct (bool_decide (length _ = _)); simpl; intros [=].
Qed.

(** [RootExternalInputs] lists, without repetition, exactly the outpoints
    consumed by transactions that have no in-proof parent. *)
Theorem RootExternalInputs_exact target csv ns p :
  is_uint32 csv → NewProof target csv ns = Ok p →
  NoDup (RootExternalInputs p) ∧
  ∀ o, o ∈ RootExternalInputs p ↔
    ∃ x n, listed ns x n ∧ (∀ q, ¬ spends ns x q) ∧ o ∈ node_inputs n.
Proof.
  intros Hcsv Hp. pose proof (NewProof_wf _ _ _ _ Hcsv Hp) as Hwf.
  apply NewProof_inv in Hp as (n & ls & lb & r & Hix & _ & _ & _ & _ & _ & _ & _ & Hp).
  destruct (index_edges _ _ Hix) as [Hdom Hedge].
  destruct (index_nodes_ok _ _ _ Hix) as (_ & _ & _ & Hnm).
  replace (sortHashes <$> (derive_edges (nodes p)).1) with (parents p) in Hedge
    by (by rewrite Hp).
  unfold RootExternalInputs. split.
  { rewrite merge_sort_Permutation. apply roots_fold_nodup. constructor. }
  intros o. rewrite merge_sort_Permutation, roots_fold, elem_of_nil. setoid_rewrite wf_root_iff; [|done].
  split.
  - intros [[]|(x & m & [Hx Hn] & Hm & Ho & _)]. exists x, m. split_and!; [|..|done].
    + by apply Hnm in Hm as [?|].
    + intros q Hq%Hedge. unfold has_parent in Hq. rewrite Hn in Hq.
      by apply not_elem_of_nil in Hq.
  - intros (x & m & Hl & Hno & Ho). right. exists x, m.
    assert (nodes p !! x = Some m) as Hm by (apply Hnm; by right).
    assert (adj (parents p) x = []) as Hn.
    { apply elem_of_nil_inv. intros q Hq. by apply (Hno q), Hedge. }
    split_and!; [apply elem_of_dom; eauto|done|done|done|].
    destruct (nodes p !! op_Hash o) eqn:Hoo; [exfalso|done].
    apply (Hno (op_Hash o)), Hedge, wf_parents. split; [apply elem_of_dom; eauto|].
    eauto.
Qed.
End properties.

(** ** Witnesses on the concrete graph *)

#[local] Existing Instance Demo.demo_chain.

Lemma NewProof_layers_are_topological_witness :
  is_uint32 144 ∧ concat (Layers Demo.proof) ≡ₚ txids Demo.node_list ∧
  ∃ q, spends Demo.node_list 20 q ∧ Layer Demo.proof q = Ok 0.
Proof.
  assert (is_uint32 144) as Hc by (unfold is_uint32; lia).
  assert (NewProof Demo.target 144 Demo.node_list = Ok Demo.proof) as Hp
    by (vm_compute; reflexivity).
  destruct (NewProof_layers_are_topological _ _ _ _ Hc Hp) as (H1 & _ & H3).
  split; [exact Hc|]. split; [exact H1|]. apply H3. vm_compute. reflexivity.
Defined.

Lemma NewProof_target_in_last_layer_witness :
  is_uint32 144 ∧ 3 = length (Layers Demo.proof) ∧ (10%N = 30%N ∨ 0 < 2).
Proof.
  assert (is_uint32 144) as Hc by (unfold is_uint32; lia).
  split; [exact Hc|].
  apply (NewProof_target_in_last_layer Demo.target 144 Demo.node_list Demo.proof
           10 2 0); [exact Hc|vm_compute; reflexivity..].
Defined.

Lemma NewProof_order_independent_witness :
  NewProof Demo.target 144 (reverse Demo.node_list) = Ok Demo.proof.
Proof.
  apply (NewProof_order_independent Demo.target 144 Demo.node_list).
  - symmetry. apply reverse_Permutation.
  - vm_compute. reflexivity.
Defined.

Lemma RootExternalInputs_exact_witness :
  is_uint32 144 ∧ NoDup (RootExternalInputs Demo.proof).
Proof.
  assert (is_uint32 144) as Hc by (unfold is_uint32; lia).
  split; [exact Hc|].
  apply (RootExternalInputs_exact Demo.target 144 Demo.node_list Demo.proof Hc).
  vm_compute. reflexivity.
Defined.
