(* ===== verification/RecoverySession.v ===== *)
(** * Recovery sessions: [lib/recovery/session.go], [lib/recovery/state.go]

    The caller-driven session over an immutable recovery proof: per-transaction
    states, the [Mark*] transitions, snapshots, CSV maturity, and export and
    re-import of the durable state.  Every method runs under the session's
    mutex, so a concurrent execution is a sequence of the transitions below.
    A failing transition leaves the session as it was. *)

From S2P Require Import Prelude RecoveryProof RecoveryGraph.

(** ** Data *)

Inductive TxState :=
| TxStatePending
| TxStateBroadcasted
| TxStateConfirmed
| TxStateUnknown (k : Z).

Inductive SessionStatus :=
| SessionStatusMaterializing
| SessionStatusAwaitingCSV
| SessionStatusSweepReady
| SessionStatusFailed.

#[export] Instance TxState_eq_dec : EqDecision TxState.
Proof. solve_decision. Defined.
#[export] Instance SessionStatus_eq_dec : EqDecision SessionStatus.
Proof. solve_decision. Defined.

Definition TxState_String (s : TxState) : string :=
  match s with
  | TxStatePending => "pending"
  | TxStateBroadcasted => "broadcasted"
  | TxStateConfirmed => "confirmed"
  | TxStateUnknown k => "unknown(" +:+ pretty k +:+ ")"
  end.

Definition SessionStatus_String (s : SessionStatus) : string :=
  match s with
  | SessionStatusMaterializing => "materializing"
  | SessionStatusAwaitingCSV => "awaiting_csv"
  | SessionStatusSweepReady => "sweep_ready"
  | SessionStatusFailed => "failed"
  end.

Record BroadcastAction := mkBroadcastAction {
  ba_Txid : Hash;
  ba_Node : option Node;
  ba_Layer : nat;
  ba_ParentTxids : list Hash;
}.

Record BlockedAction := mkBlockedAction {
  bl_Txid : Hash;
  bl_Layer : nat;
  bl_MissingParents : list Hash;
}.

Record CSVStatus := mkCSVStatus {
  cs_TargetConfirmHeight : Z;
  cs_MaturityHeight : Z;
  cs_BlocksRemaining : Z;
  cs_Ready : bool;
}.

Record Snapshot := mkSnapshot {
  Status : SessionStatus;
  ReadyToBroadcast : list BroadcastAction;
  AwaitingConfirmation : list Hash;
  Blocked : list BlockedAction;
  CSV : option CSVStatus;
  FailedTxid : option Hash;
  LastError : option error;
}.

(** A Go [error] is nil or carries the text [err.Error()]. *)
Record Session := mkSession {
  s_proof : Proof_;
  txStates : gmap Hash TxState;
  confirmHeights : gmap Hash Z;
  failedTxid : option Hash;
  lastError : option error;
}.

(** The durable state; the two maps may be nil. *)
Record SessionState := mkSessionState {
  TxStates : option (gmap Hash TxState);
  ConfirmHeights : option (gmap Hash Z);
  st_FailedTxid : option Hash;
  st_LastError : string;
}.

(** [m[txid]] of a [map[chainhash.Hash]TxState]: the zero value is pending. *)
Definition tx_state (m : gmap Hash TxState) (x : Hash) : TxState :=
  default TxStatePending (m !! x).

(** ** Maturity *)

Definition ComputeMaturityHeight (targetConfirmHeight csv : Z) : result error Z :=
  guard* negb (targetConfirmHeight <? 0)%Z
    else "target confirm height is negative" in
  guard* negb (MaxCSVDelay <? csv)%Z else "csv delay exceeds max" in
  let maturity := int64 (int64 targetConfirmHeight + int64 csv) in
  guard* negb (MaxInt32 <? maturity)%Z else "csv maturity overflows int32" in
  Ok (int32 maturity).

(** ** Transitions *)

(** [Proof] of a session. *)
Definition Session_Proof (s : Session) : Proof_ := s_proof s.

Definition NewSession (p : option Proof_) : result error Session :=
  match p with
  | None => Err "proof cannot be nil"
  | Some p => Ok (mkSession p ((λ _, TxStatePending) <$> nodes p) ∅ None None)
  end.

Definition missingParents (s : Session) (txid : Hash) : result error (list Hash) :=
  let* parentTxids := ParentTxids (s_proof s) txid in
  Ok (sortHashes
        (filter (λ q, tx_state (txStates s) q ≠ TxStateConfirmed) parentTxids)).

Definition isReady (s : Session) (txid : Hash) : result error bool :=
  let* missing := missingParents s txid in
  Ok (bool_decide (missing = [])).

Definition MarkBroadcasted (s : Session) (txid : Hash) : result error Session :=
  match lastError s with
  | Some _ => Err "session is failed"
  | None =>
      match GetNode (s_proof s) txid with
      | None => Err "unknown txid"
      | Some _ =>
          let state := tx_state (txStates s) txid in
          guard* bool_decide (state ≠ TxStateConfirmed)
            else "tx already confirmed" in
          guard* bool_decide (state ≠ TxStateBroadcasted)
            else "tx already broadcasted" in
          let* ready := isReady s txid in
          guard* ready else "tx is not ready to broadcast" in
          Ok (mkSession (s_proof s) (<[txid := TxStateBroadcasted]> (txStates s))
                (confirmHeights s) (failedTxid s) (lastError s))
      end
  end.

(** The post-switch block of [MarkConfirmed]. *)
Definition confirm_ready (s : Session) (txid : Hash) (height : Z) :
    result error Session :=
  let* ready := isReady s txid in
  guard* ready else "tx cannot confirm with unconfirmed parents" in
  Ok (mkSession (s_proof s) (<[txid := TxStateConfirmed]> (txStates s))
        (<[txid := height]> (confirmHeights s)) (failedTxid s) (lastError s)).

Definition MarkConfirmed (s : Session) (txid : Hash) (height : Z) :
    result error Session :=
  match lastError s with
  | Some _ => Err "session is failed"
  | None =>
      match GetNode (s_proof s) txid with
      | None => Err "unknown txid"
      | Some _ =>
          guard* negb (height <? 0)%Z else "confirm height is negative" in
          match tx_state (txStates s) txid with
          | TxStatePending => Err "tx cannot confirm before broadcast"
          | TxStateConfirmed =>
              if bool_decide (default 0%Z (confirmHeights s !! txid) = height)
              then Ok s
              else Err "tx already confirmed, cannot reconfirm"
          | TxStateBroadcasted | TxStateUnknown _ => confirm_ready s txid height
          end
      end
  end.

Definition MarkFailed (s : Session) (txid : Hash) (err : option error) :
    result error Session :=
  match err with
  | None => Err "failure error cannot be nil"
  | Some _ =>
      match lastError s with
      | Some _ => Err "session already failed"
      | None =>
          match GetNode (s_proof s) txid with
          | None => Err "unknown txid"
          | Some _ =>
              Ok (mkSession (s_proof s) (txStates s) (confirmHeights s)
                    (Some txid) err)
          end
      end
  end.

(** ** Snapshots *)

Record frontier := mkFrontier {
  f_ready : list BroadcastAction;
  f_awaiting : list Hash;
  f_blocked : list BlockedAction;
}.

(** The body of the two nested loops of [SnapshotAt] for one transaction. *)
Definition classify_tx (s : Session) (layerIndex : nat) (txid : Hash)
    (f : frontier) : result error frontier :=
  match tx_state (txStates s) txid with
  | TxStateBroadcasted =>
      Ok (mkFrontier (f_ready f) (f_awaiting f ++ [txid]) (f_blocked f))
  | TxStateConfirmed | TxStateUnknown _ => Ok f
  | TxStatePending =>
      let* missing := missingParents s txid in
      let node := GetNode (s_proof s) txid in
      match missing with
      | [] =>
          let* parentTxids := ParentTxids (s_proof s) txid in
          Ok (mkFrontier
                (f_ready f ++ [mkBroadcastAction txid node layerIndex parentTxids])
                (f_awaiting f) (f_blocked f))
      | _ =>
          Ok (mkFrontier (f_ready f) (f_awaiting f)
                (f_blocked f ++ [mkBlockedAction txid layerIndex missing]))
      end
  end.

Fixpoint classify (s : Session) (todo : list (nat * Hash)) (f : frontier) :
    result error frontier :=
  match todo with
  | [] => Ok f
  | (layerIndex, txid) :: todo =>
      let* f := classify_tx s layerIndex txid f in classify s todo f
  end.

(** [for layerIndex, layer := range layers { for _, txid := range layer]: the
    pairs in the order the loops visit them. *)
Definition walk_layers (ls : list (list Hash)) : list (nat * Hash) :=
  concat (imap (λ i l, pair i <$> l) ls).

Definition materializationComplete (s : Session) : bool :=
  bool_decide (map_Forall
    (λ txid _, tx_state (txStates s) txid = TxStateConfirmed) (nodes (s_proof s))).

Definition csvStatusAt (s : Session) (height : Z) : result error CSVStatus :=
  match confirmHeights s !! op_Hash (TargetOutpoint (s_proof s)) with
  | None => Err "target is not confirmed"
  | Some targetConfirmHeight =>
      let* maturityHeight :=
        ComputeMaturityHeight targetConfirmHeight (CSVDelay (s_proof s)) in
      let blocksRemaining := int32 (maturityHeight - height) in
      let blocksRemaining :=
        if (blocksRemaining <? 0)%Z then 0%Z else blocksRemaining in
      Ok (mkCSVStatus targetConfirmHeight maturityHeight blocksRemaining
            (maturityHeight <=? height)%Z)
  end.

Definition SnapshotAt (s : Session) (height : Z) : result error Snapshot :=
  let* f := classify s (walk_layers (layers (s_proof s))) (mkFrontier [] [] []) in
  let awaiting := sortHashes (f_awaiting f) in
  match lastError s with
  | Some _ =>
      Ok (mkSnapshot SessionStatusFailed [] [] [] None (failedTxid s) (lastError s))
  | None =>
      if negb (materializationComplete s)
      then Ok (mkSnapshot SessionStatusMaterializing (f_ready f) awaiting
                 (f_blocked f) None (failedTxid s) (lastError s))
      else
        let* csvStatus := csvStatusAt s height in
        Ok (mkSnapshot
              (if cs_Ready csvStatus then SessionStatusSweepReady
               else SessionStatusAwaitingCSV)
              (f_ready f) awaiting (f_blocked f) (Some csvStatus)
              (failedTxid s) (lastError s))
  end.

(** ** Durable state *)

Definition ExportState (s : Session) : SessionState :=
  mkSessionState (Some (txStates s)) (Some (confirmHeights s)) (failedTxid s)
    (default EmptyString (lastError s)).

(** The per-node loop of [validateSessionState]. *)
Definition validate_node (states : gmap Hash TxState) (heights : gmap Hash Z)
    (txid : Hash) : result error unit :=
  match states !! txid with
  | None => Err "missing tx state"
  | Some TxStatePending | Some TxStateBroadcasted =>
      match heights !! txid with
      | Some _ => Err "tx has unexpected confirmation height"
      | None => Ok tt
      end
  | Some TxStateConfirmed =>
      match heights !! txid with
      | None => Err "confirmed tx missing confirmation height"
      | Some h => guard* negb (h <? 0)%Z
                    else "confirmed tx has negative height" in Ok tt
      end
  | Some (TxStateUnknown _) => Err "unknown tx state"
  end.

Definition known_txid (p : Proof_) (msg : error) (txid : Hash) : result error unit :=
  match GetNode p txid with Some _ => Ok tt | None => Err msg end.

(** The parent loop at the end of [validateSessionState]. *)
Definition validate_parents (p : Proof_) (states : gmap Hash TxState)
    (kv : Hash * TxState) : result error unit :=
  if bool_decide (kv.2 ≠ TxStateConfirmed) then Ok tt
  else
    let* ps := ParentTxids p kv.1 in
    for_each (λ parent,
      if bool_decide (tx_state states parent = TxStateConfirmed) then Ok tt
      else Err "tx confirmed with unconfirmed parent") ps.

Definition validateSessionState (p : Proof_) (st : SessionState) :
    result error unit :=
  match TxStates st with
  | None => Err "tx states cannot be nil"
  | Some states =>
  match ConfirmHeights st with
  | None => Err "confirm heights cannot be nil"
  | Some heights =>
      guard* Bool.eqb (bool_decide (st_FailedTxid st = None))
               (bool_decide (st_LastError st = EmptyString))
        else "failed txid and last error must be set together" in
      check* from_option (known_txid p "failed txid is not in proof") (Ok tt)
               (st_FailedTxid st) in
      check* for_each (λ kv, validate_node states heights kv.1)
               (map_to_list (nodes p)) in
      check* for_each (λ kv, known_txid p "tx state contains unknown txid" kv.1)
               (map_to_list states) in
      check* for_each
               (λ kv, known_txid p "confirm heights contains unknown txid" kv.1)
               (map_to_list heights) in
      for_each (validate_parents p states) (map_to_list states)
  end
  end.

(** Both arguments are pointers and may be nil. *)
Definition NewSessionFromState (p : option Proof_) (st : option SessionState) :
    result error Session :=
  match p with
  | None => Err "proof cannot be nil"
  | Some p =>
  match st with
  | None => Err "session state cannot be nil"
  | Some st =>
      check* validateSessionState p st in
      Ok (mkSession p (default ∅ (TxStates st)) (default ∅ (ConfirmHeights st))
            (st_FailedTxid st)
            (if bool_decide (st_LastError st = EmptyString) then None
             else Some (st_LastError st)))
  end
  end.

(** ** The session as a transition system *)

Inductive session_op :=
| OpBroadcasted (txid : Hash)
| OpConfirmed (txid : Hash) (height : Z)
| OpFailed (txid : Hash) (err : option error).

Definition apply_op (s : Session) (op : session_op) : result error Session :=
  match op with
  | OpBroadcasted txid => MarkBroadcasted s txid
  | OpConfirmed txid h => MarkConfirmed s txid h
  | OpFailed txid err => MarkFailed s txid err
  end.

(** One accepted call. *)
Inductive session_step : Session → Session → Prop :=
| session_step_intro s op s' : apply_op s op = Ok s' → session_step s s'.

(** The sessions a caller can reach from a fresh one. *)
Definition session_reachable (p : Proof_) (s : Session) : Prop :=
  ∃ s0, NewSession (Some p) = Ok s0 ∧ rtc session_step s0 s.

(** ** Invariant *)

Definition confirmed_in (s : Session) (x : Hash) : Prop :=
  tx_state (txStates s) x = TxStateConfirmed.

#[export] Instance confirmed_in_dec s x : Decision (confirmed_in s x).
Proof. unfold confirmed_in. apply _. Defined.
#[export] Typeclasses Opaque confirmed_in.

Record session_inv (p : Proof_) (s : Session) : Prop := {
  si_proof : s_proof s = p;
  si_dom : dom (txStates s) = dom (nodes p);
  si_known : ∀ x k, tx_state (txStates s) x ≠ TxStateUnknown k;
  si_heights : ∀ x, is_Some (confirmHeights s !! x) ↔ confirmed_in s x;
  si_height_pos : ∀ x h, confirmHeights s !! x = Some h → (0 ≤ h)%Z;
  si_parents : ∀ x q, tx_state (txStates s) x ≠ TxStatePending →
    q ∈ adj (parents p) x → confirmed_in s q;
  si_failed : is_Some (failedTxid s) ↔ is_Some (lastError s);
  si_failed_node : ∀ x, failedTxid s = Some x → x ∈ dom (nodes p);
}.

Section session.
Context (p : Proof_) `{!WfProof p}.
Implicit Types s : Session.

Lemma missingParents_ok s x :
  s_proof s = p → x ∈ dom (nodes p) →
  ∃ l, missingParents s x = Ok l ∧ StronglySorted N.le l ∧
    ∀ q, q ∈ l ↔ q ∈ adj (parents p) x ∧ ¬ confirmed_in s q.
Proof.
  intros Hp Hx. unfold missingParents. rewrite Hp, (ParentTxids_ok p x Hx).
  eexists. split; [done|]. split; [apply hash_sort_sorted|].
  intros q. unfold sortHashes. rewrite elem_of_hash_sort, list_elem_of_filter.
  unfold confirmed_in. tauto.
Qed.

Lemma isReady_ok s x :
  s_proof s = p → x ∈ dom (nodes p) →
  ∃ b, isReady s x = Ok b ∧
    (b = true ↔ ∀ q, q ∈ adj (parents p) x → confirmed_in s q).
Proof.
  intros Hp Hx. unfold isReady.
  destruct (missingParents_ok s x Hp Hx) as (l & -> & _ & Hl).
  eexists. split; [done|]. rewrite bool_decide_eq_true. split.
  - intros -> q Hq. unfold confirmed_in.
    destruct (decide (tx_state (txStates s) q = TxStateConfirmed)); [done|].
    exfalso. eapply not_elem_of_nil. by apply Hl.
  - intros Hall. apply elem_of_nil_inv. intros q [Hq Hn]%Hl. by apply Hn, Hall.
Qed.

Lemma tx_state_insert m x st y :
  tx_state (<[x := st]> m) y = if decide (x = y) then st else tx_state m y.
Proof. unfold tx_state. rewrite lookup_insert. by case_decide. Qed.

Lemma GetNode_dom s x n :
  s_proof s = p → GetNode (s_proof s) x = Some n → x ∈ dom (nodes p).
Proof. intros <- Hn. apply elem_of_dom. eauto. Qed.

Lemma session_inv_init s : NewSession (Some p) = Ok s → session_inv p s.
Proof.
  intros [= <-].
  assert (∀ x, tx_state ((λ _, TxStatePending) <$> nodes p) x = TxStatePending) as Hp.
  { intros x. unfold tx_state. rewrite lookup_fmap. by destruct (nodes p !! x). }
  constructor; simpl; unfold confirmed_in; simpl; try setoid_rewrite Hp; try done.
  - apply dom_fmap_L.
  - intros x. rewrite lookup_empty. split; [by intros [? ?]|done].
Qed.

(** Raising one transaction to a later state keeps the parent invariant. *)
Lemma session_inv_broadcast s x s' :
  session_inv p s → MarkBroadcasted s x = Ok s' → session_inv p s'.
Proof.
  intros [Hp Hdom Hk Hh Hpos Hpar Hf Hfn]. unfold MarkBroadcasted.
  destruct (lastError s) eqn:Hle; [done|].
  destruct (GetNode (s_proof s) x) as [n|] eqn:Hn; [|done].
  pose proof (GetNode_dom s x n Hp Hn) as Hx.
  destruct (isReady_ok s x Hp Hx) as (b & Hb & Hready). rewrite Hb.
  intros HM. inv_ok. zbool. specialize (proj1 Hready eq_refl) as Hall.
  assert (∀ y, tx_state (<[x := TxStateBroadcasted]> (txStates s)) y
    = TxStateConfirmed ↔ confirmed_in s y) as Hc.
  { intros y. rewrite tx_state_insert. unfold confirmed_in. case_decide; [|done].
    subst. by split. }
  constructor; simpl; unfold confirmed_in; simpl; try setoid_rewrite Hc; try done.
  - rewrite dom_insert_L, Hdom. set_solver.
  - intros y k. rewrite tx_state_insert. case_decide; [done|]. apply Hk.
  - intros y q. rewrite tx_state_insert. case_decide as Hxy.
    + subst. intros _. apply Hall.
    + apply Hpar.
Qed.

Lemma session_inv_confirm s x h s' :
  session_inv p s → MarkConfirmed s x h = Ok s' → session_inv p s'.
Proof.
  intros Hinv. pose proof Hinv as [Hp Hdom Hk Hh Hpos Hpar Hf Hfn].
  unfold MarkConfirmed.
  destruct (lastError s) eqn:Hle; [done|].
  destruct (GetNode (s_proof s) x) as [n|] eqn:Hn; [|done].
  pose proof (GetNode_dom s x n Hp Hn) as Hx.
  intros HM. inv_ok. zbool. destruct (tx_state (txStates s) x) eqn:Hst; [done| | |].
  2:{ case_bool_decide; [|done]. by injection HM as <-. }
  2:{ by apply Hk in Hst. }
  unfold confirm_ready in HM.
  destruct (isReady_ok s x Hp Hx) as (b & Hb & Hready). rewrite Hb in HM.
  inv_ok. specialize (proj1 Hready eq_refl) as Hall.
  assert (∀ y, tx_state (<[x := TxStateConfirmed]> (txStates s)) y
    = TxStateConfirmed ↔ y = x ∨ confirmed_in s y) as Hc.
  { intros y. rewrite tx_state_insert. unfold confirmed_in. case_decide; naive_solver. }
  constructor; simpl; unfold confirmed_in; simpl; try setoid_rewrite Hc; try done.
  - rewrite dom_insert_L, Hdom. set_solver.
  - intros y k. rewrite tx_state_insert. case_decide; [done|]. apply Hk.
  - intros y. rewrite lookup_insert, <-Hh. case_decide; [|naive_solver].
    subst. split; [by left|]. by eexists.
  - intros y k. rewrite lookup_insert. case_decide; [|apply Hpos]. intros [= <-]. lia.
  - intros y q. rewrite tx_state_insert. case_decide as Hxy.
    + subst. intros _ Hq. right. by apply Hall.
    + intros Hy Hq. right. by apply (Hpar y).
  - by rewrite Hle.
Qed.

Lemma session_inv_fail s x e s' :
  session_inv p s → MarkFailed s x e = Ok s' → session_inv p s'.
Proof.
  intros [Hp Hdom Hk Hh Hpos Hpar Hf Hfn]. unfold MarkFailed.
  destruct e as [e|]; [|done]. destruct (lastError s) eqn:Hle; [done|].
  destruct (GetNode (s_proof s) x) as [n|] eqn:Hn; [|done]. intros [= <-].
  constructor; simpl; try done.
  intros y [= <-]. by eapply GetNode_dom.
Qed.

Lemma session_inv_step s s' : session_step s s' → session_inv p s → session_inv p s'.
Proof.
  intros [s1 [x|x h|x e] s2 Hop] Hinv; simpl in Hop.
  - by eapply session_inv_broadcast.
  - by eapply session_inv_confirm.
  - by eapply session_inv_fail.
Qed.

Lemma session_inv_reachable s : session_reachable p s → session_inv p s.
Proof.
  intros (s0 & H0 & Hr). apply session_inv_init in H0.
  induction Hr as [|s0 s1 s2 Hs _ IH]; [done|]. apply IH. by eapply session_inv_step.
Qed.
(** ** Snapshots: the walk without accumulators *)

Definition missing_list (s : Session) (x : Hash) : list Hash :=
  sortHashes (filter (λ q, tx_state (txStates s) q ≠ TxStateConfirmed)
                (adj (parents p) x)).

Definition ready_of (s : Session) (ix : nat * Hash) : option BroadcastAction :=
  match tx_state (txStates s) ix.2, missing_list s ix.2 with
  | TxStatePending, [] =>
      Some (mkBroadcastAction ix.2 (GetNode p ix.2) ix.1 (adj (parents p) ix.2))
  | _, _ => None
  end.

Definition awaiting_of (s : Session) (ix : nat * Hash) : option Hash :=
  match tx_state (txStates s) ix.2 with
  | TxStateBroadcasted => Some ix.2
  | _ => None
  end.

Definition blocked_of (s : Session) (ix : nat * Hash) : option BlockedAction :=
  match tx_state (txStates s) ix.2, missing_list s ix.2 with
  | TxStatePending, (_ :: _) as m => Some (mkBlockedAction ix.2 ix.1 m)
  | _, _ => None
  end.

Definition frontier_of (s : Session) (todo : list (nat * Hash)) : frontier :=
  mkFrontier (omap (ready_of s) todo) (omap (awaiting_of s) todo)
    (omap (blocked_of s) todo).

Lemma classify_ok s todo f :
  s_proof s = p → (∀ ix, ix ∈ todo → ix.2 ∈ dom (nodes p)) →
  classify s todo f =
  Ok (mkFrontier (f_ready f ++ f_ready (frontier_of s todo))
        (f_awaiting f ++ f_awaiting (frontier_of s todo))
        (f_blocked f ++ f_blocked (frontier_of s todo))).
Proof.
  intros Hp. revert f. induction todo as [|[i x] todo IH]; intros f Hdom.
  { simpl. rewrite !app_nil_r. by destruct f. }
  assert (x ∈ dom (nodes p)) as Hx by (apply (Hdom (i, x)); constructor).
  cbn [classify]. unfold classify_tx, missingParents. rewrite Hp, (ParentTxids_ok p x Hx).
  fold (missing_list s x).
  assert (∀ f', classify s todo f' = _) as IH' by (intros f'; apply IH; set_solver).
  clear IH. unfold frontier_of, ready_of, awaiting_of, blocked_of.
  cbn [omap list_omap f_ready f_awaiting f_blocked fst snd].
  destruct (tx_state (txStates s) x).
  - destruct (missing_list s x); rewrite IH'; simpl; by rewrite <-?app_assoc.
  - rewrite IH'. simpl. by rewrite <-?app_assoc.
  - apply IH'.
  - apply IH'.
Qed.

Lemma elem_of_walk_layers ls i x : (i, x) ∈ walk_layers ls ↔ in_layer ls i x.
Proof.
  unfold walk_layers, in_layer. rewrite list_elem_of_In, in_concat. split.
  - intros (l & Hl & Hx). apply list_elem_of_In in Hl, Hx.
    apply elem_of_lookup_imap_1 in Hl as (j & l' & -> & Hl).
    apply list_elem_of_fmap in Hx as (y & [= -> ->] & Hy). eauto.
  - intros (l & Hl & Hx). exists (pair i <$> l). split; apply list_elem_of_In.
    + by apply (elem_of_lookup_imap_2 (λ i l, pair i <$> l)).
    + apply list_elem_of_fmap. eauto.
Qed.

Lemma walk_layers_dom ix : ix ∈ walk_layers (layers p) → ix.2 ∈ dom (nodes p).
Proof.
  destruct ix as [i x]. rewrite elem_of_walk_layers. intros Hi.
  apply wf_layers_elem, elem_of_concat_layers; eauto.
Qed.

Lemma SnapshotAt_walk s h :
  s_proof s = p →
  SnapshotAt s h =
  let f := frontier_of s (walk_layers (layers p)) in
  match lastError s with
  | Some _ =>
      Ok (mkSnapshot SessionStatusFailed [] [] [] None (failedTxid s) (lastError s))
  | None =>
      if negb (materializationComplete s)
      then Ok (mkSnapshot SessionStatusMaterializing (f_ready f)
                 (sortHashes (f_awaiting f)) (f_blocked f) None (failedTxid s)
                 (lastError s))
      else
        let* c := csvStatusAt s h in
        Ok (mkSnapshot
              (if cs_Ready c then SessionStatusSweepReady
               else SessionStatusAwaitingCSV)
              (f_ready f) (sortHashes (f_awaiting f)) (f_blocked f) (Some c)
              (failedTxid s) (lastError s))
  end.
Proof.
  intros Hp. unfold SnapshotAt.
  rewrite Hp, (classify_ok s _ _ Hp) by apply walk_layers_dom. done.
Qed.

Lemma missing_list_nil s x :
  missing_list s x = [] ↔ ∀ q, q ∈ adj (parents p) x → confirmed_in s q.
Proof.
  unfold missing_list, confirmed_in, sortHashes. split.
  - intros Hm q Hq. destruct (decide (tx_state (txStates s) q = TxStateConfirmed)); [done|].
    exfalso. eapply (not_elem_of_nil q). rewrite <-Hm, elem_of_hash_sort.
    by apply list_elem_of_filter.
  - intros Hall. apply elem_of_nil_inv. intros q.
    rewrite elem_of_hash_sort, list_elem_of_filter. intros [Hn Hq]. by apply Hn, Hall.
Qed.

Lemma frontier_ready s x :
  x ∈ ba_Txid <$> f_ready (frontier_of s (walk_layers (layers p))) ↔
  x ∈ dom (nodes p) ∧ tx_state (txStates s) x = TxStatePending ∧
  ∀ q, q ∈ adj (parents p) x → confirmed_in s q.
Proof.
  rewrite <-missing_list_nil, list_elem_of_fmap. simpl.
  setoid_rewrite list_elem_of_omap. split.
  - intros (a & -> & [i y] & Hin & Ha). unfold ready_of in Ha. simpl in Ha.
    destruct (tx_state (txStates s) y) eqn:Hy; try done.
    destruct (missing_list s y) eqn:Hm; [|done]. injection Ha as <-. simpl.
    split_and!; [|done..]. by apply (walk_layers_dom (i, y)).
  - intros (Hx & Hst & Hm). destruct (wf_layer_exists p x Hx) as [i Hi].
    exists (mkBroadcastAction x (GetNode p x) i (adj (parents p) x)). split; [done|].
    exists (i, x). split; [by apply elem_of_walk_layers|].
    unfold ready_of. simpl. by rewrite Hst, Hm.
Qed.

Lemma frontier_awaiting s x :
  x ∈ f_awaiting (frontier_of s (walk_layers (layers p))) ↔
  x ∈ dom (nodes p) ∧ tx_state (txStates s) x = TxStateBroadcasted.
Proof.
  simpl. rewrite list_elem_of_omap. split.
  - intros ([i y] & Hin & Ha). unfold awaiting_of in Ha. simpl in Ha.
    destruct (tx_state (txStates s) y) eqn:Hy; try done. injection Ha as <-.
    split; [|done]. by apply (walk_layers_dom (i, y)).
  - intros [Hx Hst]. destruct (wf_layer_exists p x Hx) as [i Hi].
    exists (i, x). split; [by apply elem_of_walk_layers|].
    unfold awaiting_of. simpl. by rewrite Hst.
Qed.

Lemma frontier_blocked s b :
  b ∈ f_blocked (frontier_of s (walk_layers (layers p))) ↔
  ∃ x i, in_layer (layers p) i x ∧ tx_state (txStates s) x = TxStatePending ∧
    missing_list s x ≠ [] ∧ b = mkBlockedAction x i (missing_list s x).
Proof.
  simpl. rewrite list_elem_of_omap. split.
  - intros ([i y] & Hin & Ha). unfold blocked_of in Ha. simpl in Ha.
    destruct (tx_state (txStates s) y) eqn:Hy; try done.
    destruct (missing_list s y) as [|q l] eqn:Hm; [done|]. injection Ha as <-.
    exists y, i. rewrite Hm. split_and!; [by apply elem_of_walk_layers|done..].
  - intros (x & i & Hi & Hst & Hm & ->). exists (i, x).
    split; [by apply elem_of_walk_layers|]. unfold blocked_of. simpl. rewrite Hst.
    by destruct (missing_list s x).
Qed.
(** ** Restoring an exported session *)

Lemma validate_export s :
  session_inv p s → lastError s ≠ Some EmptyString →
  validateSessionState p (ExportState s) = Ok tt.
Proof.
  intros [Hp Hdom Hk Hh Hpos Hpar Hf Hfn] Hle. unfold validateSessionState. simpl.
  assert (∀ msg x, x ∈ dom (nodes p) → known_txid p msg x = Ok tt) as Hknown.
  { intros msg x [n Hn]%elem_of_dom. unfold known_txid, GetNode. by rewrite Hn. }
  assert (∀ x, tx_state (txStates s) x = TxStateConfirmed → x ∈ dom (nodes p)) as Hcd.
  { intros x Hx. rewrite <-Hdom. unfold tx_state in Hx. apply elem_of_dom.
    by destruct (txStates s !! x). }
  replace (Bool.eqb _ _) with true.
  2:{ symmetry. apply Bool.eqb_true_iff, bool_decide_ext.
      destruct (failedTxid s), (lastError s) as [[|c m]|]; simpl; naive_solver. }
  replace (from_option _ _ _) with (Ok (E:=error) tt).
  2:{ destruct (failedTxid s) as [x|] eqn:Hx; [|done]. simpl. symmetry. auto. }
  rewrite (proj2 (for_each_ok _ (map_to_list (nodes p)))).
  2:{ intros [x n] Hx%elem_of_map_to_list. simpl. unfold validate_node.
      assert (x ∈ dom (txStates s)) as [st Hst]%elem_of_dom
        by (rewrite Hdom; apply elem_of_dom; eauto). rewrite Hst.
      pose proof (Hh x) as Hhx. pose proof (Hk x) as Hkx. unfold confirmed_in, tx_state in *.
      rewrite Hst in *. simpl in *. destruct st; [| | |by edestruct Hkx].
      - destruct (confirmHeights s !! x); [|done]. naive_solver.
      - destruct (confirmHeights s !! x); [|done]. naive_solver.
      - destruct (confirmHeights s !! x) as [h|] eqn:Hhh; [|naive_solver].
        specialize (Hpos _ _ Hhh). by rewrite (proj2 (Z.ltb_ge _ _)) by lia. }
  rewrite (proj2 (for_each_ok _ (map_to_list (txStates s)))).
  2:{ intros [x st] Hx%elem_of_map_to_list. apply Hknown. rewrite <-Hdom.
      apply elem_of_dom. eauto. }
  rewrite (proj2 (for_each_ok _ (map_to_list (confirmHeights s)))).
  2:{ intros [x h] Hx%elem_of_map_to_list. apply Hknown, Hcd, Hh. simpl. eauto. }
  apply for_each_ok. intros [x st] Hx%elem_of_map_to_list. unfold validate_parents. simpl.
  case_bool_decide as Hst; [done|].
  assert (tx_state (txStates s) x = st) as Hxs by (unfold tx_state; by rewrite Hx).
  rewrite (ParentTxids_ok p x).
  2:{ apply Hcd. by rewrite Hxs. }
  apply for_each_ok. intros q Hq. rewrite bool_decide_eq_true_2; [done|].
  apply (Hpar x); [|done]. by rewrite Hxs, Hst.
Qed.

Lemma materialization_spec s :
  session_inv p s →
  materializationComplete s = true ↔ ∀ x, x ∈ dom (nodes p) → confirmed_in s x.
Proof.
  intros [Hp ???????]. unfold materializationComplete, confirmed_in.
  rewrite bool_decide_eq_true, Hp. split.
  - intros Hall x [n Hn]%elem_of_dom. by apply (Hall x n).
  - intros Hall x n Hn. apply Hall, elem_of_dom. eauto.
Qed.

(** A complete session has an empty frontier. *)
Lemma frontier_complete s :
  session_inv p s → materializationComplete s = true →
  let f := frontier_of s (walk_layers (layers p)) in
  f_ready f = [] ∧ sortHashes (f_awaiting f) = [] ∧ f_blocked f = [].
Proof.
  intros Hinv Hc f.
  assert (∀ ix, ix ∈ walk_layers (layers p) →
    tx_state (txStates s) ix.2 = TxStateConfirmed) as Hall.
  { intros ix Hix%walk_layers_dom. by apply (materialization_spec s Hinv). }
  assert (∀ {B} (g : nat * Hash → option B),
    (∀ ix, tx_state (txStates s) ix.2 = TxStateConfirmed → g ix = None) →
    omap g (walk_layers (layers p)) = []) as Hnil.
  { intros B g Hg. apply elem_of_nil_inv. intros y (ix & Hix & Hy)%list_elem_of_omap.
    by rewrite Hg in Hy by auto. }
  subst f. simpl. rewrite !Hnil; [done|..]; intros ix Hx;
    unfold ready_of, awaiting_of, blocked_of; by rewrite Hx.
Qed.

(** Under the invariant an unfinished session always has a transaction whose
    parents are all confirmed. *)
Lemma unfinished_frontier s :
  session_inv p s → materializationComplete s = false →
  ∃ x, x ∈ dom (nodes p) ∧ ¬ confirmed_in s x ∧
    ∀ q, q ∈ adj (parents p) x → confirmed_in s q.
Proof.
  intros [Hp _ _ _ _ _ _ _] Hc%bool_decide_eq_false_1. rewrite Hp in Hc.
  destruct (wf_frontier p (confirmed_in s)) as [Hall|]; [|done].
  exfalso. apply Hc. intros x n Hx. apply Hall, elem_of_dom. eauto.
Qed.

(** ** Maturity arithmetic *)

Lemma ComputeMaturityHeight_ok h csv m :
  is_int32 h → is_uint32 csv →
  ComputeMaturityHeight h csv = Ok m ↔
  (0 ≤ h ∧ csv ≤ MaxCSVDelay ∧ h + csv ≤ MaxInt32 ∧ m = h + csv)%Z.
Proof.
  unfold is_int32, is_uint32, ComputeMaturityHeight, MaxInt32, MaxCSVDelay.
  intros Hh Hc.
  rewrite (int64_id h), (int64_id csv), (int64_id (h + csv))
    by (unfold is_int64; lia).
  split.
  - intros HM. inv_ok. zbool. rewrite int32_id by (unfold is_int32; lia). lia.
  - intros (? & ? & ? & ->).
    rewrite (proj2 (Z.ltb_ge h 0)), (proj2 (Z.ltb_ge 65535 csv)),
      (proj2 (Z.ltb_ge 2147483647 (h + csv))) by lia.
    simpl. rewrite int32_id by (unfold is_int32; lia). done.
Qed.
(** The CSV status is ready exactly from the maturity height on. *)
Lemma csv_ready_spec s h :
  session_inv p s → (∀ x k, confirmHeights s !! x = Some k → is_int32 k) →
  (∃ c, csvStatusAt s h = Ok c ∧ cs_Ready c = true) ↔
  ∃ k, confirmHeights s !! op_Hash (targetOutpoint p) = Some k ∧
    (k + csvDelay p ≤ MaxInt32 ∧ k + csvDelay p ≤ h)%Z.
Proof.
  intros [Hp ??? Hpos ???] Hw. unfold csvStatusAt, TargetOutpoint, CSVDelay. rewrite Hp.
  destruct (confirmHeights s !! _) as [k|] eqn:Hk.
  2:{ split; [by intros (c & ? & _)|by intros (? & ? & _)]. }
  pose proof wf_csv as Hcsv. specialize (Hpos _ _ Hk). specialize (Hw _ _ Hk).
  assert (is_uint32 (csvDelay p)) as Hu by (unfold is_uint32, MaxCSVDelay in *; lia).
  split.
  - intros (c & Hc & Hr). inv_ok. exists k. split; [done|].
    match goal with E : ComputeMaturityHeight _ _ = _ |- _ =>
      apply ComputeMaturityHeight_ok in E as (? & ? & ? & ->); [|done..] end.
    cbn [cs_Ready] in Hr. zbool. lia.
  - intros (k' & [= <-] & Hb & Hh).
    rewrite (proj2 (ComputeMaturityHeight_ok k (csvDelay p) (k + csvDelay p) Hw Hu))
      by lia.
    eexists. split; [done|]. cbn [cs_Ready]. apply Z.leb_le. lia.
Qed.

(** One accepted call keeps what was recorded; a failed session accepts none. *)
Lemma step_monotone s s' :
  session_inv p s → session_step s s' →
  (∀ x k, confirmHeights s !! x = Some k → confirmHeights s' !! x = Some k) ∧
  (∀ x, tx_state (txStates s) x ≠ TxStatePending →
        tx_state (txStates s') x ≠ TxStatePending) ∧
  lastError s = None.
Proof.
  intros Hinv Hs. revert Hinv. destruct Hs as [s1 [x|x h|x e] s2 Hop];
    simpl in Hop; intros Hinv.
  - unfold MarkBroadcasted in Hop. destruct (lastError s1); [done|].
    destruct (GetNode _ _); [|done]. inv_ok. split_and!; [done| |done].
    intros y Hy. simpl. rewrite tx_state_insert. by destruct (decide (x = y)).
  - unfold MarkConfirmed in Hop. destruct (lastError s1); [done|].
    destruct (GetNode _ _); [|done]. inv_ok.
    destruct (tx_state (txStates s1) x) eqn:Hst; [done| | |].
    + unfold confirm_ready in Hop. inv_ok. split_and!; [| |done].
      * intros y k Hy. simpl. rewrite lookup_insert_ne; [done|]. intros ->.
        assert (confirmed_in s1 y) as Hc by (apply (si_heights _ _ Hinv); eauto).
        unfold confirmed_in in Hc. congruence.
      * intros y Hy. simpl. rewrite tx_state_insert. by destruct (decide (x = y)).
    + destruct (bool_decide _); [|done]. by inv_ok.
    + by destruct (si_known _ _ Hinv x k).
  - unfold MarkFailed in Hop. destruct e; [|done]. destruct (lastError s1); [done|].
    destruct (GetNode _ _); [|done]. by inv_ok.
Qed.

Lemma session_reachable_step s s' :
  session_reachable p s → session_step s s' → session_reachable p s'.
Proof. intros (s0 & H0 & Hr) Hs. exists s0. split; [done|]. by eapply rtc_r. Qed.
End session.

(** ** A concrete session: one root confirmed, the other broadcast *)
Module SessionDemo.

Definition fresh : Session :=
  mkSession Demo.proof ((λ _, TxStatePending) <$> nodes Demo.proof) ∅ None None.

Fixpoint run (s : Session) (ops : list session_op) : result error Session :=
  match ops with
  | [] => Ok s
  | op :: ops => let* s := apply_op s op in run s ops
  end.

Lemma run_rtc s ops s' : run s ops = Ok s' → rtc session_step s s'.
Proof.
  revert s. induction ops as [|op ops IH]; intros s; simpl; [by intros [= ->]|].
  intros HR. inv_ok. eapply rtc_l; [by econstructor|auto].
Qed.

Definition get (r : result error Session) : Session :=
  match r with Ok s => s | Err _ => fresh end.

Definition mid : Session :=
  get (run fresh [OpBroadcasted 10; OpBroadcasted 11; OpConfirmed 10 500]).

Definition done_ops : list session_op :=
  [OpBroadcasted 10; OpBroadcasted 11; OpConfirmed 10 500; OpConfirmed 11 501;
   OpBroadcasted 20; OpConfirmed 20 502; OpBroadcasted 30; OpConfirmed 30 510].

Definition finished : Session := get (run fresh done_ops).

Lemma mid_reachable : session_reachable Demo.proof mid.
Proof.
  exists fresh. split; [done|].
  apply (run_rtc _ [OpBroadcasted 10; OpBroadcasted 11; OpConfirmed 10 500]).
  vm_compute. reflexivity.
Qed.

Lemma finished_reachable : session_reachable Demo.proof finished.
Proof.
  exists fresh. split; [done|]. apply (run_rtc _ done_ops). vm_compute. reflexivity.
Qed.
Lemma finished_heights x k :
  confirmHeights finished !! x = Some k → is_int32 k.
Proof.
  assert (map_Forall (λ _ k, is_int32 k) (confirmHeights finished)) as Hall.
  { apply (bool_decide_eq_true_1 _). vm_compute. reflexivity. }
  apply Hall.
Qed.

(** Every transaction pending except the target, which is marked broadcast. *)
Definition unready_state : SessionState :=
  mkSessionState (Some (<[30%N := TxStateBroadcasted]> (txStates fresh))) (Some ∅)
    None EmptyString.
End SessionDemo.

(** ** Properties *)

(** Session invariant: in every session a caller can reach, each proof node
    has a known state, confirmation heights are present and non-negative
    exactly for confirmed nodes, a broadcast or confirmed node has all its
    parents confirmed, and the failed txid and the error are set together. *)
Theorem session_reachable_invariant p s :
  WfProof p → session_reachable p s → session_inv p s.
Proof. intros Hwf. by apply session_inv_reachable. Qed.

Lemma session_reachable_invariant_witness :
  session_inv Demo.proof SessionDemo.finished.
Proof.
  apply session_reachable_invariant.
  - apply Demo.proof_wf.
  - apply SessionDemo.finished_reachable.
Defined.

(** Restart round trip: exporting any reachable session and rebuilding a
    session from the exported state gives back the same session, provided a
    reported failure carries a non-empty message. *)
Theorem session_export_restore p s :
  WfProof p → session_reachable p s → lastError s ≠ Some EmptyString →
  NewSessionFromState (Some p) (Some (ExportState s)) = Ok s.
Proof.
  intros Hwf Hr Hle. pose proof (session_inv_reachable p s Hr) as Hinv.
  unfold NewSessionFromState. rewrite (validate_export p s Hinv Hle).
  destruct s as [q states heights failed err]. simpl in *.
  rewrite (si_proof _ _ Hinv : q = p). do 2 f_equal.
  destruct err as [[|c m]|]; simpl; by try case_bool_decide.
Qed.

Lemma session_export_restore_witness :
  NewSessionFromState (Some Demo.proof) (Some (ExportState SessionDemo.mid)) =
  Ok SessionDemo.mid.
Proof.
  apply session_export_restore.
  - apply Demo.proof_wf.
  - apply SessionDemo.mid_reachable.
  - vm_compute. discriminate.
Defined.

(** The round trip really needs the message: a session that was marked
    failed with an error whose text is empty exports a state that
    [NewSessionFromState] refuses. *)
Theorem session_empty_failure_not_restorable p s s' x :
  MarkFailed s x (Some EmptyString) = Ok s' →
  NewSessionFromState (Some p) (Some (ExportState s')) =
  Err "failed txid and last error must be set together".
Proof.
  unfold MarkFailed. destruct (lastError s); [done|].
  destruct (GetNode _ _); [|done]. by intros [= <-].
Qed.

Lemma session_empty_failure_not_restorable_witness :
  NewSessionFromState (Some Demo.proof)
    (Some (ExportState (SessionDemo.get
       (MarkFailed SessionDemo.mid 11 (Some EmptyString))))) =
  Err "failed txid and last error must be set together".
Proof.
  apply (session_empty_failure_not_restorable Demo.proof SessionDemo.mid _ 11).
  vm_compute. reflexivity.
Defined.

(** Snapshot of a live session: a transaction is offered for broadcast
    exactly when it is pending with every in-proof parent confirmed, is listed
    as awaiting exactly when it was broadcast, and is reported as blocked
    exactly when it is pending with the (non-empty, sorted) list of its
    unconfirmed parents. *)
Theorem session_snapshot_frontier p s h snap :
  WfProof p → session_reachable p s → lastError s = None →
  SnapshotAt s h = Ok snap →
  (∀ x, x ∈ ba_Txid <$> ReadyToBroadcast snap ↔
     x ∈ dom (nodes p) ∧ tx_state (txStates s) x = TxStatePending ∧
     ∀ q, q ∈ adj (parents p) x → confirmed_in s q) ∧
  (∀ x, x ∈ AwaitingConfirmation snap ↔
     x ∈ dom (nodes p) ∧ tx_state (txStates s) x = TxStateBroadcasted) ∧
  (∀ b, b ∈ Blocked snap ↔
     ∃ x i, in_layer (layers p) i x ∧ tx_state (txStates s) x = TxStatePending ∧
       missing_list p s x ≠ [] ∧ b = mkBlockedAction x i (missing_list p s x)).
Proof.
  intros Hwf Hr Hle. pose proof (session_inv_reachable p s Hr) as Hinv.
  rewrite (SnapshotAt_walk p s h (si_proof _ _ Hinv)), Hle. cbv zeta.
  intros Hsnap.
  assert (ReadyToBroadcast snap = f_ready (frontier_of p s (walk_layers (layers p))) ∧
    AwaitingConfirmation snap =
      sortHashes (f_awaiting (frontier_of p s (walk_layers (layers p)))) ∧
    Blocked snap = f_blocked (frontier_of p s (walk_layers (layers p))))
    as (-> & -> & ->).
  { destruct (materializationComplete s); simpl in Hsnap; [|by injection Hsnap as <-].
    destruct (csvStatusAt s h); [|done]. by injection Hsnap as <-. }
  split_and!.
  - intros x. apply frontier_ready; done.
  - intros x. unfold sortHashes. rewrite elem_of_hash_sort.
    apply frontier_awaiting; done.
  - intros b. apply frontier_blocked; done.
Qed.

Lemma session_snapshot_frontier_witness :
  ∃ snap, SnapshotAt SessionDemo.mid 600 = Ok snap ∧
    ∀ x, x ∈ AwaitingConfirmation snap ↔
      x ∈ dom (nodes Demo.proof) ∧
      tx_state (txStates SessionDemo.mid) x = TxStateBroadcasted.
Proof.
  eexists. split; [vm_compute; reflexivity|].
  apply (session_snapshot_frontier Demo.proof SessionDemo.mid 600).
  - apply Demo.proof_wf.
  - apply SessionDemo.mid_reachable.
  - vm_compute. reflexivity.
  - vm_compute. reflexivity.
Defined.

(** Progress: a live session whose materialization is unfinished always has
    work in its snapshot - a transaction to broadcast or one awaiting its
    confirmation - so a caller that follows the snapshots never stalls with
    only blocked transactions, and a fully confirmed one has none left. *)
Theorem session_progress p s h :
  WfProof p → session_reachable p s → lastError s = None →
  if materializationComplete s
  then ∀ snap, SnapshotAt s h = Ok snap →
         ReadyToBroadcast snap = [] ∧ AwaitingConfirmation snap = [] ∧
         Blocked snap = []
  else ∃ snap, SnapshotAt s h = Ok snap ∧ Status snap = SessionStatusMaterializing ∧
         (ReadyToBroadcast snap ≠ [] ∨ AwaitingConfirmation snap ≠ []).
Proof.
  intros Hwf Hr Hle. pose proof (session_inv_reachable p s Hr) as Hinv.
  rewrite (SnapshotAt_walk p s h (si_proof _ _ Hinv)), Hle. cbv zeta.
  destruct (materializationComplete s) eqn:Hc; simpl negb; cbv iota.
  - intros snap Hsnap. inv_ok. cbn [ReadyToBroadcast AwaitingConfirmation Blocked].
    by apply frontier_complete.
  - eexists. split; [done|]. split; [done|]. cbn [ReadyToBroadcast AwaitingConfirmation].
    destruct (unfinished_frontier p s Hinv Hc) as (x & Hx & Hn & Hall).
    destruct (tx_state (txStates s) x) eqn:Hst.
    + left. intros Hnil. apply (not_elem_of_nil x).
      change [] with (ba_Txid <$> []). rewrite <-Hnil. by apply frontier_ready.
    + right. intros Hnil. apply (not_elem_of_nil x). rewrite <-Hnil.
      unfold sortHashes. rewrite elem_of_hash_sort. by apply frontier_awaiting.
    + by destruct Hn.
    + by destruct (si_known _ _ Hinv x k).
Qed.

Lemma session_progress_witness :
  ∃ snap, SnapshotAt SessionDemo.mid 600 = Ok snap ∧
    Status snap = SessionStatusMaterializing ∧
    (ReadyToBroadcast snap ≠ [] ∨ AwaitingConfirmation snap ≠ []).
Proof.
  exact (session_progress Demo.proof SessionDemo.mid 600 Demo.proof_wf
           SessionDemo.mid_reachable eq_refl).
Defined.

(** Sweep readiness is exactly CSV maturity: for a reachable session of a
    proof, a snapshot says the target can be swept if and only if nothing
    failed, every proof transaction is confirmed, and the snapshot's height has
    reached the target's confirmation height plus the CSV delay (with that sum
    representable as a block height). *)
Theorem session_sweep_ready_iff p s h :
  WfProof p → session_reachable p s →
  (∀ x k, confirmHeights s !! x = Some k → is_int32 k) →
  (∃ snap, SnapshotAt s h = Ok snap ∧ Status snap = SessionStatusSweepReady) ↔
  lastError s = None ∧ (∀ x, x ∈ dom (nodes p) → confirmed_in s x) ∧
  ∃ k, confirmHeights s !! op_Hash (targetOutpoint p) = Some k ∧
    (k + csvDelay p ≤ MaxInt32 ∧ k + csvDelay p ≤ h)%Z.
Proof.
  intros Hwf Hr Hw. pose proof (session_inv_reachable p s Hr) as Hinv.
  rewrite (SnapshotAt_walk p s h (si_proof _ _ Hinv)). cbv zeta.
  destruct (lastError s) eqn:Hle.
  { split; [intros (snap & [= <-] & ?)|intros [? _]]; done. }
  rewrite <-(materialization_spec p s Hinv).
  destruct (materializationComplete s) eqn:Hc; simpl negb; cbv iota.
  2:{ split; [intros (snap & [= <-] & ?)|intros (_ & ? & _)]; done. }
  rewrite <-(csv_ready_spec p s h Hinv Hw). split.
  - intros (snap & Hsnap & Hst). inv_ok. split_and!; [done..|]. eexists. split; [done|].
    cbn [Status] in Hst. by destruct (cs_Ready _).
  - intros (_ & _ & c & Hcsv & Hready). rewrite Hcsv. eexists. split; [done|].
    cbn [Status]. by rewrite Hready.
Qed.

Lemma session_sweep_ready_iff_witness :
  ∃ snap, SnapshotAt SessionDemo.finished 654 = Ok snap ∧
    Status snap = SessionStatusSweepReady.
Proof.
  apply (session_sweep_ready_iff Demo.proof SessionDemo.finished 654).
  - apply Demo.proof_wf.
  - apply SessionDemo.finished_reachable.
  - apply SessionDemo.finished_heights.
  - split; [reflexivity|]. split.
    + apply materialization_spec; [|vm_compute; reflexivity].
      apply session_inv_reachable; [apply Demo.proof_wf|].
      apply SessionDemo.finished_reachable.
    + exists 510%Z. split; [vm_compute; reflexivity|]. vm_compute. split; discriminate.
Defined.

(** History is never rewritten: along any sequence of accepted calls a
    confirmed transaction stays confirmed at the height first recorded, a
    broadcast transaction never returns to pending, and a failed session accepts
    no further call at all. *)
Theorem session_history_monotone p s s' :
  WfProof p → session_reachable p s → rtc session_step s s' →
  (∀ x k, confirmHeights s !! x = Some k → confirmHeights s' !! x = Some k) ∧
  (∀ x, tx_state (txStates s) x ≠ TxStatePending →
        tx_state (txStates s') x ≠ TxStatePending) ∧
  (lastError s ≠ None → s' = s).
Proof.
  intros Hwf Hr Hs. pose proof (session_inv_reachable p s Hr) as Hinv.
  induction Hs as [|s s1 s2 Hs _ IH]; [done|].
  pose proof (session_inv_step p s s1 Hs Hinv) as Hinv1.
  destruct IH as (IH1 & IH2 & IH3).
  - by eapply session_reachable_step.
  - done.
  - destruct (step_monotone p s s1 Hinv Hs) as (H1 & H2 & H3).
    split_and!; [by eauto..|]. intros Hne. by destruct Hne.
Qed.

Lemma session_history_monotone_witness :
  confirmHeights SessionDemo.finished !! (10%N : Hash) = Some 500%Z.
Proof.
  eapply (session_history_monotone Demo.proof SessionDemo.mid SessionDemo.finished).
  - apply Demo.proof_wf.
  - apply SessionDemo.mid_reachable.
  - apply (SessionDemo.run_rtc _ (drop 3 SessionDemo.done_ops)).
    vm_compute. reflexivity.
  - vm_compute. reflexivity.
Defined.

(** The maturity height is exact or refused, never wrapped: for a 32-bit
    height and an unsigned 32-bit delay, the result is the mathematical sum when
    the height is non-negative, the delay is within the consensus bound and the
    sum is a valid block height, and an error in every other case. *)
Theorem ComputeMaturityHeight_exact h csv :
  is_int32 h → is_uint32 csv →
  if decide (0 ≤ h ∧ csv ≤ MaxCSVDelay ∧ h + csv ≤ MaxInt32)%Z
  then ComputeMaturityHeight h csv = Ok (h + csv)%Z
  else ∃ e, ComputeMaturityHeight h csv = Err e.
Proof.
  intros Hh Hc. case_decide as HD.
  - apply ComputeMaturityHeight_ok; [done..|]. tauto.
  - destruct (ComputeMaturityHeight h csv) as [m|e] eqn:Hm; [|eauto].
    apply ComputeMaturityHeight_ok in Hm; [|done..]. tauto.
Qed.

Lemma ComputeMaturityHeight_exact_witness :
  ∃ e, ComputeMaturityHeight 2147483600 144 = Err e.
Proof.
  refine (ComputeMaturityHeight_exact 2147483600 144 _ _).
  - vm_compute. split; discriminate.
  - vm_compute. split; discriminate.
Defined.

(** The restored state is checked for the parents of confirmed
    transactions only: a state in which a transaction is broadcast while its
    parents are still pending is accepted by [NewSessionFromState], although no
    sequence of calls can produce it. *)
Theorem session_restore_accepts_unready_broadcast :
  ∃ s, NewSessionFromState (Some Demo.proof) (Some SessionDemo.unready_state) = Ok s ∧
    tx_state (txStates s) 30 = TxStateBroadcasted ∧
    (∃ q, q ∈ adj (parents Demo.proof) 30 ∧ ¬ confirmed_in s q) ∧
    ¬ session_reachable Demo.proof s.
Proof.
  eexists. split; [vm_compute; reflexivity|]. split; [reflexivity|].
  assert (20%N ∈ adj (parents Demo.proof) 30) as Hq.
  { vm_compute. constructor. }
  split; [exists 20%N; split; [done|]; unfold confirmed_in; vm_compute; discriminate|].
  intros Hr%session_inv_reachable; [|apply Demo.proof_wf].
  pose proof (si_parents _ _ Hr 30 20) as Hp. revert Hp. unfold confirmed_in.
  vm_compute (tx_state _ _). intros Hp. specialize (Hp ltac:(done) Hq). done.
Qed.
