(* ===== verification/UnrollPlan.v ===== *)
(** * The unroll planner: [unrollplan/planner.go]

    The planner is stateless: it wraps one immutable recovery proof and
    evaluates a caller-owned durable [State] at a block height.  The file holds
    the durable state and its validation, the planning walk, the CSV view, the
    declarative meaning of a valid state ([valid_state]), and the equivalence of
    the planner with the recovery session's own snapshots.

    [fn.Set] is a [gset]; ranging over it visits the elements in an unspecified
    order, which the results below do not depend on. *)

From S2P Require Import Prelude RecoveryProof RecoveryGraph RecoverySession.

(** ** Data *)

(** A Go [int]; the value [k] of an unknown status is none of 0, 1, 2. *)
Inductive SweepStatus :=
| SweepStatusPending
| SweepStatusBroadcasted
| SweepStatusConfirmed
| SweepStatusUnknown (k : Z).

#[export] Instance SweepStatus_eq_dec : EqDecision SweepStatus.
Proof. solve_decision. Defined.

Definition SweepStatus_String (s : SweepStatus) : string :=
  match s with
  | SweepStatusPending => "pending"
  | SweepStatusBroadcasted => "broadcasted"
  | SweepStatusConfirmed => "confirmed"
  | SweepStatusUnknown k => "unknown(" +:+ pretty k +:+ ")"
  end.

Record SweepState := mkSweepState {
  sw_Status : SweepStatus;
  sw_Txid : option Hash;
  sw_ConfirmHeight : option Z;
}.

#[export] Instance SweepState_eq_dec : EqDecision SweepState.
Proof. solve_decision. Defined.

Record State := mkState {
  ConfirmedTxids : list Hash;
  InFlightTxids : list Hash;
  TargetConfirmHeight : option Z;
  Sweep : SweepState;
}.

#[export] Instance State_eq_dec : EqDecision State.
Proof. solve_decision. Defined.

Record CSVInfo := mkCSVInfo {
  ci_TargetConfirmHeight : Z;
  ci_MaturityHeight : Z;
  ci_BlocksRemaining : Z;
  ci_Ready : bool;
}.

Record TxFrontier := mkTxFrontier {
  tf_Txid : Hash;
  tf_Node : option Node;
  tf_Layer : nat;
  tf_ParentTxids : list Hash;
}.

Record BlockedTx := mkBlockedTx {
  bt_TxFrontier : TxFrontier;
  bt_MissingParents : list Hash;
}.

Record Snapshot := mkSnapshot {
  sn_Ready : list TxFrontier;
  sn_InFlight : list TxFrontier;
  sn_Blocked : list BlockedTx;
  sn_TargetConfirmed : bool;
  sn_TargetConfirmHeight : option Z;
  sn_CSV : option CSVInfo;
  sn_AllProofConfirmed : bool;
  sn_NeedSweep : bool;
  sn_Done : bool;
  sn_Sweep : SweepState;
}.

Record Planner := mkPlanner { pl_proof : option Proof_ }.

Definition NewPlanner (proof : option Proof_) : result error Planner :=
  match proof with
  | None => Err "proof cannot be nil"
  | Some _ => Ok (mkPlanner proof)
  end.

(** [Proof] of a planner, on a pointer that may be nil. *)
Definition PlannerProof (p : option Planner) : option Proof_ :=
  match p with None => None | Some p => pl_proof p end.

(** ** Sets of transaction ids *)

Fixpoint hash_set_loop (label : string) (values : list Hash) (set : gset Hash) :
    result error (gset Hash) :=
  match values with
  | [] => Ok set
  | value :: values =>
      if bool_decide (value ∈ set) then Err ("duplicate " +:+ label +:+ " entry")
      else hash_set_loop label values ({[value]} ∪ set)
  end.

Definition hashSetFromSlice (values : list Hash) (label : string) :
    result error (gset Hash) := hash_set_loop label values ∅.

Definition ensureDisjoint (a b : gset Hash) : result error unit :=
  let overlap := a ∩ b in
  if bool_decide (overlap = ∅) then Ok tt
  else Err "txid cannot be both confirmed and in-flight".

Definition confirmedTxidSetContains (set : gset Hash) (txid : Hash) : bool :=
  bool_decide (txid ∈ set).

Definition missingParentsFromSet (p : Proof_) (confirmed : gset Hash)
    (txid : Hash) : result error (list Hash) :=
  let* parentTxids := ParentTxids p txid in
  Ok (sortHashes (filter (λ parent, parent ∉ confirmed) parentTxids)).

Definition ensureParentsConfirmed (p : Proof_) (confirmed : gset Hash)
    (txid : Hash) : result error unit :=
  let* missing := missingParentsFromSet p confirmed txid in
  match missing with
  | [] => Ok tt
  | _ => Err "tx has unconfirmed parents"
  end.

(** ** Validation *)

Definition validateSweepState (sweep : SweepState) (confirmed : gset Hash)
    (p : Proof_) (targetConfirmHeight : option Z) : result error unit :=
  check* from_option
    (λ txid, match GetNode p txid with
             | Some _ => Err "sweep txid collides with proof node"
             | None => Ok tt
             end) (Ok tt) (sw_Txid sweep) in
  match sw_Status sweep with
  | SweepStatusPending =>
      guard* bool_decide (sw_Txid sweep = None)
        else "pending sweep must not have a txid" in
      guard* bool_decide (sw_ConfirmHeight sweep = None)
        else "pending sweep must not have a confirm height" in
      Ok tt
  | SweepStatusBroadcasted =>
      guard* bool_decide (sw_Txid sweep ≠ None)
        else "broadcasted sweep must have a txid" in
      guard* bool_decide (sw_ConfirmHeight sweep = None)
        else "broadcasted sweep must not have a confirm height" in
      guard* bool_decide (op_Hash (TargetOutpoint p) ∈ confirmed)
        else "broadcasted sweep requires confirmed target" in
      Ok tt
  | SweepStatusConfirmed =>
      guard* bool_decide (sw_Txid sweep ≠ None)
        else "confirmed sweep must have a txid" in
      match sw_ConfirmHeight sweep with
      | None => Err "confirmed sweep must have a confirm height"
      | Some confirmHeight =>
          guard* negb (confirmHeight <? 0)%Z
            else "sweep confirm height is negative" in
          guard* bool_decide (op_Hash (TargetOutpoint p) ∈ confirmed)
            else "confirmed sweep requires confirmed target" in
          match targetConfirmHeight with
          | None => Err "confirmed sweep requires target confirm height"
          | Some targetHeight =>
              let* maturityHeight :=
                wrap "confirmed sweep: "
                  (ComputeMaturityHeight targetHeight (CSVDelay p)) in
              guard* negb (confirmHeight <? maturityHeight)%Z
                else "sweep confirmed before csv maturity" in
              Ok tt
          end
      end
  | SweepStatusUnknown _ => Err "unknown sweep status"
  end.

(** [(s *State).Validate(proof)]; both pointers may be nil. *)
Definition Validate (s : option State) (proof : option Proof_) :
    result error unit :=
  match proof with
  | None => Err "proof cannot be nil"
  | Some p =>
  match s with
  | None => Err "state cannot be nil"
  | Some s =>
      let* confirmed := hashSetFromSlice (ConfirmedTxids s) "confirmed txids" in
      let* inflight := hashSetFromSlice (InFlightTxids s) "in-flight txids" in
      check* ensureDisjoint confirmed inflight in
      check* for_each (known_txid p "confirmed txid is not in proof")
               (elements confirmed) in
      check* for_each (known_txid p "in-flight txid is not in proof")
               (elements inflight) in
      let targetConfirmed :=
        confirmedTxidSetContains confirmed (op_Hash (TargetOutpoint p)) in
      guard* negb (bool_decide (is_Some (TargetConfirmHeight s)) &&
                   negb targetConfirmed)
        else "target confirm height set without confirmed target" in
      guard* negb (targetConfirmed &&
                   bool_decide (TargetConfirmHeight s = None))
        else "target confirmed without target confirm height" in
      check* from_option
        (λ h, if (h <? 0)%Z then Err "target confirm height is negative" else Ok tt)
        (Ok tt) (TargetConfirmHeight s) in
      check* validateSweepState (Sweep s) confirmed p (TargetConfirmHeight s) in
      check* for_each (ensureParentsConfirmed p confirmed) (elements confirmed) in
      for_each (λ txid, wrap "in-flight tx: " (ensureParentsConfirmed p confirmed txid))
        (elements inflight)
  end
  end.

(** ** Planning *)

Definition csvInfoAt (p : Proof_) (height : Z) (targetConfirmHeight : option Z) :
    result error CSVInfo :=
  match targetConfirmHeight with
  | None => Err "target confirm height cannot be nil"
  | Some confirmHeight =>
      let* maturityHeight := ComputeMaturityHeight confirmHeight (CSVDelay p) in
      let blocksRemaining := int32 (maturityHeight - height) in
      let blocksRemaining :=
        if (blocksRemaining <? 0)%Z then 0%Z else blocksRemaining in
      Ok (mkCSVInfo confirmHeight maturityHeight blocksRemaining
            (maturityHeight <=? height)%Z)
  end.

Definition allProofTxidsConfirmed (p : Proof_) (confirmed : gset Hash) : bool :=
  forallb (λ layer, forallb (λ txid, bool_decide (txid ∈ confirmed)) layer)
    (Layers p).

Definition copySweepState (s : SweepState) : SweepState :=
  mkSweepState (sw_Status s) (sw_Txid s) (sw_ConfirmHeight s).

(** The order of [sortFrontier] and [sortBlocked]: layer, then raw txid. *)
Definition key_le (a b : nat * Hash) : Prop :=
  a.1 < b.1 ∨ (a.1 = b.1 ∧ (a.2 ≤ b.2)%N).

Definition frontier_key (f : TxFrontier) : nat * Hash := (tf_Layer f, tf_Txid f).
Definition blocked_key (b : BlockedTx) : nat * Hash :=
  frontier_key (bt_TxFrontier b).

Definition by_key {A} (key : A → nat * Hash) : relation A :=
  λ a b, key_le (key a) (key b).

#[export] Instance key_le_dec a b : Decision (key_le a b).
Proof. unfold key_le. apply _. Defined.
#[export] Instance by_key_dec {A} (key : A → nat * Hash) a b :
  Decision (by_key key a b).
Proof. unfold by_key. apply _. Defined.

Definition sortFrontier (frontier : list TxFrontier) : list TxFrontier :=
  merge_sort (by_key frontier_key) frontier.

Definition sortBlocked (frontier : list BlockedTx) : list BlockedTx :=
  merge_sort (by_key blocked_key) frontier.

(** The three slices the layer walk appends to. *)
Record buckets := mkBuckets {
  b_ready : list TxFrontier;
  b_inflight : list TxFrontier;
  b_blocked : list BlockedTx;
}.

(** The body of the walk for one transaction. *)
Definition plan_tx (p : Proof_) (confirmed inflight : gset Hash)
    (layerIndex : nat) (txid : Hash) (b : buckets) : result error buckets :=
  let node := GetNode p txid in
  let* parentTxids := ParentTxids p txid in
  let entry := mkTxFrontier txid node layerIndex parentTxids in
  if bool_decide (txid ∈ confirmed) then Ok b
  else if bool_decide (txid ∈ inflight) then
    Ok (mkBuckets (b_ready b) (b_inflight b ++ [entry]) (b_blocked b))
  else
    let* missing := missingParentsFromSet p confirmed txid in
    match missing with
    | [] => Ok (mkBuckets (b_ready b ++ [entry]) (b_inflight b) (b_blocked b))
    | _ => Ok (mkBuckets (b_ready b) (b_inflight b)
                 (b_blocked b ++ [mkBlockedTx entry missing]))
    end.

Fixpoint plan_walk (p : Proof_) (confirmed inflight : gset Hash)
    (todo : list (nat * Hash)) (b : buckets) : result error buckets :=
  match todo with
  | [] => Ok b
  | (layerIndex, txid) :: todo =>
      let* b := plan_tx p confirmed inflight layerIndex txid b in
      plan_walk p confirmed inflight todo b
  end.

(** [(p *Planner).Plan(height, state)]; both pointers may be nil. *)
Definition Plan (pl : option Planner) (height : Z) (state : option State) :
    result error Snapshot :=
  match PlannerProof pl with
  | None => Err "planner proof cannot be nil"
  | Some p =>
  match state with
  | None => Err "state cannot be nil"
  | Some st =>
      check* Validate (Some st) (Some p) in
      let* confirmed := hashSetFromSlice (ConfirmedTxids st) "confirmed txids" in
      let* inflight := hashSetFromSlice (InFlightTxids st) "in-flight txids" in
      let sweep := copySweepState (Sweep st) in
      let* b := plan_walk p confirmed inflight (walk_layers (Layers p))
                  (mkBuckets [] [] []) in
      let targetConfirmed :=
        confirmedTxidSetContains confirmed (op_Hash (TargetOutpoint p)) in
      let allConfirmed := allProofTxidsConfirmed p confirmed in
      let* csv :=
        if targetConfirmed then
          let* csv := csvInfoAt p height (TargetConfirmHeight st) in
          Ok (Some csv)
        else Ok None in
      let needSweep :=
        match csv with
        | Some csv => ci_Ready csv &&
            bool_decide (sw_Status sweep = SweepStatusPending)
        | None => false
        end in
      Ok (mkSnapshot (sortFrontier (b_ready b)) (sortFrontier (b_inflight b))
            (sortBlocked (b_blocked b)) targetConfirmed (TargetConfirmHeight st)
            csv allConfirmed needSweep
            (bool_decide (sw_Status sweep = SweepStatusConfirmed)) sweep)
  end
  end.

(** ** What a valid state is *)

Definition target (p : Proof_) : Hash := op_Hash (targetOutpoint p).

(** The sweep lifecycle, against the target's confirmation height. *)
Definition valid_sweep (p : Proof_) (sw : SweepState) (tch : option Z) : Prop :=
  (∀ x, sw_Txid sw = Some x → x ∉ dom (nodes p)) ∧
  match sw_Status sw with
  | SweepStatusPending => sw_Txid sw = None ∧ sw_ConfirmHeight sw = None
  | SweepStatusBroadcasted =>
      is_Some (sw_Txid sw) ∧ sw_ConfirmHeight sw = None ∧ is_Some tch
  | SweepStatusConfirmed =>
      is_Some (sw_Txid sw) ∧ ∃ c t, sw_ConfirmHeight sw = Some c ∧ tch = Some t ∧
        (0 ≤ c ∧ t + csvDelay p ≤ MaxInt32 ∧ t + csvDelay p ≤ c)%Z
  | SweepStatusUnknown _ => False
  end.

Record valid_state (p : Proof_) (st : State) : Prop := {
  vs_confirmed_nodup : NoDup (ConfirmedTxids st);
  vs_inflight_nodup : NoDup (InFlightTxids st);
  vs_disjoint : ∀ x, x ∈ ConfirmedTxids st → x ∉ InFlightTxids st;
  vs_confirmed_dom : ∀ x, x ∈ ConfirmedTxids st → x ∈ dom (nodes p);
  vs_inflight_dom : ∀ x, x ∈ InFlightTxids st → x ∈ dom (nodes p);
  vs_target : is_Some (TargetConfirmHeight st) ↔ target p ∈ ConfirmedTxids st;
  vs_height : ∀ h, TargetConfirmHeight st = Some h → (0 ≤ h)%Z;
  vs_sweep : valid_sweep p (Sweep st) (TargetConfirmHeight st);
  vs_parents : ∀ x q, x ∈ ConfirmedTxids st ∨ x ∈ InFlightTxids st →
    q ∈ adj (parents p) x → q ∈ ConfirmedTxids st;
}.

(** The heights a state holds are 32-bit values. *)
Definition state_int32 (st : State) : Prop :=
  ∀ h, TargetConfirmHeight st = Some h → is_int32 h.

(** ** Sets *)

Lemma hash_set_loop_spec label vs set :
  (NoDup vs ∧ (∀ x, x ∈ vs → x ∉ set) →
   hash_set_loop label vs set = Ok (list_to_set vs ∪ set)) ∧
  (∀ r, hash_set_loop label vs set = Ok r → NoDup vs ∧ ∀ x, x ∈ vs → x ∉ set).
Proof.
  revert set. induction vs as [|v vs IH]; intros set; simpl.
  - split; [intros _; f_equal; set_solver|]. intros r _.
    split; [constructor|]. set_solver.
  - destruct (IH ({[v]} ∪ set)) as [IH1 IH2].
    destruct (decide (v ∈ set)) as [Hv|Hv].
    + rewrite bool_decide_eq_true_2 by done. split; [|done].
      intros [_ Hn]. by destruct (Hn v (list_elem_of_here _ _)).
    + rewrite bool_decide_eq_false_2 by done. split.
      * intros [[Hn Hnd]%NoDup_cons Hd]. rewrite IH1; [f_equal; set_solver|].
        split; [done|]. set_solver.
      * intros r Hr. apply IH2 in Hr as [Hnd Hd]. split; [|set_solver].
        apply NoDup_cons. set_solver.
Qed.

Lemma hashSetFromSlice_ok vs label r :
  hashSetFromSlice vs label = Ok r ↔ NoDup vs ∧ r = list_to_set vs.
Proof.
  unfold hashSetFromSlice. destruct (hash_set_loop_spec label vs ∅) as [H1 H2]. split.
  - intros Hr. destruct (H2 _ Hr) as [Hnd Hd]. split; [done|].
    rewrite H1 in Hr by done. injection Hr as <-. set_solver.
  - intros [Hnd ->]. rewrite H1 by set_solver. f_equal. set_solver.
Qed.

Lemma ensureDisjoint_ok a b : ensureDisjoint a b = Ok tt ↔ a ## b.
Proof.
  unfold ensureDisjoint. rewrite disjoint_intersection_L.
  destruct (decide (a ∩ b = ∅)).
  - by rewrite bool_decide_eq_true_2.
  - rewrite bool_decide_eq_false_2 by done. by split.
Qed.

Lemma known_txid_ok p msg x : known_txid p msg x = Ok tt ↔ x ∈ dom (nodes p).
Proof.
  unfold known_txid, GetNode. rewrite elem_of_dom.
  destruct (nodes p !! x); split; eauto; done.
Qed.

Lemma for_each_elements {E} (f : Hash → result E unit) (l : list Hash) :
  for_each f (elements (list_to_set l : gset Hash)) = Ok tt ↔
  ∀ x, x ∈ l → f x = Ok tt.
Proof.
  rewrite for_each_ok. by setoid_rewrite elem_of_elements; setoid_rewrite elem_of_list_to_set.
Qed.

Lemma target_guards (o : option Z) (b : bool) :
  negb (bool_decide (is_Some o) && negb b) = true ∧
  negb (b && bool_decide (o = None)) = true ↔ (is_Some o ↔ b = true).
Proof.
  destruct o, b; simpl; split; try done; naive_solver.
Qed.

Lemma height_guard (o : option Z) :
  from_option
    (λ h, if (h <? 0)%Z then Err "target confirm height is negative" else Ok tt)
    (Ok tt) o = Ok tt ↔ ∀ h, o = Some h → (0 ≤ h)%Z.
Proof.
  destruct o as [h|]; simpl; [|naive_solver]. destruct (Z.ltb_spec h 0); split; try done.
  - intros Hh. specialize (Hh h eq_refl). lia.
  - intros _ h' [= <-]. done.
Qed.

(** ** The deterministic order of the walk *)

#[export] Instance key_le_trans : Transitive key_le.
Proof. intros [i x] [j y] [k z]. unfold key_le. simpl. lia. Qed.
#[export] Instance key_le_total : Total key_le.
Proof. intros [i x] [j y]. unfold key_le. simpl. lia. Qed.
#[export] Instance key_le_antisymm : AntiSymm (=) key_le.
Proof.
  intros [i x] [j y]. unfold key_le. simpl. intros. f_equal; lia.
Qed.
#[export] Instance by_key_trans {A} (key : A → nat * Hash) : Transitive (by_key key).
Proof. intros a b c. apply (transitivity (R:=key_le)). Qed.
#[export] Instance by_key_total {A} (key : A → nat * Hash) : Total (by_key key).
Proof. intros a b. apply (total key_le). Qed.

Lemma StronglySorted_omap {A B} (R : relation A) (S : relation B) (g : A → option B) l :
  (∀ a a' b b', R a a' → g a = Some b → g a' = Some b' → S b b') →
  StronglySorted R l → StronglySorted S (omap g l).
Proof.
  intros HRS. induction 1 as [|a l _ IH Ha]; csimpl; [constructor|].
  destruct (g a) as [b|] eqn:Hb; [|done]. constructor; [done|].
  apply Forall_forall. intros b' (a' & Ha' & Hb')%list_elem_of_omap.
  rewrite Forall_forall in Ha. by eapply (HRS a a'); [apply Ha| |].
Qed.

(** Sorting what a sorted walk produced changes nothing. *)
Lemma merge_sort_walk {B} (key : B → nat * Hash) (g : nat * Hash → option B) l :
  StronglySorted key_le l → (∀ ix b, g ix = Some b → key b = ix) →
  merge_sort (by_key key) (omap g l) = omap g l.
Proof.
  intros Hl Hg. apply (StronglySorted_unique_strong (by_key key)).
  - intros a b Ha Hb Hab Hba. rewrite merge_sort_Permutation in Ha.
    apply list_elem_of_omap in Ha as (ix & _ & Hix).
    apply list_elem_of_omap in Hb as (iy & _ & Hiy).
    assert (ix = iy) as ->; [|congruence].
    rewrite <-(Hg _ _ Hix), <-(Hg _ _ Hiy). by apply (anti_symm key_le).
  - apply StronglySorted_merge_sort; apply _.
  - eapply StronglySorted_omap; [|done]. intros a a' b b' Hle Ha Ha'.
    unfold by_key. by rewrite (Hg _ _ Ha), (Hg _ _ Ha').
  - apply merge_sort_Permutation.
Qed.

Lemma walk_layers_sorted ls :
  (∀ l, l ∈ ls → StronglySorted N.le l) → StronglySorted key_le (walk_layers ls).
Proof.
  unfold walk_layers. change (λ i l, pair i <$> l) with (λ i (l : list Hash), pair (0 + i) <$> l).
  generalize 0 as k. induction ls as [|l ls IH]; intros k Hl; csimpl; [constructor|].
  apply StronglySorted_app. split_and!.
  - intros x1 x2 (h & -> & Hh)%list_elem_of_fmap Hx2. left. simpl.
    apply list_elem_of_In, in_concat in Hx2 as (l' & Hl' & Hx2).
    apply list_elem_of_In in Hl', Hx2.
    apply elem_of_lookup_imap_1 in Hl' as (j & l'' & -> & _).
    apply list_elem_of_fmap in Hx2 as (y & -> & _). simpl. lia.
  - eapply StronglySorted_fmap; [|apply Hl; constructor].
    intros x y Hxy. right. simpl. split; [lia|done].
  - erewrite imap_ext; [apply (IH (S k)); set_solver|].
    intros i x _. simpl. by rewrite Nat.add_succ_r.
Qed.

Lemma walk_layers_snd ls : (walk_layers ls).*2 = concat ls.
Proof.
  unfold walk_layers. change (λ i l, pair i <$> l) with (λ i (l : list Hash), pair (0 + i) <$> l).
  generalize 0 as k. induction ls as [|l ls IH]; intros k; csimpl; [done|].
  rewrite fmap_app, <-list_fmap_compose. f_equal; [apply list_fmap_id|].
  rewrite <-(IH (S k)). do 2 f_equal. apply imap_ext. intros i x _. simpl.
  by rewrite Nat.add_succ_r.
Qed.

Section planner.
Context (p : Proof_) `{!WfProof p}.
Implicit Types st : State.

Definition missing_of (C : gset Hash) (x : Hash) : list Hash :=
  sortHashes (filter (λ q, q ∉ C) (adj (parents p) x)).

Lemma missing_of_nil (C : gset Hash) x :
  missing_of C x = [] ↔ ∀ q, q ∈ adj (parents p) x → q ∈ C.
Proof.
  unfold missing_of, sortHashes. split.
  - intros Hm q Hq. destruct (decide (q ∈ C)); [done|].
    exfalso. eapply (not_elem_of_nil q). rewrite <-Hm, elem_of_hash_sort.
    by apply list_elem_of_filter.
  - intros Hall. apply elem_of_nil_inv. intros q.
    rewrite elem_of_hash_sort, list_elem_of_filter. intros [Hn Hq]. by apply Hn, Hall.
Qed.

Lemma missingParentsFromSet_ok C x :
  x ∈ dom (nodes p) → missingParentsFromSet p C x = Ok (missing_of C x).
Proof. intros Hx. unfold missingParentsFromSet. by rewrite (ParentTxids_ok p x Hx). Qed.

Lemma ensureParentsConfirmed_ok (C : gset Hash) x :
  x ∈ dom (nodes p) →
  ensureParentsConfirmed p C x = Ok tt ↔ ∀ q, q ∈ adj (parents p) x → q ∈ C.
Proof.
  intros Hx. unfold ensureParentsConfirmed. rewrite missingParentsFromSet_ok by done.
  rewrite <-missing_of_nil. by destruct (missing_of C x).
Qed.

Lemma validateSweepState_ok sw (C : gset Hash) tch :
  (∀ h, tch = Some h → is_int32 h ∧ 0 ≤ h)%Z → (is_Some tch ↔ target p ∈ C) →
  validateSweepState sw C p tch = Ok tt ↔ valid_sweep p sw tch.
Proof.
  intros Hh Ht. unfold validateSweepState, valid_sweep, TargetOutpoint, CSVDelay.
  fold (target p).
  assert (from_option (λ txid, match GetNode p txid with
             | Some _ => Err "sweep txid collides with proof node"
             | None => Ok tt end) (Ok tt) (sw_Txid sw) = Ok tt ↔
          ∀ x, sw_Txid sw = Some x → x ∉ dom (nodes p)) as Hcol.
  { destruct (sw_Txid sw) as [x|]; simpl; [|naive_solver]. unfold GetNode.
    setoid_rewrite not_elem_of_dom.
    destruct (nodes p !! x) eqn:Hx; split; try done; naive_solver. }
  rewrite <-Hcol. destruct (from_option _ _ _) as [[]|e]; [|naive_solver].
  assert (∀ (P : Prop), P ↔ Ok (E:=error) tt = Ok tt ∧ P) as Htriv by naive_solver.
  rewrite <-Htriv.
  destruct sw as [[| | |k] tx ch]; cbn [sw_Status sw_Txid sw_ConfirmHeight]; simpl.
  - destruct tx, ch; split; try done; by intros [? ?].
  - destruct tx, ch; simpl.
    1, 3, 4: split; [done|]; intros ([? ?] & ? & _); done.
    rewrite Ht. destruct (decide (target p ∈ C)).
    + rewrite (bool_decide_eq_true_2 (target p ∈ C)) by done. split; eauto.
    + rewrite (bool_decide_eq_false_2 (target p ∈ C)) by done. by split; [|intros (_ & _ & ?)].
  - destruct tx as [x|], ch as [c|]; simpl.
    2, 3, 4: split; [done|]; intros ([? ?] & ? & ? & ? & _); done.
    destruct tch as [t|].
    2:{ rewrite (bool_decide_eq_false_2 (target p ∈ C)) by (rewrite <-Ht; by intros [? ?]).
        destruct (negb _); (split; [done|]); intros (_ & ? & ? & _ & ? & _); done. }
    rewrite (bool_decide_eq_true_2 (target p ∈ C)) by (apply Ht; eauto).
    destruct (Hh t eq_refl) as [Hi Hpos]. pose proof wf_csv as Hcsv.
    assert (is_uint32 (csvDelay p)) as Hu by (unfold is_uint32, MaxCSVDelay in *; lia).
    split.
    + intros HV. inv_ok.
      match goal with E : wrap _ _ = _ |- _ => apply wrap_ok in E;
        apply ComputeMaturityHeight_ok in E as (? & ? & ? & ->); [|done..] end.
      zbool. split; [eauto|]. exists c, t. split_and!; done || lia.
    + intros (_ & c' & t' & [= <-] & [= <-] & ? & ? & ?).
      rewrite (proj2 (ComputeMaturityHeight_ok t (csvDelay p) (t + csvDelay p) Hi Hu)) by lia.
      simpl. rewrite (proj2 (Z.ltb_ge c 0)), (proj2 (Z.ltb_ge c (t + csvDelay p))) by lia.
      done.
  - by split.
Qed.

Lemma Validate_valid st :
  state_int32 st → Validate (Some st) (Some p) = Ok tt ↔ valid_state p st.
Proof.
  intros Hw. unfold Validate, TargetOutpoint, confirmedTxidSetContains. fold (target p).
  split.
  - intros HV. inv_ok.
    repeat match goal with E : hashSetFromSlice _ _ = Ok _ |- _ =>
      apply hashSetFromSlice_ok in E as [? ->] end.
    match goal with E : ensureDisjoint _ _ = _ |- _ =>
      apply ensureDisjoint_ok in E end.
    rewrite for_each_elements in *. setoid_rewrite known_txid_ok in E2.
    setoid_rewrite known_txid_ok in E3. setoid_rewrite wrap_ok in HV.
    pose proof (proj1 (target_guards _ _) (conj G G0)) as Ht.
    rewrite bool_decide_eq_true, elem_of_list_to_set in Ht.
    pose proof (proj1 (height_guard _) E4) as Hh.
    apply validateSweepState_ok in E5; [|by auto|by rewrite elem_of_list_to_set].
    constructor; try done; [set_solver|].
    intros x q [Hx|Hx] Hq; apply (elem_of_list_to_set (C:=gset Hash)).
    + by apply (proj1 (ensureParentsConfirmed_ok _ x (E2 x Hx))); auto.
    + by apply (proj1 (ensureParentsConfirmed_ok _ x (E3 x Hx))); auto.
  - intros [Hcn Hin Hd Hcd Hid Ht Hh Hs Hp].
    rewrite (proj2 (hashSetFromSlice_ok (ConfirmedTxids st) _ _)) by done.
    rewrite (proj2 (hashSetFromSlice_ok (InFlightTxids st) _ _)) by done.
    rewrite (proj2 (ensureDisjoint_ok _ _)) by set_solver.
    rewrite (proj2 (for_each_elements _ (ConfirmedTxids st)))
      by (intros; apply known_txid_ok; auto).
    rewrite (proj2 (for_each_elements _ (InFlightTxids st)))
      by (intros; apply known_txid_ok; auto).
    destruct (proj2 (target_guards (TargetConfirmHeight st)
      (bool_decide (target p ∈ (list_to_set (ConfirmedTxids st) : gset Hash)))))
      as [-> ->]; [by rewrite bool_decide_eq_true, elem_of_list_to_set|].
    rewrite (proj2 (height_guard _)) by done.
    assert (validateSweepState (Sweep st) (list_to_set (ConfirmedTxids st)) p
      (TargetConfirmHeight st) = Ok tt) as ->.
    { apply validateSweepState_ok; [by auto|by rewrite elem_of_list_to_set|done]. }
    rewrite (proj2 (for_each_elements _ (ConfirmedTxids st))).
    2:{ intros x Hx. apply ensureParentsConfirmed_ok; [auto|]. intros q Hq.
        apply elem_of_list_to_set. eauto. }
    apply for_each_elements. intros x Hx.
    apply wrap_ok, ensureParentsConfirmed_ok; [auto|]. intros q Hq.
    apply elem_of_list_to_set. eauto.
Qed.

(** ** The walk without accumulators *)

Definition entry (ix : nat * Hash) : TxFrontier :=
  mkTxFrontier ix.2 (GetNode p ix.2) ix.1 (adj (parents p) ix.2).

Definition plan_ready (C I : gset Hash) (ix : nat * Hash) : option TxFrontier :=
  if decide (ix.2 ∈ C ∪ I) then None
  else match missing_of C ix.2 with [] => Some (entry ix) | _ => None end.

Definition plan_inflight (C I : gset Hash) (ix : nat * Hash) : option TxFrontier :=
  if decide (ix.2 ∈ C) then None
  else if decide (ix.2 ∈ I) then Some (entry ix) else None.

Definition plan_blocked (C I : gset Hash) (ix : nat * Hash) : option BlockedTx :=
  if decide (ix.2 ∈ C ∪ I) then None
  else match missing_of C ix.2 with
       | [] => None
       | m => Some (mkBlockedTx (entry ix) m)
       end.

Lemma plan_walk_ok C I todo b :
  (∀ ix, ix ∈ todo → ix.2 ∈ dom (nodes p)) →
  plan_walk p C I todo b =
  Ok (mkBuckets (b_ready b ++ omap (plan_ready C I) todo)
        (b_inflight b ++ omap (plan_inflight C I) todo)
        (b_blocked b ++ omap (plan_blocked C I) todo)).
Proof.
  revert b. induction todo as [|[i x] todo IH]; intros b Hdom.
  { simpl. rewrite !app_nil_r. by destruct b. }
  assert (x ∈ dom (nodes p)) as Hx by (apply (Hdom (i, x)); constructor).
  cbn [plan_walk]. unfold plan_tx.
  rewrite (ParentTxids_ok p x Hx), missingParentsFromSet_ok by done.
  assert (∀ b', plan_walk p C I todo b' = _) as IH' by (intros b'; apply IH; set_solver).
  clear IH. cbn [omap list_omap].
  assert (plan_ready C I (i, x) = if decide (x ∈ C ∪ I) then None
    else match missing_of C x with [] => Some (entry (i, x)) | _ => None end) as -> by done.
  assert (plan_inflight C I (i, x) = if decide (x ∈ C) then None
    else if decide (x ∈ I) then Some (entry (i, x)) else None) as -> by done.
  assert (plan_blocked C I (i, x) = if decide (x ∈ C ∪ I) then None
    else match missing_of C x with [] => None
         | m => Some (mkBlockedTx (entry (i, x)) m) end) as -> by done.
  destruct (decide (x ∈ C)) as [HC|HC].
  { rewrite bool_decide_eq_true_2, !decide_True by set_solver. by rewrite IH'. }
  rewrite bool_decide_eq_false_2 by done.
  destruct (decide (x ∈ I)) as [HI|HI].
  { rewrite bool_decide_eq_true_2, !decide_True by set_solver. rewrite IH'. simpl.
    by rewrite <-app_assoc. }
  rewrite bool_decide_eq_false_2, !decide_False by set_solver.
  destruct (missing_of C x); rewrite IH'; simpl; by rewrite <-app_assoc.
Qed.

Lemma walk_sorted : StronglySorted key_le (walk_layers (layers p)).
Proof. apply walk_layers_sorted, (lay_sorted _ _ _ _ wf_layering). Qed.

Lemma plan_ready_key C I ix f : plan_ready C I ix = Some f → f = entry ix.
Proof.
  unfold plan_ready. case_decide; [done|]. by destruct (missing_of _ _); [intros [= <-]|].
Qed.

Lemma plan_inflight_key C I ix f : plan_inflight C I ix = Some f → f = entry ix.
Proof.
  unfold plan_inflight. destruct (decide (ix.2 ∈ C)); [done|].
  destruct (decide (ix.2 ∈ I)); [|done]. by intros [= <-].
Qed.

Lemma plan_blocked_key C I ix b :
  plan_blocked C I ix = Some b → bt_TxFrontier b = entry ix.
Proof.
  unfold plan_blocked. case_decide; [done|]. by destruct (missing_of _ _); [|intros [= <-]].
Qed.

Definition all_confirmed (C : gset Hash) : Prop := ∀ x, x ∈ dom (nodes p) → x ∈ C.

Lemma allProofTxidsConfirmed_ok C :
  allProofTxidsConfirmed p C = true ↔ all_confirmed C.
Proof.
  unfold allProofTxidsConfirmed, all_confirmed, Layers. rewrite forallb_forall. split.
  - intros Hall x Hx. apply (wf_layers_elem p), list_elem_of_In, in_concat in Hx as (l & Hl & Hx).
    specialize (Hall l Hl). rewrite forallb_forall in Hall.
    by eapply bool_decide_eq_true_1, Hall.
  - intros Hall l Hl. rewrite forallb_forall. intros x Hx. apply bool_decide_eq_true_2, Hall.
    apply (wf_layers_elem p), list_elem_of_In, in_concat. eauto.
Qed.

(** The target confirms last: with parents confirmed first, the target's
    confirmation means that everything is. *)
Lemma valid_target_all st :
  valid_state p st → target p ∈ ConfirmedTxids st →
  all_confirmed (list_to_set (ConfirmedTxids st)).
Proof.
  intros Hv Ht x Hx. apply elem_of_list_to_set.
  apply (wf_closed_target p (λ y, y ∈ ConfirmedTxids st)); [|done..].
  intros y q Hy Hq. apply (vs_parents _ _ Hv y); auto.
Qed.

(** The CSV view a plan holds: the error is the overflow of the maturity. *)
Lemma csvInfoAt_ok h k :
  is_int32 k → (0 ≤ k)%Z →
  csvInfoAt p h (Some k) =
  if decide (k + csvDelay p ≤ MaxInt32)%Z
  then Ok (mkCSVInfo k (k + csvDelay p)
             (let r := int32 (k + csvDelay p - h) in if (r <? 0)%Z then 0 else r)%Z
             (k + csvDelay p <=? h)%Z)
  else Err "csv maturity overflows int32".
Proof.
  intros Hi Hpos. unfold csvInfoAt, CSVDelay. pose proof wf_csv as Hcsv.
  assert (is_uint32 (csvDelay p)) as Hu by (unfold is_uint32, MaxCSVDelay in *; lia).
  destruct (decide _) as [Hle|Hgt].
  - by rewrite (proj2 (ComputeMaturityHeight_ok k _ (k + csvDelay p)%Z Hi Hu)) by lia.
  - unfold ComputeMaturityHeight, is_int32, MaxCSVDelay, MaxInt32 in *.
    rewrite (proj2 (Z.ltb_ge k 0)), (proj2 (Z.ltb_ge 65535 (csvDelay p))) by lia.
    rewrite (int64_id k), (int64_id (csvDelay p)), (int64_id (k + csvDelay p))
      by (unfold is_int64; lia).
    by rewrite (proj2 (Z.ltb_lt 2147483647 (k + csvDelay p))) by lia.
Qed.

(** The plan of a valid state, in one equation. *)
Definition plan_csv (h : Z) (st : State) : option CSVInfo :=
  match TargetConfirmHeight st with
  | Some k => match csvInfoAt p h (Some k) with Ok c => Some c | Err _ => None end
  | None => None
  end.

Definition plan_snapshot (h : Z) (st : State) : Snapshot :=
  let C := list_to_set (ConfirmedTxids st) in
  let I := list_to_set (InFlightTxids st) in
  let w := walk_layers (layers p) in
  mkSnapshot (omap (plan_ready C I) w) (omap (plan_inflight C I) w)
    (omap (plan_blocked C I) w)
    (bool_decide (target p ∈ ConfirmedTxids st)) (TargetConfirmHeight st)
    (plan_csv h st)
    (bool_decide (target p ∈ ConfirmedTxids st))
    (match plan_csv h st with
     | Some c => ci_Ready c && bool_decide (sw_Status (Sweep st) = SweepStatusPending)
     | None => false
     end)
    (bool_decide (sw_Status (Sweep st) = SweepStatusConfirmed)) (Sweep st).

Definition planner : option Planner := Some (mkPlanner (Some p)).

Definition matures (st : State) : Prop :=
  ∀ k, TargetConfirmHeight st = Some k → (k + csvDelay p ≤ MaxInt32)%Z.

Lemma plan_sorts C I :
  sortFrontier (omap (plan_ready C I) (walk_layers (layers p))) =
    omap (plan_ready C I) (walk_layers (layers p)) ∧
  sortFrontier (omap (plan_inflight C I) (walk_layers (layers p))) =
    omap (plan_inflight C I) (walk_layers (layers p)) ∧
  sortBlocked (omap (plan_blocked C I) (walk_layers (layers p))) =
    omap (plan_blocked C I) (walk_layers (layers p)).
Proof.
  split_and!; (apply merge_sort_walk; [apply walk_sorted|]); intros [i x] f Hf.
  - by rewrite (plan_ready_key _ _ _ _ Hf).
  - by rewrite (plan_inflight_key _ _ _ _ Hf).
  - unfold blocked_key. by rewrite (plan_blocked_key _ _ _ _ Hf).
Qed.

Lemma Plan_valid h st :
  state_int32 st → valid_state p st →
  (matures st → Plan planner h (Some st) = Ok (plan_snapshot h st)) ∧
  (¬ matures st → Plan planner h (Some st) = Err "csv maturity overflows int32").
Proof.
  intros Hw Hv. unfold Plan. simpl PlannerProof. cbv iota.
  rewrite (proj2 (Validate_valid st Hw) Hv).
  rewrite (proj2 (hashSetFromSlice_ok (ConfirmedTxids st) _ _)) by (by destruct Hv).
  rewrite (proj2 (hashSetFromSlice_ok (InFlightTxids st) _ _)) by (by destruct Hv).
  unfold Layers. rewrite plan_walk_ok by apply (walk_layers_dom p).
  cbn [b_ready b_inflight b_blocked app].
  destruct (plan_sorts (list_to_set (ConfirmedTxids st)) (list_to_set (InFlightTxids st)))
    as (-> & -> & ->).
  unfold plan_snapshot, plan_csv, confirmedTxidSetContains, TargetOutpoint.
  fold (target p). rewrite (bool_decide_ext _ _ (elem_of_list_to_set (C:=gset Hash) _ _)).
  assert (allProofTxidsConfirmed p (list_to_set (ConfirmedTxids st)) =
    bool_decide (target p ∈ ConfirmedTxids st)) as ->.
  { apply Bool.eq_iff_eq_true. rewrite bool_decide_eq_true, allProofTxidsConfirmed_ok.
    split; [|by apply valid_target_all]. intros Hall.
    apply (elem_of_list_to_set (C:=gset Hash)), Hall, wf_target. }
  pose proof (vs_target _ _ Hv) as Ht. unfold matures.
  destruct (TargetConfirmHeight st) as [k|] eqn:Hk.
  - rewrite (bool_decide_eq_true_2 (target p ∈ _)) by (apply Ht; eauto).
    rewrite csvInfoAt_ok; [|by apply Hw|by apply (vs_height _ _ Hv)].
    destruct (decide (k + csvDelay p ≤ MaxInt32)%Z) as [Hle|Hgt].
    + split; [by destruct (Sweep st)|]. intros Hn. destruct Hn. by intros ? [= <-].
    + split; [|done]. intros Hm. by destruct (Hgt (Hm k eq_refl)).
  - rewrite (bool_decide_eq_false_2 (target p ∈ _)) by (rewrite <-Ht; by intros [? ?]).
    split; [by destruct (Sweep st)|]. intros Hn. by destruct Hn.
Qed.

(** The same result, by the outcome of the CSV computation. *)
Lemma Plan_by_csv h st :
  state_int32 st → valid_state p st →
  Plan planner h (Some st) =
  match TargetConfirmHeight st with
  | Some k => match csvInfoAt p h (Some k) with
              | Ok _ => Ok (plan_snapshot h st)
              | Err e => Err e
              end
  | None => Ok (plan_snapshot h st)
  end.
Proof.
  intros Hw Hv. destruct (Plan_valid h st Hw Hv) as [H1 H2]. unfold matures in *.
  destruct (TargetConfirmHeight st) as [k|] eqn:Hk; [|by apply H1].
  rewrite csvInfoAt_ok; [|by apply Hw|by apply (vs_height _ _ Hv)].
  destruct (decide (k + csvDelay p ≤ MaxInt32)%Z).
  - apply H1. by intros ? [= <-].
  - apply H2. eauto.
Qed.

Lemma Plan_inv h st snap :
  state_int32 st → Plan planner h (Some st) = Ok snap →
  valid_state p st ∧ matures st ∧ snap = plan_snapshot h st.
Proof.
  intros Hw HP. assert (valid_state p st) as Hv.
  { apply (Validate_valid st Hw). unfold Plan in HP. simpl PlannerProof in HP.
    cbv iota in HP. by destruct (Validate (Some st) (Some p)) as [[]|]. }
  destruct (Plan_valid h st Hw Hv) as [H1 H2]. split; [done|].
  assert (Decision (matures st)) as [Hm|Hm].
  { unfold matures. destruct (TargetConfirmHeight st) as [k|]; [|by left].
    destruct (decide (k + csvDelay p ≤ MaxInt32)%Z).
    - left. by intros ? [= <-].
    - right. eauto. }
  - rewrite H1 in HP by done. split; [done|congruence].
  - by rewrite H2 in HP.
Qed.

Lemma plan_ready_elem C I x :
  x ∈ tf_Txid <$> omap (plan_ready C I) (walk_layers (layers p)) ↔
  x ∈ dom (nodes p) ∧ x ∉ C ∧ x ∉ I ∧ ∀ q, q ∈ adj (parents p) x → q ∈ C.
Proof.
  rewrite list_elem_of_fmap. setoid_rewrite list_elem_of_omap. split.
  - intros (f & -> & [i y] & Hin & Hf). pose proof (plan_ready_key _ _ _ _ Hf) as ->.
    unfold plan_ready in Hf. simpl in *. case_decide as HD; [done|].
    destruct (missing_of C y) eqn:Hm; [|done]. apply (walk_layers_dom p) in Hin.
    split; [done|]. split; [set_solver|]. split; [set_solver|]. by apply missing_of_nil.
  - intros (Hx & HC & HI & Hq). destruct (wf_layer_exists p x Hx) as [i Hi].
    exists (entry (i, x)). split; [done|]. exists (i, x).
    split; [by apply elem_of_walk_layers|]. unfold plan_ready. simpl.
    rewrite decide_False by set_solver. by rewrite (proj2 (missing_of_nil C x)).
Qed.

Lemma plan_inflight_elem C I x :
  x ∈ tf_Txid <$> omap (plan_inflight C I) (walk_layers (layers p)) ↔
  x ∈ dom (nodes p) ∧ x ∉ C ∧ x ∈ I.
Proof.
  rewrite list_elem_of_fmap. setoid_rewrite list_elem_of_omap. split.
  - intros (f & -> & [i y] & Hin & Hf). pose proof (plan_inflight_key _ _ _ _ Hf) as ->.
    unfold plan_inflight in Hf. simpl in *. destruct (decide (y ∈ C)); [done|].
    destruct (decide (y ∈ I)); [|done]. by apply (walk_layers_dom p) in Hin.
  - intros (Hx & HC & HI). destruct (wf_layer_exists p x Hx) as [i Hi].
    exists (entry (i, x)). split; [done|]. exists (i, x).
    split; [by apply elem_of_walk_layers|]. unfold plan_inflight. simpl.
    by rewrite decide_False, decide_True.
Qed.

Lemma plan_blocked_elem C I b :
  b ∈ omap (plan_blocked C I) (walk_layers (layers p)) ↔
  ∃ x i, in_layer (layers p) i x ∧ x ∉ C ∧ x ∉ I ∧ missing_of C x ≠ [] ∧
    b = mkBlockedTx (entry (i, x)) (missing_of C x).
Proof.
  rewrite list_elem_of_omap. split.
  - intros ([i y] & Hin & Hf). unfold plan_blocked in Hf. simpl in *.
    case_decide; [done|]. destruct (missing_of C y) as [|q l] eqn:Hm; [done|].
    injection Hf as <-. exists y, i. rewrite Hm, <-elem_of_walk_layers. set_solver.
  - intros (x & i & Hi & HC & HI & Hm & ->). exists (i, x).
    split; [by apply elem_of_walk_layers|]. unfold plan_blocked. simpl.
    rewrite decide_False by set_solver. by destruct (missing_of C x).
Qed.

End planner.

(** ** The session as a planner state

    The recovery session and the planner are two views of one materialization:
    a session's progress is this planner state. *)

Definition plan_state (p : Proof_) (s : Session) : State :=
  mkState
    (filter (λ x, confirmed_in s x) (elements (dom (nodes p))))
    (filter (λ x, tx_state (txStates s) x = TxStateBroadcasted)
       (elements (dom (nodes p))))
    (confirmHeights s !! target p)
    (mkSweepState SweepStatusPending None None).

Definition csv_view (c : CSVInfo) : CSVStatus :=
  mkCSVStatus (ci_TargetConfirmHeight c) (ci_MaturityHeight c)
    (ci_BlocksRemaining c) (ci_Ready c).

(** The two snapshots list the same transactions, in the same order. *)
Record snapshots_agree (a : RecoverySession.Snapshot) (b : Snapshot) : Prop := {
  ag_ready : ba_Txid <$> ReadyToBroadcast a = tf_Txid <$> sn_Ready b;
  ag_inflight : AwaitingConfirmation a = sortHashes (tf_Txid <$> sn_InFlight b);
  ag_blocked : Blocked a = (λ t, mkBlockedAction (tf_Txid (bt_TxFrontier t))
    (tf_Layer (bt_TxFrontier t)) (bt_MissingParents t)) <$> sn_Blocked b;
  ag_csv : CSV a = csv_view <$> sn_CSV b;
  ag_status : Status a =
    if sn_NeedSweep b then SessionStatusSweepReady
    else if sn_AllProofConfirmed b then SessionStatusAwaitingCSV
    else SessionStatusMaterializing;
}.

Section agreement.
Context (p : Proof_) `{!WfProof p} (s : Session).
Context (Hinv : session_inv p s).
Context (Hw : ∀ x k, confirmHeights s !! x = Some k → is_int32 k).

Let st := plan_state p s.

Lemma plan_state_confirmed x :
  x ∈ ConfirmedTxids st ↔ x ∈ dom (nodes p) ∧ confirmed_in s x.
Proof. simpl. rewrite list_elem_of_filter, elem_of_elements. tauto. Qed.

Lemma plan_state_inflight x :
  x ∈ InFlightTxids st ↔
  x ∈ dom (nodes p) ∧ tx_state (txStates s) x = TxStateBroadcasted.
Proof. simpl. rewrite list_elem_of_filter, elem_of_elements. tauto. Qed.

Lemma plan_state_int32 : state_int32 st.
Proof. intros h Hh. by apply (Hw (target p)). Qed.

Lemma plan_state_valid : valid_state p st.
Proof.
  constructor.
  - apply NoDup_filter, NoDup_elements.
  - apply NoDup_filter, NoDup_elements.
  - intros x. rewrite plan_state_confirmed, plan_state_inflight. unfold confirmed_in.
    intros [_ Hc] [_ Hb]. congruence.
  - intros x. rewrite plan_state_confirmed. by intros [? _].
  - intros x. rewrite plan_state_inflight. by intros [? _].
  - rewrite plan_state_confirmed. simpl. rewrite (si_heights _ _ Hinv).
    pose proof wf_target. unfold target in *. tauto.
  - intros h Hh. by apply (si_height_pos _ _ Hinv (target p)).
  - split; [done|]. done.
  - intros x q. rewrite !plan_state_confirmed, plan_state_inflight. intros Hx Hq.
    split; [by apply (wf_parent_dom p x)|].
    apply (si_parents _ _ Hinv x); [|done]. unfold confirmed_in in Hx.
    destruct Hx as [[_ Hx]|[_ Hx]]; by rewrite Hx.
Qed.

Lemma missing_agree x :
  missing_list p s x = missing_of p (list_to_set (ConfirmedTxids st)) x.
Proof.
  unfold missing_list, missing_of. f_equal. apply filter_ext_elem. intros q Hq.
  rewrite elem_of_list_to_set, plan_state_confirmed. unfold confirmed_in.
  apply (wf_parent_dom p) in Hq as [_ Hq]. tauto.
Qed.

Lemma state_cases x :
  x ∈ dom (nodes p) →
  let C := list_to_set (ConfirmedTxids st) : gset Hash in
  let I := list_to_set (InFlightTxids st) : gset Hash in
  match tx_state (txStates s) x with
  | TxStatePending => x ∉ C ∪ I
  | TxStateBroadcasted => x ∉ C ∧ x ∈ I
  | TxStateConfirmed => x ∈ C
  | TxStateUnknown _ => False
  end.
Proof.
  intros Hx C I.
  assert (x ∈ C ↔ tx_state (txStates s) x = TxStateConfirmed) as HC.
  { unfold C. rewrite elem_of_list_to_set, plan_state_confirmed. unfold confirmed_in. tauto. }
  assert (x ∈ I ↔ tx_state (txStates s) x = TxStateBroadcasted) as HI.
  { unfold I. rewrite elem_of_list_to_set, plan_state_inflight. tauto. }
  clearbody C I. pose proof (si_known _ _ Hinv x) as Hk.
  destruct (tx_state (txStates s) x); [set_solver..|]. by destruct (Hk k).
Qed.

Lemma walk_agree h :
  let f := frontier_of p s (walk_layers (layers p)) in
  let b := plan_snapshot p h st in
  ba_Txid <$> f_ready f = tf_Txid <$> sn_Ready b ∧
  f_awaiting f = tf_Txid <$> sn_InFlight b ∧
  f_blocked f = (λ t, mkBlockedAction (tf_Txid (bt_TxFrontier t))
    (tf_Layer (bt_TxFrontier t)) (bt_MissingParents t)) <$> sn_Blocked b.
Proof.
  cbv zeta. unfold frontier_of, plan_snapshot.
  cbn [f_ready f_awaiting f_blocked sn_Ready sn_InFlight sn_Blocked].
  rewrite !list_fmap_omap.
  split_and!; apply omap_ext_elem; intros [i x] Hx%(walk_layers_dom p);
    pose proof (state_cases x Hx) as Hc; cbv zeta in Hc;
    unfold ready_of, awaiting_of, blocked_of, plan_ready, plan_inflight, plan_blocked;
    cbn [fst snd] in *; rewrite ?missing_agree;
    destruct (tx_state (txStates s) x);
    repeat (destruct (decide _); try set_solver); try done;
    by destruct (missing_of p _ x).
Qed.

Lemma complete_agree :
  materializationComplete s = bool_decide (target p ∈ ConfirmedTxids st).
Proof.
  apply Bool.eq_iff_eq_true.
  rewrite (materialization_spec p s Hinv), bool_decide_eq_true. split.
  - intros Hall. apply plan_state_confirmed. split; [apply wf_target|]. apply Hall, wf_target.
  - intros Ht x Hx. apply (valid_target_all p st plan_state_valid) in Hx; [|done].
    apply elem_of_list_to_set, plan_state_confirmed in Hx. tauto.
Qed.

(** The two CSV computations are one. *)
Lemma csv_agree h :
  csvStatusAt s h =
  match csvInfoAt p h (confirmHeights s !! target p) with
  | Ok c => Ok (csv_view c)
  | Err e => Err (if bool_decide (confirmHeights s !! target p = None)
                  then "target is not confirmed" else e)
  end.
Proof.
  unfold csvStatusAt, csvInfoAt, TargetOutpoint. rewrite (si_proof _ _ Hinv).
  fold (target p). destruct (confirmHeights s !! target p); [|done].
  by destruct (ComputeMaturityHeight _ _).
Qed.
End agreement.

(** ** The partition of the proof *)

Section partition.
Context (p : Proof_) `{!WfProof p}.

Lemma plan_buckets_perm (C I : gset Hash) (w : list (nat * Hash)) :
  filter (λ x, x ∈ C) w.*2 ++ (tf_Txid <$> omap (plan_ready p C I) w) ++
  (tf_Txid <$> omap (plan_inflight p C I) w) ++
  (tf_Txid ∘ bt_TxFrontier <$> omap (plan_blocked p C I) w) ≡ₚ w.*2.
Proof.
  induction w as [|[i x] w IH]; [done|]. csimpl. rewrite filter_cons.
  set (F := filter _ w.*2) in *. set (R := omap (plan_ready p C I) w) in *.
  set (N := omap (plan_inflight p C I) w) in *. set (B := omap (plan_blocked p C I) w) in *.
  rewrite <-IH. clearbody F R N B. clear IH.
  unfold plan_ready, plan_inflight, plan_blocked. cbn [fst snd].
  destruct (decide (x ∈ C)), (decide (x ∈ I)), (decide (x ∈ C ∪ I)); try set_solver;
    try destruct (missing_of p C x); csimpl; solve_Permutation.
Qed.
End partition.

(** ** A concrete plan *)
Module PlanDemo.

(** Both roots confirmed, the middle transaction in flight. *)
Definition mid : State :=
  mkState [10%N; 11%N] [20%N] None (mkSweepState SweepStatusPending None None).

(** Everything confirmed, the sweep still to be built. *)
Definition matured : State :=
  mkState [10%N; 11%N; 20%N; 30%N] [] (Some 510%Z)
    (mkSweepState SweepStatusPending None None).

Lemma mid_int32 : state_int32 mid.
Proof. by intros h. Qed.

Lemma matured_int32 : state_int32 matured.
Proof. intros h [= <-]. vm_compute. split; discriminate. Qed.
End PlanDemo.

(** ** Properties *)

(** The runtime check of a persisted planner state accepts exactly the
    states that satisfy the declarative specification: no duplicates, confirmed
    and in-flight disjoint and inside the proof, a non-negative target height
    present exactly when the target is confirmed, a sweep consistent with its
    lifecycle and with CSV maturity, and every confirmed or in-flight
    transaction with all its parents confirmed. *)
Theorem Validate_accepts_exactly_valid_states p st :
  WfProof p → state_int32 st →
  Validate (Some st) (Some p) = Ok tt ↔ valid_state p st.
Proof. intros Hwf. by apply Validate_valid. Qed.

Lemma Validate_accepts_exactly_valid_states_witness :
  valid_state Demo.proof PlanDemo.mid.
Proof.
  apply Validate_accepts_exactly_valid_states.
  - apply Demo.proof_wf.
  - apply PlanDemo.mid_int32.
  - vm_compute. reflexivity.
Defined.

(** The plan's frontier is exact: a transaction is offered as ready exactly
    when it is neither confirmed nor in flight and all its parents are
    confirmed, in flight exactly when the state says so, and blocked exactly
    with its layer, node and the sorted non-empty list of parents it waits
    for. *)
Theorem Plan_frontier_exact p h st snap :
  WfProof p → state_int32 st → Plan (planner p) h (Some st) = Ok snap →
  (∀ x, x ∈ tf_Txid <$> sn_Ready snap ↔
     x ∈ dom (nodes p) ∧ x ∉ ConfirmedTxids st ∧ x ∉ InFlightTxids st ∧
     ∀ q, q ∈ adj (parents p) x → q ∈ ConfirmedTxids st) ∧
  (∀ x, x ∈ tf_Txid <$> sn_InFlight snap ↔ x ∈ InFlightTxids st) ∧
  (∀ b, b ∈ sn_Blocked snap ↔
     ∃ x i, in_layer (layers p) i x ∧ x ∉ ConfirmedTxids st ∧
       x ∉ InFlightTxids st ∧
       missing_of p (list_to_set (ConfirmedTxids st)) x ≠ [] ∧
       b = mkBlockedTx (mkTxFrontier x (GetNode p x) i (adj (parents p) x))
             (missing_of p (list_to_set (ConfirmedTxids st)) x)).
Proof.
  intros Hwf Hw HP. apply (Plan_inv p) in HP as (Hv & _ & ->); [|done].
  cbn [plan_snapshot sn_Ready sn_InFlight sn_Blocked]. split_and!.
  - intros x. rewrite (plan_ready_elem p), !elem_of_list_to_set.
    by setoid_rewrite elem_of_list_to_set.
  - intros x. rewrite (plan_inflight_elem p), !elem_of_list_to_set. split; [tauto|].
    intros Hx. split; [by apply (vs_inflight_dom _ _ Hv)|]. split; [|done].
    intros Hc. by destruct (vs_disjoint _ _ Hv x Hc).
  - intros b. rewrite (plan_blocked_elem p). by setoid_rewrite elem_of_list_to_set.
Qed.

Lemma Plan_frontier_exact_witness :
  ∃ snap, Plan (planner Demo.proof) 600 (Some PlanDemo.mid) = Ok snap ∧
    (20%N ∈ tf_Txid <$> sn_InFlight snap ↔ 20%N ∈ InFlightTxids PlanDemo.mid).
Proof.
  eexists. split; [vm_compute; reflexivity|].
  apply (Plan_frontier_exact Demo.proof 600).
  - apply Demo.proof_wf.
  - apply PlanDemo.mid_int32.
  - vm_compute. reflexivity.
Defined.

(** A plan loses and duplicates nothing: the confirmed transactions and the
    ready, in-flight and blocked lists together are a permutation of the
    proof's transactions. *)
Theorem Plan_partitions_proof p h st snap :
  WfProof p → state_int32 st → Plan (planner p) h (Some st) = Ok snap →
  ConfirmedTxids st ++ (tf_Txid <$> sn_Ready snap) ++
  (tf_Txid <$> sn_InFlight snap) ++
  (tf_Txid ∘ bt_TxFrontier <$> sn_Blocked snap) ≡ₚ elements (dom (nodes p)).
Proof.
  intros Hwf Hw HP. apply (Plan_inv p) in HP as (Hv & _ & ->); [|done].
  cbn [plan_snapshot sn_Ready sn_InFlight sn_Blocked].
  rewrite <-(lay_perm _ _ _ _ wf_layering), <-walk_layers_snd.
  etrans; [|apply (plan_buckets_perm p (list_to_set (ConfirmedTxids st))
                     (list_to_set (InFlightTxids st)))].
  apply Permutation_app; [|done]. rewrite walk_layers_snd.
  apply NoDup_Permutation.
  - apply (vs_confirmed_nodup _ _ Hv).
  - apply NoDup_filter, (wf_layers_nodup p).
  - intros x. rewrite list_elem_of_filter, elem_of_list_to_set, (wf_layers_elem p).
    split; [|tauto]. intros Hx. split; [done|]. by apply (vs_confirmed_dom _ _ Hv).
Qed.

Lemma Plan_partitions_proof_witness :
  ∃ snap, Plan (planner Demo.proof) 600 (Some PlanDemo.mid) = Ok snap ∧
    ConfirmedTxids PlanDemo.mid ++ (tf_Txid <$> sn_Ready snap) ++
    (tf_Txid <$> sn_InFlight snap) ++
    (tf_Txid ∘ bt_TxFrontier <$> sn_Blocked snap) ≡ₚ elements (dom (nodes Demo.proof)).
Proof.
  eexists. split; [vm_compute; reflexivity|].
  apply (Plan_partitions_proof Demo.proof 600).
  - apply Demo.proof_wf.
  - apply PlanDemo.mid_int32.
  - vm_compute. reflexivity.
Defined.

(** A plan asks for the sweep exactly when the sweep is still pending, the
    target is confirmed and the height has reached the target's confirmation
    height plus the CSV delay; it is done exactly when the sweep is
    confirmed. *)
Theorem Plan_sweep_exactly_at_maturity p h st snap :
  WfProof p → state_int32 st → Plan (planner p) h (Some st) = Ok snap →
  (sn_NeedSweep snap = true ↔
     sw_Status (Sweep st) = SweepStatusPending ∧ target p ∈ ConfirmedTxids st ∧
     ∃ k, TargetConfirmHeight st = Some k ∧ (k + csvDelay p ≤ h)%Z) ∧
  (sn_Done snap = true ↔ sw_Status (Sweep st) = SweepStatusConfirmed).
Proof.
  intros Hwf Hw HP. apply (Plan_inv p) in HP as (Hv & Hm & ->); [|done].
  cbn [plan_snapshot sn_NeedSweep sn_Done]. rewrite bool_decide_eq_true.
  split; [|done]. unfold plan_csv. rewrite <-(vs_target _ _ Hv).
  destruct (TargetConfirmHeight st) as [k|] eqn:Hk.
  2:{ split; [done|]. by intros (_ & [? ?] & _). }
  rewrite (csvInfoAt_ok p); [|by apply Hw|by apply (vs_height _ _ Hv)].
  rewrite decide_True by (by apply Hm). cbn [ci_Ready].
  rewrite andb_true_iff, bool_decide_eq_true, Z.leb_le. split.
  - intros [? ?]. eauto.
  - intros (? & _ & k' & [= <-] & ?). done.
Qed.

Lemma Plan_sweep_exactly_at_maturity_witness :
  ∃ snap, Plan (planner Demo.proof) 654 (Some PlanDemo.matured) = Ok snap ∧
    sn_NeedSweep snap = true.
Proof.
  eexists. split; [vm_compute; reflexivity|].
  eapply (Plan_sweep_exactly_at_maturity Demo.proof 654 PlanDemo.matured).
  - apply Demo.proof_wf.
  - apply PlanDemo.matured_int32.
  - vm_compute. reflexivity.
  - split; [reflexivity|]. split; [vm_compute; repeat constructor|].
    exists 510%Z. split; [reflexivity|]. vm_compute. discriminate.
Defined.

(** A plan never stalls: while the target is unconfirmed some transaction
    is ready or in flight, and once it is confirmed nothing is left in any of
    the three lists and every proof transaction is confirmed. *)
Theorem Plan_progress p h st snap :
  WfProof p → state_int32 st → Plan (planner p) h (Some st) = Ok snap →
  if sn_TargetConfirmed snap
  then sn_AllProofConfirmed snap = true ∧
       (∀ x, x ∈ dom (nodes p) → x ∈ ConfirmedTxids st) ∧
       sn_Ready snap = [] ∧ sn_InFlight snap = [] ∧ sn_Blocked snap = []
  else sn_AllProofConfirmed snap = false ∧
       (sn_Ready snap ≠ [] ∨ sn_InFlight snap ≠ []).
Proof.
  intros Hwf Hw HP. pose proof (Plan_inv p h st snap Hw HP) as (Hv & _ & Hs).
  assert (sn_AllProofConfirmed snap = sn_TargetConfirmed snap) as -> by (by rewrite Hs).
  destruct (sn_TargetConfirmed snap) eqn:Ht; (split; [done|]);
    rewrite Hs in Ht; cbn [plan_snapshot sn_TargetConfirmed] in Ht; zbool.
  - pose proof (valid_target_all p st Hv Ht) as Hall.
    split; [intros x Hx; by apply (elem_of_list_to_set (C:=gset Hash)), Hall|].
    subst snap. cbn [plan_snapshot sn_Ready sn_InFlight sn_Blocked].
    split_and!; apply elem_of_nil_inv; intros f (ix & Hix & Hf)%list_elem_of_omap;
      apply (walk_layers_dom p), Hall in Hix;
      unfold plan_ready, plan_inflight, plan_blocked in Hf;
      by rewrite decide_True in Hf by set_solver.
  - destruct (wf_frontier p (λ x, x ∈ ConfirmedTxids st)) as [Hall|(x & Hx & Hn & Hq)].
    { destruct Ht. apply Hall, wf_target. }
    subst snap. cbn [plan_snapshot sn_Ready sn_InFlight].
    destruct (decide (x ∈ InFlightTxids st)).
    + right. intros Hnil. apply (not_elem_of_nil x).
      change [] with (tf_Txid <$> []). rewrite <-Hnil. apply (plan_inflight_elem p).
      by rewrite !elem_of_list_to_set.
    + left. intros Hnil. apply (not_elem_of_nil x).
      change [] with (tf_Txid <$> []). rewrite <-Hnil. apply (plan_ready_elem p).
      rewrite !elem_of_list_to_set. by setoid_rewrite elem_of_list_to_set.
Qed.

Lemma Plan_progress_witness :
  ∃ snap, Plan (planner Demo.proof) 600 (Some PlanDemo.mid) = Ok snap ∧
    sn_AllProofConfirmed snap = false ∧ (sn_Ready snap ≠ [] ∨ sn_InFlight snap ≠ []).
Proof.
  exists (plan_snapshot Demo.proof 600 PlanDemo.mid). split; [vm_compute; reflexivity|].
  refine (Plan_progress Demo.proof 600 PlanDemo.mid
    (plan_snapshot Demo.proof 600 PlanDemo.mid) Demo.proof_wf PlanDemo.mid_int32 _).
  vm_compute. reflexivity.
Defined.

(** Planning a valid state succeeds, with one exception: the only error is
    a target confirmed so high that its CSV maturity is not a block height. *)
Theorem Plan_succeeds_iff p h st :
  WfProof p → state_int32 st → valid_state p st →
  if from_option (λ k, k + csvDelay p <=? MaxInt32)%Z true (TargetConfirmHeight st)
  then ∃ snap, Plan (planner p) h (Some st) = Ok snap
  else Plan (planner p) h (Some st) = Err "csv maturity overflows int32".
Proof.
  intros Hwf Hw Hv. destruct (Plan_valid p h st Hw Hv) as [H1 H2]. unfold matures in *.
  destruct (TargetConfirmHeight st) as [k|]; simpl; [|eexists; by apply H1].
  destruct (Z.leb_spec (k + csvDelay p) MaxInt32).
  - eexists. apply H1. by intros ? [= <-].
  - apply H2. intros Hm. specialize (Hm k eq_refl). lia.
Qed.

Lemma Plan_succeeds_iff_witness :
  ∃ snap, Plan (planner Demo.proof) 654 (Some PlanDemo.matured) = Ok snap.
Proof.
  refine (Plan_succeeds_iff Demo.proof 654 PlanDemo.matured Demo.proof_wf
            PlanDemo.matured_int32 _).
  apply Validate_valid; [apply Demo.proof_wf|apply PlanDemo.matured_int32|].
  vm_compute. reflexivity.
Defined.

(** The stateless planner and the recovery session are equivalent: on the
    state a reachable, not failed session stands for, planning and taking the
    session's snapshot at the same height fail together with the same error, or
    list the same ready, awaited and blocked transactions in the same order
    with the same CSV view, and the session is sweep-ready exactly when the
    plan needs the sweep. *)
Theorem Plan_agrees_with_session p s h :
  WfProof p → session_reachable p s → lastError s = None →
  (∀ x k, confirmHeights s !! x = Some k → is_int32 k) →
  match SnapshotAt s h, Plan (planner p) h (Some (plan_state p s)) with
  | Ok a, Ok b => snapshots_agree a b
  | Err e, Err e' => e = e'
  | _, _ => False
  end.
Proof.
  intros Hwf Hr Hle Hw. pose proof (session_inv_reachable p s Hr) as Hinv.
  rewrite (SnapshotAt_walk p s h (si_proof _ _ Hinv)), Hle. cbv zeta.
  pose proof (plan_state_valid p s Hinv) as Hv.
  pose proof (plan_state_int32 p s Hw) as Hi.
  destruct (walk_agree p s Hinv Hw h) as (Hready & Hawait & Hblock).
  pose proof (complete_agree p s Hinv) as Hcompl.
  pose proof (vs_target _ _ Hv) as Ht. rewrite (csv_agree p s Hinv h).
  rewrite (Plan_by_csv p h _ Hi Hv).
  cbn [TargetConfirmHeight plan_state] in Ht |- *.
  destruct (confirmHeights s !! target p) as [k|] eqn:Hk.
  - pose proof (proj1 Ht (ex_intro _ _ eq_refl)) as Htc.
    rewrite (bool_decide_eq_true_2 _ Htc) in Hcompl. rewrite Hcompl. cbn [negb].
    destruct (csvInfoAt p h (Some k)) as [c|e] eqn:Hcsv; [|done].
    assert (plan_csv p h (plan_state p s) = Some c) as Hpc.
    { unfold plan_csv. cbn [TargetConfirmHeight plan_state]. by rewrite Hk, Hcsv. }
    constructor; cbn [ReadyToBroadcast AwaitingConfirmation Blocked CSV Status]; try done.
    + by rewrite Hawait.
    + cbn [plan_snapshot sn_CSV]. by rewrite Hpc.
    + cbn [plan_snapshot sn_NeedSweep sn_AllProofConfirmed]. rewrite Hpc.
      rewrite (bool_decide_eq_true_2 _ Htc). simpl. by destruct (ci_Ready c).
  - assert (target p ∉ ConfirmedTxids (plan_state p s)) as Htc.
    { rewrite <-Ht. by intros [? ?]. }
    rewrite (bool_decide_eq_false_2 _ Htc) in Hcompl. rewrite Hcompl. cbn [negb].
    assert (plan_csv p h (plan_state p s) = None) as Hpc.
    { unfold plan_csv. cbn [TargetConfirmHeight plan_state]. by rewrite Hk. }
    constructor; cbn [ReadyToBroadcast AwaitingConfirmation Blocked CSV Status]; try done.
    + by rewrite Hawait.
    + cbn [plan_snapshot sn_CSV]. by rewrite Hpc.
    + cbn [plan_snapshot sn_NeedSweep sn_AllProofConfirmed]. rewrite Hpc.
      by rewrite (bool_decide_eq_false_2 _ Htc).
Qed.

Lemma Plan_agrees_with_session_witness :
  match SnapshotAt SessionDemo.finished 654,
        Plan (planner Demo.proof) 654 (Some (plan_state Demo.proof SessionDemo.finished))
  with
  | Ok a, Ok b => snapshots_agree a b
  | Err e, Err e' => e = e'
  | _, _ => False
  end.
Proof.
  apply Plan_agrees_with_session.
  - apply Demo.proof_wf.
  - apply SessionDemo.finished_reachable.
  - vm_compute. reflexivity.
  - apply SessionDemo.finished_heights.
Defined.
