(* ===== verification/UnrollFsm.v ===== *)
(** * The unroll state machine: [unroll/fsm_types.go], [unroll/fsm_logic.go]

    The pure state machine that drives one unilateral exit: the durable job
    state, the events, the outbox effects, the states and their [ProcessEvent]
    methods, together with the slice helpers of [unroll/actor.go] it uses.

    The code mutates a private deep copy of the job ([Copy]) and never the
    job of the state it processes, so the mutating helpers are modelled as
    functions from a job to a job.  An event is a non-nil pointer to one of the
    eight sealed event types. *)

From S2P Require Import Prelude RecoveryProof RecoveryGraph RecoverySession UnrollPlan.

(** ** Data *)

(** The Go [int32] of the trigger; an unknown value is none of 0..3. *)
Inductive StartTrigger :=
| TriggerManual
| TriggerCriticalExpiry
| TriggerRestart
| TriggerFraudSpend
| TriggerUnknown (k : Z).

Inductive BroadcastFailureClass :=
| BroadcastFailureUnknown
| BroadcastFailureFee
| BroadcastFailurePermanent
| BroadcastFailureOther (k : Z).

#[export] Instance StartTrigger_eq_dec : EqDecision StartTrigger.
Proof. solve_decision. Defined.
#[export] Instance BroadcastFailureClass_eq_dec : EqDecision BroadcastFailureClass.
Proof. solve_decision. Defined.

Abbreviation ExitPolicyKind := string.

Definition StandardVTXOTimeoutExitPolicyKind : ExitPolicyKind :=
  "standard_vtxo_timeout".

Definition exitPolicyKind (kind : ExitPolicyKind) : ExitPolicyKind :=
  if bool_decide (kind = EmptyString) then StandardVTXOTimeoutExitPolicyKind
  else kind.

Definition maxSweepAttempts : Z := 3.
Definition defaultFraudCheckpointSafetyMargin : Z := 24.

Record DeferredCheckpoint := mkDeferredCheckpoint {
  dc_Txid : Hash;
  DeadlineHeight : Z;
}.

#[export] Instance DeferredCheckpoint_eq_dec : EqDecision DeferredCheckpoint.
Proof. solve_decision. Defined.

Record JobState := mkJobState {
  Height : Z;
  Trigger : StartTrigger;
  j_ExitPolicyKind : ExitPolicyKind;
  j_ExitPolicyRef : string;
  PlannerState : UnrollPlan.State;
  DeferredCheckpoints : list DeferredCheckpoint;
  FailReason : string;
  Conflicted : bool;
  SweepAttempts : Z;
  RejectedSweep : option Hash;
  RepriceAfter : Z;
  RetrySame : bool;
}.

(** Field assignments. *)
Definition set_Height (j : JobState) (h : Z) : JobState :=
  mkJobState h (Trigger j) (j_ExitPolicyKind j) (j_ExitPolicyRef j)
    (PlannerState j) (DeferredCheckpoints j) (FailReason j) (Conflicted j)
    (SweepAttempts j) (RejectedSweep j) (RepriceAfter j) (RetrySame j).
Definition set_Trigger (j : JobState) (t : StartTrigger) : JobState :=
  mkJobState (Height j) t (j_ExitPolicyKind j) (j_ExitPolicyRef j)
    (PlannerState j) (DeferredCheckpoints j) (FailReason j) (Conflicted j)
    (SweepAttempts j) (RejectedSweep j) (RepriceAfter j) (RetrySame j).
Definition set_ExitPolicy (j : JobState) (k : ExitPolicyKind) (r : string) :
    JobState :=
  mkJobState (Height j) (Trigger j) k r
    (PlannerState j) (DeferredCheckpoints j) (FailReason j) (Conflicted j)
    (SweepAttempts j) (RejectedSweep j) (RepriceAfter j) (RetrySame j).
Definition set_PlannerState (j : JobState) (s : UnrollPlan.State) : JobState :=
  mkJobState (Height j) (Trigger j) (j_ExitPolicyKind j) (j_ExitPolicyRef j)
    s (DeferredCheckpoints j) (FailReason j) (Conflicted j)
    (SweepAttempts j) (RejectedSweep j) (RepriceAfter j) (RetrySame j).
Definition set_DeferredCheckpoints (j : JobState) (d : list DeferredCheckpoint) :
    JobState :=
  mkJobState (Height j) (Trigger j) (j_ExitPolicyKind j) (j_ExitPolicyRef j)
    (PlannerState j) d (FailReason j) (Conflicted j)
    (SweepAttempts j) (RejectedSweep j) (RepriceAfter j) (RetrySame j).
Definition set_Failure (j : JobState) (reason : string) (conflicted : bool) :
    JobState :=
  mkJobState (Height j) (Trigger j) (j_ExitPolicyKind j) (j_ExitPolicyRef j)
    (PlannerState j) (DeferredCheckpoints j) reason conflicted
    (SweepAttempts j) (RejectedSweep j) (RepriceAfter j) (RetrySame j).
Definition set_SweepAttempts (j : JobState) (n : Z) : JobState :=
  mkJobState (Height j) (Trigger j) (j_ExitPolicyKind j) (j_ExitPolicyRef j)
    (PlannerState j) (DeferredCheckpoints j) (FailReason j) (Conflicted j)
    n (RejectedSweep j) (RepriceAfter j) (RetrySame j).
Definition set_Rejected (j : JobState) (r : option Hash) (after : Z) (same : bool) :
    JobState :=
  mkJobState (Height j) (Trigger j) (j_ExitPolicyKind j) (j_ExitPolicyRef j)
    (PlannerState j) (DeferredCheckpoints j) (FailReason j) (Conflicted j)
    (SweepAttempts j) r after same.

Definition set_Sweep (j : JobState) (sw : SweepState) : JobState :=
  let s := PlannerState j in
  set_PlannerState j
    (mkState (ConfirmedTxids s) (InFlightTxids s) (TargetConfirmHeight s) sw).
Definition set_InFlight (j : JobState) (l : list Hash) : JobState :=
  let s := PlannerState j in
  set_PlannerState j
    (mkState (ConfirmedTxids s) l (TargetConfirmHeight s) (Sweep s)).

Inductive Event :=
| StartEvent (height : Z) (trigger : StartTrigger) (kind : ExitPolicyKind) (ref : string)
| ResumeEvent (height : Z)
| HeightUpdatedEvent (height : Z)
| TxConfirmedEvent (txid : Hash) (height : Z)
| TxFailedEvent (txid : Hash) (reason : string) (class : BroadcastFailureClass)
    (retrySame : bool)
| SweepBroadcastedEvent (txid : Hash)
| FailEvent (reason : string) (conflict : bool)
| SweepBuildFailedEvent (reason : string).

Inductive OutboxEvent :=
| EnsureReadyTransactions (txids : list Hash)
| ReissueInFlightTransactions (txids : list Hash)
| WatchDeferredCheckpoints (txids : list Hash)
| RequestSweepBuild
| ReissueSweepConfirmation.

(** The states; [Job] is a pointer and may be nil. *)
Inductive State :=
| Idle
| AwaitingMaterialization (job : option JobState)
| AwaitingCSV (job : option JobState)
| AwaitingSweepBroadcast (job : option JobState)
| AwaitingSweepConfirmation (job : option JobState)
| Completed (job : option JobState)
| Failed (job : option JobState).

Definition State_String (s : State) : string :=
  match s with
  | Idle => "Idle"
  | AwaitingMaterialization _ => "AwaitingMaterialization"
  | AwaitingCSV _ => "AwaitingCSV"
  | AwaitingSweepBroadcast _ => "AwaitingSweepBroadcast"
  | AwaitingSweepConfirmation _ => "AwaitingSweepConfirmation"
  | Completed _ => "Completed"
  | Failed _ => "Failed"
  end.

Definition IsTerminal (s : State) : bool :=
  match s with Completed _ | Failed _ => true | _ => false end.

(** [protofsm.EmittedEvent] and [protofsm.StateTransition]. *)
Record EmittedEvent := mkEmittedEvent {
  InternalEvent : list Event;
  Outbox : list OutboxEvent;
}.

Record StateTransition := mkStateTransition {
  NextState : State;
  NewEvents : option EmittedEvent;
}.

(** [*Environment] with its pointers. *)
Record Environment := mkEnvironment {
  EnvProof : option Proof_;
  EnvPlanner : option Planner;
  FraudCheckpointSafetyMargin : Z;
}.

(** ** Slice helpers (unroll/actor.go) *)

Section fsm.
Context `{!Chain}.

(** [hashes[i].String() < hashes[j].String()] as a weak order. *)
Definition hash_string_le (a b : Hash) : Prop :=
  String.leb (HashString a) (HashString b) = true.

#[export] Instance hash_string_le_dec a b : Decision (hash_string_le a b).
Proof. unfold hash_string_le. apply _. Defined.

Definition sortHashes (hashes : list Hash) : list Hash :=
  merge_sort hash_string_le hashes.

Definition deferred_le (a b : DeferredCheckpoint) : Prop :=
  (DeadlineHeight a < DeadlineHeight b)%Z ∨
  (DeadlineHeight a = DeadlineHeight b ∧ hash_string_le (dc_Txid a) (dc_Txid b)).

#[export] Instance deferred_le_dec a b : Decision (deferred_le a b).
Proof. unfold deferred_le. apply _. Defined.

Definition sortDeferredCheckpoints (checkpoints : list DeferredCheckpoint) :
    list DeferredCheckpoint := merge_sort deferred_le checkpoints.

Definition copyPlannerState (s : UnrollPlan.State) : UnrollPlan.State :=
  mkState (sortHashes (ConfirmedTxids s)) (sortHashes (InFlightTxids s))
    (TargetConfirmHeight s) (Sweep s).

Definition copyDeferredCheckpoints (checkpoints : list DeferredCheckpoint) :
    list DeferredCheckpoint := sortDeferredCheckpoints checkpoints.

Definition removeDeferredCheckpoint (checkpoints : list DeferredCheckpoint)
    (txid : Hash) : list DeferredCheckpoint :=
  filter (λ c, dc_Txid c ≠ txid) checkpoints.

Fixpoint findDeferredCheckpoint (checkpoints : list DeferredCheckpoint)
    (txid : Hash) : option DeferredCheckpoint :=
  match checkpoints with
  | [] => None
  | c :: checkpoints =>
      if bool_decide (dc_Txid c = txid) then Some c
      else findDeferredCheckpoint checkpoints txid
  end.

Definition appendDeferredCheckpoint (checkpoints : list DeferredCheckpoint)
    (checkpoint : DeferredCheckpoint) : list DeferredCheckpoint :=
  match findDeferredCheckpoint checkpoints (dc_Txid checkpoint) with
  | Some _ => copyDeferredCheckpoints checkpoints
  | None => sortDeferredCheckpoints (checkpoints ++ [checkpoint])
  end.

Definition removeHash (hashes : list Hash) (hash : Hash) : list Hash :=
  filter (λ current, current ≠ hash) hashes.

Fixpoint containsHash (hashes : list Hash) (hash : Hash) : bool :=
  match hashes with
  | [] => false
  | current :: hashes =>
      if bool_decide (current = hash) then true else containsHash hashes hash
  end.

Definition append_missing (result : list Hash) (hash : Hash) : list Hash :=
  if containsHash result hash then result else result ++ [hash].

Definition appendUniqueSorted (hashes newHashes : list Hash) : list Hash :=
  sortHashes (fold_left append_missing newHashes hashes).

Definition Copy (j : JobState) : JobState :=
  mkJobState (Height j) (Trigger j) (exitPolicyKind (j_ExitPolicyKind j))
    (j_ExitPolicyRef j) (copyPlannerState (PlannerState j))
    (copyDeferredCheckpoints (DeferredCheckpoints j)) (FailReason j)
    (Conflicted j) (SweepAttempts j) (RejectedSweep j) (RepriceAfter j)
    (RetrySame j).

(** ** Applying events *)

(** [if h > job.Height { job.Height = h }] *)
Definition raise_height (j : JobState) (h : Z) : JobState :=
  if (Height j <? h)%Z then set_Height j h else j.

Definition applyConfirmedEvent (j : JobState) (txid : Hash) (height : Z)
    (env : option Environment) : JobState :=
  let s := PlannerState j in
  if bool_decide (sw_Txid (Sweep s) = Some txid) then
    raise_height
      (set_Sweep j (mkSweepState SweepStatusConfirmed (sw_Txid (Sweep s))
                      (Some height))) height
  else
    let isTarget :=
      match env with
      | Some e =>
          match EnvProof e with
          | Some p => bool_decide (txid = op_Hash (TargetOutpoint p))
          | None => false
          end
      | None => false
      end in
    let s' :=
      mkState (appendUniqueSorted (ConfirmedTxids s) [txid])
        (removeHash (InFlightTxids s) txid)
        (if isTarget && bool_decide (TargetConfirmHeight s = None)
         then Some height else TargetConfirmHeight s)
        (Sweep s) in
    raise_height
      (set_PlannerState
         (set_DeferredCheckpoints j
            (removeDeferredCheckpoint (DeferredCheckpoints j) txid)) s') height.

(** [Conflicted] and the other fields of the job are left as they are. *)
Definition applySweepBuildFailed (j : JobState) (reason : string) : JobState :=
  let j := set_SweepAttempts j (int64 (SweepAttempts j + 1)) in
  if (maxSweepAttempts <=? SweepAttempts j)%Z then set_Failure j reason (Conflicted j)
  else
    set_Sweep j (mkSweepState SweepStatusPending None
                   (sw_ConfirmHeight (Sweep (PlannerState j)))).

Definition applyFailedEvent (j : JobState) (txid : Hash) (reason : string)
    (class : BroadcastFailureClass) (retrySame : bool) : JobState :=
  if bool_decide (RejectedSweep j = Some txid) then j
  else if bool_decide (sw_Txid (Sweep (PlannerState j)) = Some txid) then
    if bool_decide (class = BroadcastFailureFee) || retrySame then
      let j :=
        if bool_decide (RejectedSweep j = None) then
          set_Rejected j (Some txid) (Height j)
            (bool_decide (class ≠ BroadcastFailureFee))
        else j in
      set_Sweep j (mkSweepState SweepStatusPending None
                     (sw_ConfirmHeight (Sweep (PlannerState j))))
    else applySweepBuildFailed j reason
  else
    let j := set_InFlight j (removeHash (InFlightTxids (PlannerState j)) txid) in
    let j := set_DeferredCheckpoints j
               (removeDeferredCheckpoint (DeferredCheckpoints j) txid) in
    set_Failure j reason (Conflicted j).

(** ** Deriving the next state *)

Definition readyTxids (frontier : list TxFrontier) : list Hash :=
  sortHashes (tf_Txid <$> frontier).

(** May drop the item's deferral from the job. *)
Definition shouldSubmitReadyFrontier (j : JobState) (item : TxFrontier) :
    bool * JobState :=
  if bool_decide (Trigger j ≠ TriggerFraudSpend) then (true, j)
  else
    match tf_Node item with
    | None => (true, j)
    | Some node =>
        if bool_decide (Kind node ≠ NodeKindCheckpoint) then (true, j)
        else
          match findDeferredCheckpoint (DeferredCheckpoints j) (tf_Txid item) with
          | None => (false, j)
          | Some deferred =>
              if (Height j <? DeadlineHeight deferred)%Z then (false, j)
              else
                (true, set_DeferredCheckpoints j
                         (removeDeferredCheckpoint (DeferredCheckpoints j)
                            (tf_Txid item)))
          end
    end.

(** Go's [/] on [int32] truncates; every operation wraps. *)
Definition checkpointBackstopHeight (height csvDelay configuredMargin : Z) : Z :=
  let margin :=
    if (configuredMargin <=? 0)%Z then defaultFraudCheckpointSafetyMargin
    else configuredMargin in
  let delay := int32 csvDelay in
  let margin := if (delay <=? margin)%Z then Z.quot delay 2 else margin in
  int32 (int32 (height + delay) - margin).

(** One iteration of the frontier loop: the job, the slices to submit and to
    watch. *)
Definition split_item (csvDelay margin deadlineBase : Z)
    (acc : JobState * list Hash * list Hash) (item : TxFrontier) :
    JobState * list Hash * list Hash :=
  let '(j, ready, watch) := acc in
  let '(submit, j) := shouldSubmitReadyFrontier j item in
  if submit then (j, ready ++ [tf_Txid item], watch)
  else
    match findDeferredCheckpoint (DeferredCheckpoints j) (tf_Txid item) with
    | Some _ => (j, ready, watch)
    | None =>
        let deadline := checkpointBackstopHeight deadlineBase csvDelay margin in
        if (deadline <=? Height j)%Z then (j, ready ++ [tf_Txid item], watch)
        else
          (set_DeferredCheckpoints j
             (appendDeferredCheckpoint (DeferredCheckpoints j)
                (mkDeferredCheckpoint (tf_Txid item) deadline)),
           ready, watch ++ [tf_Txid item])
    end.

Definition readyMaterializationTxids (j : JobState) (env : option Environment)
    (frontier : list TxFrontier) (deferralAnchor : option Z) :
    JobState * list Hash * list Hash :=
  match env with
  | Some (mkEnvironment (Some p) _ margin) =>
      let deadlineBase := default (Height j) deferralAnchor in
      let '(j, ready, watch) :=
        fold_left (split_item (CSVDelay p) margin deadlineBase) frontier (j, [], []) in
      (j, sortHashes ready, sortHashes watch)
  | _ => (j, readyTxids frontier, [])
  end.

Definition deferredCheckpointTxids (checkpoints : list DeferredCheckpoint) :
    list Hash := sortHashes (dc_Txid <$> checkpoints).

Fixpoint validate_deferred_loop (p : Proof_) (s : UnrollPlan.State)
    (seen : gset Hash) (checkpoints : list DeferredCheckpoint) :
    result error unit :=
  match checkpoints with
  | [] => Ok tt
  | c :: checkpoints =>
      let txid := dc_Txid c in
      if bool_decide (txid ∈ seen) then Err "duplicate deferred checkpoint"
      else
        match GetNode p txid with
        | None => Err "deferred checkpoint is not in proof"
        | Some node =>
            guard* bool_decide (Kind node = NodeKindCheckpoint)
              else "deferred checkpoint has kind" in
            guard* negb (containsHash (ConfirmedTxids s) txid)
              else "deferred checkpoint is confirmed" in
            guard* negb (containsHash (InFlightTxids s) txid)
              else "deferred checkpoint is in-flight" in
            validate_deferred_loop p s ({[txid]} ∪ seen) checkpoints
        end
  end.

Definition validateDeferredCheckpoints (j : JobState) (p : Proof_) :
    result error unit :=
  validate_deferred_loop p (PlannerState j) ∅ (DeferredCheckpoints j).

Definition transitionWithOutbox (nextState : State) (outbox : list OutboxEvent) :
    StateTransition :=
  match outbox with
  | [] => mkStateTransition nextState None
  | _ => mkStateTransition nextState (Some (mkEmittedEvent [] outbox))
  end.

(** The outbox a restart re-emits. *)
Definition reissue_outbox (j : JobState) (reissue : bool) : list OutboxEvent :=
  if reissue then
    (if bool_decide (InFlightTxids (PlannerState j) ≠ [])
     then [ReissueInFlightTransactions (InFlightTxids (PlannerState j))] else []) ++
    (if bool_decide (sw_Status (Sweep (PlannerState j)) = SweepStatusBroadcasted)
     then [ReissueSweepConfirmation] else []) ++
    (if bool_decide (DeferredCheckpoints j ≠ [])
     then [WatchDeferredCheckpoints (deferredCheckpointTxids (DeferredCheckpoints j))]
     else [])
  else [].

(** The last case of the cascade: hand out the ready frontier. *)
Definition materialize (j : JobState) (env : option Environment)
    (snapshot : Snapshot) (deferralAnchor : option Z)
    (outbox : list OutboxEvent) : StateTransition :=
  let '(j, ready, watch) :=
    readyMaterializationTxids j env (sn_Ready snapshot) deferralAnchor in
  let outbox :=
    if bool_decide (watch ≠ []) then outbox ++ [WatchDeferredCheckpoints watch]
    else outbox in
  let '(j, outbox) :=
    if bool_decide (ready ≠ []) then
      (set_InFlight j (appendUniqueSorted (InFlightTxids (PlannerState j)) ready),
       outbox ++ [EnsureReadyTransactions ready])
    else (j, outbox) in
  transitionWithOutbox (AwaitingMaterialization (Some (Copy j))) outbox.

(** The phase cascade. *)
Definition phase_transition (j : JobState) (env : option Environment)
    (snapshot : Snapshot) (deferralAnchor : option Z)
    (outbox : list OutboxEvent) : StateTransition :=
  if sn_Done snapshot then
    transitionWithOutbox (Completed (Some (Copy j))) outbox
  else if bool_decide
      (sw_Status (Sweep (PlannerState j)) = SweepStatusBroadcasted) then
    transitionWithOutbox (AwaitingSweepConfirmation (Some (Copy j))) outbox
  else if sn_NeedSweep snapshot then
    let outbox :=
      if bool_decide (RejectedSweep j = None) || (RepriceAfter j <? Height j)%Z
      then outbox ++ [RequestSweepBuild] else outbox in
    transitionWithOutbox (AwaitingSweepBroadcast (Some (Copy j))) outbox
  else if from_option (λ csv, negb (ci_Ready csv)) false (sn_CSV snapshot) then
    transitionWithOutbox (AwaitingCSV (Some (Copy j))) outbox
  else materialize j env snapshot deferralAnchor outbox.

Definition deriveStateTransition (job : option JobState)
    (env : option Environment) (reissue : bool) (deferralAnchor : option Z) :
    result error StateTransition :=
  match job with
  | None => Err "job state must be provided"
  | Some j =>
  match env with
  | Some (mkEnvironment (Some p) (Some pl) _) =>
      guard* negb (bool_decide (Trigger j = TriggerFraudSpend) && (CSVDelay p =? 0)%Z)
        else "fraud-trigger unroll requires a non-zero CSV delay" in
      check* validateDeferredCheckpoints j p in
      check* Validate (Some (PlannerState j)) (Some p) in
      if bool_decide (FailReason j ≠ EmptyString) then
        Ok (mkStateTransition (Failed (Some (Copy j))) None)
      else
        let* snapshot := Plan (Some pl) (Height j) (Some (PlannerState j)) in
        Ok (phase_transition j env snapshot deferralAnchor (reissue_outbox j reissue))
  | _ => Err "unroll environment must be fully populated"
  end
  end.

(** ** Processing events *)

(** The event switch of [processEventWithJob]: the updated copy of the job, the
    reissue flag and the deferral anchor. *)
Definition apply_event (j : JobState) (event : Event) (env : option Environment) :
    JobState * bool * option Z :=
  match event with
  | ResumeEvent height => (raise_height j height, true, None)
  | HeightUpdatedEvent height => (raise_height j height, false, None)
  | TxConfirmedEvent txid height =>
      (applyConfirmedEvent j txid height env, false, Some height)
  | TxFailedEvent txid reason class retrySame =>
      (applyFailedEvent j txid reason class retrySame, false, None)
  | SweepBroadcastedEvent txid =>
      (set_Sweep (set_Rejected j None 0 false)
         (mkSweepState SweepStatusBroadcasted (Some txid)
            (sw_ConfirmHeight (Sweep (PlannerState j)))), false, None)
  | SweepBuildFailedEvent reason => (applySweepBuildFailed j reason, false, None)
  | FailEvent reason conflict => (set_Failure j reason conflict, false, None)
  | StartEvent height trigger kind ref =>
      let j := set_Trigger (raise_height j height) trigger in
      (if bool_decide (kind ≠ EmptyString)
       then set_ExitPolicy j (exitPolicyKind kind) ref else j, false, None)
  end.

Definition processEventWithJob (job : option JobState) (event : Event)
    (env : option Environment) : result error StateTransition :=
  match job with
  | None => Err "job state must be provided"
  | Some j =>
      let '(nextJob, reissue, deferralAnchor) := apply_event (Copy j) event env in
      deriveStateTransition (Some nextJob) env reissue deferralAnchor
  end.

Definition empty_state : UnrollPlan.State :=
  mkState [] [] None (mkSweepState SweepStatusPending None None).

Definition new_job (height : Z) (trigger : StartTrigger) (kind : ExitPolicyKind)
    (ref : string) : JobState :=
  mkJobState height trigger kind ref empty_state [] EmptyString false 0 None 0 false.

(** [ProcessEvent] of the idle state. *)
Definition Idle_ProcessEvent (event : Event) (env : option Environment) :
    result error StateTransition :=
  match event with
  | StartEvent height trigger kind ref =>
      deriveStateTransition
        (Some (new_job height trigger (exitPolicyKind kind) ref)) env false None
  | ResumeEvent height =>
      deriveStateTransition
        (Some (new_job height TriggerRestart EmptyString EmptyString)) env true None
  | _ => Err "unexpected event in Idle"
  end.

Definition ProcessEvent (s : State) (event : Event) (env : option Environment) :
    result error StateTransition :=
  match s with
  | Idle => Idle_ProcessEvent event env
  | AwaitingMaterialization job | AwaitingCSV job
  | AwaitingSweepBroadcast job | AwaitingSweepConfirmation job =>
      processEventWithJob job event env
  | Completed _ => Err "completed state is terminal"
  | Failed _ => Err "failed state is terminal"
  end.
End fsm.
