(* ===== verification/UnrollInvariants.v ===== *)
(** * Correctness of the unroll state machine

    Invariants of the jobs the state machine of [UnrollFsm] reaches, what its
    transitions emit, and the timing of the fraud deferral.  The environment is
    the one the actor builds: a constructed proof and the planner of that
    proof. *)

From S2P Require Import Prelude RecoveryProof RecoveryGraph RecoverySession.
From S2P Require Import UnrollPlan UnrollFsm.

(** ** Slices *)

Section slices.
Context `{!Chain}.

Lemma sortHashes_perm l : sortHashes l ≡ₚ l.
Proof. apply merge_sort_Permutation. Qed.

Lemma elem_of_sortHashes x l : x ∈ sortHashes l ↔ x ∈ l.
Proof. by rewrite sortHashes_perm. Qed.

Lemma sortHashes_nil l : sortHashes l = [] ↔ l = [].
Proof.
  split; [|by intros ->]. intros Hs. pose proof (sortHashes_perm l) as Hp.
  rewrite Hs in Hp. by apply Permutation_nil_l in Hp.
Qed.

Lemma sortDeferred_perm l : sortDeferredCheckpoints l ≡ₚ l.
Proof. apply merge_sort_Permutation. Qed.

Lemma containsHash_spec l x : containsHash l x = bool_decide (x ∈ l).
Proof.
  induction l as [|y l IH]; cbn [containsHash].
  { symmetry. apply bool_decide_eq_false_2, not_elem_of_nil. }
  destruct (decide (y = x)) as [->|Hne].
  - rewrite bool_decide_eq_true_2 by done. symmetry. apply bool_decide_eq_true_2. constructor.
  - rewrite bool_decide_eq_false_2, IH by done. apply bool_decide_ext.
    rewrite elem_of_cons. naive_solver.
Qed.

Lemma append_missing_spec l x :
  (∀ y, y ∈ append_missing l x ↔ y ∈ l ∨ y = x) ∧ (NoDup l → NoDup (append_missing l x)).
Proof.
  unfold append_missing. rewrite containsHash_spec.
  destruct (decide (x ∈ l)).
  - rewrite bool_decide_eq_true_2 by done. split; [|done]. naive_solver.
  - rewrite bool_decide_eq_false_2 by done. split.
    + intros y. rewrite elem_of_app, list_elem_of_singleton. done.
    + intros Hl. apply NoDup_app. split_and!; [done| |apply NoDup_singleton]. set_solver.
Qed.

Lemma appendUniqueSorted_spec l l' :
  (∀ y, y ∈ appendUniqueSorted l l' ↔ y ∈ l ∨ y ∈ l') ∧
  (NoDup l → NoDup (appendUniqueSorted l l')).
Proof.
  unfold appendUniqueSorted. setoid_rewrite elem_of_sortHashes. rewrite sortHashes_perm.
  revert l. induction l' as [|x l' IH]; intros l; simpl.
  - split; [|done]. set_solver.
  - destruct (append_missing_spec l x) as [H1 H2]. destruct (IH (append_missing l x)) as [H3 H4].
    split; [|auto]. intros y. rewrite H3, H1, elem_of_cons. tauto.
Qed.

Lemma elem_of_appendUniqueSorted y l l' :
  y ∈ appendUniqueSorted l l' ↔ y ∈ l ∨ y ∈ l'.
Proof. apply appendUniqueSorted_spec. Qed.

Lemma elem_of_removeHash x l y : y ∈ removeHash l x ↔ y ≠ x ∧ y ∈ l.
Proof. unfold removeHash. by rewrite list_elem_of_filter. Qed.

Lemma findDeferred_None l x :
  findDeferredCheckpoint l x = None ↔ x ∉ dc_Txid <$> l.
Proof.
  induction l as [|c l IH]; csimpl; [set_solver|].
  destruct (decide (dc_Txid c = x)).
  - rewrite bool_decide_eq_true_2 by done. set_solver.
  - rewrite bool_decide_eq_false_2, IH by done. set_solver.
Qed.

Lemma findDeferred_Some l x c :
  findDeferredCheckpoint l x = Some c → c ∈ l ∧ dc_Txid c = x.
Proof.
  induction l as [|c' l IH]; csimpl; [done|].
  destruct (decide (dc_Txid c' = x)).
  - rewrite bool_decide_eq_true_2 by done. intros [= <-]. by split; [constructor|].
  - rewrite bool_decide_eq_false_2 by done. intros [? ?]%IH. by split; [constructor|].
Qed.

Lemma appendDeferred_perm l c :
  dc_Txid c ∉ dc_Txid <$> l → appendDeferredCheckpoint l c ≡ₚ l ++ [c].
Proof.
  intros Hc. unfold appendDeferredCheckpoint.
  rewrite (proj2 (findDeferred_None _ _) Hc). apply sortDeferred_perm.
Qed.

Lemma elem_of_removeDeferred c l x :
  c ∈ removeDeferredCheckpoint l x ↔ dc_Txid c ≠ x ∧ c ∈ l.
Proof. unfold removeDeferredCheckpoint. by rewrite list_elem_of_filter. Qed.

Lemma removeDeferred_nodup l x :
  NoDup (dc_Txid <$> l) → NoDup (dc_Txid <$> removeDeferredCheckpoint l x).
Proof.
  induction l as [|c l IH]; [done|]. unfold removeDeferredCheckpoint in *.
  rewrite filter_cons, fmap_cons, NoDup_cons. intros [Hc Hl].
  destruct (decide _); [|auto]. rewrite fmap_cons, NoDup_cons. split; [|auto].
  intros (c' & Heq & Hc')%list_elem_of_fmap. apply Hc.
  apply list_elem_of_filter in Hc' as [_ Hc']. apply list_elem_of_fmap. eauto.
Qed.
End slices.

(** ** Valid jobs *)

(** What [validateDeferredCheckpoints] demands of the deferrals. *)
Record valid_deferred (p : Proof_) (s : UnrollPlan.State)
    (d : list DeferredCheckpoint) : Prop := {
  vd_nodup : NoDup (dc_Txid <$> d);
  vd_node : ∀ c, c ∈ d →
    ∃ n, nodes p !! dc_Txid c = Some n ∧ Kind n = NodeKindCheckpoint;
  vd_confirmed : ∀ c, c ∈ d → dc_Txid c ∉ ConfirmedTxids s;
  vd_inflight : ∀ c, c ∈ d → dc_Txid c ∉ InFlightTxids s;
}.

(** The lists of a planner state are used as sets. *)
Definition same_sets (s s' : UnrollPlan.State) : Prop :=
  ConfirmedTxids s ≡ₚ ConfirmedTxids s' ∧ InFlightTxids s ≡ₚ InFlightTxids s' ∧
  TargetConfirmHeight s = TargetConfirmHeight s' ∧ Sweep s = Sweep s'.

Lemma valid_state_same p s s' : same_sets s s' → valid_state p s → valid_state p s'.
Proof.
  intros (HC & HI & HT & HS) [H1 H2 H3 H4 H5 H6 H7 H8 H9].
  assert (∀ x, x ∈ ConfirmedTxids s' ↔ x ∈ ConfirmedTxids s) as EC by (intros; by rewrite HC).
  assert (∀ x, x ∈ InFlightTxids s' ↔ x ∈ InFlightTxids s) as EI by (intros; by rewrite HI).
  constructor; try setoid_rewrite EC; try setoid_rewrite EI;
    rewrite <-?HT, <-?HS, <-?HC, <-?HI; done.
Qed.

Lemma valid_deferred_same p s s' d d' :
  same_sets s s' → d ≡ₚ d' → valid_deferred p s d → valid_deferred p s' d'.
Proof.
  intros (HC & HI & _) Hd [H1 H2 H3 H4]. constructor.
  - by rewrite <-Hd.
  - intros c. rewrite <-Hd. auto.
  - intros c. rewrite <-Hd, <-HC. auto.
  - intros c. rewrite <-Hd, <-HI. auto.
Qed.

Section validate.
Context `{!Chain}.

Lemma validate_deferred_loop_ok p s seen d :
  validate_deferred_loop p s seen d = Ok tt ↔
  valid_deferred p s d ∧ ∀ c, c ∈ d → dc_Txid c ∉ seen.
Proof.
  revert seen. induction d as [|c d IH]; intros seen; cbn [validate_deferred_loop].
  { split; [|done]. intros _. split; [|set_solver]. constructor; [constructor|set_solver..]. }
  rewrite !containsHash_spec. unfold GetNode. split.
  - destruct (bool_decide (dc_Txid c ∈ seen)) eqn:Hs; [done|].
    destruct (nodes p !! dc_Txid c) as [n|] eqn:Hn; [|done]. intros HV. inv_ok. zbool.
    apply IH in HV as [[H1 H2 H3 H4] H5]. split.
    + constructor.
      * rewrite fmap_cons, NoDup_cons. split; [|done].
        intros (c' & Heq & Hc')%list_elem_of_fmap. specialize (H5 c' Hc'). set_solver.
      * intros c' [->|Hc']%elem_of_cons; eauto.
      * intros c' [->|Hc']%elem_of_cons; auto.
      * intros c' [->|Hc']%elem_of_cons; auto.
    + intros c' [->|Hc']%elem_of_cons; [done|]. specialize (H5 c' Hc'). set_solver.
  - intros [[H1 H2 H3 H4] H5].
    assert (c ∈ c :: d) as Hc by constructor.
    rewrite (bool_decide_eq_false_2 (dc_Txid c ∈ seen)) by auto.
    destruct (H2 c Hc) as (n & -> & Hk). rewrite (bool_decide_eq_true_2 (Kind n = _)) by done.
    rewrite !bool_decide_eq_false_2 by auto. simpl. apply IH.
    rewrite fmap_cons, NoDup_cons in H1. destruct H1 as [Hn H1]. split.
    + constructor; [done|..]; intros c' Hc'; [apply H2|apply H3|apply H4]; by constructor.
    + intros c' Hc'. apply not_elem_of_union. split; [|apply H5; by constructor].
      rewrite elem_of_singleton. intros Heq. apply Hn. apply list_elem_of_fmap. eauto.
Qed.

Lemma validateDeferred_ok p j :
  validateDeferredCheckpoints j p = Ok tt ↔
  valid_deferred p (PlannerState j) (DeferredCheckpoints j).
Proof.
  unfold validateDeferredCheckpoints. rewrite validate_deferred_loop_ok.
  split; [by intros [? _]|]. intros ?. split; [done|]. set_solver.
Qed.

Lemma Copy_same j : same_sets (PlannerState j) (PlannerState (Copy j)).
Proof. unfold same_sets. simpl. by rewrite !sortHashes_perm. Qed.

Lemma Copy_deferred j : DeferredCheckpoints j ≡ₚ DeferredCheckpoints (Copy j).
Proof. symmetry. apply sortDeferred_perm. Qed.
End validate.

(** ** Splitting the ready frontier *)

Section split.
Context `{!Chain} (p : Proof_) (margin : Z).

Definition is_checkpoint (x : Hash) : Prop :=
  ∃ n, nodes p !! x = Some n ∧ Kind n = NodeKindCheckpoint.

(** The deadline of a checkpoint whose parents were unblocked at [base]. *)
Definition backstop (base : Z) : Z :=
  checkpointBackstopHeight base (csvDelay p) margin.

(** After the items [done] of the frontier: the deferrals [d], the transactions
    to submit and to watch. *)
Record split_inv (j : JobState) (base : Z) (done : list TxFrontier)
    (d : list DeferredCheckpoint) (ready watch : list Hash) : Prop := {
  sp_nodup : NoDup (dc_Txid <$> d);
  sp_ready : ∀ x, x ∈ ready → x ∈ tf_Txid <$> done ∧ x ∉ dc_Txid <$> d;
  sp_cover : ∀ x, x ∈ tf_Txid <$> done → x ∈ ready ∨
    ∃ c, c ∈ d ∧ dc_Txid c = x ∧ (Height j < DeadlineHeight c)%Z;
  sp_origin : ∀ c, c ∈ d → c ∈ DeferredCheckpoints j ∨
    (dc_Txid c ∈ watch ∧ DeadlineHeight c = backstop base);
  sp_kept : ∀ c, c ∈ DeferredCheckpoints j → dc_Txid c ∉ ready → c ∈ d;
  sp_watch : ∀ x, x ∈ watch →
    x ∈ tf_Txid <$> done ∧ is_checkpoint x ∧ Trigger j = TriggerFraudSpend ∧
    x ∈ dc_Txid <$> d ∧ x ∉ dc_Txid <$> DeferredCheckpoints j;
  sp_due : ∀ x, x ∈ ready → Trigger j = TriggerFraudSpend → is_checkpoint x →
    (∃ c, c ∈ DeferredCheckpoints j ∧ dc_Txid c = x ∧
       (DeadlineHeight c ≤ Height j)%Z) ∨
    (x ∉ dc_Txid <$> DeferredCheckpoints j ∧ (backstop base ≤ Height j)%Z);
}.

Context (j : JobState) (base : Z).
Context (Hd : valid_deferred p (PlannerState j) (DeferredCheckpoints j)).
Context (Htr : DeferredCheckpoints j ≠ [] → Trigger j = TriggerFraudSpend).

Lemma split_init : split_inv j base [] (DeferredCheckpoints j) [] [].
Proof. constructor; try set_solver. apply Hd. Qed.

(** An item that is submitted and was not deferred. *)
Lemma split_submit done d ready watch item :
  split_inv j base done d ready watch →
  tf_Txid item ∉ tf_Txid <$> done → tf_Txid item ∉ dc_Txid <$> d →
  (Trigger j = TriggerFraudSpend → is_checkpoint (tf_Txid item) →
     (backstop base ≤ Height j)%Z) →
  split_inv j base (done ++ [item]) d (ready ++ [tf_Txid item]) watch.
Proof.
  intros [H1 H2 H3 H4 H5 H6 H7] Hnew Hnd Hdue. constructor; rewrite ?fmap_app.
  - done.
  - intros x [Hx| ->%list_elem_of_singleton]%elem_of_app; [|set_solver].
    destruct (H2 x Hx). set_solver.
  - intros x [Hx|Hx]%elem_of_app.
    + destruct (H3 x Hx); [set_solver|by right].
    + left. set_solver.
  - done.
  - intros c Hc Hn. apply H5; set_solver.
  - intros x Hx. destruct (H6 x Hx) as (? & ? & ? & ? & ?). set_solver.
  - intros x [Hx| ->%list_elem_of_singleton]%elem_of_app Hf Hc; [by apply H7|]. right.
    split; [|auto]. intros (c & Heq & Hcd)%list_elem_of_fmap. apply Hnd.
    apply list_elem_of_fmap. exists c. split; [done|]. apply H5; [done|].
    rewrite <-Heq. intros Hr. by destruct (H2 _ Hr).
Qed.

(** A due deferral: submitted and forgotten. *)
Lemma split_due done d ready watch item c :
  split_inv j base done d ready watch →
  tf_Txid item ∉ tf_Txid <$> done → c ∈ d → dc_Txid c = tf_Txid item →
  (DeadlineHeight c ≤ Height j)%Z →
  split_inv j base (done ++ [item]) (removeDeferredCheckpoint d (tf_Txid item))
    (ready ++ [tf_Txid item]) watch.
Proof.
  intros [H1 H2 H3 H4 H5 H6 H7] Hnew Hc Hcx Hle. constructor; rewrite ?fmap_app.
  - by apply removeDeferred_nodup.
  - intros x [Hx| ->%list_elem_of_singleton]%elem_of_app.
    + destruct (H2 x Hx) as [? Hn]. split; [set_solver|].
      intros (c' & -> & [_ Hc']%elem_of_removeDeferred)%list_elem_of_fmap.
      apply Hn, list_elem_of_fmap. eauto.
    + split; [set_solver|].
      intros (c' & ? & [? _]%elem_of_removeDeferred)%list_elem_of_fmap. congruence.
  - intros x [Hx|Hx]%elem_of_app; [|left; set_solver].
    destruct (H3 x Hx) as [?|(c' & Hc' & Hx' & ?)]; [set_solver|]. right. exists c'.
    rewrite elem_of_removeDeferred. split_and!; [|done..]. intros ?. congruence.
  - intros c' [_ Hc']%elem_of_removeDeferred. auto.
  - intros c' Hc' Hn. apply elem_of_removeDeferred. split; [set_solver|].
    apply H5; set_solver.
  - intros x Hx. destruct (H6 x Hx) as (Hxd & ? & ? & (c' & -> & Hc')%list_elem_of_fmap & ?).
    split_and!; [set_solver|done|done| |done]. apply list_elem_of_fmap. exists c'.
    split; [done|]. apply elem_of_removeDeferred. split; [|done]. intros ?. congruence.
  - intros x [Hx| ->%list_elem_of_singleton]%elem_of_app Hf Hk; [by apply H7|]. left.
    exists c. split_and!; [|done..]. destruct (H4 c Hc) as [?|[Hw _]]; [done|].
    destruct (H6 _ Hw) as [Hin _]. rewrite Hcx in Hin. done.
Qed.

(** A checkpoint that stays deferred. *)
Lemma split_hold done d ready watch item c :
  split_inv j base done d ready watch →
  c ∈ d → dc_Txid c = tf_Txid item → (Height j < DeadlineHeight c)%Z →
  split_inv j base (done ++ [item]) d ready watch.
Proof.
  intros [H1 H2 H3 H4 H5 H6 H7] Hc Hcx Hle. constructor; rewrite ?fmap_app; try done.
  - intros x Hx. destruct (H2 x Hx). set_solver.
  - intros x [Hx|Hx]%elem_of_app; [auto|]. right. exists c. set_solver.
  - intros x Hx. destruct (H6 x Hx) as (? & ? & ? & ? & ?). set_solver.
Qed.

(** A checkpoint deferred now. *)
Lemma split_defer done d ready watch item :
  split_inv j base done d ready watch →
  tf_Txid item ∉ tf_Txid <$> done → tf_Txid item ∉ dc_Txid <$> d →
  is_checkpoint (tf_Txid item) → Trigger j = TriggerFraudSpend →
  (Height j < backstop base)%Z →
  split_inv j base (done ++ [item])
    (appendDeferredCheckpoint d (mkDeferredCheckpoint (tf_Txid item) (backstop base)))
    ready (watch ++ [tf_Txid item]).
Proof.
  intros [H1 H2 H3 H4 H5 H6 H7] Hnew Hnd Hk Hf Hlt.
  set (c0 := mkDeferredCheckpoint (tf_Txid item) (backstop base)).
  pose proof (appendDeferred_perm d c0 Hnd) as Hperm.
  assert (∀ c, c ∈ appendDeferredCheckpoint d c0 ↔ c ∈ d ∨ c = c0) as He.
  { intros c. rewrite Hperm, elem_of_app, list_elem_of_singleton. done. }
  assert (∀ x, x ∈ dc_Txid <$> appendDeferredCheckpoint d c0 ↔
    x ∈ dc_Txid <$> d ∨ x = tf_Txid item) as Hx0.
  { intros x. rewrite Hperm, fmap_app, elem_of_app. csimpl.
    by rewrite list_elem_of_singleton. }
  assert (tf_Txid item ∉ ready) as Hnr.
  { intros Hr. by destruct (H2 _ Hr). }
  constructor; rewrite ?fmap_app; try done.
  - rewrite Hperm, fmap_app, NoDup_app. split_and!; [done|set_solver|apply NoDup_singleton].
  - intros x Hx. rewrite Hx0. destruct (H2 x Hx). split; [set_solver|].
    intros [?| ->]; done.
  - intros x [Hx|Hx]%elem_of_app.
    + destruct (H3 x Hx) as [?|(c & ? & ? & ?)]; [by left|]. right. exists c.
      rewrite He. auto.
    + right. exists c0. rewrite He. set_solver.
  - intros c [Hc| ->]%He; [|right; set_solver]. destruct (H4 c Hc) as [?|[? ?]]; [by left|].
    right. set_solver.
  - intros c Hc Hn. apply He. left. auto.
  - intros x [Hx| ->%list_elem_of_singleton]%elem_of_app; rewrite Hx0.
    + destruct (H6 x Hx) as (? & ? & ? & ? & ?). set_solver.
    + split_and!; [set_solver|done|done|by right|].
      intros (c & Heq & Hcd)%list_elem_of_fmap. apply Hnd, list_elem_of_fmap. exists c.
      split; [done|]. apply H5; [done|]. by rewrite <-Heq.
Qed.

Lemma split_step done d ready watch item :
  tf_Node item = nodes p !! tf_Txid item → tf_Txid item ∉ tf_Txid <$> done →
  split_inv j base done d ready watch →
  ∃ d' ready' watch',
    split_item (CSVDelay p) margin base
      (set_DeferredCheckpoints j d, ready, watch) item =
    (set_DeferredCheckpoints j d', ready', watch') ∧
    split_inv j base (done ++ [item]) d' ready' watch'.
Proof.
  intros Hnode Hnew Hinv. unfold split_item, shouldSubmitReadyFrontier, CSVDelay.
  cbn [Trigger DeferredCheckpoints Height set_DeferredCheckpoints].
  change (checkpointBackstopHeight base (csvDelay p) margin) with (backstop base).
  assert (∀ c, c ∈ d → dc_Txid c = tf_Txid item →
    is_checkpoint (tf_Txid item) ∧ Trigger j = TriggerFraudSpend) as Hdef.
  { intros c Hc Hcx. destruct (sp_origin _ _ _ _ _ _ Hinv c Hc) as [Hj|[Hw _]].
    - split; [|by apply Htr; intros Hnil; rewrite Hnil in Hj; apply not_elem_of_nil in Hj].
      rewrite <-Hcx. by apply (vd_node _ _ _ Hd).
    - destruct (sp_watch _ _ _ _ _ _ Hinv _ Hw) as [Hin _]. rewrite Hcx in Hin. done. }
  assert ((Trigger j = TriggerFraudSpend → ¬ is_checkpoint (tf_Txid item)) →
    ∃ d' ready' watch', (set_DeferredCheckpoints j d, ready ++ [tf_Txid item], watch) =
      (set_DeferredCheckpoints j d', ready', watch') ∧
      split_inv j base (done ++ [item]) d' ready' watch') as Hsubmit.
  { intros Hn. eexists _, _, _. split; [reflexivity|]. apply split_submit; [done..| |].
    - intros (c & Heq & Hc)%list_elem_of_fmap. destruct (Hdef c Hc (eq_sym Heq)).
      by apply Hn.
    - intros Hf Hk. by destruct (Hn Hf). }
  destruct (decide (Trigger j = TriggerFraudSpend)) as [Hf|Hf].
  2:{ rewrite bool_decide_eq_true_2 by done. by apply Hsubmit. }
  rewrite bool_decide_eq_false_2 by (by intros ?). rewrite Hnode.
  destruct (nodes p !! tf_Txid item) as [n|] eqn:Hn.
  2:{ apply Hsubmit. intros _ (n & ? & _). congruence. }
  destruct (decide (Kind n = NodeKindCheckpoint)) as [Hk|Hk].
  2:{ rewrite bool_decide_eq_true_2 by done. apply Hsubmit.
      intros _ (n' & ? & ?). congruence. }
  rewrite bool_decide_eq_false_2 by (by intros ?).
  assert (is_checkpoint (tf_Txid item)) as Hck by (by exists n).
  destruct (findDeferredCheckpoint d (tf_Txid item)) as [c|] eqn:Hfind.
  - destruct (findDeferred_Some _ _ _ Hfind) as [Hc Hcx].
    destruct (Z.ltb_spec (Height j) (DeadlineHeight c)).
    + cbn [DeferredCheckpoints set_DeferredCheckpoints]. rewrite Hfind.
      eexists _, _, _. split; [reflexivity|]. by eapply split_hold.
    + eexists _, _, _. split; [reflexivity|]. by eapply split_due.
  - cbn [DeferredCheckpoints set_DeferredCheckpoints Height]. rewrite Hfind.
    apply findDeferred_None in Hfind. destruct (Z.leb_spec (backstop base) (Height j)).
    + eexists _, _, _. split; [reflexivity|]. by apply split_submit.
    + eexists _, _, _. split; [reflexivity|]. by apply split_defer.
Qed.

Lemma split_fold todo done d ready watch :
  (∀ f, f ∈ todo → tf_Node f = nodes p !! tf_Txid f) →
  NoDup (tf_Txid <$> done ++ todo) → split_inv j base done d ready watch →
  ∃ d' ready' watch',
    fold_left (split_item (CSVDelay p) margin base) todo
      (set_DeferredCheckpoints j d, ready, watch) =
    (set_DeferredCheckpoints j d', ready', watch') ∧
    split_inv j base (done ++ todo) d' ready' watch'.
Proof.
  revert done d ready watch. induction todo as [|item todo IH];
    intros done d ready watch Hnode Hnd Hinv.
  { rewrite app_nil_r. eexists _, _, _. by split; [reflexivity|]. }
  destruct (split_step done d ready watch item) as (d1 & r1 & w1 & Heq & H1).
  - apply Hnode. constructor.
  - rewrite fmap_app, NoDup_app, fmap_cons in Hnd. set_solver.
  - done.
  - cbn [fold_left]. rewrite Heq. destruct (IH (done ++ [item]) d1 r1 w1) as (d' & r' & w' & ? & ?).
    + intros f Hf. apply Hnode. by constructor.
    + by rewrite <-app_assoc.
    + done.
    + eexists _, _, _. rewrite <-app_assoc in *. eauto.
Qed.
End split.

(** ** Jobs and transitions *)

Definition state_job (s : State) : option JobState :=
  match s with
  | Idle => None
  | AwaitingMaterialization j | AwaitingCSV j | AwaitingSweepBroadcast j
  | AwaitingSweepConfirmation j | Completed j | Failed j => j
  end.

(** The side effects a transition asks the actor for. *)
Definition emitted (tr : StateTransition) : list OutboxEvent :=
  match NewEvents tr with None => [] | Some e => Outbox e end.

Lemma emitted_transition s out :
  NextState (transitionWithOutbox s out) = s ∧ emitted (transitionWithOutbox s out) = out.
Proof. by destruct out. Qed.

Section fsm_inv.
Context `{!Chain} (p : Proof_) `{!WfProof p} (margin : Z).
Implicit Types j : JobState.

(** The environment of one job: the proof, its planner, the safety margin. *)
Definition env_of : option Environment :=
  Some (mkEnvironment (Some p) (planner p) margin).

Record job_ok (j : JobState) : Prop := {
  jo_int32 : state_int32 (PlannerState j);
  jo_state : valid_state p (PlannerState j);
  jo_deferred : valid_deferred p (PlannerState j) (DeferredCheckpoints j);
  jo_trigger : DeferredCheckpoints j ≠ [] → Trigger j = TriggerFraudSpend;
  jo_csv : Trigger j = TriggerFraudSpend → csvDelay p ≠ 0%Z;
}.

Lemma job_ok_copy j : job_ok j → job_ok (Copy j).
Proof.
  intros [H1 H2 H3 H4 H5]. constructor.
  - exact H1.
  - by eapply valid_state_same; [apply Copy_same|].
  - by eapply valid_deferred_same; [apply Copy_same|apply Copy_deferred|].
  - intros Hne. apply H4. intros Hnil. apply Hne. simpl. by rewrite Hnil.
  - exact H5.
Qed.

(** The job [deriveStateTransition] accepts, and what it makes of it. *)
Lemma derive_inv j re anchor tr :
  state_int32 (PlannerState j) →
  (DeferredCheckpoints j ≠ [] → Trigger j = TriggerFraudSpend) →
  deriveStateTransition (Some j) env_of re anchor = Ok tr →
  job_ok j ∧
  ((FailReason j ≠ EmptyString ∧ tr = mkStateTransition (Failed (Some (Copy j))) None) ∨
   (FailReason j = EmptyString ∧ matures p (PlannerState j) ∧
    tr = phase_transition j env_of (plan_snapshot p (Height j) (PlannerState j)) anchor
           (reissue_outbox j re))).
Proof.
  intros Hi Ht. unfold deriveStateTransition, env_of, planner. intros HD. inv_ok.
  match goal with E : validateDeferredCheckpoints _ _ = _ |- _ =>
    apply validateDeferred_ok in E end.
  match goal with E : Validate _ _ = _ |- _ => apply (Validate_valid p _ Hi) in E end.
  assert (job_ok j) as Hok.
  { constructor; try done. intros Hf Hc. rewrite (bool_decide_eq_true_2 _ Hf) in G.
    unfold CSVDelay in G. by rewrite Hc in G. }
  split; [done|].
  destruct (decide (FailReason j = EmptyString)) as [Hr|Hr].
  - rewrite bool_decide_eq_false_2 in HD by (by intros ?). right. split; [done|].
    inv_ok. match goal with E : Plan _ _ _ = _ |- _ =>
      apply (Plan_inv p _ _ _ Hi) in E as (_ & ? & ->) end. done.
  - rewrite bool_decide_eq_true_2 in HD by done. left. by inv_ok.
Qed.

Lemma derive_complete j re anchor :
  job_ok j → FailReason j ≠ EmptyString ∨ matures p (PlannerState j) →
  ∃ tr, deriveStateTransition (Some j) env_of re anchor = Ok tr.
Proof.
  intros [H1 H2 H3 H4 H5] Hm. unfold deriveStateTransition, env_of, planner.
  replace (negb _) with true.
  2:{ symmetry. apply negb_true_iff, andb_false_iff.
      destruct (decide (Trigger j = TriggerFraudSpend)) as [Hf|Hf].
      - right. apply Z.eqb_neq. by apply H5.
      - left. by apply bool_decide_eq_false_2. }
  rewrite (proj2 (validateDeferred_ok p j)) by done.
  rewrite (proj2 (Validate_valid p _ H1)) by done.
  destruct (decide (FailReason j = EmptyString)) as [Hr|Hr].
  - rewrite bool_decide_eq_false_2 by (by intros ?).
    destruct Hm as [?|Hm]; [done|].
    destruct (Plan_valid p (Height j) _ H1 H2) as [HP _].
    change (Some (mkPlanner (Some p))) with (planner p). rewrite HP by done. eauto.
  - rewrite bool_decide_eq_true_2 by done. eauto.
Qed.

Lemma plan_ready_nodes C I f :
  f ∈ omap (plan_ready p C I) (walk_layers (layers p)) →
  tf_Node f = nodes p !! tf_Txid f.
Proof.
  intros (ix & _ & Hf)%list_elem_of_omap. by rewrite (plan_ready_key _ _ _ _ _ Hf).
Qed.

Lemma plan_ready_nodup C I :
  NoDup (tf_Txid <$> omap (plan_ready p C I) (walk_layers (layers p))).
Proof.
  assert (NoDup (walk_layers (layers p)).*2) as Hw.
  { rewrite walk_layers_snd. apply (wf_layers_nodup p). }
  revert Hw. generalize (walk_layers (layers p)) as w.
  induction w as [|[i x] w IH]; csimpl; [constructor|]. rewrite NoDup_cons. intros [Hx Hw].
  destruct (plan_ready p C I (i, x)) as [f|] eqn:Hf; [|auto]. csimpl.
  rewrite (plan_ready_key _ _ _ _ _ Hf). constructor; [|auto].
  intros (f' & Heq & (ix & Hix & Hf')%list_elem_of_omap)%list_elem_of_fmap. apply Hx.
  rewrite (plan_ready_key _ _ _ _ _ Hf') in Heq. simpl in Heq. subst.
  apply list_elem_of_fmap. eauto.
Qed.

(** The last phase: the frontier is split and handed out. *)
Lemma materialize_spec j anchor out :
  job_ok j →
  let snap := plan_snapshot p (Height j) (PlannerState j) in
  ∃ d ready watch l,
    split_inv p margin j (default (Height j) anchor) (sn_Ready snap) d ready watch ∧
    NoDup l ∧ (∀ x, x ∈ l ↔ x ∈ InFlightTxids (PlannerState j) ∨ x ∈ ready) ∧
    materialize j env_of snap anchor out =
    transitionWithOutbox
      (AwaitingMaterialization
         (Some (Copy (set_InFlight (set_DeferredCheckpoints j d) l))))
      (out ++
       (if bool_decide (watch ≠ []) then [WatchDeferredCheckpoints (sortHashes watch)]
        else []) ++
       (if bool_decide (ready ≠ []) then [EnsureReadyTransactions (sortHashes ready)]
        else [])).
Proof.
  intros Hok snap. pose proof (vs_inflight_nodup _ _ (jo_state _ Hok)) as Hnd.
  destruct (split_fold p margin j (default (Height j) anchor)
    (jo_deferred _ Hok) (jo_trigger _ Hok) (sn_Ready snap) []
    (DeferredCheckpoints j) [] []) as (d & ready & watch & Hfold & Hinv).
  - intros f Hf. eapply plan_ready_nodes, Hf.
  - apply plan_ready_nodup.
  - by apply split_init; destruct Hok.
  - assert (set_DeferredCheckpoints j (DeferredCheckpoints j) = j) as Hj by (by destruct j).
    rewrite Hj in Hfold. unfold materialize, readyMaterializationTxids, env_of.
    rewrite Hfold.
    assert (∀ l : list Hash, bool_decide (sortHashes l ≠ []) = bool_decide (l ≠ [])) as Hnil.
    { intros l. apply bool_decide_ext. by rewrite sortHashes_nil. }
    rewrite !Hnil.
    exists d, ready, watch,
      (if bool_decide (ready ≠ [])
       then appendUniqueSorted (InFlightTxids (PlannerState j)) (sortHashes ready)
       else InFlightTxids (PlannerState j)).
    destruct (decide (ready = [])) as [->|Hr].
    + rewrite (bool_decide_eq_false_2 ([] ≠ [])) by (by intros ?).
      split_and!; [done|done|set_solver|]. rewrite app_nil_r.
      assert (set_InFlight (set_DeferredCheckpoints j d) (InFlightTxids (PlannerState j)) =
        set_DeferredCheckpoints j d) as -> by (by destruct j as [???? []]).
      destruct (bool_decide (watch ≠ [])); [done|]. by rewrite app_nil_r.
    + rewrite (bool_decide_eq_true_2 (ready ≠ [])) by done. split_and!; [done| | |].
      * by apply appendUniqueSorted_spec.
      * intros x. by rewrite elem_of_appendUniqueSorted, elem_of_sortHashes.
      * destruct (bool_decide (watch ≠ [])); [|done]. by rewrite <-app_assoc.
Qed.

(** The phase is a function of the sweep status, the target height and the CSV
    maturity. *)
Lemma phase_cases j anchor out :
  job_ok j → matures p (PlannerState j) →
  let st := PlannerState j in
  let snap := plan_snapshot p (Height j) st in
  let tr := phase_transition j env_of snap anchor out in
  match sw_Status (Sweep st), TargetConfirmHeight st with
  | SweepStatusConfirmed, _ =>
      tr = transitionWithOutbox (Completed (Some (Copy j))) out
  | SweepStatusBroadcasted, _ =>
      tr = transitionWithOutbox (AwaitingSweepConfirmation (Some (Copy j))) out
  | SweepStatusPending, Some k =>
      tr = if (k + csvDelay p <=? Height j)%Z
           then transitionWithOutbox (AwaitingSweepBroadcast (Some (Copy j)))
                  (if bool_decide (RejectedSweep j = None) || (RepriceAfter j <? Height j)%Z
                   then out ++ [RequestSweepBuild] else out)
           else transitionWithOutbox (AwaitingCSV (Some (Copy j))) out
  | SweepStatusPending, None => tr = materialize j env_of snap anchor out
  | SweepStatusUnknown _, _ => False
  end.
Proof.
  intros Hok Hm st snap tr.
  pose proof (jo_state _ Hok) as Hv. pose proof (vs_sweep _ _ Hv) as [_ Hs]. fold st in Hs, Hv.
  assert (sn_Done snap = bool_decide (sw_Status (Sweep st) = SweepStatusConfirmed)) as Hd
    by done.
  unfold tr, phase_transition. rewrite Hd. fold st.
  destruct (sw_Status (Sweep st)) eqn:Hst; [|done..].
  rewrite !bool_decide_eq_false_2 by done.
  assert (sn_CSV snap = plan_csv p (Height j) st) as -> by done.
  assert (sn_NeedSweep snap = match plan_csv p (Height j) st with
     | Some c => ci_Ready c && bool_decide (sw_Status (Sweep st) = SweepStatusPending)
     | None => false end) as -> by done.
  unfold plan_csv. rewrite Hst. destruct (TargetConfirmHeight st) as [k|] eqn:Hk; [|done].
  rewrite (csvInfoAt_ok p); [|by apply (jo_int32 _ Hok)|by apply (vs_height _ _ Hv)].
  rewrite decide_True by (by apply Hm). cbn [ci_Ready from_option].
  by destruct (k + csvDelay p <=? Height j)%Z.
Qed.

(** ** Preservation *)

Lemma materialize_job_ok j base d ready watch l :
  job_ok j → TargetConfirmHeight (PlannerState j) = None →
  split_inv p margin j base
    (sn_Ready (plan_snapshot p (Height j) (PlannerState j))) d ready watch →
  NoDup l → (∀ x, x ∈ l ↔ x ∈ InFlightTxids (PlannerState j) ∨ x ∈ ready) →
  job_ok (set_InFlight (set_DeferredCheckpoints j d) l).
Proof.
  intros [H1 H2 H3 H4 H5] Hk Hsp Hnd Hl.
  assert (∀ x, x ∈ ready → x ∈ tf_Txid <$>
    sn_Ready (plan_snapshot p (Height j) (PlannerState j))) as Hr.
  { intros x Hx. by apply (sp_ready _ _ _ _ _ _ _ _ Hsp). }
  assert (∀ x, x ∈ tf_Txid <$> sn_Ready (plan_snapshot p (Height j) (PlannerState j)) →
    x ∈ dom (nodes p) ∧ x ∉ ConfirmedTxids (PlannerState j) ∧
    x ∉ InFlightTxids (PlannerState j) ∧
    ∀ q, q ∈ adj (parents p) x → q ∈ ConfirmedTxids (PlannerState j)) as Hf.
  { intros x. cbn [plan_snapshot sn_Ready]. rewrite (plan_ready_elem p).
    rewrite !elem_of_list_to_set. by setoid_rewrite elem_of_list_to_set. }
  constructor.
  - exact H1.
  - destruct H2 as [V1 V2 V3 V4 V5 V6 V7 V8 V9]. constructor; simpl; try done.
    + intros x Hx. rewrite Hl. intros [?|?%Hr%Hf]; [by eapply V3|tauto].
    + intros x. rewrite Hl. intros [?|?%Hr%Hf]; [auto|tauto].
    + intros x q. rewrite Hl. intros [?|[?|?%Hr%Hf]] Hq; [eauto|eauto|naive_solver].
  - assert (∀ c, c ∈ d → c ∈ DeferredCheckpoints j ∨
      is_checkpoint p (dc_Txid c) ∧ dc_Txid c ∈ tf_Txid <$>
        sn_Ready (plan_snapshot p (Height j) (PlannerState j))) as Ho.
    { intros c Hc. destruct (sp_origin _ _ _ _ _ _ _ _ Hsp c Hc) as [?|[Hw _]]; [by left|].
      right. destruct (sp_watch _ _ _ _ _ _ _ _ Hsp _ Hw) as (? & ? & _). done. }
    constructor; simpl.
    + apply (sp_nodup _ _ _ _ _ _ _ _ Hsp).
    + intros c Hc. destruct (Ho c Hc) as [?|[? _]]; [by apply (vd_node _ _ _ H3)|done].
    + intros c Hc. destruct (Ho c Hc) as [?|[_ ?%Hf]]; [by apply (vd_confirmed _ _ _ H3)|tauto].
    + intros c Hc. rewrite Hl. intros [Hi|Hx].
      * destruct (Ho c Hc) as [?|[_ ?%Hf]]; [by eapply (vd_inflight _ _ _ H3)|tauto].
      * destruct (sp_ready _ _ _ _ _ _ _ _ Hsp _ Hx) as [_ Hn]. apply Hn.
        apply list_elem_of_fmap. eauto.
  - simpl. intros Hne. destruct d as [|c d]; [done|].
    destruct (sp_origin _ _ _ _ _ _ _ _ Hsp c) as [Hc|[Hw _]]; [constructor| |].
    + apply H4. intros Hnil. rewrite Hnil in Hc. by apply not_elem_of_nil in Hc.
    + by destruct (sp_watch _ _ _ _ _ _ _ _ Hsp _ Hw) as (_ & _ & ? & _).
  - exact H5.
Qed.

(** [j1] is [j] with more transactions in flight and updated deferrals. *)
Definition handed_out j j1 : Prop :=
  ∃ d l, j1 = set_InFlight (set_DeferredCheckpoints j d) l ∧
    ∀ x, x ∈ InFlightTxids (PlannerState j) → x ∈ l.

Lemma handed_out_refl j : handed_out j j.
Proof.
  exists (DeferredCheckpoints j), (InFlightTxids (PlannerState j)).
  split; [|done]. by destruct j as [???? []].
Qed.

(** An accepted job is valid, and so is the job of the state it leads to. *)
Lemma derive_next j re anchor tr :
  state_int32 (PlannerState j) →
  (DeferredCheckpoints j ≠ [] → Trigger j = TriggerFraudSpend) →
  deriveStateTransition (Some j) env_of re anchor = Ok tr →
  job_ok j ∧ ∃ j1, state_job (NextState tr) = Some (Copy j1) ∧ job_ok j1 ∧
    handed_out j j1 ∧ NextState tr ≠ Idle.
Proof.
  intros Hi Ht HD. destruct (derive_inv j re anchor tr Hi Ht HD) as
    [Hok [[_ ->]|(_ & Hm & ->)]]; (split; [done|]).
  { exists j. split_and!; [done..|apply handed_out_refl|done]. }
  pose proof (phase_cases j anchor (reissue_outbox j re) Hok Hm) as HP. cbv zeta in HP.
  assert (∀ (mk : option JobState → State) out,
    state_job (mk (Some (Copy j))) = Some (Copy j) → mk (Some (Copy j)) ≠ Idle →
    ∃ j1, state_job (NextState (transitionWithOutbox (mk (Some (Copy j))) out)) =
      Some (Copy j1) ∧ job_ok j1 ∧ handed_out j j1 ∧
      NextState (transitionWithOutbox (mk (Some (Copy j))) out) ≠ Idle) as Hsame.
  { intros mk out Hmk. rewrite (proj1 (emitted_transition _ _)). exists j.
    split_and!; [done..|apply handed_out_refl|done]. }
  destruct (sw_Status _) eqn:Hst; [|rewrite HP; by apply Hsame..|done].
  destruct (TargetConfirmHeight (PlannerState j)) as [k|] eqn:Hk.
  - rewrite HP. destruct (_ <=? _)%Z; by apply Hsame.
  - rewrite HP. destruct (materialize_spec j anchor (reissue_outbox j re) Hok)
      as (d & ready & watch & l & Hsp & Hnd & Hl & ->).
    rewrite (proj1 (emitted_transition _ _)).
    exists (set_InFlight (set_DeferredCheckpoints j d) l). split_and!; [done| | |done].
    + by eapply materialize_job_ok.
    + exists d, l. split; [done|]. intros x Hx. apply Hl. by left.
Qed.

(** ** Events *)

Definition event_int32 (e : Event) : Prop :=
  match e with
  | StartEvent h _ _ _ | ResumeEvent h | HeightUpdatedEvent h | TxConfirmedEvent _ h =>
      is_int32 h
  | _ => True
  end.

(** A duplicate start of a live job repeats the job's trigger. *)
Definition keeps_trigger (s : State) (e : Event) : Prop :=
  match e, state_job s with
  | StartEvent _ t _ _, Some j => t = Trigger j
  | _, _ => True
  end.

Definition event_ok (s : State) (e : Event) : Prop := event_int32 e ∧ keeps_trigger s e.

Lemma raise_height_fields j h :
  PlannerState (raise_height j h) = PlannerState j ∧
  DeferredCheckpoints (raise_height j h) = DeferredCheckpoints j ∧
  Trigger (raise_height j h) = Trigger j ∧
  FailReason (raise_height j h) = FailReason j ∧
  SweepAttempts (raise_height j h) = SweepAttempts j ∧
  Height (raise_height j h) = Z.max (Height j) h.
Proof.
  unfold raise_height. destruct (Z.ltb_spec (Height j) h); simpl; split_and!; try done; lia.
Qed.

(** What every event leaves in place: the widths, the trigger of a job with
    deferrals, and recorded history. *)
Record applied (j j' : JobState) : Prop := {
  ap_int32 : state_int32 (PlannerState j) → state_int32 (PlannerState j');
  ap_deferred : ∀ c, c ∈ DeferredCheckpoints j' → c ∈ DeferredCheckpoints j;
  ap_trigger : Trigger j' = Trigger j;
  ap_height : (Height j ≤ Height j')%Z;
  ap_confirmed : ∀ x, x ∈ ConfirmedTxids (PlannerState j) →
    x ∈ ConfirmedTxids (PlannerState j');
  ap_target : ∀ k, TargetConfirmHeight (PlannerState j) = Some k →
    TargetConfirmHeight (PlannerState j') = Some k;
}.

Lemma applied_refl j : applied j j.
Proof. by constructor. Qed.

Lemma applied_sweep_build j reason : applied j (applySweepBuildFailed j reason).
Proof. unfold applySweepBuildFailed. destruct (_ <=? _)%Z; constructor; done. Qed.

Lemma applied_failed j x r c b : applied j (applyFailedEvent j x r c b).
Proof.
  unfold applyFailedEvent. destruct (bool_decide _); [apply applied_refl|].
  destruct (bool_decide _).
  - destruct (_ || _); [|apply applied_sweep_build].
    destruct (bool_decide (RejectedSweep j = None)); by constructor.
  - constructor; simpl; try done. by intros c' [_ ?]%elem_of_removeDeferred.
Qed.

Lemma applied_confirmed j x h :
  is_int32 h → applied j (applyConfirmedEvent j x h env_of).
Proof.
  intros Hh. unfold applyConfirmedEvent. destruct (bool_decide _).
  - match goal with |- applied _ (raise_height ?a ?b) =>
      destruct (raise_height_fields a b) as (Hp & Hd & Ht & _ & _ & He) end.
    constructor; rewrite ?Hp, ?Hd, ?Ht, ?He; simpl; try done; lia.
  - match goal with |- applied _ (raise_height ?a ?b) =>
      destruct (raise_height_fields a b) as (Hp & Hd & Ht & _ & _ & He) end.
    constructor; rewrite ?Hp, ?Hd, ?Ht, ?He; simpl; try done.
    + intros Hi k. simpl. destruct (_ && _); [by intros [= <-]|apply Hi].
    + by intros c [_ ?]%elem_of_removeDeferred.
    + lia.
    + intros y Hy. rewrite elem_of_appendUniqueSorted. by left.
    + intros k ->. by rewrite andb_false_r.
Qed.

Lemma applied_raise j h : applied j (raise_height j h).
Proof.
  destruct (raise_height_fields j h) as (Hp & Hd & Ht & _ & _ & He).
  constructor; rewrite ?Hp, ?Hd, ?Ht, ?He; try done. lia.
Qed.

Lemma applied_event j e :
  event_int32 e → (∀ h t k r, e = StartEvent h t k r → t = Trigger j) →
  applied j (apply_event j e env_of).1.1.
Proof.
  intros Hi Hk. destruct e; simpl.
  - rewrite (Hk _ _ _ _ eq_refl). destruct (applied_raise j height).
    assert (applied j (set_Trigger (raise_height j height) (Trigger j))) as []
      by (by constructor).
    destruct (bool_decide _); by constructor.
  - apply applied_raise.
  - apply applied_raise.
  - by apply applied_confirmed.
  - apply applied_failed.
  - by constructor.
  - by constructor.
  - apply applied_sweep_build.
Qed.

(** ** Reachable states *)

Definition state_ok (s : State) : Prop :=
  match state_job s with Some j => job_ok j | None => s = Idle end.

(** Where the job of an accepted event comes from. *)
Inductive from_event (s : State) (e : Event) : JobState → bool → option Z → Prop :=
| from_start h t k r :
    s = Idle → e = StartEvent h t k r →
    from_event s e (new_job h t (exitPolicyKind k) r) false None
| from_resume h :
    s = Idle → e = ResumeEvent h →
    from_event s e (new_job h TriggerRestart EmptyString EmptyString) true None
| from_job j0 j re anchor :
    state_job s = Some j0 → IsTerminal s = false →
    apply_event (Copy j0) e env_of = (j, re, anchor) → applied (Copy j0) j →
    from_event s e j re anchor.

Lemma process_from s e tr :
  state_ok s → event_ok s e → ProcessEvent s e env_of = Ok tr →
  ∃ j re anchor, from_event s e j re anchor ∧
    deriveStateTransition (Some j) env_of re anchor = Ok tr.
Proof.
  intros Hs [Hi Hk] HP.
  assert (∀ job, state_job s = job → IsTerminal s = false → s ≠ Idle →
    processEventWithJob job e env_of = Ok tr →
    ∃ j re anchor, from_event s e j re anchor ∧
      deriveStateTransition (Some j) env_of re anchor = Ok tr) as Hjob.
  { intros job Hj Hterm _. unfold processEventWithJob. destruct job as [j0|]; [|done].
    destruct (apply_event (Copy j0) e env_of) as [[j re] anchor] eqn:Ha. intros HD.
    exists j, re, anchor. split; [|done]. eapply from_job; [done..|].
    assert (j = (apply_event (Copy j0) e env_of).1.1) as -> by (by rewrite Ha).
    apply applied_event; [done|]. intros h t k r ->. unfold keeps_trigger in Hk.
    by rewrite Hj in Hk. }
  unfold ProcessEvent, Idle_ProcessEvent in HP.
  destruct s as [|j|j|j|j|j|j]; [|by apply (Hjob j)..|done|done].
  destruct e; try done; eexists _, _, _; (split; [|exact HP]).
  - by eapply from_start.
  - by eapply from_resume.
Qed.

Lemma from_event_pre s e j re anchor :
  state_ok s → from_event s e j re anchor →
  state_int32 (PlannerState j) ∧
  (DeferredCheckpoints j ≠ [] → Trigger j = TriggerFraudSpend).
Proof.
  intros Hs [h t k r _ _|h _ _|j0 j' re' anchor' Hj _ _ Hap]; [by split..|].
  unfold state_ok in Hs. rewrite Hj in Hs. apply job_ok_copy in Hs. destruct Hs as [H1 H2 H3 H4 H5].
  split; [by apply (ap_int32 _ _ Hap)|]. rewrite (ap_trigger _ _ Hap). intros Hne. apply H4.
  intros Hnil. apply Hne, elem_of_nil_inv. intros c Hc%(ap_deferred _ _ Hap).
  rewrite Hnil in Hc. by apply not_elem_of_nil in Hc.
Qed.

(** One accepted event, with what it emits. *)
Inductive fsm_step : State → Event → StateTransition → Prop :=
| fsm_step_intro s e tr :
    event_ok s e → ProcessEvent s e env_of = Ok tr → fsm_step s e tr.

Inductive fsm_reachable : State → Prop :=
| reach_idle : fsm_reachable Idle
| reach_step s e tr :
    fsm_reachable s → fsm_step s e tr → fsm_reachable (NextState tr).

(** The induction behind every invariant: an accepted event comes from a valid
    job and leads to one. *)
Lemma step_inv s e tr :
  state_ok s → fsm_step s e tr →
  ∃ j re anchor j1, from_event s e j re anchor ∧ job_ok j ∧
    deriveStateTransition (Some j) env_of re anchor = Ok tr ∧
    state_job (NextState tr) = Some (Copy j1) ∧ job_ok j1 ∧ handed_out j j1.
Proof.
  intros Hs Hstep. destruct Hstep as [s e tr He HP].
  destruct (process_from s e tr Hs He HP) as (j & re & anchor & Hfrom & HD).
  destruct (from_event_pre _ _ _ _ _ Hs Hfrom) as [Hi Ht].
  destruct (derive_next j re anchor tr Hi Ht HD) as (Hok & j1 & Hj1 & Hok1 & Hh & _).
  eexists _, _, _, _. eauto 10.
Qed.

Lemma step_state_ok s e tr : state_ok s → fsm_step s e tr → state_ok (NextState tr).
Proof.
  intros Hs Hstep.
  destruct (step_inv s e tr Hs Hstep) as (j & re & anchor & j1 & _ & _ & _ & Hj1 & Hok & _).
  unfold state_ok. rewrite Hj1. by apply job_ok_copy.
Qed.

Lemma reachable_ok s : fsm_reachable s → state_ok s.
Proof. induction 1 as [|s e tr _ IH Hs]; [done|]. by eapply step_state_ok. Qed.
End fsm_inv.
