(* ===== verification/UnrollExit.v ===== *)
(** * What the unroll state machine guarantees

    The theorems about unilateral exits: what the states mean, when
    transactions and the final sweep are released, what survives a restart, how
    failures are absorbed, and that an exit can always be driven to completion. *)

From S2P Require Import Prelude RecoveryProof RecoveryGraph RecoverySession.
From S2P Require Import UnrollPlan UnrollFsm UnrollInvariants.

Section exit.
Context `{!Chain} (p : Proof_) `{!WfProof p} (margin : Z).
Implicit Types j : JobState.

(** ** The meaning of the states *)

(** What the name of a state says about its job. *)
Definition phase_ok (s : State) : Prop :=
  match s with
  | Idle => True
  | AwaitingMaterialization (Some j) =>
      FailReason j = EmptyString ∧
      sw_Status (Sweep (PlannerState j)) = SweepStatusPending ∧
      target p ∉ ConfirmedTxids (PlannerState j) ∧
      (InFlightTxids (PlannerState j) ≠ [] ∨
       ∃ c, c ∈ DeferredCheckpoints j ∧ (Height j < DeadlineHeight c)%Z)
  | AwaitingCSV (Some j) =>
      FailReason j = EmptyString ∧
      sw_Status (Sweep (PlannerState j)) = SweepStatusPending ∧
      ∃ k, TargetConfirmHeight (PlannerState j) = Some k ∧
        (Height j < k + csvDelay p ≤ MaxInt32)%Z
  | AwaitingSweepBroadcast (Some j) =>
      FailReason j = EmptyString ∧
      sw_Status (Sweep (PlannerState j)) = SweepStatusPending ∧
      ∃ k, TargetConfirmHeight (PlannerState j) = Some k ∧
        (k + csvDelay p ≤ Height j ∧ k + csvDelay p ≤ MaxInt32)%Z
  | AwaitingSweepConfirmation (Some j) =>
      FailReason j = EmptyString ∧
      sw_Status (Sweep (PlannerState j)) = SweepStatusBroadcasted ∧
      is_Some (sw_Txid (Sweep (PlannerState j))) ∧
      ∃ k, TargetConfirmHeight (PlannerState j) = Some k ∧
        (k + csvDelay p ≤ MaxInt32)%Z
  | Completed (Some j) =>
      FailReason j = EmptyString ∧
      sw_Status (Sweep (PlannerState j)) = SweepStatusConfirmed ∧
      is_Some (sw_Txid (Sweep (PlannerState j))) ∧
      ∃ k c, TargetConfirmHeight (PlannerState j) = Some k ∧
        sw_ConfirmHeight (Sweep (PlannerState j)) = Some c ∧ (k + csvDelay p ≤ c)%Z
  | Failed (Some j) => FailReason j ≠ EmptyString
  | _ => False
  end.

Lemma valid_sweep_broadcasted j :
  job_ok p j → sw_Status (Sweep (PlannerState j)) = SweepStatusBroadcasted →
  is_Some (sw_Txid (Sweep (PlannerState j))) ∧
  is_Some (TargetConfirmHeight (PlannerState j)).
Proof.
  intros Hok Hs. destruct (vs_sweep _ _ (jo_state _ _ Hok)) as [_ Hv]. rewrite Hs in Hv.
  tauto.
Qed.

(** Something is in flight, or a deferral is still running. *)
Lemma materialize_busy j base d ready watch l :
  job_ok p j → target p ∉ ConfirmedTxids (PlannerState j) →
  split_inv p margin j base
    (sn_Ready (plan_snapshot p (Height j) (PlannerState j))) d ready watch →
  (∀ x, x ∈ l ↔ x ∈ InFlightTxids (PlannerState j) ∨ x ∈ ready) →
  l ≠ [] ∨ ∃ c, c ∈ d ∧ (Height j < DeadlineHeight c)%Z.
Proof.
  intros Hok Ht Hsp Hl.
  destruct (wf_frontier p (λ x, x ∈ ConfirmedTxids (PlannerState j)))
    as [Hall|(x & Hx & Hn & Hq)].
  { destruct Ht. apply Hall, wf_target. }
  assert (∀ x, x ∈ l → l ≠ []) as Hne by (intros y Hy ->; by apply not_elem_of_nil in Hy).
  destruct (decide (x ∈ InFlightTxids (PlannerState j))) as [Hi|Hi].
  { left. apply (Hne x), Hl. by left. }
  assert (x ∈ tf_Txid <$> sn_Ready (plan_snapshot p (Height j) (PlannerState j))) as Hr.
  { cbn [plan_snapshot sn_Ready]. rewrite (plan_ready_elem p), !elem_of_list_to_set.
    by setoid_rewrite elem_of_list_to_set. }
  destruct (sp_cover _ _ _ _ _ _ _ _ Hsp x Hr) as [?|(c & ? & _ & ?)].
  - left. apply (Hne x), Hl. by right.
  - right. eauto.
Qed.

Lemma derive_phase j re anchor tr :
  job_ok p j → deriveStateTransition (Some j) (env_of p margin) re anchor = Ok tr →
  phase_ok (NextState tr).
Proof.
  intros Hok HD. destruct (derive_inv p margin j re anchor tr) as
    [_ [[Hr ->]|(Hr & Hm & ->)]]; [apply Hok..|done|done|].
  pose proof (phase_cases p margin j anchor (reissue_outbox j re) Hok Hm) as HP.
  cbv zeta in HP. pose proof (jo_state _ _ Hok) as Hv.
  destruct (sw_Status (Sweep (PlannerState j))) eqn:Hst; [| | |done].
  - destruct (TargetConfirmHeight (PlannerState j)) as [k|] eqn:Hk.
    + rewrite HP. destruct (Z.leb_spec (k + csvDelay p) (Height j));
        rewrite (proj1 (emitted_transition _ _)); simpl; (split_and!; [done..|]);
        exists k; (split; [done|]); specialize (Hm k Hk); lia.
    + assert (target p ∉ ConfirmedTxids (PlannerState j)) as Ht.
      { rewrite <-(vs_target _ _ Hv), Hk. by intros [? ?]. }
      rewrite HP. destruct (materialize_spec p margin j anchor (reissue_outbox j re) Hok)
        as (d & ready & watch & l & Hsp & Hnd & Hl & ->).
      rewrite (proj1 (emitted_transition _ _)). simpl.
      rewrite elem_of_sortHashes, sortHashes_nil. split_and!; [done..|].
      destruct (materialize_busy j _ d ready watch l Hok Ht Hsp Hl) as [?|(c & ? & ?)];
        [by left|].
      right. exists c. unfold copyDeferredCheckpoints. by rewrite sortDeferred_perm.
  - destruct (valid_sweep_broadcasted j Hok Hst) as [? [k Hk]].
    rewrite HP, (proj1 (emitted_transition _ _)). simpl. split_and!; [done..|].
    exists k. split; [done|]. by apply Hm.
  - destruct (vs_sweep _ _ Hv) as [_ Hs]. rewrite Hst in Hs.
    destruct Hs as (? & c & t & ? & ? & ? & ? & ?).
    rewrite HP, (proj1 (emitted_transition _ _)). simpl. split_and!; [done..|].
    exists t, c. done.
Qed.

Lemma step_phase s e tr :
  state_ok p s → fsm_step p margin s e tr → phase_ok (NextState tr).
Proof.
  intros Hs Hstep. destruct (step_inv p margin s e tr Hs Hstep)
    as (j & re & anchor & j1 & _ & Hok & HD & _). by eapply derive_phase.
Qed.

Lemma reachable_phase s : fsm_reachable p margin s → phase_ok s.
Proof.
  intros Hr. destruct Hr as [|s e tr Hr Hs]; [done|].
  eapply step_phase; [|done]. by eapply reachable_ok.
Qed.

Lemma live_job s j :
  fsm_reachable p margin s → state_job s = Some j → IsTerminal s = false →
  job_ok p j ∧ FailReason j = EmptyString ∧
  sw_Status (Sweep (PlannerState j)) ≠ SweepStatusConfirmed ∧
  matures p (PlannerState j).
Proof.
  intros Hr Hj Ht. pose proof (reachable_ok p margin s Hr) as Hok.
  pose proof (reachable_phase s Hr) as Hph. unfold state_ok in Hok. rewrite Hj in Hok.
  split; [done|]. pose proof (vs_target _ _ (jo_state _ _ Hok)) as Htg. unfold matures.
  destruct s as [|o|o|o|o|o|o]; simpl in Hj, Ht, Hph; try done; subst o; simpl in Hph.
  - destruct Hph as (? & Hs & Hn & _). rewrite Hs. split_and!; [done..|].
    intros k Hk. destruct Hn. apply Htg. eauto.
  - destruct Hph as (? & Hs & k & Hk & ?). rewrite Hs, Hk. split_and!; [done..|].
    intros ? [= <-]. lia.
  - destruct Hph as (? & Hs & k & Hk & ?). rewrite Hs, Hk. split_and!; [done..|].
    intros ? [= <-]. lia.
  - destruct Hph as (? & Hs & _ & k & Hk & ?). rewrite Hs, Hk. split_and!; [done..|].
    intros ? [= <-]. lia.
Qed.

(** ** What a transition emits *)

(** Beyond the re-emissions of a restart, a transition emits nothing, the sweep
    request, or the split ready frontier. *)
Inductive emits (j : JobState) (anchor : option Z) :
    State → list OutboxEvent → Prop :=
| emits_nothing s : emits j anchor s []
| emits_sweep k :
    sw_Status (Sweep (PlannerState j)) = SweepStatusPending →
    TargetConfirmHeight (PlannerState j) = Some k → (k + csvDelay p ≤ Height j)%Z →
    (RejectedSweep j = None ∨ (RepriceAfter j < Height j)%Z) →
    emits j anchor (AwaitingSweepBroadcast (Some (Copy j))) [RequestSweepBuild]
| emits_frontier d ready watch l :
    TargetConfirmHeight (PlannerState j) = None →
    split_inv p margin j (default (Height j) anchor)
      (sn_Ready (plan_snapshot p (Height j) (PlannerState j))) d ready watch →
    (∀ x, x ∈ l ↔ x ∈ InFlightTxids (PlannerState j) ∨ x ∈ ready) →
    emits j anchor
      (AwaitingMaterialization (Some (Copy (set_InFlight (set_DeferredCheckpoints j d) l))))
      ((if bool_decide (watch ≠ []) then [WatchDeferredCheckpoints (sortHashes watch)]
        else []) ++
       (if bool_decide (ready ≠ []) then [EnsureReadyTransactions (sortHashes ready)]
        else [])).

Lemma derive_emits j re anchor tr :
  job_ok p j → deriveStateTransition (Some j) (env_of p margin) re anchor = Ok tr →
  FailReason j ≠ EmptyString ∧ emitted tr = [] ∨
  FailReason j = EmptyString ∧
  ∃ out, emitted tr = reissue_outbox j re ++ out ∧ emits j anchor (NextState tr) out.
Proof.
  intros Hok HD. destruct (derive_inv p margin j re anchor tr) as
    [_ [[Hr ->]|(Hr & Hm & ->)]]; [apply Hok..|done|by left|]. right. split; [done|].
  pose proof (phase_cases p margin j anchor (reissue_outbox j re) Hok Hm) as HP.
  cbv zeta in HP.
  destruct (sw_Status (Sweep (PlannerState j))) eqn:Hst; [| | |done].
  - destruct (TargetConfirmHeight (PlannerState j)) as [k|] eqn:Hk.
    + rewrite HP. destruct (Z.leb_spec (k + csvDelay p) (Height j)).
      * rewrite (proj1 (emitted_transition _ _)), (proj2 (emitted_transition _ _)).
        destruct (bool_decide (RejectedSweep j = None) || (RepriceAfter j <? Height j)%Z)
          eqn:Hrej.
        -- eexists. split; [done|]. apply (emits_sweep j anchor k); [done..|].
           apply orb_true_iff in Hrej as [?%bool_decide_eq_true_1|?%Z.ltb_lt]; auto.
        -- exists []. rewrite app_nil_r. split; [done|constructor].
      * rewrite (proj1 (emitted_transition _ _)), (proj2 (emitted_transition _ _)).
        exists []. rewrite app_nil_r. split; [done|constructor].
    + rewrite HP. destruct (materialize_spec p margin j anchor (reissue_outbox j re) Hok)
        as (d & ready & watch & l & Hsp & Hnd & Hl & ->).
      rewrite (proj1 (emitted_transition _ _)), (proj2 (emitted_transition _ _)).
      eexists. split; [reflexivity|]. by apply emits_frontier.
  - rewrite HP, (proj1 (emitted_transition _ _)), (proj2 (emitted_transition _ _)).
    exists []. rewrite app_nil_r. split; [done|constructor].
  - rewrite HP, (proj1 (emitted_transition _ _)), (proj2 (emitted_transition _ _)).
    exists []. rewrite app_nil_r. split; [done|constructor].
Qed.

Lemma reissue_no_release j re ev :
  ev ∈ reissue_outbox j re → ev ≠ RequestSweepBuild ∧ ∀ xs, ev ≠ EnsureReadyTransactions xs.
Proof.
  unfold reissue_outbox. destruct re; [|by intros ?%not_elem_of_nil].
  rewrite !elem_of_app.
  intros [Hin|[Hin|Hin]]; destruct (bool_decide _);
    try (by apply not_elem_of_nil in Hin); apply list_elem_of_singleton in Hin as ->; done.
Qed.

(** Where a released frontier comes from. *)
Lemma emitted_ready s e tr xs :
  state_ok p s → fsm_step p margin s e tr → EnsureReadyTransactions xs ∈ emitted tr →
  ∃ j re anchor d ready watch l,
    from_event p margin s e j re anchor ∧ job_ok p j ∧ FailReason j = EmptyString ∧
    TargetConfirmHeight (PlannerState j) = None ∧
    split_inv p margin j (default (Height j) anchor)
      (sn_Ready (plan_snapshot p (Height j) (PlannerState j))) d ready watch ∧
    (∀ x, x ∈ l ↔ x ∈ InFlightTxids (PlannerState j) ∨ x ∈ ready) ∧
    xs = sortHashes ready ∧
    NextState tr = AwaitingMaterialization
      (Some (Copy (set_InFlight (set_DeferredCheckpoints j d) l))).
Proof.
  intros Hs Hstep Hin. destruct (step_inv p margin s e tr Hs Hstep)
    as (j & re & anchor & j1 & Hfrom & Hok & HD & _).
  destruct (derive_emits j re anchor tr Hok HD) as [[_ Hem]|(Hr & out & Hem & Hout)].
  { rewrite Hem in Hin. by apply not_elem_of_nil in Hin. }
  rewrite Hem, elem_of_app in Hin. destruct Hin as [Hin|Hin].
  { apply reissue_no_release in Hin as [_ Hn]. by destruct (Hn xs). }
  destruct Hout as [s'|k|d ready watch l Hk Hsp Hl].
  - by apply not_elem_of_nil in Hin.
  - by apply list_elem_of_singleton in Hin.
  - exists j, re, anchor, d, ready, watch, l. split_and!; [done..| |done].
    rewrite elem_of_app in Hin.
    destruct Hin as [Hin|Hin]; destruct (bool_decide _);
      try (by apply not_elem_of_nil in Hin); apply list_elem_of_singleton in Hin; congruence.
Qed.

Lemma ready_spec j x :
  x ∈ tf_Txid <$> sn_Ready (plan_snapshot p (Height j) (PlannerState j)) ↔
  x ∈ dom (nodes p) ∧ x ∉ ConfirmedTxids (PlannerState j) ∧
  x ∉ InFlightTxids (PlannerState j) ∧
  ∀ q, q ∈ adj (parents p) x → q ∈ ConfirmedTxids (PlannerState j).
Proof.
  cbn [plan_snapshot sn_Ready]. rewrite (plan_ready_elem p), !elem_of_list_to_set.
  by setoid_rewrite elem_of_list_to_set.
Qed.

(** Only a confirmation or a failure takes a transaction out of flight. *)
Lemma apply_event_inflight j e x :
  x ∈ InFlightTxids (PlannerState j) →
  x ∈ InFlightTxids (PlannerState (apply_event j e (env_of p margin)).1.1) ∨
  (∃ h, e = TxConfirmedEvent x h ∧
     x ∈ ConfirmedTxids (PlannerState (apply_event j e (env_of p margin)).1.1)) ∨
  (∃ r c b, e = TxFailedEvent x r c b ∧
     FailReason (apply_event j e (env_of p margin)).1.1 = r).
Proof.
  intros Hx. destruct e as [h t k r|h|h|y h|y r c b|y|r c|r]; simpl.
  - left. destruct (raise_height_fields j h) as (Hp & _).
    destruct (bool_decide _); simpl; by rewrite Hp.
  - left. by rewrite (proj1 (raise_height_fields j h)).
  - left. by rewrite (proj1 (raise_height_fields j h)).
  - unfold applyConfirmedEvent. destruct (bool_decide _).
    { left. by rewrite (proj1 (raise_height_fields _ _)). }
    rewrite (proj1 (raise_height_fields _ _)). simpl. destruct (decide (x = y)) as [->|Hne].
    + right. left. exists h. split; [done|]. rewrite elem_of_appendUniqueSorted. set_solver.
    + left. by apply elem_of_removeHash.
  - unfold applyFailedEvent. destruct (bool_decide _); [by left|].
    destruct (bool_decide (sw_Txid _ = _)).
    + left. destruct (_ || _).
      * by destruct (bool_decide (RejectedSweep j = None)).
      * unfold applySweepBuildFailed. by destruct (_ <=? _)%Z.
    + destruct (decide (x = y)) as [->|Hne].
      * right. right. eauto.
      * left. simpl. by apply elem_of_removeHash.
  - by left.
  - by left.
  - left. unfold applySweepBuildFailed. by destruct (_ <=? _)%Z.
Qed.

(** ** Events that are always accepted *)

Lemma live_process s e :
  IsTerminal s = false → s ≠ Idle →
  ProcessEvent s e (env_of p margin) = processEventWithJob (state_job s) e (env_of p margin).
Proof. by destruct s. Qed.

(** A live state accepts an event whose application leaves a valid job. *)
Lemma live_accepts s j e :
  state_job s = Some j → IsTerminal s = false → event_ok s e →
  let r := apply_event (Copy j) e (env_of p margin) in
  job_ok p r.1.1 → FailReason r.1.1 ≠ EmptyString ∨ matures p (PlannerState r.1.1) →
  ∃ tr, fsm_step p margin s e tr ∧
    deriveStateTransition (Some r.1.1) (env_of p margin) r.1.2 r.2 = Ok tr.
Proof.
  intros Hj Ht He r Hok Hm.
  destruct (derive_complete p margin r.1.1 r.1.2 r.2 Hok Hm) as [tr HD]. exists tr.
  split; [|done]. constructor; [done|].
  rewrite live_process by (done || by intros ->). rewrite Hj. simpl.
  by destruct (apply_event (Copy j) e (env_of p margin)) as [[j' re] anchor].
Qed.

(** While something is in flight the target is unconfirmed and the sweep
    untouched. *)
Lemma inflight_pending j x :
  job_ok p j → x ∈ InFlightTxids (PlannerState j) →
  TargetConfirmHeight (PlannerState j) = None ∧
  sw_Status (Sweep (PlannerState j)) = SweepStatusPending ∧
  sw_Txid (Sweep (PlannerState j)) = None ∧
  sw_ConfirmHeight (Sweep (PlannerState j)) = None.
Proof.
  intros Hok Hx. pose proof (jo_state _ _ Hok) as Hv.
  assert (TargetConfirmHeight (PlannerState j) = None) as Hn.
  { destruct (TargetConfirmHeight (PlannerState j)) as [k|] eqn:Hk; [|done]. exfalso.
    apply (vs_disjoint _ _ Hv x); [|done].
    apply (elem_of_list_to_set (C:=gset Hash)), (valid_target_all p); [done| |].
    - apply (vs_target _ _ Hv). eauto.
    - by apply (vs_inflight_dom _ _ Hv). }
  split; [done|]. destruct (vs_sweep _ _ Hv) as [_ Hs]. rewrite Hn in Hs.
  destruct (sw_Status _); [tauto| | |done].
  - destruct Hs as (_ & _ & [? ?]). done.
  - destruct Hs as (_ & ? & ? & _ & ? & _). done.
Qed.

(** Confirming an in-flight transaction keeps the job valid. *)
Lemma confirm_job_ok j x h :
  job_ok p j → x ∈ InFlightTxids (PlannerState j) → is_int32 h → (0 ≤ h)%Z →
  let j' := applyConfirmedEvent j x h (env_of p margin) in
  job_ok p j' ∧ FailReason j' = FailReason j ∧ Trigger j' = Trigger j ∧
  Sweep (PlannerState j') = Sweep (PlannerState j) ∧
  TargetConfirmHeight (PlannerState j') = (if bool_decide (x = target p) then Some h else None) ∧
  (∀ y, y ∈ ConfirmedTxids (PlannerState j') ↔ y ∈ ConfirmedTxids (PlannerState j) ∨ y = x).
Proof.
  intros Hok Hx Hi Hpos. destruct (inflight_pending j x Hok Hx) as (Hk & Hst & Htx & Hch).
  pose proof Hok as [H1 H2 H3 H4 H5]. destruct H2 as [V1 V2 V3 V4 V5 V6 V7 V8 V9].
  unfold applyConfirmedEvent, env_of. cbv zeta. rewrite Htx.
  rewrite (bool_decide_eq_false_2 (None = Some x)) by done. cbn [EnvProof].
  unfold TargetOutpoint. fold (target p). rewrite Hk, (bool_decide_eq_true_2 (None = None)) by done.
  rewrite andb_true_r.
  match goal with |- context [raise_height ?a ?b] =>
    destruct (raise_height_fields a b) as (Hp & Hd & Ht & Hf & _ & _) end.
  rewrite Hp, Ht, Hf. cbn [PlannerState set_PlannerState set_DeferredCheckpoints
    ConfirmedTxids TargetConfirmHeight Sweep FailReason Trigger].
  assert (∀ y, y ∈ appendUniqueSorted (ConfirmedTxids (PlannerState j)) [x] ↔
    y ∈ ConfirmedTxids (PlannerState j) ∨ y = x) as Hc.
  { intros y. by rewrite elem_of_appendUniqueSorted, list_elem_of_singleton. }
  split_and!; [|done..]. constructor; rewrite ?Hp, ?Hd, ?Ht; cbn [PlannerState
    set_PlannerState set_DeferredCheckpoints DeferredCheckpoints Trigger].
  - intros k Hk0. simpl in Hk0. destruct (bool_decide _); by simplify_eq.
  - constructor; simpl; try setoid_rewrite Hc; try setoid_rewrite elem_of_removeHash.
    + by apply appendUniqueSorted_spec.
    + by apply NoDup_filter.
    + intros y [Hy| ->]; [|tauto]. intros [_ ?]. by eapply V3.
    + intros y [Hy| ->]; auto.
    + intros y [_ ?]. auto.
    + rewrite Hk in V6. destruct (bool_decide (x = target p)) eqn:Hxt; zbool; [subst x|].
      * split; [by right|eauto].
      * split; [by intros [? ?]|]. intros [[? ?]%V6|?]; [done|congruence].
    + intros k Hk0. destruct (bool_decide _); by simplify_eq.
    + split; [by rewrite Htx|]. by rewrite Hst, Htx, Hch.
    + intros y q [[Hy| ->]|[_ Hy]] Hq; left; eauto.
  - destruct H3 as [D1 D2 D3 D4]. constructor; simpl.
    + by apply removeDeferred_nodup.
    + intros c [_ ?]%elem_of_removeDeferred. auto.
    + intros c [? ?]%elem_of_removeDeferred. rewrite Hc. intros [Hcc|?]; [|done].
      by eapply D3.
    + intros c [_ ?]%elem_of_removeDeferred. rewrite elem_of_removeHash. intros [_ ?].
      by eapply D4.
  - intros Hne. apply H4. intros Hnil. apply Hne. by rewrite Hnil.
  - exact H5.
Qed.

Lemma Copy_inflight j x :
  x ∈ InFlightTxids (PlannerState (Copy j)) ↔ x ∈ InFlightTxids (PlannerState j).
Proof. apply elem_of_sortHashes. Qed.

Lemma Copy_confirmed j x :
  x ∈ ConfirmedTxids (PlannerState (Copy j)) ↔ x ∈ ConfirmedTxids (PlannerState j).
Proof. apply elem_of_sortHashes. Qed.

Lemma handed_out_fields j j1 :
  handed_out j j1 →
  Height j1 = Height j ∧ Trigger j1 = Trigger j ∧
  ConfirmedTxids (PlannerState j1) = ConfirmedTxids (PlannerState j) ∧
  TargetConfirmHeight (PlannerState j1) = TargetConfirmHeight (PlannerState j) ∧
  Sweep (PlannerState j1) = Sweep (PlannerState j) ∧
  SweepAttempts j1 = SweepAttempts j ∧ FailReason j1 = FailReason j.
Proof. by intros (d & l & -> & _). Qed.

Lemma confirm_accepted s j x h :
  fsm_reachable p margin s → state_job s = Some j → IsTerminal s = false →
  x ∈ InFlightTxids (PlannerState j) → is_int32 h → (0 ≤ h)%Z →
  (x = target p → h + csvDelay p ≤ MaxInt32)%Z →
  ∃ tr j', fsm_step p margin s (TxConfirmedEvent x h) tr ∧
    state_job (NextState tr) = Some j' ∧ IsTerminal (NextState tr) = false ∧
    Trigger j' = Trigger j ∧
    (∀ y, y ∈ ConfirmedTxids (PlannerState j') ↔
       y ∈ ConfirmedTxids (PlannerState j) ∨ y = x) ∧
    TargetConfirmHeight (PlannerState j') = (if bool_decide (x = target p) then Some h else None).
Proof.
  intros Hr Hj Ht Hx Hi Hpos Hov.
  destruct (live_job s j Hr Hj Ht) as (Hok & Hf & Hst & Hm).
  apply job_ok_copy in Hok as Hokc.
  destruct (confirm_job_ok (Copy j) x h Hokc) as (Hok' & Hf' & Htr' & Hsw' & Hk' & Hc');
    [by apply Copy_inflight|done..|].
  destruct (live_accepts s j (TxConfirmedEvent x h) Hj Ht) as (tr & Hstep & HD).
  - by split.
  - exact Hok'.
  - right. intros k Hk0. simpl in Hk0. rewrite Hk' in Hk0.
    destruct (bool_decide (x = target p)) eqn:Hxt; simplify_eq. zbool. auto.
  - cbn [apply_event fst snd] in HD. destruct (derive_next p margin _ _ _ _ (jo_int32 _ _ Hok')
      (jo_trigger _ _ Hok') HD) as (_ & j1 & Hj1 & _ & Hh & _).
    destruct (handed_out_fields _ _ Hh) as (_ & Htr1 & Hc1 & Hk1 & _ & _ & Hf1).
    exists tr, (Copy j1). split_and!; [exact Hstep|exact Hj1| | | |].
    + pose proof (derive_phase _ _ _ _ Hok' HD) as Hph.
      destruct (NextState tr) as [|o|o|o|o|o|o]; try done; simpl in Hj1; subst o;
        simpl in Hph.
      * destruct Hph as (_ & Hs & _). destruct Hh as (d & l & -> & _). simpl in Hs.
        rewrite Hsw' in Hs. simpl in Hs. congruence.
      * destruct Hph. by rewrite Hf1, Hf'.
    + simpl. by rewrite Htr1.
    + intros y. rewrite Copy_confirmed, Hc1, Hc', Copy_confirmed. done.
    + simpl. by rewrite Hk1.
Qed.
End exit.

(** ** Running the machine *)

#[export] Instance event_int32_dec e : Decision (event_int32 e).
Proof. destruct e; apply _. Defined.
#[export] Instance keeps_trigger_dec s e : Decision (keeps_trigger s e).
Proof. unfold keeps_trigger. destruct e; try apply _. destruct (state_job s); apply _. Defined.
#[export] Instance event_ok_dec s e : Decision (event_ok s e).
Proof. unfold event_ok. apply _. Defined.

Section run.
Context `{!Chain} (p : Proof_) (margin : Z).

(** Feeds the events in order; the first refused one stops the run. *)
Fixpoint run (s : State) (es : list Event) : result error State :=
  match es with
  | [] => Ok s
  | e :: es =>
      guard* bool_decide (event_ok s e) else "event not well-formed" in
      let* tr := ProcessEvent s e (env_of p margin) in run (NextState tr) es
  end.

Lemma run_app s es es' :
  run s (es ++ es') = let* s' := run s es in run s' es'.
Proof.
  revert s. induction es as [|e es IH]; intros s; simpl; [done|].
  destruct (bool_decide _); [|done]. by destruct (ProcessEvent _ _ _).
Qed.

Lemma run_reachable s es s' :
  fsm_reachable p margin s → run s es = Ok s' → fsm_reachable p margin s'.
Proof.
  revert s. induction es as [|e es IH]; intros s Hs; simpl; [by intros [= <-]|].
  intros HR. inv_ok. zbool. eapply IH; [|done]. eapply reach_step; [done|]. by constructor.
Qed.
End run.

(** ** The deferral deadline *)

(** The deadline arithmetic without wrap-around. *)
Lemma backstop_bounds h csv m :
  is_int32 m → (0 ≤ h)%Z → (1 ≤ csv ≤ MaxCSVDelay)%Z → (h + csv ≤ MaxInt32)%Z →
  let d := checkpointBackstopHeight h csv m in
  let eff := if (m <=? 0)%Z then defaultFraudCheckpointSafetyMargin else m in
  (h < d ≤ h + csv)%Z ∧ ((eff < csv)%Z → d = (h + csv - eff)%Z).
Proof.
  unfold is_int32, MaxCSVDelay, MaxInt32. intros Hm Hh Hc Ho. cbv zeta.
  unfold checkpointBackstopHeight, defaultFraudCheckpointSafetyMargin.
  rewrite (int32_id csv) by (unfold is_int32; lia).
  rewrite (int32_id (h + csv)) by (unfold is_int32; lia).
  assert (0 ≤ Z.quot csv 2 < csv)%Z as Hq.
  { rewrite Z.quot_div_nonneg by lia. split; [apply Z.div_pos; lia|].
    apply Z.div_lt; lia. }
  set (q := Z.quot csv 2) in *. clearbody q.
  destruct (Z.leb_spec m 0); [destruct (Z.leb_spec csv 24)|destruct (Z.leb_spec csv m)];
    rewrite int32_id by (unfold is_int32; lia); lia.
Qed.

(** ** Driving an exit to completion *)

Section completion.
Context `{!Chain} (p : Proof_) `{!WfProof p} (margin : Z).

Definition steps_to (s s' : State) : Prop := ∃ es, run p margin s es = Ok s'.

Lemma steps_to_refl s : steps_to s s.
Proof. by exists []. Qed.

Lemma steps_to_step s e tr s' :
  fsm_step p margin s e tr → steps_to (NextState tr) s' → steps_to s s'.
Proof.
  intros Hs [es Hes]. destruct Hs as [s e tr He HP]. exists (e :: es). simpl.
  by rewrite bool_decide_eq_true_2, HP.
Qed.

Lemma steps_to_trans s1 s2 s3 : steps_to s1 s2 → steps_to s2 s3 → steps_to s1 s3.
Proof.
  intros [es1 H1] [es2 H2]. exists (es1 ++ es2). by rewrite run_app, H1.
Qed.

(** An event that only touches the height or the sweep of a live job. *)
Lemma sweep_step_ok j j' sw :
  job_ok p j → PlannerState j' =
    mkState (ConfirmedTxids (PlannerState j)) (InFlightTxids (PlannerState j))
      (TargetConfirmHeight (PlannerState j)) sw →
  DeferredCheckpoints j' = DeferredCheckpoints j → Trigger j' = Trigger j →
  valid_sweep p sw (TargetConfirmHeight (PlannerState j)) → job_ok p j'.
Proof.
  intros [H1 H2 H3 H4 H5] Hp Hd Ht Hs. constructor; rewrite ?Hp, ?Hd, ?Ht; try done.
  - destruct H2. by constructor.
  - destruct H3. by constructor.
Qed.

Lemma height_accepted s j h :
  fsm_reachable p margin s → state_job s = Some j → IsTerminal s = false → is_int32 h →
  ∃ tr j', fsm_step p margin s (HeightUpdatedEvent h) tr ∧
    state_job (NextState tr) = Some j' ∧ IsTerminal (NextState tr) = false ∧
    TargetConfirmHeight (PlannerState j') = TargetConfirmHeight (PlannerState j) ∧
    Sweep (PlannerState j') = Sweep (PlannerState j) ∧
    Height j' = Z.max (Height j) h.
Proof.
  intros Hr Hj Ht Hi. destruct (live_job p margin s j Hr Hj Ht) as (Hok & Hf & Hst & Hm).
  apply job_ok_copy in Hok as Hokc.
  destruct (raise_height_fields (Copy j) h) as (Hp & Hd & Htr & Hfr & _ & Hh).
  assert (job_ok p (raise_height (Copy j) h)) as Hok'.
  { apply (sweep_step_ok (Copy j) _ (Sweep (PlannerState (Copy j)))); [done|done|done..|].
    apply (vs_sweep _ _ (jo_state _ _ Hokc)). }
  destruct (live_accepts p margin s j (HeightUpdatedEvent h) Hj Ht) as (tr & Hstep & HD).
  - by split.
  - exact Hok'.
  - right. cbn [apply_event fst snd]. by rewrite Hp.
  - cbn [apply_event fst snd] in HD. destruct (derive_next p margin _ _ _ _
      (jo_int32 _ _ Hok') (jo_trigger _ _ Hok') HD) as (_ & j1 & Hj1 & _ & Hho & _).
    pose proof (derive_phase p margin _ _ _ _ Hok' HD) as Hph.
    destruct (handed_out_fields _ _ Hho) as (Hh1 & _ & _ & Hk1 & Hs1 & _ & Hf1).
    exists tr, (Copy j1). split; [exact Hstep|]. split; [exact Hj1|].
    assert (Sweep (PlannerState (Copy j1)) = Sweep (PlannerState j)) as Hsw.
    { change (Sweep (PlannerState j1) = Sweep (PlannerState (Copy j))). by rewrite Hs1, Hp. }
    split_and!; [|by change (TargetConfirmHeight (PlannerState j1) =
      TargetConfirmHeight (PlannerState (Copy j))); rewrite Hk1, Hp|done|
      by change (Height j1 = Z.max (Height (Copy j)) h); rewrite Hh1, Hh].
    destruct (NextState tr) as [|o|o|o|o|o|o]; try done; simpl in Hj1; subst o;
      cbn [phase_ok] in Hph.
    + destruct Hph as (_ & Hs & _). rewrite Hsw in Hs. done.
    + destruct Hph. change (FailReason j1 = EmptyString). by rewrite Hf1, Hfr.
Qed.

(** With the target confirmed, the sweep can be announced and its confirmation
    at maturity completes the job. *)
Lemma sweep_broadcast_accepted s j k x :
  fsm_reachable p margin s → state_job s = Some j → IsTerminal s = false →
  TargetConfirmHeight (PlannerState j) = Some k → x ∉ dom (nodes p) →
  ∃ tr j', fsm_step p margin s (SweepBroadcastedEvent x) tr ∧
    NextState tr = AwaitingSweepConfirmation (Some j') ∧
    TargetConfirmHeight (PlannerState j') = Some k ∧
    sw_Txid (Sweep (PlannerState j')) = Some x.
Proof.
  intros Hr Hj Ht Hk Hx. destruct (live_job p margin s j Hr Hj Ht) as (Hok & Hf & Hst & Hm).
  apply job_ok_copy in Hok as Hokc.
  assert (sw_ConfirmHeight (Sweep (PlannerState j)) = None) as Hch.
  { destruct (vs_sweep _ _ (jo_state _ _ Hok)) as [_ Hs].
    destruct (sw_Status _); [tauto..|done|done]. }
  set (j' := (apply_event (Copy j) (SweepBroadcastedEvent x) (env_of p margin)).1.1).
  assert (job_ok p j') as Hok'.
  { eapply sweep_step_ok; [done|done|done|done|]. split; [by intros ? [= <-]|]. simpl.
    rewrite Hch, Hk. split_and!; eauto. }
  destruct (live_accepts p margin s j (SweepBroadcastedEvent x) Hj Ht) as (tr & Hstep & HD).
  - by split.
  - exact Hok'.
  - right. exact Hm.
  - destruct (derive_inv p margin j' _ _ tr (jo_int32 _ _ Hok') (jo_trigger _ _ Hok') HD)
      as (_ & [[Hn _]|(_ & _ & Htr)]); [by destruct Hn|].
    pose proof (phase_cases p margin j' None (reissue_outbox j' false) Hok' Hm) as HP.
    cbn -[phase_transition plan_snapshot env_of] in HP.
    exists tr, (Copy j'). split_and!; [done| |done|done].
    rewrite Htr. etrans; [exact (f_equal NextState HP)|done].
Qed.

Lemma sweep_confirm_completes s j k x h :
  fsm_reachable p margin s → s = AwaitingSweepConfirmation (Some j) →
  TargetConfirmHeight (PlannerState j) = Some k →
  sw_Txid (Sweep (PlannerState j)) = Some x → is_int32 h → (k + csvDelay p ≤ h)%Z →
  ∃ tr j', fsm_step p margin s (TxConfirmedEvent x h) tr ∧
    NextState tr = Completed (Some j').
Proof.
  intros Hr Hs Hk Htx Hi Hle.
  assert (state_job s = Some j ∧ IsTerminal s = false) as [Hj Ht] by (by subst s).
  destruct (live_job p margin s j Hr Hj Ht) as (Hok & Hf & Hst & Hm).
  apply job_ok_copy in Hok as Hokc.
  pose proof (vs_height _ _ (jo_state _ _ Hok) k Hk) as Hkpos. pose proof wf_csv as Hcsv.
  set (j' := (apply_event (Copy j) (TxConfirmedEvent x h) (env_of p margin)).1.1).
  assert (PlannerState j' = mkState (ConfirmedTxids (PlannerState (Copy j)))
    (InFlightTxids (PlannerState (Copy j))) (Some k)
    (mkSweepState SweepStatusConfirmed (Some x) (Some h)) ∧
    DeferredCheckpoints j' = DeferredCheckpoints (Copy j) ∧ Trigger j' = Trigger (Copy j) ∧
    FailReason j' = EmptyString) as (Hp & Hd & Htr & Hfr).
  { unfold j'. cbn [apply_event fst]. unfold applyConfirmedEvent.
    change (Sweep (PlannerState (Copy j))) with (Sweep (PlannerState j)).
    rewrite Htx, bool_decide_eq_true_2 by done.
    match goal with |- context [raise_height ?a ?b] =>
      destruct (raise_height_fields a b) as (-> & -> & -> & -> & _) end.
    simpl. by rewrite Hk, Hf. }
  assert (job_ok p j') as Hok'.
  { eapply sweep_step_ok; [exact Hokc| |done|done|].
    - rewrite Hp. change (TargetConfirmHeight (PlannerState (Copy j))) with
        (TargetConfirmHeight (PlannerState j)). by rewrite Hk.
    - change (TargetConfirmHeight (PlannerState (Copy j))) with
        (TargetConfirmHeight (PlannerState j)). rewrite Hk. split.
      + destruct (vs_sweep _ _ (jo_state _ _ Hok)) as [Hcol _]. by rewrite Htx in Hcol.
      + simpl. split; [eauto|]. exists h, k. specialize (Hm k Hk). split_and!; done || lia. }
  assert (matures p (PlannerState j')) as Hm'.
  { rewrite Hp. intros ? [= <-]. by apply Hm. }
  destruct (live_accepts p margin s j (TxConfirmedEvent x h) Hj Ht) as (tr & Hstep & HD).
  - by split.
  - exact Hok'.
  - by right.
  - destruct (derive_inv p margin j' _ _ tr (jo_int32 _ _ Hok') (jo_trigger _ _ Hok') HD)
      as (_ & [[Hn _]|(_ & _ & Htr')]); [by destruct Hn|].
    pose proof (phase_cases p margin j' (Some h) (reissue_outbox j' false) Hok' Hm') as HP.
    assert (sw_Status (Sweep (PlannerState j')) = SweepStatusConfirmed) as Hsc
      by (by rewrite Hp). cbv zeta in HP. rewrite Hsc in HP.
    exists tr, (Copy j'). split; [done|].
    rewrite Htr'. etrans; [exact (f_equal NextState HP)|done].
Qed.

(** From a confirmed target to completion. *)
Lemma finish_sweep s j k x :
  fsm_reachable p margin s → state_job s = Some j → IsTerminal s = false →
  TargetConfirmHeight (PlannerState j) = Some k → x ∉ dom (nodes p) →
  ∃ j', steps_to s (Completed (Some j')).
Proof.
  intros Hr Hj Ht Hk Hx.
  destruct (live_job p margin s j Hr Hj Ht) as (Hok & _ & _ & Hm).
  pose proof (vs_height _ _ (jo_state _ _ Hok) k Hk) as Hkpos. pose proof wf_csv as Hcsv.
  specialize (Hm k Hk).
  assert (is_int32 (k + csvDelay p)) as Hi by (unfold is_int32, MaxInt32 in *; lia).
  destruct (height_accepted s j (k + csvDelay p) Hr Hj Ht Hi)
    as (tr0 & j0 & Hstep0 & Hj0 & Ht0 & Hk0 & _).
  assert (fsm_reachable p margin (NextState tr0)) as Hr0 by (by eapply reach_step).
  rewrite Hk in Hk0. destruct (sweep_broadcast_accepted (NextState tr0) j0 k x Hr0 Hj0 Ht0 Hk0 Hx)
    as (tr & j1 & Hstep & Hns & Hk1 & Htx).
  assert (fsm_reachable p margin (NextState tr)) as Hr1 by (by eapply reach_step).
  destruct (sweep_confirm_completes (NextState tr) j1 k x (k + csvDelay p) Hr1 Hns Hk1 Htx)
    as (tr2 & j2 & Hstep2 & Hns2); [done|lia|].
  exists j2. do 2 (eapply steps_to_step; [done|]). eapply steps_to_step; [done|].
  rewrite Hns2. apply steps_to_refl.
Qed.

(** Unconfirmed proof transactions of a job. *)
Definition unconfirmed (j : JobState) : gset Hash :=
  dom (nodes p) ∖ list_to_set (ConfirmedTxids (PlannerState j)).

(** From materialization to a confirmed target, one confirmation at a time. *)
Lemma finish_materialization n s j h :
  fsm_reachable p margin s → state_job s = Some j → IsTerminal s = false →
  Trigger j ≠ TriggerFraudSpend → size (unconfirmed j) = n →
  is_int32 h → (0 ≤ h)%Z → (h + csvDelay p ≤ MaxInt32)%Z →
  ∃ s' j' k, steps_to s s' ∧ fsm_reachable p margin s' ∧ state_job s' = Some j' ∧
    IsTerminal s' = false ∧ TargetConfirmHeight (PlannerState j') = Some k.
Proof.
  revert s j. induction n as [n IH] using lt_wf_ind. intros s j Hr Hj Ht Htr Hn Hi Hpos Hov.
  destruct (live_job p margin s j Hr Hj Ht) as (Hok & _ & _ & _).
  destruct (TargetConfirmHeight (PlannerState j)) as [k|] eqn:Hk.
  { exists s, j, k. split_and!; [apply steps_to_refl|done..]. }
  assert (InFlightTxids (PlannerState j) ≠ []) as Hne.
  { apply (reachable_phase p margin) in Hr as Hph.
    destruct s as [|o|o|o|o|o|o]; try done; simpl in Hj; subst o; cbn [phase_ok] in Hph.
    - destruct Hph as (_ & _ & _ & [?|(c & Hc & _)]); [done|]. destruct Htr.
      apply (jo_trigger _ _ Hok). intros Hnil. rewrite Hnil in Hc.
      by apply not_elem_of_nil in Hc.
    - destruct Hph as (_ & _ & k & ? & _). congruence.
    - destruct Hph as (_ & _ & k & ? & _). congruence.
    - destruct Hph as (_ & _ & _ & k & ? & _). congruence. }
  destruct (InFlightTxids (PlannerState j)) as [|x l] eqn:Hin; [done|].
  assert (x ∈ InFlightTxids (PlannerState j)) as Hx by (rewrite Hin; constructor).
  destruct (confirm_accepted p margin s j x h Hr Hj Ht Hx Hi Hpos)
    as (tr & j' & Hstep & Hj' & Ht' & Htr' & Hc' & _); [done|].
  assert (x ∈ unconfirmed j) as Hxu.
  { unfold unconfirmed. rewrite elem_of_difference, elem_of_list_to_set. split.
    - by apply (vs_inflight_dom _ _ (jo_state _ _ Hok)).
    - intros Hxc. by apply (vs_disjoint _ _ (jo_state _ _ Hok) x). }
  destruct (IH (size (unconfirmed j'))) with (s := NextState tr) (j := j')
    as (s' & j'' & k & Hst & ?); try done.
  - rewrite <-Hn. apply subset_size. split.
    + intros y. unfold unconfirmed. rewrite !elem_of_difference, !elem_of_list_to_set, Hc'.
      tauto.
    + intros Hsub. apply Hsub in Hxu. unfold unconfirmed in Hxu.
      rewrite elem_of_difference, elem_of_list_to_set, Hc' in Hxu. tauto.
  - by eapply reach_step.
  - by rewrite Htr'.
  - exists s', j'', k. split; [|done]. by eapply steps_to_step.
Qed.
End completion.

(** ** Sweep failures *)

(** The event, if it is a failure, says why. *)
Definition named_failure (e : Event) : Prop :=
  match e with
  | TxFailedEvent _ r _ _ | FailEvent r _ | SweepBuildFailedEvent r => r ≠ EmptyString
  | _ => True
  end.

Section failures.
Context `{!Chain} (p : Proof_) `{!WfProof p} (margin : Z).

(** A fee-rejected candidate is remembered only while no sweep is out. *)
Definition rejected_ok (j : JobState) : Prop :=
  is_Some (sw_Txid (Sweep (PlannerState j))) → RejectedSweep j = None.

Lemma apply_event_rejected j e :
  rejected_ok j → rejected_ok (apply_event j e (env_of p margin)).1.1.
Proof.
  intros Hj.
  assert (∀ j0 h, rejected_ok j0 → rejected_ok (raise_height j0 h)) as Hraise.
  { intros j0 h. unfold raise_height. by destruct (_ <? _)%Z. }
  assert (∀ r, rejected_ok (applySweepBuildFailed j r)) as Hbuild.
  { intros r. unfold applySweepBuildFailed. destruct (_ <=? _)%Z; [exact Hj|].
    by intros [? ?]. }
  destruct e as [h t k r|h|h|y h|y r c b|y|r c|r]; cbn [apply_event fst];
    [|by apply Hraise|by apply Hraise| | |done|exact Hj|apply Hbuild].
  - assert (rejected_ok (set_Trigger (raise_height j h) t)) by (by apply Hraise).
    by destruct (bool_decide _).
  - unfold applyConfirmedEvent. destruct (bool_decide _); by apply Hraise.
  - unfold applyFailedEvent. destruct (bool_decide _); [done|].
    destruct (bool_decide (sw_Txid _ = _)); [|exact Hj].
    destruct (_ || _); [|apply Hbuild].
    destruct (bool_decide (RejectedSweep j = None)); by intros [? ?].
Qed.

Lemma reachable_rejected s j :
  fsm_reachable p margin s → state_job s = Some j → rejected_ok j.
Proof.
  intros Hr. revert j. induction Hr as [|s e tr Hr IH Hstep]; intros j Hj; [done|].
  destruct (step_inv p margin s e tr (reachable_ok p margin s Hr) Hstep)
    as (ja & re & anchor & j1 & Hfrom & _ & _ & Hj1 & _ & Hh).
  rewrite Hj1 in Hj. injection Hj as <-.
  assert (rejected_ok ja) as Hja.
  { destruct Hfrom as [? ? ? ? _ _|? _ _|j0 ja re' anchor' Hj0 _ Ha _]; [done..|].
    assert (rejected_ok (Copy j0)) as H0 by exact (IH j0 Hj0).
    apply (apply_event_rejected _ e) in H0. by rewrite Ha in H0. }
  by destruct Hh as (d & l & -> & _).
Qed.

Definition attempts_ok (j : JobState) : Prop :=
  (0 ≤ SweepAttempts j ≤ maxSweepAttempts)%Z ∧
  (SweepAttempts j = maxSweepAttempts → FailReason j ≠ EmptyString).

Lemma apply_event_attempts j e :
  named_failure e → (0 ≤ SweepAttempts j < maxSweepAttempts)%Z →
  attempts_ok (apply_event j e (env_of p margin)).1.1.
Proof.
  unfold maxSweepAttempts. intros Hn Hj.
  assert (∀ j0, SweepAttempts j0 = SweepAttempts j → attempts_ok j0) as Hsame.
  { intros j0 H0. unfold attempts_ok, maxSweepAttempts. rewrite H0. lia. }
  assert (∀ r, r ≠ EmptyString → attempts_ok (applySweepBuildFailed j r)) as Hbuild.
  { intros r Hr. unfold applySweepBuildFailed, attempts_ok, maxSweepAttempts.
    cbn [SweepAttempts set_SweepAttempts].
    rewrite int64_id by (unfold is_int64; lia).
    destruct (Z.leb_spec 3 (SweepAttempts j + 1)); simpl; rewrite ?int64_id by (unfold is_int64; lia);
      split; try lia; done. }
  destruct e as [h t k r|h|h|y h|y r c b|y|r c|r]; cbn [apply_event fst].
  - apply Hsame. destruct (bool_decide _); simpl;
      by destruct (raise_height_fields j h) as (_ & _ & _ & _ & -> & _).
  - apply Hsame. by destruct (raise_height_fields j h) as (_ & _ & _ & _ & -> & _).
  - apply Hsame. by destruct (raise_height_fields j h) as (_ & _ & _ & _ & -> & _).
  - apply Hsame. unfold applyConfirmedEvent. destruct (bool_decide _);
      match goal with |- context [raise_height ?a ?b] =>
        by destruct (raise_height_fields a b) as (_ & _ & _ & _ & -> & _) end.
  - unfold applyFailedEvent. destruct (bool_decide _); [by apply Hsame|].
    destruct (bool_decide (sw_Txid _ = _)); [|by apply Hsame].
    destruct (_ || _); [|by apply Hbuild]. apply Hsame.
    by destruct (bool_decide (RejectedSweep j = None)).
  - by apply Hsame.
  - by apply Hsame.
  - by apply Hbuild.
Qed.

Lemma run_attempts es s j :
  Forall named_failure es → run p margin Idle es = Ok s → state_job s = Some j →
  attempts_ok j.
Proof.
  revert s j. induction es as [|e es IH] using rev_ind; intros s j Hes HR Hj.
  { injection HR as <-. done. }
  apply Forall_app in Hes as [Hes He]. rewrite Forall_singleton in He.
  rewrite run_app in HR. destruct (run p margin Idle es) as [s0|] eqn:HR0; [|done].
  simpl in HR. inv_ok. zbool.
  assert (fsm_reachable p margin s0) as Hr by (eapply run_reachable; [constructor|done]).
  destruct (step_inv p margin s0 e a (reachable_ok p margin s0 Hr))
    as (ja & re & anchor & j1 & Hfrom & _ & _ & Hj1 & _ & Hh); [by constructor|].
  rewrite Hj1 in Hj. injection Hj as <-.
  destruct (handed_out_fields _ _ Hh) as (_ & _ & _ & _ & _ & Ha1 & Hf1).
  assert (attempts_ok ja) as [Ha Hb].
  { destruct Hfrom as [? ? ? ? _ _|? _ _|j0 ja re' anchor' Hj0 Ht Ha _]; [done..|].
    destruct (IH s0 j0 Hes eq_refl Hj0) as [H1 H2].
    destruct (live_job p margin s0 j0 Hr Hj0 Ht) as (_ & Hf & _).
    assert (attempts_ok (apply_event (Copy j0) e (env_of p margin)).1.1) as Hat.
    { apply apply_event_attempts; [done|].
      change (0 ≤ SweepAttempts j0 < maxSweepAttempts)%Z.
      destruct (decide (SweepAttempts j0 = maxSweepAttempts)) as [Heq|]; [|lia].
      by destruct (H2 Heq). }
    by rewrite Ha in Hat. }
  unfold attempts_ok. change (SweepAttempts (Copy j1)) with (SweepAttempts j1).
  change (FailReason (Copy j1)) with (FailReason j1). by rewrite Ha1, Hf1.
Qed.
(** One failure report of a sweep candidate that is scheduled for repricing. *)
Lemma failed_step s j e tr j' :
  fsm_reachable p margin s → state_job s = Some j → fsm_step p margin s e tr →
  (apply_event (Copy j) e (env_of p margin)) = (j', false, None) →
  ∃ j1, state_job (NextState tr) = Some (Copy j1) ∧ handed_out j' j1 ∧
    RejectedSweep j1 = RejectedSweep j' ∧ RepriceAfter j1 = RepriceAfter j' ∧
    (RejectedSweep j' ≠ None → (Height j' ≤ RepriceAfter j')%Z →
     RequestSweepBuild ∉ emitted tr).
Proof.
  intros Hr Hj Hstep Ha.
  destruct (step_inv p margin s e tr (reachable_ok p margin s Hr) Hstep)
    as (ja & re & anchor & j1 & Hfrom & Hok & HD & Hj1 & _ & Hh).
  destruct Hfrom as [? ? ? ? -> _|? -> _|j0 ja re' anchor' Hj0 _ Ha' _]; [done..|].
  rewrite Hj in Hj0. injection Hj0 as <-. rewrite Ha in Ha'. injection Ha' as <- <- <-.
  exists j1. split; [done|]. split; [done|].
  split; [by destruct Hh as (d & l & -> & _)|].
  split; [by destruct Hh as (d & l & -> & _)|]. intros Hrej Hle Hin.
  destruct (derive_emits p margin _ _ _ _ Hok HD) as [[_ Hem]|(_ & out & Hem & Hout)];
    rewrite Hem in Hin; [by apply not_elem_of_nil in Hin|].
  simpl in Hin. destruct Hout as [s'|k _ _ _ [?|?]|d ready watch l _ _ _].
  - by apply not_elem_of_nil in Hin.
  - done.
  - lia.
  - apply elem_of_app in Hin as [Hin|Hin]; destruct (bool_decide _);
      try (by apply not_elem_of_nil in Hin); by apply list_elem_of_singleton in Hin.
Qed.
End failures.

(** ** A concrete exit *)
Module ExitDemo.
#[local] Existing Instance Demo.demo_chain.

Definition get (r : result error State) : State :=
  match r with Ok s => s | Err _ => Idle end.

Definition job_of (s : State) : JobState :=
  match state_job s with
  | Some j => j
  | None => new_job 0 TriggerManual EmptyString EmptyString
  end.

Definition start : list Event := [StartEvent 400 TriggerManual EmptyString EmptyString].
Definition confirmed : list Event :=
  start ++ [TxConfirmedEvent 10 500; TxConfirmedEvent 11 501; TxConfirmedEvent 20 502;
            TxConfirmedEvent 30 510].
Definition broadcast : list Event :=
  confirmed ++ [HeightUpdatedEvent 654; SweepBroadcastedEvent 99].
Definition complete : list Event := broadcast ++ [TxConfirmedEvent 99 660].

(** The same proof under the fraud trigger, up to the checkpoint's deferral. *)
Definition fraud : list Event :=
  [StartEvent 400 TriggerFraudSpend EmptyString EmptyString;
   TxConfirmedEvent 10 500; TxConfirmedEvent 11 501].

Definition at_ (es : list Event) : State := get (run Demo.proof 0 Idle es).

Lemma reach es s :
  run Demo.proof 0 Idle es = Ok s → fsm_reachable Demo.proof 0 (at_ es).
Proof.
  intros HR. unfold at_. rewrite HR. eapply run_reachable; [constructor|done].
Qed.

Lemma start_reachable : fsm_reachable Demo.proof 0 (at_ start).
Proof. eapply reach. vm_compute. reflexivity. Qed.
Lemma confirmed_reachable : fsm_reachable Demo.proof 0 (at_ confirmed).
Proof. eapply reach. vm_compute. reflexivity. Qed.
Lemma broadcast_reachable : fsm_reachable Demo.proof 0 (at_ broadcast).
Proof. eapply reach. vm_compute. reflexivity. Qed.
Lemma complete_reachable : fsm_reachable Demo.proof 0 (at_ complete).
Proof. eapply reach. vm_compute. reflexivity. Qed.
Lemma fraud_reachable : fsm_reachable Demo.proof 0 (at_ fraud).
Proof. eapply reach. vm_compute. reflexivity. Qed.

Lemma complete_completed : ∃ j, at_ complete = Completed (Some j).
Proof. vm_compute. eauto. Qed.

(** One accepted event of the concrete run. *)
Definition step_of (s : State) (e : Event) : StateTransition :=
  match ProcessEvent s e (env_of Demo.proof 0) with
  | Ok tr => tr
  | Err _ => mkStateTransition Idle None
  end.

Lemma step_ok s e :
  event_ok s e → is_ok (ProcessEvent s e (env_of Demo.proof 0)) = true →
  fsm_step Demo.proof 0 s e (step_of s e).
Proof.
  intros He Hok. constructor; [done|]. unfold step_of. by destruct (ProcessEvent _ _ _).
Qed.
End ExitDemo.

(** ** Properties *)


(** C6 The name of a state is true of its job: while materializing, the target
    is unconfirmed and something is in flight or a deferral is still running
    (the machine never waits for nothing); while awaiting CSV the maturity
    height is in the future, and it has been reached when the sweep is to be
    built; a sweep awaiting confirmation has a txid; a completed job has a sweep
    confirmed at or after CSV maturity; a failed one has a reason. *)
Theorem fsm_states_mean_their_names `{!Chain} p margin s :
  WfProof p → fsm_reachable p margin s → phase_ok p s.
Proof. intros Hwf Hr. by apply (reachable_phase p margin). Qed.

(** C1 The final sweep is requested only when it can be mined: every proof
    transaction is confirmed, the target's CSV delay has matured at the job's
    height, no sweep is out, and a fee-rejected candidate is never re-requested
    before a block after its rejection. *)
Theorem fsm_sweep_never_premature `{!Chain} p margin s e tr :
  WfProof p → fsm_reachable p margin s → fsm_step p margin s e tr →
  RequestSweepBuild ∈ emitted tr →
  ∃ j k, NextState tr = AwaitingSweepBroadcast (Some j) ∧
    sw_Status (Sweep (PlannerState j)) = SweepStatusPending ∧
    (∀ x, x ∈ dom (nodes p) → x ∈ ConfirmedTxids (PlannerState j)) ∧
    TargetConfirmHeight (PlannerState j) = Some k ∧ (k + csvDelay p ≤ Height j)%Z ∧
    (RejectedSweep j = None ∨ (RepriceAfter j < Height j)%Z).
Proof.
  intros Hwf Hr Hstep Hin. pose proof (reachable_ok p margin s Hr) as Hs.
  destruct (step_inv p margin s e tr Hs Hstep) as (j & re & anchor & j1 & _ & Hok & HD & _).
  destruct (derive_emits p margin j re anchor tr Hok HD) as [[_ Hem]|(_ & out & Hem & Hout)].
  { rewrite Hem in Hin. by apply not_elem_of_nil in Hin. }
  rewrite Hem, elem_of_app in Hin. destruct Hin as [Hin|Hin].
  { by apply reissue_no_release in Hin as [? _]. }
  destruct Hout as [s'|k Hst Hk Hle Hrej|d ready watch l _ _ _].
  - by apply not_elem_of_nil in Hin.
  - exists (Copy j), k. simpl. split_and!; [done..| |done|done|done].
    intros x Hx. rewrite elem_of_sortHashes.
    apply (elem_of_list_to_set (C:=gset Hash)), (valid_target_all p); [apply Hok| |done].
    apply (vs_target _ _ (jo_state _ _ Hok)). eauto.
  - apply elem_of_app in Hin as [Hin|Hin]; destruct (bool_decide _);
      try (by apply not_elem_of_nil in Hin); by apply list_elem_of_singleton in Hin.
Qed.

(** C2 A proof transaction is handed to the broadcaster only when all its
    in-proof parents are confirmed; it is recorded as in flight in the next
    state, is not confirmed, and was not already in flight - unless the event
    is the failure report, without a reason, of that very transaction. *)
Theorem fsm_broadcast_only_unblocked `{!Chain} p margin s e tr xs x :
  WfProof p → fsm_reachable p margin s → fsm_step p margin s e tr →
  EnsureReadyTransactions xs ∈ emitted tr → x ∈ xs →
  (∃ j, NextState tr = AwaitingMaterialization (Some j) ∧
    x ∈ dom (nodes p) ∧ x ∈ InFlightTxids (PlannerState j) ∧
    x ∉ ConfirmedTxids (PlannerState j) ∧
    ∀ q, q ∈ adj (parents p) x → q ∈ ConfirmedTxids (PlannerState j)) ∧
  (∀ j0, state_job s = Some j0 → x ∈ InFlightTxids (PlannerState j0) →
    ∃ c b, e = TxFailedEvent x EmptyString c b).
Proof.
  intros Hwf Hr Hstep Hin Hx. pose proof (reachable_ok p margin s Hr) as Hs.
  destruct (emitted_ready p margin s e tr xs Hs Hstep Hin)
    as (j & re & anchor & d & ready & watch & l & Hfrom & Hok & Hf & Hk & Hsp & Hl & -> & ->).
  rewrite elem_of_sortHashes in Hx.
  destruct (sp_ready _ _ _ _ _ _ _ _ Hsp x Hx) as [Hrd _].
  apply (ready_spec p) in Hrd as (Hdom & HnC & HnI & Hq). split.
  - eexists. split; [done|]. simpl. rewrite !elem_of_sortHashes, Hl.
    setoid_rewrite elem_of_sortHashes. auto.
  - intros j0 Hj0 Hi0. destruct Hfrom as [h t k r -> _|h -> _|j0' j' re' anchor' Hj _ Ha _];
      [done..|]. rewrite Hj0 in Hj. injection Hj as <-.
    assert (x ∈ InFlightTxids (PlannerState (Copy j0))) as Hi by (simpl; by rewrite elem_of_sortHashes).
    destruct (apply_event_inflight p margin (Copy j0) e x Hi) as [Hc|[(h & _ & Hc)|(r & c & b & -> & Hc)]];
      rewrite Ha in Hc; simpl in Hc; [done..|]. rewrite Hf in Hc. subst r. eauto.
Qed.

(** A confirmation of an in-flight transaction is always accepted: from any
    live reachable state, whatever block it confirms in (as long as the target's
    maturity is still a block height), the machine moves on with exactly that
    transaction added to the confirmed ones, and records the target's height
    when it is the target. *)
Theorem fsm_confirmation_accepted `{!Chain} p margin s j x h :
  WfProof p → fsm_reachable p margin s → state_job s = Some j → IsTerminal s = false →
  x ∈ InFlightTxids (PlannerState j) → is_int32 h → (0 ≤ h)%Z →
  (x = target p → h + csvDelay p ≤ MaxInt32)%Z →
  ∃ tr j', ProcessEvent s (TxConfirmedEvent x h) (env_of p margin) = Ok tr ∧
    state_job (NextState tr) = Some j' ∧ IsTerminal (NextState tr) = false ∧
    (∀ y, y ∈ ConfirmedTxids (PlannerState j') ↔
       y ∈ ConfirmedTxids (PlannerState j) ∨ y = x) ∧
    TargetConfirmHeight (PlannerState j') =
      (if bool_decide (x = target p) then Some h else None).
Proof.
  intros Hwf Hr Hj Ht Hx Hi Hpos Hov.
  destruct (confirm_accepted p margin s j x h Hr Hj Ht Hx Hi Hpos Hov)
    as (tr & j' & Hstep & Hj' & Ht' & _ & Hc & Hk).
  exists tr, j'. split_and!; [by destruct Hstep|done..].
Qed.


(** Progress is durable: an accepted event never lowers the job's height,
    never forgets a confirmation, and never changes a recorded target
    confirmation height. *)
Theorem fsm_history_monotone `{!Chain} p margin s e tr j j' :
  WfProof p → fsm_reachable p margin s → fsm_step p margin s e tr →
  state_job s = Some j → state_job (NextState tr) = Some j' →
  (Height j ≤ Height j')%Z ∧
  (∀ x, x ∈ ConfirmedTxids (PlannerState j) → x ∈ ConfirmedTxids (PlannerState j')) ∧
  (∀ k, TargetConfirmHeight (PlannerState j) = Some k →
        TargetConfirmHeight (PlannerState j') = Some k).
Proof.
  intros Hwf Hr Hstep Hj Hj'. pose proof (reachable_ok p margin s Hr) as Hs.
  destruct (step_inv p margin s e tr Hs Hstep)
    as (ja & re & anchor & j1 & Hfrom & Hok & _ & Hj1 & _ & Hh).
  destruct (handed_out_fields _ _ Hh) as (Hh1 & _ & Hc1 & Hk1 & _).
  rewrite Hj1 in Hj'. injection Hj' as <-.
  destruct Hfrom as [h t k r -> _|h -> _|j0 ja re' anchor' Hj0 _ _ Hap]; [done..|].
  rewrite Hj in Hj0. injection Hj0 as <-. destruct Hap as [_ _ _ A4 A5 A6].
  split_and!.
  - change (Height j ≤ Height j1)%Z. by rewrite Hh1.
  - intros x Hx. rewrite Copy_confirmed, Hc1. apply A5. by rewrite Copy_confirmed.
  - intros k Hk. change (TargetConfirmHeight (PlannerState j1) = Some k). rewrite Hk1.
    by apply A6.
Qed.

(** A restart loses no subscription: resuming any live reachable job is
    accepted and re-emits every in-flight transaction, the confirmation watch of
    a broadcast sweep, and the watch of every deferred checkpoint, without
    touching what was confirmed. *)
Theorem fsm_resume_reissues_everything `{!Chain} p margin s j h :
  WfProof p → fsm_reachable p margin s → state_job s = Some j → IsTerminal s = false →
  is_int32 h →
  ∃ tr, ProcessEvent s (ResumeEvent h) (env_of p margin) = Ok tr ∧
    (InFlightTxids (PlannerState j) ≠ [] →
       ∃ xs, ReissueInFlightTransactions xs ∈ emitted tr ∧
         xs ≡ₚ InFlightTxids (PlannerState j)) ∧
    (sw_Status (Sweep (PlannerState j)) = SweepStatusBroadcasted →
       ReissueSweepConfirmation ∈ emitted tr) ∧
    (DeferredCheckpoints j ≠ [] →
       ∃ xs, WatchDeferredCheckpoints xs ∈ emitted tr ∧
         xs ≡ₚ dc_Txid <$> DeferredCheckpoints j).
Proof.
  intros Hwf Hr Hj Ht Hi.
  destruct (live_job p margin s j Hr Hj Ht) as (Hok & Hf & Hst & Hm).
  apply job_ok_copy in Hok as Hokc.
  destruct (raise_height_fields (Copy j) h) as (Hp & Hd & Htr & Hfr & _ & Hh).
  assert (job_ok p (raise_height (Copy j) h)) as Hok'.
  { apply (sweep_step_ok p (Copy j) _ (Sweep (PlannerState (Copy j)))); [done..|].
    apply (vs_sweep _ _ (jo_state _ _ Hokc)). }
  destruct (live_accepts p margin s j (ResumeEvent h) Hj Ht) as (tr & Hstep & HD).
  { by split. }
  { exact Hok'. }
  { right. cbn [apply_event fst snd]. by rewrite Hp. }
  cbn [apply_event fst snd] in HD. exists tr. split; [by destruct Hstep|].
  destruct (derive_emits p margin _ _ _ _ Hok' HD) as [[Hn _]|(_ & out & -> & _)].
  { destruct Hn. by rewrite Hfr. }
  unfold reissue_outbox. rewrite Hp, Hd. split_and!.
  - intros Hne. exists (InFlightTxids (PlannerState (Copy j))). split.
    + rewrite bool_decide_eq_true_2; [rewrite !elem_of_app; left; left; constructor|].
      intros Hnil. apply Hne. by apply sortHashes_nil.
    + apply sortHashes_perm.
  - intros Hb. rewrite (bool_decide_eq_true_2 (sw_Status _ = _)) by done.
    rewrite !elem_of_app. left. right. left. constructor.
  - intros Hne. exists (deferredCheckpointTxids (DeferredCheckpoints (Copy j))). split.
    + rewrite (bool_decide_eq_true_2 (DeferredCheckpoints (Copy j) ≠ [])).
      * rewrite !elem_of_app. left. right. right. constructor.
      * intros Hnil. apply Hne. apply Permutation_nil_r. rewrite <-Hnil.
        apply Copy_deferred.
    + unfold deferredCheckpointTxids. rewrite sortHashes_perm. by rewrite <-(Copy_deferred j).
Qed.

(** The backstop height is a real deferral: for a CSV delay of at least one
    block, whatever margin is configured, the deadline lies strictly after the
    height it is measured from and no later than the end of the CSV window, and
    it leaves the configured (or default) margin before that end whenever the
    delay exceeds it. *)
Theorem checkpointBackstopHeight_bounds h csv m :
  is_int32 m → (0 ≤ h)%Z → (1 ≤ csv ≤ MaxCSVDelay)%Z → (h + csv ≤ MaxInt32)%Z →
  let d := checkpointBackstopHeight h csv m in
  let eff := if (m <=? 0)%Z then defaultFraudCheckpointSafetyMargin else m in
  (h < d ≤ h + csv)%Z ∧ ((eff < csv)%Z → d = (h + csv - eff)%Z).
Proof. apply backstop_bounds. Qed.

(** Under the fraud trigger a checkpoint is released to the broadcaster only
    when its deferral is over: either it was deferred with a deadline the job's
    height has reached, or the confirmation that unblocked it is reported so
    late that the deadline measured from that confirmation's own height has
    already passed. *)
Theorem fsm_checkpoint_waits_for_deadline `{!Chain} p margin s e tr xs x j :
  WfProof p → is_int32 margin → fsm_reachable p margin s → fsm_step p margin s e tr →
  EnsureReadyTransactions xs ∈ emitted tr → x ∈ xs → is_checkpoint p x →
  NextState tr = AwaitingMaterialization (Some j) → Trigger j = TriggerFraudSpend →
  (0 ≤ Height j ∧ Height j + csvDelay p ≤ MaxInt32)%Z →
  (∃ j0 c, state_job s = Some j0 ∧ c ∈ DeferredCheckpoints j0 ∧ dc_Txid c = x ∧
     (DeadlineHeight c ≤ Height j)%Z) ∨
  (∃ q h, e = TxConfirmedEvent q h ∧ (backstop p margin h ≤ Height j)%Z).
Proof.
  intros Hwf Hmg Hr Hstep Hin Hx Hck Hns Hf Hb. pose proof (reachable_ok p margin s Hr) as Hs.
  destruct (emitted_ready p margin s e tr xs Hs Hstep Hin)
    as (ja & re & anchor & d & ready & watch & l & Hfrom & Hok & _ & _ & Hsp & _ & -> & Hns').
  rewrite Hns' in Hns. injection Hns as <-. rewrite elem_of_sortHashes in Hx.
  cbn [Trigger Copy set_InFlight set_PlannerState set_DeferredCheckpoints Height] in Hf, Hb |- *.
  pose proof (jo_csv _ _ Hok Hf) as Hcsv0. pose proof wf_csv as Hcsv.
  assert (Height ja < backstop p margin (Height ja))%Z as Hlate.
  { unfold backstop. by apply backstop_bounds; [|lia..]. }
  assert (∀ c, c ∈ DeferredCheckpoints ja → ∃ j0, state_job s = Some j0 ∧
    c ∈ DeferredCheckpoints j0) as Hprev.
  { intros c Hc. destruct Hfrom as [? ? ? ? _ _|? _ _|j0 ja re' anchor' Hj0 _ _ Hap];
      [by apply not_elem_of_nil in Hc..|]. exists j0. split; [done|].
    rewrite (Copy_deferred j0). by apply (ap_deferred _ _ Hap). }
  destruct (sp_due _ _ _ _ _ _ _ _ Hsp x Hx Hf Hck) as [(c & Hc & Hcx & Hle)|[_ Hle]].
  - left. destruct (Hprev c Hc) as (j0 & ? & ?). eauto 10.
  - right. destruct Hfrom as [? ? ? ? _ _|? _ _|j0 ja re' anchor' Hj0 _ Ha _];
      [simpl in Hle, Hlate; lia..|].
    destruct e as [| | |q h| | | |]; injection Ha as _ _ Han; subst anchor';
      cbn [default from_option id] in Hle; [lia..| |lia|lia|lia|lia]. eauto.
Qed.

(** Retries are bounded: as long as every failure report carries a reason,
    a job counts at most [maxSweepAttempts] sweep failures, and the one that
    uses up the budget ends it in [Failed]. *)
Theorem fsm_sweep_attempts_bounded `{!Chain} p margin es s j :
  WfProof p → Forall named_failure es → run p margin Idle es = Ok s →
  state_job s = Some j →
  (0 ≤ SweepAttempts j ≤ maxSweepAttempts)%Z ∧
  (SweepAttempts j = maxSweepAttempts → s = Failed (Some j)).
Proof.
  intros Hwf Hes HR Hj. destruct (run_attempts p margin es s j Hes HR Hj) as [H1 H2].
  split; [done|]. intros Hm. specialize (H2 Hm).
  assert (fsm_reachable p margin s) as Hr by (eapply run_reachable; [constructor|done]).
  apply (reachable_phase p margin) in Hr.
  destruct s as [|o|o|o|o|o|o]; simpl in Hj; subst; cbn [phase_ok] in Hr; try done;
    by destruct Hr as [? _].
Qed.

(** Fee rejection is absorbed once: when the broadcast sweep is rejected for
    its fee, the job returns to awaiting a sweep without spending an attempt and
    without asking for a new one in the same block, and replaying the failure
    report of that candidate, in whatever form, changes nothing and requests
    nothing either. *)
Theorem fsm_fee_rejection_replay `{!Chain} p margin s j x r b tr1 r2 c2 b2 tr2 :
  WfProof p → fsm_reachable p margin s → state_job s = Some j →
  sw_Txid (Sweep (PlannerState j)) = Some x →
  fsm_step p margin s (TxFailedEvent x r BroadcastFailureFee b) tr1 →
  fsm_step p margin (NextState tr1) (TxFailedEvent x r2 c2 b2) tr2 →
  ∃ j1 j2, state_job (NextState tr1) = Some j1 ∧ state_job (NextState tr2) = Some j2 ∧
    RejectedSweep j1 = Some x ∧ RepriceAfter j1 = Height j ∧ Height j1 = Height j ∧
    SweepAttempts j1 = SweepAttempts j ∧ FailReason j1 = EmptyString ∧
    sw_Status (Sweep (PlannerState j1)) = SweepStatusPending ∧
    RejectedSweep j2 = RejectedSweep j1 ∧ RepriceAfter j2 = RepriceAfter j1 ∧
    Height j2 = Height j1 ∧ SweepAttempts j2 = SweepAttempts j1 ∧
    FailReason j2 = FailReason j1 ∧ Sweep (PlannerState j2) = Sweep (PlannerState j1) ∧
    RequestSweepBuild ∉ emitted tr1 ∧ RequestSweepBuild ∉ emitted tr2.
Proof.
  intros Hwf Hr Hj Hx Hs1 Hs2.
  pose proof (reachable_rejected p margin s j Hr Hj (ex_intro _ x Hx)) as Hrej.
  assert (IsTerminal s = false) as Ht by (destruct Hs1 as [[] ? ? _ HP]; by try discriminate HP).
  destruct (live_job p margin s j Hr Hj Ht) as (_ & Hf & _).
  set (e1 := TxFailedEvent x r BroadcastFailureFee b) in *.
  destruct (failed_step p margin s j e1 tr1 (apply_event (Copy j) e1 (env_of p margin)).1.1
    Hr Hj Hs1 eq_refl) as (j1 & Hj1 & Hh1 & Hr1 & Ha1 & Hn1).
  assert ((apply_event (Copy j) e1 (env_of p margin)).1.1 =
    set_Sweep (set_Rejected (Copy j) (Some x) (Height j) false)
      (mkSweepState SweepStatusPending None (sw_ConfirmHeight (Sweep (PlannerState j))))) as He1.
  { cbn [e1 apply_event fst]. unfold applyFailedEvent.
    change (RejectedSweep (Copy j)) with (RejectedSweep j).
    change (Sweep (PlannerState (Copy j))) with (Sweep (PlannerState j)).
    rewrite Hrej, Hx. rewrite (bool_decide_eq_false_2 (None = Some x)) by done.
    rewrite !bool_decide_eq_true_2 by done. reflexivity. }
  rewrite He1 in Hh1, Hr1, Ha1, Hn1.
  destruct (handed_out_fields _ _ Hh1) as (Hhe1 & _ & _ & _ & Hsw1 & Hat1 & Hfr1).
  assert (fsm_reachable p margin (NextState tr1)) as Hre1 by (by eapply reach_step).
  set (e2 := TxFailedEvent x r2 c2 b2) in *.
  assert ((apply_event (Copy (Copy j1)) e2 (env_of p margin)).1.1 = Copy (Copy j1)) as He2.
  { cbn [e2 apply_event fst]. unfold applyFailedEvent.
    change (RejectedSweep (Copy (Copy j1))) with (RejectedSweep j1). rewrite Hr1.
    by rewrite bool_decide_eq_true_2. }
  destruct (failed_step p margin (NextState tr1) (Copy j1) e2 tr2
    (apply_event (Copy (Copy j1)) e2 (env_of p margin)).1.1 Hre1 Hj1 Hs2 eq_refl)
    as (j2 & Hj2 & Hh2 & Hr2 & Ha2 & Hn2).
  rewrite He2 in Hh2, Hr2, Ha2, Hn2.
  destruct (handed_out_fields _ _ Hh2) as (Hhe2 & _ & _ & _ & Hsw2 & Hat2 & Hfr2).
  exists (Copy j1), (Copy j2). split; [done|]. split; [done|].
  simpl in *. split_and!; try congruence.
  - by rewrite Hsw1.
  - apply Hn1; done.
  - apply Hn2; [congruence|]. rewrite Ha1, Hhe1. done.
Qed.

#[local] Existing Instance Demo.demo_chain.

(** A duplicate start with another trigger corrupts a deferring job: the
    fraud-triggered job below, holding a deferred checkpoint, accepts a start
    with the manual trigger, submits the checkpoint and keeps its deferral, and
    from then on refuses every resume and every block as corrupt. *)
Theorem fsm_retrigger_wedges_deferral :
  ∃ tr, ProcessEvent (ExitDemo.at_ ExitDemo.fraud)
          (StartEvent 501 TriggerManual EmptyString EmptyString)
          (env_of Demo.proof 0) = Ok tr ∧
    EnsureReadyTransactions [20%N] ∈ emitted tr ∧
    ∀ h, ProcessEvent (NextState tr) (ResumeEvent h) (env_of Demo.proof 0) =
           Err "deferred checkpoint is in-flight" ∧
         ProcessEvent (NextState tr) (HeightUpdatedEvent h) (env_of Demo.proof 0) =
           Err "deferred checkpoint is in-flight".
Proof.
  eexists. split; [vm_compute; reflexivity|].
  split; [vm_compute; constructor|].
  intros h. unfold ProcessEvent, processEventWithJob. cbn [NextState apply_event].
  unfold raise_height. destruct (_ <? h)%Z; split; vm_compute; reflexivity.
Qed.

(** A failed proof transaction is terminal only if the report says why: with
    an empty reason the job stays in materialization and hands the same
    transaction to the broadcaster again. *)
Theorem fsm_unnamed_failure_retries :
  ∃ tr j, ProcessEvent (ExitDemo.at_ ExitDemo.start)
            (TxFailedEvent 10 EmptyString BroadcastFailurePermanent false)
            (env_of Demo.proof 0) = Ok tr ∧
    NextState tr = AwaitingMaterialization (Some j) ∧
    emitted tr = [EnsureReadyTransactions [10%N]].
Proof.
  eexists _, _. split; [vm_compute; reflexivity|].
  split; [reflexivity|]. vm_compute. reflexivity.
Qed.

(** ** The properties at work *)


Lemma fsm_states_mean_their_names_witness :
  phase_ok Demo.proof (ExitDemo.at_ ExitDemo.complete).
Proof.
  apply (fsm_states_mean_their_names Demo.proof 0).
  - apply Demo.proof_wf.
  - apply ExitDemo.complete_reachable.
Defined.

Lemma fsm_sweep_never_premature_witness :
  ∃ j k, NextState (ExitDemo.step_of (ExitDemo.at_ ExitDemo.confirmed)
                      (HeightUpdatedEvent 654)) = AwaitingSweepBroadcast (Some j) ∧
    TargetConfirmHeight (PlannerState j) = Some k ∧
    (k + csvDelay Demo.proof ≤ Height j)%Z.
Proof.
  edestruct (fsm_sweep_never_premature Demo.proof 0 (ExitDemo.at_ ExitDemo.confirmed)
    (HeightUpdatedEvent 654)) as (j & k & Hn & _ & _ & Hk & Hle & _).
  - apply Demo.proof_wf.
  - apply ExitDemo.confirmed_reachable.
  - apply ExitDemo.step_ok; [split; [split; lia|done]|vm_compute; reflexivity].
  - vm_compute. constructor.
  - exists j, k. split; [exact Hn|]. split; [exact Hk|exact Hle].
Defined.

Lemma fsm_broadcast_only_unblocked_witness :
  ∃ j, NextState (ExitDemo.step_of (ExitDemo.at_ (take 2 ExitDemo.confirmed))
                    (TxConfirmedEvent 11 501)) = AwaitingMaterialization (Some j) ∧
    ∀ q, q ∈ adj (parents Demo.proof) 20 → q ∈ ConfirmedTxids (PlannerState j).
Proof.
  edestruct (fsm_broadcast_only_unblocked Demo.proof 0
    (ExitDemo.at_ (take 2 ExitDemo.confirmed)) (TxConfirmedEvent 11 501)
    (ExitDemo.step_of (ExitDemo.at_ (take 2 ExitDemo.confirmed)) (TxConfirmedEvent 11 501))
    [20%N] 20)
    as [(j & Hn & _ & _ & _ & Hq) _].
  - apply Demo.proof_wf.
  - eapply ExitDemo.reach. vm_compute. reflexivity.
  - apply ExitDemo.step_ok; [split; [split; lia|done]|vm_compute; reflexivity].
  - vm_compute. constructor.
  - constructor.
  - exists j. split; [exact Hn|exact Hq].
Defined.

Lemma fsm_confirmation_accepted_witness :
  ∃ tr j', ProcessEvent (ExitDemo.at_ ExitDemo.start) (TxConfirmedEvent 10 500)
             (env_of Demo.proof 0) = Ok tr ∧
    state_job (NextState tr) = Some j'.
Proof.
  edestruct (fsm_confirmation_accepted Demo.proof 0 (ExitDemo.at_ ExitDemo.start)
    (ExitDemo.job_of (ExitDemo.at_ ExitDemo.start)) 10 500) as (tr & j' & Hp & Hj & _).
  - apply Demo.proof_wf.
  - apply ExitDemo.start_reachable.
  - vm_compute. reflexivity.
  - vm_compute. reflexivity.
  - vm_compute. repeat constructor.
  - split; lia.
  - lia.
  - vm_compute. discriminate.
  - exists tr, j'. split; [exact Hp|exact Hj].
Defined.


Lemma fsm_history_monotone_witness :
  (Height (ExitDemo.job_of (ExitDemo.at_ ExitDemo.start)) ≤
   Height (ExitDemo.job_of (NextState
     (ExitDemo.step_of (ExitDemo.at_ ExitDemo.start) (TxConfirmedEvent 10 500)))))%Z.
Proof.
  apply (fsm_history_monotone Demo.proof 0 (ExitDemo.at_ ExitDemo.start)
    (TxConfirmedEvent 10 500)
    (ExitDemo.step_of (ExitDemo.at_ ExitDemo.start) (TxConfirmedEvent 10 500))).
  - apply Demo.proof_wf.
  - apply ExitDemo.start_reachable.
  - apply ExitDemo.step_ok; [split; [split; lia|done]|vm_compute; reflexivity].
  - vm_compute. reflexivity.
  - vm_compute. reflexivity.
Defined.

Lemma fsm_resume_reissues_everything_witness :
  ∃ tr, ProcessEvent (ExitDemo.at_ ExitDemo.fraud) (ResumeEvent 502)
          (env_of Demo.proof 0) = Ok tr ∧
    ∃ xs, WatchDeferredCheckpoints xs ∈ emitted tr ∧
      xs ≡ₚ dc_Txid <$> DeferredCheckpoints (ExitDemo.job_of (ExitDemo.at_ ExitDemo.fraud)).
Proof.
  edestruct (fsm_resume_reissues_everything Demo.proof 0 (ExitDemo.at_ ExitDemo.fraud)
    (ExitDemo.job_of (ExitDemo.at_ ExitDemo.fraud)) 502) as (tr & Hp & _ & _ & Hw).
  - apply Demo.proof_wf.
  - apply ExitDemo.fraud_reachable.
  - vm_compute. reflexivity.
  - vm_compute. reflexivity.
  - split; lia.
  - exists tr. split; [exact Hp|]. apply Hw. vm_compute. discriminate.
Defined.

Lemma checkpointBackstopHeight_bounds_witness :
  (500 < checkpointBackstopHeight 500 16 0 ≤ 516)%Z.
Proof.
  refine (proj1 (checkpointBackstopHeight_bounds 500 16 0 _ _ _ _)).
  - split; lia.
  - lia.
  - vm_compute. split; discriminate.
  - vm_compute. discriminate.
Defined.

Lemma fsm_checkpoint_waits_for_deadline_witness :
  (∃ j0 c, state_job (ExitDemo.at_ ExitDemo.fraud) = Some j0 ∧
     c ∈ DeferredCheckpoints j0 ∧ dc_Txid c = 20%N ∧ (DeadlineHeight c ≤ 621)%Z) ∨
  (∃ q h, HeightUpdatedEvent 621 = TxConfirmedEvent q h ∧
     (backstop Demo.proof 0 h ≤ 621)%Z).
Proof.
  apply (fsm_checkpoint_waits_for_deadline Demo.proof 0 (ExitDemo.at_ ExitDemo.fraud)
    (HeightUpdatedEvent 621)
    (ExitDemo.step_of (ExitDemo.at_ ExitDemo.fraud) (HeightUpdatedEvent 621)) [20%N] 20
    (ExitDemo.job_of (NextState
       (ExitDemo.step_of (ExitDemo.at_ ExitDemo.fraud) (HeightUpdatedEvent 621))))).
  - apply Demo.proof_wf.
  - split; lia.
  - apply ExitDemo.fraud_reachable.
  - apply ExitDemo.step_ok; [split; [split; lia|done]|vm_compute; reflexivity].
  - vm_compute. constructor.
  - constructor.
  - eexists. split; vm_compute; reflexivity.
  - vm_compute. reflexivity.
  - vm_compute. reflexivity.
  - vm_compute. split; discriminate.
Defined.

Lemma fsm_sweep_attempts_bounded_witness :
  (0 ≤ SweepAttempts (ExitDemo.job_of (ExitDemo.at_ ExitDemo.broadcast))
     ≤ maxSweepAttempts)%Z.
Proof.
  eapply (fsm_sweep_attempts_bounded Demo.proof 0 ExitDemo.broadcast
    (ExitDemo.at_ ExitDemo.broadcast)).
  - apply Demo.proof_wf.
  - repeat constructor.
  - vm_compute. reflexivity.
  - vm_compute. reflexivity.
Defined.

Lemma fsm_fee_rejection_replay_witness :
  let s := ExitDemo.at_ ExitDemo.broadcast in
  let e := TxFailedEvent 99 "min relay fee not met" BroadcastFailureFee false in
  let tr1 := ExitDemo.step_of s e in
  let tr2 := ExitDemo.step_of (NextState tr1) e in
  RequestSweepBuild ∉ emitted tr1 ∧ RequestSweepBuild ∉ emitted tr2.
Proof.
  intros s e tr1 tr2.
  edestruct (fsm_fee_rejection_replay Demo.proof 0 s (ExitDemo.job_of s) 99
    "min relay fee not met" false tr1 "min relay fee not met" BroadcastFailureFee false tr2)
    as (j1 & j2 & _ & _ & _ & _ & _ & _ & _ & _ & _ & _ & _ & _ & _ & _ & H1 & H2).
  - apply Demo.proof_wf.
  - apply ExitDemo.broadcast_reachable.
  - vm_compute. reflexivity.
  - vm_compute. reflexivity.
  - apply ExitDemo.step_ok; [split; done|vm_compute; reflexivity].
  - apply ExitDemo.step_ok; [split; done|vm_compute; reflexivity].
  - split; [exact H1|exact H2].
Defined.
