(* ===== verification/CoinSelect.v ===== *)
(** * Coin selection: [coinselect/selector.go]

    The largest-first selector shared by the VTXO manager and the swap wallet.
    [T] is the caller's coin type and [amount] its [AmountFunc]; amounts are
    [btcutil.Amount], signed 64-bit satoshis, and every sum wraps at that
    width. *)

From S2P Require Import Prelude.

(** ** Data *)

Inductive SelectionError :=
| ErrSelectionShortfall
| ErrChangeBelowMin
| ErrNoCandidates
| ErrInvalidTarget.

Record Request := mkRequest {
  Target : Z;
  MinChange : Z;
  SweepAll : bool;
}.

Record Result (T : Type) := mkResult {
  Selected : list T;
  Total : Z;
  Change : Z;
}.
Arguments mkResult {T} _ _ _.
Arguments Selected {T} _.
Arguments Total {T} _.
Arguments Change {T} _.

Section selector.
Context {T : Type} (amount : T → Z).

(** ** The selector *)

(** [sort.SliceStable] by descending amount: equal amounts keep their order. *)
Fixpoint insert_desc (c : T) (l : list T) : list T :=
  match l with
  | [] => [c]
  | d :: l' => if (amount c <? amount d)%Z then d :: insert_desc c l' else c :: d :: l'
  end.

Fixpoint sort_desc (l : list T) : list T :=
  match l with
  | [] => []
  | c :: l => insert_desc c (sort_desc l)
  end.

(** [total += amount(c)] over a slice. *)
Definition sum_amounts (l : list T) : Z :=
  fold_left (λ total c, int64 (total + amount c)) l 0%Z.

Definition selectAll (candidates : list T) : Result T * option SelectionError :=
  match candidates with
  | [] => (mkResult [] 0 0, Some ErrNoCandidates)
  | _ => (mkResult candidates (sum_amounts candidates) 0, None)
  end.

(** The accumulation loop; [rejected] is the total at the first selection that
    covered the target with dust change. *)
Fixpoint accumulate (req : Request) (sorted selected : list T) (total : Z)
    (rejected : option Z) : Result T * option SelectionError :=
  match sorted with
  | [] =>
      match rejected with
      | Some rejectedTotal => (mkResult [] rejectedTotal 0, Some ErrChangeBelowMin)
      | None => (mkResult [] total 0, Some ErrSelectionShortfall)
      end
  | c :: sorted =>
      let selected := selected ++ [c] in
      let total := int64 (total + amount c) in
      if (total <? Target req)%Z then accumulate req sorted selected total rejected
      else
        let change := int64 (total - Target req) in
        if (change =? 0)%Z || (MinChange req =? 0)%Z || (MinChange req <=? change)%Z
        then (mkResult selected total change, None)
        else
          accumulate req sorted selected total
            (match rejected with Some r => Some r | None => Some total end)
  end.

Definition LargestFirst (candidates : list T) (req : Request) :
    Result T * option SelectionError :=
  if SweepAll req then selectAll candidates
  else if (Target req <=? 0)%Z then (mkResult [] 0 0, Some ErrInvalidTarget)
  else
    match candidates with
    | [] => (mkResult [] 0 0, Some ErrNoCandidates)
    | _ => accumulate req (sort_desc candidates) [] 0 None
    end.

(** ** The mathematical sum *)

Fixpoint value (l : list T) : Z :=
  match l with [] => 0%Z | c :: l => (amount c + value l)%Z end.

(** The candidates a wallet holds: non-negative amounts whose total is an
    amount. *)
Definition amounts_ok (l : list T) : Prop :=
  (∀ c, c ∈ l → (0 ≤ amount c)%Z) ∧ is_int64 (value l).

Lemma value_app l l' : value (l ++ l') = (value l + value l')%Z.
Proof. induction l as [|c l IH]; simpl; lia. Qed.

#[export] Instance value_Proper : Proper ((≡ₚ) ==> (=)) value.
Proof. intros l l'. induction 1; simpl; lia. Qed.

Lemma value_nonneg l : (∀ c, c ∈ l → (0 ≤ amount c)%Z) → (0 ≤ value l)%Z.
Proof.
  induction l as [|c l IH]; simpl; [lia|]. intros Hl.
  assert (0 ≤ amount c)%Z by (apply Hl; constructor).
  assert (0 ≤ value l)%Z by (apply IH; intros; apply Hl; by constructor). lia.
Qed.

Lemma sum_amounts_from l t :
  (∀ c, c ∈ l → (0 ≤ amount c)%Z) → (0 ≤ t)%Z → is_int64 (t + value l) →
  fold_left (λ total c, int64 (total + amount c)) l t = (t + value l)%Z.
Proof.
  revert t. induction l as [|c l IH]; intros t Hl Ht Hr; simpl in *; [lia|].
  assert (0 ≤ amount c)%Z by (apply Hl; constructor).
  assert (∀ d, d ∈ l → (0 ≤ amount d)%Z) as Hl' by (intros; apply Hl; by constructor).
  pose proof (value_nonneg l Hl'). unfold is_int64 in Hr.
  rewrite int64_id by (unfold is_int64; lia).
  rewrite IH by (done || unfold is_int64; lia). lia.
Qed.

(** ** The sort *)

Lemma insert_desc_perm c l : insert_desc c l ≡ₚ c :: l.
Proof.
  induction l as [|d l IH]; simpl; [done|]. destruct (_ <? _)%Z; [|done].
  rewrite IH. constructor.
Qed.

Lemma sort_desc_perm l : sort_desc l ≡ₚ l.
Proof. induction l as [|c l IH]; simpl; [done|]. by rewrite insert_desc_perm, IH. Qed.

Definition desc (c d : T) : Prop := (amount d ≤ amount c)%Z.

Lemma insert_desc_sorted c l :
  StronglySorted desc l → StronglySorted desc (insert_desc c l).
Proof.
  induction 1 as [|d l Hl IH Hd]; simpl; [by repeat constructor|].
  destruct (Z.ltb_spec (amount c) (amount d)) as [Hlt|Hge].
  - constructor; [done|]. rewrite insert_desc_perm. constructor; [unfold desc; lia|done].
  - constructor; [by constructor|]. constructor; [done|]. eapply Forall_impl; [done|].
    unfold desc. lia.
Qed.

Lemma sort_desc_sorted l : StronglySorted desc (sort_desc l).
Proof. induction l; simpl; [constructor|]. by apply insert_desc_sorted. Qed.

(** Coins of one amount keep their relative order. *)
Lemma sort_desc_stable l a :
  filter (λ c, amount c = a) (sort_desc l) = filter (λ c, amount c = a) l.
Proof.
  assert (∀ c l, filter (λ c, amount c = a) (insert_desc c l) =
    filter (λ c, amount c = a) (c :: l)) as Hins.
  { clear l. intros c l. induction l as [|d l IH]; cbn [insert_desc]; [done|].
    destruct (Z.ltb_spec (amount c) (amount d)); [|done].
    rewrite filter_cons, IH, !filter_cons.
    destruct (decide (amount d = a)), (decide (amount c = a)); try done. lia. }
  induction l as [|c l IH]; cbn [sort_desc]; [done|]. rewrite Hins, !filter_cons. by rewrite IH.
Qed.

(** In a descending list no [n] coins are worth more than the first [n]. *)
Lemma desc_prefix_best l s :
  StronglySorted desc l → s ⊆+ l → (∀ c, c ∈ l → (0 ≤ amount c)%Z) →
  ∀ n, length s ≤ n → (value s ≤ value (take n l))%Z.
Proof.
  intros Hl. revert s. induction Hl as [|c l Hl IH Hc]; intros s Hs Hpos n Hn.
  { apply submseteq_nil_r in Hs as ->. rewrite take_nil. done. }
  assert (∀ d, d ∈ l → (0 ≤ amount d)%Z) as Hpos' by (intros; apply Hpos; by constructor).
  destruct s as [|d s].
  { apply value_nonneg. intros x Hx. apply Hpos.
    rewrite <-(take_drop n (c :: l)), elem_of_app. by left. }
  destruct n as [|n]; [simpl in Hn; lia|]. cbn [take value].
  apply submseteq_cons_r in Hs as [Hs|(s' & Hp & Hs)].
  - assert (d ∈ l) as Hd by (eapply elem_of_submseteq; [constructor|done]).
    rewrite Forall_forall in Hc. specialize (Hc d Hd). unfold desc in Hc.
    assert (value s ≤ value (take n l))%Z; [|lia].
    apply IH; [|done|simpl in Hn; lia]. etrans; [|done]. apply submseteq_cons. done.
  - change (amount d + value s)%Z with (value (d :: s)). rewrite Hp. cbn [value].
    assert (value s' ≤ value (take n l))%Z; [|lia].
    apply IH; [done|done|]. apply Permutation_length in Hp. simpl in *. lia.
Qed.

(** ** The loop *)

(** What the loop returns from a state that has selected [sel]. *)
Lemma accumulate_spec req todo sel rej :
  (0 < Target req)%Z → amounts_ok (sel ++ todo) →
  (rej = None → value sel < Target req)%Z →
  (∀ r, rej = Some r → Target req < value sel < Target req + MinChange req)%Z →
  match accumulate req todo sel (value sel) rej with
  | (res, None) =>
      ∃ n, 1 ≤ n ≤ length todo ∧ Selected res = sel ++ take n todo ∧
        Total res = value (Selected res) ∧
        Change res = (Total res - Target req)%Z ∧ (0 ≤ Change res)%Z ∧
        (Change res = 0 ∨ MinChange req = 0 ∨ MinChange req ≤ Change res)%Z ∧
        (MinChange req = 0%Z → rej = None → ∀ m, m < n →
           (value (sel ++ take m todo) < Target req)%Z)
  | (res, Some ErrSelectionShortfall) =>
      rej = None ∧ (value (sel ++ todo) < Target req)%Z ∧ Selected res = [] ∧
      Total res = value (sel ++ todo)
  | (res, Some ErrChangeBelowMin) =>
      (Target req < value (sel ++ todo) < Target req + MinChange req)%Z ∧
      Selected res = []
  | (_, Some _) => False
  end.
Proof.
  intros Ht. revert sel rej. induction todo as [|c todo IH]; intros sel rej Hok Hn Hs.
  - cbn [accumulate]. rewrite app_nil_r in *. destruct rej as [r|].
    + specialize (Hs r eq_refl). simpl. split; [lia|done].
    + specialize (Hn eq_refl). simpl. done.
  - cbn [accumulate]. destruct Hok as [Hpos Hint].
    assert (sel ++ c :: todo = (sel ++ [c]) ++ todo) as Happ by (by rewrite <-app_assoc).
    rewrite Happ in *.
    assert (value (sel ++ [c]) = value sel + amount c)%Z as Hv by (rewrite value_app; simpl; lia).
    pose proof (value_app (sel ++ [c]) todo) as Hva.
    assert (0 ≤ value todo)%Z by (apply value_nonneg; intros; apply Hpos, elem_of_app; auto).
    assert (0 ≤ value sel)%Z
      by (apply value_nonneg; intros; apply Hpos; rewrite !elem_of_app; auto).
    assert (0 ≤ amount c)%Z by (apply Hpos; set_solver).
    unfold is_int64 in Hint. rewrite int64_id by (unfold is_int64; lia). rewrite <-Hv.
    assert (amounts_ok ((sel ++ [c]) ++ todo)) as Hok by done.
    destruct (Z.ltb_spec (value (sel ++ [c])) (Target req)) as [Hlt|Hge].
    + assert (rej = None) as ->.
      { destruct rej as [r|]; [|done]. specialize (Hs r eq_refl). lia. }
      specialize (IH (sel ++ [c]) None Hok (λ _, Hlt)).
      destruct (accumulate req todo _ _ _) as [res [[]|]]; [by apply IH..|].
      destruct IH as (n & Hlen & Hsel & Htot & Hch & Hch0 & Hmin & Hfirst); [done|].
      exists (S n). simpl. split; [lia|]. split; [by rewrite Hsel, <-app_assoc|].
      split_and!; [done..|]. intros HM _ [|m] Hm; [rewrite app_nil_r; auto|].
      simpl. replace (sel ++ c :: take m todo) with ((sel ++ [c]) ++ take m todo)
        by (by rewrite <-app_assoc). by apply Hfirst; [..|lia].
    + rewrite int64_id by (unfold is_int64; lia).
      destruct ((_ =? 0)%Z || _ || _) eqn:Hacc.
      * exists 1. simpl. rewrite take_0. split; [lia|]. split_and!; [done|done|done|lia| |].
        -- apply orb_true_iff in Hacc as [[?|?]%orb_true_iff|?]; zbool; lia.
        -- intros HM Hr m Hm. assert (m = 0) as -> by lia. rewrite app_nil_r. auto.
      * zbool.
        assert (∃ r, match rej with Some r => Some r | None =>
          Some (value (sel ++ [c])) end = Some r) as [r Hr] by (destruct rej; eauto).
        rewrite Hr. specialize (IH (sel ++ [c]) (Some r) Hok).
        destruct (accumulate req todo _ _ _) as [res [[]|]];
          [| |by apply IH; [|lia]..|].
        -- destruct IH as [? _]; [done|lia|done].
        -- apply IH; [done|lia].
        -- destruct IH as (n & Hlen & Hsel & Htot & Hch & Hch0 & Hmin & _); [done|lia|].
           exists (S n). simpl. split; [lia|]. split; [by rewrite Hsel, <-app_assoc|].
           split_and!; [done..|]. done.
Qed.

(** Whatever the amounts are, the loop selects a prefix of what is left. *)
Lemma accumulate_prefix req todo sel total rej res :
  accumulate req todo sel total rej = (res, None) →
  ∃ n, Selected res = sel ++ take n todo.
Proof.
  revert sel total rej. induction todo as [|c todo IH]; intros sel total rej; simpl;
    [by destruct rej|].
  destruct (_ <? Target req)%Z.
  - intros [n Hn]%IH. exists (S n). simpl. by rewrite Hn, <-app_assoc.
  - destruct (_ || _).
    + intros [= <-]. by exists 1.
    + intros [n Hn]%IH. exists (S n). simpl. by rewrite Hn, <-app_assoc.
Qed.

Lemma prefix_submseteq n l : take n (sort_desc l) ⊆+ l.
Proof.
  etrans; [apply sublist_submseteq, sublist_take|].
  apply Permutation_submseteq, sort_desc_perm.
Qed.

Lemma LargestFirst_submseteq cands req res :
  LargestFirst cands req = (res, None) → Selected res ⊆+ cands.
Proof.
  unfold LargestFirst. destruct (SweepAll req).
  - unfold selectAll. destruct cands; [done|]. by intros [= <-].
  - destruct (Target req <=? 0)%Z; [done|]. destruct cands as [|c cands]; [done|].
    intros [n ->]%accumulate_prefix. apply prefix_submseteq.
Qed.

Lemma amounts_ok_perm l l' : l ≡ₚ l' → amounts_ok l → amounts_ok l'.
Proof.
  intros Hp [H1 H2]. split; [intros c; rewrite <-Hp; auto|by rewrite <-Hp].
Qed.

Lemma value_submseteq s l :
  s ⊆+ l → (∀ c, c ∈ l → (0 ≤ amount c)%Z) → (value s ≤ value l)%Z.
Proof.
  intros [k Hk]%submseteq_Permutation Hl. rewrite Hk, value_app.
  assert (0 ≤ value k)%Z; [|lia]. apply value_nonneg. intros c Hc. apply Hl.
  rewrite Hk, elem_of_app. by right.
Qed.

Lemma amounts_ok_submseteq s l : s ⊆+ l → amounts_ok l → amounts_ok s.
Proof.
  intros Hs [H1 H2].
  assert (∀ c, c ∈ s → (0 ≤ amount c)%Z) as Hn by (intros c Hc; by eapply H1, elem_of_submseteq).
  split; [done|]. pose proof (value_submseteq s l Hs H1). pose proof (value_nonneg s Hn).
  unfold is_int64 in *. lia.
Qed.

Lemma sum_amounts_value l : amounts_ok l → sum_amounts l = value l.
Proof. intros [H1 H2]. unfold sum_amounts. by rewrite sum_amounts_from by (done || lia). Qed.

(** A bounded selection over a non-empty candidate set is the loop over the
    sorted candidates. *)
Lemma LargestFirst_loop cands req :
  SweepAll req = false → (0 < Target req)%Z → cands ≠ [] →
  LargestFirst cands req = accumulate req (sort_desc cands) [] 0 None.
Proof.
  intros Hs Ht Hc. unfold LargestFirst. rewrite Hs.
  destruct (Z.leb_spec (Target req) 0); [lia|]. by destruct cands.
Qed.

Lemma LargestFirst_spec cands req :
  SweepAll req = false → (0 < Target req)%Z → cands ≠ [] → amounts_ok cands →
  match LargestFirst cands req with
  | (res, None) =>
      ∃ n, n ≤ length cands ∧ Selected res = take n (sort_desc cands) ∧
        Total res = value (Selected res) ∧
        Change res = (Total res - Target req)%Z ∧ (0 ≤ Change res)%Z ∧
        (Change res = 0 ∨ MinChange req = 0 ∨ MinChange req ≤ Change res)%Z ∧
        (MinChange req = 0%Z → ∀ m, m < n →
           (value (take m (sort_desc cands)) < Target req)%Z)
  | (res, Some ErrSelectionShortfall) =>
      (value cands < Target req)%Z ∧ Selected res = [] ∧ Total res = value cands
  | (res, Some ErrChangeBelowMin) =>
      (Target req < value cands < Target req + MinChange req)%Z ∧ Selected res = []
  | (_, Some _) => False
  end.
Proof.
  intros Hs Ht Hc Hok. rewrite LargestFirst_loop by done.
  assert (amounts_ok ([] ++ sort_desc cands)) as Hoks.
  { eapply amounts_ok_perm; [|done]. symmetry. apply sort_desc_perm. }
  pose proof (accumulate_spec req (sort_desc cands) [] None Ht Hoks (λ _, Ht)
    ltac:(done)) as HA. simpl in HA.
  rewrite (Permutation_length (sort_desc_perm cands)) in HA.
  rewrite (value_Proper _ _ (sort_desc_perm cands)) in HA.
  destruct (accumulate req (sort_desc cands) [] 0 None) as [res [[]|]];
    [by destruct HA as [_ ?]|done..|].
  destruct HA as (n & ? & ? & ? & ? & ? & ? & ?).
  exists n. split_and!; [lia|done..|]. auto.
Qed.
End selector.

(** ** Properties *)

(** A successful selection pays: the selected coins are a prefix of the
    candidates in descending order (hence distinct candidates), the total is
    their exact sum, the change is the exact excess over the target, and it is
    zero or not below the requested minimum. *)
Theorem LargestFirst_covers_target {T} (amount : T → Z) cands req res :
  SweepAll req = false → amounts_ok amount cands →
  LargestFirst amount cands req = (res, None) →
  Selected res ⊆+ cands ∧ (∃ n, Selected res = take n (sort_desc amount cands)) ∧
  Total res = value amount (Selected res) ∧ (Target req ≤ Total res)%Z ∧
  Change res = (Total res - Target req)%Z ∧
  (Change res = 0 ∨ MinChange req = 0 ∨ MinChange req ≤ Change res)%Z.
Proof.
  intros Hs Hok HL.
  assert ((0 < Target req)%Z ∧ cands ≠ []) as [Ht Hc].
  { unfold LargestFirst in HL. rewrite Hs in HL.
    destruct (Z.leb_spec (Target req) 0); [done|]. split; [done|]. by destruct cands. }
  pose proof (LargestFirst_spec amount cands req Hs Ht Hc Hok) as HA. rewrite HL in HA.
  destruct HA as (n & _ & Hsel & ? & ? & ? & ? & _).
  split_and!; [|by exists n|done|lia|done|done].
  rewrite Hsel. apply prefix_submseteq.
Qed.

(** Without a change floor the selection is as small as possible: no set of
    candidates that covers the target has fewer coins. *)
Theorem LargestFirst_minimal {T} (amount : T → Z) cands req res s :
  SweepAll req = false → MinChange req = 0%Z → amounts_ok amount cands →
  LargestFirst amount cands req = (res, None) →
  s ⊆+ cands → (Target req ≤ value amount s)%Z →
  length (Selected res) ≤ length s.
Proof.
  intros Hs Hm Hok HL Hsub Hcov.
  assert ((0 < Target req)%Z ∧ cands ≠ []) as [Ht Hc].
  { unfold LargestFirst in HL. rewrite Hs in HL.
    destruct (Z.leb_spec (Target req) 0); [done|]. split; [done|]. by destruct cands. }
  pose proof (LargestFirst_spec amount cands req Hs Ht Hc Hok) as HA. rewrite HL in HA.
  destruct HA as (n & _ & -> & _ & _ & _ & _ & Hfirst).
  rewrite length_take. destruct (decide (length s < n)) as [Hlt|]; [|lia].
  specialize (Hfirst Hm (length s) Hlt).
  assert (value amount s ≤ value amount (take (length s) (sort_desc amount cands)))%Z; [|lia].
  apply desc_prefix_best; [apply sort_desc_sorted| | |done].
  - by rewrite (sort_desc_perm amount cands).
  - intros c. rewrite (sort_desc_perm amount cands). apply Hok.
Qed.

(** The errors say what they mean: a shortfall is reported exactly when all
    candidates together do not cover the target, with their full sum; and when
    the change floor is reported, the whole candidate set covers the target but
    every covering set leaves change below the floor. *)
Theorem LargestFirst_errors_exact {T} (amount : T → Z) cands req res err :
  SweepAll req = false → (0 < Target req)%Z → cands ≠ [] → amounts_ok amount cands →
  LargestFirst amount cands req = (res, err) →
  (err = Some ErrSelectionShortfall ↔ (value amount cands < Target req)%Z) ∧
  (err = Some ErrSelectionShortfall → Total res = value amount cands) ∧
  (err = Some ErrChangeBelowMin →
     (Target req < value amount cands)%Z ∧
     ∀ s, s ⊆+ cands → (Target req ≤ value amount s)%Z →
       (value amount s - Target req < MinChange req)%Z) ∧
  err ≠ Some ErrNoCandidates ∧ err ≠ Some ErrInvalidTarget.
Proof.
  intros Hs Ht Hc Hok HL.
  pose proof (LargestFirst_spec amount cands req Hs Ht Hc Hok) as HA. rewrite HL in HA.
  destruct err as [[]|]; try done.
  - destruct HA as (? & _ & ?). by split_and!.
  - destruct HA as [? _]. split_and!; try done.
    + split; [done|lia].
    + intros _. split; [lia|]. intros s Hsub Hcov.
      pose proof (value_submseteq amount s cands Hsub (proj1 Hok)). lia.
  - destruct HA as (n & _ & Hsel & Htot & Hch & Hch0 & _). split_and!; try done.
    split; [done|]. intros Hlt.
    assert (value amount (Selected res) ≤ value amount cands)%Z; [|lia].
    apply value_submseteq; [|apply Hok].
    rewrite Hsel. apply prefix_submseteq.
Qed.

(** The change floor does not search for exact fits: here the coin of 3
    satoshis covers the target of 3 exactly, yet the selector, which only
    considers prefixes of the descending order, reports that the change is below
    the minimum. *)
Theorem LargestFirst_misses_exact_fit :
  let req := mkRequest 3 10 false in
  [3%Z] ⊆+ [5%Z; 3%Z] ∧ value id [3%Z] = Target req ∧
  (LargestFirst id [5%Z; 3%Z] req).2 = Some ErrChangeBelowMin.
Proof.
  split; [apply submseteq_cons; done|]. split; reflexivity.
Qed.

(** ** A concrete wallet *)

Module SelectDemo.
Definition coins : list Z := [1000; 5000; 250; 5000]%Z.
Definition req : Request := mkRequest 5500 0 false.

Lemma coins_ok : amounts_ok id coins.
Proof.
  split; [|vm_compute; split; discriminate].
  intros c Hc. assert (Forall (λ c, 0 ≤ id c)%Z coins) as Hall.
  { repeat constructor; simpl; lia. }
  rewrite Forall_forall in Hall. auto.
Qed.
End SelectDemo.

Lemma LargestFirst_covers_target_witness :
  ∃ res, LargestFirst id SelectDemo.coins SelectDemo.req = (res, None) ∧
    (5500 ≤ Total res)%Z.
Proof.
  eexists. split; [vm_compute; reflexivity|].
  apply (LargestFirst_covers_target id SelectDemo.coins SelectDemo.req).
  - reflexivity.
  - apply SelectDemo.coins_ok.
  - vm_compute. reflexivity.
Defined.

Lemma LargestFirst_minimal_witness :
  ∃ res, LargestFirst id SelectDemo.coins SelectDemo.req = (res, None) ∧
    length (Selected res) ≤ length SelectDemo.coins.
Proof.
  eexists. split; [vm_compute; reflexivity|].
  apply (LargestFirst_minimal id SelectDemo.coins SelectDemo.req).
  - reflexivity.
  - reflexivity.
  - apply SelectDemo.coins_ok.
  - vm_compute. reflexivity.
  - reflexivity.
  - vm_compute. discriminate.
Defined.

Lemma LargestFirst_errors_exact_witness :
  (LargestFirst id SelectDemo.coins (mkRequest 99999 0 false)).2 =
  Some ErrSelectionShortfall.
Proof.
  eapply (LargestFirst_errors_exact id SelectDemo.coins (mkRequest 99999 0 false)).
  - reflexivity.
  - reflexivity.
  - discriminate.
  - apply SelectDemo.coins_ok.
  - apply surjective_pairing.
  - vm_compute. reflexivity.
Defined.
