(* ===== verification/BatchSchedule.v ===== *)
(** * Scheduled batches: [lib/batchschedule/schedule.go], [lib/batchschedule/published.go]

    The operator's anchored UTC timetable and the client's published view of it.

    An instant ([time.Time]) is its number of nanoseconds since the Unix epoch,
    an unbounded integer: locations and monotonic readings do not affect the
    operations used.  A [time.Duration] is a signed 64-bit number of
    nanoseconds.  [Hash256] stands for [sha256.Sum256] of the identity
    preimage. *)

From S2P Require Import Prelude.

(** ** Instants and durations *)

Abbreviation Time := Z.
Abbreviation Duration := Z.

Definition Second : Duration := 1000000000.
Definition Minute : Duration := 60000000000.

(** [t.Unix()] and [t.Nanosecond()]. *)
Definition Unix (t : Time) : Z := (t / Second)%Z.
Definition Nanosecond (t : Time) : Z := (t mod Second)%Z.
(** [time.Unix(sec, 0)] *)
Definition from_unix (sec : Z) : Time := (sec * Second)%Z.
(** The zero [time.Time] is midnight of January 1, year 1. *)
Definition zero_time : Time := from_unix (-62135596800).
(** [t.Sub(u)] saturates at the bounds of [time.Duration]. *)
Definition Sub (t u : Time) : Duration :=
  Z.max (-9223372036854775808) (Z.min 9223372036854775807 (t - u)).
(** [t.Add(d)] *)
Definition Add (t : Time) (d : Duration) : Time := (t + d)%Z.

(** ** Data *)

Definition MinRegistrationWindow : Duration := 10 * Second.
Definition MaxRegistrationWindow : Duration := 5 * Minute.
Definition maxUnixSecond : Z := 253402300799.
Definition MaxPublishedSlots : nat := 32.
Definition MaxWakeMargin : Duration := 2 * Second.

(** 32 bytes, big-endian. *)
Abbreviation ID := N.
Definition ID_IsZero (id : ID) : bool := bool_decide (id = 0%N).

Record Schedule := mkSchedule {
  anchor : Time;
  interval : Duration;
  window : Duration;
  sched_id : ID;
}.

Record Slot := mkSlot { Opens : Time; Cutoff : Time }.

#[export] Instance Slot_eq_dec : EqDecision Slot.
Proof. solve_decision. Defined.

Definition Slot_Window (s : Slot) : Duration := Sub (Cutoff s) (Opens s).

Record Selection := mkSelection { ScheduleID : ID; sel_Cutoff : Time }.

Record Published := mkPublished {
  pub_id : ID;
  slots : list Slot;
  serverTime : Time;
  clockOffset : Duration;
}.

Definition isWholeSecond (t : Time) : bool := (Nanosecond t =? 0)%Z.

Definition inRange (t : Time) : bool :=
  isWholeSecond t && (0 <? Unix t)%Z && (Unix t <=? maxUnixSecond)%Z.

(** ** Selections *)

Definition Selection_Validate (s : Selection) : result error unit :=
  if ID_IsZero (ScheduleID s)
  then Err "scheduled slot selection has no schedule identity"
  else if negb (inRange (sel_Cutoff s))
  then Err "scheduled slot selection has invalid cutoff"
  else Ok tt.

Definition Matches (s : Selection) (id : ID) (cutoff : Time) : bool :=
  bool_decide (ScheduleID s = id) && (sel_Cutoff s =? cutoff)%Z.

(** The wire cutoff is a [uint64]. *)
Definition SelectionFromUnix (id : ID) (cutoffUnix : Z) : result error Selection :=
  guard* negb (maxUnixSecond <? cutoffUnix)%Z
    else "scheduled slot cutoff is out of range" in
  let selection := mkSelection id (from_unix (int64 cutoffUnix)) in
  check* Selection_Validate selection in Ok selection.

Definition CutoffUnix (s : Selection) : Z := uint64 (Unix (sel_Cutoff s)).

(** ** The operator's timetable *)

Section schedule.
Context (Hash256 : string → ID).

Definition identity_preimage (anchorSec intervalSec windowSec : Z) : string :=
  "batch-schedule-v1:" +:+ pretty anchorSec +:+ ":" +:+ pretty intervalSec +:+ ":" +:+
  pretty windowSec.

Definition New (anchor interval window : Z) : result error Schedule :=
  if negb (isWholeSecond anchor) || (Unix anchor <? 0)%Z ||
     (maxUnixSecond <? Unix anchor)%Z
  then Err "anchor must be a whole UTC second from 1970 through 9999"
  else if (interval <=? 0)%Z || negb (Z.rem interval Second =? 0)%Z
  then Err "interval must be a positive whole number of seconds"
  else if (window <=? 0)%Z || negb (Z.rem window Second =? 0)%Z
  then Err "registration window must be a positive whole number of seconds"
  else if (window <? MinRegistrationWindow)%Z
  then Err "registration window is below minimum"
  else if (interval <? window)%Z
  then Err "registration window exceeds interval"
  else if (MaxRegistrationWindow <? window)%Z
  then Err "registration window exceeds maximum"
  else
    Ok (mkSchedule anchor interval window
          (Hash256 (identity_preimage (Unix anchor) (Z.quot interval Second)
                      (Z.quot window Second)))).
End schedule.

Definition slotAt (s : Schedule) (cutoffSec : Z) : Slot :=
  let cutoff := from_unix cutoffSec in
  mkSlot (Add cutoff (int64 (- window s))) cutoff.

Definition Next (s : Schedule) (after : Time) : result error Slot :=
  let sec := Unix after in
  if (sec <? 0)%Z || (maxUnixSecond <? sec)%Z
  then Err "time outside supported schedule range"
  else
    let anchor := Unix (anchor s) in
    if (sec <? anchor)%Z then Ok (slotAt s anchor)
    else
      let interval := Z.quot (interval s) Second in
      let delta := int64 (interval - Z.rem (int64 (sec - anchor)) interval) in
      if (int64 (maxUnixSecond - sec) <? delta)%Z
      then Err "next slot exceeds supported timestamp range"
      else Ok (slotAt s (int64 (sec + delta))).

Definition At (s : Schedule) (cutoff : Time) : result error Slot :=
  let sec := Unix cutoff in
  let anchor := Unix (anchor s) in
  let interval := Z.quot (interval s) Second in
  if negb (inRange cutoff) then Err "cutoff is not a supported whole second"
  else if (sec <? anchor)%Z || negb (Z.rem (int64 (sec - anchor)) interval =? 0)%Z
  then Err "cutoff does not belong to schedule"
  else Ok (slotAt s sec).

(** ** The client's published view *)

(** The validation loop; [prev] is the previous slot's cutoff, if any. *)
Fixpoint validate_slots (prev : option Time) (l : list Slot) : result error unit :=
  match l with
  | [] => Ok tt
  | slot :: l =>
      if negb (isWholeSecond (Opens slot)) || (Unix (Opens slot) <? 0)%Z ||
         negb (inRange (Cutoff slot)) || negb (Opens slot <? Cutoff slot)%Z
      then Err "invalid published slot"
      else if (Slot_Window slot <? MinRegistrationWindow)%Z
      then Err "published slot window below minimum"
      else if (MaxRegistrationWindow <? Slot_Window slot)%Z
      then Err "published slot window too long"
      else if from_option (λ prevCutoff, Opens slot <? prevCutoff)%Z false prev
      then Err "published slots overlap or are unordered"
      else validate_slots (Some (Cutoff slot)) l
  end.

Definition NewPublished (id : ID) (l : list Slot) : result error Published :=
  if ID_IsZero id || bool_decide (l = []) ||
     bool_decide (MaxPublishedSlots < length l)
  then Err "invalid published schedule identity or size"
  else
    check* validate_slots None l in
    Ok (mkPublished id l zero_time 0).

Definition WithServerTime (p : Published) (t : Time) : Published :=
  mkPublished (pub_id p) (slots p) t (clockOffset p).

Definition WithClockOffset (p : Published) (offset : Duration) : Published :=
  mkPublished (pub_id p) (slots p) (serverTime p) offset.

Fixpoint next_loop (after : Time) (l : list Slot) : result error Slot :=
  match l with
  | [] => Err "published batch schedule exhausted"
  | slot :: l => if (after <? Cutoff slot)%Z then Ok slot else next_loop after l
  end.

Definition Published_Next (p : Published) (after : Time) : result error Slot :=
  next_loop after (slots p).

Definition EstimateClockOffset (serverTime sent received : Time) : Duration :=
  if (serverTime =? zero_time)%Z || (received <? sent)%Z then 0%Z
  else
    let midpoint := Add sent (Z.quot (Sub received sent) 2) in
    Sub (Add serverTime (Z.quot Second 2)) midpoint.

Definition WakeBounds (window : Duration) : Duration * Duration :=
  (MaxWakeMargin, Z.quot window 2).

(** ** Timetables in whole seconds *)

(** A constructed timetable, by its parameters in seconds. *)
Record schedule_ok (s : Schedule) (A I W : Z) : Prop := {
  so_anchor : anchor s = from_unix A;
  so_interval : interval s = from_unix I;
  so_window : window s = from_unix W;
  so_anchor_range : (0 ≤ A ≤ maxUnixSecond)%Z;
  so_window_range : (10 ≤ W ≤ 300)%Z;
  so_window_interval : (W ≤ I)%Z;
  so_interval_int64 : is_int64 (from_unix I);
}.

Lemma Unix_from_unix a : Unix (from_unix a) = a.
Proof. unfold Unix, from_unix, Second. by rewrite Z.div_mul. Qed.

Lemma whole_second t : isWholeSecond t = true ↔ t = from_unix (Unix t).
Proof.
  unfold isWholeSecond, Nanosecond, Unix, from_unix, Second. rewrite Z.eqb_eq.
  pose proof (Z.div_mod t 1000000000). lia.
Qed.

Lemma rem_second d : (0 < d)%Z → Z.rem d Second = 0%Z ↔ d = from_unix (d / Second).
Proof.
  intros Hd. unfold from_unix, Second. rewrite Z.rem_mod_nonneg by lia.
  pose proof (Z.div_mod d 1000000000). lia.
Qed.

Lemma quot_from_unix a : Z.quot (from_unix a) Second = a.
Proof. unfold from_unix, Second. by rewrite Z.quot_mul. Qed.

Lemma New_ok_inv H a i w s :
  is_int64 i → New H a i w = Ok s →
  ∃ A I W, a = from_unix A ∧ i = from_unix I ∧ w = from_unix W ∧ schedule_ok s A I W ∧
    sched_id s = H (identity_preimage A I W).
Proof.
  intros Hi. unfold New. intros HN. inv_ok. zbool.
  rename select (isWholeSecond a = true) into Ha. apply whole_second in Ha.
  rename select (Z.rem i Second = 0%Z) into Hri. apply rem_second in Hri; [|lia].
  rename select (Z.rem w Second = 0%Z) into Hrw. apply rem_second in Hrw; [|lia].
  set (A := Unix a) in *. set (I := (i / Second)%Z) in *. set (W := (w / Second)%Z) in *.
  clearbody A I W. subst a i w. rewrite ?quot_from_unix. exists A, I, W. split_and!; try done.
  unfold MinRegistrationWindow, MaxRegistrationWindow, Minute, from_unix, Second in *.
  constructor; simpl; try done; lia.
Qed.

Lemma New_ok_intro H A I W :
  (0 ≤ A ≤ maxUnixSecond)%Z → (10 ≤ W ≤ 300)%Z → (W ≤ I)%Z →
  ∃ s, New H (from_unix A) (from_unix I) (from_unix W) = Ok s.
Proof.
  intros HA HW HI. unfold New.
  rewrite (proj2 (whole_second (from_unix A))) by (by rewrite Unix_from_unix).
  rewrite Unix_from_unix.
  assert (∀ x, (10 ≤ x)%Z → Z.rem (from_unix x) Second = 0%Z ∧ (0 < from_unix x)%Z) as Hx.
  { intros x Hx. unfold from_unix, Second. rewrite Z.rem_mul by lia. lia. }
  destruct (Hx I) as [-> ?]; [lia|]. destruct (Hx W) as [-> ?]; [lia|].
  unfold MinRegistrationWindow, MaxRegistrationWindow, Minute in *.
  repeat match goal with |- context [(?a <? ?b)%Z] => destruct (Z.ltb_spec a b);
    [try (unfold from_unix, Second in *; lia)|] end.
  repeat match goal with |- context [(?a <=? ?b)%Z] => destruct (Z.leb_spec a b); [lia|] end.
  simpl. eauto.
Qed.

(** ** The next cutoff *)

(** The first grid second strictly after [sec]. *)
Definition next_cutoff (A I sec : Z) : Z :=
  if (sec <? A)%Z then A else (A + ((sec - A) / I + 1) * I)%Z.

Lemma next_cutoff_grid A I sec :
  (0 < I)%Z → ∃ n, (0 ≤ n)%Z ∧ next_cutoff A I sec = (A + n * I)%Z.
Proof.
  intros HI. unfold next_cutoff. destruct (Z.ltb_spec sec A).
  - exists 0%Z. lia.
  - exists ((sec - A) / I + 1)%Z. pose proof (Z.div_pos (sec - A) I). lia.
Qed.

Lemma next_cutoff_after A I sec : (0 < I)%Z → (sec < next_cutoff A I sec)%Z.
Proof.
  intros HI. unfold next_cutoff. destruct (Z.ltb_spec sec A); [lia|].
  pose proof (Z.mul_succ_div_gt (sec - A) I HI). lia.
Qed.

Lemma next_cutoff_least A I sec n :
  (0 < I)%Z → (0 ≤ n)%Z → (sec < A + n * I)%Z → (next_cutoff A I sec ≤ A + n * I)%Z.
Proof.
  intros HI Hn Hlt. unfold next_cutoff. destruct (Z.ltb_spec sec A); [nia|].
  assert ((sec - A) / I < n)%Z by (apply Z.div_lt_upper_bound; lia). nia.
Qed.

Definition slot_of (W c : Z) : Slot := mkSlot (from_unix (c - W)) (from_unix c).

Lemma slotAt_slot_of s A I W c :
  schedule_ok s A I W → slotAt s c = slot_of W c.
Proof.
  intros [? ? Hw ? ? ? ?]. unfold slotAt, slot_of, Add. rewrite Hw. f_equal.
  rewrite int64_id by (unfold is_int64, from_unix, Second; lia).
  unfold from_unix. lia.
Qed.

(** [Next] in closed form. *)
Lemma Next_closed s A I W after :
  schedule_ok s A I W →
  Next s after =
  if (0 <=? Unix after)%Z && (Unix after <=? maxUnixSecond)%Z then
    if (next_cutoff A I (Unix after) <=? maxUnixSecond)%Z
    then Ok (slot_of W (next_cutoff A I (Unix after)))
    else Err "next slot exceeds supported timestamp range"
  else Err "time outside supported schedule range".
Proof.
  intros Hok. pose proof Hok as [Ha Hi Hw HA HW HI H64]. unfold Next.
  set (sec := Unix after). rewrite Ha, Hi, Unix_from_unix, quot_from_unix.
  assert (maxUnixSecond = 253402300799)%Z as Hmax by done.
  destruct (Z.ltb_spec sec 0), (Z.leb_spec 0 sec); simpl; try lia; [done|].
  destruct (Z.ltb_spec maxUnixSecond sec), (Z.leb_spec sec maxUnixSecond); simpl; try lia;
    [done|].
  unfold next_cutoff. destruct (Z.ltb_spec sec A) as [Hlt|Hge].
  { rewrite (slotAt_slot_of s A I W) by done. destruct (Z.leb_spec A maxUnixSecond); [done|lia]. }
  assert (is_int64 (sec - A)) as Hsa by (unfold is_int64; lia).
  rewrite (int64_id (sec - A)) by done. rewrite Z.rem_mod_nonneg by lia.
  pose proof (Z.mod_pos_bound (sec - A) I ltac:(lia)) as Hm.
  pose proof (Z.div_mod (sec - A) I ltac:(lia)) as Hd.
  unfold is_int64, from_unix, Second in H64.
  rewrite (int64_id (I - _)) by (unfold is_int64; lia).
  rewrite (int64_id (maxUnixSecond - sec)) by (unfold is_int64; lia).
  assert (A + ((sec - A) / I + 1) * I = sec + (I - (sec - A) mod I))%Z as Hc by lia.
  rewrite Hc. set (d := (I - (sec - A) mod I)%Z) in *.
  destruct (Z.ltb_spec (maxUnixSecond - sec) d), (Z.leb_spec (sec + d) maxUnixSecond);
    try lia; [done|].
  rewrite int64_id by (unfold is_int64; lia). by rewrite (slotAt_slot_of s A I W).
Qed.

Lemma Unix_lt t c : (Unix t < c)%Z ↔ (t < from_unix c)%Z.
Proof.
  unfold Unix, from_unix, Second. split; intros Ht.
  - pose proof (Z.mul_succ_div_gt t 1000000000). lia.
  - apply Z.div_lt_upper_bound; lia.
Qed.

(** [At] in closed form, on grid points. *)
Lemma At_grid s A I W n :
  schedule_ok s A I W → (0 ≤ n)%Z → (0 < A + n * I ≤ maxUnixSecond)%Z →
  At s (from_unix (A + n * I)) = Ok (slot_of W (A + n * I)).
Proof.
  intros Hok Hn Hr. pose proof Hok as [Ha Hi Hw HA HW HI H64].
  unfold At, inRange. rewrite Unix_from_unix, Ha, Hi, Unix_from_unix, quot_from_unix.
  rewrite (proj2 (whole_second (from_unix _))) by (by rewrite Unix_from_unix).
  destruct (Z.ltb_spec 0 (A + n * I)); [|lia].
  destruct (Z.leb_spec (A + n * I) maxUnixSecond); [|lia]. simpl.
  destruct (Z.ltb_spec (A + n * I) A); [nia|].
  replace (A + n * I - A)%Z with (n * I)%Z by lia.
  assert (maxUnixSecond = 253402300799)%Z as Hmax by done.
  rewrite int64_id by (unfold is_int64; nia). rewrite Z.rem_mul by lia. simpl.
  by rewrite (slotAt_slot_of s A I W).
Qed.

(** ** Publishing a timetable *)

(** What an operator publishes: the next [n] slots after an instant. *)
Fixpoint publish (s : Schedule) (n : nat) (after : Time) : list Slot :=
  match n with
  | 0 => []
  | S n =>
      match Next s after with
      | Ok slot => slot :: publish s n (Cutoff slot)
      | Err _ => []
      end
  end.

Section publish.
Context (s : Schedule) (A I W : Z) (Hok : schedule_ok s A I W).

Lemma Next_ok after slot :
  Next s after = Ok slot →
  ∃ c, slot = slot_of W c ∧ c = next_cutoff A I (Unix after) ∧
    (0 ≤ Unix after)%Z ∧ (Unix after < c ≤ maxUnixSecond)%Z.
Proof.
  rewrite (Next_closed s A I W) by done. intros HN.
  destruct (Z.leb_spec 0 (Unix after)); simpl in HN; [|done].
  destruct (Z.leb_spec (Unix after) maxUnixSecond); simpl in HN; [|done].
  destruct (Z.leb_spec (next_cutoff A I (Unix after)) maxUnixSecond); [|done].
  injection HN as <-. eexists. split; [done|]. split; [done|]. split; [done|].
  destruct Hok. pose proof (next_cutoff_after A I (Unix after)). lia.
Qed.

(** Between an instant and its next cutoff the next slot does not change. *)
Lemma Next_between after slot after' :
  Next s after = Ok slot → (after ≤ after')%Z → (after' < Cutoff slot)%Z →
  Next s after' = Ok slot.
Proof.
  intros HN Hle Hlt. destruct (Next_ok after slot HN) as (c & -> & Hc & H0 & Hr).
  simpl in Hlt. apply Unix_lt in Hlt.
  assert (Unix after ≤ Unix after')%Z as Hu by (apply Z.div_le_mono; [done|lia]).
  rewrite (Next_closed s A I W) by done.
  assert (next_cutoff A I (Unix after') = c) as ->.
  { destruct Hok. destruct (next_cutoff_grid A I (Unix after)) as (n & Hn & Hcn); [lia|].
    destruct (next_cutoff_grid A I (Unix after')) as (m & Hm & Hcm); [lia|].
    pose proof (next_cutoff_after A I (Unix after') ltac:(lia)).
    apply Z.le_antisymm.
    - rewrite Hc, Hcn. apply next_cutoff_least; lia.
    - rewrite Hcm, Hc. apply next_cutoff_least; lia. }
  destruct (Z.leb_spec 0 (Unix after')); [|lia].
  destruct (Z.leb_spec (Unix after') maxUnixSecond); [|lia].
  destruct (Z.leb_spec c maxUnixSecond); [done|lia].
Qed.

Lemma next_loop_publish n after after' slot :
  (after ≤ after')%Z → next_loop after' (publish s n after) = Ok slot →
  Next s after' = Ok slot.
Proof.
  revert after. induction n as [|n IH]; intros after Hle; simpl; [done|].
  destruct (Next s after) as [sl|] eqn:HN; [|done]. simpl.
  destruct (Z.ltb_spec after' (Cutoff sl)).
  - intros [= <-]. by eapply Next_between.
  - apply IH. lia.
Qed.

Lemma next_loop_some after' l slot :
  slot ∈ l → (after' < Cutoff slot)%Z → ∃ sl, next_loop after' l = Ok sl.
Proof.
  induction l as [|x l IH]; [by intros ?%not_elem_of_nil|]. intros Hin Hlt. simpl.
  destruct (Z.ltb_spec after' (Cutoff x)); [eauto|].
  apply elem_of_cons in Hin as [->|Hin]; [lia|]. auto.
Qed.

(** A later slot opens no earlier than the previous cutoff. *)
Lemma publish_valid n after prev :
  (W ≤ A)%Z ∨ (A ≤ Unix after)%Z →
  (∀ c, prev = Some c → c = after ∧ ∃ m, (0 ≤ m)%Z ∧ c = from_unix (A + m * I)) →
  validate_slots prev (publish s n after) = Ok tt.
Proof.
  revert after prev. induction n as [|n IH]; intros after prev HA Hprev; simpl; [done|].
  destruct (Next s after) as [slot|] eqn:HN; [|done].
  destruct (Next_ok after slot HN) as (c & -> & Hc & H0 & Hr). destruct Hok.
  destruct (next_cutoff_grid A I (Unix after)) as (k & Hk & Hck); [lia|].
  assert (W ≤ c)%Z as HWc.
  { rewrite Hc. unfold next_cutoff in *. destruct (Z.ltb_spec (Unix after) A) as [|Hge]; [lia|].
    pose proof (Z.div_pos (Unix after - A) I). nia. }
  cbn [validate_slots slot_of Opens Cutoff]. unfold Slot_Window, inRange. simpl.
  rewrite !(proj2 (whole_second (from_unix _))) by (by rewrite Unix_from_unix).
  rewrite !Unix_from_unix. unfold Sub.
  assert (from_unix c - from_unix (c - W) = from_unix W)%Z as -> by (unfold from_unix; lia).
  rewrite (Z.min_r _ (from_unix W)), (Z.max_r _ (from_unix W)) by (unfold from_unix, Second; lia).
  destruct (Z.ltb_spec (c - W) 0); [lia|]. destruct (Z.ltb_spec 0 c); [|lia].
  destruct (Z.leb_spec c maxUnixSecond); [|lia].
  destruct (Z.ltb_spec (from_unix (c - W)) (from_unix c)) as [_|Hbad];
    [|unfold from_unix, Second in Hbad; lia].
  unfold MinRegistrationWindow, MaxRegistrationWindow, Minute. simpl.
  destruct (Z.ltb_spec (from_unix W) (10 * Second)) as [Hbad|_];
    [unfold from_unix, Second in Hbad; lia|].
  destruct (Z.ltb_spec (5 * 60000000000) (from_unix W)) as [Hbad|_];
    [unfold from_unix, Second in Hbad; lia|].
  assert (from_option (λ prevCutoff, from_unix (c - W) <? prevCutoff)%Z false prev = false) as ->.
  { destruct prev as [pc|]; [|done]. destruct (Hprev pc eq_refl) as (-> & m & Hm & Hpc).
    simpl. apply Z.ltb_ge. rewrite Hpc in *. rewrite Unix_from_unix in *.
    assert (A + m * I + I ≤ c)%Z; [|unfold from_unix, Second; lia].
    rewrite Hc, Hck in *. assert (m < k)%Z by nia. nia. }
  apply IH.
  - right. simpl. rewrite Unix_from_unix. nia.
  - intros ? [= <-]. split; [done|]. exists k. rewrite Hc, Hck. done.
Qed.
End publish.

(** ** Properties *)

(** A timetable is exactly what the documentation says: [New] accepts a
    whole-second anchor from 1970 through 9999, a whole-second interval, and a
    whole-second window between ten seconds and five minutes that is no longer
    than the interval, and refuses everything else. *)
Theorem New_accepts_exactly H a i w :
  is_int64 i →
  (∃ s, New H a i w = Ok s) ↔
  ∃ A I W, a = from_unix A ∧ i = from_unix I ∧ w = from_unix W ∧
    (0 ≤ A ≤ maxUnixSecond)%Z ∧ (10 ≤ W ≤ 300)%Z ∧ (W ≤ I)%Z.
Proof.
  intros Hi. split.
  - intros [s HN]. destruct (New_ok_inv H a i w s Hi HN) as (A & I & W & ? & ? & ? & [] & _).
    exists A, I, W. done.
  - intros (A & I & W & -> & -> & -> & ? & ? & ?). by apply New_ok_intro.
Qed.

(** [Next] returns the first cutoff of the grid anchor + n * interval that
    lies strictly after the instant, with registration opening exactly one
    window before it; it fails for an instant in the supported range only when
    that cutoff would fall after the year 9999, and [At] recognises every cutoff
    it returns. *)
Theorem Next_first_cutoff_after H a i w s after :
  is_int64 i → New H a i w = Ok s → (0 ≤ Unix after ≤ maxUnixSecond)%Z →
  ∃ n, (0 ≤ n)%Z ∧
    let c := (a + n * i)%Z in
    (after < c)%Z ∧ (∀ m, (0 ≤ m)%Z → (after < a + m * i)%Z → (c ≤ a + m * i)%Z) ∧
    if (Unix c <=? maxUnixSecond)%Z
    then Next s after = Ok (mkSlot (c - w)%Z c) ∧
         ((0 < c)%Z → At s c = Ok (mkSlot (c - w)%Z c))
    else Next s after = Err "next slot exceeds supported timestamp range".
Proof.
  intros Hi HN Hr. destruct (New_ok_inv H a i w s Hi HN) as (A & I & W & -> & -> & -> & Hok & _).
  pose proof Hok as [_ _ _ HA HW HI _].
  assert (∀ m, from_unix A + m * from_unix I = from_unix (A + m * I))%Z as Hg.
  { intros m. unfold from_unix. lia. }
  destruct (next_cutoff_grid A I (Unix after)) as (n & Hn & Hc); [lia|].
  pose proof (next_cutoff_after A I (Unix after) ltac:(lia)) as Haft.
  exists n. split; [done|]. cbv zeta. rewrite Hg, Unix_from_unix, <-Hc. split_and!.
  - by apply Unix_lt.
  - intros m Hm. rewrite Hg, <-Unix_lt. intros Hlt.
    assert (next_cutoff A I (Unix after) ≤ A + m * I)%Z by (apply next_cutoff_least; lia).
    unfold from_unix, Second. lia.
  - rewrite (Next_closed s A I W) by done.
    destruct (Z.leb_spec 0 (Unix after)); [|lia].
    destruct (Z.leb_spec (Unix after) maxUnixSecond); [|lia]. simpl.
    destruct (Z.leb_spec (next_cutoff A I (Unix after)) maxUnixSecond); [|done].
    assert (slot_of W (next_cutoff A I (Unix after)) =
      mkSlot (from_unix (next_cutoff A I (Unix after)) - from_unix W)
        (from_unix (next_cutoff A I (Unix after)))) as <-.
    { unfold slot_of, from_unix. f_equal. lia. }
    split; [done|]. intros Hpos. rewrite Hc in *. apply (At_grid s A I W); [done..|].
    unfold from_unix, Second in Hpos. lia.
Qed.

(** Client and operator agree: a client that received the slots the operator
    published at some instant accepts the list, and from then on, as long as the
    list is not exhausted, picks from it exactly the slot the operator's own
    timetable computes - never one that is closed or invented. *)
Theorem Published_agrees_with_schedule H a i w s id n t0 t :
  is_int64 i → New H a i w = Ok s → id ≠ 0%N → n ≤ MaxPublishedSlots →
  (w ≤ a ∨ a ≤ t0)%Z → publish s n t0 ≠ [] → (t0 ≤ t)%Z →
  ∃ p, NewPublished id (publish s n t0) = Ok p ∧
    ((∃ slot, slot ∈ publish s n t0 ∧ (t < Cutoff slot)%Z) →
     ∃ slot, Published_Next p t = Ok slot ∧ Next s t = Ok slot).
Proof.
  intros Hi HN Hid Hn Hwa Hne Ht.
  destruct (New_ok_inv H a i w s Hi HN) as (A & I & W & -> & -> & -> & Hok & _).
  assert (validate_slots None (publish s n t0) = Ok tt) as Hv.
  { apply (publish_valid s A I W Hok); [|done]. destruct Hwa as [Hw|Ha].
    - left. unfold from_unix, Second in Hw. lia.
    - right. rewrite <-(Unix_from_unix A). apply Z.div_le_mono; done. }
  assert (length (publish s n t0) ≤ n) as Hlen.
  { clear. revert t0. induction n as [|n IH]; intros t0; simpl; [done|].
    destruct (Next s t0) as [sl|]; simpl; [|lia]. specialize (IH (Cutoff sl)). lia. }
  exists (mkPublished id (publish s n t0) zero_time 0). split.
  - unfold NewPublished, ID_IsZero. rewrite Hv.
    rewrite !bool_decide_eq_false_2 by (done || lia). done.
  - intros (slot & Hin & Hlt). destruct (next_loop_some t _ slot Hin Hlt) as [sl Hsl].
    exists sl. split; [done|]. by eapply (next_loop_publish s A I W Hok).
Qed.

(** The clock estimate is within half a second plus half the round trip of
    the truth: if the operator's clock is ahead of the local one by [d], and the
    operator truncated its reading at some moment between sending and receiving,
    the estimated offset differs from [d] by at most that (one more nanosecond
    covers the rounding of the midpoint). *)
Theorem EstimateClockOffset_error d sent received now server :
  (sent ≤ now ≤ received)%Z → server = from_unix (Unix (now + d)) →
  server ≠ zero_time → (received - sent < 2305843009213693952)%Z →
  (-4611686018427387904 < d < 4611686018427387904)%Z →
  (Z.abs (EstimateClockOffset server sent received - d) ≤
     Z.quot Second 2 + (received - sent) / 2 + 1)%Z.
Proof.
  intros Hn Hs Hz Hrt Hd. unfold EstimateClockOffset.
  destruct (Z.eqb_spec server zero_time); [done|].
  destruct (Z.ltb_spec received sent); [lia|]. simpl.
  unfold Sub, Add. rewrite (Z.min_r _ (received - sent)) by lia.
  rewrite (Z.max_r _ (received - sent)) by lia.
  rewrite (Z.quot_div_nonneg (received - sent)) by lia.
  change (Z.quot Second 2) with 500000000%Z.
  assert (now + d - 1000000000 < server ≤ now + d)%Z as Hb.
  { rewrite Hs. unfold from_unix, Unix, Second.
    pose proof (Z.div_mod (now + d) 1000000000). pose proof (Z.mod_pos_bound (now + d) 1000000000).
    lia. }
  pose proof (Z.div_mod (received - sent) 2). pose proof (Z.mod_pos_bound (received - sent) 2).
  set (h := ((received - sent) / 2)%Z) in *. clearbody h. lia.
Qed.

(** A selection survives the wire: encoding the cutoff of a valid selection
    as Unix seconds and rebuilding the selection gives it back, and rebuilding
    from any accepted wire value keeps that value. *)
Theorem Selection_wire_roundtrip sel id c :
  (Selection_Validate sel = Ok tt →
     SelectionFromUnix (ScheduleID sel) (CutoffUnix sel) = Ok sel) ∧
  (∀ sel', (0 ≤ c)%Z → SelectionFromUnix id c = Ok sel' →
     CutoffUnix sel' = c ∧ ScheduleID sel' = id ∧ Selection_Validate sel' = Ok tt).
Proof.
  assert (maxUnixSecond = 253402300799)%Z as Hmax by done. split.
  - intros HV. pose proof HV as HV'. unfold Selection_Validate in HV.
    destruct (ID_IsZero _); [done|]. destruct (inRange (sel_Cutoff sel)) eqn:Hr; [|done].
    unfold inRange in Hr. zbool.
    match goal with E : isWholeSecond _ = true |- _ => apply whole_second in E as Hw end.
    unfold CutoffUnix, SelectionFromUnix, uint64. rewrite Z.mod_small by lia.
    destruct (Z.ltb_spec maxUnixSecond (Unix (sel_Cutoff sel))); [lia|]. simpl.
    rewrite int64_id by (unfold is_int64; lia). rewrite <-Hw.
    destruct sel as [i t]. simpl in *. by rewrite HV'.
  - intros sel' Hc HS. unfold SelectionFromUnix in HS. inv_ok. zbool.
    rewrite int64_id in * by (unfold is_int64; lia). split_and!; [|done|done].
    unfold CutoffUnix, uint64. simpl. rewrite Unix_from_unix, Z.mod_small by lia. done.
Qed.

(** ** A concrete timetable *)
Module ScheduleDemo.
(** Cutoffs every hour from the first of January 2026, one minute of
    registration. *)
Definition hash (s : string) : ID := N.of_nat (String.length s).
Definition anchor : Time := from_unix 1767225600.
Definition interval : Duration := from_unix 3600.
Definition window : Duration := from_unix 60.
Definition sched : Schedule :=
  match New hash anchor interval window with
  | Ok s => s
  | Err _ => mkSchedule 0 0 0 0
  end.

Lemma sched_ok : New hash anchor interval window = Ok sched.
Proof. vm_compute. reflexivity. Qed.

Lemma interval_int64 : is_int64 interval.
Proof. vm_compute. split; discriminate. Qed.

(** Half past the third hour. *)
Definition now : Time := from_unix (1767225600 + 3 * 3600 + 1800).
End ScheduleDemo.

Lemma New_accepts_exactly_witness :
  ∃ s, New ScheduleDemo.hash ScheduleDemo.anchor ScheduleDemo.interval
         ScheduleDemo.window = Ok s.
Proof.
  apply (New_accepts_exactly ScheduleDemo.hash).
  - apply ScheduleDemo.interval_int64.
  - exists 1767225600%Z, 3600%Z, 60%Z. unfold maxUnixSecond.
    split; [reflexivity|]. split; [reflexivity|]. split; [reflexivity|]. lia.
Defined.

Lemma Next_first_cutoff_after_witness :
  ∃ n, (0 ≤ n)%Z ∧
    (ScheduleDemo.now < ScheduleDemo.anchor + n * ScheduleDemo.interval)%Z.
Proof.
  edestruct (Next_first_cutoff_after ScheduleDemo.hash ScheduleDemo.anchor
    ScheduleDemo.interval ScheduleDemo.window ScheduleDemo.sched ScheduleDemo.now)
    as (n & Hn & Hlt & _).
  - apply ScheduleDemo.interval_int64.
  - apply ScheduleDemo.sched_ok.
  - vm_compute. split; discriminate.
  - exists n. split; [exact Hn|exact Hlt].
Defined.

Lemma Published_agrees_with_schedule_witness :
  ∃ p, NewPublished 7 (publish ScheduleDemo.sched 3 ScheduleDemo.now) = Ok p.
Proof.
  edestruct (Published_agrees_with_schedule ScheduleDemo.hash ScheduleDemo.anchor
    ScheduleDemo.interval ScheduleDemo.window ScheduleDemo.sched 7 3 ScheduleDemo.now
    ScheduleDemo.now) as (p & Hp & _).
  - apply ScheduleDemo.interval_int64.
  - apply ScheduleDemo.sched_ok.
  - discriminate.
  - unfold MaxPublishedSlots. lia.
  - left. vm_compute. discriminate.
  - vm_compute. discriminate.
  - lia.
  - exists p. exact Hp.
Defined.

Lemma EstimateClockOffset_error_witness :
  (Z.abs (EstimateClockOffset (from_unix 1000) (from_unix 990) (from_unix 992) -
          from_unix 9) ≤ Z.quot Second 2 + (from_unix 992 - from_unix 990) / 2 + 1)%Z.
Proof.
  apply (EstimateClockOffset_error (from_unix 9) (from_unix 990) (from_unix 992)
    (from_unix 991)).
  - vm_compute. split; discriminate.
  - vm_compute. reflexivity.
  - vm_compute. discriminate.
  - vm_compute. reflexivity.
  - vm_compute. split; reflexivity.
Defined.
