(* ===== verification/CreditFsm.v ===== *)
(** * The credit operation actor

    Models [src/credit]: the per-operation state machine ([states.go],
    [transitions.go], [transition_table.go]), its data ([state.go], [config.go],
    [events.go], [snapshot.go]) and the durable actor that drives it
    ([op_actor.go]).  The swap server, the wallet daemon, the clock and the
    transactional store are reached through [interact]: a call is logged in a
    trace together with the durable row at that moment, and the environment may
    answer it or kill the process during it. *)

From Stdlib Require Import Strings.Byte Strings.String.
From S2P Require Import Prelude.

(** ** Errors *)

(** gRPC status codes ([google.golang.org/grpc/codes]). *)
Inductive Code :=
| CodeOK | CodeCanceled | CodeUnknown | CodeInvalidArgument | CodeDeadlineExceeded
| CodeNotFound | CodeAlreadyExists | CodePermissionDenied | CodeResourceExhausted
| CodeFailedPrecondition | CodeAborted | CodeOutOfRange | CodeUnimplemented
| CodeInternal | CodeUnavailable | CodeDataLoss | CodeUnauthenticated.

(** The error values the code tests for with [errors.Is]. *)
Inductive Sentinel :=
| ErrPayRejected | ErrRedeemRejected | ErrTopUpRejected
| ContextCanceled | ErrCreditOperationNotFound.

#[export] Instance Sentinel_eq : EqDecision Sentinel.
Proof. solve_decision. Defined.

(** An error as its observers see it: its text, the sentinels it wraps, its
    gRPC status code and the redelivery delay of a postponement. *)
Record goerr := mkErr {
  e_text : string;
  e_is : list Sentinel;
  e_code : Code;
  e_postpone : option Z
}.

Definition errors_Is (e : goerr) (s : Sentinel) : bool := bool_decide (s ∈ e_is e).

(** [fmt.Errorf(text)] without a wrapped error. *)
Definition errorf (text : string) : goerr := mkErr text [] CodeUnknown None.
(** [fmt.Errorf("prefix: %w", err)]. *)
Definition wrapf (prefix : string) (e : goerr) : goerr :=
  mkErr (prefix +:+ e_text e) (e_is e) (e_code e) (e_postpone e).

(** ** Server and daemon data *)

Abbreviation bytes := (list byte).
#[export] Instance byte_eq : EqDecision byte := byte_eq_dec.

(** [ServerCreditState] is a string type; other values can come from the wire. *)
Abbreviation ServerCreditState := string (only parsing).
Definition ServerStateCreated : ServerCreditState := "created".
Definition ServerStateAwaitingPayment : ServerCreditState := "awaiting_payment".
Definition ServerStateCredited : ServerCreditState := "credited".
Definition ServerStateReserved : ServerCreditState := "reserved".
Definition ServerStatePayingLightning : ServerCreditState := "paying_lightning".
Definition ServerStateDebited : ServerCreditState := "debited".
Definition ServerStateSendingOOR : ServerCreditState := "sending_oor".
Definition ServerStateRedeemed : ServerCreditState := "redeemed".
Definition ServerStateReleased : ServerCreditState := "released".
Definition ServerStateExpired : ServerCreditState := "expired".
Definition ServerStateFailed : ServerCreditState := "failed".

Definition IsTerminalFailure (s : ServerCreditState) : bool :=
  bool_decide (s = ServerStateFailed) || bool_decide (s = ServerStateExpired) ||
  bool_decide (s = ServerStateReleased).

Inductive CreditSource := SourceLightningReceive | SourceArkTopUp.

Record CreateCreditResult := mkCreateCreditResult {
  ccr_OperationID : string;
  ccr_State : ServerCreditState;
  ccr_Invoice : string;
  ccr_PaymentHash : bytes;
  ccr_AmountSat : Z;
  ccr_DestinationPubkey : bytes
}.

Record ServerCreditOp := mkServerCreditOp {
  so_AmountSat : Z;
  so_OperationID : string;
  so_State : ServerCreditState;
  so_PaymentHash : bytes
}.

Record CreditSnapshot := mkCreditSnapshot {
  cs_FinalizedSat : Z;
  cs_ReservedSat : Z;
  cs_AvailableSat : Z;
  cs_Operations : list ServerCreditOp
}.

Record RedeemResult := mkRedeemResult {
  rr_OperationID : string;
  rr_State : ServerCreditState;
  rr_RedeemedSat : Z
}.

(** ** Operation kinds, states and rows *)

Inductive OpKind := KindPay | KindReceive | KindRedeem | KindOther (k : Z).

#[export] Instance OpKind_eq : EqDecision OpKind.
Proof. solve_decision. Defined.

Inductive CreditOpStatus :=
| CreditOpStatusPending | CreditOpStatusCompleted | CreditOpStatusFailed.

#[export] Instance CreditOpStatus_eq : EqDecision CreditOpStatus.
Proof. solve_decision. Defined.

(** The persisted state string ([State] of state.go). *)
Definition StateQuoting : string := "quoting".
Definition StateTopupCreating : string := "topup_creating".
Definition StateTopupFunding : string := "topup_funding".
Definition StateTopupAwaitingCredit : string := "topup_awaiting_credit".
Definition StatePaying : string := "paying".
Definition StatePayAwaitingSettlement : string := "pay_awaiting_settlement".
Definition StateReceiveCreating : string := "receive_creating".
Definition StateAwaitingSettlement : string := "awaiting_settlement".
Definition StateRedeemReserving : string := "redeem_reserving".
Definition StateRedeemSubmitting : string := "redeem_submitting".
Definition StateAwaitingOOR : string := "awaiting_oor".
Definition StateCompleted : string := "completed".
Definition StateFailed : string := "failed".

(** [State.IsTerminal], [State.Status]. *)
Definition State_IsTerminal (s : string) : bool :=
  bool_decide (s = StateCompleted) || bool_decide (s = StateFailed).

Definition State_Status (s : string) : CreditOpStatus :=
  if bool_decide (s = StateCompleted) then CreditOpStatusCompleted
  else if bool_decide (s = StateFailed) then CreditOpStatusFailed
  else CreditOpStatusPending.

Definition initialState (kind : OpKind) : string :=
  match kind with
  | KindPay => StateQuoting
  | KindReceive => StateReceiveCreating
  | KindRedeem => StateRedeemReserving
  | KindOther _ => StateFailed
  end.

(** The typed states of the machine. *)
Inductive CreditState :=
| quotingState | topupCreatingState | topupFundingState
| topupAwaitingCreditState | payingState | payAwaitingSettlementState
| receiveCreatingState | awaitingSettlementState
| redeemReservingState | redeemSubmittingState | awaitingOORState
| completedState | failedState.

#[export] Instance CreditState_eq : EqDecision CreditState.
Proof. solve_decision. Defined.

Definition CreditState_String (s : CreditState) : string :=
  match s with
  | quotingState => StateQuoting
  | topupCreatingState => StateTopupCreating
  | topupFundingState => StateTopupFunding
  | topupAwaitingCreditState => StateTopupAwaitingCredit
  | payingState => StatePaying
  | payAwaitingSettlementState => StatePayAwaitingSettlement
  | receiveCreatingState => StateReceiveCreating
  | awaitingSettlementState => StateAwaitingSettlement
  | redeemReservingState => StateRedeemReserving
  | redeemSubmittingState => StateRedeemSubmitting
  | awaitingOORState => StateAwaitingOOR
  | completedState => StateCompleted
  | failedState => StateFailed
  end.

Definition CreditState_IsTerminal (s : CreditState) : bool :=
  match s with completedState | failedState => true | _ => false end.

(** [decodeCreditState]; the flag reports whether the string was recognised. *)
Definition decodeCreditState (s : string) : CreditState * bool :=
  if bool_decide (s = StateQuoting) then (quotingState, true)
  else if bool_decide (s = StateTopupCreating) then (topupCreatingState, true)
  else if bool_decide (s = StateTopupFunding) then (topupFundingState, true)
  else if bool_decide (s = StateTopupAwaitingCredit) then
    (topupAwaitingCreditState, true)
  else if bool_decide (s = StatePaying) then (payingState, true)
  else if bool_decide (s = StatePayAwaitingSettlement) then
    (payAwaitingSettlementState, true)
  else if bool_decide (s = StateReceiveCreating) then (receiveCreatingState, true)
  else if bool_decide (s = StateAwaitingSettlement) then
    (awaitingSettlementState, true)
  else if bool_decide (s = StateRedeemReserving) then (redeemReservingState, true)
  else if bool_decide (s = StateRedeemSubmitting) then
    (redeemSubmittingState, true)
  else if bool_decide (s = StateAwaitingOOR) then (awaitingOORState, true)
  else if bool_decide (s = StateCompleted) then (completedState, true)
  else if bool_decide (s = StateFailed) then (failedState, true)
  else (failedState, false).

(** [db.CreditOperationRecord] without the timestamps the store maintains. *)
Record CreditOperationRecord := mkRecord {
  OpID : string;
  OpKey : string;
  Kind : OpKind;
  rec_State : string;
  rec_Status : CreditOpStatus;
  ServerOpID : string;
  PaymentHash : bytes;
  DestinationPubkey : bytes;
  OORSessionID : string;
  Invoice : string;
  AmountSat : Z;
  TopupSat : Z;
  MaxCreditSat : Z;
  MaxFeeSat : Z;
  LastError : string;
  SnapshotData : bytes;
  SnapshotVersion : Z
}.

Definition set_State (r : CreditOperationRecord) (s : string)
    (st : CreditOpStatus) : CreditOperationRecord :=
  mkRecord (OpID r) (OpKey r) (Kind r) s st (ServerOpID r) (PaymentHash r)
    (DestinationPubkey r) (OORSessionID r) (Invoice r) (AmountSat r) (TopupSat r)
    (MaxCreditSat r) (MaxFeeSat r) (LastError r) (SnapshotData r)
    (SnapshotVersion r).
Definition set_Server (r : CreditOperationRecord) (server : string)
    (hash dest : bytes) (invoice : string) : CreditOperationRecord :=
  mkRecord (OpID r) (OpKey r) (Kind r) (rec_State r) (rec_Status r) server hash
    dest (OORSessionID r) invoice (AmountSat r) (TopupSat r) (MaxCreditSat r)
    (MaxFeeSat r) (LastError r) (SnapshotData r) (SnapshotVersion r).
Definition set_OORSessionID (r : CreditOperationRecord) (session : string) :
    CreditOperationRecord :=
  mkRecord (OpID r) (OpKey r) (Kind r) (rec_State r) (rec_Status r)
    (ServerOpID r) (PaymentHash r) (DestinationPubkey r) session (Invoice r)
    (AmountSat r) (TopupSat r) (MaxCreditSat r) (MaxFeeSat r) (LastError r)
    (SnapshotData r) (SnapshotVersion r).
Definition set_AmountSat (r : CreditOperationRecord) (amt : Z) :
    CreditOperationRecord :=
  mkRecord (OpID r) (OpKey r) (Kind r) (rec_State r) (rec_Status r)
    (ServerOpID r) (PaymentHash r) (DestinationPubkey r) (OORSessionID r)
    (Invoice r) amt (TopupSat r) (MaxCreditSat r) (MaxFeeSat r) (LastError r)
    (SnapshotData r) (SnapshotVersion r).
Definition set_LastError (r : CreditOperationRecord) (text : string) :
    CreditOperationRecord :=
  mkRecord (OpID r) (OpKey r) (Kind r) (rec_State r) (rec_Status r)
    (ServerOpID r) (PaymentHash r) (DestinationPubkey r) (OORSessionID r)
    (Invoice r) (AmountSat r) (TopupSat r) (MaxCreditSat r) (MaxFeeSat r) text
    (SnapshotData r) (SnapshotVersion r).
Definition set_Snapshot (r : CreditOperationRecord) (raw : bytes) (v : Z) :
    CreditOperationRecord :=
  mkRecord (OpID r) (OpKey r) (Kind r) (rec_State r) (rec_Status r)
    (ServerOpID r) (PaymentHash r) (DestinationPubkey r) (OORSessionID r)
    (Invoice r) (AmountSat r) (TopupSat r) (MaxCreditSat r) (MaxFeeSat r)
    (LastError r) raw v.

(** ** The resume snapshot

    The TLV streams of [lnd/tlv] are a parameter: a stream of primitive records
    is encoded to bytes, and decoding against a schema returns the records that
    are present. *)
Inductive prim := PBytes (b : bytes) | PUint8 (z : Z) | PUint32 (z : Z).
Inductive prim_kind := KBytes | KUint8 | KUint32.

#[export] Instance prim_eq : EqDecision prim.
Proof. solve_decision. Defined.
#[export] Instance prim_kind_eq : EqDecision prim_kind.
Proof. solve_decision. Defined.

Definition kind_of (v : prim) : prim_kind :=
  match v with PBytes _ => KBytes | PUint8 _ => KUint8 | PUint32 _ => KUint32 end.
Definition prim_fits (v : prim) : bool :=
  match v with
  | PBytes _ => true
  | PUint8 z => bool_decide (0 ≤ z < 256)%Z
  | PUint32 z => bool_decide (0 ≤ z < 4294967296)%Z
  end.

Class TLV := {
  stream_encode : list (Z * prim) → result goerr bytes;
  stream_decode : list (Z * prim_kind) → bytes → result goerr (list (Z * prim))
}.

(** A stream the library accepts: types in strictly ascending order, each with
    the kind the schema declares. *)
Definition stream_wf (schema : list (Z * prim_kind)) (rs : list (Z * prim)) : Prop :=
  StronglySorted Z.lt (rs.*1) ∧
  ∀ t v, (t, v) ∈ rs → (t, kind_of v) ∈ schema ∧ prim_fits v = true.

Class TLVLaws `{!TLV} := {
  stream_roundtrip schema rs : stream_wf schema rs →
    ∃ raw, stream_encode rs = Ok raw ∧ (rs ≠ [] → raw ≠ []) ∧
      stream_decode schema raw = Ok rs
}.

Record opSnapshot := mkSnapshot {
  RedeemPkScript : bytes;
  Memo : string;
  CreditOnly : bool;
  AwaitPolls : Z
}.

Definition snapshotVersion : Z := 1.
Definition snapRecRedeemPkScript : Z := 1.
Definition snapRecMemo : Z := 2.
Definition snapRecCreditOnly : Z := 3.
Definition snapRecAwaitPolls : Z := 5.

Definition snapshot_records (s : opSnapshot) : list (Z * prim) :=
  (if bool_decide (RedeemPkScript s = []) then []
   else [(snapRecRedeemPkScript, PBytes (RedeemPkScript s))]) ++
  (if bool_decide (Memo s = EmptyString) then []
   else [(snapRecMemo, PBytes (String.list_byte_of_string (Memo s)))]) ++
  (if CreditOnly s then [(snapRecCreditOnly, PUint8 1)] else []) ++
  (if (AwaitPolls s >? 0)%Z then [(snapRecAwaitPolls, PUint32 (AwaitPolls s))]
   else []).

Definition snapshot_schema : list (Z * prim_kind) :=
  [(snapRecRedeemPkScript, KBytes); (snapRecMemo, KBytes);
   (snapRecCreditOnly, KUint8); (snapRecAwaitPolls, KUint32)].

(** The decoded value of a record, or the zero value it was declared with. *)
Definition rec_bytes (rs : list (Z * prim)) (t : Z) : bytes :=
  match list_find (λ r, r.1 = t) rs with
  | Some (_, (_, PBytes b)) => b
  | _ => []
  end.
Definition rec_uint (rs : list (Z * prim)) (t : Z) : Z :=
  match list_find (λ r, r.1 = t) rs with
  | Some (_, (_, PUint8 z)) | Some (_, (_, PUint32 z)) => z
  | _ => 0
  end.

Section snapshot.
Context `{!TLV}.

(** [opSnapshot.encode]. *)
Definition encode (s : opSnapshot) : result goerr bytes :=
  match snapshot_records s with
  | [] => Ok []
  | records => stream_encode records
  end.

Definition decodeOpSnapshot (raw : bytes) : result goerr opSnapshot :=
  if bool_decide (raw = []) then Ok (mkSnapshot [] EmptyString false 0)
  else
    let* rs := stream_decode snapshot_schema raw in
    Ok (mkSnapshot (rec_bytes rs snapRecRedeemPkScript)
          (String.string_of_list_byte (rec_bytes rs snapRecMemo))
          (negb (rec_uint rs snapRecCreditOnly =? 0)%Z)
          (rec_uint rs snapRecAwaitPolls)).
End snapshot.

(** ** The actor's memory *)

Record OpActorConfig := mkConfig {
  cfg_OpID : string;
  PollInterval : Z;
  MaxAwaitingPolls : Z;
  AutoRedeemEnabled : bool;
  MinRedeemSat : Z;
  HasRegistry : bool;
  HasTimeoutActor : bool
}.

(** Nanoseconds. *)
Definition DefaultPollInterval : Z := 2 * 1000000000.
Definition listCreditsPostponeHorizon : Z := 10 * 60 * 1000000000.

Inductive CreditOutMsg :=
| stageRecord
| parkOp
| triggerRedeem (AvailableSat : Z).

(** A transition and the outbox of its emitted event. *)
Record CreditTransition := mkTransition {
  NextState : CreditState;
  Outbox : list CreditOutMsg
}.

Record opBehavior := mkBehavior {
  rec : option CreditOperationRecord;
  redeemPkScript : bytes;
  receiveMemo : string;
  creditOnly : bool;
  awaitPolls : Z;
  acctKey : bytes;
  armRetry : bool;
  terminalCommitted : bool;
  commitFailed : bool;
  curState : option CreditState;
  corruptState : bool;
  pendingRedeem : option Z
}.

(** The behavior as [NewOpActor] builds it, before [restore]. *)
Definition new_behavior : opBehavior :=
  mkBehavior None [] EmptyString false 0 [] false false false None false None.

Definition set_rec (b : opBehavior) (r : CreditOperationRecord) : opBehavior :=
  mkBehavior (Some r) (redeemPkScript b) (receiveMemo b) (creditOnly b)
    (awaitPolls b) (acctKey b) (armRetry b) (terminalCommitted b)
    (commitFailed b) (curState b) (corruptState b) (pendingRedeem b).
Definition set_redeemPkScript (b : opBehavior) (pk : bytes) : opBehavior :=
  mkBehavior (rec b) pk (receiveMemo b) (creditOnly b)
    (awaitPolls b) (acctKey b) (armRetry b) (terminalCommitted b)
    (commitFailed b) (curState b) (corruptState b) (pendingRedeem b).
Definition set_awaitPolls (b : opBehavior) (n : Z) : opBehavior :=
  mkBehavior (rec b) (redeemPkScript b) (receiveMemo b) (creditOnly b)
    n (acctKey b) (armRetry b) (terminalCommitted b)
    (commitFailed b) (curState b) (corruptState b) (pendingRedeem b).
Definition set_acctKey (b : opBehavior) (key : bytes) : opBehavior :=
  mkBehavior (rec b) (redeemPkScript b) (receiveMemo b) (creditOnly b)
    (awaitPolls b) key (armRetry b) (terminalCommitted b)
    (commitFailed b) (curState b) (corruptState b) (pendingRedeem b).
Definition set_armRetry (b : opBehavior) (x : bool) : opBehavior :=
  mkBehavior (rec b) (redeemPkScript b) (receiveMemo b) (creditOnly b)
    (awaitPolls b) (acctKey b) x (terminalCommitted b)
    (commitFailed b) (curState b) (corruptState b) (pendingRedeem b).
Definition set_terminalCommitted (b : opBehavior) (x : bool) : opBehavior :=
  mkBehavior (rec b) (redeemPkScript b) (receiveMemo b) (creditOnly b)
    (awaitPolls b) (acctKey b) (armRetry b) x
    (commitFailed b) (curState b) (corruptState b) (pendingRedeem b).
Definition set_commitFailed (b : opBehavior) (x : bool) : opBehavior :=
  mkBehavior (rec b) (redeemPkScript b) (receiveMemo b) (creditOnly b)
    (awaitPolls b) (acctKey b) (armRetry b) (terminalCommitted b)
    x (curState b) (corruptState b) (pendingRedeem b).
Definition set_curState (b : opBehavior) (s : CreditState) (corrupt : bool) :
    opBehavior :=
  mkBehavior (rec b) (redeemPkScript b) (receiveMemo b) (creditOnly b)
    (awaitPolls b) (acctKey b) (armRetry b) (terminalCommitted b)
    (commitFailed b) (Some s) corrupt (pendingRedeem b).
Definition set_pendingRedeem (b : opBehavior) (x : option Z) : opBehavior :=
  mkBehavior (rec b) (redeemPkScript b) (receiveMemo b) (creditOnly b)
    (awaitPolls b) (acctKey b) (armRetry b) (terminalCommitted b)
    (commitFailed b) (curState b) (corruptState b) x.

(** The messages of the durable mailbox. *)
Inductive CreditDurableMsg := RestartMessage | ResumeCreditOpRequest | OtherMessage.

#[export] Instance CreditDurableMsg_eq : EqDecision CreditDurableMsg.
Proof. solve_decision. Defined.

(** ** Interaction with the environment *)

(** The calls an operation makes: the server and daemon interfaces, the earmark
    provider, the age of the delivery being processed, the durable store and the
    messages sent after a commit. *)
Inductive Call :=
| CreateCredit (acct : bytes) (key : string) (source : CreditSource) (amount : Z)
    (memo : string)
| ListCredits (acct : bytes)
| RedeemCredit (acct : bytes) (key : string) (amount : Z) (dest : bytes)
| StartPay (invoice : string) (maxFee maxCredit : Z)
| IdentityPubKey
| VTXOFloor
| SendOOR (dest : bytes) (amount : Z) (key : string) (existingOnly : bool)
| AllocateReceiveScript (label : string)
| FindLiveVTXOByPkScript (pkScript : bytes)
| LoadEarmark
| DeliveryAge
| GetOperation (opID : string)
| Stage (r : CreditOperationRecord)
| Commit (r : CreditOperationRecord)
| TellConsiderRedeem (available : Z)
| TellTerminal (opID : string)
| TellSchedule (opID : string) (duration : Z).

Definition Resp (c : Call) : Type :=
  match c with
  | CreateCredit _ _ _ _ _ => result goerr CreateCreditResult
  | ListCredits _ => result goerr (option CreditSnapshot)
  | RedeemCredit _ _ _ _ => result goerr RedeemResult
  | StartPay _ _ _ => result goerr unit
  | IdentityPubKey => result goerr bytes
  | VTXOFloor => result goerr Z
  | SendOOR _ _ _ _ => result goerr string
  | AllocateReceiveScript _ => result goerr (bytes * bytes)
  | FindLiveVTXOByPkScript _ => result goerr (bool * Z)
  | LoadEarmark => option (result goerr Z)
  | DeliveryAge => option Z
  | GetOperation _ => result string unit
  | Stage _ | Commit _ => result goerr unit
  | TellConsiderRedeem _ | TellTerminal _ | TellSchedule _ _ => result goerr unit
  end.

(** The environment answers a call, or the process dies during it; a store write
    may have been applied or not when that happens. *)
Inductive reply (A : Type) := Answered (a : A) | Died (applied : bool).
Arguments Answered {A} a.
Arguments Died {A} applied.

(** A call, its answer, and the durable row when it was made. *)
Inductive Event :=
| Ev (c : Call) (answer : option (Resp c)) (durable : option CreditOperationRecord).

Record Sys {W : Type} := mkSys {
  mem : opBehavior;
  row : option CreditOperationRecord;
  world : W;
  trace : list Event
}.
Arguments Sys W : clear implicits.
Arguments mkSys {W}.

(** A turn returns, fails with an error, is cut short by the death of the
    process, or exhausts the fuel of the model's driving loop. *)
Inductive outcome (A : Type) := Ret (a : A) | Throw (e : goerr) | Dead | NoFuel.
Arguments Ret {A} a.
Arguments Throw {A} e.
Arguments Dead {A}.
Arguments NoFuel {A}.

Definition M (W A : Type) : Type := Sys W → outcome A * Sys W.

Definition ret {W A} (a : A) : M W A := λ s, (Ret a, s).
Definition throw {W A} (e : goerr) : M W A := λ s, (Throw e, s).
Definition bind {W A B} (m : M W A) (k : A → M W B) : M W B := λ s,
  match m s with
  | (Ret a, s') => k a s'
  | (Throw e, s') => (Throw e, s')
  | (Dead, s') => (Dead, s')
  | (NoFuel, s') => (NoFuel, s')
  end.

Declare Scope turn_scope.
Delimit Scope turn_scope with turn.
Notation "'bind*' x ':=' m 'in' k" := (bind m (λ x, k))
  (at level 10, x pattern, m at level 100, k at level 200) : turn_scope.
Notation "'run*' m 'in' k" := (bind m (λ _, k))
  (at level 10, m at level 100, k at level 200) : turn_scope.
Open Scope turn_scope.

Definition get {W} : M W opBehavior := λ s, (Ret (mem s), s).
Definition modify {W} (f : opBehavior → opBehavior) : M W unit := λ s,
  (Ret tt, mkSys (f (mem s)) (row s) (world s) (trace s)).
(** Reading [b.rec]; dereferencing a nil record would panic. *)
Definition get_rec {W} : M W CreditOperationRecord := λ s,
  match rec (mem s) with Some r => (Ret r, s) | None => (Dead, s) end.
(** Raising an error value. *)
Definition lift {W A} (r : result goerr A) : M W A :=
  match r with Ok a => ret a | Err e => throw e end.

(** ** The state machine *)

(** [authorizedPayState]: the first operation with the payment hash, if its
    accounting is within the authorisation.  The result is the state and whether
    an operation was found. *)
Fixpoint authorized_loop (ops : list ServerCreditOp) (paymentHash : bytes)
    (maxCreditSat : Z) : result goerr (ServerCreditState * bool) :=
  match ops with
  | [] => Ok (EmptyString, false)
  | op :: ops =>
      if bool_decide (so_PaymentHash op = paymentHash) then
        if IsTerminalFailure (so_State op) then Ok (so_State op, true)
        else
          let active :=
            bool_decide (so_State op = ServerStateDebited) ||
            bool_decide (so_State op = ServerStateReserved) ||
            bool_decide (so_State op = ServerStatePayingLightning) in
          if active && (so_AmountSat op =? 0)%Z then
            Err (errorf ("credit operation " +:+ so_OperationID op +:+
                         " missing amount"))
          else if (maxCreditSat <? so_AmountSat op)%Z then
            Err (errorf ("credit operation " +:+ so_OperationID op +:+
                         " amount " +:+ pretty (so_AmountSat op) +:+
                         " exceeds max_credit_sat " +:+ pretty maxCreditSat))
          else Ok (so_State op, true)
      else authorized_loop ops paymentHash maxCreditSat
  end.

Definition authorizedPayState (snapshot : option CreditSnapshot)
    (paymentHash : bytes) (maxCreditSat : Z) :
    result goerr (ServerCreditState * bool) :=
  match snapshot with
  | None => Ok (EmptyString, false)
  | Some sn =>
      if bool_decide (paymentHash = []) then Ok (EmptyString, false)
      else authorized_loop (cs_Operations sn) paymentHash maxCreditSat
  end.

(** [serverOpState]; [None] is "not found". *)
Definition serverOpState (snapshot : option CreditSnapshot) (serverOpID : string) :
    option ServerCreditState :=
  match snapshot with
  | None => None
  | Some sn =>
      if bool_decide (serverOpID = EmptyString) then None
      else match list_find (λ op, so_OperationID op = serverOpID)
                   (cs_Operations sn) with
           | Some (_, op) => Some (so_State op)
           | None => None
           end
  end.

Definition isFundingAdmissionRejected (e : goerr) : bool :=
  match e_code e with
  | CodeResourceExhausted | CodeAborted | CodeOutOfRange => true
  | _ => false
  end.

Definition transientLedgerReadError (e : goerr) : bool :=
  if errors_Is e ContextCanceled then false
  else
    match e_code e with
    | CodeCanceled | CodeInvalidArgument | CodeNotFound | CodeAlreadyExists
    | CodePermissionDenied | CodeUnauthenticated | CodeFailedPrecondition
    | CodeOutOfRange | CodeUnimplemented => false
    | _ => true
    end.

(** [status.Code(err) == codes.NotFound]. *)
Definition is_not_found (e : goerr) : bool :=
  match e_code e with CodeNotFound => true | _ => false end.

Section actor.
Context {W : Type} `{!TLV} (cfg : OpActorConfig)
  (handle : ∀ c : Call, W → reply (Resp c) * W).
Local Abbreviation turn := (M W).

Definition log (c : Call) (answer : option (Resp c)) (w : W) (s : Sys W) : Sys W :=
  mkSys (mem s) (row s) w (Ev c answer (row s) :: trace s).

Definition interact (c : Call) : turn (Resp c) := λ s,
  match handle c (world s) with
  | (Answered r, w) => (Ret r, log c (Some r) w s)
  | (Died _, w) => (Dead, log c None w s)
  end.

Definition set_row (r : CreditOperationRecord) (s : Sys W) : Sys W :=
  mkSys (mem s) (Some r) (world s) (trace s).

(** A transactional write of the operation's row. *)
Definition write_stage (r : CreditOperationRecord) : turn unit := λ s,
  match handle (Stage r) (world s) with
  | (Answered (Ok u), w) => (Ret tt, set_row r (log (Stage r) (Some (Ok u)) w s))
  | (Answered (Err e), w) => (Throw e, log (Stage r) (Some (Err e)) w s)
  | (Died applied, w) =>
      let s' := log (Stage r) None w s in
      (Dead, if applied then set_row r s' else s')
  end.

Definition write_commit (r : CreditOperationRecord) : turn unit := λ s,
  match handle (Commit r) (world s) with
  | (Answered (Ok u), w) => (Ret tt, set_row r (log (Commit r) (Some (Ok u)) w s))
  | (Answered (Err e), w) => (Throw e, log (Commit r) (Some (Err e)) w s)
  | (Died applied, w) =>
      let s' := log (Commit r) None w s in
      (Dead, if applied then set_row r s' else s')
  end.

(** [Store.GetOperation]: a database error, the row, or "not found". *)
Definition read_operation : turn (result goerr CreditOperationRecord) :=
  bind* r := interact (GetOperation (cfg_OpID cfg)) in
  match r with
  | Err text => ret (Err (errorf text))
  | Ok _ => λ s,
      match row s with
      | Some rw => (Ret (Ok rw), s)
      | None =>
          (Ret (Err (mkErr "credit operation not found"
                       [ErrCreditOperationNotFound] CodeUnknown None)), s)
      end
  end.

Definition emit (next : CreditState) (out : list CreditOutMsg) :
    turn CreditTransition :=
  ret (mkTransition next out).

Definition fail (reason : string) : turn CreditTransition :=
  bind* r := get_rec in
  run* modify (λ b, set_rec b (set_LastError r reason)) in
  emit failedState [].

Definition accountKey : turn (result goerr bytes) :=
  bind* b := get in
  if bool_decide (acctKey b = []) then
    bind* key := interact IdentityPubKey in
    match key with
    | Err e => ret (Err (wrapf "get identity pubkey: " e))
    | Ok key => run* modify (λ b, set_acctKey b key) in ret (Ok key)
    end
  else ret (Ok (acctKey b)).

Definition listCredits : turn (result goerr (option CreditSnapshot)) :=
  bind* key := accountKey in
  match key with
  | Err e => ret (Err e)
  | Ok key =>
      bind* r := interact (ListCredits key) in
      match r with
      | Err e => ret (Err (wrapf "list credits: " e))
      | Ok sn => ret (Ok sn)
      end
  end.

Definition reconcileBackoff : Z :=
  if (PollInterval cfg >? 0)%Z then PollInterval cfg else DefaultPollInterval.

Definition postponeListCreditsFetch {A} (e : goerr) : turn A :=
  if negb (transientLedgerReadError e) then throw e
  else
    bind* age := interact DeliveryAge in
    match age with
    | Some since =>
        if (listCreditsPostponeHorizon <=? since)%Z then throw e
        else throw (mkErr (e_text e +:+ ": postponed") (e_is e) (e_code e)
                      (Some reconcileBackoff))
    | None =>
        throw (mkErr (e_text e +:+ ": postponed") (e_is e) (e_code e)
                 (Some reconcileBackoff))
    end.

Definition awaitExhausted : turn bool :=
  run* modify (λ b, set_awaitPolls b (uint32 (awaitPolls b + 1))) in
  bind* b := get in
  let limit := MaxAwaitingPolls cfg in
  ret ((limit >? 0)%Z && (limit <? awaitPolls b)%Z).

(** The steps of the pay machine. *)
Definition process_quoting : turn CreditTransition :=
  bind* r := get_rec in
  if (TopupSat r =? 0)%Z then emit payingState [] else emit topupCreatingState [].

Definition process_topupCreating : turn CreditTransition :=
  bind* key := accountKey in
  bind* key := lift key in
  bind* r := get_rec in
  bind* res := interact (CreateCredit key (OpKey r) SourceArkTopUp
                           (uint64 (TopupSat r)) "") in
  match res with
  | Err e =>
      if errors_Is e ErrTopUpRejected then fail ("top-up rejected: " +:+ e_text e)
      else throw (wrapf "create top-up credit: " e)
  | Ok res =>
      if IsTerminalFailure (ccr_State res) then
        fail ("top-up credit ended in " +:+ ccr_State res)
      else if bool_decide (ccr_DestinationPubkey res = []) then
        fail "top-up credit missing destination pubkey"
      else
        run* modify (λ b, set_rec b
               (set_Server r (ccr_OperationID res) (PaymentHash r)
                  (ccr_DestinationPubkey res) (Invoice r))) in
        emit topupFundingState [stageRecord]
  end.

Definition funded (r : CreditOperationRecord) (sessionID : string) :
    turn CreditTransition :=
  run* modify (λ b, set_rec b (set_OORSessionID r sessionID)) in
  emit topupAwaitingCreditState [stageRecord].

Definition process_topupFunding : turn CreditTransition :=
  bind* r := get_rec in
  bind* res := interact (SendOOR (DestinationPubkey r) (uint64 (TopupSat r))
                           (OpKey r) false) in
  match res with
  | Ok sessionID => funded r sessionID
  | Err rejection =>
      if isFundingAdmissionRejected rejection then
        bind* res := interact (SendOOR (DestinationPubkey r)
                                 (uint64 (TopupSat r)) (OpKey r) true) in
        match res with
        | Ok sessionID => funded r sessionID
        | Err e =>
            if is_not_found e then
              fail ("fund top-up via OOR rejected: " +:+ e_text rejection)
            else throw (wrapf "fund top-up via OOR: " e)
        end
      else throw (wrapf "fund top-up via OOR: " rejection)
  end.

Definition process_topupAwaitingCredit : turn CreditTransition :=
  bind* sn := listCredits in
  match sn with
  | Err e => postponeListCreditsFetch e
  | Ok snapshot =>
      bind* r := get_rec in
      let state := serverOpState snapshot (ServerOpID r) in
      if from_option IsTerminalFailure false state then
        fail ("top-up funding ended in " +:+ from_option id EmptyString state)
      else if bool_decide (state = Some ServerStateCredited) then
        emit payingState []
      else
        bind* exhausted := awaitExhausted in
        if (exhausted : bool) then
          fail "top-up credit not finalized within poll cap"
        else emit topupAwaitingCreditState [parkOp]
  end.

Definition process_paying : turn CreditTransition :=
  bind* r := get_rec in
  bind* res := interact (StartPay (Invoice r) (uint64 (MaxFeeSat r))
                           (uint64 (MaxCreditSat r))) in
  match res with
  | Err e =>
      if errors_Is e ErrPayRejected then fail ("start pay rejected: " +:+ e_text e)
      else throw (wrapf "start pay: " e)
  | Ok _ =>
      bind* b := get in
      if creditOnly b && negb (bool_decide (PaymentHash r = [])) then
        emit payAwaitingSettlementState [stageRecord]
      else emit completedState []
  end.

Definition process_payAwaitingSettlement : turn CreditTransition :=
  bind* sn := listCredits in
  match sn with
  | Err e => postponeListCreditsFetch e
  | Ok snapshot =>
      bind* r := get_rec in
      match authorizedPayState snapshot (PaymentHash r)
              (uint64 (MaxCreditSat r)) with
      | Err e =>
          run* modify (λ b, set_rec b (set_LastError r
                 ("credit pay requires intervention: " +:+ e_text e))) in
          emit payAwaitingSettlementState [parkOp]
      | Ok (state, found) =>
          if negb found && negb (bool_decide (LastError r = EmptyString)) then
            emit payAwaitingSettlementState [parkOp]
          else
            run* modify (λ b, set_rec b (set_LastError r EmptyString)) in
            if found && bool_decide (state = ServerStateDebited) then
              emit completedState []
            else if found && IsTerminalFailure state then
              fail ("credit pay ended in " +:+ state)
            else
              bind* exhausted := awaitExhausted in
              if (exhausted : bool) then
                fail "credit pay not settled within poll cap"
              else emit payAwaitingSettlementState [parkOp]
      end
  end.

(** The steps of the receive machine. *)
Definition process_receiveCreating : turn CreditTransition :=
  bind* key := accountKey in
  bind* key := lift key in
  bind* r := get_rec in
  bind* b := get in
  bind* res := interact (CreateCredit key (OpKey r) SourceLightningReceive
                           (uint64 (AmountSat r)) (receiveMemo b)) in
  match res with
  | Err e => throw (wrapf "create receive credit: " e)
  | Ok res =>
      if IsTerminalFailure (ccr_State res) then
        fail ("receive credit ended in " +:+ ccr_State res)
      else if bool_decide (ccr_Invoice res = EmptyString) then
        fail "receive credit missing invoice"
      else
        run* modify (λ b, set_rec b
               (set_Server r (ccr_OperationID res)
                  (if bool_decide (ccr_PaymentHash res = [])
                   then PaymentHash r else ccr_PaymentHash res)
                  (DestinationPubkey r) (ccr_Invoice res))) in
        emit awaitingSettlementState [stageRecord]
  end.

(** [redeemWatermarkCleared]: the balance to redeem, when the watermark is
    cleared. *)
Definition redeemWatermarkCleared (snapshot : option CreditSnapshot) :
    turn (option Z) :=
  match snapshot with
  | None => ret None
  | Some sn =>
      if negb (AutoRedeemEnabled cfg) then ret None
      else
        bind* earmark := interact LoadEarmark in
        match earmark with
        | Some (Err _) => ret None
        | _ =>
            let available :=
              match earmark with
              | Some (Ok earmarked) =>
                  if (cs_AvailableSat sn <=? earmarked)%Z then 0%Z
                  else (cs_AvailableSat sn - earmarked)%Z
              | _ => cs_AvailableSat sn
              end in
            if (available <? MinRedeemSat cfg)%Z then ret None
            else
              bind* floor := interact VTXOFloor in
              match floor with
              | Err _ => ret None
              | Ok floor =>
                  if (floor =? 0)%Z then ret None
                  else if (available <? Z.max (MinRedeemSat cfg) floor)%Z
                  then ret None
                  else ret (Some available)
              end
        end
  end.

Definition process_awaitingSettlement : turn CreditTransition :=
  bind* sn := listCredits in
  match sn with
  | Err e => postponeListCreditsFetch e
  | Ok snapshot =>
      bind* r := get_rec in
      let state := serverOpState snapshot (ServerOpID r) in
      if from_option IsTerminalFailure false state then
        fail ("receive funding ended in " +:+ from_option id EmptyString state)
      else if bool_decide (state = Some ServerStateCredited) then
        bind* cleared := redeemWatermarkCleared snapshot in
        emit completedState
          (match cleared with Some a => [triggerRedeem a] | None => [] end)
      else emit awaitingSettlementState [parkOp]
  end.

(** The steps of the redeem machine. *)
Definition process_redeemReserving : turn CreditTransition :=
  bind* r := get_rec in
  bind* b := get in
  if negb (bool_decide (DestinationPubkey r = [])) &&
     negb (bool_decide (redeemPkScript b = [])) then
    emit redeemSubmittingState []
  else
    bind* res := interact (AllocateReceiveScript "credit-redeem") in
    match res with
    | Err e => throw (wrapf "allocate redeem destination: " e)
    | Ok (pubKey, pkScript) =>
        if bool_decide (pubKey = []) || bool_decide (pkScript = []) then
          fail "redeem destination is empty"
        else
          run* modify (λ b, set_redeemPkScript
                 (set_rec b (set_Server r (ServerOpID r) (PaymentHash r) pubKey
                               (Invoice r))) pkScript) in
          emit redeemSubmittingState [stageRecord]
    end.

Definition process_redeemSubmitting : turn CreditTransition :=
  bind* key := accountKey in
  bind* key := lift key in
  bind* r := get_rec in
  bind* res := interact (RedeemCredit key (OpKey r) (uint64 (AmountSat r))
                           (DestinationPubkey r)) in
  match res with
  | Err e =>
      if errors_Is e ErrRedeemRejected then fail ("redeem rejected: " +:+ e_text e)
      else throw (wrapf "reserve redemption: " e)
  | Ok res =>
      if IsTerminalFailure (rr_State res) then
        fail ("redemption ended in " +:+ rr_State res)
      else
        run* modify (λ b, set_rec b
               (set_Server r (rr_OperationID res) (PaymentHash r)
                  (DestinationPubkey r) (Invoice r))) in
        emit awaitingOORState [stageRecord]
  end.

Definition process_awaitingOOR : turn CreditTransition :=
  bind* sn := listCredits in
  match sn with
  | Err e => postponeListCreditsFetch e
  | Ok snapshot =>
      bind* r := get_rec in
      let state := serverOpState snapshot (ServerOpID r) in
      if from_option IsTerminalFailure false state then
        fail ("redemption ended in " +:+ from_option id EmptyString state)
      else
        bind* b := get in
        bind* res := interact (FindLiveVTXOByPkScript (redeemPkScript b)) in
        match res with
        | Err e => throw (wrapf "find redeemed vtxo: " e)
        | Ok (found, amountSat) =>
            if found && (amountSat >? 0)%Z then
              run* (if bool_decide (amountSat = AmountSat r) then ret tt
                    else modify (λ b, set_rec b (set_AmountSat r amountSat))) in
              emit completedState []
            else
              bind* exhausted := awaitExhausted in
              if (exhausted : bool) then
                fail "redeemed vtxo not seen within poll cap"
              else emit awaitingOORState [parkOp]
        end
  end.

(** [CreditState.ProcessEvent] for the one event [opDrive]. *)
Definition Credit_ProcessEvent (s : CreditState) : turn CreditTransition :=
  match s with
  | quotingState => process_quoting
  | topupCreatingState => process_topupCreating
  | topupFundingState => process_topupFunding
  | topupAwaitingCreditState => process_topupAwaitingCredit
  | payingState => process_paying
  | payAwaitingSettlementState => process_payAwaitingSettlement
  | receiveCreatingState => process_receiveCreating
  | awaitingSettlementState => process_awaitingSettlement
  | redeemReservingState => process_redeemReserving
  | redeemSubmittingState => process_redeemSubmitting
  | awaitingOORState => process_awaitingOOR
  | completedState => emit completedState []
  | failedState => emit failedState []
  end.

(** ** The durable actor *)

(** [restore]: rebuild the memory from the durable row, if there is one. *)
Definition restore : turn unit :=
  bind* r := read_operation in
  match r with
  | Err e =>
      if errors_Is e ErrCreditOperationNotFound then ret tt else throw e
  | Ok rw =>
      bind* snap := lift (decodeOpSnapshot (SnapshotData rw)) in
      let '(cur, known) := decodeCreditState (rec_State rw) in
      modify (λ b,
        set_curState
          (mkBehavior (Some rw) (RedeemPkScript snap) (Memo snap)
             (CreditOnly snap) (AwaitPolls snap) (acctKey b) (armRetry b)
             (terminalCommitted b) (commitFailed b) (curState b)
             (corruptState b) (pendingRedeem b))
          cur (negb known))
  end.

(** [applyState]: mirror the next state onto the record. *)
Definition apply_state (b : opBehavior) (r : CreditOperationRecord)
    (next : CreditState) : opBehavior :=
  let s := CreditState_String next in
  let b := if bool_decide (rec_State r = s) then b else set_awaitPolls b 0 in
  set_rec b (set_State r s (State_Status s)).

Definition applyState (next : CreditState) : turn unit :=
  bind* r := get_rec in modify (λ b, apply_state b r next).

(** [persist]: the row a Stage or Commit writes. *)
Definition snapshot_of (b : opBehavior) : opSnapshot :=
  mkSnapshot (redeemPkScript b) (receiveMemo b) (creditOnly b) (awaitPolls b).

Definition persisted (b : opBehavior) (r : CreditOperationRecord) :
    result goerr CreditOperationRecord :=
  let* raw := encode (snapshot_of b) in Ok (set_Snapshot r raw snapshotVersion).

Definition checkpoint : turn unit :=
  bind* r := get_rec in
  bind* b := get in
  bind* rw := lift (persisted b r) in
  write_stage rw.

Definition commitAck : turn unit :=
  bind* r := get_rec in
  bind* b := get in
  let terminal := State_IsTerminal (rec_State r) in
  bind* rw := lift (persisted b r) in
  run* write_commit rw in
  modify (λ b, set_terminalCommitted b terminal).

(** The outbox of one transition; the result is whether the turn parks. *)
Fixpoint run_outbox (out : list CreditOutMsg) (park : bool) : turn bool :=
  match out with
  | [] => ret park
  | stageRecord :: out => run* checkpoint in run_outbox out park
  | parkOp :: out => run_outbox out true
  | triggerRedeem a :: out =>
      run* modify (λ b, set_pendingRedeem b (Some a)) in run_outbox out park
  end.

(** One iteration of the loop of [runFSM] on a live state; the result is whether
    the loop ends. *)
Definition drive_step (cur : CreditState) : turn bool :=
  bind* t := Credit_ProcessEvent cur in
  run* applyState (NextState t) in
  run* modify (λ b, set_curState b (NextState t) (corruptState b)) in
  bind* park := run_outbox (Outbox t) false in
  if (park : bool) then run* modify (λ b, set_armRetry b true) in ret true
  else ret false.

Fixpoint run_loop (fuel : nat) : turn unit :=
  match fuel with
  | O => λ s, (NoFuel, s)
  | S fuel =>
      bind* b := get in
      match curState b with
      | None => λ s, (Dead, s)
      | Some cur =>
          if CreditState_IsTerminal cur then ret tt
          else
            bind* done := drive_step cur in
            if (done : bool) then ret tt else run_loop fuel
      end
  end.

(** The longest run visits six live states before it parks or ends. *)
Definition runFSM : turn unit := run_loop 8.

Definition failCorrupt : turn unit :=
  bind* r := get_rec in
  run* modify (λ b, set_rec b
         (set_LastError r ("unrecognized persisted state " +:+ rec_State r))) in
  run* applyState failedState in
  modify (λ b, set_curState b failedState false).

(** The part of [dispatch] after the message is known to be a resume. *)
Definition dispatch_resume : turn unit :=
  bind* b := get in
  match rec b with
  | None => ret tt
  | Some r =>
      run* (match curState b with
            | Some _ => ret tt
            | None =>
                let '(cur, known) := decodeCreditState (rec_State r) in
                modify (λ b, set_curState b cur (negb known))
            end) in
      bind* b := get in
      if corruptState b then failCorrupt
      else if from_option CreditState_IsTerminal false (curState b) then ret tt
      else runFSM
  end.

Definition dispatch (msg : CreditDurableMsg) : turn unit :=
  run* modify (λ b, set_pendingRedeem (set_armRetry b false) None) in
  match msg with
  | ResumeCreditOpRequest => dispatch_resume
  | _ => throw (errorf "unexpected credit message")
  end.

(** [considerRedeem], [notifyTerminal] and [armPollTimer] are best-effort: the
    errors of their messages are only logged. *)
Definition afterCommit : turn unit :=
  bind* b := get in
  run* (match pendingRedeem b with
        | Some a =>
            run* (if HasRegistry cfg
                  then run* interact (TellConsiderRedeem a) in ret tt
                  else ret tt) in
            modify (λ b, set_pendingRedeem b None)
        | None => ret tt
        end) in
  bind* b := get in
  if terminalCommitted b then
    if HasRegistry cfg
    then run* interact (TellTerminal (cfg_OpID cfg)) in ret tt else ret tt
  else if armRetry b then
    if HasTimeoutActor cfg
    then run* interact (TellSchedule (cfg_OpID cfg) (PollInterval cfg)) in ret tt
    else ret tt
  else ret tt.

(** Runs [m]; an error marks the memory as ahead of the durable row. *)
Definition or_commit_failed {A} (m : turn A) : turn A := λ s,
  match m s with
  | (Throw e, s') =>
      (Throw e, mkSys (set_commitFailed (mem s') true) (row s') (world s') (trace s'))
  | o => o
  end.

Definition Receive (msg : CreditDurableMsg) : turn unit :=
  match msg with
  | RestartMessage => ret tt
  | _ =>
      bind* b := get in
      run* (if commitFailed b
            then run* restore in modify (λ b, set_commitFailed b false)
            else ret tt) in
      run* or_commit_failed (dispatch msg) in
      bind* b := get in
      match rec b with
      | None => ret tt
      | Some _ => run* or_commit_failed commitAck in afterCommit
      end
  end.
End actor.

(** ** Processes over a durable row

    A node is the durable row, the history of calls, and the memory of the
    process serving it, if one is running. *)
Record Node {W : Type} := mkNode {
  proc : option opBehavior;
  n_row : option CreditOperationRecord;
  n_world : W;
  n_trace : list Event
}.
Arguments Node W : clear implicits.
Arguments mkNode {W}.

Definition node_sys {W} (n : Node W) (b : opBehavior) : Sys W :=
  mkSys b (n_row n) (n_world n) (n_trace n).
Definition node_of {W} (p : option opBehavior) (s : Sys W) : Node W :=
  mkNode p (row s) (world s) (trace s).

Section node.
Context {W : Type} `{!TLV} (cfg : OpActorConfig)
  (handle : ∀ c : Call, W → reply (Resp c) * W).

(** [NewOpActor]: a fresh behavior restored from the row; an error leaves no
    running actor. *)
Definition boot (n : Node W) : Node W :=
  match restore cfg handle (node_sys n new_behavior) with
  | (Ret _, s) => node_of (Some (mem s)) s
  | (_, s) => node_of None s
  end.

(** Delivery of one message; an error keeps the process, which redelivers. *)
Definition deliver (msg : CreditDurableMsg) (b : opBehavior) (n : Node W) : Node W :=
  match Receive cfg handle msg (node_sys n b) with
  | (Ret _, s) | (Throw _, s) => node_of (Some (mem s)) s
  | (_, s) => node_of None s
  end.

(** The process may start, receive a message or be killed; the world moves on by
    itself. *)
Inductive node_step : Node W → Node W → Prop :=
| step_boot n : proc n = None → node_step n (boot n)
| step_deliver msg b n : proc n = Some b → node_step n (deliver msg b n)
| step_kill n : node_step n (mkNode None (n_row n) (n_world n) (n_trace n))
| step_world w n : node_step n (mkNode (proc n) (n_row n) w (n_trace n)).
End node.

(** ** Admission ([buildRecord] and the row [admit] writes) *)

Inductive CreditMsg :=
| StartCreditPayRequest (opKey invoice : string) (paymentHash : bytes)
    (amountSat topupSat maxCreditSat maxFeeSat : Z) (creditOnly : bool)
| StartCreditReceiveRequest (opKey : string) (amountSat : Z) (memo : string)
| RedeemRequest (opKey : string) (amountSat : Z)
| OtherCreditMsg.

Definition buildRecord (opID : string) (msg : CreditMsg) :
    option CreditOperationRecord * opSnapshot :=
  match msg with
  | StartCreditPayRequest key invoice hash amt topup maxCredit maxFee only =>
      (Some (mkRecord opID key KindPay (initialState KindPay)
               CreditOpStatusPending "" hash [] "" invoice (int64 amt)
               (int64 topup) (int64 maxCredit) (int64 maxFee) "" [] 0),
       mkSnapshot [] "" only 0)
  | StartCreditReceiveRequest key amt memo =>
      (Some (mkRecord opID key KindReceive (initialState KindReceive)
               CreditOpStatusPending "" [] [] "" "" (int64 amt) 0 0 0 "" [] 0),
       mkSnapshot [] memo false 0)
  | RedeemRequest key amt =>
      (Some (mkRecord opID key KindRedeem (initialState KindRedeem)
               CreditOpStatusPending "" [] [] "" "" (int64 amt) 0 0 0 "" [] 0),
       mkSnapshot [] "" false 0)
  | OtherCreditMsg => (None, mkSnapshot [] "" false 0)
  end.

(** [createReceiveInvoice] on the server's answer. *)
Definition createReceiveInvoice (r : CreditOperationRecord)
    (answer : result goerr CreateCreditResult) :
    result goerr CreditOperationRecord :=
  match answer with
  | Err e => Err (wrapf "create receive credit: " e)
  | Ok res =>
      if IsTerminalFailure (ccr_State res) then
        Err (errorf ("receive credit ended in " +:+ ccr_State res))
      else if bool_decide (ccr_Invoice res = EmptyString) then
        Err (errorf "receive credit missing invoice")
      else
        Ok (set_State
              (set_Server r (ccr_OperationID res)
                 (if bool_decide (ccr_PaymentHash res = [])
                  then PaymentHash r else ccr_PaymentHash res)
                 (DestinationPubkey r) (ccr_Invoice res))
              StateAwaitingSettlement (State_Status StateAwaitingSettlement))
  end.

(** The row [admit] writes for a fresh operation. *)
Definition admit_row `{!TLV} (opID : string) (msg : CreditMsg)
    (answer : result goerr CreateCreditResult) :
    result goerr CreditOperationRecord :=
  match buildRecord opID msg with
  | (None, _) => Err (errorf "unsupported admission")
  | (Some r, snap) =>
      let* r := if bool_decide (Kind r = KindReceive)
                then createReceiveInvoice r answer else Ok r in
      let* raw := encode snap in
      Ok (set_Snapshot r raw snapshotVersion)
  end.

(** ** The documented transition table *)

Record creditEntry := mkEntry {
  FromState : CreditState;
  ToState : CreditState;
  EmitsOutbox : list CreditOutMsg;
  IsTerminal : bool
}.

(** [CreditTransitions]; the available amount of a trigger is a placeholder. *)
Definition CreditTransitions : list creditEntry :=
  [ mkEntry quotingState topupCreatingState [] false;
    mkEntry quotingState payingState [] false;
    mkEntry topupCreatingState topupFundingState [stageRecord] false;
    mkEntry topupCreatingState failedState [] true;
    mkEntry topupFundingState topupAwaitingCreditState [stageRecord] false;
    mkEntry topupAwaitingCreditState payingState [] false;
    mkEntry topupAwaitingCreditState topupAwaitingCreditState [parkOp] false;
    mkEntry topupAwaitingCreditState failedState [] true;
    mkEntry payingState payAwaitingSettlementState [stageRecord] false;
    mkEntry payingState completedState [] true;
    mkEntry payAwaitingSettlementState completedState [] true;
    mkEntry payAwaitingSettlementState payAwaitingSettlementState [parkOp] false;
    mkEntry payAwaitingSettlementState failedState [] true;
    mkEntry receiveCreatingState awaitingSettlementState [stageRecord] false;
    mkEntry receiveCreatingState failedState [] true;
    mkEntry awaitingSettlementState completedState [triggerRedeem 0] true;
    mkEntry awaitingSettlementState awaitingSettlementState [parkOp] false;
    mkEntry awaitingSettlementState failedState [] true;
    mkEntry redeemReservingState redeemSubmittingState [stageRecord] false;
    mkEntry redeemReservingState failedState [] true;
    mkEntry redeemSubmittingState awaitingOORState [stageRecord] false;
    mkEntry redeemSubmittingState failedState [] true;
    mkEntry awaitingOORState completedState [] true;
    mkEntry awaitingOORState awaitingOORState [parkOp] false;
    mkEntry awaitingOORState failedState [] true;
    mkEntry completedState completedState [] true;
    mkEntry failedState failedState [] true ].
