(* ===== verification/CreditOps.v ===== *)
(** * Credit operations: invariants

    What a durable row, the memory of a running process and the history of calls
    promise about each other, and the preservation of those promises by every
    step of the actor of [CreditFsm]. *)

From Stdlib Require Import Strings.Byte Strings.String.
From S2P Require Import Prelude CreditFsm.

(** ** State names and snapshots *)

Lemma decode_String s : decodeCreditState (CreditState_String s) = (s, true).
Proof. by destruct s. Qed.

Lemma String_inj s s' : CreditState_String s = CreditState_String s' → s = s'.
Proof.
  intros H. pose proof (decode_String s) as D. rewrite H, decode_String in D.
  congruence.
Qed.

Lemma String_terminal s :
  State_IsTerminal (CreditState_String s) = CreditState_IsTerminal s.
Proof. by destruct s. Qed.

(** A snapshot the encoder represents: the poll counter is a [uint32]. *)
Definition snap_fits (s : opSnapshot) : Prop :=
  (0 ≤ AwaitPolls s < 4294967296)%Z.

Lemma snapshot_records_wf s :
  snap_fits s → stream_wf snapshot_schema (snapshot_records s).
Proof.
  destruct s as [pk memo only polls]. unfold snap_fits, stream_wf, snapshot_records.
  simpl. intros Hp.
  destruct (bool_decide (pk = [])), (bool_decide (memo = EmptyString)), only,
    (polls >? 0)%Z eqn:E; simpl;
    (split;
     [repeat constructor
     | intros t v Hin; set_unfold in Hin; destruct_or?; simplify_eq/=;
       (split; [unfold snapshot_schema; set_solver
               |first [done|by apply bool_decide_eq_true_2]])]).
Qed.

Section roundtrip.
Context `{!TLV, !TLVLaws}.

(** Persisting and restoring a snapshot is the identity. *)
Lemma snapshot_roundtrip s :
  snap_fits s → ∃ raw, encode s = Ok raw ∧ decodeOpSnapshot raw = Ok s.
Proof.
  intros Hs. unfold encode, decodeOpSnapshot.
  destruct (stream_roundtrip snapshot_schema (snapshot_records s)
              (snapshot_records_wf s Hs)) as (raw & He & Hne & Hd).
  revert He Hne Hd. destruct s as [pk memo only polls]. unfold snap_fits in Hs.
  unfold snapshot_records. simpl in *.
  destruct (bool_decide (pk = [])) eqn:E1, (bool_decide (memo = EmptyString)) eqn:E2,
    only, (polls >? 0)%Z eqn:E3; simpl; intros He Hne Hd;
    try (exists raw; rewrite He; split; [done|];
         rewrite bool_decide_eq_false_2 by (by apply Hne); rewrite Hd);
    try (exists []; split; [done|]);
    zbool; simplify_eq/=; unfold rec_bytes, rec_uint; simpl;
    rewrite ?String.string_of_list_byte_of_string;
    repeat f_equal; try done; rewrite Z.gtb_ltb in E3; apply Z.ltb_ge in E3; lia.
Qed.

Lemma encode_ok s : snap_fits s → ∃ raw, encode s = Ok raw.
Proof. intros Hf. destruct (snapshot_roundtrip s Hf) as (raw & ? & _). eauto. Qed.

Lemma encode_decode s raw :
  snap_fits s → encode s = Ok raw → decodeOpSnapshot raw = Ok s.
Proof.
  intros Hf E. destruct (snapshot_roundtrip s Hf) as (raw' & E' & D).
  rewrite E in E'. by simplify_eq.
Qed.
End roundtrip.

(** ** Evidence in the history *)

(** The server's ledger showed the operation as credited. *)
Definition credited (t : list Event) (serverOpID : string) : Prop :=
  ∃ acct sn d, Ev (ListCredits acct) (Some (Ok sn)) d ∈ t ∧
    serverOpState sn serverOpID = Some ServerStateCredited.

(** The out-of-round transfer funding the top-up was accepted. *)
Definition topup_sent (t : list Event) (r : CreditOperationRecord) : Prop :=
  ∃ existing d,
    Ev (SendOOR (DestinationPubkey r) (uint64 (TopupSat r)) (OpKey r) existing)
      (Some (Ok (OORSessionID r))) d ∈ t.

(** The pay was started with the authorised caps. *)
Definition pay_started (t : list Event) (r : CreditOperationRecord) : Prop :=
  ∃ u d,
    Ev (StartPay (Invoice r) (uint64 (MaxFeeSat r)) (uint64 (MaxCreditSat r)))
      (Some (Ok u)) d ∈ t.

(** The ledger showed an authorised debit for the invoice. *)
Definition pay_settled (t : list Event) (r : CreditOperationRecord) : Prop :=
  ∃ acct sn d, Ev (ListCredits acct) (Some (Ok sn)) d ∈ t ∧
    authorizedPayState sn (PaymentHash r) (uint64 (MaxCreditSat r)) =
      Ok (ServerStateDebited, true).

(** The redemption was reserved, and its output was seen. *)
Definition redeem_reserved (t : list Event) (r : CreditOperationRecord) : Prop :=
  ∃ acct amount res d,
    Ev (RedeemCredit acct (OpKey r) amount (DestinationPubkey r)) (Some (Ok res)) d
      ∈ t ∧ rr_OperationID res = ServerOpID r.
Definition redeem_landed (t : list Event) (r : CreditOperationRecord)
    (sn : opSnapshot) : Prop :=
  ∃ d, Ev (FindLiveVTXOByPkScript (RedeemPkScript sn))
         (Some (Ok (true, AmountSat r))) d ∈ t ∧ (0 < AmountSat r)%Z.

(** What each state says about its operation and the history. *)
Definition phase_ok (t : list Event) (r : CreditOperationRecord) (sn : opSnapshot)
    (cs : CreditState) : Prop :=
  match cs with
  | quotingState | topupCreatingState => Kind r = KindPay ∧ DestinationPubkey r = []
  | topupFundingState => Kind r = KindPay ∧ DestinationPubkey r ≠ []
  | topupAwaitingCreditState =>
      Kind r = KindPay ∧ DestinationPubkey r ≠ [] ∧ topup_sent t r
  | payingState => Kind r = KindPay ∧ (TopupSat r = 0%Z ∨ credited t (ServerOpID r))
  | payAwaitingSettlementState =>
      Kind r = KindPay ∧ CreditOnly sn = true ∧ PaymentHash r ≠ [] ∧ pay_started t r
  | receiveCreatingState => Kind r = KindReceive
  | awaitingSettlementState => Kind r = KindReceive ∧ Invoice r ≠ EmptyString
  | redeemReservingState =>
      Kind r = KindRedeem ∧ DestinationPubkey r = [] ∧ RedeemPkScript sn = []
  | redeemSubmittingState =>
      Kind r = KindRedeem ∧ DestinationPubkey r ≠ [] ∧ RedeemPkScript sn ≠ []
  | awaitingOORState =>
      Kind r = KindRedeem ∧ DestinationPubkey r ≠ [] ∧ RedeemPkScript sn ≠ [] ∧
      redeem_reserved t r
  | completedState =>
      match Kind r with
      | KindPay =>
          pay_started t r ∧
          (CreditOnly sn = true → PaymentHash r ≠ [] → pay_settled t r)
      | KindReceive => credited t (ServerOpID r)
      | KindRedeem => redeem_landed t r sn
      | KindOther _ => False
      end
  | failedState => LastError r ≠ EmptyString
  end.

(** How far a state is from the end. *)
Definition rank (s : CreditState) : nat :=
  match s with
  | quotingState => 6 | topupCreatingState => 5 | topupFundingState => 4
  | topupAwaitingCreditState => 3 | payingState => 2
  | payAwaitingSettlementState => 1
  | receiveCreatingState => 2 | awaitingSettlementState => 1
  | redeemReservingState => 3 | redeemSubmittingState => 2 | awaitingOORState => 1
  | completedState | failedState => 0
  end.
Definition state_rank (s : string) : nat := rank (decodeCreditState s).1.

(** The columns that identify an operation and bind its side effects. *)
Definition core (r : CreditOperationRecord) : CreditOperationRecord :=
  set_Snapshot r [] 0.

(** How an operation may evolve: its authority is fixed, a destination once
    recorded is kept, the amount changes only on completion, the state moves
    forward and terminal operations do not change. *)
Record evolves (r : CreditOperationRecord) (s : opSnapshot)
    (r' : CreditOperationRecord) (s' : opSnapshot) : Prop := {
  ev_id : OpID r' = OpID r;
  ev_key : OpKey r' = OpKey r;
  ev_kind : Kind r' = Kind r;
  ev_topup : TopupSat r' = TopupSat r;
  ev_caps : MaxCreditSat r' = MaxCreditSat r ∧ MaxFeeSat r' = MaxFeeSat r;
  ev_only : CreditOnly s' = CreditOnly s;
  ev_memo : Memo s' = Memo s;
  ev_invoice : Kind r = KindPay →
    Invoice r' = Invoice r ∧ PaymentHash r' = PaymentHash r;
  ev_dest : DestinationPubkey r ≠ [] → DestinationPubkey r' = DestinationPubkey r;
  ev_script : RedeemPkScript s ≠ [] → RedeemPkScript s' = RedeemPkScript s;
  ev_amount : rec_State r' ≠ StateCompleted → AmountSat r' = AmountSat r;
  ev_rank : state_rank (rec_State r') ≤ state_rank (rec_State r);
  ev_terminal : State_IsTerminal (rec_State r) = true → core r' = core r ∧ s' = s
}.

Lemma evolves_refl r s : evolves r s r s.
Proof. by split. Qed.

(** Identifies two records with the same core, up to the snapshot columns. *)
Ltac split_core r r' Hc :=
  destruct r, r'; unfold core, set_Snapshot in Hc; simpl in *;
  injection Hc; clear Hc; intros; subst.

Lemma core_fields r r' : core r' = core r →
  rec_State r' = rec_State r ∧ DestinationPubkey r' = DestinationPubkey r ∧
  AmountSat r' = AmountSat r.
Proof. intros Hc. by split_core r r' Hc. Qed.

Lemma evolves_trans r s r' s' r'' s'' :
  evolves r s r' s' → evolves r' s' r'' s'' → evolves r s r'' s''.
Proof.
  intros [] []. split; try congruence.
  - destruct ev_caps0, ev_caps1. split; congruence.
  - intros Hk. destruct ev_invoice0; [done|]. destruct ev_invoice1; [congruence|].
    split; congruence.
  - intros Hd. rewrite ev_dest1; [by apply ev_dest0|].
    rewrite ev_dest0 by done. done.
  - intros Hd. rewrite ev_script1; [by apply ev_script0|].
    rewrite ev_script0 by done. done.
  - intros Hs. rewrite ev_amount1 by done. apply ev_amount0. intros Hc.
    destruct ev_terminal1 as [Hcore _]; [by rewrite Hc|].
    apply core_fields in Hcore as (Hst & _ & _). congruence.
  - lia.
  - intros Ht. destruct ev_terminal0 as [Hc Hs]; [done|].
    pose proof (core_fields _ _ Hc) as (Hst & _ & _).
    destruct ev_terminal1 as [Hc' Hs']; [by rewrite Hst|].
    split; congruence.
Qed.

(** Only the snapshot column differs between a record and the row written. *)
Lemma evolves_core_r r s r' r'' s' :
  core r'' = core r' → evolves r s r' s' → evolves r s r'' s'.
Proof.
  intros Hc []. split_core r' r'' Hc. by split.
Qed.
Lemma evolves_core_l r s r' r'' s' :
  core r'' = core r → evolves r s r' s' → evolves r'' s r' s'.
Proof.
  intros Hc []. split_core r r'' Hc. by split.
Qed.
Lemma phase_core t r r' sn cs :
  core r' = core r → phase_ok t r sn cs → phase_ok t r' sn cs.
Proof.
  intros Hc. split_core r r' Hc. by destruct cs.
Qed.
Lemma core_set_Snapshot r raw v : core (set_Snapshot r raw v) = core r.
Proof. done. Qed.

(** ** Promises about calls *)

(** The calls that drive an operation, as opposed to reads of the row, writes of
    it and notifications. *)
Definition drives (c : Call) : bool :=
  match c with
  | CreateCredit _ _ _ _ _ | ListCredits _ | RedeemCredit _ _ _ _ | StartPay _ _ _
  | IdentityPubKey | VTXOFloor | SendOOR _ _ _ _ | AllocateReceiveScript _
  | FindLiveVTXOByPkScript _ | LoadEarmark | DeliveryAge | Stage _ => true
  | GetOperation _ | Commit _ | TellConsiderRedeem _ | TellTerminal _
  | TellSchedule _ _ => false
  end.

Definition awaiting_state (s : CreditState) : bool :=
  match s with
  | topupAwaitingCreditState | payAwaitingSettlementState
  | awaitingSettlementState | awaitingOORState => true
  | _ => false
  end.

(** What holds of the durable row, and of the history before it, when a call is
    made. *)
Definition call_ok (t : list Event) (r : CreditOperationRecord) (sn : opSnapshot)
    (c : Call) : Prop :=
  (drives c = true → State_IsTerminal (rec_State r) = false) ∧
  match c with
  | SendOOR dest amount key _ =>
      rec_State r = StateTopupFunding ∧ dest = DestinationPubkey r ∧ dest ≠ [] ∧
      amount = uint64 (TopupSat r) ∧ key = OpKey r
  | RedeemCredit _ key amount dest =>
      rec_State r = StateRedeemSubmitting ∧ dest = DestinationPubkey r ∧
      dest ≠ [] ∧ RedeemPkScript sn ≠ [] ∧
      amount = uint64 (AmountSat r) ∧ key = OpKey r
  | StartPay invoice maxFee maxCredit =>
      Kind r = KindPay ∧ invoice = Invoice r ∧ maxFee = uint64 (MaxFeeSat r) ∧
      maxCredit = uint64 (MaxCreditSat r) ∧
      (TopupSat r = 0%Z ∨ credited t (ServerOpID r))
  | ListCredits _ =>
      ∃ cs, rec_State r = CreditState_String cs ∧ awaiting_state cs = true
  | FindLiveVTXOByPkScript pk =>
      rec_State r = StateAwaitingOOR ∧ pk = RedeemPkScript sn
  | CreateCredit _ key _ _ _ => key = OpKey r
  | _ => True
  end.

(** Calls without an obligation of their own. *)
Definition plain (c : Call) : Prop :=
  match c with
  | SendOOR _ _ _ _ | RedeemCredit _ _ _ _ | StartPay _ _ _ | ListCredits _
  | FindLiveVTXOByPkScript _ | CreateCredit _ _ _ _ _ => False
  | _ => True
  end.

(** In a history (newest first) the durable rows evolve, and every call was
    justified by the row of its time. *)
Fixpoint trace_ok `{!TLV} (r : CreditOperationRecord) (sn : opSnapshot)
    (t : list Event) : Prop :=
  match t with
  | [] => True
  | Ev c _ d :: t =>
      ∃ r0 s0, d = Some r0 ∧ decodeOpSnapshot (SnapshotData r0) = Ok s0 ∧
        evolves r0 s0 r sn ∧ call_ok t r0 s0 c ∧ trace_ok r0 s0 t
  end.

Lemma trace_ok_mono `{!TLV} r s r' s' t :
  trace_ok r s t → evolves r s r' s' → trace_ok r' s' t.
Proof.
  destruct t as [|[c a d] t]; [done|]. simpl.
  intros (r0 & s0 & ? & ? & ? & ? & ?) ?. exists r0, s0.
  split_and!; eauto using evolves_trans.
Qed.

(** Evidence stays in the history. *)
Lemma phase_mono t e r sn cs : phase_ok t r sn cs → phase_ok (e :: t) r sn cs.
Proof.
  assert (∀ e', e' ∈ t → e' ∈ e :: t) as Hin by (intros; by constructor).
  unfold phase_ok, credited, topup_sent, pay_started, pay_settled,
    redeem_reserved, redeem_landed.
  destruct cs; try done; try (destruct (Kind r); [..|done]); naive_solver.
Qed.

Section invariant.
Context {W : Type} `{!TLV, !TLVLaws} (cfg : OpActorConfig)
  (handle : ∀ c : Call, W → reply (Resp c) * W).
(** The row of some earlier moment, which the operation evolves from. *)
Context (o : CreditOperationRecord) (os : opSnapshot).
Implicit Types s : Sys W.

(** A snapshot within the poll cap. *)
Definition snap_ok (sn : opSnapshot) : Prop :=
  snap_fits sn ∧
  ((0 < MaxAwaitingPolls cfg)%Z → (AwaitPolls sn ≤ MaxAwaitingPolls cfg)%Z).

(** A well-formed durable row. *)
Definition row_ok (t : list Event) (r : CreditOperationRecord) (sn : opSnapshot) :
    Prop :=
  snap_ok sn ∧ encode sn = Ok (SnapshotData r) ∧
  SnapshotVersion r = snapshotVersion ∧
  ∃ cs, rec_State r = CreditState_String cs ∧
    rec_Status r = State_Status (rec_State r) ∧ phase_ok t r sn cs.

Definition durable (r : CreditOperationRecord) (sn : opSnapshot) (s : Sys W) : Prop :=
  row s = Some r ∧ row_ok (trace s) r sn ∧ trace_ok r sn (trace s) ∧
  evolves o os r sn.

(** What survives any interruption. *)
Definition safe (s : Sys W) : Prop := ∃ r sn, durable r sn s.

(** States whose record is written before they run. *)
Definition checkpointed (cs : CreditState) : bool :=
  match cs with
  | topupFundingState | topupAwaitingCreditState | payAwaitingSettlementState
  | awaitingSettlementState | redeemSubmittingState | awaitingOORState => true
  | _ => false
  end.

Definition synced (r : CreditOperationRecord) (rs : opSnapshot)
    (m : CreditOperationRecord) (ms : opSnapshot) (cs : CreditState) : Prop :=
  (checkpointed cs = true →
     rec_State r = rec_State m ∧ ServerOpID r = ServerOpID m ∧
     DestinationPubkey r = DestinationPubkey m ∧ AmountSat r = AmountSat m ∧
     RedeemPkScript rs = RedeemPkScript ms) ∧
  (cs = payingState → TopupSat m ≠ 0%Z → ServerOpID r = ServerOpID m).

(** The memory of a process that is in step with the durable row. *)
Record live (r : CreditOperationRecord) (rs : opSnapshot)
    (m : CreditOperationRecord) (cs : CreditState) (s : Sys W) : Prop := {
  lv_durable : durable r rs s;
  lv_rec : rec (mem s) = Some m;
  lv_cur : curState (mem s) = Some cs;
  lv_corrupt : corruptState (mem s) = false;
  lv_state : rec_State m = CreditState_String cs;
  lv_status : rec_Status m = State_Status (rec_State m);
  lv_snap : snap_ok (snapshot_of (mem s));
  lv_phase : phase_ok (trace s) m (snapshot_of (mem s)) cs;
  lv_evolves : evolves r rs m (snapshot_of (mem s));
  lv_synced : synced r rs m (snapshot_of (mem s)) cs
}.

(** ** Symbolic execution

    [wp m Q s]: run from [s], [m] never exhausts its fuel, returns a result
    satisfying [Q], or is interrupted in a safe state. *)
Definition wp {A} (m : M W A) (Q : A → Sys W → Prop) (s : Sys W) : Prop :=
  match m s with
  | (Ret a, s') => Q a s'
  | (Throw _, s') | (Dead, s') => safe s'
  | (NoFuel, _) => False
  end.

Lemma wp_bind {A B} (m : M W A) (k : A → M W B) Q s :
  wp m (λ a, wp (k a) Q) s → wp (bind m k) Q s.
Proof. unfold wp, bind. destruct (m s) as [[] s']; done. Qed.

Lemma wp_mono {A} (m : M W A) (Q Q' : A → Sys W → Prop) s :
  wp m Q s → (∀ a s', Q a s' → Q' a s') → wp m Q' s.
Proof. unfold wp. destruct (m s) as [[] s']; eauto. Qed.

Lemma wp_ret {A} (a : A) Q s : Q a s → wp (ret a) Q s.
Proof. done. Qed.
Lemma wp_throw {A} e (Q : A → Sys W → Prop) s : safe s → wp (throw e) Q s.
Proof. done. Qed.
Lemma wp_get Q s : Q (mem s) s → wp get Q s.
Proof. done. Qed.
Lemma wp_modify f Q s :
  Q tt (mkSys (f (mem s)) (row s) (world s) (trace s)) → wp (modify f) Q s.
Proof. done. Qed.
Lemma wp_get_rec m Q s : rec (mem s) = Some m → Q m s → wp get_rec Q s.
Proof. unfold wp, get_rec. by intros ->. Qed.
Lemma wp_lift {A} (r : result goerr A) Q s :
  safe s → (∀ a, r = Ok a → Q a s) → wp (lift r) Q s.
Proof. unfold wp. destruct r; simpl; eauto. Qed.
Lemma wp_interact c Q s :
  (∀ a w, Q a (log c (Some a) w s)) → (∀ w, safe (log c None w s)) →
  wp (interact handle c) Q s.
Proof. unfold wp, interact. intros. by destruct (handle c (world s)) as [[] w]. Qed.

(** ** Calls preserve the promises *)

Lemma row_ok_mono t e r sn : row_ok t r sn → row_ok (e :: t) r sn.
Proof.
  intros (? & ? & ? & cs & ? & ? & ?). split_and!; try done.
  exists cs. eauto using phase_mono.
Qed.

Lemma row_ok_decode t r sn : row_ok t r sn → decodeOpSnapshot (SnapshotData r) = Ok sn.
Proof. intros ([? _] & ? & _). by apply encode_decode. Qed.

Lemma durable_log r sn s c a w :
  durable r sn s → call_ok (trace s) r sn c → durable r sn (log c a w s).
Proof.
  intros (Hr & Hok & Ht & Ho) Hc. split; [done|]. simpl. split_and!; [..|done].
  - by apply row_ok_mono.
  - exists r, sn. split_and!; try done.
    by eapply row_ok_decode.
Qed.

Lemma live_log r rs m cs s c a w :
  live r rs m cs s → call_ok (trace s) r rs c → live r rs m cs (log c a w s).
Proof.
  intros [] Hc. split; try done.
  - by apply durable_log.
  - by apply phase_mono.
Qed.

Lemma live_safe r rs m cs s : live r rs m cs s → safe s.
Proof. intros []. by exists r, rs. Qed.

(** A live state means a pending row. *)
Lemma live_pending r rs m cs s :
  live r rs m cs s → CreditState_IsTerminal cs = false →
  State_IsTerminal (rec_State r) = false.
Proof.
  intros [] Hcs. destruct (State_IsTerminal (rec_State r)) eqn:E; [|done].
  destruct (ev_terminal _ _ _ _ lv_evolves0 E) as [Hc _].
  apply core_fields in Hc as (Hst & _ & _).
  rewrite <- Hst, lv_state0, String_terminal in E. congruence.
Qed.

Lemma live_call r rs m cs s c :
  live r rs m cs s → CreditState_IsTerminal cs = false →
  plain c → call_ok (trace s) r rs c.
Proof.
  intros Hl Hcs Hc. split.
  - intros _. by eapply live_pending.
  - by destruct c.
Qed.

(** Caching the account key does not touch the operation. *)
Lemma live_acctKey r rs m cs s key :
  live r rs m cs s →
  live r rs m cs (mkSys (set_acctKey (mem s) key) (row s) (world s) (trace s)).
Proof. intros []. by split. Qed.

(** One call of a live operation. *)
Lemma wp_call r rs m cs c Q s :
  live r rs m cs s → call_ok (trace s) r rs c →
  (∀ a w, live r rs m cs (log c (Some a) w s) → Q a (log c (Some a) w s)) →
  wp (interact handle c) Q s.
Proof.
  intros Hl Hc HQ. apply wp_interact.
  - intros a w. by apply HQ, live_log.
  - intros w. by eapply live_safe, live_log.
Qed.

Lemma wp_accountKey r rs m cs Q s :
  live r rs m cs s → CreditState_IsTerminal cs = false →
  (∀ key s', live r rs m cs s' → snapshot_of (mem s') = snapshot_of (mem s) →
     Q key s') →
  wp (accountKey handle) Q s.
Proof.
  intros Hl Hcs HQ. apply wp_bind, wp_get. destruct (bool_decide _).
  - eapply wp_bind, wp_call; [done|by eapply live_call|]. intros [key|e] w Hl'.
    + apply wp_bind, wp_modify, wp_ret, HQ; [|done]. by apply live_acctKey.
    + by apply wp_ret, HQ.
  - apply wp_ret. by apply HQ.
Qed.

(** Reading the ledger from an awaiting state: the answer is in the history. *)
Lemma wp_listCredits r rs m cs Q s :
  live r rs m cs s → awaiting_state cs = true →
  (∀ res s', live r rs m cs s' → snapshot_of (mem s') = snapshot_of (mem s) →
     (∀ sn, res = Ok sn →
        ∃ acct d, Ev (ListCredits acct) (Some (Ok sn)) d ∈ trace s') →
     Q res s') →
  wp (listCredits handle) Q s.
Proof.
  intros Hl Hcs HQ.
  assert (CreditState_IsTerminal cs = false) as Hnt by (by destruct cs).
  eapply wp_bind, wp_accountKey; [done..|]. intros key s' Hl' Hsn.
  destruct key as [key|e]; [|by apply wp_ret, HQ].
  eapply wp_bind, wp_call; [done|..].
  - split; [intros _; by eapply live_pending|]. exists cs. split; [|done].
    destruct Hl' as [_ _ _ _ Hst _ _ _ _ [Hsy _]].
    rewrite <- Hst. apply Hsy. by destruct cs.
  - intros [sn|e] w Hl2; apply wp_ret, HQ; try done.
    intros sn' [= <-]. eexists _, _. by constructor.
Qed.

Lemma wp_postpone {A} r rs m cs (Q : A → Sys W → Prop) e s :
  live r rs m cs s → CreditState_IsTerminal cs = false →
  wp (postponeListCreditsFetch cfg handle e) Q s.
Proof.
  intros Hl Hcs. unfold postponeListCreditsFetch. destruct (negb _).
  - by eapply wp_throw, live_safe.
  - eapply wp_bind, wp_call; [done|by eapply live_call|]. intros [since|] w Hl'.
    + destruct (_ <=? _)%Z; by eapply wp_throw, live_safe.
    + by eapply wp_throw, live_safe.
Qed.

(** ** One step of the machine *)

(** A running step: the record in memory may be ahead of a pending row. *)
Record stepping (r : CreditOperationRecord) (rs : opSnapshot)
    (m : CreditOperationRecord) (cs : CreditState) (s : Sys W) : Prop := {
  mv_durable : durable r rs s;
  mv_pending : State_IsTerminal (rec_State r) = false;
  mv_rec : rec (mem s) = Some m;
  mv_corrupt : corruptState (mem s) = false;
  mv_state : rec_State m = CreditState_String cs
}.
(** ... and usually only in ways an operation may evolve. *)
Record moving (r : CreditOperationRecord) (rs : opSnapshot)
    (m : CreditOperationRecord) (cs : CreditState) (s : Sys W) : Prop := {
  mv_stepping : stepping r rs m cs s;
  mv_evolves : evolves r rs m (snapshot_of (mem s))
}.

Definition entered (m : CreditOperationRecord) (next : CreditState) :
    CreditOperationRecord :=
  set_State m (CreditState_String next) (State_Status (CreditState_String next)).

(** A step parks where it is, or moves closer to the end. *)
Definition outbox_ok (cs : CreditState) (t : CreditTransition) : Prop :=
  (Outbox t = [parkOp] ∧ NextState t = cs ∧ awaiting_state cs = true) ∨
  (rank (NextState t) < rank cs ∧
   (Outbox t = [stageRecord] ∧ CreditState_IsTerminal (NextState t) = false ∨
    Outbox t = [] ∨ ∃ a, Outbox t = [triggerRedeem a])).

(** What a transition promises before the driver applies it. *)
Record next (cs : CreditState) (t : CreditTransition) (s : Sys W) : Prop := {
  nx_step : ∃ r rs m, stepping r rs m cs s ∧
    let b := apply_state (mem s) m (NextState t) in
    let m' := entered m (NextState t) in
    snap_ok (snapshot_of b) ∧
    phase_ok (trace s) m' (snapshot_of b) (NextState t) ∧
    evolves r rs m' (snapshot_of b) ∧
    (Outbox t = [stageRecord] ∨ synced r rs m' (snapshot_of b) (NextState t));
  nx_outbox : outbox_ok cs t
}.

Lemma live_moving r rs m cs s :
  live r rs m cs s → CreditState_IsTerminal cs = false → moving r rs m cs s.
Proof.
  intros Hl Hcs. pose proof (live_pending _ _ _ _ _ Hl Hcs).
  destruct Hl. split; [by split|done].
Qed.

Lemma state_rank_String cs : state_rank (CreditState_String cs) = rank cs.
Proof. unfold state_rank. by rewrite decode_String. Qed.

(** Entering another state resets the poll counter. *)
Lemma apply_state_other b m cs nx :
  rec_State m = CreditState_String cs → nx ≠ cs →
  snapshot_of (apply_state b m nx) =
    mkSnapshot (redeemPkScript b) (receiveMemo b) (creditOnly b) 0.
Proof.
  intros Hm Hne. unfold apply_state. rewrite bool_decide_eq_false_2; [done|].
  rewrite Hm. intros Heq. by apply String_inj in Heq.
Qed.
Lemma apply_state_same b m cs :
  rec_State m = CreditState_String cs →
  snapshot_of (apply_state b m cs) = snapshot_of b.
Proof.
  intros Hm. unfold apply_state. rewrite Hm, bool_decide_eq_true_2 by done.
  done.
Qed.

Lemma snap_ok_zero pk memo only : snap_ok (mkSnapshot pk memo only 0).
Proof. split; simpl; [unfold snap_fits; simpl|]; lia. Qed.

(** Advancing: the new state's promises hold of the record in memory. *)
Lemma next_enter r rs m cs nx out s :
  stepping r rs m cs s →
  rank nx < rank cs →
  (out = [stageRecord] ∧ CreditState_IsTerminal nx = false ∨ out = [] ∨
     ∃ a, out = [triggerRedeem a]) →
  let sn := mkSnapshot (redeemPkScript (mem s)) (receiveMemo (mem s))
              (creditOnly (mem s)) 0 in
  evolves r rs (entered m nx) sn →
  phase_ok (trace s) (entered m nx) sn nx →
  (out = [stageRecord] ∨ synced r rs (entered m nx) sn nx) →
  next cs (mkTransition nx out) s.
Proof.
  intros [] Hrank Hout sn Hev Hph Hsy. split.
  - exists r, rs, m. split; [done|]. cbv zeta.
    assert (nx ≠ cs) by (intros ->; lia). cbn [NextState Outbox].
    rewrite (apply_state_other _ _ cs) by done. split_and!; try done.
    apply snap_ok_zero.
  - right. split; [done|]. simpl. tauto.
Qed.

Lemma next_advance r rs m cs nx out s :
  moving r rs m cs s →
  rank nx < rank cs →
  (out = [stageRecord] ∧ CreditState_IsTerminal nx = false ∨ out = [] ∨
     ∃ a, out = [triggerRedeem a]) →
  let sn := mkSnapshot (redeemPkScript (mem s)) (receiveMemo (mem s))
              (creditOnly (mem s)) 0 in
  phase_ok (trace s) (entered m nx) sn nx →
  (out = [stageRecord] ∨ synced r rs (entered m nx) sn nx) →
  next cs (mkTransition nx out) s.
Proof.
  intros [Hst Hev] Hrank Hout sn Hph Hsy. eapply next_enter; try done.
  destruct Hst, Hev. split; try done.
  - intros Hc. apply ev_amount0. rewrite mv_state0. intros Hc'.
    destruct cs; try discriminate Hc'. simpl in Hrank. lia.
  - simpl. rewrite mv_state0, state_rank_String in ev_rank0.
    rewrite state_rank_String. lia.
  - intros Ht. congruence.
Qed.

(** The error text and the poll counter are free to change. *)
Lemma moving_LastError r rs m cs s text :
  moving r rs m cs s →
  moving r rs (set_LastError m text) cs
    (mkSys (set_rec (mem s) (set_LastError m text)) (row s) (world s) (trace s)).
Proof.
  intros [[] []]. split; [by split|]. split; try done.
  intros ?; congruence.
Qed.
Lemma moving_awaitPolls r rs m cs s n :
  moving r rs m cs s →
  moving r rs m cs (mkSys (set_awaitPolls (mem s) n) (row s) (world s) (trace s)).
Proof.
  intros [[] []]. split; [by split|]. split; try done.
  intros ?; congruence.
Qed.

(** A deterministic failure is recorded with its reason. *)
Lemma wp_fail r rs m cs reason s :
  moving r rs m cs s → CreditState_IsTerminal cs = false → reason ≠ EmptyString →
  wp (fail reason) (next cs) s.
Proof.
  intros Hm Hcs Hr. eapply wp_bind, wp_get_rec; [apply Hm|].
  apply wp_bind, wp_modify, wp_ret.
  eapply (next_advance r rs (set_LastError m reason)); try done.
  - by apply moving_LastError.
  - destruct cs; simpl in *; try done; lia.
  - auto.
  - by right.
Qed.

(** Parking: the operation stays where it is. *)
Lemma next_park r rs m cs s :
  moving r rs m cs s → awaiting_state cs = true →
  snap_ok (snapshot_of (mem s)) →
  phase_ok (trace s) m (snapshot_of (mem s)) cs →
  synced r rs m (snapshot_of (mem s)) cs →
  next cs (mkTransition cs [parkOp]) s.
Proof.
  intros Hm Hcs Hsn Hph Hsy. pose proof Hm as [[] []]. split.
  - exists r, rs, m. split; [done|]. cbv zeta. cbn [NextState Outbox].
    rewrite apply_state_same by done. split_and!; try done.
    + split; try done; simpl; rewrite <- ?mv_state0; try done.
      intros ?; congruence.
    + right. destruct Hsy as [H1 H2]. split; [|done].
      intros Hc. simpl. rewrite <- mv_state0. by apply H1.
  - left. done.
Qed.

(** Polling once more: fail when the cap is exceeded, park otherwise. *)
Lemma wp_await_tail r rs m cs reason s :
  moving r rs m cs s → awaiting_state cs = true → reason ≠ EmptyString →
  phase_ok (trace s) m (snapshot_of (mem s)) cs →
  synced r rs m (snapshot_of (mem s)) cs →
  wp (bind* exhausted := awaitExhausted cfg in
      if exhausted : bool then fail reason else emit cs [parkOp]) (next cs) s.
Proof.
  intros Hm Hcs Hr Hph Hsy.
  assert (CreditState_IsTerminal cs = false) by (by destruct cs).
  apply wp_bind, wp_bind, wp_modify, wp_bind, wp_get, wp_ret. simpl.
  destruct (_ && _) eqn:E.
  - by eapply wp_fail; [by apply moving_awaitPolls|..].
  - eapply wp_ret, next_park; [by apply moving_awaitPolls|done|..].
    + split; simpl.
      * unfold snap_fits, uint32. simpl. apply Z.mod_pos_bound. lia.
      * intros Hmax. apply andb_false_iff in E as [E|E].
        { rewrite Z.gtb_ltb in E. zbool. lia. }
        { by zbool. }
    + by destruct cs.
    + done.
Qed.

(** Leaves a step towards another state; the state's promises remain. *)
Ltac advance Hm :=
  eapply wp_ret, next_advance;
    [exact Hm|simpl; lia|solve [auto|right; right; eauto]|simpl|].

Lemma wp_quoting r rs m s :
  live r rs m quotingState s → wp process_quoting (next quotingState) s.
Proof.
  intros Hl. pose proof (live_moving _ _ _ _ _ Hl eq_refl) as Hm.
  destruct Hl. eapply wp_bind, wp_get_rec; [done|]. destruct lv_phase0 as [Hk Hd].
  destruct (TopupSat m =? 0)%Z eqn:E; zbool; advance Hm; auto.
  - right. by split.
  - right. by split.
Qed.

Lemma wp_topupCreating r rs m s :
  live r rs m topupCreatingState s →
  wp (process_topupCreating handle) (next topupCreatingState) s.
Proof.
  intros Hl. eapply wp_bind, wp_accountKey; [done..|]. intros key s1 Hl1 _.
  apply wp_bind, wp_lift; [by eapply live_safe|]. intros k ->.
  eapply wp_bind, wp_get_rec; [apply Hl1|].
  eapply wp_bind, wp_call; [done|..].
  { split; [intros _; by eapply live_pending|].
    exact (ev_key _ _ _ _ (lv_evolves _ _ _ _ _ Hl1)). }
  intros res w Hl2. pose proof (live_moving _ _ _ _ _ Hl2 eq_refl) as Hm.
  destruct res as [res|e].
  - destruct (IsTerminalFailure _); [by eapply wp_fail|].
    destruct (bool_decide _) eqn:Hd; [by eapply wp_fail|]. zbool.
    apply wp_bind, wp_modify.
    destruct Hl2 as [? ? ? ? ? ? ? [Hk Hdest] ? ?].
    eapply wp_ret, (next_advance r rs (set_Server m (ccr_OperationID res)
      (PaymentHash m) (ccr_DestinationPubkey res) (Invoice m)));
      [|simpl; lia|auto|done|by left].
    destruct Hm as [[] []]. split; [by split|]. split; try done.
    + intros Hr. exfalso. apply Hr. destruct (decide (DestinationPubkey r = [])); [done|].
      rewrite <- ev_dest0 by done. done.
    + intros ?; congruence.
  - destruct (errors_Is _ _); [by eapply wp_fail|]. by eapply wp_throw, live_safe.
Qed.

(** The transfer was accepted. *)
Lemma wp_funded r rs m session existing d s :
  live r rs m topupFundingState s →
  Ev (SendOOR (DestinationPubkey m) (uint64 (TopupSat m)) (OpKey m) existing)
    (Some (Ok session)) d ∈ trace s →
  wp (funded m session) (next topupFundingState) s.
Proof.
  intros Hl Hin. pose proof (live_moving _ _ _ _ _ Hl eq_refl) as Hm.
  apply wp_bind, wp_modify. destruct Hl as [? ? ? ? ? ? ? [Hk Hdest] ? ?].
  eapply wp_ret, (next_advance r rs (set_OORSessionID m session));
    [|simpl; lia|auto| |by left].
  - destruct Hm as [[] []]. split; [by split|]. split; try done.
    intros ?; congruence.
  - simpl. split_and!; try done. by exists existing, d.
Qed.

Lemma funding_call r rs m existing s :
  live r rs m topupFundingState s →
  call_ok (trace s) r rs
    (SendOOR (DestinationPubkey m) (uint64 (TopupSat m)) (OpKey m) existing).
Proof.
  intros Hl. split; [intros _; by eapply live_pending|].
  destruct Hl as [? ? ? ? Hst ? ? [Hk Hdest] Hev [Hsy _]].
  destruct (Hsy eq_refl) as (Hs & _ & Hd & _). rewrite Hs, Hst.
  split_and!; [done|done|done|by rewrite (ev_topup _ _ _ _ Hev)|apply Hev].
Qed.

Lemma wp_topupFunding r rs m s :
  live r rs m topupFundingState s →
  wp (process_topupFunding handle) (next topupFundingState) s.
Proof.
  intros Hl. eapply wp_bind, wp_get_rec; [apply Hl|].
  eapply wp_bind, wp_call; [done|by eapply funding_call|].
  intros [session|rej] w Hl1; [eapply wp_funded; [done|by constructor]|].
  destruct (isFundingAdmissionRejected rej); [|by eapply wp_throw, live_safe].
  eapply wp_bind, wp_call; [done|by eapply funding_call|].
  intros [session|e] w2 Hl2; [eapply wp_funded; [done|by constructor]|].
  destruct (is_not_found e); [|by eapply wp_throw, live_safe].
  by eapply wp_fail; [by apply live_moving|..].
Qed.

Lemma wp_topupAwaiting r rs m s :
  live r rs m topupAwaitingCreditState s →
  wp (process_topupAwaitingCredit cfg handle) (next topupAwaitingCreditState) s.
Proof.
  intros Hl. eapply wp_bind, wp_listCredits; [done..|].
  intros [sn|e] s1 Hl1 _ Hev; [|by eapply wp_postpone].
  eapply wp_bind, wp_get_rec; [apply Hl1|].
  pose proof (live_moving _ _ _ _ _ Hl1 eq_refl) as Hm.
  cbv zeta. destruct (from_option _ _ _); [by eapply wp_fail|].
  destruct (bool_decide _) eqn:Hc; zbool.
  - destruct Hl1 as [? ? ? ? ? ? ? (Hk & Hd & _) ? [Hsy _]].
    destruct (Hsy eq_refl) as (_ & Hid & _).
    destruct (Hev sn eq_refl) as (acct & d & Hin).
    advance Hm.
    + split; [done|]. right. by exists acct, sn, d.
    + right. by split.
  - eapply wp_await_tail; try done; apply Hl1.
Qed.

Lemma wp_paying r rs m s :
  live r rs m payingState s → wp (process_paying handle) (next payingState) s.
Proof.
  intros Hl. eapply wp_bind, wp_get_rec; [apply Hl|].
  eapply wp_bind, wp_call; [done|..].
  { split; [intros _; by eapply live_pending|].
    destruct Hl as [? ? ? ? ? ? ? [Hk Htop] Hev [_ Hsy]]. destruct Hev.
    destruct ev_caps0 as [-> ->]. destruct (ev_invoice0) as [-> _]; [congruence|].
    split_and!; try done; [congruence|]. rewrite <- ev_topup0.
    destruct Htop as [|Hc]; [by left|].
    destruct (decide (TopupSat m = 0%Z)); [by left|]. right. by rewrite Hsy. }
  intros [u|e] w Hl1; pose proof (live_moving _ _ _ _ _ Hl1 eq_refl) as Hm.
  - apply wp_bind, wp_get. destruct Hl1 as [? ? ? ? ? ? ? [Hk _] ? ?].
    destruct (_ && _) eqn:E.
    + apply andb_true_iff in E as [Eo Eh]. zbool. advance Hm; [|by left].
      split_and!; try done. eexists u, _. by constructor.
    + advance Hm; [|by right; split]. rewrite Hk. split.
      * eexists u, _. by constructor.
      * intros Ho Hh. simpl in E, Ho. rewrite Ho in E. simpl in E. by zbool.
  - destruct (errors_Is _ _); [by eapply wp_fail|]. by eapply wp_throw, live_safe.
Qed.

Lemma wp_payAwaiting r rs m s :
  live r rs m payAwaitingSettlementState s →
  wp (process_payAwaitingSettlement cfg handle) (next payAwaitingSettlementState) s.
Proof.
  intros Hl. eapply wp_bind, wp_listCredits; [done..|].
  intros [sn|e] s1 Hl1 _ Hev; [|by eapply wp_postpone].
  eapply wp_bind, wp_get_rec; [apply Hl1|].
  pose proof (live_moving _ _ _ _ _ Hl1 eq_refl) as Hm.
  destruct Hl1 as [? ? ? ? ? ? Hsnap Hph ? Hsy].
  destruct (authorizedPayState _ _ _) as [[state found]|e] eqn:Hauth.
  - destruct (negb found && _); [by eapply wp_ret, next_park|].
    apply wp_bind, wp_modify.
    pose proof (moving_LastError _ _ _ _ _ EmptyString Hm) as Hm'.
    destruct (found && bool_decide _) eqn:Hdone.
    + apply andb_true_iff in Hdone as [-> Hdone]. zbool. subst state.
      destruct Hph as (Hk & _ & _ & Hst). destruct (Hev sn eq_refl) as (acct & d & Hin).
      advance Hm'; [|by right; split]. rewrite Hk. split; [done|].
      intros _ _. by exists acct, sn, d.
    + destruct (found && IsTerminalFailure state); [by eapply wp_fail|].
      by eapply wp_await_tail.
  - apply wp_bind, wp_modify. eapply wp_ret, next_park;
      [by apply moving_LastError|done..].
Qed.

Lemma wp_receiveCreating r rs m s :
  live r rs m receiveCreatingState s →
  wp (process_receiveCreating handle) (next receiveCreatingState) s.
Proof.
  intros Hl. eapply wp_bind, wp_accountKey; [done..|]. intros key s1 Hl1 _.
  apply wp_bind, wp_lift; [by eapply live_safe|]. intros k ->.
  eapply wp_bind, wp_get_rec; [apply Hl1|]. apply wp_bind, wp_get.
  eapply wp_bind, wp_call; [done|..].
  { split; [intros _; by eapply live_pending|].
    exact (ev_key _ _ _ _ (lv_evolves _ _ _ _ _ Hl1)). }
  intros [res|e] w Hl2; [|by eapply wp_throw, live_safe].
  pose proof (live_moving _ _ _ _ _ Hl2 eq_refl) as Hm.
  destruct (IsTerminalFailure _); [by eapply wp_fail|].
  destruct (bool_decide (ccr_Invoice _ = _)) eqn:Hi; [by eapply wp_fail|]. zbool.
  apply wp_bind, wp_modify. destruct Hl2 as [? ? ? ? ? ? ? Hk ? ?]. simpl in Hk.
  eapply wp_ret, (next_advance r rs (set_Server m (ccr_OperationID res)
    (if bool_decide (ccr_PaymentHash res = []) then PaymentHash m
     else ccr_PaymentHash res) (DestinationPubkey m) (ccr_Invoice res)));
    [|simpl; lia|auto|done|by left].
  destruct Hm as [[] []]. split; [by split|]. split; try done.
  - intros Hp. congruence.
  - intros ?; congruence.
Qed.

Lemma wp_watermark r rs m cs sn Q s :
  live r rs m cs s → CreditState_IsTerminal cs = false →
  (∀ res s', live r rs m cs s' → (∀ e, e ∈ trace s → e ∈ trace s') → Q res s') →
  wp (redeemWatermarkCleared cfg handle sn) Q s.
Proof.
  intros Hl Hcs HQ. destruct sn as [sn|]; [|by apply wp_ret, HQ].
  unfold redeemWatermarkCleared. destruct (negb _); [by apply wp_ret, HQ|].
  eapply wp_bind, wp_call; [done|by eapply live_call|]. intros em w Hl1.
  assert (∀ e, e ∈ trace s → e ∈ trace (log LoadEarmark (Some em) w s)) as Hin
    by (intros; by constructor).
  assert (∀ av, wp (if (av <? MinRedeemSat cfg)%Z then ret None
     else bind* floor := interact handle VTXOFloor in
          match floor with
          | Ok floor =>
              if (floor =? 0)%Z then ret None
              else if (av <? Z.max (MinRedeemSat cfg) floor)%Z then ret None
              else ret (Some av)
          | Err _ => ret None
          end) Q (log LoadEarmark (Some em) w s)) as Htail.
  { intros av. destruct (_ <? _)%Z; [by apply wp_ret, HQ|].
    eapply wp_bind, wp_call; [done|by eapply live_call|]. intros [floor|e] w2 Hl2.
    - destruct (_ =? _)%Z; [apply wp_ret, HQ; [done|]; intros; constructor; auto|].
      destruct (_ <? _)%Z; apply wp_ret, HQ; try done; intros; constructor; auto.
    - apply wp_ret, HQ; [done|]. intros; constructor; auto. }
  destruct em as [[earmarked|e]|]; [apply Htail|by apply wp_ret, HQ|apply Htail].
Qed.

Lemma wp_awaitingSettlement r rs m s :
  live r rs m awaitingSettlementState s →
  wp (process_awaitingSettlement cfg handle) (next awaitingSettlementState) s.
Proof.
  intros Hl. eapply wp_bind, wp_listCredits; [done..|].
  intros [sn|e] s1 Hl1 _ Hev; [|by eapply wp_postpone].
  eapply wp_bind, wp_get_rec; [apply Hl1|].
  pose proof (live_moving _ _ _ _ _ Hl1 eq_refl) as Hm.
  cbv zeta. destruct (from_option _ _ _); [by eapply wp_fail|].
  destruct (bool_decide _) eqn:Hc; zbool.
  - eapply wp_bind, wp_watermark; [done..|]. intros res s2 Hl2 Hin.
    pose proof (live_moving _ _ _ _ _ Hl2 eq_refl) as Hm2.
    destruct (Hev sn eq_refl) as (acct & d & Hin').
    destruct Hl2 as [? ? ? ? ? ? ? [Hk _] ? ?].
    eapply wp_ret, next_advance; [exact Hm2|simpl; lia|..].
    + destruct res; eauto.
    + simpl. rewrite Hk. exists acct, sn, d. auto.
    + right. by split.
  - eapply wp_ret, next_park; try done; apply Hl1.
Qed.

Lemma wp_redeemReserving r rs m s :
  live r rs m redeemReservingState s →
  wp (process_redeemReserving handle) (next redeemReservingState) s.
Proof.
  intros Hl. pose proof (lv_phase _ _ _ _ _ Hl) as (Hk & Hd & Hpk).
  eapply wp_bind, wp_get_rec; [apply Hl|]. apply wp_bind, wp_get.
  rewrite (bool_decide_eq_true_2 _ Hd). cbn [negb andb].
  eapply wp_bind, wp_call; [done|by eapply live_call|].
  intros [[pub pk]|e] w Hl1; [|by eapply wp_throw, live_safe].
  pose proof (live_moving _ _ _ _ _ Hl1 eq_refl) as Hm.
  destruct (bool_decide (pub = []) || _) eqn:He; [by eapply wp_fail|]. zbool.
  apply wp_bind, wp_modify.
  eapply wp_ret, (next_advance r rs (set_Server m (ServerOpID m) (PaymentHash m)
    pub (Invoice m))); [|simpl; lia|auto|done|by left].
  destruct Hm as [[] []]. split; [by split|]. split; try done.
  - intros Hr. exfalso. by rewrite <- ev_dest0 in Hr.
  - intros Hr. exfalso. by rewrite <- ev_script0 in Hr.
  - intros ?; congruence.
Qed.

Lemma wp_redeemSubmitting r rs m s :
  live r rs m redeemSubmittingState s →
  wp (process_redeemSubmitting handle) (next redeemSubmittingState) s.
Proof.
  intros Hl. eapply wp_bind, wp_accountKey; [done..|]. intros key s1 Hl1 _.
  apply wp_bind, wp_lift; [by eapply live_safe|]. intros k ->.
  eapply wp_bind, wp_get_rec; [apply Hl1|].
  eapply wp_bind, wp_call; [done|..].
  { split; [intros _; by eapply live_pending|].
    destruct Hl1 as [? ? ? ? Hst ? ? (Hk & Hd & Hpk) Hev [Hsy _]].
    destruct (Hsy eq_refl) as (Hs & _ & Hdest & Ham & Hscr).
    rewrite Hs, Hst. split_and!; try done; try congruence. apply Hev. }
  intros [res|e] w Hl2.
  - pose proof (live_moving _ _ _ _ _ Hl2 eq_refl) as Hm.
    destruct (IsTerminalFailure _); [by eapply wp_fail|].
    apply wp_bind, wp_modify. destruct Hl2 as [? ? ? ? ? ? ? (Hk & Hd & Hpk) ? ?].
    eapply wp_ret, (next_advance r rs (set_Server m (rr_OperationID res)
      (PaymentHash m) (DestinationPubkey m) (Invoice m)));
      [|simpl; lia|auto| |by left].
    + destruct Hm as [[] []]. split; [by split|]. split; try done.
      intros ?; congruence.
    + simpl. split_and!; try done. eexists _, _, res, _. split; [by constructor|done].
  - destruct (errors_Is _ _); [|by eapply wp_throw, live_safe].
    by eapply wp_fail; [by apply live_moving|..].
Qed.

Lemma wp_awaitingOOR r rs m s :
  live r rs m awaitingOORState s →
  wp (process_awaitingOOR cfg handle) (next awaitingOORState) s.
Proof.
  intros Hl. eapply wp_bind, wp_listCredits; [done..|].
  intros [sn|e] s1 Hl1 _ Hev; [|by eapply wp_postpone].
  eapply wp_bind, wp_get_rec; [apply Hl1|].
  cbv zeta. destruct (from_option _ _ _);
    [by eapply wp_fail; [by apply live_moving|..]|].
  apply wp_bind, wp_get. eapply wp_bind, wp_call; [done|..].
  { split; [intros _; by eapply live_pending|].
    destruct Hl1 as [? ? ? ? Hst ? ? _ ? [Hsy _]].
    destruct (Hsy eq_refl) as (Hs & _ & _ & _ & Hscr). by rewrite Hs, Hst, Hscr. }
  intros [[found amount]|e] w Hl2; [|by eapply wp_throw, live_safe].
  pose proof (live_moving _ _ _ _ _ Hl2 eq_refl) as Hm.
  destruct (found && _) eqn:Hf.
  - apply andb_true_iff in Hf as [-> Hpos]. rewrite Z.gtb_ltb in Hpos. zbool.
    pose proof (lv_phase _ _ _ _ _ Hl2) as (Hk & _).
    destruct (bool_decide (amount = AmountSat m)) eqn:Ha; zbool.
    + subst amount. apply wp_bind, wp_ret. advance Hm; [|by right; split].
      rewrite Hk. eexists. split; [by constructor|done].
    + apply wp_bind, wp_modify.
      eapply wp_ret, (next_enter r rs (set_AmountSat m amount));
        [|simpl; lia|auto|..|by right; split].
      * destruct Hm as [[] _]. by split.
      * destruct Hm as [[] []]. split; try done.
        { apply Nat.le_0_l. }
        { intros ?; congruence. }
      * simpl. rewrite Hk. eexists. split; [by constructor|done].
  - eapply wp_await_tail; try done; apply Hl2.
Qed.

Lemma wp_process r rs m cs s :
  live r rs m cs s → CreditState_IsTerminal cs = false →
  wp (Credit_ProcessEvent cfg handle cs) (next cs) s.
Proof.
  intros Hl Hcs. destruct cs; try discriminate Hcs.
  - by eapply wp_quoting.
  - by eapply wp_topupCreating.
  - by eapply wp_topupFunding.
  - by eapply wp_topupAwaiting.
  - by eapply wp_paying.
  - by eapply wp_payAwaiting.
  - by eapply wp_receiveCreating.
  - by eapply wp_awaitingSettlement.
  - by eapply wp_redeemReserving.
  - by eapply wp_redeemSubmitting.
  - by eapply wp_awaitingOOR.
Qed.

(** ** Writes *)

(** Memory that may be written: everything of [live] but agreement with the row. *)
Record ahead (r : CreditOperationRecord) (rs : opSnapshot)
    (m : CreditOperationRecord) (cs : CreditState) (s : Sys W) : Prop := {
  ah_durable : durable r rs s;
  ah_rec : rec (mem s) = Some m;
  ah_cur : curState (mem s) = Some cs;
  ah_corrupt : corruptState (mem s) = false;
  ah_state : rec_State m = CreditState_String cs;
  ah_status : rec_Status m = State_Status (rec_State m);
  ah_snap : snap_ok (snapshot_of (mem s));
  ah_phase : phase_ok (trace s) m (snapshot_of (mem s)) cs;
  ah_evolves : evolves r rs m (snapshot_of (mem s))
}.

Lemma live_ahead r rs m cs s : live r rs m cs s → ahead r rs m cs s.
Proof. by intros []. Qed.
Lemma ahead_live r rs m cs s :
  ahead r rs m cs s → synced r rs m (snapshot_of (mem s)) cs → live r rs m cs s.
Proof. by intros []. Qed.

(** Writing the row brings it in step with the memory. *)
Lemma write_live r rs m cs s raw c a w :
  ahead r rs m cs s → encode (snapshot_of (mem s)) = Ok raw →
  call_ok (trace s) r rs c →
  live (set_Snapshot m raw snapshotVersion) (snapshot_of (mem s)) m cs
    (set_row (set_Snapshot m raw snapshotVersion) (log c a w s)).
Proof.
  intros [] Henc Hc. split; try done.
  - assert (evolves r rs (set_Snapshot m raw snapshotVersion) (snapshot_of (mem s)))
      by (by apply (evolves_core_r _ _ m)).
    destruct (durable_log r rs s c a w) as (_ & _ & ? & ?); [done..|].
    split; [done|]. split; [|split].
    + split_and!; try done. exists cs. split_and!; [done..|].
      apply (phase_core _ m); [done|]. by apply phase_mono.
    + by apply (trace_ok_mono r rs).
    + by eapply evolves_trans.
  - by apply phase_mono.
Qed.

Lemma ahead_safe r rs m cs s : ahead r rs m cs s → safe s.
Proof. intros []. by exists r, rs. Qed.

Lemma wp_checkpoint r rs m cs Q s :
  ahead r rs m cs s → State_IsTerminal (rec_State r) = false →
  (∀ r' rs' s', live r' rs' m cs s' → armRetry (mem s') = armRetry (mem s) →
     Q tt s') →
  wp (checkpoint handle) Q s.
Proof.
  intros Ha Hp HQ. eapply wp_bind, wp_get_rec; [apply Ha|]. apply wp_bind, wp_get.
  apply wp_bind, wp_lift; [by eapply ahead_safe|].
  intros rw Hrw. unfold persisted in Hrw. inv_ok.
  assert (call_ok (trace s) r rs (Stage (set_Snapshot m a snapshotVersion)))
    as Hc by (by split).
  unfold wp, write_stage.
  destruct (handle _ (world s)) as [[[u|e]|[]] w].
  - eapply HQ; [by eapply write_live|done].
  - exists r, rs. by apply durable_log, Hc; apply Ha.
  - eapply live_safe. by eapply write_live.
  - exists r, rs. by apply durable_log, Hc; apply Ha.
Qed.

(** The final write of a turn leaves row and memory in agreement. *)
Definition committed (s : Sys W) : Prop :=
  ∃ r rs m cs, live r rs m cs s ∧ core r = core m ∧ rs = snapshot_of (mem s).

Lemma wp_commitAck r rs m cs Q s :
  ahead r rs m cs s →
  (∀ s', committed s' → rec (mem s') = Some m →
     curState (mem s') = Some cs → armRetry (mem s') = armRetry (mem s) → Q tt s') →
  wp (commitAck handle) Q s.
Proof.
  intros Ha HQ. eapply wp_bind, wp_get_rec; [apply Ha|]. apply wp_bind, wp_get.
  apply wp_bind, wp_lift; [by eapply ahead_safe|].
  intros rw Hrw. unfold persisted in Hrw. inv_ok.
  assert (call_ok (trace s) r rs (Commit (set_Snapshot m a snapshotVersion)))
    as Hc by (by split).
  apply wp_bind. unfold wp, write_commit.
  destruct (handle _ (world s)) as [[[u|e]|[]] w].
  - simpl. pose proof (write_live r rs m cs s a (Commit _) (Some (Ok u)) w Ha E Hc) as Hl.
    apply HQ; [|apply Ha|apply Ha|done].
    exists (set_Snapshot m a snapshotVersion), (snapshot_of (mem s)), m, cs.
    split; [by destruct Hl|by split].
  - exists r, rs. by apply durable_log, Hc; apply Ha.
  - eapply live_safe. by eapply write_live.
  - exists r, rs. by apply durable_log, Hc; apply Ha.
Qed.

(** ** The driving loop *)

Lemma apply_state_fields b m nx :
  rec (apply_state b m nx) = Some (entered m nx) ∧
  corruptState (apply_state b m nx) = corruptState b.
Proof. unfold apply_state. by destruct (bool_decide _). Qed.

(** A transition applied to the memory. *)
Lemma next_ahead cs t s :
  next cs t s → ∃ r rs m,
    rec (mem s) = Some m ∧ State_IsTerminal (rec_State r) = false ∧
    let s' := mkSys (set_curState (apply_state (mem s) m (NextState t))
                       (NextState t)
                       (corruptState (apply_state (mem s) m (NextState t))))
                (row s) (world s) (trace s) in
    ahead r rs (entered m (NextState t)) (NextState t) s' ∧
    (Outbox t = [stageRecord] ∨
     live r rs (entered m (NextState t)) (NextState t) s').
Proof.
  intros [(r & rs & m & [] & Hsn & Hph & Hev & Hsy) _]. exists r, rs, m.
  split; [done|]. split; [done|].
  destruct (apply_state_fields (mem s) m (NextState t)) as [Hrec Hcor].
  assert (ahead r rs (entered m (NextState t)) (NextState t)
    (mkSys (set_curState (apply_state (mem s) m (NextState t)) (NextState t)
              (corruptState (apply_state (mem s) m (NextState t))))
       (row s) (world s) (trace s))) as Ha.
  { split; try done. exact (eq_trans Hcor mv_corrupt0). }
  split; [done|]. destruct Hsy as [|Hsy]; [by left|]. right. by apply ahead_live.
Qed.

Definition driven (cs : CreditState) (parked : bool) (s : Sys W) : Prop :=
  ∃ r rs m cs', live r rs m cs' s ∧
    if parked then awaiting_state cs' = true ∧ armRetry (mem s) = true
    else rank cs' < rank cs.

Lemma live_armRetry r rs m cs s x :
  live r rs m cs s →
  live r rs m cs (mkSys (set_armRetry (mem s) x) (row s) (world s) (trace s)).
Proof. intros []. by split. Qed.
Lemma live_pendingRedeem r rs m cs s x :
  live r rs m cs s →
  live r rs m cs (mkSys (set_pendingRedeem (mem s) x) (row s) (world s) (trace s)).
Proof. intros []. by split. Qed.

Lemma wp_drive r rs m cs s :
  live r rs m cs s → CreditState_IsTerminal cs = false →
  wp (drive_step cfg handle cs) (driven cs) s.
Proof.
  intros Hl Hcs. eapply wp_bind, wp_mono; [by eapply wp_process|].
  intros t s1 Hn. destruct (next_ahead _ _ _ Hn) as (r1 & rs1 & m1 & Hrec & Hp & Ha & Hlv).
  destruct Hn as [_ Hout].
  eapply wp_bind, wp_bind, wp_get_rec; [exact Hrec|]. apply wp_modify.
  apply wp_bind, wp_modify. cbn [mem row world trace] in *.
  apply wp_bind. destruct Hout as [(Ho & Hnx & Haw)|[Hrank Ho]].
  - rewrite Ho in *. destruct Hlv as [|Hlv]; [done|].
    apply wp_ret, wp_bind, wp_modify, wp_ret.
    eexists r1, rs1, _, _. split; [by apply live_armRetry|]. by rewrite Hnx.
  - destruct Ho as [[Ho Hnt]|[Ho|[a Ho]]]; rewrite Ho in *.
    + eapply wp_bind, wp_checkpoint; [done..|]. intros r2 rs2 s2 Hl2 _.
      apply wp_ret, wp_ret. by eexists r2, rs2, _, _.
    + destruct Hlv as [|Hlv]; [done|]. apply wp_ret, wp_ret.
      by eexists r1, rs1, _, _.
    + destruct Hlv as [|Hlv]; [done|]. apply wp_bind, wp_modify, wp_ret, wp_ret.
      eexists r1, rs1, _, _. split; [by apply live_pendingRedeem|done].
Qed.

(** The loop ends: parked in an awaiting state with a poll to arm, or in a
    terminal state. *)
Definition settled (s : Sys W) : Prop :=
  ∃ r rs m cs, live r rs m cs s ∧
    (CreditState_IsTerminal cs = true ∨
     awaiting_state cs = true ∧ armRetry (mem s) = true).

Lemma wp_run_loop fuel r rs m cs s :
  live r rs m cs s → rank cs < fuel →
  wp (run_loop cfg handle fuel) (λ _, settled) s.
Proof.
  revert r rs m cs s. induction fuel as [|fuel IH]; intros r rs m cs s Hl Hf; [lia|].
  apply wp_bind, wp_get. rewrite (lv_cur _ _ _ _ _ Hl).
  destruct (CreditState_IsTerminal cs) eqn:Ht.
  - apply wp_ret. exists r, rs, m, cs. auto.
  - eapply wp_bind, wp_mono; [by eapply wp_drive|].
    intros [] s1 (r1 & rs1 & m1 & cs1 & Hl1 & Hd).
    + apply wp_ret. exists r1, rs1, m1, cs1. auto.
    + eapply IH; [done|]. lia.
Qed.

Lemma wp_runFSM r rs m cs s :
  live r rs m cs s → wp (runFSM cfg handle) (λ _, settled) s.
Proof. intros Hl. eapply wp_run_loop; [done|]. destruct cs; simpl; lia. Qed.

(** ** Turns and restarts *)

Lemma restore_call t r rs id : call_ok t r rs (GetOperation id).
Proof. by split. Qed.

(** Restoring rebuilds a memory in step with the row. *)
Lemma wp_restore Q s :
  safe s →
  (∀ r rs cs s', live r rs r cs s' → rs = snapshot_of (mem s') →
     commitFailed (mem s') = commitFailed (mem s) → Q tt s') →
  wp (restore cfg handle) Q s.
Proof.
  intros (r & rs & Hd) HQ.
  assert (∀ a w, safe (log (GetOperation (cfg_OpID cfg)) a w s)) as Hsafe.
  { intros a w. exists r, rs. by apply durable_log, restore_call. }
  apply wp_bind, wp_bind, wp_interact; [|done]. intros [[]|e] w.
  - unfold wp at 1. simpl. pose proof Hd as (Hr & Hok & _). rewrite Hr.
    apply wp_bind, wp_lift; [done|]. intros sn Hsn.
    rewrite (row_ok_decode _ _ _ Hok) in Hsn. inv_ok.
    pose proof Hok as (Hsnap & _ & _ & cs & Hst & Hstat & Hph).
    rewrite Hst, decode_String. apply wp_modify. apply (HQ r sn cs); [|by destruct sn|done].
    assert (snapshot_of (mkBehavior (Some r) (RedeemPkScript sn) (Memo sn)
      (CreditOnly sn) (AwaitPolls sn) [] false false false None false None) = sn)
      as Hsn by (by destruct sn).
    unfold snapshot_of in Hsn. simpl in Hsn.
    split; try done; unfold snapshot_of; simpl; rewrite ?Hsn; try done.
    + exact (durable_log r sn s (GetOperation (cfg_OpID cfg)) (Some (Ok tt)) w Hd
               (restore_call _ _ _ _)).
    + by apply phase_mono.
  - apply wp_ret. by apply wp_throw.
Qed.

Lemma restore_throw s e s' :
  restore cfg handle s = (Throw e, s') → mem s' = mem s.
Proof.
  unfold restore, read_operation, bind, interact.
  destruct (handle _ _) as [[[[]|text]|[]] w]; simpl; try done.
  - destruct (row s) as [r|]; simpl; [|done].
    destruct (decodeOpSnapshot _) as [sn|err]; simpl; [|by intros [= _ <-]].
    by destruct (decodeCreditState _).
  - by intros [= _ <-].
Qed.

(** One resume of a live operation. *)
Lemma wp_dispatch msg r rs m cs s :
  live r rs m cs s → wp (dispatch cfg handle msg) (λ _, settled) s.
Proof.
  intros Hl. apply wp_bind, wp_modify.
  assert (live r rs m cs (mkSys (set_pendingRedeem (set_armRetry (mem s) false) None)
    (row s) (world s) (trace s))) as Hl'
    by (by apply (live_pendingRedeem r rs m cs
          (mkSys (set_armRetry (mem s) false) (row s) (world s) (trace s))),
          live_armRetry).
  destruct msg; [by eapply wp_throw, live_safe| |by eapply wp_throw, live_safe].
  apply wp_bind, wp_get. rewrite (lv_rec _ _ _ _ _ Hl').
  apply wp_bind. rewrite (lv_cur _ _ _ _ _ Hl'). apply wp_ret, wp_bind, wp_get.
  rewrite (lv_corrupt _ _ _ _ _ Hl'), (lv_cur _ _ _ _ _ Hl').
  destruct (CreditState_IsTerminal cs) eqn:Ht; simpl; rewrite Ht.
  - apply wp_ret. exists r, rs, m, cs. auto.
  - by eapply wp_runFSM.
Qed.

Lemma wp_or_commit_failed {A} (t : M W A) Q s :
  wp t Q s → wp (or_commit_failed t) Q s.
Proof.
  unfold wp, or_commit_failed. destruct (t s) as [[a|e| |] s']; try done.
Qed.

(** Between turns: in agreement with the row, and parked or finished. *)
Definition idle (s : Sys W) : Prop :=
  ∃ r rs m cs, live r rs m cs s ∧ core r = core m ∧ rs = snapshot_of (mem s) ∧
    (CreditState_IsTerminal cs = true ∨ awaiting_state cs = true).

Lemma idle_log s c a w :
  drives c = false → plain c → idle s → idle (log c a w s).
Proof.
  intros Hc Hm (r & rs & m & cs & Hl & Hi). exists r, rs, m, cs. split; [|done].
  apply live_log; [done|]. split; [congruence|by destruct c].
Qed.

Lemma idle_safe s : idle s → safe s.
Proof. intros (r & rs & m & cs & Hl & _). by eapply live_safe. Qed.

Lemma wp_tell c s :
  drives c = false → plain c → idle s → wp (run* interact handle c in ret tt) (λ _, idle) s.
Proof.
  intros Hc Hm Hi. apply wp_bind, wp_interact.
  - intros a w. apply wp_ret. by apply idle_log.
  - intros w. by apply idle_safe, idle_log.
Qed.

Lemma wp_afterCommit s : idle s → wp (afterCommit cfg handle) (λ _, idle) s.
Proof.
  intros Hi. apply wp_bind, wp_get.
  apply wp_bind, (wp_mono _ (λ _, idle)).
  - destruct (pendingRedeem _) as [a|]; [|by apply wp_ret].
    apply wp_bind, (wp_mono _ (λ _, idle)).
    + destruct (HasRegistry cfg); [by apply wp_tell|by apply wp_ret].
    + intros _ s1 (r & rs & m & cs & Hl & Hr). apply wp_modify.
      exists r, rs, m, cs. split; [by apply live_pendingRedeem|done].
  - intros _ s1 Hi1. apply wp_bind, wp_get. destruct (terminalCommitted _).
    + destruct (HasRegistry cfg); [by apply wp_tell|by apply wp_ret].
    + destruct (armRetry _); [|by apply wp_ret].
      destruct (HasTimeoutActor cfg); [by apply wp_tell|by apply wp_ret].
Qed.

(** A process between turns, as the next delivery finds it. *)
Definition tracked (s : Sys W) : Prop :=
  safe s ∧ (commitFailed (mem s) = true ∨ ∃ r rs m cs, live r rs m cs s).

(** A turn that returns has committed its progress. *)
Lemma wp_turn msg s :
  msg ≠ RestartMessage → tracked s → wp (Receive cfg handle msg) (λ _, idle) s.
Proof.
  intros Hmsg [Hsafe Htr].
  assert (∀ s', (∃ r rs m cs, live r rs m cs s') →
    wp (run* or_commit_failed (dispatch cfg handle msg) in
        bind* b := get in
        match rec b with
        | Some _ => run* or_commit_failed (commitAck handle) in afterCommit cfg handle
        | None => ret tt
        end) (λ _, idle) s') as Hrest.
  { intros s' (r & rs & m & cs & Hl).
    eapply wp_bind, wp_or_commit_failed, wp_mono; [by eapply wp_dispatch|].
    intros [] s1 (r1 & rs1 & m1 & cs1 & Hl1 & Hset). apply wp_bind, wp_get.
    rewrite (lv_rec _ _ _ _ _ Hl1).
    eapply wp_bind, wp_or_commit_failed, wp_commitAck; [by apply live_ahead|].
    intros s2 (r2 & rs2 & m2 & cs2 & Hl2 & Hc & Hs) _ Hcur _.
    apply wp_afterCommit. exists r2, rs2, m2, cs2. split_and!; try done.
    rewrite (lv_cur _ _ _ _ _ Hl2) in Hcur. injection Hcur as ->. tauto. }
  assert (Receive cfg handle msg =
    bind* b := get in
    run* (if commitFailed b
          then run* restore cfg handle in modify (λ b, set_commitFailed b false)
          else ret tt) in
    run* or_commit_failed (dispatch cfg handle msg) in
    bind* b := get in
    match rec b with
    | Some _ => run* or_commit_failed (commitAck handle) in afterCommit cfg handle
    | None => ret tt
    end) as -> by (by destruct msg).
  apply wp_bind, wp_get, wp_bind. destruct (commitFailed (mem s)) eqn:Hcf.
  - apply wp_bind, wp_restore; [done|]. intros r rs cs s' Hl _ _. apply wp_modify, Hrest.
    exists r, rs, r, cs. by destruct Hl.
  - apply wp_ret, Hrest. by destruct Htr.
Qed.

Lemma bind_throw {A B} (m : M W A) (k : A → M W B) s e s' :
  bind m k s = (Throw e, s') →
  m s = (Throw e, s') ∨ ∃ a s1, m s = (Ret a, s1) ∧ k a s1 = (Throw e, s').
Proof.
  unfold bind. destruct (m s) as [[a|e1| |] s1]; try done; [by eauto|].
  intros [= -> ->]. by left.
Qed.

Lemma or_commit_failed_throw {A} (m : M W A) s e s' :
  or_commit_failed m s = (Throw e, s') → commitFailed (mem s') = true.
Proof.
  unfold or_commit_failed. destruct (m s) as [[a|e1| |] s1]; try done.
  by intros [= _ <-].
Qed.

Lemma interact_throw c s e s' : interact handle c s ≠ (Throw e, s').
Proof. unfold interact. by destruct (handle _ _) as [[] w]. Qed.

Lemma afterCommit_throw s e s' : afterCommit cfg handle s ≠ (Throw e, s').
Proof.
  unfold afterCommit, bind, get, interact, ret, modify.
  destruct (pendingRedeem _), (HasRegistry cfg), (HasTimeoutActor cfg);
    repeat first
      [ done
      | match goal with
        | |- context [handle ?c ?w] => destruct (handle c w) as [[] ?]
        | |- context [terminalCommitted ?b] => destruct (terminalCommitted b)
        | |- context [armRetry ?b] => destruct (armRetry b)
        end; simpl ].
Qed.

(** A turn that fails marks its memory for reloading. *)
Lemma Receive_throw msg s e s' :
  Receive cfg handle msg s = (Throw e, s') → commitFailed (mem s') = true.
Proof.
  destruct msg; [done|..]; unfold Receive; intros HR;
    apply bind_throw in HR as [?|(b & s1 & [= <- <-] & HR)]; [done| |done| ];
    (apply bind_throw in HR as [HR|([] & s2 & _ & HR)];
     [destruct (commitFailed (mem s)) eqn:E; [|done];
      apply bind_throw in HR as [HR|(? & ? & _ & HR)]; [|done];
      apply restore_throw in HR; by rewrite HR
     |]);
    (apply bind_throw in HR as [HR|([] & s3 & _ & HR)];
     [by eapply or_commit_failed_throw|]);
    (apply bind_throw in HR as [?|(b & s4 & [= <- <-] & HR)]; [done|]);
    (destruct (rec (mem s3)); [|done]);
    (apply bind_throw in HR as [HR|([] & s5 & _ & HR)];
     [by eapply or_commit_failed_throw|]);
    exfalso; by eapply afterCommit_throw.
Qed.

(** ** Nodes *)

Definition node_ok (n : Node W) : Prop :=
  safe (node_sys n new_behavior) ∧
  ∀ b, proc n = Some b → tracked (node_sys n b).

Lemma node_ok_boot n : node_ok n → node_ok (boot cfg handle n).
Proof.
  intros [Hs _]. unfold boot.
  assert (wp (restore cfg handle) (λ _ s, ∃ r rs m cs, live r rs m cs s)
    (node_sys n new_behavior)) as Hw by (apply wp_restore; eauto 10).
  unfold wp in Hw. destruct (restore _ _ _) as [[[]|e| |] s']; try done.
  destruct Hw as (r & rs & m & cs & Hl). split.
  - exact (live_safe _ _ _ _ _ Hl).
  - intros b [= <-]. split; [exact (live_safe _ _ _ _ _ Hl)|]. right.
    exists r, rs, m, cs. by destruct s'.
Qed.

Lemma node_ok_deliver msg b n :
  proc n = Some b → node_ok n → node_ok (deliver cfg handle msg b n).
Proof.
  intros Hb [Hs Hp]. specialize (Hp b Hb). unfold deliver.
  destruct (decide (msg = RestartMessage)) as [->|Hmsg].
  { simpl. split; [by destruct n|]. intros b' [= <-]. by destruct n. }
  pose proof (wp_turn msg _ Hmsg Hp) as Hw. unfold wp in Hw.
  destruct (Receive _ _ _ _) as [[[]|e| |] s'] eqn:HR; try done.
  - split; [by apply idle_safe in Hw|]. intros b' [= <-].
    split; [by apply idle_safe in Hw|]. right.
    destruct Hw as (r & rs & m & cs & Hl & _). exists r, rs, m, cs. by destruct s'.
  - split; [done|]. intros b' [= <-]. split; [done|]. left.
    exact (Receive_throw _ _ _ _ HR).
Qed.

Lemma node_ok_step n n' :
  node_step cfg handle n n' → node_ok n → node_ok n'.
Proof.
  intros [n0 _|msg b n0 Hb|n0|w n0] Hok.
  - by apply node_ok_boot.
  - by apply node_ok_deliver.
  - by destruct Hok.
  - destruct Hok as [Hs Hp]. split; [done|]. intros b Hb.
    destruct (Hp b Hb) as [_ [Hc|(r & rs & m & cs & [])]]; split; try done.
    + by left.
    + right. exists r, rs, m, cs. by split.
Qed.
End invariant.
