(* ===== verification/CreditSafety.v ===== *)
(** * Credit operations: theorems

    What a credit operation guarantees over its whole life, across crashes,
    failed writes, lost answers and restarts: side effects are unique and
    checkpointed, terminal rows are explained by the history and final, turns
    end, waiting is bounded. *)

From Stdlib Require Import Strings.Byte Strings.String.
From S2P Require Import Prelude CreditFsm CreditOps.

(** ** Histories *)

Section history.
Context `{!TLV}.

(** Two calls of one history: the rows they saw evolve one into the other. *)
Lemma trace_pair r sn t c1 a1 d1 c2 a2 d2 :
  trace_ok r sn t → Ev c1 a1 d1 ∈ t → Ev c2 a2 d2 ∈ t →
  ∃ t1 r1 s1 t2 r2 s2,
    d1 = Some r1 ∧ d2 = Some r2 ∧ call_ok t1 r1 s1 c1 ∧ call_ok t2 r2 s2 c2 ∧
    (evolves r1 s1 r2 s2 ∨ evolves r2 s2 r1 s1).
Proof.
  assert (∀ t r sn c a d, trace_ok r sn t → Ev c a d ∈ t →
    ∃ t0 r0 s0, d = Some r0 ∧ call_ok t0 r0 s0 c ∧ evolves r0 s0 r sn) as Hone.
  { clear. induction t as [|[c0 a0 d0] t IH]; intros r sn c a d Ht Hin;
      [by apply not_elem_of_nil in Hin|].
    simpl in Ht. destruct Ht as (r0 & s0 & Hd & _ & Hev & Hc & Ht).
    apply elem_of_cons in Hin as [Heq|Hin].
    - assert (c = c0 ∧ d = d0) as [-> ->]
        by (split; [exact (f_equal (λ e, match e with Ev c _ _ => c end) Heq)
                   |exact (f_equal (λ e, match e with Ev _ _ d => d end) Heq)]).
      eauto 10.
    - destruct (IH _ _ _ _ _ Ht Hin) as (t1 & r1 & s1 & ? & ? & ?).
      exists t1, r1, s1. split_and!; eauto using evolves_trans. }
  revert r sn. induction t as [|[c0 a0 d0] t IH]; intros r sn Ht H1 H2;
    [by apply not_elem_of_nil in H1|].
  pose proof Ht as (r0 & s0 & Hd & _ & Hev & Hc & Ht').
  apply elem_of_cons in H1 as [E1|H1]; apply elem_of_cons in H2 as [E2|H2];
    repeat match goal with
    | E : Ev ?c _ ?d = Ev c0 _ d0 |- _ =>
        let Ec := fresh in let Ed := fresh in
        pose proof (f_equal (λ e, match e with Ev c _ _ => c end) E) as Ec;
        pose proof (f_equal (λ e, match e with Ev _ _ d => d end) E) as Ed;
        simpl in Ec, Ed; clear E; subst c; subst d
    end.
  - exists t, r0, s0, t, r0, s0. split_and!; try done. left. apply evolves_refl.
  - destruct (Hone _ _ _ _ _ _ Ht' H2) as (t2 & r2 & s2 & ? & ? & ?).
    exists t, r0, s0, t2, r2, s2. auto 10.
  - destruct (Hone _ _ _ _ _ _ Ht' H1) as (t1 & r1 & s1 & ? & ? & ?).
    exists t1, r1, s1, t, r0, s0. auto 10.
  - by eapply IH.
Qed.

Lemma trace_event r sn t1 c a d t2 :
  trace_ok r sn (t1 ++ Ev c a d :: t2) →
  ∃ r0 s0, d = Some r0 ∧ decodeOpSnapshot (SnapshotData r0) = Ok s0 ∧
    call_ok t2 r0 s0 c.
Proof.
  revert r sn. induction t1 as [|[c0 a0 d0] t1 IH]; intros r sn.
  - intros (r0 & s0 & ? & ? & _ & ? & _). eauto.
  - intros (r0 & s0 & _ & _ & _ & _ & Ht). by eapply IH.
Qed.
End history.

(** ** Reachable nodes *)

Section reachable.
Context {W : Type} `{!TLV, !TLVLaws} (cfg : OpActorConfig)
  (handle : ∀ c : Call, W → reply (Resp c) * W).

(** A node of an admitted operation, after any number of starts, deliveries,
    kills and changes of the world. *)
Definition credit_reachable (n : Node W) : Prop :=
  ∃ opID msg answer r w,
    admit_row opID msg answer = Ok r ∧
    rtc (node_step cfg handle) (mkNode None (Some r) w []) n.

#[local] Arguments encode : simpl never.

Lemma admit_row_ok opID msg answer r :
  admit_row opID msg answer = Ok r → ∃ sn, row_ok cfg [] r sn.
Proof.
  unfold admit_row. intros Ha.
  destruct msg as [key inv hash amt topup cap fee only|key amt memo|key amt|];
    [| | |done]; simpl in Ha.
  - inv_ok. eexists. split; [apply snap_ok_zero|]. split; [done|]. split; [done|].
    by exists quotingState.
  - destruct answer as [res|e]; [|done]. simpl in Ha.
    destruct (IsTerminalFailure _); [done|].
    destruct (bool_decide (ccr_Invoice res = _)) eqn:Hi; [done|]. zbool. inv_ok.
    eexists. split; [apply snap_ok_zero|]. split; [done|]. split; [done|].
    by exists awaitingSettlementState.
  - inv_ok. exists (mkSnapshot [] EmptyString false 0).
    split; [apply snap_ok_zero|]. split; [done|]. split; [done|].
    by exists redeemReservingState.
Qed.

Lemma steps_ok o os n n' :
  rtc (node_step cfg handle) n n' → node_ok cfg o os n → node_ok cfg o os n'.
Proof. induction 1; eauto using node_ok_step. Qed.

Lemma reachable_node_ok n :
  credit_reachable n → ∃ o os, node_ok cfg o os n.
Proof.
  intros (id & msg & answer & r & w & Ha & Hsteps).
  destruct (admit_row_ok _ _ _ _ Ha) as [sn Hrow]. exists r, sn.
  eapply steps_ok; [done|]. split; [|done]. exists r, sn. split; [done|].
  split; [done|]. split; [done|]. apply evolves_refl.
Qed.

(** The current row may serve as the origin. *)
Lemma durable_unique o os r sn r' sn' (s : Sys W) :
  durable cfg o os r sn s → row s = Some r' →
  decodeOpSnapshot (SnapshotData r') = Ok sn' → r' = r ∧ sn' = sn.
Proof.
  intros (Hr & Hok & _) Hr' Hd. rewrite Hr in Hr'. injection Hr' as <-.
  rewrite (row_ok_decode _ _ _ _ Hok) in Hd. by injection Hd.
Qed.

Lemma node_ok_origin o os (n : Node W) :
  node_ok cfg o os n → ∃ r sn, n_row n = Some r ∧
    row_ok cfg (n_trace n) r sn ∧ trace_ok r sn (n_trace n) ∧
    evolves o os r sn ∧ node_ok cfg r sn n.
Proof.
  intros [(r & sn & Hdur) Hp]. pose proof Hdur as (Hr & Hok & Ht & Hev).
  exists r, sn. split_and!; try done.
  assert (∀ b r' sn', durable cfg o os r' sn' (node_sys n b) →
    durable cfg r sn r' sn' (node_sys n b)) as Hd.
  { intros b r' sn' Hd. pose proof Hd as (Hr' & Hok' & Ht' & _).
    destruct (durable_unique _ _ _ _ r sn _ Hd) as [-> ->];
      [done|by eapply row_ok_decode|]. split_and!; try done. }
  split; [by exists r, sn; apply Hd|]. intros b Hb.
  destruct (Hp b Hb) as [(r1 & sn1 & Hd1) Hrest].
  split; [by exists r1, sn1; apply Hd|].
  destruct Hrest as [|(r2 & rs2 & m & cs & [])]; [by left|]. right.
  exists r2, rs2, m, cs. split; try done. by apply Hd.
Qed.

Lemma reachable_row n :
  credit_reachable n → ∃ r sn, n_row n = Some r ∧
    row_ok cfg (n_trace n) r sn ∧ trace_ok r sn (n_trace n) ∧ node_ok cfg r sn n.
Proof.
  intros Hn. destruct (reachable_node_ok n Hn) as (o & os & Hok).
  destruct (node_ok_origin _ _ _ Hok) as (r & sn & ? & ? & ? & _ & ?). eauto 10.
Qed.
End reachable.

(** ** Side effects *)

(** The parts of a call that identify the side effect it asks for. *)
Definition funding_args (c : Call) : option (bytes * Z * string) :=
  match c with SendOOR dest amount key _ => Some (dest, amount, key) | _ => None end.
Definition redeem_args (c : Call) : option (bytes * Z * string) :=
  match c with
  | RedeemCredit _ key amount dest => Some (dest, amount, key)
  | _ => None
  end.
Definition pay_args (c : Call) : option (string * Z * Z) :=
  match c with
  | StartPay invoice maxFee maxCredit => Some (invoice, maxFee, maxCredit)
  | _ => None
  end.

Section theorems.
Context {W : Type} `{!TLV, !TLVLaws} (cfg : OpActorConfig)
  (handle : ∀ c : Call, W → reply (Resp c) * W).
Implicit Types n : Node W.

(** Calls of one history ask for the same side effect. *)
Lemma effects_agree r1 s1 t1 c1 r2 s2 t2 c2 :
  call_ok t1 r1 s1 c1 → call_ok t2 r2 s2 c2 → evolves r1 s1 r2 s2 →
  (∀ x y, funding_args c1 = Some x → funding_args c2 = Some y → x = y) ∧
  (∀ x y, redeem_args c1 = Some x → redeem_args c2 = Some y → x = y) ∧
  (∀ x y, pay_args c1 = Some x → pay_args c2 = Some y → x = y).
Proof.
  intros [_ H1] [_ H2] Hev. destruct (ev_caps _ _ _ _ Hev) as [Hcap Hfee].
  pose proof (ev_key _ _ _ _ Hev) as Hkey. pose proof (ev_topup _ _ _ _ Hev) as Htop.
  split_and!; intros x y E1 E2;
    destruct c1; try discriminate E1; destruct c2; try discriminate E2;
    simpl in *; injection E1 as <-; injection E2 as <-.
  - destruct H1 as (_ & -> & Hne & -> & ->), H2 as (_ & -> & _ & -> & ->).
    rewrite (ev_dest _ _ _ _ Hev Hne). congruence.
  - destruct H1 as (_ & -> & Hne & _ & -> & ->), H2 as (Hst & -> & _ & _ & -> & ->).
    rewrite (ev_dest _ _ _ _ Hev Hne), (ev_amount _ _ _ _ Hev) by (by rewrite Hst).
    congruence.
  - destruct H1 as (Hk & -> & -> & -> & _), H2 as (_ & -> & -> & -> & _).
    destruct (ev_invoice _ _ _ _ Hev Hk) as [-> _]. congruence.
Qed.

(** C9 Over the whole history of an operation, through crashes, lost answers,
    failed writes and restarts, every out-of-round transfer it asks for has the
    same destination, amount and idempotency key, every redemption has the same
    destination, amount and key, and every pay has the same invoice and caps: a
    retry can never become a second, different payment.  No assumption is made on
    the server's answers. *)
Theorem credit_effects_unique n c1 a1 d1 c2 a2 d2 :
  credit_reachable cfg handle n →
  Ev c1 a1 d1 ∈ n_trace n → Ev c2 a2 d2 ∈ n_trace n →
  (∀ x y, funding_args c1 = Some x → funding_args c2 = Some y → x = y) ∧
  (∀ x y, redeem_args c1 = Some x → redeem_args c2 = Some y → x = y) ∧
  (∀ x y, pay_args c1 = Some x → pay_args c2 = Some y → x = y).
Proof.
  intros Hn H1 H2. destruct (reachable_row _ _ _ Hn) as (r & sn & _ & _ & Ht & _).
  destruct (trace_pair _ _ _ _ _ _ _ _ _ Ht H1 H2)
    as (t1 & r1 & s1 & t2 & r2 & s2 & _ & _ & Hc1 & Hc2 & [Hev|Hev]).
  - by eapply effects_agree.
  - destruct (effects_agree _ _ _ _ _ _ _ _ Hc2 Hc1 Hev) as (Hf & Hr & Hp).
    split_and!; intros x y E1 E2; symmetry; eauto.
Qed.

(** Persist before effect: whenever an operation asks for a transfer, a
    redemption, a ledger read or a look at the chain, the durable row already
    records the state it is in and the destination the effect is bound to, so a
    crash at any point resumes against the same destination and never before the
    effect. *)
Theorem credit_checkpoint_before_effect n t1 c a d t2 :
  credit_reachable cfg handle n → n_trace n = t1 ++ Ev c a d :: t2 →
  ∃ r sn, d = Some r ∧ decodeOpSnapshot (SnapshotData r) = Ok sn ∧
    match c with
    | SendOOR dest _ _ _ =>
        rec_State r = StateTopupFunding ∧ DestinationPubkey r = dest ∧ dest ≠ []
    | RedeemCredit _ _ _ dest =>
        rec_State r = StateRedeemSubmitting ∧ DestinationPubkey r = dest ∧
        dest ≠ [] ∧ RedeemPkScript sn ≠ []
    | ListCredits _ =>
        rec_State r ∈ [StateTopupAwaitingCredit; StatePayAwaitingSettlement;
                       StateAwaitingSettlement; StateAwaitingOOR]
    | FindLiveVTXOByPkScript pk =>
        rec_State r = StateAwaitingOOR ∧ RedeemPkScript sn = pk
    | _ => True
    end.
Proof.
  intros Hn Htr. destruct (reachable_row _ _ _ Hn) as (r & sn & _ & _ & Ht & _).
  rewrite Htr in Ht. destruct (trace_event _ _ _ _ _ _ _ Ht) as (r0 & s0 & Hd & Hs & _ & Hc).
  exists r0, s0. split; [done|]. split; [done|].
  destruct c; try done; try naive_solver.
  destruct Hc as (cs & -> & Hcs). destruct cs; try discriminate Hcs; set_solver.
Qed.

(** A pay is started only when its credit is there: either no top-up was
    needed, or an earlier read of the server's ledger showed this operation's
    top-up as credited. *)
Theorem credit_pay_after_topup n t1 invoice maxFee maxCredit a d t2 :
  credit_reachable cfg handle n →
  n_trace n = t1 ++ Ev (StartPay invoice maxFee maxCredit) a d :: t2 →
  ∃ r, d = Some r ∧ Kind r = KindPay ∧
    (TopupSat r = 0%Z ∨
     ∃ acct sn d', Ev (ListCredits acct) (Some (Ok sn)) d' ∈ t2 ∧
       serverOpState sn (ServerOpID r) = Some ServerStateCredited).
Proof.
  intros Hn Htr. destruct (reachable_row _ _ _ Hn) as (r & sn & _ & _ & Ht & _).
  rewrite Htr in Ht. destruct (trace_event _ _ _ _ _ _ _ Ht) as (r0 & s0 & Hd & _ & _ & Hc).
  exists r0. destruct Hc as (? & _ & _ & _ & Hc). done.
Qed.

(** The ledger entry behind an authorised debit. *)
Lemma authorized_debit sn hash cap :
  authorizedPayState sn hash cap = Ok (ServerStateDebited, true) →
  ∃ snap op, sn = Some snap ∧ op ∈ cs_Operations snap ∧ so_PaymentHash op = hash ∧
    so_State op = ServerStateDebited ∧ so_AmountSat op ≠ 0%Z ∧
    (so_AmountSat op ≤ cap)%Z.
Proof.
  destruct sn as [snap|]; simpl; [|done].
  destruct (bool_decide (hash = [])); [done|]. intros Hl. exists snap.
  revert Hl. generalize (cs_Operations snap) as ops.
  induction ops as [|op ops IH]; simpl; [done|].
  destruct (bool_decide (so_PaymentHash op = hash)) eqn:Hh; zbool.
  - destruct (IsTerminalFailure (so_State op)) eqn:Hf.
    { intros [= Hs]. rewrite Hs in Hf. done. }
    destruct (_ && _) eqn:Ha; [done|]. destruct (_ <? _)%Z eqn:Hc; [done|]. zbool.
    intros [= Hs]. exists op. rewrite Hs in Ha. simpl in Ha.
    zbool.
    split_and!; try done. by constructor.
  - intros Hl. destruct (IH Hl) as (op' & ? & ? & ?). exists op'.
    split; [done|]. split; [by constructor|done].
Qed.

(** C10 A terminal row is explained by what happened.  A completed receive was
    credited in the server's ledger; a completed redemption was seen on chain
    with exactly the amount the row records; a completed pay was started with
    the authorised caps and, when it settles from credit alone, the ledger showed
    a debit for its payment hash that is not empty and not above the authorised
    cap.  A failed row carries a reason. *)
Theorem credit_terminal_explained n r :
  credit_reachable cfg handle n → n_row n = Some r →
  ∃ sn, decodeOpSnapshot (SnapshotData r) = Ok sn ∧
    (rec_State r = StateFailed → LastError r ≠ EmptyString) ∧
    (rec_State r = StateCompleted →
     match Kind r with
     | KindReceive => credited (n_trace n) (ServerOpID r)
     | KindRedeem =>
         ∃ d, Ev (FindLiveVTXOByPkScript (RedeemPkScript sn))
                (Some (Ok (true, AmountSat r))) d ∈ n_trace n
     | KindPay =>
         pay_started (n_trace n) r ∧
         (CreditOnly sn = true → PaymentHash r ≠ [] →
          ∃ acct snap op d,
            Ev (ListCredits acct) (Some (Ok (Some snap))) d ∈ n_trace n ∧
            op ∈ cs_Operations snap ∧ so_PaymentHash op = PaymentHash r ∧
            so_State op = ServerStateDebited ∧ so_AmountSat op ≠ 0%Z ∧
            (so_AmountSat op ≤ uint64 (MaxCreditSat r))%Z)
     | KindOther _ => False
     end).
Proof.
  intros Hn Hr. destruct (reachable_row _ _ _ Hn) as (r' & sn & Hr' & Hok & _).
  rewrite Hr in Hr'. injection Hr' as <-. exists sn.
  split; [by eapply row_ok_decode|].
  destruct Hok as (_ & _ & _ & cs & Hst & _ & Hph). rewrite Hst. split.
  - intros E. assert (cs = failedState) as -> by (by apply String_inj). done.
  - intros E. assert (cs = completedState) as -> by (by apply String_inj).
    simpl in Hph. destruct (Kind r); try done.
    + destruct Hph as [Hs Hset]. split; [done|]. intros Ho Hh.
      destruct (Hset Ho Hh) as (acct & snap & d & Hin & Hauth).
      destruct (authorized_debit _ _ _ Hauth) as (sn' & op & -> & ?).
      by exists acct, sn', op, d.
    + destruct Hph as (d & Hin & _). by exists d.
Qed.

(** Terminal operations are final: once the durable row is completed or
    failed it never changes again, and in no history was an operation driven, by
    a server call, a transfer, a ledger read or a checkpoint, while its row was
    terminal. *)
Theorem credit_terminal_final n r n' :
  credit_reachable cfg handle n → n_row n = Some r →
  State_IsTerminal (rec_State r) = true →
  rtc (node_step cfg handle) n n' →
  n_row n' = Some r ∧
  ∀ c a d, Ev c a d ∈ n_trace n' → drives c = true →
    ∃ r0, d = Some r0 ∧ State_IsTerminal (rec_State r0) = false.
Proof.
  intros Hn Hr Hterm Hsteps.
  destruct (reachable_row _ _ _ Hn) as (r1 & sn & Hr1 & Hrow & _ & Hok).
  rewrite Hr in Hr1. injection Hr1 as <-.
  pose proof (steps_ok _ _ _ _ _ _ Hsteps Hok) as Hok'.
  destruct (node_ok_origin _ _ _ _ Hok') as (r' & sn' & Hr' & Hrow' & Ht & Hev & _).
  split.
  - destruct (ev_terminal _ _ _ _ Hev Hterm) as [Hc ->].
    destruct Hrow as (_ & He & Hv & _), Hrow' as (_ & He' & Hv' & _).
    rewrite He in He'. rewrite Hr'. f_equal.
    split_core r' r Hc. simpl in *. congruence.
  - intros c a d Hin Hdr. apply list_elem_of_split in Hin as (t1 & t2 & Heq).
    rewrite Heq in Ht. destruct (trace_event _ _ _ _ _ _ _ Ht) as (r0 & s0 & Hd & _ & Hc & _).
    eauto.
Qed.

(** Every turn ends: driving an operation never runs on, its durable state only
    moves forward, and a turn that returns has left the row either terminal or
    parked in a state that waits for the server or the chain. *)
Theorem credit_turn_settles n b r out s' :
  credit_reachable cfg handle n → proc n = Some b → n_row n = Some r →
  Receive cfg handle ResumeCreditOpRequest (node_sys n b) = (out, s') →
  out ≠ NoFuel ∧
  ∃ r' cs, row s' = Some r' ∧ rec_State r' = CreditState_String cs ∧
    rank cs ≤ state_rank (rec_State r) ∧
    (out = Ret tt → CreditState_IsTerminal cs = true ∨ awaiting_state cs = true).
Proof.
  intros Hn Hb Hr HR. destruct (reachable_row _ _ _ Hn) as (r1 & sn & Hr1 & _ & _ & Hok).
  rewrite Hr in Hr1. injection Hr1 as <-.
  destruct Hok as [_ Hp]. specialize (Hp b Hb).
  pose proof (wp_turn cfg handle r sn ResumeCreditOpRequest _ ltac:(done) Hp) as Hw.
  unfold wp in Hw. rewrite HR in Hw.
  assert (∀ r' rs' cs, durable cfg r sn r' rs' s' → rec_State r' = CreditState_String cs →
    rank cs ≤ state_rank (rec_State r)) as Hrank.
  { intros r' rs' cs (_ & _ & _ & Hev) Hst. rewrite <- (state_rank_String cs), <- Hst.
    apply Hev. }
  assert (safe cfg r sn s' → ∃ r' cs, row s' = Some r' ∧
    rec_State r' = CreditState_String cs ∧ rank cs ≤ state_rank (rec_State r)) as Hsafe.
  { intros (r' & rs' & Hd). pose proof Hd as (Hrow & (_ & _ & _ & cs & Hst & _) & _).
    exists r', cs. eauto. }
  destruct out as [[]|e| |]; [|..|done].
  - split; [done|]. destruct Hw as (r' & rs' & m & cs & Hl & Hc & _ & Hcs).
    pose proof (lv_durable _ _ _ _ _ _ _ _ Hl) as Hd.
    apply core_fields in Hc as (Hst & _ & _).
    exists r', cs. split; [apply Hd|].
    assert (rec_State r' = CreditState_String cs) as Hst'
      by (rewrite Hst; apply (lv_state _ _ _ _ _ _ _ _ Hl)).
    split; [done|]. split; [by eapply Hrank|]. done.
  - split; [done|]. destruct (Hsafe Hw) as (r' & cs & ? & ? & ?). by exists r', cs.
  - split; [done|]. destruct (Hsafe Hw) as (r' & cs & ? & ? & ?). by exists r', cs.
Qed.

(** A restart resumes where the last committed turn stopped: whatever a process
    held when its turn returned, a new process that can read the row holds the
    same record, the same snapshot (redemption script, memo, credit-only mark,
    poll count) and the same state of the machine. *)
Theorem credit_restart_resumes n b s' w :
  credit_reachable cfg handle n → proc n = Some b →
  Receive cfg handle ResumeCreditOpRequest (node_sys n b) = (Ret tt, s') →
  handle (GetOperation (cfg_OpID cfg)) (world s') = (Answered (Ok tt), w) →
  ∃ b' r m, proc (boot cfg handle (node_of None s')) = Some b' ∧
    rec b' = Some r ∧ rec (mem s') = Some m ∧ core r = core m ∧
    snapshot_of b' = snapshot_of (mem s') ∧ curState b' = curState (mem s') ∧
    corruptState b' = false ∧ commitFailed b' = false.
Proof.
  intros Hn Hb HR Hget. destruct (reachable_row _ _ _ Hn) as (r & sn & _ & _ & _ & Hok).
  destruct Hok as [_ Hp]. specialize (Hp b Hb).
  pose proof (wp_turn cfg handle r sn ResumeCreditOpRequest _ ltac:(done) Hp) as Hw.
  unfold wp in Hw. rewrite HR in Hw.
  destruct Hw as (r' & rs & m & cs & [] & Hc & Hs & _).
  destruct lv_durable as (Hrow & Hrok & _).
  unfold boot, restore, read_operation, bind, interact. simpl. rewrite Hget. simpl.
  rewrite Hrow. simpl. rewrite (row_ok_decode _ _ _ _ Hrok). simpl.
  pose proof (core_fields _ _ Hc) as (Hst & _ & _).
  rewrite Hst, lv_state, decode_String. simpl.
  eexists _, r', m. split; [done|]. simpl. split_and!; try done. by destruct rs.
Qed.
End theorems.

(** ** Transitions and their table *)

(** [returns m P]: every result of [m] satisfies [P]. *)
Definition returns {W A} (m : M W A) (P : A → Prop) : Prop :=
  ∀ s a s', m s = (Ret a, s') → P a.

Lemma returns_ret {W A} (a : A) (P : A → Prop) : P a → returns (W:=W) (ret a) P.
Proof. by intros H s a' s' [= <- _]. Qed.
Lemma returns_throw {W A} e (P : A → Prop) : returns (W:=W) (throw e) P.
Proof. by intros s a s'. Qed.
Lemma returns_bind {W A B} (m : M W A) (k : A → M W B) P :
  (∀ a, returns (k a) P) → returns (bind m k) P.
Proof.
  unfold returns, bind. intros Hk s b s'. destruct (m s) as [[a|e| |] s1]; try done.
  apply Hk.
Qed.

Ltac returns_step :=
  match goal with
  | |- returns (bind _ _) _ => apply returns_bind; intro
  | |- returns (match ?x with _ => _ end) _ => destruct x
  | |- returns (ret _) _ => apply returns_ret
  | |- returns (emit _ (match ?x with _ => _ end)) _ => destruct x
  | |- returns (emit _ _) _ => apply returns_ret
  | |- returns (throw _) _ => apply returns_throw
  | |- returns (fail _) _ => apply returns_bind; intro
  | |- returns (funded _ _) _ => apply returns_bind; intro
  | |- returns (postponeListCreditsFetch _ _ _) _ => unfold postponeListCreditsFetch
  end.

(** The same directive, whatever amount it carries. *)
Definition same_directive (x y : CreditOutMsg) : bool :=
  match x, y with
  | stageRecord, stageRecord | parkOp, parkOp => true
  | triggerRedeem _, triggerRedeem _ => true
  | _, _ => false
  end.

(** The table lists the edge, and everything emitted on it. *)
Definition listed (cs : CreditState) (t : CreditTransition) : bool :=
  existsb (λ e,
    bool_decide (FromState e = cs) && bool_decide (ToState e = NextState t) &&
    forallb (λ o, existsb (same_directive o) (EmitsOutbox e)) (Outbox t) &&
    eqb (IsTerminal e) (CreditState_IsTerminal (NextState t)))
    CreditTransitions.

(** The machine follows its documented transition table, with two exceptions: a
    refused top-up transfer and a refused pay take an operation from funding and
    from paying to the failed state, edges the table does not list. *)
Theorem credit_transitions_documented {W} (cfg : OpActorConfig)
    (handle : ∀ c : Call, W → reply (Resp c) * W) cs s t s' :
  Credit_ProcessEvent cfg handle cs s = (Ret t, s') →
  listed cs t = true ∨
  (cs = topupFundingState ∨ cs = payingState) ∧
    t = mkTransition failedState [] ∧ listed cs t = false.
Proof.
  revert s t s'. change (returns (Credit_ProcessEvent cfg handle cs) (λ t,
    listed cs t = true ∨ (cs = topupFundingState ∨ cs = payingState) ∧
      t = mkTransition failedState [] ∧ listed cs t = false)).
  destruct cs; cbn [Credit_ProcessEvent];
    unfold process_quoting, process_topupCreating, process_topupFunding,
      process_topupAwaitingCredit, process_paying, process_payAwaitingSettlement,
      process_receiveCreating, process_awaitingSettlement, process_redeemReserving,
      process_redeemSubmitting, process_awaitingOOR;
    repeat (returns_step; cbv zeta);
    first [by left|by right; auto].
Qed.

(** ** The auto-redeem watermark *)

(** An automatic redemption is signalled only when it is enabled, only for
    credit that is not earmarked by another wallet operation, and only for an
    amount that reaches both the configured minimum and the operator's live,
    non-zero floor for virtual outputs. *)
Theorem credit_redeem_watermark {W} (cfg : OpActorConfig)
    (handle : ∀ c : Call, W → reply (Resp c) * W) sn s a s' :
  redeemWatermarkCleared cfg handle sn s = (Ret (Some a), s') →
  AutoRedeemEnabled cfg = true ∧ (MinRedeemSat cfg ≤ a)%Z ∧
  (∃ floor d, Ev VTXOFloor (Some (Ok floor)) d ∈ trace s' ∧ floor ≠ 0%Z ∧
     (floor ≤ a)%Z) ∧
  ∃ snap d, sn = Some snap ∧
    (Ev LoadEarmark (Some None) d ∈ trace s' ∧ a = cs_AvailableSat snap ∨
     ∃ earmarked, Ev LoadEarmark (Some (Some (Ok earmarked))) d ∈ trace s' ∧
       a = Z.max 0 (cs_AvailableSat snap - earmarked)).
Proof.
  destruct sn as [snap|]; [|done]. unfold redeemWatermarkCleared, bind, interact, ret.
  destruct (AutoRedeemEnabled cfg); [|done]. cbn [negb].
  destruct (handle LoadEarmark _) as [[[[em|e]|]|[]] w]; simpl; try done.
  - destruct (_ <? MinRedeemSat cfg)%Z eqn:Em; [done|].
    destruct (handle VTXOFloor _) as [[[floor|e]|[]] w2]; simpl; try done.
    destruct (floor =? 0)%Z eqn:E0; [done|].
    destruct (_ <? Z.max _ _)%Z eqn:Ef; [done|]. intros [= <- <-]. zbool.
    split_and!; [done|lia| |].
    + exists floor, (row s). split_and!; [by constructor|done|lia].
    + exists snap, (row s). split; [done|]. right. exists em.
      split; [by do 2 constructor|]. destruct (_ <=? _)%Z eqn:Ec; zbool; lia.
  - destruct (_ <? MinRedeemSat cfg)%Z eqn:Em; [done|].
    destruct (handle VTXOFloor _) as [[[floor|e]|[]] w2]; simpl; try done.
    destruct (floor =? 0)%Z eqn:E0; [done|].
    destruct (_ <? Z.max _ _)%Z eqn:Ef; [done|]. intros [= <- <-]. zbool.
    split_and!; [done|lia| |].
    + exists floor, (row s). split_and!; [by constructor|done|lia].
    + exists snap, (row s). split; [done|]. left. split; [by do 2 constructor|done].
Qed.

(** ** The poll budget *)

Lemma listCredits_frame {W} (handle : ∀ c : Call, W → reply (Resp c) * W) s res s' :
  listCredits handle s = (Ret res, s') →
  awaitPolls (mem s') = awaitPolls (mem s) ∧ rec (mem s') = rec (mem s).
Proof.
  unfold listCredits, accountKey, bind, get, interact, ret, modify.
  destruct (bool_decide _).
  - destruct (handle IdentityPubKey _) as [[[key|e]|[]] w]; simpl; try done.
    + destruct (handle (ListCredits _) _) as [[[sn|e]|[]] w2]; simpl; try done;
        by intros [= _ <-].
    + by intros [= _ <-].
  - destruct (handle (ListCredits _) _) as [[[sn|e]|[]] w2]; simpl; try done;
      by intros [= _ <-].
Qed.

Lemma bind_ret {W A B} (m : M W A) (k : A → M W B) s b s' :
  bind m k s = (Ret b, s') → ∃ a s1, m s = (Ret a, s1) ∧ k a s1 = (Ret b, s').
Proof. unfold bind. destruct (m s) as [[a|e| |] s1]; try done. eauto. Qed.
Lemma get_rec_ret {W} (s : Sys W) r s' :
  get_rec s = (Ret r, s') → s' = s ∧ rec (mem s) = Some r.
Proof. unfold get_rec. destruct (rec (mem s)); [|done]. by intros [= -> ->]. Qed.
Lemma fail_outbox {W} reason (s : Sys W) t s' :
  fail reason s = (Ret t, s') → Outbox t = [].
Proof.
  intros H. apply bind_ret in H as (r & s1 & _ & H).
  apply bind_ret in H as ([] & s2 & _ & H). by injection H as <- _.
Qed.
Lemma postpone_ret {W A} cfg (handle : ∀ c : Call, W → reply (Resp c) * W) e
    (s : Sys W) (a : A) s' :
  postponeListCreditsFetch cfg handle e s ≠ (Ret a, s').
Proof.
  unfold postponeListCreditsFetch. destruct (negb _); [done|].
  intros H. apply bind_ret in H as ([age|] & s1 & _ & H); [|done].
  by destruct (_ <=? _)%Z.
Qed.
Lemma interact_mem {W} (handle : ∀ c : Call, W → reply (Resp c) * W) c s a s' :
  interact handle c s = (Ret a, s') → mem s' = mem s.
Proof. unfold interact. destruct (handle c _) as [[] w]; [|done]. by intros [= _ <-]. Qed.

(** One more poll, then fail or park. *)
Lemma await_tail_budget {W} cfg (s : Sys W) cs reason t s' :
  bind (awaitExhausted cfg)
    (λ exhausted : bool, if exhausted then fail reason else emit cs [parkOp]) s =
    (Ret t, s') →
  Outbox t = [parkOp] →
  awaitPolls (mem s') = uint32 (awaitPolls (mem s) + 1) ∧
  ((0 < MaxAwaitingPolls cfg)%Z → (awaitPolls (mem s') ≤ MaxAwaitingPolls cfg)%Z).
Proof.
  unfold awaitExhausted, bind, modify, get, ret. simpl.
  destruct (_ && _) eqn:E; simpl.
  - unfold fail, bind, get_rec. simpl. destruct (rec (mem s)); simpl; [|done].
    by intros [= <- _].
  - intros [= _ <-] _. simpl. split; [done|]. intros Hmax.
    rewrite Z.gtb_ltb in E. apply andb_false_iff in E as [E|E]; zbool; lia.
Qed.

(** Waiting is bounded: in the capped awaiting states every poll that parks
    consumes one unit of the poll budget and stays within the configured cap, so
    that with a cap in force the operation leaves the state or fails after that
    many polls.  The one exception is a pay whose ledger entries contradict its
    authorisation, which is kept waiting with the reason recorded. *)
Theorem credit_poll_budget {W} (cfg : OpActorConfig)
    (handle : ∀ c : Call, W → reply (Resp c) * W) cs s t s' :
  cs = topupAwaitingCreditState ∨ cs = payAwaitingSettlementState ∨
    cs = awaitingOORState →
  Credit_ProcessEvent cfg handle cs s = (Ret t, s') → Outbox t = [parkOp] →
  awaitPolls (mem s') = uint32 (awaitPolls (mem s) + 1) ∧
    ((0 < MaxAwaitingPolls cfg)%Z → (awaitPolls (mem s') ≤ MaxAwaitingPolls cfg)%Z) ∨
  cs = payAwaitingSettlementState ∧
    ∃ r, rec (mem s') = Some r ∧ LastError r ≠ EmptyString.
Proof.
  intros [->|[->| ->]] HP Hpark; cbn [Credit_ProcessEvent] in HP.
  - left. unfold process_topupAwaitingCredit in HP.
    apply bind_ret in HP as (res & s1 & Hl & HP).
    apply listCredits_frame in Hl as [<- Hrec]. destruct res as [sn|e].
    + apply bind_ret in HP as (r & s2 & Hr & HP). apply get_rec_ret in Hr as [-> _].
      cbv zeta in HP. destruct (from_option _ _ _); [by eapply fail_outbox in HP; rewrite HP in Hpark|].
      destruct (bool_decide _); [by injection HP as <- _|].
      by eapply await_tail_budget.
    + by apply postpone_ret in HP.
  - unfold process_payAwaitingSettlement in HP.
    apply bind_ret in HP as (res & s1 & Hl & HP).
    apply listCredits_frame in Hl as [<- Hrec]. destruct res as [sn|e].
    + apply bind_ret in HP as (r & s2 & Hr & HP). apply get_rec_ret in Hr as [-> Hr].
      destruct (authorizedPayState _ _ _) as [[state found]|e].
      * destruct (negb found && _) eqn:E.
        { right. split; [done|]. injection HP as _ <-. exists r. zbool. by split. }
        left. apply bind_ret in HP as ([] & s3 & [= <-] & HP).
        destruct (found && bool_decide _); [by injection HP as <- _|].
        destruct (found && _); [by eapply fail_outbox in HP; rewrite HP in Hpark|].
        by apply (await_tail_budget _ _ _ _ _ _ HP).
      * right. split; [done|]. injection HP as _ <-. by eexists.
    + by apply postpone_ret in HP.
  - left. unfold process_awaitingOOR in HP.
    apply bind_ret in HP as (res & s1 & Hl & HP).
    apply listCredits_frame in Hl as [<- Hrec]. destruct res as [sn|e].
    + apply bind_ret in HP as (r & s2 & Hr & HP). apply get_rec_ret in Hr as [-> _].
      cbv zeta in HP. destruct (from_option _ _ _); [by eapply fail_outbox in HP; rewrite HP in Hpark|].
      apply bind_ret in HP as (b & s3 & [= <- <-] & HP).
      apply bind_ret in HP as (find & s4 & Hi & HP).
      apply interact_mem in Hi. rewrite <- Hi.
      destruct find as [[found amount]|e]; [|done].
      destruct (found && _); [|by eapply await_tail_budget].
      apply bind_ret in HP as ([] & s5 & _ & HP). by injection HP as <- _.
    + by apply postpone_ret in HP.
Qed.

(** ** A concrete environment

    A TLV library that satisfies the laws, a server and a daemon that grant
    everything, and a process that is killed during one of its calls. *)
Module CreditDemo.

Fixpoint pos_bytes (p : positive) : bytes :=
  match p with
  | xH => [x02]
  | xO p => x00 :: pos_bytes p
  | xI p => x01 :: pos_bytes p
  end.
Fixpoint bytes_pos (l : bytes) : option positive :=
  match l with
  | x00 :: l => xO <$> bytes_pos l
  | x01 :: l => xI <$> bytes_pos l
  | [x02] => Some xH
  | _ => None
  end.
Lemma bytes_pos_bytes p : bytes_pos (pos_bytes p) = Some p.
Proof. induction p as [p IH|p IH|]; simpl; rewrite ?IH; done. Qed.
Lemma pos_bytes_ne p : pos_bytes p ≠ [].
Proof. by destruct p. Qed.

#[local] Instance byte_countable : Countable byte :=
  inj_countable Byte.to_N Byte.of_N Byte.of_to_N.
#[local] Instance prim_countable : Countable prim.
Proof.
  refine (inj_countable'
    (λ v, match v with
          | PBytes b => inl b | PUint8 z => inr (inl z) | PUint32 z => inr (inr z)
          end)
    (λ v, match v with
          | inl b => PBytes b | inr (inl z) => PUint8 z | inr (inr z) => PUint32 z
          end) _).
  by intros [].
Defined.

#[export] Instance tlv : TLV := {|
  stream_encode rs := Ok (pos_bytes (countable.encode rs));
  stream_decode _ raw :=
    match bytes_pos raw ≫= countable.decode with
    | Some rs => Ok rs
    | None => Err (errorf "malformed stream")
    end
|}.
#[export] Instance tlv_laws : TLVLaws.
Proof.
  split. intros schema rs _. eexists. split; [done|]. split.
  - intros _. apply pos_bytes_ne.
  - simpl. rewrite bytes_pos_bytes. simpl. by rewrite decode_encode.
Qed.

Definition cfg : OpActorConfig := mkConfig "op1" 1000 3 true 100 true true.

Definition ledger : CreditSnapshot :=
  mkCreditSnapshot 700 0 700
    [mkServerCreditOp 200 "srv1" ServerStateCredited [];
     mkServerCreditOp 480 "srv2" ServerStateDebited [x01]].

Definition answer (c : Call) : Resp c :=
  match c with
  | CreateCredit _ _ _ _ _ =>
      Ok (mkCreateCreditResult "srv1" ServerStateCreated "lnbc" [x07] 200 [x02])
  | ListCredits _ => Ok (Some ledger)
  | RedeemCredit _ _ _ _ => Ok (mkRedeemResult "srv1" ServerStateReserved 500)
  | StartPay _ _ _ => Ok tt
  | IdentityPubKey => Ok [x03]
  | VTXOFloor => Ok 330%Z
  | SendOOR _ _ _ _ => Ok "session"%string
  | AllocateReceiveScript _ => Ok ([x04], [x05])
  | FindLiveVTXOByPkScript _ => Ok (true, 490%Z)
  | LoadEarmark => Some (Ok 50%Z)
  | DeliveryAge => None
  | GetOperation _ => Ok tt
  | Stage _ | Commit _ => Ok tt
  | TellConsiderRedeem _ | TellTerminal _ | TellSchedule _ _ => Ok tt
  end.

(** The world counts calls; the process dies during call number [k]. *)
Definition handle (k : nat) (c : Call) (w : nat) : reply (Resp c) * nat :=
  (if (w =? k)%nat then Died false else Answered (answer c), S w).

Definition pay : CreditMsg :=
  StartCreditPayRequest "pay:1" "lnbc" [x01] 680 200 500 10 true.
Definition redeem : CreditMsg := RedeemRequest "redeem:1" 500.
Definition receive : CreditMsg := StartCreditReceiveRequest "recv:1" 200 "memo".

(** The server's answer to the creation of a receive invoice. *)
Definition created : result goerr CreateCreditResult :=
  answer (CreateCredit [] "" SourceLightningReceive 0 "").
Definition admitted (msg : CreditMsg) : option CreditOperationRecord :=
  match admit_row "op1" msg created with Ok r => Some r | Err _ => None end.
Definition start (msg : CreditMsg) : Node nat := mkNode None (admitted msg) 0 [].

(** Start the process if it is not running, otherwise deliver a resume. *)
Definition drive (k : nat) (n : Node nat) : Node nat :=
  match proc n with
  | Some b => deliver cfg (handle k) ResumeCreditOpRequest b n
  | None => boot cfg (handle k) n
  end.

Definition after (msg : CreditMsg) (k steps : nat) : Node nat :=
  Nat.iter steps (drive k) (start msg).

Lemma demo_reachable msg k steps :
  is_Some (admitted msg) → credit_reachable cfg (handle k) (after msg k steps).
Proof.
  intros [r Hr]. exists "op1"%string, msg, created, r, 0. split.
  - unfold admitted in Hr. by destruct (admit_row _ _ _); simplify_eq.
  - unfold after. induction steps as [|steps IH]; simpl.
    + unfold start. by rewrite Hr.
    + eapply rtc_r; [exact IH|].
      generalize (Nat.iter steps (drive k) (start msg)) as n. intros n.
      unfold drive. destruct (proc n) eqn:Hp; by constructor.
Qed.

(** Projections of the events of a history. *)
Definition ev_call (e : Event) : Call := match e with Ev c _ _ => c end.
Definition ev_answer (e : Event) : option (Resp (ev_call e)) :=
  match e with Ev _ a _ => a end.
Definition ev_row (e : Event) : option CreditOperationRecord :=
  match e with Ev _ _ d => d end.
Definition event (n : Node nat) (i : nat) : Event :=
  nth i (n_trace n) (Ev DeliveryAge None None).
Definition event_row (n : Node nat) (i : nat) : option CreditOperationRecord :=
  ev_row (event n i).
Definition before (n : Node nat) (i : nat) : list Event := drop (S i) (n_trace n).
Definition since (n : Node nat) (i : nat) : list Event := take i (n_trace n).

Lemma after_steps msg k i j :
  rtc (node_step cfg (handle k)) (after msg k i) (after msg k (j + i)).
Proof.
  induction j as [|j IH]; [done|]. eapply rtc_r; [exact IH|]. simpl.
  change (after msg k (S (j + i))) with (drive k (after msg k (j + i))).
  unfold drive at 1. destruct (proc (after msg k (j + i))) eqn:Hp; by constructor.
Qed.

(** The pay whose process dies during the first transfer, and is restarted. *)
Definition paid : Node nat := after pay 4 4.
Definition resumed : Node nat := after pay 4 3.
Definition the_row (n : Node nat) : CreditOperationRecord :=
  from_option id
    (mkRecord "" "" (KindOther 0) "" CreditOpStatusPending "" [] [] "" "" 0 0 0 0
       "" [] 0) (n_row n).
Definition the_mem (n : Node nat) : opBehavior := from_option id new_behavior (proc n).

Lemma pay_admitted : is_Some (admitted pay).
Proof. vm_compute. eauto. Defined.
Lemma paid_row : n_row paid = Some (the_row paid).
Proof. vm_compute. reflexivity. Defined.
Lemma paid_completed : rec_State (the_row paid) = StateCompleted.
Proof. vm_compute. reflexivity. Defined.
Lemma resumed_mem : proc resumed = Some (the_mem resumed).
Proof. vm_compute. reflexivity. Defined.
Lemma resumed_row : n_row resumed = Some (the_row resumed).
Proof. vm_compute. reflexivity. Defined.

(** The turn of the restarted process. *)
Definition after_turn : Sys nat :=
  (Receive cfg (handle 4) ResumeCreditOpRequest
     (node_sys resumed (the_mem resumed))).2.
Lemma turn_returns :
  Receive cfg (handle 4) ResumeCreditOpRequest (node_sys resumed (the_mem resumed)) =
    (Ret tt, after_turn).
Proof. vm_compute. reflexivity. Defined.

(** A ledger that reports nothing yet. *)
Definition quiet (c : Call) (w : nat) : reply (Resp c) * nat :=
  match c with
  | ListCredits _ => (Answered (Ok None), S w)
  | c => (Answered (answer c), S w)
  end.
Definition waiting : Sys nat := node_sys resumed (the_mem resumed).
End CreditDemo.

(** ** Witnesses *)

Import CreditDemo.

Lemma credit_effects_unique_witness :
  ∃ x y, funding_args (ev_call (event paid 8)) = Some x ∧
    funding_args (ev_call (event paid 10)) = Some y ∧ x = y.
Proof.
  assert (∀ i, n_trace paid !! i = Some (event paid i) →
    Ev (ev_call (event paid i)) (ev_answer (event paid i)) (event_row paid i)
      ∈ n_trace paid) as Hin.
  { intros i Hi. apply (list_elem_of_lookup_2 _ i). rewrite Hi. f_equal.
    unfold event_row. by destruct (event paid i). }
  exists ([x02], 200%Z, "pay:1"%string), ([x02], 200%Z, "pay:1"%string).
  split; [vm_compute; reflexivity|]. split; [vm_compute; reflexivity|].
  exact (proj1 (credit_effects_unique cfg (handle 4) paid _ _ _ _ _ _
    (demo_reachable pay 4 4 pay_admitted)
    (Hin 8 ltac:(vm_compute; reflexivity)) (Hin 10 ltac:(vm_compute; reflexivity)))
    _ _ ltac:(vm_compute; reflexivity) ltac:(vm_compute; reflexivity)).
Defined.

Lemma credit_checkpoint_before_effect_witness :
  ∃ r, event_row paid 10 = Some r ∧
    rec_State r = StateTopupFunding ∧ DestinationPubkey r = [x02].
Proof.
  destruct (credit_checkpoint_before_effect cfg (handle 4)
    paid (since paid 10)
    (SendOOR [x02] 200 "pay:1" false) None
    (event_row paid 10) (before paid 10)
    (demo_reachable pay 4 4 pay_admitted)
    ltac:(vm_compute; reflexivity)) as (r & sn & Hr & _ & Hst & Hd & _).
  exists r. split; [exact Hr|]. split; [exact Hst|exact Hd].
Defined.

Lemma credit_pay_after_topup_witness :
  ∃ r, event_row paid 4 = Some r ∧ Kind r = KindPay ∧
    (TopupSat r = 0%Z ∨ credited (before paid 4) (ServerOpID r)).
Proof.
  apply (credit_pay_after_topup cfg (handle 4) paid
    (since paid 4) "lnbc" 10 500 (Some (Ok tt))
    (event_row paid 4) (before paid 4)
    (demo_reachable pay 4 4 pay_admitted)).
  vm_compute. reflexivity.
Defined.

Lemma credit_terminal_explained_witness :
  pay_started (n_trace paid) (the_row paid).
Proof.
  destruct (credit_terminal_explained cfg (handle 4) paid
    (the_row paid)
    (demo_reachable pay 4 4 pay_admitted) paid_row)
    as (sn & _ & _ & Hc).
  exact (proj1 (Hc paid_completed)).
Defined.

Lemma credit_terminal_final_witness :
  n_row (after pay 4 7) = Some (the_row paid).
Proof.
  exact (proj1 (credit_terminal_final cfg (handle 4)
    paid (the_row paid)
    (after pay 4 7)
    (demo_reachable pay 4 4 pay_admitted) paid_row
    ltac:(rewrite paid_completed; reflexivity)
    (after_steps pay 4 4 3))).
Defined.

Lemma credit_turn_settles_witness :
  ∃ r cs, row after_turn = Some r ∧ rec_State r = CreditState_String cs ∧
    (CreditState_IsTerminal cs = true ∨ awaiting_state cs = true).
Proof.
  destruct (credit_turn_settles cfg (handle 4) resumed
    (the_mem resumed) (the_row resumed)
    (Ret tt) after_turn
    (demo_reachable pay 4 3 pay_admitted)
    resumed_mem resumed_row turn_returns)
    as (_ & r & cs & Hr & Hst & _ & Hcs).
  exists r, cs. split; [exact Hr|]. split; [exact Hst|]. exact (Hcs eq_refl).
Defined.

Lemma credit_restart_resumes_witness :
  ∃ b', proc (boot cfg (handle 4)
                (node_of None after_turn)) = Some b' ∧
    curState b' = Some completedState.
Proof.
  destruct (credit_restart_resumes cfg (handle 4)
    resumed (the_mem resumed) after_turn
    (S (world after_turn))
    (demo_reachable pay 4 3 pay_admitted)
    resumed_mem turn_returns ltac:(vm_compute; reflexivity))
    as (b' & r & m & Hb & _ & _ & _ & _ & Hcur & _).
  exists b'. split; [exact Hb|]. rewrite Hcur. vm_compute. reflexivity.
Defined.

Lemma credit_transitions_documented_witness :
  listed payingState (mkTransition payAwaitingSettlementState [stageRecord]) = true.
Proof.
  destruct (credit_transitions_documented cfg (handle 99)
    payingState waiting
    (mkTransition payAwaitingSettlementState [stageRecord])
    (Credit_ProcessEvent cfg (handle 99) payingState
       waiting).2 ltac:(vm_compute; reflexivity)) as [H|(_ & H & _)].
  - exact H.
  - discriminate H.
Defined.

Lemma credit_redeem_watermark_witness :
  (MinRedeemSat cfg ≤ 650)%Z.
Proof.
  exact (proj1 (proj2 (credit_redeem_watermark cfg (handle 99)
    (Some ledger) waiting 650
    (redeemWatermarkCleared cfg (handle 99)
       (Some ledger) waiting).2 ltac:(vm_compute; reflexivity)))).
Defined.

Lemma credit_poll_budget_witness :
  awaitPolls (mem (Credit_ProcessEvent cfg quiet
    topupAwaitingCreditState waiting).2) = 1%Z.
Proof.
  destruct (credit_poll_budget cfg quiet topupAwaitingCreditState
    waiting (mkTransition topupAwaitingCreditState [parkOp])
    (Credit_ProcessEvent cfg quiet topupAwaitingCreditState
       waiting).2 ltac:(by left) ltac:(vm_compute; reflexivity) eq_refl)
    as [[H _]|[H _]]; [|discriminate H].
  rewrite H. vm_compute. reflexivity.
Defined.
