(* ===== verification/VtxoExpiry.v ===== *)
(** * VTXO descriptors and expiry monitoring: [vtxo/interfaces.go], [vtxo/expiry.go]

    The descriptor of a VTXO, its lifecycle status, and the arithmetic that
    decides, from the batch expiry, the depth of the exit transaction chain and
    the operator's terms, whether a VTXO is safe, due for refresh, critical or
    expired.

    Heights and thresholds are Go [int32] values and every [int32] operation of
    the code wraps here too; [int64] and [uint64] conversions are written out.
    Pointers to descriptors and to the configuration are non-nil: the manager
    installs [DefaultExpiryConfig] when none is given.  The two callbacks of the
    configuration are represented by the value they return at the time of the
    call, [None] standing for a nil callback. *)

From S2P Require Import Prelude RecoveryProof.
Local Open Scope Z_scope.

(** ** Data *)

(** The nine constants of the Go [int]; other values only reach the default
    branches. *)
Inductive VTXOStatus :=
| VTXOStatusLive
| VTXOStatusPendingForfeit
| VTXOStatusForfeiting
| VTXOStatusForfeited
| VTXOStatusSpent
| VTXOStatusUnilateralExit
| VTXOStatusFailed
| VTXOStatusSpending
| VTXOStatusExpired
| VTXOStatusOther (k : Z).

#[export] Instance VTXOStatus_eq_dec : EqDecision VTXOStatus.
Proof. solve_decision. Defined.

Definition VTXOStatus_String (s : VTXOStatus) : string :=
  match s with
  | VTXOStatusLive => "live"
  | VTXOStatusPendingForfeit => "pending_forfeit"
  | VTXOStatusForfeiting => "forfeiting"
  | VTXOStatusForfeited => "forfeited"
  | VTXOStatusSpent => "spent"
  | VTXOStatusUnilateralExit => "unilateral_exit"
  | VTXOStatusFailed => "failed"
  | VTXOStatusSpending => "spending"
  | VTXOStatusExpired => "expired"
  | VTXOStatusOther _ => "unknown"
  end.

(** Public keys, by their x-only serialisation. *)
Abbreviation PublicKey := N.

(** The fields of [types.Ancestry] the lifecycle code reads. *)
Record Ancestry := mkAncestry {
  a_CommitmentTxID : Hash;
  TreeDepth : Z;
  CommitmentHeight : Z;
}.

#[export] Instance Ancestry_eq_dec : EqDecision Ancestry.
Proof. solve_decision. Defined.

Record Settlement := mkSettlement {
  st_TxID : Hash;
  st_Height : Z;
}.

#[export] Instance Settlement_eq_dec : EqDecision Settlement.
Proof. solve_decision. Defined.

(** Everything the lifecycle code reads of a VTXO: the opaque asset package,
    the key locator of the client key and the construction version are left
    out. *)
Record Descriptor := mkDescriptor {
  Outpoint : OutPoint;
  Amount : Z;
  PolicyTemplate : list Z;
  d_PkScript : list Z;
  TaprootAssetRoot : option Hash;
  ClientKey : option PublicKey;
  OperatorKey : option PublicKey;
  d_Ancestry : list Ancestry;
  d_RoundID : string;
  d_CommitmentTxID : Hash;
  ForfeitRoundID : string;
  d_Settlement : option Settlement;
  BatchExpiry : Z;
  RelativeExpiry : Z;
  ChainDepth : Z;
  CreatedHeight : Z;
  Status : VTXOStatus;
}.

Definition set_CreatedHeight (d : Descriptor) (h : Z) : Descriptor :=
  mkDescriptor (Outpoint d) (Amount d) (PolicyTemplate d) (d_PkScript d)
    (TaprootAssetRoot d) (ClientKey d) (OperatorKey d) (d_Ancestry d)
    (d_RoundID d) (d_CommitmentTxID d) (ForfeitRoundID d) (d_Settlement d)
    (BatchExpiry d) (RelativeExpiry d)
    (ChainDepth d) h (Status d).

(** [for _, a := range d.Ancestry]: the running maximum from zero. *)
Definition MaxTreeDepth (d : Descriptor) : Z :=
  foldl (λ deepest a, if TreeDepth a >? deepest then TreeDepth a else deepest)
    0 (d_Ancestry d).

Definition PrimaryAncestry (d : Descriptor) : option Ancestry := head (d_Ancestry d).

Inductive ExpiryStatus :=
| ExpiryStatusSafe
| ExpiryStatusNeedsRefresh
| ExpiryStatusCritical
| ExpiryStatusExpired
| ExpiryStatusUnknown.

#[export] Instance ExpiryStatus_eq_dec : EqDecision ExpiryStatus.
Proof. solve_decision. Defined.

Inductive RefreshUrgency :=
| RefreshUrgencyNormal
| RefreshUrgencyElevated
| RefreshUrgencyCritical.

Record ExpiryConfig := mkExpiryConfig {
  MinRefreshAmount : option Z;
  RefreshThresholdBlocks : Z;
  CriticalThresholdBlocks : Z;
  MinRefreshBuffer : Z;
  TreeDepthMultiplier : Z;
  MaxPaymentCLTV : Z;
  FreeRefreshWindow : option Z;
}.

Definition DefaultExpiryConfig : ExpiryConfig :=
  mkExpiryConfig None 144 36 72 6 0 None.

(** ** Operations *)

Definition HasUsableBatchExpiry (d : Descriptor) : bool :=
  if BatchExpiry d <=? 0 then false
  else (CreatedHeight d <=? 0) || (CreatedHeight d <=? BatchExpiry d).

Definition exitTxDepth (d : Descriptor) : Z :=
  let depth := MaxTreeDepth d in
  let depth := if ChainDepth d >? 0 then int64 (depth + ChainDepth d) else depth in
  if depth >? MaxInt32 then MaxInt32 else int32 depth.

Definition CalculateCriticalThreshold (c : ExpiryConfig) (d : Descriptor) : Z :=
  let treeDepthBuffer := int32 (exitTxDepth d * TreeDepthMultiplier c) in
  let csvBuffer := int32 (RelativeExpiry d) in
  let safeExitBuffer := int32 (treeDepthBuffer + csvBuffer) in
  Z.max (CriticalThresholdBlocks c) safeExitBuffer.

Definition refreshSafetyFloor (c : ExpiryConfig) (criticalThreshold : Z) : Z :=
  let maxPaymentCLTV := Z.max (MaxPaymentCLTV c) 0 in
  let floor := int64 (int64 (criticalThreshold + MinRefreshBuffer c) + maxPaymentCLTV) in
  if floor >? MaxInt32 then MaxInt32 else int32 floor.

Definition baseRefreshSafetyFloor (c : ExpiryConfig) (criticalThreshold : Z) : Z :=
  let floor := int64 (criticalThreshold + MinRefreshBuffer c) in
  if floor >? MaxInt32 then MaxInt32 else int32 floor.

Definition canReserveMaxPaymentCLTV (c : ExpiryConfig) (d : Descriptor)
    (criticalThreshold : Z) : bool :=
  if (MaxPaymentCLTV c <=? 0) || (ChainDepth d >? 0) || (CreatedHeight d <=? 0)
    || (BatchExpiry d <=? CreatedHeight d)
  then true
  else
    let requestedFloor := refreshSafetyFloor c criticalThreshold in
    let batchLifetime := int64 (BatchExpiry d - CreatedHeight d) in
    let minimumUsefulLifetime := int64 (requestedFloor + Z.max (MinRefreshBuffer c) 0) in
    minimumUsefulLifetime <=? batchLifetime.

Definition CanReserveMaxPaymentCLTV (c : ExpiryConfig) (d : Descriptor) : bool :=
  canReserveMaxPaymentCLTV c d (CalculateCriticalThreshold c d).

Definition effectiveRefreshSafetyFloor (c : ExpiryConfig) (d : Descriptor)
    (criticalThreshold : Z) : Z :=
  if negb (canReserveMaxPaymentCLTV c d criticalThreshold)
  then baseRefreshSafetyFloor c criticalThreshold
  else refreshSafetyFloor c criticalThreshold.

Definition CalculateRefreshThreshold (c : ExpiryConfig) (d : Descriptor) : Z :=
  let criticalThreshold := CalculateCriticalThreshold c d in
  let safetyFloor := effectiveRefreshSafetyFloor c d criticalThreshold in
  let refreshThreshold := Z.max (RefreshThresholdBlocks c) safetyFloor in
  match FreeRefreshWindow c with
  | None => refreshThreshold
  | Some windowBlocks =>
      if (windowBlocks =? 0) || (windowBlocks >=? uint64 refreshThreshold)
      then refreshThreshold
      else if windowBlocks <? uint64 safetyFloor then refreshThreshold
      else int32 windowBlocks
  end.

Definition BlocksUntilExpiry (d : Descriptor) (currentHeight : Z) : Z :=
  int32 (BatchExpiry d - currentHeight).

Definition CheckExpiry (c : ExpiryConfig) (d : Descriptor) (currentHeight : Z) :
    ExpiryStatus :=
  if negb (HasUsableBatchExpiry d) then ExpiryStatusUnknown
  else
    let blocksRemaining := int32 (BatchExpiry d - currentHeight) in
    if blocksRemaining <=? 0 then ExpiryStatusExpired
    else if blocksRemaining <=? CalculateCriticalThreshold c d
    then ExpiryStatusCritical
    else if blocksRemaining <=? CalculateRefreshThreshold c d
    then ExpiryStatusNeedsRefresh
    else ExpiryStatusSafe.

(** [refreshThreshold/2] truncates toward zero. *)
Definition DetermineRefreshUrgency (c : ExpiryConfig) (d : Descriptor)
    (blocksRemaining : Z) : RefreshUrgency :=
  if blocksRemaining <=? CalculateCriticalThreshold c d
  then RefreshUrgencyCritical
  else if blocksRemaining <=? Z.quot (CalculateRefreshThreshold c d) 2
  then RefreshUrgencyElevated
  else RefreshUrgencyNormal.

Definition ShouldWaitForFreeRefreshWindow (c : ExpiryConfig) (d : Descriptor)
    (currentHeight : Z) : bool :=
  match FreeRefreshWindow c with
  | None => false
  | Some window =>
      if negb (HasUsableBatchExpiry d) then false
      else
        let remaining := BlocksUntilExpiry d currentHeight in
        (remaining >? 0) && (uint64 remaining >? window)
  end.

Definition canAutoRefresh (c : ExpiryConfig) (d : Descriptor) (height : Z) : bool :=
  match TaprootAssetRoot d with
  | Some _ => false
  | None =>
      if ShouldWaitForFreeRefreshWindow c d height then false
      else match MinRefreshAmount c with
           | None => true
           | Some floor => Amount d >=? floor
           end
  end.

(** ** Reference thresholds

    The same decisions over unbounded integers. *)

Definition exit_depth (d : Descriptor) : Z :=
  MaxTreeDepth d + Z.max 0 (ChainDepth d).

(** Blocks a unilateral exit needs: its transactions confirm one after the
    other, then the CSV delay runs. *)
Definition exit_budget (c : ExpiryConfig) (d : Descriptor) : Z :=
  exit_depth d * TreeDepthMultiplier c + RelativeExpiry d.

Definition spec_critical (c : ExpiryConfig) (d : Descriptor) : Z :=
  Z.max (CriticalThresholdBlocks c) (exit_budget c d).

(** The payment reserve applies unless the batch is known to be too short. *)
Definition spec_reserve (c : ExpiryConfig) (d : Descriptor) : Z :=
  let reserve := Z.max 0 (MaxPaymentCLTV c) in
  let floor := Z.min MaxInt32 (spec_critical c d + MinRefreshBuffer c + reserve) in
  if decide (0 < reserve ∧ ChainDepth d ≤ 0 ∧ 0 < CreatedHeight d < BatchExpiry d ∧
             BatchExpiry d - CreatedHeight d < floor + Z.max 0 (MinRefreshBuffer c))
  then 0 else reserve.

Definition spec_floor (c : ExpiryConfig) (d : Descriptor) : Z :=
  Z.min MaxInt32 (spec_critical c d + MinRefreshBuffer c + spec_reserve c d).

Definition spec_refresh (c : ExpiryConfig) (d : Descriptor) : Z :=
  let base := Z.max (RefreshThresholdBlocks c) (spec_floor c d) in
  match FreeRefreshWindow c with
  | Some w => if decide (0 < w < base ∧ spec_floor c d ≤ w) then w else base
  | None => base
  end.

Definition spec_status (c : ExpiryConfig) (d : Descriptor) (h : Z) : ExpiryStatus :=
  let remaining := BatchExpiry d - h in
  if decide (BatchExpiry d ≤ 0 ∨ BatchExpiry d < CreatedHeight d)
  then ExpiryStatusUnknown
  else if decide (remaining ≤ 0) then ExpiryStatusExpired
  else if decide (remaining ≤ spec_critical c d) then ExpiryStatusCritical
  else if decide (remaining ≤ spec_refresh c d) then ExpiryStatusNeedsRefresh
  else ExpiryStatusSafe.

(** The values fit their Go types. *)
Record expiry_typed (c : ExpiryConfig) (d : Descriptor) : Prop := {
  et_refresh : is_int32 (RefreshThresholdBlocks c);
  et_critical : is_int32 (CriticalThresholdBlocks c);
  et_buffer : is_int32 (MinRefreshBuffer c);
  et_multiplier : is_int32 (TreeDepthMultiplier c);
  et_cltv : is_int32 (MaxPaymentCLTV c);
  et_window : ∀ w, FreeRefreshWindow c = Some w → is_uint32 w;
  et_expiry : is_int32 (BatchExpiry d);
  et_created : is_int32 (CreatedHeight d);
  et_csv : is_uint32 (RelativeExpiry d);
  et_depth : is_int64 (ChainDepth d);
  et_tree : Forall (λ a, is_uint32 (TreeDepth a)) (d_Ancestry d);
}.

(** The configuration is one a node would run: no negative margin. *)
Record expiry_sane (c : ExpiryConfig) : Prop := {
  es_critical : 0 ≤ CriticalThresholdBlocks c;
  es_buffer : 0 ≤ MinRefreshBuffer c;
  es_multiplier : 0 ≤ TreeDepthMultiplier c;
}.

(** The exit budget is an [int32]. *)
Definition budget_fits (c : ExpiryConfig) (d : Descriptor) : Prop :=
  exit_depth d ≤ MaxInt32 ∧ exit_budget c d ≤ MaxInt32.

Lemma foldl_max_bounds l : ∀ z,
  0 ≤ z ≤ 4294967295 → Forall (λ a, is_uint32 (TreeDepth a)) l →
  z ≤ foldl (λ deepest a, if TreeDepth a >? deepest then TreeDepth a else deepest) z l
    ≤ 4294967295.
Proof.
  induction l as [|a l IH]; intros z Hz Hl; simpl; [lia|].
  inversion Hl as [|?? Ha Hl']; subst. unfold is_uint32 in Ha.
  destruct (TreeDepth a >? z) eqn:E.
  - apply Z.gtb_lt in E. specialize (IH (TreeDepth a) ltac:(lia) Hl'). lia.
  - by apply IH.
Qed.

Lemma MaxTreeDepth_bounds c d :
  expiry_typed c d → 0 ≤ MaxTreeDepth d ≤ 4294967295.
Proof. intros []. apply foldl_max_bounds; [lia|done]. Qed.

(** [MaxTreeDepth] is the deepest fragment, zero without ancestry. *)
Lemma MaxTreeDepth_max d a : a ∈ d_Ancestry d → TreeDepth a ≤ MaxTreeDepth d.
Proof.
  unfold MaxTreeDepth. generalize (d_Ancestry d) as l, 0. intros l.
  assert (∀ l z, z ≤ foldl (λ deepest a, if TreeDepth a >? deepest
                    then TreeDepth a else deepest) z l) as Hge.
  { clear. induction l as [|b l IH]; intros z; simpl; [lia|].
    destruct (TreeDepth b >? z) eqn:E; [|apply IH].
    apply Z.gtb_lt in E. specialize (IH (TreeDepth b)). lia. }
  induction l as [|b l IH]; intros z Ha; [by apply not_elem_of_nil in Ha|].
  apply elem_of_cons in Ha as [->|Ha]; simpl; [|by apply IH].
  destruct (TreeDepth b >? z) eqn:E; [apply Hge|].
  etrans; [|apply Hge]. rewrite Z.gtb_ltb, Z.ltb_ge in E. lia.
Qed.

(** Rewrites the machine comparisons into propositions. *)
Ltac zcmp :=
  repeat match goal with
  | H : context [ (?a >? ?b) ] |- _ => rewrite (Z.gtb_ltb a b) in H
  | H : context [ (?a >=? ?b) ] |- _ => rewrite (Z.geb_leb a b) in H
  | |- context [ (?a >? ?b) ] => rewrite (Z.gtb_ltb a b)
  | |- context [ (?a >=? ?b) ] => rewrite (Z.geb_leb a b)
  | |- context [ if (?a <=? ?b) then _ else _ ] => destruct (Z.leb_spec a b)
  | |- context [ if (?a <? ?b) then _ else _ ] => destruct (Z.ltb_spec a b)
  | |- context [ if decide ?P then _ else _ ] => destruct (decide P)
  end.

Lemma exitTxDepth_exact c d :
  expiry_typed c d → exit_depth d ≤ MaxInt32 → exitTxDepth d = exit_depth d.
Proof.
  intros Ht. pose proof (MaxTreeDepth_bounds _ _ Ht) as Hb.
  unfold exitTxDepth, exit_depth, MaxInt32. cbv zeta. intros Hd.
  destruct Ht as [_ _ _ _ _ _ _ _ _ Hc _]. unfold is_int64 in Hc.
  assert ((if ChainDepth d >? 0 then int64 (MaxTreeDepth d + ChainDepth d)
           else MaxTreeDepth d) = MaxTreeDepth d + Z.max 0 (ChainDepth d)) as ->.
  { zcmp; [rewrite int64_id by (unfold is_int64; lia)|]; lia. }
  zcmp; [lia|]. apply int32_id. unfold is_int32. lia.
Qed.

Lemma CalculateCriticalThreshold_exact c d :
  expiry_typed c d → expiry_sane c → budget_fits c d →
  CalculateCriticalThreshold c d = spec_critical c d.
Proof.
  intros Ht [] [Hd Hb]. unfold CalculateCriticalThreshold, spec_critical.
  rewrite (exitTxDepth_exact _ _ Ht Hd). unfold exit_budget, MaxInt32 in *.
  pose proof (MaxTreeDepth_bounds _ _ Ht) as Hm.
  destruct Ht as [_ _ _ _ _ _ _ _ Hcsv _ _]. unfold is_uint32 in Hcsv.
  assert (0 ≤ exit_depth d) by (unfold exit_depth; lia).
  assert (0 ≤ exit_depth d * TreeDepthMultiplier c) by nia.
  cbv zeta. rewrite !int32_id; unfold is_int32; rewrite ?int32_id;
    unfold is_int32; try lia.
Qed.

Lemma spec_critical_range c d :
  expiry_typed c d → expiry_sane c → budget_fits c d →
  0 ≤ spec_critical c d ≤ MaxInt32.
Proof.
  intros Ht [] [_ Hb]. unfold spec_critical, MaxInt32 in *.
  destruct Ht as [_ Hc _ _ _ _ _ _ _ _ _]. unfold is_int32 in Hc. lia.
Qed.

Lemma refreshSafetyFloor_exact c cr :
  is_int32 (MinRefreshBuffer c) → is_int32 (MaxPaymentCLTV c) →
  0 ≤ MinRefreshBuffer c → 0 ≤ cr ≤ MaxInt32 →
  refreshSafetyFloor c cr =
    Z.min MaxInt32 (cr + MinRefreshBuffer c + Z.max 0 (MaxPaymentCLTV c)).
Proof.
  unfold is_int32, MaxInt32. intros. unfold refreshSafetyFloor, MaxInt32. cbv zeta.
  rewrite !int64_id by (unfold is_int64; rewrite ?int64_id; unfold is_int64; lia).
  zcmp; [lia|]. rewrite int32_id; unfold is_int32; lia.
Qed.

Lemma baseRefreshSafetyFloor_exact c cr :
  is_int32 (MinRefreshBuffer c) → 0 ≤ MinRefreshBuffer c → 0 ≤ cr ≤ MaxInt32 →
  baseRefreshSafetyFloor c cr = Z.min MaxInt32 (cr + MinRefreshBuffer c).
Proof.
  unfold is_int32, MaxInt32. intros. unfold baseRefreshSafetyFloor, MaxInt32. cbv zeta.
  rewrite !int64_id by (unfold is_int64; lia).
  zcmp; [lia|]. rewrite int32_id; unfold is_int32; lia.
Qed.

Lemma canReserve_exact c d :
  expiry_typed c d → expiry_sane c → budget_fits c d →
  canReserveMaxPaymentCLTV c d (spec_critical c d) =
    bool_decide (spec_reserve c d = Z.max 0 (MaxPaymentCLTV c)).
Proof.
  intros Ht Hs Hb. pose proof (spec_critical_range _ _ Ht Hs Hb) as Hcr.
  destruct Ht as [_ _ Hbuf _ Hcltv _ He Hc _ _ _], Hs as [_ Hbuf0 _].
  unfold canReserveMaxPaymentCLTV, spec_reserve.
  rewrite (refreshSafetyFloor_exact _ _ Hbuf Hcltv Hbuf0 Hcr).
  unfold is_int32, MaxInt32 in *. cbv zeta.
  destruct ((MaxPaymentCLTV c <=? 0) || (ChainDepth d >? 0) || (CreatedHeight d <=? 0)
    || (BatchExpiry d <=? CreatedHeight d)) eqn:E.
  - rewrite !orb_true_iff, Z.gtb_ltb, !Z.leb_le, Z.ltb_lt in E.
    symmetry. apply bool_decide_eq_true. zcmp; lia.
  - rewrite !orb_false_iff, Z.gtb_ltb, !Z.leb_gt, Z.ltb_ge in E.
    rewrite !int64_id by (unfold is_int64; lia).
    destruct (Z.leb_spec (Z.min 2147483647 (spec_critical c d + MinRefreshBuffer c +
       Z.max 0 (MaxPaymentCLTV c)) + Z.max (MinRefreshBuffer c) 0)
       (BatchExpiry d - CreatedHeight d));
    symmetry; [apply bool_decide_eq_true|apply bool_decide_eq_false]; zcmp; lia.
Qed.

Lemma effectiveRefreshSafetyFloor_exact c d :
  expiry_typed c d → expiry_sane c → budget_fits c d →
  effectiveRefreshSafetyFloor c d (CalculateCriticalThreshold c d) = spec_floor c d.
Proof.
  intros Ht Hs Hb. pose proof (spec_critical_range _ _ Ht Hs Hb) as Hcr.
  rewrite (CalculateCriticalThreshold_exact _ _ Ht Hs Hb).
  unfold effectiveRefreshSafetyFloor, spec_floor.
  rewrite (canReserve_exact _ _ Ht Hs Hb).
  destruct Ht as [_ _ Hbuf _ Hcltv _ _ _ _ _ _], Hs as [_ Hbuf0 _].
  rewrite (refreshSafetyFloor_exact _ _ Hbuf Hcltv Hbuf0 Hcr).
  rewrite (baseRefreshSafetyFloor_exact _ _ Hbuf Hbuf0 Hcr).
  case_bool_decide as E; simpl; [by rewrite E|].
  unfold spec_reserve in *. cbv zeta in *.
  destruct (decide _); [|done]. f_equal. lia.
Qed.

Lemma spec_floor_range c d :
  expiry_typed c d → expiry_sane c → budget_fits c d → 0 ≤ spec_floor c d ≤ MaxInt32.
Proof.
  intros Ht Hs Hb. pose proof (spec_critical_range _ _ Ht Hs Hb) as Hcr.
  destruct Hs. unfold spec_floor, spec_reserve, MaxInt32 in *. cbv zeta. zcmp; lia.
Qed.

Lemma CalculateRefreshThreshold_exact c d :
  expiry_typed c d → expiry_sane c → budget_fits c d →
  CalculateRefreshThreshold c d = spec_refresh c d.
Proof.
  intros Ht Hs Hb. unfold CalculateRefreshThreshold, spec_refresh. cbv zeta.
  rewrite (effectiveRefreshSafetyFloor_exact _ _ Ht Hs Hb).
  pose proof (spec_floor_range _ _ Ht Hs Hb) as Hf.
  destruct Ht as [Hr _ _ _ _ Hw _ _ _ _ _]. unfold is_int32, MaxInt32 in *.
  destruct (FreeRefreshWindow c) as [w|]; [|done].
  specialize (Hw w eq_refl). unfold is_uint32 in Hw.
  unfold uint64. rewrite !Z.mod_small by lia. rewrite Z.geb_leb.
  destruct (Z.eqb_spec w 0); simpl; [zcmp; lia|].
  destruct (Z.leb_spec (Z.max (RefreshThresholdBlocks c) (spec_floor c d)) w);
    [zcmp; lia|].
  zcmp; try lia. rewrite int32_id; unfold is_int32; lia.
Qed.

Lemma HasUsableBatchExpiry_spec d :
  HasUsableBatchExpiry d = true ↔ 0 < BatchExpiry d ∧ CreatedHeight d ≤ BatchExpiry d.
Proof.
  unfold HasUsableBatchExpiry. zcmp; [split; [done|lia]|].
  rewrite orb_true_iff, !Z.leb_le. lia.
Qed.

Lemma HasUsableBatchExpiry_false d :
  HasUsableBatchExpiry d = false ↔ BatchExpiry d ≤ 0 ∨ BatchExpiry d < CreatedHeight d.
Proof.
  rewrite <- not_true_iff_false, HasUsableBatchExpiry_spec. lia.
Qed.

Lemma blocks_remaining_exact c d h :
  expiry_typed c d → HasUsableBatchExpiry d = true → 0 ≤ h ≤ MaxInt32 →
  int32 (BatchExpiry d - h) = BatchExpiry d - h.
Proof.
  intros [_ _ _ _ _ _ He _ _ _ _] Hu%HasUsableBatchExpiry_spec Hh.
  unfold is_int32, MaxInt32 in *. apply int32_id. unfold is_int32. lia.
Qed.

Lemma CheckExpiry_spec c d h :
  expiry_typed c d → expiry_sane c → budget_fits c d → 0 ≤ h ≤ MaxInt32 →
  CheckExpiry c d h = spec_status c d h.
Proof.
  intros Ht Hs Hb Hh. unfold CheckExpiry, spec_status. cbv zeta.
  rewrite (CalculateCriticalThreshold_exact _ _ Ht Hs Hb).
  rewrite (CalculateRefreshThreshold_exact _ _ Ht Hs Hb).
  destruct (HasUsableBatchExpiry d) eqn:Hu; simpl.
  - rewrite (blocks_remaining_exact _ _ _ Ht Hu Hh).
    apply HasUsableBatchExpiry_spec in Hu. zcmp; lia || done.
  - apply HasUsableBatchExpiry_false in Hu. zcmp; lia || done.
Qed.

(** A VTXO of 50,000 sat two levels below its commitment, with a CSV delay of
    20 blocks and an expiry at 1,000, under the default configuration. *)
Definition sample_vtxo : Descriptor :=
  mkDescriptor (mkOutPoint 1%N 0) 50000 [4] [1] None (Some 1%N) (Some 2%N)
    [mkAncestry 3%N 2 0] "round-0" 3%N "" None 1000 20 0 100 VTXOStatusLive.

Lemma sample_typed : expiry_typed DefaultExpiryConfig sample_vtxo.
Proof.
  split; simpl; try (unfold is_int32, is_uint32, is_int64; lia); [done|].
  repeat constructor; unfold is_uint32; simpl; lia.
Qed.

Lemma sample_sane : expiry_sane DefaultExpiryConfig.
Proof. repeat split; simpl; try lia; done. Qed.

Lemma sample_fits : budget_fits DefaultExpiryConfig sample_vtxo.
Proof. repeat split; vm_compute; congruence. Qed.

(** C38 Within the range of heights and of exit budgets that fit an [int32],
    the wrap-around arithmetic of [CheckExpiry] and of its two thresholds
    computes exactly the unbounded reference: the critical threshold is the
    larger of the configured one and the blocks the exit chain and its CSV delay
    need, the refresh threshold adds the buffer and the payment reserve, and only
    a free window that leaves the safety floor intact may postpone it. *)
Theorem CheckExpiry_exact c d h :
  expiry_typed c d → expiry_sane c → budget_fits c d → 0 ≤ h ≤ MaxInt32 →
  CalculateCriticalThreshold c d = spec_critical c d ∧
  CalculateRefreshThreshold c d = spec_refresh c d ∧
  CheckExpiry c d h = spec_status c d h.
Proof.
  intros Ht Hs Hb Hh. split_and!.
  - by apply CalculateCriticalThreshold_exact.
  - by apply CalculateRefreshThreshold_exact.
  - by apply CheckExpiry_spec.
Qed.

Lemma CheckExpiry_exact_witness :
  spec_status DefaultExpiryConfig sample_vtxo 963 = ExpiryStatusNeedsRefresh ∧
  CheckExpiry DefaultExpiryConfig sample_vtxo 963 =
    spec_status DefaultExpiryConfig sample_vtxo 963.
Proof.
  split; [vm_compute; reflexivity|].
  apply (CheckExpiry_exact _ _ 963 sample_typed sample_sane sample_fits).
  unfold MaxInt32; lia.
Defined.

(** How urgent a status is. *)
Definition urgency (s : ExpiryStatus) : Z :=
  match s with
  | ExpiryStatusUnknown => 0
  | ExpiryStatusSafe => 1
  | ExpiryStatusNeedsRefresh => 2
  | ExpiryStatusCritical => 3
  | ExpiryStatusExpired => 4
  end.

Lemma CheckExpiry_unknown c d h :
  CheckExpiry c d h = ExpiryStatusUnknown ↔ HasUsableBatchExpiry d = false.
Proof.
  unfold CheckExpiry. destruct (HasUsableBatchExpiry d); simpl; [|done].
  split; [|done]. zcmp; done.
Qed.

Lemma CheckExpiry_expired c d h :
  expiry_typed c d → 0 ≤ h ≤ MaxInt32 →
  CheckExpiry c d h = ExpiryStatusExpired ↔
  HasUsableBatchExpiry d = true ∧ BatchExpiry d ≤ h.
Proof.
  intros Ht Hh. unfold CheckExpiry. cbv zeta.
  destruct (HasUsableBatchExpiry d) eqn:Hu; simpl; [|split; [done|naive_solver]].
  rewrite (blocks_remaining_exact _ _ _ Ht Hu Hh). zcmp; naive_solver lia.
Qed.

(** As the chain grows a VTXO only becomes more urgent: at a later height
    its status is never a milder one, whatever the thresholds, and once expired
    it stays expired. *)
Theorem CheckExpiry_monotone c d h h' :
  expiry_typed c d → 0 ≤ h ≤ h' → h' ≤ MaxInt32 →
  urgency (CheckExpiry c d h) ≤ urgency (CheckExpiry c d h').
Proof.
  intros Ht Hh Hh'. unfold CheckExpiry. cbv zeta.
  destruct (HasUsableBatchExpiry d) eqn:Hu; simpl; [|done].
  rewrite (blocks_remaining_exact c d h), (blocks_remaining_exact c d h')
    by (done || lia).
  zcmp; simpl; lia.
Qed.

Lemma CheckExpiry_monotone_witness :
  urgency (CheckExpiry DefaultExpiryConfig sample_vtxo 800) ≤
  urgency (CheckExpiry DefaultExpiryConfig sample_vtxo 970).
Proof.
  apply (CheckExpiry_monotone _ _ 800 970 sample_typed); unfold MaxInt32; lia.
Defined.

(** As long as a VTXO is neither critical nor expired there are more blocks
    left than its unilateral exit needs, so an exit started at the first
    critical block still fits; and the refresh threshold lies at least the
    configured buffer above the critical one, free window or not. *)
Theorem thresholds_leave_room c d h :
  expiry_typed c d → expiry_sane c → budget_fits c d → 0 ≤ h ≤ MaxInt32 →
  ((CheckExpiry c d h = ExpiryStatusSafe ∨ CheckExpiry c d h = ExpiryStatusNeedsRefresh) →
    exit_budget c d < BatchExpiry d - h) ∧
  (CheckExpiry c d h = ExpiryStatusSafe →
    Z.min MaxInt32 (exit_budget c d + MinRefreshBuffer c) < BatchExpiry d - h) ∧
  Z.min MaxInt32 (CalculateCriticalThreshold c d + MinRefreshBuffer c)
    ≤ CalculateRefreshThreshold c d.
Proof.
  intros Ht Hs Hb Hh. rewrite (CheckExpiry_spec _ _ _ Ht Hs Hb Hh).
  rewrite (CalculateCriticalThreshold_exact _ _ Ht Hs Hb).
  rewrite (CalculateRefreshThreshold_exact _ _ Ht Hs Hb).
  assert (Z.min MaxInt32 (spec_critical c d + MinRefreshBuffer c) ≤ spec_refresh c d)
    as Href.
  { unfold spec_refresh. cbv zeta.
    assert (0 ≤ spec_reserve c d) as Hr
      by (unfold spec_reserve; cbv zeta; zcmp; lia).
    unfold spec_floor. destruct (FreeRefreshWindow c) as [w|]; zcmp; lia. }
  assert (exit_budget c d ≤ spec_critical c d) as Hcr by (unfold spec_critical; lia).
  split_and!; [| |done]; unfold spec_status; cbv zeta; zcmp; intros; try done;
    try (destruct_or?; done); lia.
Qed.

Lemma thresholds_leave_room_witness :
  exit_budget DefaultExpiryConfig sample_vtxo < BatchExpiry sample_vtxo - 900.
Proof.
  apply (thresholds_leave_room _ _ 900 sample_typed sample_sane sample_fits).
  - unfold MaxInt32; lia.
  - right. vm_compute. reflexivity.
Defined.

(** An exit budget beyond [int32] wraps: a CSV delay of 2^31 blocks leaves the
    configured 36 blocks as critical threshold. *)
Definition wrapping_descriptor : Descriptor :=
  mkDescriptor (mkOutPoint 1%N 0) 1000 [] [] None None None [mkAncestry 2%N 3 0]
    "round-0" 2%N "" None 800000 2147483648 0 0 VTXOStatusLive.

Lemma critical_threshold_wraps :
  expiry_typed DefaultExpiryConfig wrapping_descriptor ∧
  exit_budget DefaultExpiryConfig wrapping_descriptor = 2147483666 ∧
  CalculateCriticalThreshold DefaultExpiryConfig wrapping_descriptor = 36.
Proof.
  split_and!; [|reflexivity|reflexivity].
  split; simpl; try (unfold is_int32, is_uint32, is_int64; lia); [done|].
  repeat constructor; unfold is_uint32; simpl; lia.
Qed.
