(* ===== verification/VtxoForfeit.v ===== *)
(** * Forfeit construction and signing: [vtxo/transitions.go], [vtxo/policy.go],
      [lib/tx/forfeit.go], [lib/arkscript/spend_path.go]

    What a VTXO does when a round asks for its forfeit: choose the spend path,
    build the forfeit transaction, sign the VTXO input, collect and verify the
    signatures of the other participants and assemble the keyed signature list.

    Taproot arithmetic, signature hashes, Schnorr verification and signature
    parsing are third-party code; the policy compiler is the package
    [lib/arkscript].  Both are interfaces here.  The wallet signer and the
    participant signer are callbacks of the environment. *)

From S2P Require Import Prelude RecoveryProof VtxoExpiry.
Local Open Scope Z_scope.

(** ** Data *)

Record SpendInfo := mkSpendInfo {
  WitnessScript : list Z;
  ControlBlock : list Z;
}.

Record SpendPath := mkSpendPath {
  sp_SpendInfo : option SpendInfo;
  RequiredSequence : Z;
  RequiredLockTime : Z;
  Conditions : list (list Z);
}.

(** The [wire.MsgTx] a forfeit is: each input is the outpoint it spends and its
    sequence number. *)
Record ForfeitMsgTx := mkForfeitMsgTx {
  Version : Z;
  LockTime : Z;
  f_TxIn : list (OutPoint * Z);
  f_TxOut : list TxOut;
}.

#[export] Instance ForfeitMsgTx_eq_dec : EqDecision ForfeitMsgTx.
Proof. solve_decision. Defined.

(** A parsed Schnorr signature and a raw one, by their bytes. *)
Abbreviation Signature := (list Z).

Record ForfeitParticipantSig := mkParticipantSig {
  ps_PubKey : option PublicKey;
  ps_Signature : option Signature;
}.

Record ForfeitRequestEvt := mkForfeitRequestEvt {
  fr_RoundID : string;
  ConnectorOutpoint : OutPoint;
  ConnectorPkScript : list Z;
  ConnectorAmount : Z;
  ServerForfeitPkScript : list Z;
  ForfeitSpend : option SpendPath;
}.

Record ForfeitParticipantSignRequest := mkSignRequest {
  sr_VTXO : Descriptor;
  sr_SpendPath : SpendPath;
  sr_ForfeitTx : ForfeitMsgTx;
  sr_ConnectorOutpoint : OutPoint;
  sr_ConnectorPkScript : list Z;
  sr_ConnectorAmount : Z;
  sr_ServerForfeitPkScript : list Z;
}.

(** The sign descriptor of an input: the key, the leaf, and the two outputs the
    transaction spends. *)
Record SignDescriptor := mkSignDescriptor {
  sd_Key : option PublicKey;
  sd_SpendPath : SpendPath;
  sd_InputIndex : Z;
  sd_PrevOuts : list (OutPoint * TxOut);
}.

(** Third-party functions. *)
Class Txscript := {
  control_block : Type;
  ParseControlBlock : list Z → result error control_block;
  InternalKey : control_block → PublicKey;
  RootHash : control_block → list Z → Hash;
  ComputeTaprootOutputKey : PublicKey → Hash → PublicKey;
  PayToTaprootScript : PublicKey → result error (list Z);
  ARKNUMSKey : PublicKey;
  CalcTapscriptSignaturehash :
    ForfeitMsgTx → Z → list (OutPoint * TxOut) → list Z → result error (list Z);
  Verify : Signature → list Z → PublicKey → bool;
  ParseSignature : list Z → result error Signature;
  ForfeitTxHash : ForfeitMsgTx → Hash;
}.

Record StandardVTXOParams := mkStandardVTXOParams {
  OwnerKey : PublicKey;
  sp_OperatorKey : PublicKey;
  ExitDelay : Z;
}.

(** The policy compiler of [lib/arkscript]. *)
Class Arkscript := {
  template : Type;
  arkDecodePolicyTemplate : list Z → result error template;
  template_PkScript : template → result error (list Z);
  compose_PkScript : template → Hash → result error (list Z);
  DecodeStandardVTXOParams : template → result error StandardVTXOParams;
  EncodeStandardVTXOTemplate : PublicKey → PublicKey → Z → result error (list Z);
  CollabSpendInfo : option PublicKey → option PublicKey → Z → result error SpendInfo;
}.

(** The environment of the state machine, less the store. *)
Record VTXOEnvironment := mkVTXOEnvironment {
  env_ExpiryConfig : ExpiryConfig;
  Wallet : option (ForfeitMsgTx → SignDescriptor → result error (list Z));
  ForfeitParticipantSigner :
    option (ForfeitParticipantSignRequest →
            result error (list (option ForfeitParticipantSig)));
}.

Definition ErrAssetVTXORequiresTransition : error :=
  "asset VTXO requires an asset-aware transition".

(** ** The forfeit transaction *)

Definition MaxTxInSequenceNum : Z := 4294967295.
Definition forfeitTxVersion : Z := 3.

Definition AnchorOutput : TxOut := mkTxOut 0 AnchorPkScript.

(** The outpoints are non-nil: every caller passes the address of a field. *)
Definition BuildForfeitTxWithContext (vtxoOutpoint : OutPoint) (vtxoAmount : Z)
    (connectorOutpoint : OutPoint) (connectorAmount : Z)
    (serverForfeitScript : list Z) (sequence lockTime : Z) :
    result error ForfeitMsgTx :=
  match serverForfeitScript with
  | [] => Err "server forfeit script cannot be empty"
  | _ =>
      if vtxoAmount <=? 0 then Err "vtxo amount must be positive"
      else if connectorAmount <? 0
      then Err "connector amount must be non-negative"
      else
        let vtxoSequence := if sequence =? 0 then MaxTxInSequenceNum else sequence in
        Ok (mkForfeitMsgTx forfeitTxVersion lockTime
          [(vtxoOutpoint, vtxoSequence); (connectorOutpoint, MaxTxInSequenceNum)]
          [mkTxOut (int64 (vtxoAmount + connectorAmount)) serverForfeitScript;
           AnchorOutput])
  end.

(** ** Spend paths *)

Definition SpendPath_Validate (s : SpendPath) : result error unit :=
  match sp_SpendInfo s with
  | None => Err "spend info must be provided"
  | Some i =>
      match WitnessScript i, ControlBlock i with
      | [], _ => Err "witness script must be provided"
      | _, [] => Err "control block must be provided"
      | _, _ => Ok tt
      end
  end.

(** The promoted field of the embedded [*SpendInfo]; only read where it is
    non-nil. *)
Definition sp_WitnessScript (s : SpendPath) : list Z :=
  match sp_SpendInfo s with Some i => WitnessScript i | None => [] end.
Definition sp_ControlBlock (s : SpendPath) : list Z :=
  match sp_SpendInfo s with Some i => ControlBlock i | None => [] end.

Section forfeit.
Context `{!Txscript, !Arkscript}.

Definition VerifyBindsToPkScript (s : SpendPath) (pkScript : list Z) :
    result error unit :=
  check* SpendPath_Validate s in
  match pkScript with
  | [] => Err "pk script must be provided"
  | _ =>
      let* ctrlBlock := wrap "parse control block: " (ParseControlBlock (sp_ControlBlock s)) in
      if bool_decide (InternalKey ctrlBlock ≠ ARKNUMSKey)
      then Err "control block internal key is not the Ark NUMS point"
      else
        let rootHash := RootHash ctrlBlock (sp_WitnessScript s) in
        let outputKey := ComputeTaprootOutputKey ARKNUMSKey rootHash in
        let* expectedPkScript :=
          wrap "derive p2tr from output key: " (PayToTaprootScript outputKey) in
        if bool_decide (expectedPkScript ≠ pkScript)
        then Err "control block does not commit to declared pkScript"
        else Ok tt
  end.

(** ** Policies *)

Definition EffectivePolicyTemplate (d : Descriptor) : result error (list Z) :=
  match PolicyTemplate d with
  | [] => Err "descriptor policy template must be provided"
  | raw => Ok raw
  end.

Definition DecodePolicyTemplate (d : Descriptor) : result error template :=
  let* raw := EffectivePolicyTemplate d in arkDecodePolicyTemplate raw.

(** [compose_PkScript] is the compilation of the template, its composition with
    the asset root and the resulting taproot script. *)
Definition EffectivePkScript (d : Descriptor) : result error (list Z) :=
  let* t := DecodePolicyTemplate d in
  match TaprootAssetRoot d with
  | None => template_PkScript t
  | Some root => compose_PkScript t root
  end.

Definition DecodeStandardPolicyTemplate (d : Descriptor) :
    result error StandardVTXOParams :=
  let* t := DecodePolicyTemplate d in DecodeStandardVTXOParams t.

(** [errors.Is] tells the unsupported policy apart from every other failure. *)
Inductive refresh_error :=
| ErrRefreshOperatorKeyUnsupported (cause : error)
| RefreshOther (cause : error).

Definition RefreshOutputTemplate (d : Descriptor) (currentOperatorKey : option PublicKey) :
    result refresh_error (list Z) :=
  match currentOperatorKey with
  | None => Err (RefreshOther "current operator key must be provided")
  | Some key =>
      match DecodeStandardPolicyTemplate d with
      | Err e => Err (ErrRefreshOperatorKeyUnsupported e)
      | Ok params =>
          match EncodeStandardVTXOTemplate (OwnerKey params) key (ExitDelay params) with
          | Ok raw => Ok raw
          | Err e => Err (RefreshOther e)
          end
      end
  end.

(** ** Signing *)

Definition resolveForfeitSpendPath (d : Descriptor) (evt : ForfeitRequestEvt) :
    result error SpendPath :=
  match TaprootAssetRoot d with
  | Some _ => Err ErrAssetVTXORequiresTransition
  | None =>
      match ForfeitSpend evt with
      | Some path =>
          check* SpendPath_Validate path in
          let* pkScript := wrap "derive VTXO pkScript: " (EffectivePkScript d) in
          if bool_decide (pkScript ≠ d_PkScript d)
          then Err "stored VTXO pkScript does not match its policy"
          else
            check* wrap "forfeit spend path does not bind to VTXO pkScript: "
              (VerifyBindsToPkScript path pkScript) in
            Ok path
      | None =>
          let* spendInfo :=
            CollabSpendInfo (ClientKey d) (OperatorKey d) (RelativeExpiry d) in
          Ok (mkSpendPath (Some spendInfo) 0 0 [])
      end
  end.

(** The outputs of the two inputs, as [NewForfeitPrevOutFetcher] maps them. *)
Definition forfeit_prevouts (d : Descriptor) (connector : OutPoint)
    (connectorPkScript : list Z) (connectorAmount : Z) : list (OutPoint * TxOut) :=
  [(Outpoint d, mkTxOut (Amount d) (d_PkScript d));
   (connector, mkTxOut connectorAmount connectorPkScript)].

(** [resolveForfeitSpendPath] only returns paths that carry spend info, so the
    sign descriptor always exists. *)
Definition signForfeitVTXOInput (d : Descriptor) (path : SpendPath)
    (evt : ForfeitRequestEvt) (tx : ForfeitMsgTx) (env : VTXOEnvironment) :
    result error Signature :=
  match Wallet env with
  | None => Err "wallet is required for signing"
  | Some sign =>
      match sp_SpendInfo path with
      | None => Err "sign descriptor: missing spend path"
      | Some _ =>
          let* raw := wrap "failed to sign: "
            (sign tx (mkSignDescriptor (ClientKey d) path 0
              (forfeit_prevouts d (ConnectorOutpoint evt) (ConnectorPkScript evt)
                (ConnectorAmount evt)))) in
          wrap "parse schnorr signature: " (ParseSignature raw)
      end
  end.

Definition forfeitParticipantSigHash (req : ForfeitParticipantSignRequest) :
    result error (list Z) :=
  CalcTapscriptSignaturehash (sr_ForfeitTx req) 0
    (forfeit_prevouts (sr_VTXO req) (sr_ConnectorOutpoint req)
      (sr_ConnectorPkScript req) (sr_ConnectorAmount req))
    (sp_WitnessScript (sr_SpendPath req)).

Definition verify_participant (sighash : list Z) (sig : option ForfeitParticipantSig) :
    result error unit :=
  match sig with
  | None => Err "participant signature is required"
  | Some s =>
      match ps_PubKey s, ps_Signature s with
      | None, _ => Err "participant pubkey is required"
      | _, None => Err "participant schnorr signature is required"
      | Some k, Some sg =>
          if Verify sg sighash k then Ok tt else Err "invalid participant signature"
      end
  end.

Definition verifyForfeitParticipantSignatures (req : ForfeitParticipantSignRequest)
    (sigs : list (option ForfeitParticipantSig)) : result error unit :=
  match sigs with
  | [] => Ok tt
  | _ =>
      let* sighash := forfeitParticipantSigHash req in
      for_each (verify_participant sighash) sigs
  end.

Definition externalForfeitParticipantSigs (d : Descriptor) (path : SpendPath)
    (evt : ForfeitRequestEvt) (tx : ForfeitMsgTx) (env : VTXOEnvironment) :
    result error (list (option ForfeitParticipantSig)) :=
  match ForfeitParticipantSigner env, ForfeitSpend evt with
  | Some signer, Some _ =>
      let req := mkSignRequest d path tx (ConnectorOutpoint evt)
        (ConnectorPkScript evt) (ConnectorAmount evt) (ServerForfeitPkScript evt) in
      let* sigs := signer req in
      check* verifyForfeitParticipantSignatures req sigs in
      Ok sigs
  | _, _ => Ok []
  end.

(** The loop over the external signatures; [seen] holds the key ids, a key id
    being the x-only serialisation of the key. *)
Fixpoint collect_sigs (localPubKey : PublicKey) (seen : gset PublicKey)
    (acc : list ForfeitParticipantSig) (externalSigs : list (option ForfeitParticipantSig)) :
    result error (gset PublicKey * list ForfeitParticipantSig) :=
  match externalSigs with
  | [] => Ok (seen, acc)
  | None :: _ => Err "participant signature is required"
  | Some sig :: rest =>
      match ps_PubKey sig, ps_Signature sig with
      | None, _ => Err "participant pubkey is required"
      | _, None => Err "participant schnorr signature is required"
      | Some keyID, Some _ =>
          if bool_decide (keyID ∈ seen) then Err "duplicate participant signature"
          else if bool_decide (keyID = localPubKey)
          then Err "external signature uses local pubkey"
          else collect_sigs localPubKey ({[keyID]} ∪ seen) (acc ++ [sig]) rest
      end
  end.

Definition participantForfeitSigs (localPubKey : option PublicKey)
    (localSig : option Signature) (customSpend : bool)
    (externalSigs : list (option ForfeitParticipantSig)) :
    result error (list ForfeitParticipantSig) :=
  let needsParticipantSigs := customSpend || negb (bool_decide (externalSigs = [])) in
  if negb needsParticipantSigs then Ok []
  else
    match localPubKey, localSig with
    | None, _ => Err "local participant pubkey is required"
    | _, None => Err "local participant signature is required"
    | Some key, Some sig =>
        let* collected := collect_sigs key ∅ [] externalSigs in
        let '(seen, participantSigs) := collected in
        if bool_decide (key ∈ seen) then Err "duplicate local participant signature"
        else Ok (participantSigs ++ [mkParticipantSig (Some key) (Some sig)])
    end.

(** Everything a forfeit submission carries besides the outpoint. *)
Record signed_forfeit := mkSignedForfeit {
  sf_SpendPath : SpendPath;
  sf_Tx : ForfeitMsgTx;
  sf_Sig : Signature;
  sf_ParticipantSigs : list ForfeitParticipantSig;
}.

(** The common body of the two [ForfeitRequestEvent] handlers, which differ only
    in the texts of their errors. *)
Definition sign_forfeit (d : Descriptor) (evt : ForfeitRequestEvt)
    (env : VTXOEnvironment) : result error signed_forfeit :=
  let* path := wrap "resolve forfeit spend path: " (resolveForfeitSpendPath d evt) in
  let* tx := wrap "build forfeit tx: "
    (BuildForfeitTxWithContext (Outpoint d) (Amount d) (ConnectorOutpoint evt)
      (ConnectorAmount evt) (ServerForfeitPkScript evt) (RequiredSequence path)
      (RequiredLockTime path)) in
  let* sig := wrap "sign forfeit tx: " (signForfeitVTXOInput d path evt tx env) in
  let* externalSigs := wrap "external participant signatures: "
    (externalForfeitParticipantSigs d path evt tx env) in
  let* participantSigs := wrap "participant forfeit signatures: "
    (participantForfeitSigs (ClientKey d) (Some sig)
      (negb (bool_decide (ForfeitSpend evt = None))) externalSigs) in
  Ok (mkSignedForfeit path tx sig participantSigs).

End forfeit.

(** ** Properties *)

(** A participant signature with both pointers set. *)
Definition complete_sig (s : ForfeitParticipantSig) : Prop :=
  is_Some (ps_PubKey s) ∧ is_Some (ps_Signature s).

Definition sig_keys (l : list ForfeitParticipantSig) : list PublicKey :=
  omap ps_PubKey l.

Lemma collect_sigs_ok key ext : ∀ seen acc r,
  collect_sigs key seen acc ext = Ok r ↔
  ∃ es, ext = Some <$> es ∧ Forall complete_sig es ∧
    NoDup (sig_keys es) ∧ key ∉ sig_keys es ∧
    (∀ k, k ∈ sig_keys es → k ∉ seen) ∧
    r = (list_to_set (sig_keys es) ∪ seen, acc ++ es).
Proof.
  induction ext as [|[s|] ext IH]; intros seen acc r; simpl.
  - split.
    + intros [= <-]. exists []. split_and!; try done; try (by constructor).
      * apply not_elem_of_nil.
      * by intros k Hk%not_elem_of_nil.
      * simpl. rewrite app_nil_r. f_equal. set_solver.
    + intros ([|e es] & He & _ & _ & _ & _ & ->); [|done].
      rewrite app_nil_r. do 2 f_equal. set_solver.
  - destruct (ps_PubKey s) as [k|] eqn:Hk; [|split; [done|]].
    2:{ intros ([|e es] & [= -> ->] & Hc & _). inversion Hc as [|?? [[? Hk'] _]]; congruence. }
    destruct (ps_Signature s) as [g|] eqn:Hg; [|split; [done|]].
    2:{ intros ([|e es] & [= -> ->] & Hc & _). inversion Hc as [|?? [_ [? Hg']]]; congruence. }
    assert (∀ es, sig_keys (s :: es) = k :: sig_keys es) as Hsk
      by (intros; unfold sig_keys; simpl; by rewrite Hk).
    case_bool_decide as Hin; [split; [done|]|].
    { intros ([|e es] & [= -> ->] & _ & _ & _ & Hs & _).
      rewrite Hsk in Hs. by destruct (Hs k); [constructor|]. }
    case_bool_decide as Hloc; [split; [done|]|].
    { intros ([|e es] & [= -> ->] & _ & _ & Hl & _).
      rewrite Hsk in Hl. subst k. destruct Hl. constructor. }
    rewrite IH. split.
    + intros (es & -> & Hc & Hnd & Hl & Hs & ->). exists (s :: es).
      rewrite Hsk. split_and!.
      * done.
      * constructor; [split; eauto|done].
      * constructor; [|done]. intros Hk'. apply Hs in Hk'. set_solver.
      * set_solver.
      * intros k' [->|Hk']%elem_of_cons; [done|]. apply Hs in Hk'. set_solver.
      * rewrite <- app_assoc. simpl. f_equal. set_solver.
    + intros ([|e es] & [= -> ->] & Hc & Hnd & Hl & Hs & ->).
      rewrite Hsk in *. inversion Hc; subst. inversion Hnd; subst.
      exists es. split_and!; try done.
      * set_solver.
      * intros k' Hk'. assert (k' ∉ seen) by (apply Hs; by constructor).
        intros [->%elem_of_singleton|]%elem_of_union; done.
      * rewrite <- app_assoc. simpl. f_equal. set_solver.
  - split; [done|]. by intros ([|e es] & ? & _).
Qed.

(** The keyed signatures of a forfeit are assembled exactly when they are
    needed and consistent: without a custom spend path and external signatures
    the list is empty; otherwise it succeeds if and only if the local key and
    signature exist, every external signature is complete, and no two of the
    keys, the local one included, coincide, and then it is the external
    signatures in order followed by the local one.  Everything else is an
    error. *)
Theorem participantForfeitSigs_exact localPubKey localSig customSpend ext sigs :
  participantForfeitSigs localPubKey localSig customSpend ext = Ok sigs ↔
  (customSpend = false ∧ ext = [] ∧ sigs = []) ∨
  ((customSpend = true ∨ ext ≠ []) ∧
   ∃ key sig es, localPubKey = Some key ∧ localSig = Some sig ∧
     ext = Some <$> es ∧ Forall complete_sig es ∧
     NoDup (key :: sig_keys es) ∧
     sigs = es ++ [mkParticipantSig (Some key) (Some sig)]).
Proof.
  unfold participantForfeitSigs. cbv zeta.
  destruct (decide (customSpend = false ∧ ext = [])) as [[-> ->]|Hn].
  { rewrite bool_decide_true by done. simpl. naive_solver. }
  assert (customSpend || negb (bool_decide (ext = [])) = true) as ->.
  { destruct customSpend; [done|]. rewrite bool_decide_false; naive_solver. }
  simpl. destruct localPubKey as [key|]; [|naive_solver].
  destruct localSig as [sig|]; [|naive_solver].
  assert (customSpend = true ∨ ext ≠ []) as Hneed
    by (destruct customSpend; naive_solver).
  destruct (collect_sigs key ∅ [] ext) as [[seen ps]|e] eqn:E.
  - pose proof (proj1 (collect_sigs_ok _ _ _ _ _) E) as
      (es & He & Hc & Hnd & Hl & _ & [= -> ->]).
    rewrite bool_decide_false by set_solver. split.
    + intros [= <-]. right. split; [done|]. exists key, sig, es.
      split_and!; try done. by constructor.
    + intros [(? & ? & _)|(_ & key' & sig' & es' & [= <-] & [= <-] & He' & _ & _ & ->)];
        [naive_solver|].
      rewrite He in He'. apply (inj (fmap Some)) in He' as ->. done.
  - split; [done|].
    intros [(? & ? & _)|(_ & key' & sig' & es & [= <-] & [= <-] & -> & Hc & Hnd & ->)];
      [naive_solver|].
    inversion Hnd; subst.
    assert (collect_sigs key ∅ [] (Some <$> es) =
      Ok (list_to_set (sig_keys es) ∪ ∅, [] ++ es)); [|congruence].
    apply collect_sigs_ok. exists es. set_solver.
Qed.

Lemma BuildForfeitTx_ok op amt cop camt script sequence lock tx :
  BuildForfeitTxWithContext op amt cop camt script sequence lock = Ok tx →
  script ≠ [] ∧ 0 < amt ∧ 0 ≤ camt ∧
  tx = mkForfeitMsgTx forfeitTxVersion lock
    [(op, if sequence =? 0 then MaxTxInSequenceNum else sequence);
     (cop, MaxTxInSequenceNum)]
    [mkTxOut (int64 (amt + camt)) script; AnchorOutput].
Proof.
  unfold BuildForfeitTxWithContext. destruct script; [done|].
  destruct (Z.leb_spec amt 0); [done|]. destruct (Z.ltb_spec camt 0); [done|].
  intros [= <-]. done.
Qed.

Section forfeit_properties.
Context `{!Txscript, !Arkscript}.

(** The leaf, the control block and the NUMS key commit to this script. *)
Definition binds_to (path : SpendPath) (pkScript : list Z) : Prop :=
  ∃ cb, ParseControlBlock (sp_ControlBlock path) = Ok cb ∧ InternalKey cb = ARKNUMSKey ∧
    PayToTaprootScript (ComputeTaprootOutputKey ARKNUMSKey
      (RootHash cb (sp_WitnessScript path))) = Ok pkScript.

Lemma VerifyBindsToPkScript_ok path pk :
  VerifyBindsToPkScript path pk = Ok tt → binds_to path pk.
Proof.
  unfold VerifyBindsToPkScript. destruct (SpendPath_Validate path); [|done].
  destruct pk as [|z pk]; [done|].
  destruct (ParseControlBlock (sp_ControlBlock path)) as [cb|] eqn:Hcb; [|done]. simpl.
  case_bool_decide as Hk; [done|].
  destruct (PayToTaprootScript _) as [s|] eqn:Hp; [|done]. simpl.
  case_bool_decide as Hs; [done|]. intros _.
  subst s. by exists cb.
Qed.

Lemma resolve_ok d evt path :
  resolveForfeitSpendPath d evt = Ok path →
  TaprootAssetRoot d = None ∧
  (∀ p, ForfeitSpend evt = Some p → path = p ∧ binds_to p (d_PkScript d)).
Proof.
  unfold resolveForfeitSpendPath. destruct (TaprootAssetRoot d); [done|].
  intros Hr. split; [done|]. intros p Hp. rewrite Hp in Hr.
  destruct (SpendPath_Validate p); [|done].
  destruct (EffectivePkScript d) as [pk|]; [|done]. simpl in Hr.
  case_bool_decide as Hpk; [done|]. subst pk.
  destruct (VerifyBindsToPkScript p (d_PkScript d)) as [[]|] eqn:Hv; [|done].
  simpl in Hr. injection Hr as <-. split; [done|]. by apply VerifyBindsToPkScript_ok.
Qed.

Lemma external_ok d path evt tx env sigs :
  externalForfeitParticipantSigs d path evt tx env = Ok sigs →
  ∀ s, Some s ∈ sigs → ∃ k sg sighash,
    ps_PubKey s = Some k ∧ ps_Signature s = Some sg ∧
    CalcTapscriptSignaturehash tx 0
      (forfeit_prevouts d (ConnectorOutpoint evt) (ConnectorPkScript evt)
        (ConnectorAmount evt)) (sp_WitnessScript path) = Ok sighash ∧
    Verify sg sighash k = true.
Proof.
  unfold externalForfeitParticipantSigs.
  destruct (ForfeitParticipantSigner env) as [signer|];
    [|by intros [= <-] x Hx%not_elem_of_nil].
  destruct (ForfeitSpend evt); [|by intros [= <-] x Hx%not_elem_of_nil].
  cbv zeta. destruct (signer _) as [sg|] eqn:Hsg; [|done].
  destruct (verifyForfeitParticipantSignatures _ sg) as [[]|] eqn:Hv; [|done].
  intros [= <-] x Hin. unfold verifyForfeitParticipantSignatures in Hv.
  destruct sg as [|s0 sg]; [by apply not_elem_of_nil in Hin|].
  destruct (forfeitParticipantSigHash _) as [h|] eqn:Hh; [|done].
  rewrite for_each_ok in Hv. specialize (Hv _ Hin). unfold verify_participant in Hv.
  destruct (ps_PubKey x) as [k|]; [|done]. destruct (ps_Signature x) as [g|]; [|done].
  destruct (Verify g h k) eqn:HV; [|done]. by exists k, g, h.
Qed.

(** C29 A forfeit is only ever signed for what it should be: the VTXO carries no
    asset, the signed transaction has exactly the VTXO and the connector of the
    request as inputs and pays their whole value to the operator's forfeit
    script beside a zero-value anchor, a custom spend path is the one the
    request named and commits to the script this VTXO locks, and every keyed
    signature besides the client's own verifies for that very transaction. *)
Theorem sign_forfeit_sound d evt env sf :
  sign_forfeit d evt env = Ok sf →
  is_int64 (Amount d + ConnectorAmount evt) →
  TaprootAssetRoot d = None ∧
  (f_TxIn (sf_Tx sf)).*1 = [Outpoint d; ConnectorOutpoint evt] ∧
  f_TxOut (sf_Tx sf) =
    [mkTxOut (Amount d + ConnectorAmount evt) (ServerForfeitPkScript evt); AnchorOutput] ∧
  (∀ p, ForfeitSpend evt = Some p →
    sf_SpendPath sf = p ∧ binds_to p (d_PkScript d)) ∧
  (∀ s, s ∈ sf_ParticipantSigs sf → ∃ k sg, ps_PubKey s = Some k ∧
    ps_Signature s = Some sg ∧
    (Some k = ClientKey d ∧ sg = sf_Sig sf ∨
     ∃ sighash, CalcTapscriptSignaturehash (sf_Tx sf) 0
       (forfeit_prevouts d (ConnectorOutpoint evt) (ConnectorPkScript evt)
         (ConnectorAmount evt)) (sp_WitnessScript (sf_SpendPath sf)) = Ok sighash ∧
       Verify sg sighash k = true)).
Proof.
  unfold sign_forfeit. intros Hsf Hrange. inv_ok.
  repeat match goal with H : wrap _ _ = Ok _ |- _ => apply wrap_ok in H end. simpl.
  pose proof (resolve_ok _ _ _ E) as [Hasset Hpath].
  apply BuildForfeitTx_ok in E0 as (_ & _ & _ & ->). simpl in *.
  rewrite int64_id by done. split_and!; try done.
  intros s Hs. apply participantForfeitSigs_exact in E3
    as [(_ & _ & ->)|(_ & key & sig & es & Hkey & [= <-] & -> & _ & _ & ->)];
    [by apply not_elem_of_nil in Hs|].
  apply elem_of_app in Hs as [Hs| ->%list_elem_of_singleton].
  - destruct (external_ok _ _ _ _ _ _ E2 s) as (k & sg & h & ? & ? & ? & ?).
    { by apply list_elem_of_fmap_2. }
    exists k, sg. rewrite int64_id in * by done. naive_solver.
  - exists key, a1. naive_solver.
Qed.

End forfeit_properties.

(** A concrete chain library and policy compiler: every signature verifies
    except the empty one. *)
Module ForfeitDemo.

Definition demo_script : Txscript := {|
  control_block := unit;
  ParseControlBlock _ := Ok tt;
  InternalKey _ := 0%N;
  RootHash _ _ := 0%N;
  ComputeTaprootOutputKey _ _ := 0%N;
  PayToTaprootScript _ := Ok [1];
  ARKNUMSKey := 0%N;
  CalcTapscriptSignaturehash _ _ _ _ := Ok [7];
  Verify sig _ _ := negb (bool_decide (sig = []));
  ParseSignature raw := Ok raw;
  ForfeitTxHash _ := 9%N;
|}.

Definition demo_policy : Arkscript := {|
  template := unit;
  arkDecodePolicyTemplate _ := Ok tt;
  template_PkScript _ := Ok [1];
  compose_PkScript _ _ := Ok [1];
  DecodeStandardVTXOParams _ := Ok (mkStandardVTXOParams 1%N 2%N 20);
  EncodeStandardVTXOTemplate _ _ _ := Ok [5];
  CollabSpendInfo _ _ _ := Ok (mkSpendInfo [1] [2]);
|}.

(** A custom spend path, and a second participant that signs it. *)
Definition custom_request : ForfeitRequestEvt :=
  mkForfeitRequestEvt "round-1" (mkOutPoint 5%N 1) [2] 330 [3]
    (Some (mkSpendPath (Some (mkSpendInfo [1] [2])) 0 0 [])).

Definition demo_env : VTXOEnvironment :=
  mkVTXOEnvironment DefaultExpiryConfig (Some (λ _ _, Ok [8]))
    (Some (λ _, Ok [Some (mkParticipantSig (Some 4%N) (Some [6]))])).

Definition demo_signed : signed_forfeit :=
  match @sign_forfeit demo_script demo_policy sample_vtxo custom_request demo_env with
  | Ok sf => sf
  | Err _ => mkSignedForfeit (mkSpendPath None 0 0 []) (mkForfeitMsgTx 0 0 [] []) [] []
  end.

End ForfeitDemo.

Import ForfeitDemo.

Lemma sign_forfeit_sound_witness :
  length (sf_ParticipantSigs demo_signed) = 2%nat ∧
  f_TxOut (sf_Tx demo_signed) = [mkTxOut 50330 [3]; AnchorOutput].
Proof.
  split; [vm_compute; reflexivity|].
  pose proof (@sign_forfeit_sound demo_script demo_policy sample_vtxo custom_request
    demo_env demo_signed) as H.
  apply H.
  - vm_compute. reflexivity.
  - unfold is_int64. simpl. lia.
Defined.
