(* ===== verification/VtxoFsm.v ===== *)
(** * The VTXO state machine: [vtxo/states.go], [vtxo/events.go],
      [vtxo/outbox_messages.go], [vtxo/transitions.go]

    The nine states of one VTXO and their [ProcessEvent] methods.  A method
    receives its state by pointer and some of them advance the height field of
    the receiver before they decide, so a [ProcessEvent] returns the receiver
    after the call together with the transition or the error; a transition to
    the receiver itself returns that updated receiver.  Events are non-nil
    pointers to the event structs. *)

From S2P Require Import Prelude RecoveryProof VtxoExpiry VtxoForfeit.
Local Open Scope Z_scope.

(** ** Data *)

Inductive VTXOState :=
| LiveState (VTXO : Descriptor) (LastCheckedHeight : Z)
| PendingForfeitState (VTXO : Descriptor) (RequestedAtHeight : Z)
| SpendingState (VTXO : Descriptor) (LastCheckedHeight : Z)
| SpentState (VTXO : Descriptor)
| ForfeitingState (VTXO : Descriptor) (LastCheckedHeight : Z) (NewRoundID : string)
    (ConnectorOutpoint : OutPoint) (ForfeitTxID : Hash) (ForfeitTx : option ForfeitMsgTx)
| ForfeitedState (VTXO : Descriptor) (NewRoundID : string) (CommitmentTxID : Hash)
| UnilateralExitState (VTXO : Descriptor) (Reason : string) (LastCheckedHeight : Z)
| FailedState (VTXO : Descriptor) (Reason : string) (Error : option error)
    (Recoverable : bool)
| ExpiredState (VTXO : Descriptor) (ObservedHeight : Z).

Definition state_VTXO (s : VTXOState) : Descriptor :=
  match s with
  | LiveState d _ | PendingForfeitState d _ | SpendingState d _ | SpentState d
  | ForfeitingState d _ _ _ _ _ | ForfeitedState d _ _ | UnilateralExitState d _ _
  | FailedState d _ _ _ | ExpiredState d _ => d
  end.

Definition IsTerminal (s : VTXOState) : bool :=
  match s with
  | SpentState _ | ForfeitedState _ _ _ | FailedState _ _ _ _ => true
  | _ => false
  end.

(** The trigger and the exit policy of a forced exit; the empty trigger is
    critical expiry. *)
Abbreviation UnrollTrigger := string.
Definition UnrollTriggerCriticalExpiry : UnrollTrigger := "".
Definition UnrollTriggerManual : UnrollTrigger := "manual".
Definition UnrollTriggerFraudSpend : UnrollTrigger := "fraud_spend".

Record ExitPolicy := mkExitPolicy { ep_Kind : string; ep_Ref : string }.

Inductive VTXOEvent :=
| BlockEpochEvent (Height : Z)
| criticalRefreshEvent (Height : Z)
| CohortRefreshEvent (Height BatchExpiry : Z) (LeaderOutpoint : OutPoint)
    (Generation : Z) (OperatorKey : option PublicKey)
| CohortRefreshReleaseEvent (LeaderOutpoint : OutPoint) (Generation : Z)
| SpendReserveEvent
| SpendReleasedEvent
| SpendCompletedEvent
| PendingForfeitEvent
| ForfeitRequestEvent (request : ForfeitRequestEvt)
| ForfeitSignedEvent (ForfeitTxID : Hash)
| ForfeitConfirmedEvent (CommitmentTxID : Hash)
| ForfeitReleasedEvent (RoundID : string)
| ResumeVTXOEvent
| ForceUnrollEvent (Reason : string) (Trigger : UnrollTrigger)
    (Policy : option ExitPolicy)
| ExitFailedEvent (Reason : string)
| ExitConfirmedEvent
| ExitConflictedEvent (Reason : string)
| VTXOFailedEvent (Reason : string) (Error : option error) (Recoverable : bool).

Record StatusUpdate := mkStatusUpdate {
  su_Outpoint : OutPoint;
  NewStatus : VTXOStatus;
  su_RoundID : string;
  su_ForfeitTx : option ForfeitMsgTx;
  ReleaseSpendReservation : bool;
}.

Inductive VTXOOutMsg :=
| ForfeitRequest (VTXOOutpoint : OutPoint) (LastCheckedHeight : Z)
    (ExpandCohort CohortMember : bool)
| ExpiringNotification (VTXO : Descriptor) (BlocksRemaining : Z) (Reason : string)
    (Trigger : UnrollTrigger) (Policy : option ExitPolicy)
| ForfeitSignatureSubmission (VTXOOutpoint : OutPoint) (RoundID : string)
    (forfeit : signed_forfeit)
| VTXOStatusUpdate (update : StatusUpdate)
| VTXOTerminatedNotification (VTXOOutpoint : OutPoint) (FinalState Reason : string).

Record VTXOStateTransition := mkTransition {
  NextState : VTXOState;
  Outbox : list VTXOOutMsg;
}.

(** The receiver after the call, and what the call returned. *)
Abbreviation processed := (VTXOState * result error VTXOStateTransition)%type.

Definition stay (s : VTXOState) : processed := (s, Ok (mkTransition s [])).
Definition refuse (s : VTXOState) (e : error) : processed := (s, Err e).
Definition enter (s next : VTXOState) (outbox : list VTXOOutMsg) : processed :=
  (s, Ok (mkTransition next outbox)).

(** A [VTXOStatusUpdate] with only the outpoint and the status set, and one that
    also drops the spending reservation. *)
Definition status_update (d : Descriptor) (st : VTXOStatus) : VTXOOutMsg :=
  VTXOStatusUpdate (mkStatusUpdate (Outpoint d) st "" None false).
Definition status_update_releasing (d : Descriptor) (st : VTXOStatus) : VTXOOutMsg :=
  VTXOStatusUpdate (mkStatusUpdate (Outpoint d) st "" None true).

Definition ErrForfeitInFlight : error := "vtxo is already committed to a round".
Definition ErrForfeitReleaseRoundMismatch : error :=
  "forfeit release names a round that does not hold the reservation".

(** The reason of a forced exit: the one of the event, or a default. *)
Definition reason_or (reason fallback : string) : string :=
  if bool_decide (reason = EmptyString) then fallback else reason.

Section machine.
Context `{!Txscript, !Arkscript}.

(** ** Release *)

Definition stateAfterForfeitRelease (cfg : ExpiryConfig) (d : Descriptor)
    (lastHeight : Z) : VTXOState :=
  let expired := (lastHeight >? 0) &&
    bool_decide (CheckExpiry cfg d lastHeight = ExpiryStatusExpired) in
  if negb expired then LiveState d lastHeight else ExpiredState d lastHeight.

Definition release_status (next : VTXOState) : VTXOStatus :=
  match next with ExpiredState _ _ => VTXOStatusExpired | _ => VTXOStatusLive end.

Definition forfeitReleaseTransition (s next : VTXOState) (d : Descriptor) : processed :=
  enter s next [status_update d (release_status next)].

(** ** Live *)

Definition autoRefreshTransition (d : Descriptor) (last height : Z)
    (cohortMember : bool) (env : VTXOEnvironment) : processed :=
  if negb (canAutoRefresh (env_ExpiryConfig env) d height) then stay (LiveState d last)
  else enter (LiveState d last) (PendingForfeitState d height)
    [ForfeitRequest (Outpoint d) height (negb cohortMember) cohortMember;
     status_update d VTXOStatusPendingForfeit].

Definition Live_handleCohortRefresh (d : Descriptor) (last height expiry : Z)
    (env : VTXOEnvironment) : processed :=
  if (expiry <=? 0) || negb (BatchExpiry d =? expiry) then stay (LiveState d last)
  else
    match CheckExpiry (env_ExpiryConfig env) d height with
    | ExpiryStatusSafe | ExpiryStatusNeedsRefresh =>
        autoRefreshTransition d height height true env
    | _ => stay (LiveState d last)
    end.

Definition Live_handlePendingForfeit (d : Descriptor) (last : Z) : processed :=
  match TaprootAssetRoot d with
  | Some _ => refuse (LiveState d last) ErrAssetVTXORequiresTransition
  | None => enter (LiveState d last) (PendingForfeitState d 0)
              [status_update d VTXOStatusPendingForfeit]
  end.

Definition Live_handleSpendReserve (d : Descriptor) (last : Z) : processed :=
  match TaprootAssetRoot d with
  | Some _ => refuse (LiveState d last) ErrAssetVTXORequiresTransition
  | None => enter (LiveState d last) (SpendingState d last)
              [status_update d VTXOStatusSpending]
  end.

Definition Live_handleForceUnroll (d : Descriptor) (last : Z) (reason : string)
    (trigger : UnrollTrigger) (policy : option ExitPolicy) : processed :=
  let reason := reason_or reason "manual unroll" in
  enter (LiveState d last) (UnilateralExitState d reason last)
    [ExpiringNotification d 0 reason trigger policy;
     status_update d VTXOStatusUnilateralExit].

Definition Live_handleBlockEpoch (d : Descriptor) (height : Z)
    (env : VTXOEnvironment) : processed :=
  let s := LiveState d height in
  match CheckExpiry (env_ExpiryConfig env) d height with
  | ExpiryStatusSafe | ExpiryStatusUnknown => stay s
  | ExpiryStatusNeedsRefresh => autoRefreshTransition d height height false env
  | ExpiryStatusCritical =>
      let blocksRemaining := BlocksUntilExpiry d height in
      enter s
        (UnilateralExitState d ("critical expiry: " +:+ pretty blocksRemaining +:+
           " blocks remaining") height)
        [ExpiringNotification d blocksRemaining "batch expiry imminent" "" None;
         status_update d VTXOStatusUnilateralExit]
  | ExpiryStatusExpired =>
      enter s (ExpiredState d height) [status_update d VTXOStatusExpired]
  end.

(** The successful end of a [ForfeitRequestEvent]. *)
Definition enter_forfeiting (s : VTXOState) (d : Descriptor) (last : Z)
    (evt : ForfeitRequestEvt) (sf : signed_forfeit) : processed :=
  enter s
    (ForfeitingState d last (fr_RoundID evt) (ConnectorOutpoint evt)
      (ForfeitTxHash (sf_Tx sf)) (Some (sf_Tx sf)))
    [ForfeitSignatureSubmission (Outpoint d) (fr_RoundID evt) sf;
     VTXOStatusUpdate (mkStatusUpdate (Outpoint d) VTXOStatusForfeiting
       (fr_RoundID evt) (Some (sf_Tx sf)) false)].

Definition Live_handleForfeitRequest (s : VTXOState) (d : Descriptor) (last : Z)
    (evt : ForfeitRequestEvt) (env : VTXOEnvironment) : processed :=
  match TaprootAssetRoot d with
  | Some _ => refuse s ErrAssetVTXORequiresTransition
  | None =>
      match sign_forfeit d evt env with
      | Err e => refuse s e
      | Ok sf => enter_forfeiting s d last evt sf
      end
  end.

Definition Live_ProcessEvent (d : Descriptor) (last : Z) (event : VTXOEvent)
    (env : VTXOEnvironment) : processed :=
  let s := LiveState d last in
  match event with
  | BlockEpochEvent h => Live_handleBlockEpoch d h env
  | criticalRefreshEvent h => autoRefreshTransition d h h false env
  | CohortRefreshEvent h expiry _ _ _ => Live_handleCohortRefresh d last h expiry env
  | SpendReserveEvent => Live_handleSpendReserve d last
  | PendingForfeitEvent => Live_handlePendingForfeit d last
  | ForfeitRequestEvent evt => Live_handleForfeitRequest s d last evt env
  | ResumeVTXOEvent => stay s
  | ForceUnrollEvent reason trigger policy =>
      Live_handleForceUnroll d last reason trigger policy
  | ExitFailedEvent _ | ExitConfirmedEvent | ExitConflictedEvent _ => stay s
  | VTXOFailedEvent reason err rec => enter s (FailedState d reason err rec) []
  | _ => refuse s "live: unexpected event"
  end.

(** ** Pending forfeit *)

Definition Pending_handleBlockEpoch (d : Descriptor) (req height : Z)
    (env : VTXOEnvironment) : processed :=
  let s := PendingForfeitState d req in
  if bool_decide (CheckExpiry (env_ExpiryConfig env) d height ≠ ExpiryStatusCritical)
  then stay s
  else enter s (UnilateralExitState d "critical expiry pending forfeit" height)
    [ExpiringNotification d (BlocksUntilExpiry d height) "forfeit timeout" "" None;
     status_update d VTXOStatusUnilateralExit].

Definition Pending_ProcessEvent (d : Descriptor) (req : Z) (event : VTXOEvent)
    (env : VTXOEnvironment) : processed :=
  let s := PendingForfeitState d req in
  match event with
  | CohortRefreshEvent h expiry _ _ _ =>
      if (req <=? 0) || negb (req =? h) || (expiry <=? 0)
        || negb (BatchExpiry d =? expiry)
      then refuse s "pending_forfeit: automatic cohort adoption does not own reservation"
      else enter s s [ForfeitRequest (Outpoint d) req false true]
  | BlockEpochEvent h => Pending_handleBlockEpoch d req h env
  | criticalRefreshEvent _ => stay s
  | ForceUnrollEvent reason trigger policy =>
      let reason := reason_or reason "manual unroll (pending forfeit)" in
      enter s (UnilateralExitState d reason req)
        [ExpiringNotification d 0 reason trigger policy;
         status_update d VTXOStatusUnilateralExit]
  | ForfeitRequestEvent evt =>
      match sign_forfeit d evt env with
      | Err e => refuse s e
      | Ok sf => enter_forfeiting s d req evt sf
      end
  | PendingForfeitEvent => refuse s ErrForfeitInFlight
  | ForfeitReleasedEvent _ =>
      forfeitReleaseTransition s
        (stateAfterForfeitRelease (env_ExpiryConfig env) d req) d
  | SpendReserveEvent => refuse s "pending_forfeit: cannot reserve for spend"
  | ResumeVTXOEvent => stay s
  | VTXOFailedEvent reason err rec => enter s (FailedState d reason err rec) []
  | _ => refuse s "pending_forfeit: unexpected event"
  end.

(** ** Forfeiting *)

(** The zero hash is the number zero. *)
Definition forfeitSignatureIssued (txid : Hash) (tx : option ForfeitMsgTx) : bool :=
  negb (bool_decide (txid = 0%N)) || negb (bool_decide (tx = None)).

Definition Forfeiting_ProcessEvent (d : Descriptor) (last : Z) (rid : string)
    (connector : OutPoint) (txid : Hash) (tx : option ForfeitMsgTx)
    (event : VTXOEvent) (env : VTXOEnvironment) : processed :=
  let s := ForfeitingState d last rid connector txid tx in
  match event with
  | ForfeitSignedEvent txid' =>
      enter s (ForfeitingState d last rid connector txid' tx) []
  | ForfeitConfirmedEvent commitment =>
      enter s (ForfeitedState d rid commitment)
        [VTXOStatusUpdate (mkStatusUpdate (Outpoint d) VTXOStatusForfeited "" tx false);
         VTXOTerminatedNotification (Outpoint d) "Forfeited"
           ("forfeited in round " +:+ rid)]
  | BlockEpochEvent h =>
      if bool_decide (CheckExpiry (env_ExpiryConfig env) d h = ExpiryStatusCritical)
        && negb (forfeitSignatureIssued txid tx)
      then enter s (UnilateralExitState d "critical expiry" h)
        [ExpiringNotification d (BlocksUntilExpiry d h) "round stalled" "" None;
         status_update d VTXOStatusUnilateralExit]
      else stay s
  | ResumeVTXOEvent => stay s
  | ForceUnrollEvent reason trigger policy =>
      if bool_decide (trigger = UnrollTriggerCriticalExpiry)
        && forfeitSignatureIssued txid tx
      then stay s
      else
        let reason := reason_or reason "manual unroll (forfeiting)" in
        enter s (UnilateralExitState d reason 0)
          [ExpiringNotification d 0 reason trigger policy;
           status_update d VTXOStatusUnilateralExit]
  | ForfeitReleasedEvent r =>
      if bool_decide (r = EmptyString) || negb (bool_decide (r = rid))
      then refuse s ErrForfeitReleaseRoundMismatch
      else forfeitReleaseTransition s
             (stateAfterForfeitRelease (env_ExpiryConfig env) d last) d
  | VTXOFailedEvent reason err rec => enter s (FailedState d reason err rec) []
  | PendingForfeitEvent => refuse s ErrForfeitInFlight
  | _ => refuse s "forfeiting: bad event"
  end.

(** ** Spending *)

Definition Spending_ProcessEvent (d : Descriptor) (last : Z) (event : VTXOEvent)
    (env : VTXOEnvironment) : processed :=
  let s := SpendingState d last in
  match event with
  | SpendCompletedEvent =>
      enter s (SpentState d)
        [status_update_releasing d VTXOStatusSpent;
         VTXOTerminatedNotification (Outpoint d) "Spent" "OOR spend completed"]
  | SpendReleasedEvent =>
      let next := stateAfterForfeitRelease (env_ExpiryConfig env) d last in
      enter s next [status_update_releasing d (release_status next)]
  | BlockEpochEvent h =>
      let s := SpendingState d h in
      if bool_decide (CheckExpiry (env_ExpiryConfig env) d h = ExpiryStatusCritical)
      then enter s (UnilateralExitState d "critical expiry while spending" h)
        [ExpiringNotification d (BlocksUntilExpiry d h) "spend timeout" "" None;
         status_update_releasing d VTXOStatusUnilateralExit]
      else stay s
  | PendingForfeitEvent => refuse s "spending: cannot accept pending forfeit"
  | SpendReserveEvent => refuse s "spending: already reserved for spend"
  | ResumeVTXOEvent => stay s
  | ForceUnrollEvent reason trigger policy =>
      let reason := reason_or reason "manual unroll (spending)" in
      enter s (UnilateralExitState d reason last)
        [ExpiringNotification d 0 reason trigger policy;
         status_update_releasing d VTXOStatusUnilateralExit]
  | VTXOFailedEvent reason err rec => enter s (FailedState d reason err rec) []
  | _ => refuse s "spending: unexpected event"
  end.

(** ** Unilateral exit *)

Definition Exit_ProcessEvent (d : Descriptor) (why : string) (last : Z)
    (event : VTXOEvent) : processed :=
  let s := UnilateralExitState d why last in
  match event with
  | ForceUnrollEvent reason trigger policy =>
      enter s s [ExpiringNotification d 0 (reason_or reason why) trigger policy]
  | ExitFailedEvent _ => enter s (LiveState d last) [status_update d VTXOStatusLive]
  | ExitConfirmedEvent =>
      enter s (SpentState d)
        [status_update d VTXOStatusSpent;
         VTXOTerminatedNotification (Outpoint d) "Spent" "exit confirmed"]
  | ExitConflictedEvent _ =>
      enter s (ExpiredState d 0) [status_update d VTXOStatusExpired]
  | _ => stay s
  end.

(** ** Expired *)

Definition Expired_handleBlockEpoch (d : Descriptor) (height : Z)
    (env : VTXOEnvironment) : processed :=
  let s := ExpiredState d height in
  if bool_decide (CheckExpiry (env_ExpiryConfig env) d height ≠ ExpiryStatusExpired)
  then forfeitReleaseTransition s (LiveState d height) d
  else if negb (canAutoRefresh (env_ExpiryConfig env) d height) then stay s
  else enter s (PendingForfeitState d height)
    [ForfeitRequest (Outpoint d) height false false;
     status_update d VTXOStatusPendingForfeit].

Definition Expired_ProcessEvent (d : Descriptor) (seen : Z) (event : VTXOEvent)
    (env : VTXOEnvironment) : processed :=
  let s := ExpiredState d seen in
  match event with
  | BlockEpochEvent h => Expired_handleBlockEpoch d h env
  | PendingForfeitEvent =>
      match TaprootAssetRoot d with
      | Some _ => refuse s ErrAssetVTXORequiresTransition
      | None => enter s (PendingForfeitState d seen)
                  [status_update d VTXOStatusPendingForfeit]
      end
  | ForfeitRequestEvent evt => Live_handleForfeitRequest s d seen evt env
  | SpendReserveEvent | ResumeVTXOEvent | ForceUnrollEvent _ _ _ => stay s
  | VTXOFailedEvent reason err rec => enter s (FailedState d reason err rec) []
  | SpendReleasedEvent | SpendCompletedEvent | ForfeitReleasedEvent _
  | ExitFailedEvent _ | ExitConfirmedEvent | ExitConflictedEvent _ => stay s
  | _ => refuse s "expired: unexpected event"
  end.

(** [a.state.ProcessEvent(ctx, event, env)]: dynamic dispatch on the state. *)
Definition ProcessEvent (s : VTXOState) (event : VTXOEvent) (env : VTXOEnvironment) :
    processed :=
  match s with
  | LiveState d last => Live_ProcessEvent d last event env
  | PendingForfeitState d req => Pending_ProcessEvent d req event env
  | SpendingState d last => Spending_ProcessEvent d last event env
  | ForfeitingState d last rid c txid tx =>
      Forfeiting_ProcessEvent d last rid c txid tx event env
  | UnilateralExitState d why last => Exit_ProcessEvent d why last event
  | ExpiredState d seen => Expired_ProcessEvent d seen event env
  | SpentState _ | ForfeitedState _ _ _ | FailedState _ _ _ _ => stay s
  end.

End machine.

(** ** Admission *)

Inductive admission_error :=
| AdmitForfeitInFlight
| AdmitVTXOLiquidityLocked
| AdmitExitInFlight
| AdmitVTXOTerminal.

(** [CheckForfeitAdmission] on a non-nil descriptor. *)
Definition CheckForfeitAdmission (d : Descriptor) : result admission_error unit :=
  match Status d with
  | VTXOStatusLive | VTXOStatusExpired => Ok tt
  | VTXOStatusPendingForfeit | VTXOStatusForfeiting => Err AdmitForfeitInFlight
  | VTXOStatusSpending => Err AdmitVTXOLiquidityLocked
  | VTXOStatusUnilateralExit => Err AdmitExitInFlight
  | _ => Err AdmitVTXOTerminal
  end.

(** ** The transition rules

    The state machine as a relation: one rule per kind of transition, from the
    receiver after the call to the next state with the emitted outbox. *)

Definition is_spending (s : VTXOState) : bool :=
  match s with SpendingState _ _ => true | _ => false end.

(** A forfeit whose signature exists. *)
Definition signature_issued (s : VTXOState) : bool :=
  match s with
  | ForfeitingState _ _ _ _ txid tx => forfeitSignatureIssued txid tx
  | _ => false
  end.

(** The states an exit can start from. *)
Definition can_exit (s : VTXOState) : bool :=
  match s with
  | LiveState _ _ | PendingForfeitState _ _ | SpendingState _ _
  | ForfeitingState _ _ _ _ _ _ => true
  | _ => false
  end.

(** The states a forfeit can be signed from, with the height they carry. *)
Definition forfeitable (s : VTXOState) : option Z :=
  match s with
  | LiveState _ h | PendingForfeitState _ h | ExpiredState _ h => Some h
  | _ => None
  end.

(** The round a release must name; [None] when any release is honoured. *)
Definition releasable (s : VTXOState) : option (Z * option string) :=
  match s with
  | PendingForfeitState _ h => Some (h, None)
  | ForfeitingState _ h rid _ _ _ => Some (h, Some rid)
  | _ => None
  end.

Section rules.
Context `{!Txscript, !Arkscript} (env : VTXOEnvironment).

Inductive rule : VTXOEvent → VTXOState → VTXOState → list VTXOOutMsg → Prop :=
| rule_stay e s : rule e s s []
| rule_failed s reason err rec :
    rule (VTXOFailedEvent reason err rec) s (FailedState (state_VTXO s) reason err rec) []
| rule_signed d last rid c txid tx txid' :
    rule (ForfeitSignedEvent txid') (ForfeitingState d last rid c txid tx)
      (ForfeitingState d last rid c txid' tx) []
| rule_expire d h :
    CheckExpiry (env_ExpiryConfig env) d h = ExpiryStatusExpired →
    rule (BlockEpochEvent h) (LiveState d h) (ExpiredState d h)
      [status_update d VTXOStatusExpired]
| rule_unexpire d h :
    CheckExpiry (env_ExpiryConfig env) d h ≠ ExpiryStatusExpired →
    rule (BlockEpochEvent h) (ExpiredState d h) (LiveState d h)
      [status_update d VTXOStatusLive]
| rule_refresh e d h member :
    canAutoRefresh (env_ExpiryConfig env) d h = true →
    (e = BlockEpochEvent h ∧ member = false ∧
      CheckExpiry (env_ExpiryConfig env) d h = ExpiryStatusNeedsRefresh ∨
     e = criticalRefreshEvent h ∧ member = false ∨
     ∃ x l g k, e = CohortRefreshEvent h x l g k ∧ member = true) →
    rule e (LiveState d h) (PendingForfeitState d h)
      [ForfeitRequest (Outpoint d) h (negb member) member;
       status_update d VTXOStatusPendingForfeit]
| rule_reclaim d h :
    canAutoRefresh (env_ExpiryConfig env) d h = true →
    CheckExpiry (env_ExpiryConfig env) d h = ExpiryStatusExpired →
    rule (BlockEpochEvent h) (ExpiredState d h) (PendingForfeitState d h)
      [ForfeitRequest (Outpoint d) h false false;
       status_update d VTXOStatusPendingForfeit]
| rule_adopt d h x l g k :
    0 < h →
    rule (CohortRefreshEvent h x l g k) (PendingForfeitState d h) (PendingForfeitState d h)
      [ForfeitRequest (Outpoint d) h false true]
| rule_claim s d h :
    TaprootAssetRoot d = None → (∃ last, s = LiveState d last ∧ h = 0) ∨ s = ExpiredState d h →
    rule PendingForfeitEvent s (PendingForfeitState d h)
      [status_update d VTXOStatusPendingForfeit]
| rule_spend d last :
    TaprootAssetRoot d = None →
    rule SpendReserveEvent (LiveState d last) (SpendingState d last)
      [status_update d VTXOStatusSpending]
| rule_exit e s h reason why blocks trigger policy :
    can_exit s = true →
    (∃ k, e = BlockEpochEvent k ∧ trigger = UnrollTriggerCriticalExpiry ∧
      CheckExpiry (env_ExpiryConfig env) (state_VTXO s) k = ExpiryStatusCritical ∧
      signature_issued s = false) ∨
    (∃ r, e = ForceUnrollEvent r trigger policy ∧
      (signature_issued s = true → trigger ≠ UnrollTriggerCriticalExpiry)) →
    rule e s (UnilateralExitState (state_VTXO s) reason h)
      [ExpiringNotification (state_VTXO s) blocks why trigger policy;
       VTXOStatusUpdate (mkStatusUpdate (Outpoint (state_VTXO s))
         VTXOStatusUnilateralExit "" None (is_spending s))]
| rule_reexit d why last r reason trigger policy :
    rule (ForceUnrollEvent r trigger policy) (UnilateralExitState d why last)
      (UnilateralExitState d why last)
      [ExpiringNotification d 0 reason trigger policy]
| rule_release s h owner r :
    releasable s = Some (h, owner) →
    (∀ rid, owner = Some rid → r = rid ∧ rid ≠ EmptyString) →
    rule (ForfeitReleasedEvent r) s
      (stateAfterForfeitRelease (env_ExpiryConfig env) (state_VTXO s) h)
      [status_update (state_VTXO s) (release_status
        (stateAfterForfeitRelease (env_ExpiryConfig env) (state_VTXO s) h))]
| rule_spend_release d h :
    rule SpendReleasedEvent (SpendingState d h)
      (stateAfterForfeitRelease (env_ExpiryConfig env) d h)
      [status_update_releasing d (release_status
        (stateAfterForfeitRelease (env_ExpiryConfig env) d h))]
| rule_forfeit s last evt sf :
    forfeitable s = Some last →
    sign_forfeit (state_VTXO s) evt env = Ok sf →
    rule (ForfeitRequestEvent evt) s
      (ForfeitingState (state_VTXO s) last (fr_RoundID evt) (ConnectorOutpoint evt)
        (ForfeitTxHash (sf_Tx sf)) (Some (sf_Tx sf)))
      [ForfeitSignatureSubmission (Outpoint (state_VTXO s)) (fr_RoundID evt) sf;
       VTXOStatusUpdate (mkStatusUpdate (Outpoint (state_VTXO s)) VTXOStatusForfeiting
         (fr_RoundID evt) (Some (sf_Tx sf)) false)]
| rule_spent d last :
    rule SpendCompletedEvent (SpendingState d last) (SpentState d)
      [status_update_releasing d VTXOStatusSpent;
       VTXOTerminatedNotification (Outpoint d) "Spent" "OOR spend completed"]
| rule_confirmed d last rid c txid tx commitment :
    rule (ForfeitConfirmedEvent commitment) (ForfeitingState d last rid c txid tx)
      (ForfeitedState d rid commitment)
      [VTXOStatusUpdate (mkStatusUpdate (Outpoint d) VTXOStatusForfeited "" tx false);
       VTXOTerminatedNotification (Outpoint d) "Forfeited" ("forfeited in round " +:+ rid)]
| rule_exit_failed d why last r :
    rule (ExitFailedEvent r) (UnilateralExitState d why last) (LiveState d last)
      [status_update d VTXOStatusLive]
| rule_exit_confirmed d why last :
    rule ExitConfirmedEvent (UnilateralExitState d why last) (SpentState d)
      [status_update d VTXOStatusSpent;
       VTXOTerminatedNotification (Outpoint d) "Spent" "exit confirmed"]
| rule_exit_conflicted d why last r :
    rule (ExitConflictedEvent r) (UnilateralExitState d why last) (ExpiredState d 0)
      [status_update d VTXOStatusExpired].

Hint Constructors rule : wave.

(** The height a block or a maintenance event writes into its receiver. *)
Definition advance (s : VTXOState) (h : Z) : VTXOState :=
  match s with
  | LiveState d _ => LiveState d h
  | SpendingState d _ => SpendingState d h
  | ExpiredState d _ => ExpiredState d h
  | _ => s
  end.

Definition advanced (s s' : VTXOState) : Prop := s' = s ∨ ∃ h, s' = advance s h.

(** What a [processed] result may be, for the receiver [s]. *)
Definition sound (e : VTXOEvent) (s : VTXOState) (p : processed) : Prop :=
  advanced s p.1 ∧
  ∀ tr, p.2 = Ok tr → rule e p.1 (NextState tr) (Outbox tr).

Lemma sound_stay e s s' : advanced s s' → sound e s (stay s').
Proof. intros Ha. split; [done|]. intros tr [= <-]. constructor. Qed.

Lemma sound_refuse e s s' err : advanced s s' → sound e s (refuse s' err).
Proof. by split. Qed.

Lemma sound_enter e s s' next out :
  advanced s s' → rule e s' next out → sound e s (enter s' next out).
Proof. intros Ha Hr. split; [done|]. by intros tr [= <-]. Qed.

Lemma advanced_refl s : advanced s s.
Proof. by left. Qed.
Lemma advanced_live d h h' : advanced (LiveState d h) (LiveState d h').
Proof. right. by exists h'. Qed.
Lemma advanced_spending d h h' : advanced (SpendingState d h) (SpendingState d h').
Proof. right. by exists h'. Qed.
Lemma advanced_expired d h h' : advanced (ExpiredState d h) (ExpiredState d h').
Proof. right. by exists h'. Qed.

Hint Resolve sound_stay sound_refuse advanced_refl advanced_live advanced_spending
  advanced_expired : wave.

Lemma autoRefreshTransition_sound e d h0 h member :
  (e = BlockEpochEvent h ∧ member = false ∧
    CheckExpiry (env_ExpiryConfig env) d h = ExpiryStatusNeedsRefresh ∨
   e = criticalRefreshEvent h ∧ member = false ∨
   ∃ x l g k, e = CohortRefreshEvent h x l g k ∧ member = true) →
  sound e (LiveState d h0) (autoRefreshTransition d h h member env).
Proof.
  intros He. unfold autoRefreshTransition.
  destruct (canAutoRefresh _ d h) eqn:Hc; simpl; [|auto with wave].
  apply sound_enter; [auto with wave|]. by constructor.
Qed.

Lemma Live_handleForfeitRequest_sound s h evt :
  forfeitable s = Some h →
  sound (ForfeitRequestEvent evt) s
    (Live_handleForfeitRequest s (state_VTXO s) h evt env).
Proof.
  intros Hs. unfold Live_handleForfeitRequest.
  destruct (TaprootAssetRoot _); [auto with wave|].
  destruct (sign_forfeit _ _ _) as [sf|err] eqn:Hsf; [|auto with wave].
  apply sound_enter; [auto with wave|]. by constructor.
Qed.

Lemma Live_sound d last e : sound e (LiveState d last) (Live_ProcessEvent d last e env).
Proof.
  destruct e; simpl; auto with wave.
  - unfold Live_handleBlockEpoch.
    destruct (CheckExpiry _ d Height) eqn:Hc; auto with wave.
    + apply autoRefreshTransition_sound. auto.
    + apply sound_enter; [auto with wave|].
      apply (rule_exit _ (LiveState d Height)); [done|]. left. eauto 6.
    + apply sound_enter; auto with wave.
  - apply autoRefreshTransition_sound. auto.
  - unfold Live_handleCohortRefresh. case_match; [auto with wave|].
    case_match; auto with wave; apply autoRefreshTransition_sound; eauto 10.
  - unfold Live_handleSpendReserve. case_match; [auto with wave|].
    apply sound_enter; auto with wave.
  - unfold Live_handlePendingForfeit. case_match; [auto with wave|].
    apply sound_enter; [auto with wave|]. constructor; eauto.
  - by apply (Live_handleForfeitRequest_sound (LiveState d last)).
  - apply sound_enter; [auto with wave|].
    apply (rule_exit _ (LiveState d last)); [done|]. right. eauto.
  - apply sound_enter; [auto with wave|]. apply (rule_failed (LiveState d last)).
Qed.

Lemma Pending_sound d req e :
  sound e (PendingForfeitState d req) (Pending_ProcessEvent d req e env).
Proof.
  destruct e; simpl; auto with wave.
  - unfold Pending_handleBlockEpoch. case_bool_decide as Hc; [auto with wave|].
    apply sound_enter; [auto with wave|].
    apply (rule_exit _ (PendingForfeitState d req)); [done|]. left. eauto 6.
  - case_match eqn:Hb; [auto with wave|].
    rewrite !orb_false_iff, !negb_false_iff, !Z.leb_gt, Z.eqb_eq in Hb.
    destruct Hb as [[[Hreq ->] _] _]. apply sound_enter; [auto with wave|].
    by constructor.
  - case_match eqn:Hsf; [|auto with wave]. apply sound_enter; [auto with wave|].
    by apply (rule_forfeit (PendingForfeitState d req)).
  - apply sound_enter; [auto with wave|].
    by eapply (rule_release (PendingForfeitState d req)).
  - apply sound_enter; [auto with wave|].
    apply (rule_exit _ (PendingForfeitState d req)); [done|]. right. eauto.
  - apply sound_enter; [auto with wave|]. apply (rule_failed (PendingForfeitState d req)).
Qed.

Lemma Forfeiting_sound d last rid c txid tx e :
  sound e (ForfeitingState d last rid c txid tx)
    (Forfeiting_ProcessEvent d last rid c txid tx e env).
Proof.
  set (s := ForfeitingState d last rid c txid tx).
  destruct e; simpl; auto with wave.
  - case_match eqn:Hb; [|auto with wave].
    apply andb_true_iff in Hb as [Hc%bool_decide_eq_true_1 Hi%negb_true_iff].
    apply sound_enter; [auto with wave|]. apply (rule_exit _ s); [done|]. left. eauto 6.
  - apply sound_enter; subst s; auto with wave.
  - apply sound_enter; subst s; auto with wave.
  - case_match eqn:Hb; [auto with wave|].
    rewrite orb_false_iff, negb_false_iff in Hb.
    destruct Hb as [Hr%bool_decide_eq_false_1 ->%bool_decide_eq_true_1].
    apply sound_enter; [auto with wave|].
    eapply (rule_release s); [done|]. by intros ? [= <-].
  - case_match eqn:Hb; [auto with wave|]. apply sound_enter; [auto with wave|].
    apply (rule_exit _ s); [done|]. right. eexists. split; [done|].
    intros Hs. simpl in Hs. rewrite Hs, andb_true_r in Hb.
    by apply bool_decide_eq_false_1 in Hb.
  - apply sound_enter; [auto with wave|]. apply (rule_failed s).
Qed.

Lemma Spending_sound d last e :
  sound e (SpendingState d last) (Spending_ProcessEvent d last e env).
Proof.
  destruct e; simpl; auto with wave.
  - case_bool_decide as Hc; [|auto with wave]. apply sound_enter; [auto with wave|].
    apply (rule_exit _ (SpendingState d Height)); [done|]. left. eauto 6.
  - apply sound_enter; auto with wave.
  - apply sound_enter; auto with wave.
  - apply sound_enter; [auto with wave|].
    apply (rule_exit _ (SpendingState d last)); [done|]. right. eauto.
  - apply sound_enter; [auto with wave|]. apply (rule_failed (SpendingState d last)).
Qed.

Lemma Exit_sound d why last e :
  sound e (UnilateralExitState d why last) (Exit_ProcessEvent d why last e).
Proof.
  destruct e; simpl; auto with wave; apply sound_enter; auto with wave.
Qed.

Lemma Expired_sound d seen e :
  sound e (ExpiredState d seen) (Expired_ProcessEvent d seen e env).
Proof.
  destruct e; simpl; auto with wave.
  - unfold Expired_handleBlockEpoch. case_bool_decide as Hc.
    { apply sound_enter; [auto with wave|]. by constructor. }
    destruct (canAutoRefresh _ d Height) eqn:Ha; simpl; [|auto with wave].
    apply sound_enter; [auto with wave|]. by constructor.
  - case_match; [auto with wave|]. apply sound_enter; [auto with wave|].
    constructor; eauto.
  - by apply (Live_handleForfeitRequest_sound (ExpiredState d seen)).
  - apply sound_enter; [auto with wave|]. apply (rule_failed (ExpiredState d seen)).
Qed.

(** Every call of [ProcessEvent] follows a rule. *)
Lemma ProcessEvent_sound s e : sound e s (ProcessEvent s e env).
Proof.
  destruct s; simpl; auto using Live_sound, Pending_sound, Forfeiting_sound,
    Spending_sound, Exit_sound, Expired_sound with wave.
Qed.

End rules.
