(* ===== verification/VtxoActor.v ===== *)
(** * The VTXO actor: [vtxo/actor.go], [vtxo/actor_start_tip.go],
      [vtxo/created_height_repair.go], [vtxo/manager_delivery.go], and the row
      operations of [db/vtxo_store.go] it writes through

    One actor owns one VTXO.  A turn ([Receive]) takes a message, repairs legacy
    metadata, applies the maintenance cooldown and the two preflights, runs the
    state machine, persists the status updates of the outbox, then sends the
    notifications, and only then publishes the new state.

    A turn is a function of the actor, the message and the answers of the
    callbacks it may make ([Turn]); it yields the list of its external effects
    in order, so that a crash is a prefix of that list.  Log lines and block
    subscriptions are left out.  The descriptor is one heap object shared by the
    actor and its state: the repair writes through both. *)

From S2P Require Import Prelude RecoveryProof VtxoExpiry VtxoForfeit VtxoFsm.
Local Open Scope Z_scope.

(** ** The durable row *)

Record Row := mkRow {
  row_Descriptor : Descriptor;
  row_ForfeitTx : option ForfeitMsgTx;
  row_Reserved : bool;
}.

Definition set_Status (d : Descriptor) (s : VTXOStatus) : Descriptor :=
  mkDescriptor (Outpoint d) (Amount d) (PolicyTemplate d) (d_PkScript d)
    (TaprootAssetRoot d) (ClientKey d) (OperatorKey d) (d_Ancestry d)
    (d_RoundID d) (d_CommitmentTxID d) (ForfeitRoundID d) (d_Settlement d)
    (BatchExpiry d) (RelativeExpiry d)
    (ChainDepth d) (CreatedHeight d) s.
Definition set_ForfeitRoundID (d : Descriptor) (r : string) : Descriptor :=
  mkDescriptor (Outpoint d) (Amount d) (PolicyTemplate d) (d_PkScript d)
    (TaprootAssetRoot d) (ClientKey d) (OperatorKey d) (d_Ancestry d)
    (d_RoundID d) (d_CommitmentTxID d) r (d_Settlement d) (BatchExpiry d)
    (RelativeExpiry d)
    (ChainDepth d) (CreatedHeight d) (Status d).

Definition UpdateVTXOStatus (r : Row) (s : VTXOStatus) : Row :=
  mkRow (set_Status (row_Descriptor r) s) (row_ForfeitTx r) (row_Reserved r).

Definition UpdateVTXOStatusReleasingReservation (r : Row) (s : VTXOStatus) : Row :=
  mkRow (set_Status (row_Descriptor r) s) (row_ForfeitTx r) false.

(** An empty round id is stored as NULL, which reads back as the empty string. *)
Definition MarkForfeiting (r : Row) (roundID : string) (tx : ForfeitMsgTx) : Row :=
  mkRow (set_ForfeitRoundID (set_Status (row_Descriptor r) VTXOStatusForfeiting) roundID)
    (Some tx) (row_Reserved r).

Definition GetForfeitTx (r : Row) : option ForfeitMsgTx := row_ForfeitTx r.

(** The successful write of a status update. *)
Definition processStatusUpdate (r : Row) (m : StatusUpdate) : Row :=
  match NewStatus m, su_ForfeitTx m with
  | VTXOStatusForfeiting, Some tx => MarkForfeiting r (su_RoundID m) tx
  | st, _ =>
      if ReleaseSpendReservation m then UpdateVTXOStatusReleasingReservation r st
      else UpdateVTXOStatus r st
  end.

(** ** Data *)

Record RefreshVTXORequest := mkRefreshVTXORequest {
  rr_VTXOOutpoint : OutPoint;
  rr_Amount : Z;
  rr_OperatorFee : Z;
  rr_Automatic : bool;
  rr_BatchExpiry : Z;
  rr_TriggerHeight : Z;
  rr_ExpandCohort : bool;
  rr_OperatorKey : option PublicKey;
  rr_PolicyTemplate : list Z;
  rr_OwnerKey : option PublicKey;
}.

(** What leaves the actor: a committed store write, a message handed to the
    manager (delivered, or retained by the scheduler under a validity token), a
    notification to the chain resolver, or the invalidation of a token. *)
Inductive Effect :=
| EWrite (update : StatusUpdate)
| ERepair (height : Z)
| ERelayRefresh (req : RefreshVTXORequest)
| EDeferRefresh (token : nat) (req : RefreshVTXORequest)
| ERelaySignature (VTXOOutpoint : OutPoint) (RoundID : string) (forfeit : signed_forfeit)
| EResolver (VTXO : Descriptor) (BlocksRemaining : Z) (Reason : string)
    (Trigger : UnrollTrigger) (Policy : option ExitPolicy)
| ETerminated (VTXOOutpoint : OutPoint) (FinalState Reason : string)
| EInvalidate (token : nat).

Record Actor := mkActor {
  cfg_VTXO : Descriptor;
  state : VTXOState;
  lastObservedHeight : Z;
  lastEpochHeight : Z;
  autoRefreshRetryHeight : Z;
  (** [lastAutoRefreshTermsHeight], present when [hasAutoRefreshTermsHeight]. *)
  lastAutoRefreshTermsHeight : option Z;
  (** Leader and generation, present when [hasAutoRefreshCohort]. *)
  autoRefreshCohort : option (OutPoint * Z);
  pendingRefreshDelivery : option nat;
}.

Definition set_state (a : Actor) (s : VTXOState) : Actor :=
  mkActor (cfg_VTXO a) s (lastObservedHeight a) (lastEpochHeight a)
    (autoRefreshRetryHeight a) (lastAutoRefreshTermsHeight a) (autoRefreshCohort a)
    (pendingRefreshDelivery a).
Definition set_VTXO (a : Actor) (d : Descriptor) (s : VTXOState) : Actor :=
  mkActor d s (lastObservedHeight a) (lastEpochHeight a)
    (autoRefreshRetryHeight a) (lastAutoRefreshTermsHeight a) (autoRefreshCohort a)
    (pendingRefreshDelivery a).
Definition set_lastObservedHeight (a : Actor) (h : Z) : Actor :=
  mkActor (cfg_VTXO a) (state a) h (lastEpochHeight a)
    (autoRefreshRetryHeight a) (lastAutoRefreshTermsHeight a) (autoRefreshCohort a)
    (pendingRefreshDelivery a).
Definition set_lastEpochHeight (a : Actor) (h : Z) : Actor :=
  mkActor (cfg_VTXO a) (state a) (lastObservedHeight a) h
    (autoRefreshRetryHeight a) (lastAutoRefreshTermsHeight a) (autoRefreshCohort a)
    (pendingRefreshDelivery a).
Definition set_retry (a : Actor) (h : Z) : Actor :=
  mkActor (cfg_VTXO a) (state a) (lastObservedHeight a) (lastEpochHeight a)
    h (lastAutoRefreshTermsHeight a) (autoRefreshCohort a) (pendingRefreshDelivery a).
Definition set_terms_height (a : Actor) (h : Z) : Actor :=
  mkActor (cfg_VTXO a) (state a) (lastObservedHeight a) (lastEpochHeight a)
    (autoRefreshRetryHeight a) (Some h) (autoRefreshCohort a) (pendingRefreshDelivery a).
Definition set_cohort (a : Actor) (c : option (OutPoint * Z)) : Actor :=
  mkActor (cfg_VTXO a) (state a) (lastObservedHeight a) (lastEpochHeight a)
    (autoRefreshRetryHeight a) (lastAutoRefreshTermsHeight a) c
    (pendingRefreshDelivery a).
Definition set_delivery (a : Actor) (t : option nat) : Actor :=
  mkActor (cfg_VTXO a) (state a) (lastObservedHeight a) (lastEpochHeight a)
    (autoRefreshRetryHeight a) (lastAutoRefreshTermsHeight a) (autoRefreshCohort a) t.

Definition autoRefreshRetryDelayBlocks : Z := 6.
Definition autoRefreshTermsPollBlocks : Z := 6.

(** The operator's terms as the two callbacks of the configuration report
    them. *)
Record Terms := mkTerms { tm_min : option Z; tm_window : option Z }.

(** The fixed part of the configuration. *)
Record ActorConfig := mkActorConfig {
  cfg_Expiry : ExpiryConfig;
  cfg_Manager : bool;
  cfg_ChainResolver : bool;
}.

(** The answers the callbacks give during one turn.  [t_terms] are the operator
    terms up to the fetch of the operator key, [t_fresh] the terms after it.
    [t_fetch] answers the first (0) and the second (1) fetch of the key.
    [t_write] and [t_rollback] say whether the store accepts the status update
    and its rollback.  [t_busy] is the token under which the scheduler retains
    the notification when the manager's mailbox is full. *)
Record Turn := mkTurn {
  t_terms : Terms;
  t_fresh : Terms;
  t_wallet : option (ForfeitMsgTx → SignDescriptor → result error (list Z));
  t_signer : option (ForfeitParticipantSignRequest →
    result error (list (option ForfeitParticipantSig)));
  t_repair : option (result error Z);
  t_assess : option (result error bool);
  t_fetch : option (nat → result error (option PublicKey));
  t_quote : option (Z → Z → Z);
  t_write : option error;
  t_rollback : option error;
  t_busy : option nat;
}.

Definition with_terms (c : ExpiryConfig) (t : Terms) : ExpiryConfig :=
  mkExpiryConfig (tm_min t) (RefreshThresholdBlocks c) (CriticalThresholdBlocks c)
    (MinRefreshBuffer c) (TreeDepthMultiplier c) (MaxPaymentCLTV c) (tm_window t).

Definition turn_env (cfg : ActorConfig) (t : Turn) (terms : Terms) : VTXOEnvironment :=
  mkVTXOEnvironment (with_terms (cfg_Expiry cfg) terms) (t_wallet t) (t_signer t).

(** The messages of the actor's mailbox: an event, or the answer to the tip ask
    of the start ([None]: an answer of another type). *)
Inductive VTXOActorMsg :=
| EventMsg (event : VTXOEvent)
| startTipEvent (tip : result error (option Z)).

Record VTXOActorResponse := mkResponse {
  PriorState : VTXOState;
  NewState : VTXOState;
  resp_Outbox : list VTXOOutMsg;
  RoundRequest : option RefreshVTXORequest;
}.

Definition unchanged (a : Actor) : VTXOActorResponse :=
  mkResponse (state a) (state a) [] None.

(** ** Recovery *)

(** [GetForfeitTx] can fail; the error is logged and the transaction is nil. *)
Definition statusToState (d : Descriptor) (forfeitTx : result error (option ForfeitMsgTx)) :
    VTXOState :=
  match Status d with
  | VTXOStatusLive => LiveState d (CreatedHeight d)
  | VTXOStatusSpending => SpendingState d (CreatedHeight d)
  | VTXOStatusExpired => ExpiredState d 0
  | VTXOStatusPendingForfeit => PendingForfeitState d 0
  | VTXOStatusForfeiting =>
      ForfeitingState d 0 (ForfeitRoundID d) (mkOutPoint 0%N 0) 0%N
        (match forfeitTx with Ok tx => tx | Err _ => None end)
  | VTXOStatusForfeited => ForfeitedState d (ForfeitRoundID d) 0%N
  | VTXOStatusSpent => SpentState d
  | VTXOStatusUnilateralExit => UnilateralExitState d "recovered from storage" 0
  | VTXOStatusFailed => FailedState d "recovered from storage" None false
  | VTXOStatusOther _ => LiveState d (CreatedHeight d)
  end.

Definition NewVTXOActor (d : Descriptor) (forfeitTx : result error (option ForfeitMsgTx)) :
    Actor :=
  mkActor d (statusToState d forfeitTx) 0 0 0 None None None.

(** ** The steps of a turn *)

Definition startTipEpoch (a : Actor) (tip : result error (option Z)) : option Z :=
  match state a with
  | LiveState _ _ =>
      match tip with
      | Ok (Some height) => if height <=? lastEpochHeight a then None else Some height
      | _ => None
      end
  | _ => None
  end.

(** A write through the descriptor pointer of the state. *)
Definition set_state_VTXO (s : VTXOState) (d : Descriptor) : VTXOState :=
  match s with
  | LiveState _ h => LiveState d h
  | PendingForfeitState _ h => PendingForfeitState d h
  | SpendingState _ h => SpendingState d h
  | SpentState _ => SpentState d
  | ForfeitingState _ h r c i t => ForfeitingState d h r c i t
  | ForfeitedState _ r c => ForfeitedState d r c
  | UnilateralExitState _ r h => UnilateralExitState d r h
  | FailedState _ r e b => FailedState d r e b
  | ExpiredState _ h => ExpiredState d h
  end.

Definition repairLegacyCreatedHeight (a : Actor) (repair : option (result error Z)) :
    list Effect * Actor :=
  let desc := cfg_VTXO a in
  match repair with
  | None => ([], a)
  | Some answer =>
      if (BatchExpiry desc <=? 0) || (CreatedHeight desc <=? BatchExpiry desc)
      then ([], a)
      else match answer with
           | Err _ => ([], a)
           | Ok height =>
               let desc := set_CreatedHeight desc height in
               ([ERepair height], set_VTXO a desc (set_state_VTXO (state a) desc))
           end
  end.

Definition automaticRefreshHeight (event : VTXOEvent) : option Z :=
  match event with
  | BlockEpochEvent h | criticalRefreshEvent h | CohortRefreshEvent h _ _ _ _ => Some h
  | _ => None
  end.

Definition deferAutomaticRefresh (a : Actor) (c : ExpiryConfig) (height : Z) :
    Actor * bool :=
  if autoRefreshRetryHeight a <=? 0 then (a, false)
  else if height >=? autoRefreshRetryHeight a then (set_retry a 0, false)
  else
    match state a with
    | LiveState d _ =>
        match CheckExpiry c d height with
        | ExpiryStatusCritical | ExpiryStatusExpired => (set_retry a 0, false)
        | _ => (set_state a (LiveState d height), true)
        end
    | ExpiredState _ _ => (set_retry a 0, false)
    | _ => (a, false)
    end.

Definition preflightCriticalExit (a : Actor) (c : ExpiryConfig)
    (assess : option (result error bool)) (event : VTXOEvent) : VTXOEvent :=
  match event, assess with
  | BlockEpochEvent height, Some assessment =>
      match state a with
      | LiveState d _ | PendingForfeitState d _ =>
          match TaprootAssetRoot d with
          | Some _ => event
          | None =>
              if bool_decide (CheckExpiry c d height ≠ ExpiryStatusCritical) then event
              else match assessment with
                   | Err _ | Ok true => event
                   | Ok false => criticalRefreshEvent height
                   end
          end
      | _ => event
      end
  | _, _ => event
  end.

Definition fetchOperatorKey (answer : result error (option PublicKey)) :
    result error PublicKey :=
  match answer with
  | Err e => Err ("fetch current operator key: " +:+ e)
  | Ok None => Err "fetch current operator key: nil key returned"
  | Ok (Some key) => Ok key
  end.

(** The key, and whether the refresh is deferred. *)
Definition preflightAutoRefresh (a : Actor) (c fresh : ExpiryConfig)
    (fetch : option (nat → result error (option PublicKey))) (event : VTXOEvent) :
    Actor * result error (option PublicKey * bool) :=
  let skip := (a, Ok (None, false)) in
  match fetch, automaticRefreshHeight event with
  | Some fetch, Some height =>
      match TaprootAssetRoot (cfg_VTXO a), event with
      | Some _, _ | _, CohortRefreshEvent _ _ _ _ _ => skip
      | None, _ =>
          let status := CheckExpiry c (cfg_VTXO a) height in
          let critical := match event with criticalRefreshEvent _ => true | _ => false end in
          match state a with
          | LiveState d _ =>
              if negb (bool_decide (status = ExpiryStatusNeedsRefresh) || critical)
              then skip
              else if ShouldWaitForFreeRefreshWindow c d height
                && match lastAutoRefreshTermsHeight a with
                   | Some last =>
                       let elapsed := int64 (height - last) in
                       (elapsed >=? 0) && (elapsed <? autoRefreshTermsPollBlocks)
                   | None => false
                   end
              then (set_state a (LiveState d height), Ok (None, true))
              else
                let a := set_terms_height a height in
                match fetchOperatorKey (fetch 0%nat) with
                | Err e => (a, Err e)
                | Ok currentKey =>
                    if critical then (a, Ok (Some currentKey, false))
                    else if (BlocksUntilExpiry d height <=? CalculateRefreshThreshold fresh d)
                      && negb (ShouldWaitForFreeRefreshWindow fresh d height)
                    then (a, Ok (Some currentKey, false))
                    else (set_state a (LiveState d height), Ok (Some currentKey, true))
                end
          | ExpiredState _ _ =>
              if negb (bool_decide (status = ExpiryStatusExpired)) then skip
              else match fetchOperatorKey (fetch 0%nat) with
                   | Err e => (a, Err e)
                   | Ok currentKey => (a, Ok (Some currentKey, false))
                   end
          | _ => skip
          end
      end
  | _, _ => skip
  end.

Definition isPendingForfeitState (s : VTXOState) : bool :=
  match s with PendingForfeitState _ _ => true | _ => false end.

Section actor.
Context `{!Txscript, !Arkscript} (cfg : ActorConfig).

(** ** The outbox *)

Definition refreshOutputTemplateWithKey
    (fetch : option (nat → result error (option PublicKey))) (d : Descriptor)
    (currentKey : option PublicKey) : result error (list Z) :=
  match fetch with
  | None => EffectivePolicyTemplate d
  | Some fetch =>
      let* currentKey :=
        match currentKey with
        | Some key => Ok key
        | None => fetchOperatorKey (fetch 2%nat)
        end in
      match RefreshOutputTemplate d (Some currentKey) with
      | Ok rebuilt => Ok rebuilt
      | Err (ErrRefreshOperatorKeyUnsupported _) => EffectivePolicyTemplate d
      | Err (RefreshOther e) => Err e
      end
  end.

Definition quoteRefreshFee (quoter : option (Z → Z → Z)) (d : Descriptor)
    (lastCheckedHeight : Z) : Z :=
  if HasUsableBatchExpiry d && (lastCheckedHeight >=? BatchExpiry d) then 0
  else
    match quoter with
    | None => 0
    | Some quote =>
        let remainingBlocks :=
          if (lastCheckedHeight >? 0) && (BatchExpiry d >? lastCheckedHeight)
          then uint32 (int32 (BatchExpiry d - lastCheckedHeight)) else 0 in
        quote (Amount d) remainingBlocks
    end.

(** [tellManager]: nothing without a manager; a failed hand-over is logged. *)
Definition tellManager (e : Effect) : list Effect :=
  if cfg_Manager cfg then [e] else [].

(** [deliverManagerNotification] of an automatic refresh relay: under mailbox
    pressure the scheduler retains it with a fresh validity token. *)
Definition deliver_refresh (t : Turn) (a : Actor) (req : RefreshVTXORequest) :
    list Effect * Actor :=
  if cfg_Manager cfg then
    match t_busy t with
    | None => ([ERelayRefresh req], a)
    | Some token => ([EDeferRefresh token req], set_delivery a (Some token))
    end
  else ([], a).

(** The [ForfeitRequest] case: build the new output's template, roll the
    reservation back if that fails, relay the request or return it to the
    cohort's coordinator. *)
Definition send_ForfeitRequest (t : Turn) (a : Actor) (refreshKey : option PublicKey)
    (op : OutPoint) (height : Z) (expand member : bool) :
    list Effect *
    result error (Actor * option PublicKey * option RefreshVTXORequest) :=
  let d := cfg_VTXO a in
  let refreshKey :=
    match refreshKey, t_fetch t with
    | None, Some fetch => let* key := fetchOperatorKey (fetch 1%nat) in Ok (Some key)
    | _, _ => Ok refreshKey
    end in
  let built :=
    let* key := refreshKey in
    let* template := refreshOutputTemplateWithKey (t_fetch t) d key in
    Ok (key, template) in
  match built with
  | Err e =>
      let failed := "build refresh output template: " +:+ e in
      if member && isPendingForfeitState (state a) then ([], Err failed)
      else
        let rollbackStatus :=
          match state a with
          | ExpiredState _ _ => VTXOStatusExpired
          | _ => VTXOStatusLive
          end in
        match t_rollback t with
        | Some e' => ([], Err (e +:+ "roll back failed automatic refresh: " +:+ e'))
        | None =>
            ([EWrite (mkStatusUpdate (Outpoint d) rollbackStatus "" None false)],
             Err failed)
        end
  | Ok (key, template) =>
      let req := mkRefreshVTXORequest op (Amount d)
        (quoteRefreshFee (t_quote t) d height) true (BatchExpiry d) height expand key
        template (ClientKey d) in
      if member then ([], Ok (a, key, Some req))
      else let '(es, a) := deliver_refresh t a req in (es, Ok (a, key, None))
  end.

(** The second loop of [processOutboxWithOperatorKey]: the notifications. *)
Fixpoint send_outbox (t : Turn) (a : Actor) (refreshKey : option PublicKey)
    (cohort : option RefreshVTXORequest) (outbox : list VTXOOutMsg) :
    list Effect * result error (Actor * option RefreshVTXORequest) :=
  match outbox with
  | [] => ([], Ok (a, cohort))
  | m :: outbox =>
      match m with
      | VTXOStatusUpdate _ => send_outbox t a refreshKey cohort outbox
      | ForfeitRequest op height expand member =>
          match send_ForfeitRequest t a refreshKey op height expand member with
          | (es, Err e) => (es, Err e)
          | (es, Ok (a, refreshKey, req)) =>
              let cohort := match req with Some _ => req | None => cohort end in
              let '(es', r) := send_outbox t a refreshKey cohort outbox in
              (es ++ es', r)
          end
      | ForfeitSignatureSubmission op rid sf =>
          let '(es, r) := send_outbox t a refreshKey cohort outbox in
          (tellManager (ERelaySignature op rid sf) ++ es, r)
      | ExpiringNotification d blocks reason trigger policy =>
          let '(es, r) := send_outbox t a refreshKey cohort outbox in
          ((if cfg_ChainResolver cfg then [EResolver d blocks reason trigger policy]
            else []) ++ es, r)
      | VTXOTerminatedNotification op final reason =>
          let '(es, r) := send_outbox t a refreshKey cohort outbox in
          (tellManager (ETerminated op final reason) ++ es, r)
      end
  end.

(** The first loop: the status updates. *)
Fixpoint persist_outbox (t : Turn) (outbox : list VTXOOutMsg) :
    list Effect * result error unit :=
  match outbox with
  | [] => ([], Ok tt)
  | VTXOStatusUpdate m :: outbox =>
      match t_write t with
      | Some e => ([], Err ("persist vtxo status: " +:+ e))
      | None =>
          let '(es, r) := persist_outbox t outbox in (EWrite m :: es, r)
      end
  | _ :: outbox => persist_outbox t outbox
  end.

Definition processOutboxWithOperatorKey (t : Turn) (a : Actor)
    (refreshKey : option PublicKey) (outbox : list VTXOOutMsg) :
    list Effect * result error (Actor * option RefreshVTXORequest) :=
  match persist_outbox t outbox with
  | (es, Err e) => (es, Err e)
  | (es, Ok _) =>
      let '(es', r) := send_outbox t a refreshKey None outbox in (es ++ es', r)
  end.

(** ** The turn *)

Definition recordAutomaticRefreshRelease (a : Actor) (prior : VTXOState)
    (event : VTXOEvent) : Actor :=
  match event, prior with
  | ForfeitReleasedEvent _, PendingForfeitState _ requested =>
      if requested <=? 0 then a
      else
        let baseHeight := Z.max requested (lastObservedHeight a) in
        set_retry a (int32 (baseHeight + autoRefreshRetryDelayBlocks))
  | _, _ => a
  end.

(** The bookkeeping between a successful outbox and the published state. *)
Definition publish (a : Actor) (prior next : VTXOState) (event : VTXOEvent) :
    list Effect * Actor :=
  let a := recordAutomaticRefreshRelease a prior event in
  let a :=
    match event, prior, next with
    | CohortRefreshEvent _ _ leader generation _, LiveState _ _, PendingForfeitState _ _ =>
        set_cohort a (Some (leader, generation))
    | _, _, _ => a
    end in
  let a := match event with ForfeitReleasedEvent _ => set_cohort a None | _ => a end in
  let a := set_state a next in
  match pendingRefreshDelivery a with
  | Some token =>
      if isPendingForfeitState next then ([], a)
      else ([EInvalidate token], set_delivery a None)
  | None => ([], a)
  end.

(** From the state machine to the end of the turn. *)
Definition process (t : Turn) (a : Actor) (event : VTXOEvent)
    (refreshKey : option PublicKey) :
    list Effect * Actor * result error VTXOActorResponse :=
  match ProcessEvent (state a) event (turn_env cfg t (t_fresh t)) with
  | (s, Err e) => ([], set_state a s, Err ("process event: " +:+ e))
  | (s, Ok transition) =>
      let a := set_state a s in
      let next := NextState transition in
      let outbox := Outbox transition in
      match processOutboxWithOperatorKey t a refreshKey outbox with
      | (es, Err e) => (es, a, Err e)
      | (es, Ok (a, roundRequest)) =>
          let '(es', a) := publish a s next event in
          (es ++ es', a, Ok (mkResponse s (state a) outbox roundRequest))
      end
  end.

(** From the cooldown to the preflights. *)
Definition maintain (t : Turn) (a : Actor) (event : VTXOEvent)
    (cohortKey : option PublicKey) :
    list Effect * Actor * result error VTXOActorResponse :=
  let c := with_terms (cfg_Expiry cfg) (t_terms t) in
  let fresh := with_terms (cfg_Expiry cfg) (t_fresh t) in
  let '(a, deferred) :=
    match automaticRefreshHeight event with
    | Some height =>
        deferAutomaticRefresh
          (set_lastObservedHeight a (Z.max (lastObservedHeight a) height)) c height
    | None => (a, false)
    end in
  if deferred then ([], a, Ok (unchanged a))
  else
    let event := preflightCriticalExit a c (t_assess t) event in
    match preflightAutoRefresh a c fresh (t_fetch t) event with
    | (a, Err e) => ([], a, Err ("preflight automatic refresh: " +:+ e))
    | (a, Ok (preflightKey, deferRefresh)) =>
        if deferRefresh then ([], a, Ok (unchanged a))
        else
          let refreshKey :=
            match preflightKey with Some _ => preflightKey | None => cohortKey end in
          process t a event refreshKey
    end.

(** A token-matched cohort release becomes an ordinary release. *)
Definition translate_release (a : Actor) (event : VTXOEvent) : option VTXOEvent :=
  match event with
  | CohortRefreshReleaseEvent leader generation =>
      if bool_decide (autoRefreshCohort a = Some (leader, generation))
      then Some (ForfeitReleasedEvent "") else None
  | _ => Some event
  end.

Definition receive_event (t : Turn) (a : Actor) (event : VTXOEvent) :
    list Effect * Actor * result error VTXOActorResponse :=
  let '(es, a) :=
    match event with
    | BlockEpochEvent height =>
        repairLegacyCreatedHeight
          (set_lastEpochHeight a (Z.max (lastEpochHeight a) height)) (t_repair t)
    | _ => ([], a)
    end in
  match translate_release a event with
  | None => (es, a, Ok (unchanged a))
  | Some event' =>
      let cohortKey :=
        match event with CohortRefreshEvent _ _ _ _ key => key | _ => None end in
      let '(es', a, r) := maintain t a event' cohortKey in (es ++ es', a, r)
  end.

Definition Receive (t : Turn) (a : Actor) (msg : VTXOActorMsg) :
    list Effect * Actor * result error VTXOActorResponse :=
  match msg with
  | EventMsg event => receive_event t a event
  | startTipEvent tip =>
      match startTipEpoch a tip with
      | None => ([], a, Ok (unchanged a))
      | Some height => receive_event t a (BlockEpochEvent height)
      end
  end.

End actor.

(** ** The world of one VTXO *)

(** What the effects leave behind in the row. *)
Definition apply_effect (r : Row) (e : Effect) : Row :=
  match e with
  | EWrite m => processStatusUpdate r m
  | ERepair h =>
      mkRow (set_CreatedHeight (row_Descriptor r) h) (row_ForfeitTx r) (row_Reserved r)
  | _ => r
  end.

Definition apply_effects (r : Row) (es : list Effect) : Row := foldl apply_effect r es.
