(* ===== verification/VtxoSafety.v ===== *)
(** * Safety of the VTXO lifecycle

    The state machine of [VtxoFsm] refines an abstract lifecycle of statuses, and
    the actor of [VtxoActor] keeps the durable row and its memory consistent
    through failing writes, crashes at any point of a turn and restarts. *)

From S2P Require Import Prelude RecoveryProof VtxoExpiry VtxoForfeit VtxoFsm VtxoActor.
Local Open Scope Z_scope.

(** ** The abstract lifecycle *)

Definition state_status (s : VTXOState) : VTXOStatus :=
  match s with
  | LiveState _ _ => VTXOStatusLive
  | PendingForfeitState _ _ => VTXOStatusPendingForfeit
  | SpendingState _ _ => VTXOStatusSpending
  | SpentState _ => VTXOStatusSpent
  | ForfeitingState _ _ _ _ _ _ => VTXOStatusForfeiting
  | ForfeitedState _ _ _ => VTXOStatusForfeited
  | UnilateralExitState _ _ _ => VTXOStatusUnilateralExit
  | FailedState _ _ _ _ => VTXOStatusFailed
  | ExpiredState _ _ => VTXOStatusExpired
  end.

(** A coin is spendable, held by exactly one operation, quarantined, or gone. *)
Inductive lifecycle : VTXOStatus → VTXOStatus → Prop :=
| lc_round : lifecycle VTXOStatusLive VTXOStatusPendingForfeit
| lc_spend : lifecycle VTXOStatusLive VTXOStatusSpending
| lc_expire : lifecycle VTXOStatusLive VTXOStatusExpired
| lc_unexpire : lifecycle VTXOStatusExpired VTXOStatusLive
| lc_reclaim : lifecycle VTXOStatusExpired VTXOStatusPendingForfeit
| lc_sign s : s ∈ [VTXOStatusLive; VTXOStatusPendingForfeit; VTXOStatusExpired] →
    lifecycle s VTXOStatusForfeiting
| lc_release s s' :
    s ∈ [VTXOStatusPendingForfeit; VTXOStatusForfeiting; VTXOStatusSpending] →
    s' ∈ [VTXOStatusLive; VTXOStatusExpired] → lifecycle s s'
| lc_exit s : s ∈ [VTXOStatusLive; VTXOStatusPendingForfeit; VTXOStatusForfeiting;
                    VTXOStatusSpending] → lifecycle s VTXOStatusUnilateralExit
| lc_exit_failed : lifecycle VTXOStatusUnilateralExit VTXOStatusLive
| lc_exit_conflicted : lifecycle VTXOStatusUnilateralExit VTXOStatusExpired
| lc_exit_confirmed : lifecycle VTXOStatusUnilateralExit VTXOStatusSpent
| lc_spent : lifecycle VTXOStatusSpending VTXOStatusSpent
| lc_forfeited : lifecycle VTXOStatusForfeiting VTXOStatusForfeited.

(** The status updates of an outbox. *)
Definition updates (out : list VTXOOutMsg) : list StatusUpdate :=
  omap (λ m, match m with VTXOStatusUpdate u => Some u | _ => None end) out.

Lemma after_release_cases cfg d h :
  stateAfterForfeitRelease cfg d h = LiveState d h ∨
  stateAfterForfeitRelease cfg d h = ExpiredState d h.
Proof. unfold stateAfterForfeitRelease. cbv zeta. destruct (_ && _); auto. Qed.

Lemma after_release_VTXO cfg d h :
  state_VTXO (stateAfterForfeitRelease cfg d h) = d.
Proof. by destruct (after_release_cases cfg d h) as [-> | ->]. Qed.

Lemma after_release_status cfg d h :
  release_status (stateAfterForfeitRelease cfg d h) =
    state_status (stateAfterForfeitRelease cfg d h).
Proof. by destruct (after_release_cases cfg d h) as [-> | ->]. Qed.

Section lifecycle_facts.
Context {TX : Txscript} {ARK : Arkscript}.

Lemma rule_VTXO env e s next out :
  rule env e s next out → state_VTXO next = state_VTXO s.
Proof.
  intros Hr. destruct Hr; simpl; auto using after_release_VTXO.
  by destruct H0 as [(last & -> & _)| ->].
Qed.

Lemma advanced_status s s' : advanced s s' → state_status s' = state_status s.
Proof. intros [->|[h ->]]; [done|]. by destruct s. Qed.

Lemma advanced_VTXO s s' : advanced s s' → state_VTXO s' = state_VTXO s.
Proof. intros [->|[h ->]]; [done|]. by destruct s. Qed.

(** The three kinds of transition: the status stays and nothing is written, the
    VTXO fails in memory, or one status update names the new status. *)
Lemma rule_update env e s next out :
  rule env e s next out →
  (state_status next = state_status s ∧ updates out = []) ∨
  (∃ reason err rec, e = VTXOFailedEvent reason err rec ∧
    next = FailedState (state_VTXO s) reason err rec ∧ out = []) ∨
  (lifecycle (state_status s) (state_status next) ∧
   ∃ u, updates out = [u] ∧ NewStatus u = state_status next ∧
     su_Outpoint u = Outpoint (state_VTXO s) ∧
     ReleaseSpendReservation u = is_spending s).
Proof.
  intros Hr. destruct Hr; try (by left); try (right; left; by eauto 10);
    right; right; cbn [state_VTXO state_status is_spending];
    (split; [|eexists; split_and!; [reflexivity| | |]; simpl; try done]);
    rewrite ?after_release_status; try done; try (by constructor).
  - destruct H0 as [(last & -> & _)| ->]; constructor.
  - by destruct H0 as [(last & -> & _)| ->].
  - by destruct H0 as [(last & -> & _)| ->].
  - destruct s; simpl in H; try done; apply lc_exit; set_solver.
  - destruct (after_release_cases (env_ExpiryConfig env) (state_VTXO s) h) as [-> | ->];
      destruct s; simpl in H; try done; apply lc_release; set_solver.
  - by destruct s.
  - destruct (after_release_cases (env_ExpiryConfig env) d h) as [-> | ->];
      apply lc_release; set_solver.
  - destruct s; simpl in H; try done; apply lc_sign; set_solver.
  - by destruct s.
Qed.

End lifecycle_facts.

(** ** Consistency of the row and the actor *)

(** The descriptor less the two fields the lifecycle rewrites. *)
Definition coin (d : Descriptor) : Descriptor :=
  set_ForfeitRoundID (set_Status d VTXOStatusLive) "".

Definition row_status (r : Row) : VTXOStatus := Status (row_Descriptor r).

(** The statuses of a coin that some round or spend has a claim on. *)
Definition committed (st : VTXOStatus) : bool :=
  match st with
  | VTXOStatusPendingForfeit | VTXOStatusForfeiting | VTXOStatusForfeited
  | VTXOStatusSpending => true
  | _ => false
  end.

(** A row the node can restart from: one of the eight statuses the actor writes,
    the signed forfeit beside a forfeiting status, and no claim on an asset. *)
Record row_ok (r : Row) : Prop := {
  ro_status : ∀ k, row_status r ≠ VTXOStatusOther k;
  ro_failed : row_status r ≠ VTXOStatusFailed;
  ro_forfeit : row_status r = VTXOStatusForfeiting → is_Some (row_ForfeitTx r);
  ro_asset : is_Some (TaprootAssetRoot (row_Descriptor r)) → committed (row_status r) = false;
}.

(** The row carries the status of the state.  A VTXO that failed in memory keeps
    its last status; after a failed rollback of an automatic reservation the row
    still says pending while the actor kept its state. *)
Definition agrees (st : VTXOStatus) (s : VTXOState) : Prop :=
  st = state_status s ∨ state_status s = VTXOStatusFailed ∨
  st = VTXOStatusPendingForfeit ∧
    (state_status s = VTXOStatusLive ∨ state_status s = VTXOStatusExpired).

(** [reads] tells whether the forfeit transaction could be read at restart. *)
Record act_ok (reads : bool) (r : Row) (a : Actor) : Prop := {
  ao_row : row_ok r;
  ao_alias : state_VTXO (state a) = cfg_VTXO a;
  ao_coin : coin (cfg_VTXO a) = coin (row_Descriptor r);
  ao_agree : agrees (row_status r) (state a);
  ao_forfeit : reads = true → ∀ d last rid c txid tx,
    state a = ForfeitingState d last rid c txid tx →
    tx = row_ForfeitTx r ∧ rid = ForfeitRoundID (row_Descriptor r);
  ao_asset : is_Some (TaprootAssetRoot (cfg_VTXO a)) →
    committed (state_status (state a)) = false;
  ao_delivery : ∀ token, pendingRefreshDelivery a = Some token →
    isPendingForfeitState (state a) = true;
}.

(** The edges of the persisted status.  After a failed rollback the row says
    pending while the actor is still live or expired, so a pending row may also
    take their edges. *)
Definition durable_edge (st st' : VTXOStatus) : Prop :=
  lifecycle st st' ∨
  st = VTXOStatusPendingForfeit ∧
    (lifecycle VTXOStatusLive st' ∨ lifecycle VTXOStatusExpired st').

(** What a write may do to a row: it names this coin, follows an edge, and drops
    the spending reservation when it leaves the spending status. *)
Definition write_ok (r : Row) (u : StatusUpdate) : Prop :=
  su_Outpoint u = Outpoint (row_Descriptor r) ∧
  durable_edge (row_status r) (NewStatus u) ∧
  (row_status r = VTXOStatusSpending → row_Reserved (processStatusUpdate r u) = false).

(** What the row says when an effect happens. *)
Definition effect_ok (r : Row) (e : Effect) : Prop :=
  match e with
  | EWrite u => write_ok r u
  | ERepair _ | EInvalidate _ => True
  | ERelayRefresh _ | EDeferRefresh _ _ => row_status r = VTXOStatusPendingForfeit
  | ERelaySignature _ rid sf =>
      row_status r = VTXOStatusForfeiting ∧
      row_ForfeitTx r = Some (sf_Tx sf) ∧ ForfeitRoundID (row_Descriptor r) = rid
  | EResolver _ _ _ _ _ => row_status r = VTXOStatusUnilateralExit
  | ETerminated _ _ _ =>
      row_status r = VTXOStatusSpent ∨ row_status r = VTXOStatusForfeited
  end.

(** Every effect of the list happens in a row that allows it, and every row on
    the way is one the node can restart from. *)
Fixpoint emits (r : Row) (es : list Effect) : Prop :=
  row_ok r ∧
  match es with
  | [] => True
  | e :: es => effect_ok r e ∧ emits (apply_effect r e) es
  end.

Lemma emits_app r es es' :
  emits r es → emits (apply_effects r es) es' → emits r (es ++ es').
Proof.
  revert r. induction es as [|e es IH]; intros r; simpl; [by intros _ ?|].
  intros (Hr & He & Hes) Hes'. split; [done|]. split; [done|]. by apply IH.
Qed.

Lemma emits_take r es k : emits r es → row_ok (apply_effects r (take k es)).
Proof.
  revert r k. induction es as [|e es IH]; intros r [|k]; simpl; intros (Hr & Hes);
    try done. destruct Hes as [_ Hes]. by apply IH.
Qed.

Lemma apply_effects_app r es es' :
  apply_effects r (es ++ es') = apply_effects (apply_effects r es) es'.
Proof. apply foldl_app. Qed.

Lemma act_ok_ext reads r a a' :
  cfg_VTXO a' = cfg_VTXO a → state a' = state a →
  pendingRefreshDelivery a' = pendingRefreshDelivery a →
  act_ok reads r a → act_ok reads r a'.
Proof. intros H1 H2 H3 []. split; rewrite ?H1, ?H2, ?H3; auto. Qed.

Lemma advanced_pending s s' :
  advanced s s' → isPendingForfeitState s' = isPendingForfeitState s.
Proof. intros [->|[h ->]]; [done|]. by destruct s. Qed.

Lemma act_ok_advance reads r a s :
  advanced (state a) s → act_ok reads r a → act_ok reads r (set_state a s).
Proof.
  intros Ha [Hr Hal Hc Hag Hf Has Hd]. pose proof (advanced_status _ _ Ha) as Hst.
  split; simpl; try done.
  - by rewrite (advanced_VTXO _ _ Ha).
  - unfold agrees in *. by rewrite Hst.
  - intros Hb d last rid c txid tx ->. destruct Ha as [Ha|[h Ha]].
    + by eapply (Hf Hb).
    + destruct (state a); simpl in Ha; try done. injection Ha as -> -> -> -> -> ->.
      by eapply (Hf Hb).
  - by rewrite Hst.
  - intros token Ht. rewrite (advanced_pending _ _ Ha). by eapply Hd.
Qed.

(** A status update on a row. *)
Lemma update_status r u :
  row_status (processStatusUpdate r u) = NewStatus u.
Proof.
  unfold processStatusUpdate, row_status.
  destruct (NewStatus u), (su_ForfeitTx u), (ReleaseSpendReservation u); done.
Qed.

Lemma update_coin r u :
  coin (row_Descriptor (processStatusUpdate r u)) = coin (row_Descriptor r).
Proof.
  unfold processStatusUpdate.
  destruct (NewStatus u), (su_ForfeitTx u), (ReleaseSpendReservation u); done.
Qed.

Lemma update_plain r u :
  NewStatus u ≠ VTXOStatusForfeiting →
  row_ForfeitTx (processStatusUpdate r u) = row_ForfeitTx r.
Proof.
  unfold processStatusUpdate. intros Hn.
  destruct (NewStatus u), (su_ForfeitTx u), (ReleaseSpendReservation u); done.
Qed.

Lemma coin_Outpoint d d' : coin d = coin d' → Outpoint d = Outpoint d'.
Proof. by intros [=]. Qed.

Lemma coin_asset d d' :
  coin d = coin d' → TaprootAssetRoot d = TaprootAssetRoot d'.
Proof. by intros [=]. Qed.

(** Publishing the state the row was just written for. *)
Lemma act_ok_written reads r a u next :
  act_ok reads r a →
  state_VTXO next = cfg_VTXO a → NewStatus u = state_status next →
  state_status next ≠ VTXOStatusFailed →
  (is_Some (TaprootAssetRoot (cfg_VTXO a)) → committed (state_status next) = false) →
  (state_status next = VTXOStatusForfeiting → su_ForfeitTx u ≠ None ∧
    ∀ d last rid c txid tx, next = ForfeitingState d last rid c txid tx →
      tx = su_ForfeitTx u ∧ rid = su_RoundID u) →
  act_ok reads (processStatusUpdate r u)
    (set_delivery (set_state a next) (if isPendingForfeitState next
       then pendingRefreshDelivery a else None)).
Proof.
  intros [Hr Hal Hc Hag Hf Has Hd] Hv Hu Hnf Hasset Hforf.
  split; simpl; try done.
  - split; rewrite ?update_status, ?Hu; try done.
    + by destruct next.
    + intros Hst. destruct (Hforf Hst) as [Htx _].
      unfold processStatusUpdate. rewrite Hu, Hst.
      destruct (su_ForfeitTx u); [by eexists|done].
    + rewrite <- (coin_asset _ _ (eq_sym (update_coin r u))), <- (coin_asset _ _ Hc). done.
  - by rewrite update_coin.
  - left. by rewrite update_status.
  - intros Hb d last rid c txid tx ->. simpl in *.
    destruct (Hforf eq_refl) as [Htx Hall]. destruct (Hall _ _ _ _ _ _ eq_refl) as [-> ->].
    unfold processStatusUpdate. rewrite Hu. by destruct (su_ForfeitTx u).
  - intros token. by destruct (isPendingForfeitState next).
Qed.

(** Writing a status the unpublished actor agrees with. *)
Lemma act_ok_rewritten reads r a u :
  act_ok reads r a → TaprootAssetRoot (cfg_VTXO a) = None →
  agrees (NewStatus u) (state a) →
  NewStatus u ∈ [VTXOStatusLive; VTXOStatusPendingForfeit; VTXOStatusExpired] →
  state_status (state a) ≠ VTXOStatusForfeiting →
  act_ok reads (processStatusUpdate r u) a.
Proof.
  intros [Hr Hal Hc Hag Hf Has Hd] Hasset Hu Hin Hnf. split; try done.
  - split; rewrite ?update_status.
    + intros k Hk. rewrite Hk in Hin. set_solver.
    + intros Hk. rewrite Hk in Hin. set_solver.
    + intros Hk. rewrite Hk in Hin. set_solver.
    + rewrite (coin_asset _ _ (update_coin r u)), <- (coin_asset _ _ Hc), Hasset.
      by intros [].
  - by rewrite update_coin.
  - by rewrite update_status.
  - intros _ d last rid c txid tx Hs. by rewrite Hs in Hnf.
Qed.

(** ** One turn *)

Section turn.
Context {TX : Txscript} {ARK : Arkscript} (cfg : ActorConfig).

Lemma persist_outbox_cases t out :
  (persist_outbox t out = (EWrite <$> updates out, Ok tt)) ∨
  (updates out ≠ [] ∧ ∃ e, persist_outbox t out = ([], Err e)).
Proof.
  destruct (t_write t) as [e|] eqn:Hw.
  - destruct (updates out) as [|u us] eqn:Hu; [left|right; split; [done|]].
    + induction out as [|m out IH]; [done|]. destruct m; simpl in *; auto; done.
    + exists ("persist vtxo status: " +:+ e).
      induction out as [|m out IH]; [done|]. destruct m; simpl in *; auto.
      by rewrite Hw.
  - left. induction out as [|m out IH]; [done|]. destruct m; simpl; auto.
    by rewrite Hw, IH.
Qed.

Definition sends (m : VTXOOutMsg) : list Effect :=
  match m with
  | ForfeitSignatureSubmission op rid sf => tellManager cfg (ERelaySignature op rid sf)
  | ExpiringNotification d blocks reason trigger policy =>
      if cfg_ChainResolver cfg then [EResolver d blocks reason trigger policy] else []
  | VTXOTerminatedNotification op final reason =>
      tellManager cfg (ETerminated op final reason)
  | _ => []
  end.

Definition is_ForfeitRequest (m : VTXOOutMsg) : bool :=
  match m with ForfeitRequest _ _ _ _ => true | _ => false end.

Lemma send_outbox_quiet t a key c out :
  Forall (λ m, is_ForfeitRequest m = false) out →
  send_outbox cfg t a key c out = (mbind sends out, Ok (a, c)).
Proof.
  intros Hq. induction Hq as [|m out Hm Hq IH]; [done|].
  destruct m; simpl in *; try done; by rewrite IH.
Qed.

Lemma rule_sends_ok env e s next out r m eff :
  rule env e s next out → m ∈ out → eff ∈ sends m →
  row_status r = state_status next →
  (∀ d last rid c txid tx, next = ForfeitingState d last rid c txid tx →
    row_ForfeitTx r = tx ∧ ForfeitRoundID (row_Descriptor r) = rid) →
  effect_ok r eff ∧ apply_effect r eff = r.
Proof.
  intros Hr Hm Heff Hst Hf.
  assert (eff ∈ mbind sends out) as Hin
    by (apply list_elem_of_bind; eexists; split; [exact Heff|exact Hm]).
  clear Hm Heff m.
  destruct Hr; simpl in Hin; rewrite ?app_nil_r in Hin; unfold tellManager in Hin;
    repeat match goal with
    | H : context [ if ?b then _ else _ ] |- _ =>
        match b with cfg_Manager _ => destruct b | cfg_ChainResolver _ => destruct b end
    end; simpl in Hin; rewrite ?elem_of_cons, ?elem_of_nil in Hin;
    destruct_or?; try done; subst eff; simpl; auto.
  destruct (Hf _ _ _ _ _ _ eq_refl) as [-> ->]. done.
Qed.

Lemma emits_sends r es :
  row_ok r → (∀ e, e ∈ es → effect_ok r e ∧ apply_effect r e = r) →
  emits r es ∧ apply_effects r es = r.
Proof.
  intros Hr. induction es as [|e es IH]; intros Hes; [simpl; auto|].
  destruct (Hes e) as [He Happ]; [constructor|].
  destruct IH as [IH1 IH2]; [intros; apply Hes; by constructor|].
  simpl. unfold apply_effects in *. simpl. rewrite Happ. done.
Qed.

(** The bookkeeping leaves the row alone. *)
Lemma publish_facts a prior next e es a' :
  publish a prior next e = (es, a') →
  cfg_VTXO a' = cfg_VTXO a ∧ state a' = next ∧
  pendingRefreshDelivery a' =
    (if isPendingForfeitState next then pendingRefreshDelivery a else None) ∧
  (es = [] ∨ ∃ token, es = [EInvalidate token]).
Proof.
  unfold publish. cbv zeta.
  set (a1 := set_state _ next).
  assert (cfg_VTXO a1 = cfg_VTXO a ∧ state a1 = next ∧
    pendingRefreshDelivery a1 = pendingRefreshDelivery a) as (H1 & H2 & H3).
  { subst a1. unfold recordAutomaticRefreshRelease.
    destruct e, prior, next; simpl; try case_match; done. }
  rewrite H3. destruct (pendingRefreshDelivery a) as [token|] eqn:Ht.
  - destruct (isPendingForfeitState next); intros [= <- <-].
    + rewrite H3. auto.
    + simpl. eauto 6.
  - intros [= <- <-]. rewrite H3. by destruct (isPendingForfeitState next); auto.
Qed.

Lemma emits_invalidate r es :
  row_ok r → es = [] ∨ (∃ token, es = [EInvalidate token]) →
  emits r es ∧ apply_effects r es = r.
Proof. intros Hr [->|[token ->]]; split; simpl; auto. Qed.

Lemma canAutoRefresh_asset c d h :
  canAutoRefresh c d h = true → TaprootAssetRoot d = None.
Proof. unfold canAutoRefresh. by destruct (TaprootAssetRoot d). Qed.

Lemma sign_forfeit_asset d evt env sf :
  sign_forfeit d evt env = Ok sf → TaprootAssetRoot d = None.
Proof.
  unfold sign_forfeit. intros Hs. inv_ok.
  apply wrap_ok, resolve_ok in E as [HE _]. done.
Qed.

(** No rule puts a claim on an asset. *)
Lemma rule_asset env e s next out :
  rule env e s next out → is_Some (TaprootAssetRoot (state_VTXO s)) →
  committed (state_status s) = false → committed (state_status next) = false.
Proof.
  intros Hr Hasset Hs. destruct Hr; simpl in *; try done;
    repeat match goal with
    | H : canAutoRefresh _ _ _ = true |- _ => apply canAutoRefresh_asset in H
    | H : sign_forfeit _ _ _ = Ok _ |- _ => apply sign_forfeit_asset in H
    | H : is_Some _ |- _ => destruct H
    end; try congruence.
  - destruct H0 as [(? & -> & _)| ->]; simpl in *; congruence.
  - by destruct s.
Qed.

(** A forfeiting state is either the same forfeit or the one just marked. *)
Lemma rule_forfeiting env e s next out d last rid c txid tx :
  rule env e s next out → next = ForfeitingState d last rid c txid tx →
  (updates out = [] ∧ ∃ d' last' c' txid', s = ForfeitingState d' last' rid c' txid' tx) ∨
  ∃ tx', tx = Some tx' ∧
    updates out = [mkStatusUpdate (Outpoint (state_VTXO s)) VTXOStatusForfeiting rid tx false].
Proof.
  intros Hr Hn. destruct Hr; try discriminate Hn; try (subst; left; by eauto 10).
  - injection Hn as -> -> -> -> -> ->. left. eauto 10.
  - by destruct (after_release_cases (env_ExpiryConfig env) (state_VTXO s) h) as [E|E];
      rewrite E in Hn.
  - by destruct (after_release_cases (env_ExpiryConfig env) d0 h) as [E|E];
      rewrite E in Hn.
  - injection Hn as <- <- <- <- <- <-. right. eauto.
Qed.

(** Notifications without a status update only repeat a running exit. *)
Lemma rule_resend env e s next out :
  rule env e s next out → updates out = [] → mbind sends out ≠ [] →
  next = s ∧ state_status s = VTXOStatusUnilateralExit.
Proof. intros Hr Hu Hs. destruct Hr; simpl in *; done. Qed.

Lemma lifecycle_from_failed st : ¬ lifecycle VTXOStatusFailed st.
Proof. intros Hl. inversion Hl; set_solver. Qed.

Lemma lifecycle_not_failed st st' : lifecycle st st' → st' ≠ VTXOStatusFailed.
Proof. intros Hl. destruct Hl; try done. intros ->. set_solver. Qed.

(** The row and the actor after the write of a rule and its publication. *)
Lemma rule_published reads env r a e next out a' :
  act_ok reads r a → rule env e (state a) next out →
  cfg_VTXO a' = cfg_VTXO a → state a' = next →
  pendingRefreshDelivery a' =
    (if isPendingForfeitState next then pendingRefreshDelivery a else None) →
  act_ok reads (apply_effects r (EWrite <$> updates out)) a'.
Proof.
  intros Ha Hrule H1 H2 H3. pose proof (rule_VTXO _ _ _ _ _ Hrule) as Hv.
  pose proof (ao_alias _ _ _ Ha) as Hal.
  pose proof (λ d last rid c txid tx, rule_forfeiting _ _ _ _ _ d last rid c txid tx Hrule)
    as Hfor.
  destruct (rule_update _ _ _ _ _ Hrule)
    as [(Hst & Hu)|[(re & err & rec & -> & -> & ->)|(Hlc & u & Hu & Hn & _ & _)]].
  - rewrite Hu in *. simpl. destruct Ha as [Hr _ Hc Hag Hf Has Hd].
    split; try done; rewrite ?H1, ?H2, ?H3, ?Hst; try congruence; auto.
    + unfold agrees in *. by rewrite Hst.
    + intros Hb d last rid c txid tx Heq.
      destruct (Hfor _ _ _ _ _ _ Heq) as [(_ & d' & last' & c' & txid' & Hs)|(? & _ & ?)];
        [|done]. by eapply Hf.
    + intros token. by destruct (isPendingForfeitState next).
  - simpl. destruct Ha as [Hr _ Hc Hag Hf Has Hd].
    split; try done; rewrite ?H1, ?H2, ?H3; simpl; auto; try done.
    right. by left.
  - rewrite Hu in *. simpl.
    eapply act_ok_ext; [..|apply (act_ok_written _ _ _ u next Ha)]; try done;
      [congruence|by eapply lifecycle_not_failed| |].
    + intros Hasset. apply (rule_asset _ _ _ _ _ Hrule); [by rewrite Hal|].
      by apply (ao_asset _ _ _ Ha).
    + intros Hst. destruct next; try discriminate Hst.
      destruct (Hfor _ _ _ _ _ _ eq_refl) as [(? & _)|(tx' & -> & [= ->])]; [done|].
      simpl. split; [done|]. by intros ?????? [= <- <- <- <- <- <-].
Qed.

(** What the row says when the notifications go out. *)
Lemma rule_written_row reads env r a e next out :
  act_ok reads r a → rule env e (state a) next out → mbind sends out ≠ [] →
  let r1 := apply_effects r (EWrite <$> updates out) in
  row_status r1 = state_status next ∧
  (∀ d last rid c txid tx, next = ForfeitingState d last rid c txid tx →
    row_ForfeitTx r1 = tx ∧ ForfeitRoundID (row_Descriptor r1) = rid).
Proof.
  intros Ha Hrule Hs. cbv zeta.
  destruct (rule_update _ _ _ _ _ Hrule)
    as [(Hst & Hu)|[(re & err & rec & -> & -> & ->)|(Hlc & u & Hu & Hn & _ & _)]].
  - destruct (rule_resend _ _ _ _ _ Hrule Hu Hs) as [-> Hex]. rewrite Hu. simpl.
    split; [|intros ?????? Heq; by rewrite Heq in Hex].
    destruct (ao_agree _ _ _ Ha) as [?|[Hf|[_ [Hf|Hf]]]]; congruence.
  - done.
  - rewrite Hu. simpl. split; [by rewrite update_status|].
    intros d last rid c txid tx Heq.
    destruct (rule_forfeiting _ _ _ _ _ _ _ _ _ _ _ Hrule Heq) as [(? & _)|(tx' & -> & Hu')];
      [congruence|].
    rewrite Hu in Hu'. injection Hu' as ->. done.
Qed.

Lemma emits_writes reads env r a e next out :
  act_ok reads r a → rule env e (state a) next out →
  row_ok (apply_effects r (EWrite <$> updates out)) →
  emits r (EWrite <$> updates out).
Proof.
  intros Ha Hrule Hr1. pose proof (ao_row _ _ _ Ha) as Hr.
  destruct (rule_update _ _ _ _ _ Hrule)
    as [(_ & Hu)|[(re & err & rec & -> & -> & ->)|(Hlc & u & Hu & Hn & Ho & Hs)]];
    rewrite ?Hu in *; simpl in *; auto.
  split; [done|]. split; [|done]. split_and!.
  - rewrite Ho, (ao_alias _ _ _ Ha). apply coin_Outpoint, (ao_coin _ _ _ Ha).
  - rewrite Hn. destruct (ao_agree _ _ _ Ha) as [->|[Hf|[-> [Hf|Hf]]]].
    + by left.
    + rewrite Hf in Hlc. by apply lifecycle_from_failed in Hlc.
    + right. rewrite Hf in Hlc. auto.
    + right. rewrite Hf in Hlc. auto.
  - intros Hsp. destruct (ao_agree _ _ _ Ha) as [Hst|[Hf|[Hst _]]]; [| |congruence].
    + rewrite Hst in Hsp. destruct (state a); try discriminate Hsp. simpl in *.
      unfold processStatusUpdate. rewrite Hs, Hn.
      destruct (state_status next) eqn:E; try done.
      exfalso. clear -Hlc. inversion Hlc; set_solver.
    + rewrite Hf in Hlc. by apply lifecycle_from_failed in Hlc.
Qed.

(** The rules other than maintenance: write, send, publish. *)
Lemma quiet_turn reads t r a e next out key es res :
  act_ok reads r a →
  rule (turn_env cfg t (t_fresh t)) e (state a) next out →
  Forall (λ m, is_ForfeitRequest m = false) out →
  processOutboxWithOperatorKey cfg t a key out = (es, res) →
  match res with
  | Err _ => es = []
  | Ok (a1, _) => a1 = a ∧ ∀ es' a', publish a (state a) next e = (es', a') →
      emits r (es ++ es') ∧ act_ok reads (apply_effects r (es ++ es')) a'
  end.
Proof.
  intros Ha Hrule Hq. unfold processOutboxWithOperatorKey.
  destruct (persist_outbox_cases t out) as [->|[_ [err ->]]]; [|by intros [= <- <-]].
  rewrite (send_outbox_quiet _ _ _ _ _ Hq). intros [= <- <-]. split; [done|].
  intros es' a' Hpub. apply publish_facts in Hpub as (Hp1 & Hp2 & Hp3 & Hp4).
  pose proof (rule_published _ _ _ _ _ _ _ _ Ha Hrule Hp1 Hp2 Hp3) as Ha'.
  set (r1 := apply_effects r (EWrite <$> updates out)) in *.
  pose proof (ao_row _ _ _ Ha') as Hr1.
  assert (emits r1 (mbind sends out) ∧ apply_effects r1 (mbind sends out) = r1)
    as [Hs1 Hs2].
  { apply emits_sends; [done|]. intros eff Heff.
    destruct (rule_written_row _ _ _ _ _ _ _ Ha Hrule) as [Hst Hfor].
    { by destruct (mbind sends out); [apply not_elem_of_nil in Heff|]. }
    apply list_elem_of_bind in Heff as (m & Heff & Hm).
    by eapply rule_sends_ok. }
  destruct (emits_invalidate r1 es' Hr1 Hp4) as [Hi1 Hi2].
  rewrite !apply_effects_app. fold r1. rewrite Hs2, Hi2. split; [|done].
  apply emits_app; [apply emits_app; [by eapply emits_writes|done]|].
  rewrite apply_effects_app. fold r1. by rewrite Hs2.
Qed.

(** A maintenance request of a live or expired actor: the reservation is written,
    then either relayed or rolled back. *)
Lemma send_ForfeitRequest_cases t a key op h expand member es res :
  send_ForfeitRequest cfg t a key op h expand member = (es, res) →
  match res with
  | Ok (a1, _, _) =>
      cfg_VTXO a1 = cfg_VTXO a ∧ state a1 = state a ∧
      (pendingRefreshDelivery a1 = pendingRefreshDelivery a ∨ member = false) ∧
      (∀ e, e ∈ es → (∃ req, e = ERelayRefresh req) ∨ ∃ n req, e = EDeferRefresh n req) ∧
      (member = true → es = [])
  | Err _ =>
      (member = true ∧ isPendingForfeitState (state a) = true → es = []) ∧
      (es = [] ∨ es = [EWrite (mkStatusUpdate (Outpoint (cfg_VTXO a))
        (release_status (state a)) "" None false)])
  end.
Proof.
  unfold send_ForfeitRequest. cbv zeta.
  destruct (let* k := _ in _) as [[k tmpl]|err].
  - destruct member.
    + intros [= <- <-]. split_and!; auto. by intros e Hin%not_elem_of_nil.
    + unfold deliver_refresh. destruct (cfg_Manager cfg); [|].
      * destruct (t_busy t); intros [= <- <-]; simpl; split_and!; auto; try done;
          intros e ->%list_elem_of_singleton; eauto.
      * intros [= <- <-]. split_and!; auto. by intros e Hin%not_elem_of_nil.
  - destruct (member && isPendingForfeitState (state a)) eqn:Hm.
    + intros [= <- <-]. auto.
    + assert (member = true ∧ isPendingForfeitState (state a) = true → False) as Hno
        by (intros [-> Hp]; by rewrite Hp in Hm).
      destruct (t_rollback t); intros [= <- <-].
      * auto.
      * split; [by intros ?%Hno|]. right. by destruct (state a).
Qed.

Lemma refresh_turn reads t r a e next op h expand member key es res :
  let out := [ForfeitRequest op h expand member;
              status_update (cfg_VTXO a) VTXOStatusPendingForfeit] in
  act_ok reads r a →
  rule (turn_env cfg t (t_fresh t)) e (state a) next out →
  state_status (state a) = VTXOStatusLive ∨ state_status (state a) = VTXOStatusExpired →
  TaprootAssetRoot (cfg_VTXO a) = None →
  isPendingForfeitState next = true →
  processOutboxWithOperatorKey cfg t a key out = (es, res) →
  match res with
  | Err _ => emits r es ∧ act_ok reads (apply_effects r es) a
  | Ok (a1, _) => ∀ es' a', publish a1 (state a) next e = (es', a') →
      emits r (es ++ es') ∧ act_ok reads (apply_effects r (es ++ es')) a'
  end.
Proof.
  intros out Ha Hrule Hst Hasset Hpend.
  set (u := mkStatusUpdate (Outpoint (cfg_VTXO a)) VTXOStatusPendingForfeit "" None false).
  assert (act_ok reads (processStatusUpdate r u) a) as Hstale.
  { apply act_ok_rewritten; auto; [|set_solver|destruct Hst; congruence].
    right. right. done. }
  pose proof (ao_row _ _ _ Ha) as Hr. pose proof (ao_row _ _ _ Hstale) as Hr1.
  assert (emits r [EWrite u]) as (_ & Hw & _) by exact (emits_writes _ _ _ _ _ _ _ Ha Hrule Hr1).
  unfold processOutboxWithOperatorKey, out. simpl. fold u.
  destruct (t_write t) as [err|]; [by intros [= <- <-]|]. simpl.
  destruct (send_ForfeitRequest cfg t a key op h expand member) as [es1 res1] eqn:Hs.
  apply send_ForfeitRequest_cases in Hs. destruct res1 as [[[a1 k] req]|err].
  - destruct Hs as (H1 & H2 & _ & H4 & _). simpl. intros [= <- <-].
    intros es' a' Hpub. apply publish_facts in Hpub as (Hp1 & Hp2 & Hp3 & Hp4).
    rewrite Hpend in Hp3.
    assert (act_ok reads (processStatusUpdate r u) (set_delivery a' None)) as Ha'.
    { pose proof (rule_published reads _ r a e next out (set_delivery (set_state a next)
        (pendingRefreshDelivery a)) Ha Hrule eq_refl eq_refl ltac:(by rewrite Hpend)) as Hp.
      unfold out in Hp. simpl in Hp. fold u in Hp.
      destruct Hp as [Hp_r Hp_al Hp_c Hp_ag Hp_f Hp_as Hp_d]. simpl in *.
      split; simpl; rewrite ?Hp1, ?H1, ?Hp2; auto; done. }
    assert (act_ok reads (processStatusUpdate r u) a') as Ha''.
    { destruct Ha' as [Hp_r Hp_al Hp_c Hp_ag Hp_f Hp_as Hp_d]. simpl in *.
      split; auto. intros token _. by rewrite Hp2. }
    assert (emits (processStatusUpdate r u) (es1 ++ []) ∧
      apply_effects (processStatusUpdate r u) (es1 ++ []) = processStatusUpdate r u)
      as [Hs1 Hs2].
    { apply emits_sends; [done|]. rewrite app_nil_r. intros eff Heff.
      destruct (H4 eff Heff) as [[req' ->]|(n & req' & ->)]; simpl;
        split; try done; by rewrite update_status. }
    destruct (emits_invalidate _ es' Hr1 Hp4) as [Hi1 Hi2].
    change ((EWrite u :: es1 ++ []) ++ es') with (EWrite u :: ((es1 ++ []) ++ es')).
    split.
    + split; [done|]. split; [done|]. simpl. apply emits_app; [done|]. by rewrite Hs2.
    + change (apply_effects r (EWrite u :: ?l)) with
        (apply_effects (processStatusUpdate r u) l).
      rewrite apply_effects_app, Hs2, Hi2. done.
  - intros [= <- <-]. destruct Hs as [_ [->| ->]].
    + split; [|done]. simpl. auto.
    + set (u' := mkStatusUpdate _ (release_status (state a)) _ _ _).
      assert (act_ok reads (processStatusUpdate (processStatusUpdate r u) u') a) as Hback.
      { apply act_ok_rewritten; auto.
        - left. subst u'. simpl. destruct (state a); simpl in *; destruct Hst; done.
        - subst u'. simpl. destruct (state a); simpl; set_solver.
        - destruct Hst; congruence. }
      split; [|done]. pose proof (ao_row _ _ _ Hback). simpl. split_and!; auto.
      split_and!; [|left|].
      * simpl. apply coin_Outpoint, (ao_coin _ _ _ Ha).
      * rewrite update_status. apply lc_release; [set_solver|].
        subst u'. simpl. destruct (state a); simpl; set_solver.
      * by rewrite update_status.
Qed.

(** An adopted sibling writes nothing and sends nothing. *)
Lemma adopt_turn reads t r a e op h key es res :
  act_ok reads r a → isPendingForfeitState (state a) = true →
  processOutboxWithOperatorKey cfg t a key [ForfeitRequest op h false true] = (es, res) →
  match res with
  | Err _ => es = []
  | Ok (a1, _) => ∀ es' a', publish a1 (state a) (state a) e = (es', a') →
      emits r (es ++ es') ∧ act_ok reads (apply_effects r (es ++ es')) a'
  end.
Proof.
  intros Ha Hpend. unfold processOutboxWithOperatorKey. simpl.
  destruct (send_ForfeitRequest cfg t a key op h false true) as [es1 res1] eqn:Hs.
  apply send_ForfeitRequest_cases in Hs. destruct res1 as [[[a1 k] req]|err].
  - destruct Hs as (H1 & H2 & H3 & _ & H5). rewrite H5 by done. simpl.
    intros [= <- <-] es' a' (Hp1 & Hp2 & Hp3 & Hp4)%publish_facts.
    destruct (emits_invalidate _ es' (ao_row _ _ _ Ha) Hp4) as [Hi1 Hi2].
    simpl. rewrite Hi2. split; [done|]. rewrite Hpend in Hp3.
    apply (act_ok_ext _ _ a); [by rewrite Hp1|done| |done].
    rewrite Hp3. by destruct H3.
  - destruct Hs as [Hs _]. rewrite Hs by done. by intros [= <- <-].
Qed.

(** The outboxes a rule can have. *)
Lemma outbox_kinds env e s next out :
  rule env e s next out →
  Forall (λ m, is_ForfeitRequest m = false) out ∨
  (∃ op h expand member, out = [ForfeitRequest op h expand member;
      status_update (state_VTXO s) VTXOStatusPendingForfeit] ∧
    (state_status s = VTXOStatusLive ∨ state_status s = VTXOStatusExpired) ∧
    TaprootAssetRoot (state_VTXO s) = None ∧ isPendingForfeitState next = true) ∨
  (∃ op h, out = [ForfeitRequest op h false true] ∧ next = s ∧
    isPendingForfeitState s = true).
Proof.
  intros Hr. destruct Hr; try (left; repeat constructor; done).
  - right. left. do 4 eexists. split; [done|].
    split_and!; simpl; auto; by eapply canAutoRefresh_asset.
  - right. left. do 4 eexists. split; [done|].
    split_and!; simpl; auto; by eapply canAutoRefresh_asset.
  - right. right. by do 2 eexists.
Qed.

(** The state machine part of a turn. *)
Lemma process_ok reads t r a e key es a' res :
  act_ok reads r a → process cfg t a e key = (es, a', res) →
  emits r es ∧ act_ok reads (apply_effects r es) a'.
Proof.
  intros Ha. unfold process.
  pose proof (ProcessEvent_sound (turn_env cfg t (t_fresh t)) (state a) e) as [Hadv Hrule].
  destruct (ProcessEvent (state a) e _) as [s p]. simpl in Hadv, Hrule.
  pose proof (act_ok_advance _ _ _ _ Hadv Ha) as Has.
  pose proof (ao_row _ _ _ Has) as Hr.
  destruct p as [tr|err]; [|intros [= <- <- <-]; simpl; auto].
  specialize (Hrule tr eq_refl).
  pose proof (ao_alias _ _ _ Has) as Hal. simpl in Hal.
  destruct (processOutboxWithOperatorKey cfg t (set_state a s) key (Outbox tr))
    as [es1 res1] eqn:Hproc.
  assert (match res1 with
    | Err _ => emits r es1 ∧ act_ok reads (apply_effects r es1) (set_state a s)
    | Ok (a1, _) => ∀ es' a', publish a1 s (NextState tr) e = (es', a') →
        emits r (es1 ++ es') ∧ act_ok reads (apply_effects r (es1 ++ es')) a'
    end) as Hturn.
  { destruct (outbox_kinds _ _ _ _ _ Hrule)
      as [Hq|[(op & h & ex & mem & Hout & Hst & Hasset & Hpend)|(op & h & Hout & Hn & Hp)]].
    - pose proof (quiet_turn _ _ _ _ _ _ _ _ _ _ Has Hrule Hq Hproc) as Hturn.
      destruct res1 as [[a1 req]|err]; [by destruct Hturn as [-> Hturn]|].
      subst es1. simpl. auto.
    - rewrite Hal in *. rewrite Hout in *. by eapply (refresh_turn reads t r (set_state a s)).
    - rewrite Hout, Hn in *.
      pose proof (adopt_turn _ _ _ _ e _ _ _ _ _ Has Hp Hproc) as Hturn.
      destruct res1 as [[a1 req]|err]; [done|]. subst es1. simpl. auto. }
  destruct res1 as [[a1 req]|err]; [|by intros [= <- <- <-]].
  destruct (publish a1 s (NextState tr) e) as [es' a''] eqn:Hpub.
  intros [= <- <- <-]. by apply Hturn.
Qed.

(** The steps before the state machine only advance heights. *)
Lemma deferAutomaticRefresh_state a c h :
  let a' := (deferAutomaticRefresh a c h).1 in
  cfg_VTXO a' = cfg_VTXO a ∧ advanced (state a) (state a') ∧
  pendingRefreshDelivery a' = pendingRefreshDelivery a.
Proof.
  unfold deferAutomaticRefresh. cbv zeta.
  repeat case_match; simpl; split_and!; try done; try (by left);
    right; eexists; by rewrite ?H1, ?H2.
Qed.

Lemma preflightAutoRefresh_state a c fresh fetch e :
  let a' := (preflightAutoRefresh a c fresh fetch e).1 in
  cfg_VTXO a' = cfg_VTXO a ∧ advanced (state a) (state a') ∧
  pendingRefreshDelivery a' = pendingRefreshDelivery a.
Proof.
  unfold preflightAutoRefresh. cbv zeta.
  assert (advanced (state a) (state a)) as Hrefl by (by left).
  destruct fetch as [fetch|]; [|simpl; auto].
  destruct (automaticRefreshHeight e) as [h|]; [|simpl; auto].
  destruct (TaprootAssetRoot (cfg_VTXO a)); [simpl; auto|].
  assert (∀ d l, state a = LiveState d l → advanced (state a) (LiveState d h)) as Hadv.
  { intros d l ->. right. by exists h. }
  destruct (state a) eqn:Hs; destruct e; simpl; auto;
    repeat case_match; simpl; rewrite ?Hs; eauto.
Qed.

Lemma act_ok_moved reads r a a' :
  act_ok reads r a →
  cfg_VTXO a' = cfg_VTXO a → advanced (state a) (state a') →
  pendingRefreshDelivery a' = pendingRefreshDelivery a →
  act_ok reads r a'.
Proof.
  intros Ha H1 H2 H3.
  eapply act_ok_ext; [..|apply (act_ok_advance _ _ _ _ H2 Ha)]; done.
Qed.

Lemma maintain_ok reads t r a e key es a' res :
  act_ok reads r a → maintain cfg t a e key = (es, a', res) →
  emits r es ∧ act_ok reads (apply_effects r es) a'.
Proof.
  intros Ha. unfold maintain. cbv zeta.
  set (c := with_terms (cfg_Expiry cfg) (t_terms t)).
  set (fresh := with_terms (cfg_Expiry cfg) (t_fresh t)).
  destruct (match automaticRefreshHeight e with Some _ => _ | None => _ end)
    as [a1 deferred] eqn:Hdefer.
  assert (act_ok reads r a1) as Ha1.
  { destruct (automaticRefreshHeight e) as [h|]; [|by injection Hdefer as <- _].
    set (a0 := set_lastObservedHeight a _) in Hdefer.
    destruct (deferAutomaticRefresh_state a0 c h) as (H1 & H2 & H3).
    rewrite Hdefer in *. by eapply act_ok_moved. }
  pose proof (ao_row _ _ _ Ha1) as Hr.
  destruct deferred; [intros [= <- <- <-]; simpl; auto|].
  set (e' := preflightCriticalExit a1 c (t_assess t) e).
  destruct (preflightAutoRefresh_state a1 c fresh (t_fetch t) e') as (H1 & H2 & H3).
  destruct (preflightAutoRefresh a1 c fresh (t_fetch t) e') as [a2 [[k d]|err]];
    simpl in *; pose proof (act_ok_moved _ _ _ _ Ha1 H1 H2 H3) as Ha2.
  - destruct d; [intros [= <- <- <-]; simpl; auto|]. by apply process_ok.
  - intros [= <- <- <-]. simpl. auto.
Qed.

Lemma set_state_VTXO_facts s d :
  state_VTXO (set_state_VTXO s d) = d ∧ state_status (set_state_VTXO s d) = state_status s ∧
  isPendingForfeitState (set_state_VTXO s d) = isPendingForfeitState s.
Proof. by destruct s. Qed.

Lemma repair_ok reads r a repair es a' :
  act_ok reads r a → repairLegacyCreatedHeight a repair = (es, a') →
  emits r es ∧ act_ok reads (apply_effects r es) a'.
Proof.
  intros Ha. pose proof (ao_row _ _ _ Ha) as Hr. unfold repairLegacyCreatedHeight.
  destruct repair as [answer|]; [|intros [= <- <-]; simpl; auto]. cbv zeta.
  destruct (_ || _); [intros [= <- <-]; simpl; auto|].
  destruct answer as [h|]; [|intros [= <- <-]; simpl; auto].
  intros [= <- <-]. destruct Ha as [_ Hal Hc Hag Hf Has Hd].
  destruct (set_state_VTXO_facts (state a) (set_CreatedHeight (cfg_VTXO a) h))
    as (H1 & H2 & H3).
  set (r' := apply_effect r (ERepair h)).
  assert (row_ok r') as Hr'.
  { destruct Hr as [R1 R2 R3 R4]. by split. }
  split; [simpl; auto|].
  assert (coin (set_CreatedHeight (cfg_VTXO a) h) =
          coin (set_CreatedHeight (row_Descriptor r) h)) as Hc'
    by exact (f_equal (λ d, set_CreatedHeight d h) Hc).
  split; try done.
  - unfold agrees in *. simpl. by rewrite H2.
  - intros Hb d last rid c txid tx Heq. destruct (state a); try discriminate Heq.
    injection Heq as _ <- <- <- <- <-. by eapply (Hf Hb).
  - simpl. by rewrite H2.
  - intros token Ht. simpl. rewrite H3. by eapply Hd.
Qed.

Lemma receive_event_ok reads t r a e es a' res :
  act_ok reads r a → receive_event cfg t a e = (es, a', res) →
  emits r es ∧ act_ok reads (apply_effects r es) a'.
Proof.
  intros Ha. unfold receive_event.
  destruct (match e with BlockEpochEvent _ => _ | _ => _ end) as [es1 a1] eqn:Hrep.
  assert (emits r es1 ∧ act_ok reads (apply_effects r es1) a1) as [Hem Ha1].
  { pose proof (ao_row _ _ _ Ha) as Hr.
    destruct e; try (by injection Hrep as <- <-; simpl; auto).
    eapply repair_ok; [|exact Hrep]. by eapply act_ok_ext; [..|exact Ha]. }
  destruct (translate_release a1 e) as [e'|]; [|by intros [= <- <- <-]].
  destruct (maintain cfg t a1 e' _) as [[es2 a2] r2] eqn:Hm.
  intros [= <- <- <-]. rewrite apply_effects_app.
  destruct (maintain_ok _ _ _ _ _ _ _ _ _ Ha1 Hm) as [Hem2 Ha2].
  split; [by apply emits_app|done].
Qed.

(** A turn keeps the row and the actor consistent, whatever its callbacks
    answer, and every effect on the way is permitted by the row. *)
Lemma Receive_ok reads t r a msg es a' res :
  act_ok reads r a → Receive cfg t a msg = (es, a', res) →
  emits r es ∧ act_ok reads (apply_effects r es) a'.
Proof.
  intros Ha. destruct msg as [e|tip]; simpl; [by apply receive_event_ok|].
  destruct (startTipEpoch a tip); [by apply receive_event_ok|].
  intros [= <- <- <-]. split; [|done]. split; [apply (ao_row _ _ _ Ha)|done].
Qed.

End turn.
