(* ===== verification/VtxoWorld.v ===== *)
(** * The VTXO actor through failures, crashes and restarts

    The executions of one VTXO: turns with arbitrary messages and arbitrary
    answers of the callbacks, crashes after any prefix of the effects of a turn,
    restarts from the row, and spend sessions that record their reservation.
    The theorems of this file hold in every reachable world. *)

From S2P Require Import Prelude RecoveryProof VtxoExpiry VtxoForfeit VtxoFsm VtxoActor VtxoSafety.
Local Open Scope Z_scope.

(** The durable row, the actor while the node runs, and every effect so far with
    the row it happened in. *)
Record World := mkWorld {
  w_row : Row;
  w_actor : option Actor;
  w_trace : list (Row * Effect);
}.

(** The rows in which the effects of a list happen. *)
Fixpoint snapshots (r : Row) (es : list Effect) : list (Row * Effect) :=
  match es with
  | [] => []
  | e :: es => (r, e) :: snapshots (apply_effect r e) es
  end.

Definition set_Reserved (r : Row) (b : bool) : Row :=
  mkRow (row_Descriptor r) (row_ForfeitTx r) b.

Section world.
Context {TX : Txscript} {ARK : Arkscript} (cfg : ActorConfig).

(** With [reads] the forfeit transaction can be read back at every restart;
    without it the read may also fail, which the code only logs. *)
Inductive step (reads : bool) : World → World → Prop :=
| step_turn w t a msg es a' res :
    w_actor w = Some a → Receive cfg t a msg = (es, a', res) →
    step reads w (mkWorld (apply_effects (w_row w) es) (Some a')
      (w_trace w ++ snapshots (w_row w) es))
| step_crash w t a msg es a' res k :
    w_actor w = Some a → Receive cfg t a msg = (es, a', res) →
    step reads w (mkWorld (apply_effects (w_row w) (take k es)) None
      (w_trace w ++ snapshots (w_row w) (take k es)))
| step_boot w forfeitTx :
    w_actor w = None →
    forfeitTx = Ok (GetForfeitTx (w_row w)) ∨ reads = false ∧ (∃ e, forfeitTx = Err e) →
    step reads w (mkWorld (w_row w)
      (Some (NewVTXOActor (row_Descriptor (w_row w)) forfeitTx)) (w_trace w))
| step_session w b :
    step reads w (mkWorld (set_Reserved (w_row w) b) (w_actor w) (w_trace w)).

(** A node starts from a stored row. *)
Definition initial (w : World) : Prop :=
  row_ok (w_row w) ∧ w_actor w = None ∧ w_trace w = [].

Definition reachable (reads : bool) (w : World) : Prop :=
  ∃ w0, initial w0 ∧ rtc (step reads) w0 w.

(** ** The invariant *)

Record world_ok (reads : bool) (w : World) : Prop := {
  wo_row : row_ok (w_row w);
  wo_actor : ∀ a, w_actor w = Some a → act_ok reads (w_row w) a;
  wo_trace : ∀ r e, (r, e) ∈ w_trace w → effect_ok r e;
}.

Lemma emits_snapshots r es :
  emits r es → ∀ r' e, (r', e) ∈ snapshots r es → effect_ok r' e.
Proof.
  revert r. induction es as [|e es IH]; intros r; simpl.
  - by intros _ r' e' Hin%not_elem_of_nil.
  - intros (_ & He & Hes) r' e' [[= -> ->]|Hin]%elem_of_cons; [done|]. by eapply IH.
Qed.

Lemma emits_prefix r es k : emits r es → emits r (take k es).
Proof.
  revert r k. induction es as [|e es IH]; intros r [|k]; simpl; intros (Hr & Hes);
    try (split; done). destruct Hes. auto.
Qed.

Lemma statusToState_status d tx :
  (∀ k, Status d ≠ VTXOStatusOther k) → state_status (statusToState d tx) = Status d.
Proof. intros Hd. unfold statusToState. destruct (Status d) eqn:E; try done. by destruct (Hd k). Qed.

Lemma statusToState_VTXO d tx : state_VTXO (statusToState d tx) = d.
Proof. unfold statusToState. by destruct (Status d). Qed.

Lemma NewVTXOActor_ok reads r forfeitTx :
  row_ok r →
  forfeitTx = Ok (GetForfeitTx r) ∨ reads = false ∧ (∃ e, forfeitTx = Err e) →
  act_ok reads r (NewVTXOActor (row_Descriptor r) forfeitTx).
Proof.
  intros Hr Htx. pose proof Hr as [R1 R2 R3 R4].
  pose proof (statusToState_status (row_Descriptor r) forfeitTx R1) as Hst.
  split; simpl; auto; try done.
  - apply statusToState_VTXO.
  - by left.
  - intros -> d last rid c txid tx Heq.
    destruct Htx as [-> |[? _]]; [|done].
    unfold statusToState in Heq. destruct (Status (row_Descriptor r)); try discriminate Heq.
    by injection Heq as _ _ <- _ _ <-.
  - intros Ha. rewrite Hst. auto.
Qed.

Lemma row_ok_reserved r b : row_ok r → row_ok (set_Reserved r b).
Proof. by intros []. Qed.

Lemma vtxo_step_ok reads w w' : world_ok reads w → step reads w w' → world_ok reads w'.
Proof.
  intros [Hr Ha Ht] Hs.
  destruct Hs as [w t a msg es a' res Hw Hrec|w t a msg es a' res k Hw Hrec
    |w forfeitTx Hw Htx|w b].
  - destruct (Receive_ok _ _ _ _ _ _ _ _ _ (Ha a Hw) Hrec) as [Hem Ha'].
    split; simpl.
    + apply (ao_row _ _ _ Ha').
    + by intros ? [= <-].
    + intros r e [Hin|Hin]%elem_of_app; [by apply Ht|]. by eapply emits_snapshots.
  - destruct (Receive_ok _ _ _ _ _ _ _ _ _ (Ha a Hw) Hrec) as [Hem _].
    split; simpl; [by apply emits_take|done|].
    intros r e [Hin|Hin]%elem_of_app; [by apply Ht|].
    eapply emits_snapshots; [by apply emits_prefix|done].
  - split; simpl; auto. intros ? [= <-]. by apply NewVTXOActor_ok.
  - split; simpl; auto; [by apply row_ok_reserved|].
    intros a Hw. destruct (Ha a Hw) as [R A C G F S D]. split; auto.
    by apply row_ok_reserved.
Qed.

Lemma vtxo_reachable_ok reads w : reachable reads w → world_ok reads w.
Proof.
  intros (w0 & (Hr & Hn & Ht) & Hsteps).
  assert (world_ok reads w0) as H0.
  { split; [done| |]; [by rewrite Hn|]. rewrite Ht. by intros r e Hin%not_elem_of_nil. }
  clear Hr Hn Ht. induction Hsteps; [done|]. eauto using vtxo_step_ok.
Qed.

(** ** Properties *)

(** C39 Whatever fails, crashes or restarts, the stored row stays well formed:
    its status is one of the eight durable ones, a forfeiting row holds the
    signed forfeit transaction, and a coin that carries an asset is never
    reserved for a round or a spend, on disk or in memory. *)
Theorem vtxo_row_well_formed reads w :
  reachable reads w →
  row_ok (w_row w) ∧
  (∀ a, w_actor w = Some a → is_Some (TaprootAssetRoot (cfg_VTXO a)) →
    committed (state_status (state a)) = false).
Proof.
  intros Hw%vtxo_reachable_ok. split; [apply (wo_row _ _ Hw)|].
  intros a Ha. apply (ao_asset _ _ _ (wo_actor _ _ Hw a Ha)).
Qed.

(** In every reachable world the row carries the status of the running
    state machine and describes the same coin, so a restart resumes where the
    actor was.  The two exceptions are a VTXO failed in memory, whose row keeps
    the last status, and a row left pending by a reservation whose rollback
    could not be written while the actor stayed live or expired. *)
Theorem vtxo_row_agrees reads w a :
  reachable reads w → w_actor w = Some a →
  agrees (row_status (w_row w)) (state a) ∧
  state_VTXO (state a) = cfg_VTXO a ∧
  coin (cfg_VTXO a) = coin (row_Descriptor (w_row w)).
Proof.
  intros Hw%vtxo_reachable_ok Ha. destruct (wo_actor _ _ Hw a Ha) as [_ A C G _ _ _]. done.
Qed.

(** C19 Nothing becomes visible before it is durable: a refresh request is only
    handed to the manager while the row says pending forfeit, a forfeit
    signature only while the row is forfeiting for that round with that very
    transaction, the chain resolver is only told once the row says unilateral
    exit, and the manager only hears of termination once the row is terminal. *)
Theorem vtxo_durable_before_visible reads w r e :
  reachable reads w → (r, e) ∈ w_trace w → effect_ok r e.
Proof. intros Hw%vtxo_reachable_ok. apply (wo_trace _ _ Hw). Qed.


(** ** The course of a turn *)

(** How the pipeline of [Receive] rewrites the event it was sent. *)
Inductive becomes (a : Actor) : VTXOEvent → VTXOEvent → Prop :=
| becomes_same e : (∀ l g, e ≠ CohortRefreshReleaseEvent l g) → becomes a e e
| becomes_refresh h :
    (state_status (state a) = VTXOStatusLive ∨
     state_status (state a) = VTXOStatusPendingForfeit) →
    becomes a (BlockEpochEvent h) (criticalRefreshEvent h)
| becomes_release l g :
    autoRefreshCohort a = Some (l, g) →
    becomes a (CohortRefreshReleaseEvent l g) (ForfeitReleasedEvent "").

(** [a1] is [a0] up to the bookkeeping and the height of its state. *)
Definition moved (a0 a1 : Actor) : Prop :=
  cfg_VTXO a1 = cfg_VTXO a0 ∧ advanced (state a0) (state a1) ∧
  autoRefreshCohort a1 = autoRefreshCohort a0.

Lemma moved_refl a : moved a a.
Proof. split_and!; auto. by left. Qed.

Lemma advanced_trans s1 s2 s3 : advanced s1 s2 → advanced s2 s3 → advanced s1 s3.
Proof.
  intros H12 [->|[h ->]]; [done|]. destruct H12 as [->|[h' ->]]; right; exists h; [done|].
  by destruct s1.
Qed.

Lemma moved_trans a b c : moved a b → moved b c → moved a c.
Proof.
  intros (H1 & H2 & H3) (H4 & H5 & H6). split_and!; [congruence| |congruence].
  by eapply advanced_trans.
Qed.

Lemma defer_moved a c h : moved a (deferAutomaticRefresh a c h).1.
Proof.
  destruct (deferAutomaticRefresh_state a c h) as (H1 & H2 & _). split_and!; try done.
  unfold deferAutomaticRefresh. by repeat case_match.
Qed.

Lemma preflight_moved a c fresh fetch e :
  moved a (preflightAutoRefresh a c fresh fetch e).1.
Proof.
  destruct (preflightAutoRefresh_state a c fresh fetch e) as (H1 & H2 & _).
  split_and!; try done. unfold preflightAutoRefresh. cbv zeta.
  destruct fetch; [|done]. destruct (automaticRefreshHeight e); [|done].
  destruct (TaprootAssetRoot (cfg_VTXO a)); [done|].
  destruct e; try done; by repeat case_match.
Qed.

Lemma preflightCriticalExit_cases a c assess e :
  preflightCriticalExit a c assess e = e ∨
  ∃ h, e = BlockEpochEvent h ∧
    preflightCriticalExit a c assess e = criticalRefreshEvent h ∧
    assess = Some (Ok false) ∧
    (state_status (state a) = VTXOStatusLive ∨
     state_status (state a) = VTXOStatusPendingForfeit).
Proof.
  unfold preflightCriticalExit. destruct e; auto. destruct assess as [[[]|]|]; auto;
    destruct (state a); simpl; auto; repeat case_match; eauto 10.
Qed.

(** The same status, and the same forfeit when there is one. *)
Definition same_claim (s s' : VTXOState) : Prop :=
  state_status s' = state_status s ∧
  ∀ d last rid c txid tx, s' = ForfeitingState d last rid c txid tx →
    ∃ d' last' c' txid', s = ForfeitingState d' last' rid c' txid' tx.

Lemma same_claim_advanced s s' : advanced s s' → same_claim s s'.
Proof.
  intros Hd. split; [by apply advanced_status|]. intros ?????? Heq. rewrite Heq in Hd.
  destruct Hd as [Hd|[h Hd]]; destruct s; simplify_eq/=; eauto.
Qed.

Lemma same_claim_VTXO s d : same_claim s (set_state_VTXO s d).
Proof.
  split; [apply set_state_VTXO_facts|]. intros ?????? Heq.
  destruct s; simplify_eq/=; eauto.
Qed.

Lemma same_claim_trans s1 s2 s3 : same_claim s1 s2 → same_claim s2 s3 → same_claim s1 s3.
Proof.
  intros [H1 H2] [H3 H4]. split; [congruence|]. intros ?????? Heq.
  destruct (H4 _ _ _ _ _ _ Heq) as (? & ? & ? & ? & Heq'). by eapply H2.
Qed.

(** A turn on an event either stops before the state machine with nothing but a
    repaired creation height, or runs the state machine on the rewritten
    event. *)
Lemma receive_event_course t a e es a' res :
  receive_event cfg t a e = (es, a', res) →
  ∃ es0 a0, (es0 = [] ∧ moved a a0 ∨
    ∃ h d, es0 = [ERepair h] ∧ state a0 = set_state_VTXO (state a) d) ∧
  (es = es0 ∧ moved a0 a' ∨
   ∃ e' a1 key es1, moved a0 a1 ∧ same_claim (state a) (state a1) ∧ becomes a1 e e' ∧
     process cfg t a1 e' key = (es1, a', res) ∧ es = es0 ++ es1).
Proof.
  unfold receive_event.
  destruct (match e with BlockEpochEvent _ => _ | _ => _ end) as [es0 a0] eqn:Hrep.
  intros Hrest. exists es0, a0.
  assert (es0 = [] ∧ moved a a0 ∨
    ∃ h d, es0 = [ERepair h] ∧ state a0 = set_state_VTXO (state a) d) as H0.
  { destruct e; try (injection Hrep as <- <-; left; split; [done|apply moved_refl]).
    unfold repairLegacyCreatedHeight in Hrep. cbv zeta in Hrep.
    repeat case_match; injection Hrep as <- <-;
      try (left; split; [done|]; split_and!; [done|by left|done]).
    right. by do 2 eexists. }
  split; [done|].
  assert (same_claim (state a) (state a0)) as Hsame.
  { destruct H0 as [[_ (_ & H0 & _)]|(h & d & _ & ->)];
      [by apply same_claim_advanced|apply same_claim_VTXO]. }
  destruct (translate_release a0 e) as [e1|] eqn:Htr.
  2:{ injection Hrest as <- <- <-. left. split; [done|apply moved_refl]. }
  destruct (maintain cfg t a0 e1 _) as [[es1 a2] r2] eqn:Hm.
  injection Hrest as <- <- <-. unfold maintain in Hm. cbv zeta in Hm.
  set (c := with_terms (cfg_Expiry cfg) (t_terms t)) in Hm.
  set (fresh := with_terms (cfg_Expiry cfg) (t_fresh t)) in Hm.
  destruct (match automaticRefreshHeight e1 with Some _ => _ | None => _ end)
    as [a1 deferred] eqn:Hdefer.
  assert (moved a0 a1) as H01.
  { destruct (automaticRefreshHeight e1) as [h|];
      [|injection Hdefer as <- _; apply moved_refl].
    pose proof (defer_moved (set_lastObservedHeight a0 (Z.max (lastObservedHeight a0) h)) c h)
      as Hmv. rewrite Hdefer in Hmv. exact Hmv. }
  destruct deferred; [injection Hm as <- <- <-; left; by rewrite app_nil_r|].
  pose proof (preflight_moved a1 c fresh (t_fetch t)
    (preflightCriticalExit a1 c (t_assess t) e1)) as H12.
  destruct (preflightAutoRefresh a1 c fresh (t_fetch t) _) as [a3 [[k d]|err]] eqn:Hpre;
    simpl in H12.
  2:{ injection Hm as <- <- <-. left. rewrite app_nil_r. eauto using moved_trans. }
  destruct d.
  { injection Hm as <- <- <-. left. rewrite app_nil_r. eauto using moved_trans. }
  assert (moved a0 a3) as H03 by (by eapply moved_trans).
  right. eexists _, a3, _, es1. split; [done|].
  split; [eapply same_claim_trans; [done|by apply same_claim_advanced, H03]|].
  split; [|by split; [exact Hm|]].
  pose proof H12 as (_ & Hadv & Hco). pose proof H01 as (_ & _ & Hco').
  destruct (preflightCriticalExit_cases a1 c (t_assess t) e1)
    as [-> |(h & -> & -> & _ & Hst)].
  - destruct e; simpl in Htr; try (injection Htr as <-; by constructor).
    case_bool_decide; [|done]. injection Htr as <-. constructor. congruence.
  - destruct e; simpl in Htr; try discriminate Htr; [injection Htr as <-|].
    + constructor. by rewrite (advanced_status _ _ Hadv).
    + by case_bool_decide.
Qed.

Lemma sends_row r out : apply_effects r (mbind (sends cfg) out) = r.
Proof.
  revert r. induction out as [|x out IH]; intros r; [done|].
  change (mbind (sends cfg) (x :: out)) with (sends cfg x ++ mbind (sends cfg) out).
  rewrite apply_effects_app.
  assert (apply_effects r (sends cfg x) = r) as ->; [|apply IH].
  unfold sends, tellManager. by destruct x, (cfg_Manager cfg), (cfg_ChainResolver cfg).
Qed.

(** What a run of the state machine does to the persisted status. *)
Lemma process_status r t a e key es a' res :
  process cfg t a e key = (es, a', res) →
  state_status (state a) ≠ VTXOStatusLive → state_status (state a) ≠ VTXOStatusExpired →
  row_status (apply_effects r es) = row_status r ∨
  ∃ s next out, advanced (state a) s ∧
    rule (turn_env cfg t (t_fresh t)) e s next out ∧ updates out ≠ [] ∧
    row_status (apply_effects r es) = state_status next.
Proof.
  intros Hp Hnl Hne. unfold process in Hp.
  pose proof (ProcessEvent_sound (turn_env cfg t (t_fresh t)) (state a) e) as [Hadv Hrule].
  destruct (ProcessEvent (state a) e _) as [s p]. simpl in Hadv, Hrule.
  destruct p as [tr|err]; [|injection Hp as <- <- <-; by left].
  specialize (Hrule tr eq_refl).
  destruct (processOutboxWithOperatorKey cfg t (set_state a s) key (Outbox tr))
    as [es1 res1] eqn:Hproc.
  assert (row_status (apply_effects r es1) = row_status r ∨
    updates (Outbox tr) ≠ [] ∧ row_status (apply_effects r es1) = state_status (NextState tr))
    as Hrow.
  { destruct (outbox_kinds _ _ _ _ _ Hrule)
      as [Hq|[(op & h & ex & mem & _ & Hst & _)|(op & h & Hout & _ & Hpend)]].
    - unfold processOutboxWithOperatorKey in Hproc.
      destruct (persist_outbox_cases t (Outbox tr)) as [Hper|[_ [err Hper]]];
        rewrite Hper in Hproc; [|injection Hproc as <- <-; by left].
      rewrite (send_outbox_quiet _ _ _ _ _ _ Hq) in Hproc. injection Hproc as <- <-.
      rewrite apply_effects_app, sends_row.
      destruct (rule_update _ _ _ _ _ Hrule)
        as [(_ & ->)|[(re & er & rec & _ & _ & ->)|(_ & u & Hu & Hn & _)]].
      + by left.
      + by left.
      + right. rewrite Hu. split; [done|]. simpl. by rewrite update_status.
    - rewrite (advanced_status _ _ Hadv) in Hst. destruct Hst; done.
    - rewrite Hout in Hproc. unfold processOutboxWithOperatorKey in Hproc. simpl in Hproc.
      destruct (send_ForfeitRequest cfg t (set_state a s) key op h false true)
        as [es2 res2] eqn:Hs.
      apply send_ForfeitRequest_cases in Hs. destruct res2 as [[[a1 k] req]|err].
      + destruct Hs as (_ & _ & _ & _ & H5). rewrite H5 in Hproc by done.
        simpl in Hproc. injection Hproc as <- <-. by left.
      + destruct Hs as [Hs _]. rewrite Hs in Hproc by done. injection Hproc as <- <-.
        by left. }
  destruct res1 as [[a1 req]|err].
  - destruct (publish a1 s (NextState tr) e) as [es' a''] eqn:Hpub.
    injection Hp as <- <- <-. apply publish_facts in Hpub as (_ & _ & _ & Hinv).
    assert (apply_effects r (es1 ++ es') = apply_effects r es1) as ->.
    { rewrite apply_effects_app. destruct Hinv as [->|[token ->]]; done. }
    destruct Hrow as [?|[? ?]]; [by left|right]. eauto 8.
  - injection Hp as <- <- <-. destruct Hrow as [?|[? ?]]; [by left|right]. eauto 8.
Qed.

(** The rules that leave a forfeiting state. *)
Lemma rule_from_forfeiting env e d last rid c txid tx next out :
  rule env e (ForfeitingState d last rid c txid (Some tx)) next out → updates out ≠ [] →
  (∃ cm, e = ForfeitConfirmedEvent cm ∧ state_status next = VTXOStatusForfeited) ∨
  (e = ForfeitReleasedEvent rid ∧ rid ≠ EmptyString ∧
    (state_status next = VTXOStatusLive ∨ state_status next = VTXOStatusExpired)) ∨
  (∃ reason trigger policy, e = ForceUnrollEvent reason trigger policy ∧
    trigger ≠ UnrollTriggerCriticalExpiry ∧
    state_status next = VTXOStatusUnilateralExit).
Proof.
  intros Hr Hu. inversion Hr; subst; simpl in *; try done; try (left; by eauto).
  - destruct H0 as [(? & ? & _)|?]; done.
  - right. right.
    assert (forfeitSignatureIssued txid (Some tx) = true) as Hi.
    { unfold forfeitSignatureIssued. rewrite (bool_decide_false (Some tx = None)) by done.
      apply orb_true_r. }
    destruct H0 as [(k & _ & _ & _ & Hno)|(rs & -> & Htr)].
    + congruence.
    + eauto 8.
  - right. left. injection H as <- <-. destruct (H0 _ eq_refl) as [-> ?].
    split_and!; try done.
    destruct (after_release_cases (env_ExpiryConfig env) d last) as [-> | ->]; auto.
Qed.

(** C18 Once a coin's forfeit is signed its fate is bound to its round, across
    crashes and restarts: as long as restarts can read the stored forfeit, a
    turn leaves the row forfeiting unless the round confirms, the very round
    recorded in the row releases the coin, or an exit is forced by a trigger
    other than critical expiry.  No block, no expiry-driven exit, no cohort
    release and no release by another round takes the coin back. *)
Theorem vtxo_signed_forfeit_fate w a t msg es a' res :
  reachable true w → w_actor w = Some a →
  row_status (w_row w) = VTXOStatusForfeiting →
  Receive cfg t a msg = (es, a', res) →
  let r' := apply_effects (w_row w) es in
  let owner := ForfeitRoundID (row_Descriptor (w_row w)) in
  row_status r' = VTXOStatusForfeiting ∨
  (∃ cm, msg = EventMsg (ForfeitConfirmedEvent cm) ∧ row_status r' = VTXOStatusForfeited) ∨
  (msg = EventMsg (ForfeitReleasedEvent owner) ∧ owner ≠ EmptyString ∧
    (row_status r' = VTXOStatusLive ∨ row_status r' = VTXOStatusExpired)) ∨
  (∃ reason trigger policy, msg = EventMsg (ForceUnrollEvent reason trigger policy) ∧
    trigger ≠ UnrollTriggerCriticalExpiry ∧
    row_status r' = VTXOStatusUnilateralExit).
Proof.
  intros Hw%vtxo_reachable_ok Ha Hst Hrec r' owner.
  destruct (wo_actor _ _ Hw a Ha) as [Hr _ _ Hag Hf _ _].
  assert (state_status (state a) = VTXOStatusForfeiting ∨
          state_status (state a) = VTXOStatusFailed) as Hs.
  { destruct Hag as [?|[?|[? _]]]; [left; congruence|auto|congruence]. }
  assert (∃ e, msg = EventMsg e ∧ receive_event cfg t a e = (es, a', res) ∨
    es = []) as [e [[-> Hev]| ->]]; [|clear Hrec|by left].
  { destruct msg as [e|tip]; simpl in Hrec; [by exists e; left|].
    exists ResumeVTXOEvent. right. unfold startTipEpoch in Hrec.
    destruct (state a); simpl in Hs; try (by destruct Hs); by injection Hrec. }
  destruct (receive_event_course _ _ _ _ _ _ Hev) as (es0 & a0 & H0 & Hcourse).
  assert (row_status (apply_effects (w_row w) es0) = VTXOStatusForfeiting) as Hst0.
  { by destruct H0 as [[-> _]|(h & d & -> & _)]. }
  destruct Hcourse as [[-> _]|(e' & a1 & key & es1 & _ & [Hs1 Hsame] & Hbec & Hproc & ->)];
    [by left|].
  unfold r'. rewrite apply_effects_app.
  destruct (process_status (apply_effects (w_row w) es0) _ _ _ _ _ _ _ Hproc)
    as [Heq|(s & next & out & Hadv1 & Hrule & Hu & ->)];
    try (rewrite Hs1; by destruct Hs as [-> | ->]); [left; congruence|].
  destruct Hs as [Hs|Hs]; rewrite Hs in Hs1.
  2:{ destruct (rule_update _ _ _ _ _ Hrule) as [[_ ?]|[(?&?&?&_&_& ->)|[Hl _]]]; try done.
      rewrite (advanced_status _ _ Hadv1), Hs1 in Hl. by apply lifecycle_from_failed in Hl. }
  destruct (state a1) as [| | | |d last rid c txid tx| | | |] eqn:Ea1; try discriminate Hs1.
  destruct (Hsame _ _ _ _ _ _ eq_refl) as (d' & last' & c' & txid' & Ea).
  destruct (Hf eq_refl _ _ _ _ _ _ Ea) as [Htx Hrid].
  destruct (ro_forfeit _ Hr Hst) as [tx' Htx']. rewrite Htx' in Htx. subst tx rid.
  assert (s = ForfeitingState d last owner c txid (Some tx')) as ->.
  { by destruct Hadv1 as [->|[h ->]]. }
  right. destruct (rule_from_forfeiting _ _ _ _ _ _ _ _ _ _ Hrule Hu)
    as [(cm & He & ?)|[(He & ? & ?)|(reason & trigger & policy & He & ? & ?)]];
    subst e'; inversion Hbec; subst; try done; eauto 10.
Qed.

(** The operator's terms never decide whether a coin is critical or expired. *)
Lemma CheckExpiry_terms c t d h :
  (CheckExpiry (with_terms c t) d h = ExpiryStatusCritical ↔
   CheckExpiry c d h = ExpiryStatusCritical) ∧
  (CheckExpiry (with_terms c t) d h = ExpiryStatusExpired ↔
   CheckExpiry c d h = ExpiryStatusExpired).
Proof.
  unfold CheckExpiry. change (CalculateCriticalThreshold (with_terms c t) d) with
    (CalculateCriticalThreshold c d).
  destruct (HasUsableBatchExpiry d); simpl; [|done]. zcmp; done.
Qed.

Lemma critical_usable c d h :
  CheckExpiry c d h = ExpiryStatusCritical → HasUsableBatchExpiry d = true.
Proof. unfold CheckExpiry. by destruct (HasUsableBatchExpiry d). Qed.

(** A usable expiry needs no repair. *)
Lemma repair_usable a answer :
  HasUsableBatchExpiry (cfg_VTXO a) = true → repairLegacyCreatedHeight a answer = ([], a).
Proof.
  intros [H1 H2]%HasUsableBatchExpiry_spec. unfold repairLegacyCreatedHeight. cbv zeta.
  destruct answer; [|done]. destruct (Z.leb_spec (CreatedHeight (cfg_VTXO a))
    (BatchExpiry (cfg_VTXO a))); [|lia]. by rewrite orb_true_r.
Qed.

(** A status that only the wallet's exit or its own rejection can end. *)
Definition holds_exit_right (s : VTXOState) : bool :=
  match s with
  | LiveState _ _ | PendingForfeitState _ _ | SpendingState _ _ => true
  | _ => false
  end.

Lemma process_critical t a h key :
  holds_exit_right (state a) = true → state_VTXO (state a) = cfg_VTXO a →
  CheckExpiry (cfg_Expiry cfg) (cfg_VTXO a) h = ExpiryStatusCritical →
  t_write t = None →
  ∃ es a' resp blocks why,
    process cfg t a (BlockEpochEvent h) key = (es, a', Ok resp) ∧
    state_status (state a') = VTXOStatusUnilateralExit ∧
    es = EWrite (mkStatusUpdate (Outpoint (cfg_VTXO a)) VTXOStatusUnilateralExit "" None
           (is_spending (state a))) ::
         (if cfg_ChainResolver cfg then [EResolver (cfg_VTXO a) blocks why "" None] else [])
         ++ match pendingRefreshDelivery a with Some n => [EInvalidate n] | None => [] end.
Proof.
  intros Hs Hal Hc Hw.
  pose proof (proj2 (proj1 (CheckExpiry_terms _ (t_fresh t) _ _)) Hc) as Hc'.
  unfold process.
  destruct (state a) as [d l|d l|d l|d|d l rid c txid tx|d rid c|d why l|d re er rec|d l]
    eqn:Es; try discriminate Hs; simpl in Hal; subst d; simpl.
  - unfold Live_handleBlockEpoch. simpl. rewrite Hc'.
    unfold processOutboxWithOperatorKey. simpl. rewrite Hw. unfold publish. simpl.
    destruct (cfg_ChainResolver cfg), (pendingRefreshDelivery a); simpl;
      do 3 eexists; exists (BlocksUntilExpiry (cfg_VTXO a) h), "batch expiry imminent";
      split_and!; reflexivity.
  - unfold Pending_handleBlockEpoch. simpl. rewrite bool_decide_false by (by intros []).
    unfold processOutboxWithOperatorKey. simpl. rewrite Hw. unfold publish. simpl.
    destruct (cfg_ChainResolver cfg), (pendingRefreshDelivery a); simpl;
      do 3 eexists; exists (BlocksUntilExpiry (cfg_VTXO a) h), "forfeit timeout";
      split_and!; reflexivity.
  - rewrite bool_decide_true by done.
    unfold processOutboxWithOperatorKey. simpl. rewrite Hw. unfold publish. simpl.
    destruct (cfg_ChainResolver cfg), (pendingRefreshDelivery a); simpl;
      do 3 eexists; exists (BlocksUntilExpiry (cfg_VTXO a) h), "spend timeout";
      split_and!; reflexivity.
Qed.

Lemma maintain_critical t a h key :
  holds_exit_right (state a) = true → state_VTXO (state a) = cfg_VTXO a →
  CheckExpiry (cfg_Expiry cfg) (cfg_VTXO a) h = ExpiryStatusCritical →
  (t_assess t = Some (Ok false) →
    is_spending (state a) = true ∨ is_Some (TaprootAssetRoot (cfg_VTXO a))) →
  ∃ a1 key', cfg_VTXO a1 = cfg_VTXO a ∧ state a1 = state a ∧
    pendingRefreshDelivery a1 = pendingRefreshDelivery a ∧
    maintain cfg t a (BlockEpochEvent h) key = process cfg t a1 (BlockEpochEvent h) key'.
Proof.
  intros Hs Hal Hc Hass. unfold maintain. cbv zeta. cbn [automaticRefreshHeight].
  set (c := with_terms (cfg_Expiry cfg) (t_terms t)).
  set (fresh := with_terms (cfg_Expiry cfg) (t_fresh t)).
  set (a0 := set_lastObservedHeight a (Z.max (lastObservedHeight a) h)).
  assert (CheckExpiry c (cfg_VTXO a) h = ExpiryStatusCritical) as Hc'
    by (by apply CheckExpiry_terms).
  assert (∃ a1, deferAutomaticRefresh a0 c h = (a1, false) ∧ cfg_VTXO a1 = cfg_VTXO a ∧
    state a1 = state a ∧ pendingRefreshDelivery a1 = pendingRefreshDelivery a)
    as (a1 & -> & H1 & H2 & H3).
  { unfold deferAutomaticRefresh. destruct (_ <=? 0); [by eauto|].
    destruct (h >=? _); [by eauto|]. simpl.
    destruct (state a) as [d l|d l|d l|d|d l rid cc txid tx|d rid cc|d why l|d re er rec|d l]
      eqn:Es; try discriminate Hs; simpl in Hal; subst d; try (by eauto).
    rewrite Hc'. by eauto. }
  assert (preflightCriticalExit a1 c (t_assess t) (BlockEpochEvent h) = BlockEpochEvent h)
    as ->.
  { destruct (preflightCriticalExit_cases a1 c (t_assess t) (BlockEpochEvent h))
      as [->|(h' & _ & Hp & Hno & Hst)]; [done|]. rewrite H2 in Hst.
    destruct (Hass Hno) as [Hsp|[root Hroot]].
    - destruct (state a); try discriminate Hsp. simpl in Hst. by destruct Hst.
    - unfold preflightCriticalExit in *. rewrite Hno, H2 in Hp |- *.
      destruct (state a); try done; simpl in Hal; subst; by rewrite Hroot in *. }
  assert (preflightAutoRefresh a1 c fresh (t_fetch t) (BlockEpochEvent h) =
    (a1, Ok (None, false))) as ->.
  { unfold preflightAutoRefresh. cbv zeta. rewrite H1, H2.
    destruct (t_fetch t); [|done]. simpl. destruct (TaprootAssetRoot (cfg_VTXO a)); [done|].
    destruct (state a); try done. by rewrite Hc'. }
  exists a1, key. done.
Qed.


(** A live actor that is cooling down sits the block out. *)
Lemma cooldown_turn t a d l h e :
  state a = LiveState d l → cfg_VTXO a = d → HasUsableBatchExpiry d = true →
  0 < autoRefreshRetryHeight a → h < autoRefreshRetryHeight a →
  CheckExpiry (cfg_Expiry cfg) d h ≠ ExpiryStatusCritical →
  CheckExpiry (cfg_Expiry cfg) d h ≠ ExpiryStatusExpired →
  e = BlockEpochEvent h ∨ (∃ x ld g k, e = CohortRefreshEvent h x ld g k) →
  ∃ a', Receive cfg t a (EventMsg e) = ([], a', Ok (unchanged a')) ∧
    state a' = LiveState d h.
Proof.
  intros Hs Hd Hu Hr Hh Hc Hx He.
  set (c := with_terms (cfg_Expiry cfg) (t_terms t)).
  assert (CheckExpiry c d h ≠ ExpiryStatusCritical) as Hc'
    by (intros E; exact (Hc (proj1 (proj1 (CheckExpiry_terms _ (t_terms t) _ _)) E))).
  assert (CheckExpiry c d h ≠ ExpiryStatusExpired) as Hx'
    by (intros E; exact (Hx (proj1 (proj2 (CheckExpiry_terms _ (t_terms t) _ _)) E))).
  assert (∀ a0, state a0 = LiveState d l → autoRefreshRetryHeight a0 = autoRefreshRetryHeight a →
    deferAutomaticRefresh a0 c h = (set_state a0 (LiveState d h), true)) as Hdef.
  { intros a0 Hs0 Hr0. unfold deferAutomaticRefresh. rewrite Hs0, Hr0.
    zcmp; try lia. by destruct (CheckExpiry c d h). }
  simpl. unfold receive_event.
  destruct He as [->|(x & ld & g & k & ->)].
  - rewrite repair_usable by (simpl; by rewrite Hd). unfold maintain. simpl. fold c.
    rewrite Hdef by done. eauto.
  - simpl. unfold maintain. simpl. fold c. rewrite Hdef by done. eauto.
Qed.

(** A rejected maintenance round is not retried on every block: when an
    automatic reservation is released, the live coin answers the blocks and the
    cohorts of the next six blocks with nothing, counted from the highest height
    the actor saw while the coin was reserved, unless it becomes critical or
    expires. *)
Theorem vtxo_refresh_cooldown t a d req rid es a1 r t' h e :
  state a = PendingForfeitState d req → cfg_VTXO a = d → 0 < req →
  Z.max req (lastObservedHeight a) ≤ MaxInt32 - autoRefreshRetryDelayBlocks →
  t_write t = None →
  Receive cfg t a (EventMsg (ForfeitReleasedEvent rid)) = (es, a1, r) →
  state_status (state a1) = VTXOStatusLive →
  HasUsableBatchExpiry d = true →
  h < Z.max req (lastObservedHeight a) + autoRefreshRetryDelayBlocks →
  CheckExpiry (cfg_Expiry cfg) d h ≠ ExpiryStatusCritical →
  CheckExpiry (cfg_Expiry cfg) d h ≠ ExpiryStatusExpired →
  e = BlockEpochEvent h ∨ (∃ x ld g k, e = CohortRefreshEvent h x ld g k) →
  ∃ a2, Receive cfg t' a1 (EventMsg e) = ([], a2, Ok (unchanged a2)) ∧
    state a2 = LiveState d h.
Proof.
  intros Hs Hd Hreq Hmax Hw Hrec Hst Hu Hh Hc Hx He.
  assert (state a1 = LiveState d req ∧ cfg_VTXO a1 = d ∧
    autoRefreshRetryHeight a1 = Z.max req (lastObservedHeight a) + autoRefreshRetryDelayBlocks)
    as (Hs1 & Hd1 & Hr1).
  { simpl in Hrec. unfold receive_event in Hrec. simpl in Hrec. unfold maintain in Hrec.
    cbn [automaticRefreshHeight preflightCriticalExit] in Hrec.
    assert (∀ c c' f, preflightAutoRefresh a c c' f (ForfeitReleasedEvent rid) =
      (a, Ok (None, false))) as Hpre by (intros ?? []; done).
    rewrite Hpre in Hrec. unfold process in Hrec. rewrite Hs in Hrec. simpl in Hrec.
    unfold processOutboxWithOperatorKey in Hrec. simpl in Hrec. rewrite Hw in Hrec.
    simpl in Hrec. unfold publish in Hrec. simpl in Hrec.
    destruct (Z.leb_spec req 0); [lia|]. rewrite int32_id in Hrec.
    2:{ unfold is_int32, MaxInt32, autoRefreshRetryDelayBlocks in *. lia. }
    destruct (after_release_cases (with_terms (cfg_Expiry cfg) (t_fresh t)) d req) as [E|E];
      rewrite E in Hrec; simpl in Hrec;
      destruct (pendingRefreshDelivery a); injection Hrec as <- <- <-; done. }
  eapply (cooldown_turn t' a1 d req); try done; rewrite Hr1;
    unfold autoRefreshRetryDelayBlocks in *; lia.
Qed.

(** A restart resumes the claim the actor held: from a row that carries the
    actor's status, the recovered state has the same status, the same coin and,
    when a forfeit was signed, the same round and the same transaction. *)
Theorem vtxo_restart_resumes w a :
  reachable true w → w_actor w = Some a →
  row_status (w_row w) = state_status (state a) →
  let a' := NewVTXOActor (row_Descriptor (w_row w)) (Ok (GetForfeitTx (w_row w))) in
  same_claim (state a) (state a') ∧ coin (state_VTXO (state a')) = coin (state_VTXO (state a)).
Proof.
  intros Hw%vtxo_reachable_ok Ha Hst a'. destruct (wo_actor _ _ Hw a Ha) as [R A C G F S D].
  assert (state_status (state a') = state_status (state a)) as Hst'.
  { rewrite <- Hst. apply statusToState_status, R. }
  split; [split; [done|]|].
  - intros d last rid c txid tx Heq. rewrite Heq in Hst'. simpl in Hst'.
    destruct (state a) as [| | | |d' last' rid' c' txid' tx'| | | |] eqn:Es; try done.
    destruct (F eq_refl _ _ _ _ _ _ eq_refl) as [-> ->].
    subst a'. simpl in Heq. unfold statusToState in Heq.
    unfold row_status in Hst. rewrite Hst in Heq. simpl in Heq.
    injection Heq as _ _ <- _ _ <-. eauto.
  - simpl. rewrite statusToState_VTXO, A. done.
Qed.

(** A released or re-examined coin is not offered for spending past its
    expiry: a transition from a reservation, a forfeit, a spend or the quarantine
    back to live at a known height only happens when the coin is not expired at
    that height. *)
Theorem vtxo_expired_not_relived env s e s' tr d h :
  ProcessEvent s e env = (s', Ok tr) → NextState tr = LiveState d h →
  state_status s ∈ [VTXOStatusPendingForfeit; VTXOStatusForfeiting; VTXOStatusSpending;
                    VTXOStatusExpired] →
  0 < h → CheckExpiry (env_ExpiryConfig env) d h ≠ ExpiryStatusExpired.
Proof.
  intros Hp Hn Hst Hh. pose proof (ProcessEvent_sound env s e) as [Hadv Hrule].
  rewrite Hp in *. specialize (Hrule tr eq_refl). simpl in *.
  rewrite <- (advanced_status _ _ Hadv) in Hst.
  assert (∀ d' h', stateAfterForfeitRelease (env_ExpiryConfig env) d' h' = LiveState d h →
    CheckExpiry (env_ExpiryConfig env) d h ≠ ExpiryStatusExpired) as Hrel.
  { intros d' h'. unfold stateAfterForfeitRelease. cbv zeta.
    destruct (_ && _) eqn:Hb; [done|]. intros [= <- <-].
    rewrite Z.gtb_ltb, andb_false_iff, Z.ltb_ge in Hb.
    destruct Hb as [?|?%bool_decide_eq_false_1]; [lia|done]. }
  rewrite Hn in Hrule. remember (LiveState d h) as next eqn:En.
  destruct Hrule; simplify_eq; eauto; set_solver.
Qed.

End world.

(** The admission pre-check is exact: for a coin without an asset it admits a
    cooperative claim if and only if the state machine restored from that row
    accepts it and reserves the coin. *)
Theorem forfeit_admission_agrees {TX : Txscript} {ARK : Arkscript} env d forfeitTx :
  TaprootAssetRoot d = None → (∀ k, Status d ≠ VTXOStatusOther k) →
  CheckForfeitAdmission d = Ok tt ↔
  ∃ s tr, ProcessEvent (statusToState d forfeitTx) PendingForfeitEvent env = (s, Ok tr) ∧
    isPendingForfeitState (NextState tr) = true.
Proof.
  intros Ha Ho. unfold CheckForfeitAdmission, statusToState.
  destruct (Status d) eqn:Es; simpl; unfold Live_handlePendingForfeit; rewrite ?Ha;
    try (by destruct (Ho k));
    (split; [first [done|by intros _; do 2 eexists]|]); try done;
    intros (s & tr & [= <- <-] & ?); done.
Qed.

(** ** A concrete coin *)

Module VtxoDemo.

#[export] Instance demo_txscript : Txscript := ForfeitDemo.demo_script.
#[export] Instance demo_arkscript : Arkscript := ForfeitDemo.demo_policy.

(** The sample VTXO: created at 100, expiring at 1000; refresh is due from 856
    on and the coin is critical from 964 on. *)
Definition coin1 : Descriptor := sample_vtxo.

Definition demo_cfg : ActorConfig := mkActorConfig DefaultExpiryConfig true true.

Definition demo_turn : Turn :=
  mkTurn (mkTerms None None) (mkTerms None None) (Some (λ _ _, Ok [8])) None None None None
    None None None None.

Definition demo_request : ForfeitRequestEvt :=
  mkForfeitRequestEvt "round-1" (mkOutPoint 5%N 1) [2] 330 [3] None.

Definition after (w : World) (msg : VTXOActorMsg) : World :=
  match w_actor w with
  | None => w
  | Some a =>
      let '(es, a', _) := Receive demo_cfg demo_turn a msg in
      mkWorld (apply_effects (w_row w) es) (Some a') (w_trace w ++ snapshots (w_row w) es)
  end.

Definition stored : World := mkWorld (mkRow coin1 None false) None [].
Definition booted : World :=
  mkWorld (w_row stored) (Some (NewVTXOActor coin1 (Ok None))) [].
Definition reserved : World := after booted (EventMsg PendingForfeitEvent).
Definition signed : World := after reserved (EventMsg (ForfeitRequestEvent demo_request)).
Definition refreshing : World := after booted (EventMsg (BlockEpochEvent 900)).

Lemma stored_initial : initial stored.
Proof. split; [|done]. by split. Qed.

Lemma booted_reachable reads : reachable demo_cfg reads booted.
Proof.
  exists stored. split; [apply stored_initial|]. apply rtc_once.
  apply (step_boot demo_cfg reads stored (Ok None)); [done|by left].
Qed.

Lemma after_reachable reads w msg :
  reachable demo_cfg reads w → reachable demo_cfg reads (after w msg).
Proof.
  intros (w0 & Hi & Hs). exists w0. split; [done|].
  unfold after. destruct (w_actor w) as [a|] eqn:Ha; [|done].
  destruct (Receive demo_cfg demo_turn a msg) as [[es a'] res] eqn:Hr.
  eapply rtc_r; [exact Hs|]. by eapply step_turn.
Qed.

Lemma signed_reachable reads : reachable demo_cfg reads signed.
Proof. apply after_reachable, after_reachable, booted_reachable. Qed.

(** The actor of a world that has one. *)
Definition actor_of (w : World) : Actor :=
  match w_actor w with Some a => a | None => NewVTXOActor coin1 (Ok None) end.

(** A node may crash at any time. *)
Lemma crashed reads w a :
  w_actor w = Some a → step demo_cfg reads w (mkWorld (w_row w) None (w_trace w)).
Proof.
  intros Ha. destruct (Receive demo_cfg demo_turn a (EventMsg ResumeVTXOEvent))
    as [[es a'] res] eqn:Hr.
  pose proof (step_crash demo_cfg reads w demo_turn a _ es a' res 0 Ha Hr) as Hc.
  rewrite take_0 in Hc. simpl in Hc. by rewrite app_nil_r in Hc.
Qed.

(** The signed coin after a restart whose read of the forfeit transaction
    failed. *)
Definition misread : World :=
  mkWorld (w_row signed)
    (Some (NewVTXOActor (row_Descriptor (w_row signed)) (Err "database is locked")))
    (w_trace signed).

Lemma misread_reachable : reachable demo_cfg false misread.
Proof.
  destruct (signed_reachable false) as (w0 & Hi & Hs). exists w0. split; [done|].
  etrans; [exact Hs|].
  eapply rtc_l; [by apply (crashed _ _ (actor_of signed))|].
  apply rtc_once, (step_boot demo_cfg false
    (mkWorld (w_row signed) None (w_trace signed)) (Err "database is locked"));
    [done|right; eauto].
Qed.

End VtxoDemo.
Import VtxoDemo.

(** The protection of a signed forfeit rests on reading it back: after a
    restart whose read of the stored forfeit transaction fails, which the code
    only logs, a block in the critical window starts the unilateral exit of a
    coin whose forfeit signature is already with the operator. *)
Theorem vtxo_unread_forfeit_exits :
  ∃ w a es a' resp, reachable demo_cfg false w ∧ w_actor w = Some a ∧
    row_status (w_row w) = VTXOStatusForfeiting ∧ is_Some (row_ForfeitTx (w_row w)) ∧
    (∃ r op rid sf, (r, ERelaySignature op rid sf) ∈ w_trace w) ∧
    Receive demo_cfg demo_turn a (EventMsg (BlockEpochEvent 980)) = (es, a', Ok resp) ∧
    row_status (apply_effects (w_row w) es) = VTXOStatusUnilateralExit.
Proof.
  exists misread, (actor_of misread). do 3 eexists.
  split; [apply misread_reachable|]. split; [reflexivity|]. split; [reflexivity|].
  split; [by eexists|]. split.
  { do 4 eexists. apply list_elem_of_lookup_2 with (i := 2%nat). vm_compute. reflexivity. }
  split; [vm_compute; reflexivity|]. vm_compute. reflexivity.
Qed.

(** A cohort token outlives the reservation it was issued for: after an exit that
    failed, the release of the old cohort frees a later manual claim. *)
Definition reclaimed : World :=
  foldl after booted (EventMsg <$>
    [CohortRefreshEvent 900 1000 (mkOutPoint 8%N 0) 7 None;
     ForceUnrollEvent "" UnrollTriggerManual None; ExitFailedEvent "no footprint";
     PendingForfeitEvent]).

Lemma stale_cohort_release :
  state (actor_of reclaimed) = PendingForfeitState coin1 0 ∧
  ∃ es a' resp, Receive demo_cfg demo_turn (actor_of reclaimed)
    (EventMsg (CohortRefreshReleaseEvent (mkOutPoint 8%N 0) 7)) = (es, a', Ok resp) ∧
    row_status (apply_effects (w_row reclaimed) es) = VTXOStatusLive.
Proof.
  split; [vm_compute; reflexivity|].
  do 3 eexists. split; vm_compute; reflexivity.
Qed.

(** ** Witnesses *)

Lemma vtxo_row_well_formed_witness :
  row_ok (w_row signed) ∧
  (∀ a, w_actor signed = Some a → is_Some (TaprootAssetRoot (cfg_VTXO a)) →
    committed (state_status (state a)) = false).
Proof. exact (vtxo_row_well_formed demo_cfg true signed (signed_reachable true)). Defined.

Lemma vtxo_row_agrees_witness :
  agrees (row_status (w_row signed)) (state (actor_of signed)) ∧
  state_VTXO (state (actor_of signed)) = cfg_VTXO (actor_of signed) ∧
  coin (cfg_VTXO (actor_of signed)) = coin (row_Descriptor (w_row signed)).
Proof.
  exact (vtxo_row_agrees demo_cfg true signed (actor_of signed) (signed_reachable true)
    eq_refl).
Defined.

(** The row and the submission of the signed forfeit. *)
Definition signed_tx : ForfeitMsgTx :=
  mkForfeitMsgTx 3 0 [(mkOutPoint 1%N 0, 4294967295); (mkOutPoint 5%N 1, 4294967295)]
    [mkTxOut 50330 [3]; AnchorOutput].
Definition signed_sf : signed_forfeit :=
  mkSignedForfeit (mkSpendPath (Some (mkSpendInfo [1] [2])) 0 0 []) signed_tx [8] [].

Lemma signed_submission :
  (w_row signed, ERelaySignature (mkOutPoint 1%N 0) "round-1" signed_sf) ∈ w_trace signed.
Proof. apply list_elem_of_lookup_2 with (i := 2%nat). vm_compute. reflexivity. Qed.

Lemma vtxo_durable_before_visible_witness :
  effect_ok (w_row signed) (ERelaySignature (mkOutPoint 1%N 0) "round-1" signed_sf).
Proof.
  exact (vtxo_durable_before_visible demo_cfg true signed _ _ (signed_reachable true)
    signed_submission).
Defined.

Definition reserve_update : StatusUpdate :=
  mkStatusUpdate (mkOutPoint 1%N 0) VTXOStatusPendingForfeit "" None false.

Lemma reserve_written : (w_row booted, EWrite reserve_update) ∈ w_trace signed.
Proof. apply list_elem_of_lookup_2 with (i := 0%nat). vm_compute. reflexivity. Qed.


(** A block in the critical window on the signed coin. *)
Definition critical_turn := Receive demo_cfg demo_turn (actor_of signed)
  (EventMsg (BlockEpochEvent 980)).

Lemma vtxo_signed_forfeit_fate_witness :
  let r' := apply_effects (w_row signed) critical_turn.1.1 in
  let owner := ForfeitRoundID (row_Descriptor (w_row signed)) in
  row_status r' = VTXOStatusForfeiting ∨
  (∃ cm, EventMsg (BlockEpochEvent 980) = EventMsg (ForfeitConfirmedEvent cm) ∧
    row_status r' = VTXOStatusForfeited) ∨
  (EventMsg (BlockEpochEvent 980) = EventMsg (ForfeitReleasedEvent owner) ∧
    owner ≠ EmptyString ∧
    (row_status r' = VTXOStatusLive ∨ row_status r' = VTXOStatusExpired)) ∨
  (∃ reason trigger policy,
    EventMsg (BlockEpochEvent 980) = EventMsg (ForceUnrollEvent reason trigger policy) ∧
    trigger ≠ UnrollTriggerCriticalExpiry ∧
    row_status r' = VTXOStatusUnilateralExit).
Proof.
  assert (row_status (w_row signed) = VTXOStatusForfeiting) as Hst
    by (vm_compute; reflexivity).
  exact (vtxo_signed_forfeit_fate demo_cfg signed (actor_of signed) demo_turn
    (EventMsg (BlockEpochEvent 980)) critical_turn.1.1 critical_turn.1.2 critical_turn.2
    (signed_reachable true) eq_refl Hst eq_refl).
Defined.


(** The release of the automatic reservation made at height 900. *)
Definition released := Receive demo_cfg demo_turn (actor_of refreshing)
  (EventMsg (ForfeitReleasedEvent "")).

Lemma vtxo_refresh_cooldown_witness :
  ∃ a2, Receive demo_cfg demo_turn released.1.2 (EventMsg (BlockEpochEvent 903)) =
      ([], a2, Ok (unchanged a2)) ∧ state a2 = LiveState coin1 903.
Proof.
  apply (vtxo_refresh_cooldown demo_cfg demo_turn (actor_of refreshing) coin1 900 ""
    released.1.1 released.1.2 released.2).
  - vm_compute. reflexivity.
  - vm_compute. reflexivity.
  - lia.
  - vm_compute. discriminate.
  - reflexivity.
  - reflexivity.
  - vm_compute. reflexivity.
  - reflexivity.
  - vm_compute. reflexivity.
  - vm_compute. discriminate.
  - vm_compute. discriminate.
  - by left.
Defined.

Lemma vtxo_restart_resumes_witness :
  let a' := NewVTXOActor (row_Descriptor (w_row signed)) (Ok (GetForfeitTx (w_row signed))) in
  same_claim (state (actor_of signed)) (state a') ∧
  coin (state_VTXO (state a')) = coin (state_VTXO (state (actor_of signed))).
Proof.
  assert (row_status (w_row signed) = state_status (state (actor_of signed))) as Hst
    by (vm_compute; reflexivity).
  exact (vtxo_restart_resumes demo_cfg signed (actor_of signed) (signed_reachable true)
    eq_refl Hst).
Defined.

Definition demo_env : VTXOEnvironment := mkVTXOEnvironment DefaultExpiryConfig None None.

Lemma vtxo_expired_not_relived_witness :
  CheckExpiry (env_ExpiryConfig demo_env) coin1 900 ≠ ExpiryStatusExpired.
Proof.
  apply (vtxo_expired_not_relived demo_env (SpendingState coin1 900) SpendReleasedEvent
    (SpendingState coin1 900)
    (mkTransition (LiveState coin1 900) [status_update_releasing coin1 VTXOStatusLive])
    coin1 900).
  - vm_compute. reflexivity.
  - reflexivity.
  - set_solver.
  - lia.
Defined.

Lemma forfeit_admission_agrees_witness :
  CheckForfeitAdmission coin1 = Ok tt ↔
  ∃ s tr, ProcessEvent (statusToState coin1 (Ok None)) PendingForfeitEvent demo_env =
      (s, Ok tr) ∧ isPendingForfeitState (NextState tr) = true.
Proof. apply (forfeit_admission_agrees demo_env coin1 (Ok None)); [reflexivity|discriminate]. Defined.
