(* ===== verification/VtxoManager.v ===== *)
(** * The VTXO manager: [vtxo/manager.go], [vtxo/messages.go],
      [vtxo/expiry_reconcile.go], [lib/actormsg/vtxo_admission.go]

    The manager owns the set of VTXO actors.  It admits spends and forfeits
    (selecting coins, gating them by an in-memory reservation map and driving the
    actors), relays refreshes to the round with their cohorts, applies exit
    outcomes, activates temporary signers for custom inputs, and repairs what a
    crash left behind when it starts.

    A handler is a computation over the manager's memory, an arbitrary world and
    the history of its calls.  Everything outside the manager's goroutine is a
    [Call] answered by a function [handle] of that world: the store, the VTXO
    actors, the round actor, the operator and the clock.  The theorems that
    quantify over [handle] hold for every sequence of answers and failures.

    An actor is named by its outpoint, as its actor id and service key are.  The
    manager runs one message at a time on one goroutine; what the actors do
    meanwhile is in the world.  Log lines are left out, and errors keep their
    sentinel and the text of their format string. *)

From S2P Require Import Prelude RecoveryProof CoinSelect VtxoExpiry VtxoForfeit VtxoFsm VtxoActor.
Local Open Scope Z_scope.

(** ** Errors *)

Inductive Sentinel :=
| ErrInsufficientSpendableFunds
| ErrVTXOLiquidityLocked
| SelChangeBelowMin
| SelAssetRequiresTransition.

#[export] Instance Sentinel_eq_dec : EqDecision Sentinel.
Proof. solve_decision. Defined.

(** A Go error: the sentinel [errors.Is] finds in it, and its text. *)
Record merr := mkErr { me_is : option Sentinel; me_text : error }.

Definition errorf (text : error) : merr := mkErr None text.
(** [fmt.Errorf("prefix: %w", err)] *)
Definition wrapf (prefix : error) (e : merr) : merr :=
  mkErr (me_is e) (prefix +:+ me_text e).
(** [errors.Join]: [errors.Is] looks at every joined error. *)
Definition joinf (prefix : error) (errs : list merr) : merr :=
  mkErr (head (omap me_is errs)) (foldl (λ s e, s +:+ me_text e) prefix errs).

(** ** Messages *)

(** The answer of [GetVTXO]: a row, a nil row, [ErrVTXONotFound], or another
    error. *)
Inductive get_error := ErrVTXONotFound | GetFailed (e : error).

(** The selection projection of a row. *)
Record Candidate := mkCandidate {
  c_Outpoint : OutPoint;
  c_Amount : Z;
  c_PkScript : list Z;
}.

Record SelectedVTXO := mkSelectedVTXO {
  sv_Outpoint : OutPoint;
  sv_ReserveEpoch : Z;
  sv_Amount : Z;
  sv_PkScript : list Z;
}.

Inductive ExitOutcome :=
| ExitOutcomeRecoverable
| ExitOutcomeConfirmed
| ExitOutcomeConflicted
| ExitOutcomeOther (n : Z).

Record ExitOutcomeNotification := mkExitOutcome {
  eo_Outpoint : OutPoint;
  eo_Outcome : ExitOutcome;
  eo_Reason : string;
  eo_PolicyKind : string;
}.

Record CustomForfeitInput := mkCustomInput {
  ci_Outpoint : OutPoint;
  ci_Amount : Z;
  ci_PkScript : list Z;
  ci_PolicyTemplate : list Z;
  ci_ClientKey : option PublicKey;
  ci_OperatorKey : option PublicKey;
  ci_RelativeExpiry : Z;
  ci_RoundID : string;
  ci_CommitmentTxID : Hash;
  ci_BatchExpiry : Z;
  ci_ChainDepth : Z;
  ci_CreatedHeight : Z;
  ci_Ancestry : list Ancestry;
}.

(** The fields of [round.ClientVTXO] a descriptor is built from. *)
Record ClientVTXO := mkClientVTXO {
  cv_Outpoint : OutPoint;
  cv_Amount : Z;
  cv_PolicyTemplate : list Z;
  cv_PkScript : list Z;
  cv_TaprootAssetRoot : option Hash;
  cv_OwnerKey : option PublicKey;
  cv_OperatorKey : option PublicKey;
  cv_Ancestry : list Ancestry;
  cv_Expiry : Z;
}.

Record VTXOCreatedNotification := mkVTXOCreated {
  cn_VTXOs : list ClientVTXO;
  cn_RoundID : string;
  cn_CommitmentTxID : Hash;
  cn_BatchExpiry : Z;
  cn_CreatedHeight : Z;
}.

(** What reaches the round actor. *)
Inductive RoundReceivable :=
| RefreshPayload (req : RefreshVTXORequest)
| SignaturePayload (VTXOOutpoint : OutPoint) (RoundID : string) (forfeit : signed_forfeit)
| RefreshVTXOCohortRequest (Requests : list RefreshVTXORequest).

Inductive ManagerMsg :=
| deferredRefreshRelay (payload : RoundReceivable) (token : nat)
| VTXOCreated (n : VTXOCreatedNotification)
| VTXOsMaterialized (VTXOs : list (option Descriptor))
| VTXOTerminatedMsg (op : OutPoint)
| spendReservationFailedMsg (op : OutPoint) (Epoch : Z)
| RelayToRoundMsg (payload : RoundReceivable)
| SelectAndReserveSpendRequest (TargetAmount MinChangeAmount : Z) (Outpoints : list OutPoint)
| ReleaseSpendRequest (Outpoints : list OutPoint) (ReserveEpochs : gmap OutPoint Z)
| CompleteSpendRequest (Outpoints : list OutPoint)
| ReserveForfeitRequest (Outpoints : list OutPoint)
| ReleaseForfeitRequest (Outpoints : list OutPoint) (RoundID : string)
| ActivateCustomForfeitInputsRequest (Inputs : list CustomForfeitInput)
| DropCustomForfeitInputsRequest (Outpoints : list OutPoint)
| SelectAndReserveForfeitRequest (TargetAmount : Z)
| GetActiveVTXOCountRequest
| ListLiveDescriptorsRequest
| ReconcileExpiryRequest
| ForceUnrollRequest (op : OutPoint) (Reason : string) (Trigger : UnrollTrigger)
    (Policy : option ExitPolicy)
| ExitOutcomeMsg (n : ExitOutcomeNotification).

Inductive ManagerResp :=
| RelayToRoundResp
| VTXOCreatedResp
| VTXOsMaterializedResp
| VTXOTerminatedResp
| SelectAndReserveSpendResponse (SelectedVTXOs : list SelectedVTXO) (TotalSelected : Z)
| ReleaseSpendResponse (ReleasedCount : nat)
| CompleteSpendResponse (CompletedCount : nat)
| ReserveForfeitResponse
| ReleaseForfeitResponse (ReleasedCount : nat)
| ActivateCustomForfeitInputsResponse (ActivatedCount : nat)
| DropCustomForfeitInputsResponse (DroppedCount : nat)
| SelectAndReserveForfeitResponse (SelectedVTXOs : list SelectedVTXO) (TotalSelected : Z)
| GetActiveVTXOCountResponse (Count : nat)
| ListLiveDescriptorsResponse (Descriptors : list Descriptor)
| expiryReconcilePlan (actors : gset OutPoint) (height : Z)
| ForceUnrollResponse (Accepted : bool) (Reason : string)
| ExitOutcomeResp.

(** ** Calls out of the manager's goroutine *)

Inductive Call :=
| ListSelectionCandidates (st : VTXOStatus)
| ListVTXOsByStatus (st : VTXOStatus)
| ListLiveVTXOs
| ListRecoverableVTXOs
| ListReservedOutpoints
| GetVTXO (op : OutPoint)
| StoreStatus (op : OutPoint) (st : VTXOStatus)
| SaveVTXO (d : Descriptor)
| DeleteVTXO (op : OutPoint)
(** Ask and await an actor, with the forfeit deadline or without. *)
| Ask (bounded : bool) (op : OutPoint) (event : VTXOEvent)
(** Enqueue an ask and watch its outcome from another goroutine, which reports a
    failure as a [spendReservationFailedMsg]. *)
| DetachedAsk (op : OutPoint) (epoch : Z) (event : VTXOEvent)
| Tell (op : OutPoint) (event : VTXOEvent)
| SpawnActor (d : Descriptor)
| RequestStartTip (op : OutPoint)
| StopAndRemoveActor (op : OutPoint)
| RoundTell (payload : RoundReceivable)
| FetchOperatorKey
| OperatorTerms
| BestHeight
| HasForfeitRoundCheckpoint (roundID : string)
| ResolveExitOutcome (op : OutPoint)
| TerminalVTXOObserver (op : OutPoint)
(** Whether a deadline has passed. *)
| ContextErr
(** The validity token of a deferred relay. *)
| TokenActive (token : nat).

Definition Resp (c : Call) : Type :=
  match c with
  | ListSelectionCandidates _ => result error (list Candidate)
  | ListVTXOsByStatus _ | ListLiveVTXOs => result error (list (option Descriptor))
  | ListRecoverableVTXOs => result error (list Descriptor)
  | ListReservedOutpoints => result error (list OutPoint)
  | GetVTXO _ => result get_error (option Descriptor)
  | StoreStatus _ _ | SaveVTXO _ | DeleteVTXO _ => result error unit
  | Ask _ _ _ => result error VTXOActorResponse
  | DetachedAsk _ _ _ => unit
  | Tell _ _ => result error unit
  | SpawnActor _ => result error unit
  | RequestStartTip _ | StopAndRemoveActor _ => unit
  | RoundTell _ => result error unit
  | FetchOperatorKey => result error (option PublicKey)
  | OperatorTerms => Terms
  | BestHeight => result error Z
  | HasForfeitRoundCheckpoint _ => result error bool
  | ResolveExitOutcome _ => result error (option (ExitOutcome * string * string))
  | TerminalVTXOObserver _ => result error unit
  | ContextErr => bool
  | TokenActive _ => bool
  end.

(** ** State *)

Record ManagerConfig := mkManagerConfig {
  mc_Expiry : ExpiryConfig;
  mc_FetchOperatorKey : bool;
  mc_ExitOutcomeResolver : bool;
  mc_HasForfeitRoundCheckpoint : bool;
  mc_ReservationStore : bool;
  mc_TerminalVTXOObserver : bool;
  mc_DeferAutomaticRefreshUntilRoundReady : bool;
}.

Record Manager := mkManager {
  actors : gset OutPoint;
  customForfeitSynthetic : gmap OutPoint bool;
  reserved : gmap OutPoint Z;
  reserveEpoch : Z;
  autoRefreshCohortGeneration : Z;
  adoptedAutoRefreshRelays : gmap OutPoint Z;
  roundStartupPending : bool;
  liveDescriptors : list Descriptor;
}.

Definition NewManager (cfg : ManagerConfig) : Manager :=
  mkManager ∅ ∅ ∅ 0 0 ∅ (mc_DeferAutomaticRefreshUntilRoundReady cfg) [].

Definition set_actors (m : Manager) (a : gset OutPoint) : Manager :=
  mkManager a (customForfeitSynthetic m) (reserved m) (reserveEpoch m)
    (autoRefreshCohortGeneration m) (adoptedAutoRefreshRelays m)
    (roundStartupPending m) (liveDescriptors m).
Definition set_customForfeitSynthetic (m : Manager) (s : gmap OutPoint bool) : Manager :=
  mkManager (actors m) s (reserved m) (reserveEpoch m)
    (autoRefreshCohortGeneration m) (adoptedAutoRefreshRelays m)
    (roundStartupPending m) (liveDescriptors m).
Definition set_reserved (m : Manager) (r : gmap OutPoint Z) (epoch : Z) : Manager :=
  mkManager (actors m) (customForfeitSynthetic m) r epoch
    (autoRefreshCohortGeneration m) (adoptedAutoRefreshRelays m)
    (roundStartupPending m) (liveDescriptors m).
Definition set_generation (m : Manager) (g : Z) : Manager :=
  mkManager (actors m) (customForfeitSynthetic m) (reserved m) (reserveEpoch m)
    g (adoptedAutoRefreshRelays m) (roundStartupPending m) (liveDescriptors m).
Definition set_relays (m : Manager) (r : gmap OutPoint Z) : Manager :=
  mkManager (actors m) (customForfeitSynthetic m) (reserved m) (reserveEpoch m)
    (autoRefreshCohortGeneration m) r (roundStartupPending m) (liveDescriptors m).
Definition set_startup (m : Manager) (b : bool) : Manager :=
  mkManager (actors m) (customForfeitSynthetic m) (reserved m) (reserveEpoch m)
    (autoRefreshCohortGeneration m) (adoptedAutoRefreshRelays m) b (liveDescriptors m).
Definition set_liveDescriptors (m : Manager) (l : list Descriptor) : Manager :=
  mkManager (actors m) (customForfeitSynthetic m) (reserved m) (reserveEpoch m)
    (autoRefreshCohortGeneration m) (adoptedAutoRefreshRelays m)
    (roundStartupPending m) l.

(** ** Computations *)

Inductive MEvent := MEv (c : Call) (answer : Resp c).

Record MSys (W : Type) := mkMSys {
  mgr : Manager;
  mworld : W;
  mtrace : list MEvent;
}.
Arguments mkMSys {W} _ _ _.
Arguments mgr {W} _.
Arguments mworld {W} _.
Arguments mtrace {W} _.

Definition MM (W A : Type) : Type := MSys W → A * MSys W.

Definition mret {W A} (a : A) : MM W A := λ s, (a, s).
Definition mbind {W A B} (m : MM W A) (k : A → MM W B) : MM W B := λ s,
  let '(a, s') := m s in k a s'.

Declare Scope manager_scope.
Delimit Scope manager_scope with manager.
Notation "'do*' x ':=' m 'in' k" := (mbind m (λ x, k))
  (at level 10, x pattern, m at level 100, k at level 200) : manager_scope.
Notation "'seq*' m 'in' k" := (mbind m (λ _, k))
  (at level 10, m at level 100, k at level 200) : manager_scope.
Open Scope manager_scope.

Definition mget {W} : MM W Manager := λ s, (mgr s, s).
Definition mmodify {W} (f : Manager → Manager) : MM W unit := λ s,
  (tt, mkMSys (f (mgr s)) (mworld s) (mtrace s)).

(** [for _, x := range l { acc = f(acc, x) }] *)
Fixpoint mfold {W A B} (f : B → A → MM W B) (acc : B) (l : list A) : MM W B :=
  match l with
  | [] => mret acc
  | x :: l => do* acc := f acc x in mfold f acc l
  end.
Definition mfor {W A} (f : A → MM W unit) (l : list A) : MM W unit :=
  mfold (λ _ x, f x) tt l.

Definition ErrorOf {A} (r : result merr A) (prefix : error) : result merr A :=
  match r with Ok a => Ok a | Err e => Err (wrapf prefix e) end.

Section manager.
Context {W : Type} (cfg : ManagerConfig) (handle : ∀ c : Call, W → Resp c * W).
Local Abbreviation op_ A := (MM W A).

(** A call, answered by the world and recorded. *)
Definition mcall (c : Call) : op_ (Resp c) := λ s,
  let '(r, w) := handle c (mworld s) in
  (r, mkMSys (mgr s) w (mtrace s ++ [MEv c r])).

(** ** The reservation map *)

Definition markReserved (op : OutPoint) : op_ Z :=
  do* m := mget in
  let epoch := uint64 (reserveEpoch m + 1) in
  seq* mmodify (λ m, set_reserved m (<[op := epoch]> (reserved m)) epoch) in
  mret epoch.

Definition markReservedUnknown (op : OutPoint) : op_ unit :=
  mmodify (λ m, set_reserved m (<[op := 0]> (reserved m)) (reserveEpoch m)).

Definition dropReserved (op : OutPoint) : op_ unit :=
  mmodify (λ m, set_reserved m (delete op (reserved m)) (reserveEpoch m)).

Definition dropReservedEpoch (op : OutPoint) (epoch : Z) : op_ bool :=
  do* m := mget in
  if bool_decide (reserved m !! op = Some epoch)
  then seq* dropReserved op in mret true
  else mret false.

Definition isReserved (m : Manager) (op : OutPoint) : bool :=
  bool_decide (is_Some (reserved m !! op)).

(** ** Asking actors *)

Definition askVTXOActor (op : OutPoint) (e : VTXOEvent) : op_ (result error VTXOActorResponse) :=
  mcall (Ask false op e).
Definition askForfeitVTXOActor (op : OutPoint) (e : VTXOEvent) :
    op_ (result error VTXOActorResponse) :=
  mcall (Ask true op e).

(** ** Spawning actors *)

Definition track (op : OutPoint) : op_ unit :=
  mmodify (λ m, set_actors m ({[op]} ∪ actors m)).

(** [spawnUnclassifiedVTXOActor]; the state of the actor decides whether it has
    an expiry to classify. *)
Definition spawnUnclassifiedVTXOActor (d : Descriptor) : op_ (result merr unit) :=
  do* r := mcall (SpawnActor d) in
  mret (match r with
        | Ok _ => Ok tt
        | Err e => Err (errorf ("start vtxo actor: " +:+ e))
        end).

Definition requestStartTip (d : Descriptor) : op_ unit :=
  if IsTerminal (statusToState d (Ok None)) then mret tt
  else mcall (RequestStartTip (Outpoint d)).

Definition spawnVTXOActor (d : Descriptor) : op_ (result merr unit) :=
  do* r := spawnUnclassifiedVTXOActor d in
  match r with
  | Err e => mret (Err e)
  | Ok _ => seq* requestStartTip d in mret (Ok tt)
  end.

Definition get_text (e : get_error) : error :=
  match e with ErrVTXONotFound => "vtxo not found" | GetFailed e => e end.

(** A store that answers nil without an error would make the code panic here;
    the store never does, and the model reports it as not found. *)
Definition respawnActorFromStore (op : OutPoint) : op_ (result merr unit) :=
  do* r := mcall (GetVTXO op) in
  match r with
  | Err e => mret (Err (errorf ("load descriptor: " +:+ get_text e)))
  | Ok None => mret (Err (errorf "load descriptor: vtxo not found"))
  | Ok (Some d) =>
      if bool_decide (Status d ≠ VTXOStatusLive)
      then mret (Err (errorf "descriptor status is not live"))
      else
        do* r := spawnVTXOActor d in
        match r with
        | Err e => mret (Err (wrapf "respawn actor: " e))
        | Ok _ => seq* track op in mret (Ok tt)
        end
  end.

(** ** Spend admission *)

Record reserveParams := mkReserveParams {
  targetAmount : Z;
  minChangeAmount : Z;
  exactOutpoints : list OutPoint;
  reserveEvent : VTXOEvent;
  rollback : list OutPoint → op_ unit;
  ask : OutPoint → VTXOEvent → op_ (result error VTXOActorResponse);
  detached : bool;
}.

Definition exactSpendUnavailableError (op : OutPoint) : op_ merr :=
  do* r := mcall (GetVTXO op) in
  mret (match r with
  | Err ErrVTXONotFound | Ok None =>
      mkErr (Some ErrInsufficientSpendableFunds) "exact spend outpoint is unknown"
  | Err (GetFailed e) => errorf ("look up exact spend outpoint: " +:+ e)
  | Ok (Some d) =>
      if bool_decide (is_Some (TaprootAssetRoot d))
      then mkErr (Some SelAssetRequiresTransition) ErrAssetVTXORequiresTransition
      else
        match Status d with
        | VTXOStatusLive | VTXOStatusPendingForfeit | VTXOStatusForfeiting
        | VTXOStatusSpending =>
            mkErr (Some ErrVTXOLiquidityLocked) "exact spend outpoint has status"
        | VTXOStatusOther _ =>
            mkErr (Some ErrInsufficientSpendableFunds)
              "exact spend outpoint has unknown status"
        | _ =>
            mkErr (Some ErrInsufficientSpendableFunds) "exact spend outpoint has status"
        end
  end).

(** The loop over [exactOutpoints]; [selected] doubles as [seen]. *)
Fixpoint pick_exact (byOutpoint : gmap OutPoint Candidate) (ops : list OutPoint)
    (selected : list Candidate) (total : Z) :
    op_ (result merr (list Candidate * Z)) :=
  match ops with
  | [] => mret (Ok (selected, total))
  | op :: ops =>
      if bool_decide (op ∈ c_Outpoint <$> selected)
      then mret (Err (errorf "duplicate exact spend outpoint"))
      else
        do* m := mget in
        if isReserved m op
        then mret (Err (mkErr (Some ErrVTXOLiquidityLocked)
          "exact spend outpoint is already reserved"))
        else
          match byOutpoint !! op with
          | None => do* e := exactSpendUnavailableError op in mret (Err e)
          | Some c =>
              pick_exact byOutpoint ops (selected ++ [c]) (int64 (total + c_Amount c))
          end
  end.

(** Rows of equal outpoint overwrite one another in the map. *)
Definition by_outpoint (candidates : list Candidate) : gmap OutPoint Candidate :=
  foldl (λ acc c, <[c_Outpoint c := c]> acc) ∅ candidates.

Definition selectExactReservationCandidates (candidates : list Candidate)
    (p : reserveParams) : op_ (result merr (list Candidate)) :=
  do* r := pick_exact (by_outpoint candidates) (exactOutpoints p) [] 0 in
  mret (match r with
  | Err e => Err e
  | Ok (selected, total) =>
      if total <? targetAmount p
      then Err (mkErr (Some ErrInsufficientSpendableFunds) "exact inputs total, need")
      else
        let change := int64 (total - targetAmount p) in
        if (0 <? change) && (change <? minChangeAmount p)
        then Err (mkErr (Some SelChangeBelowMin) "change is below minimum change amount")
        else Ok selected
  end).

(** [lockedTotal]: the value of the non-terminal rows that are not live. *)
Definition locked_total (l : list (option Descriptor)) : Z :=
  foldl (λ total o,
    match o with
    | None => total
    | Some d =>
        if bool_decide (is_Some (TaprootAssetRoot d)) then total
        else if bool_decide (Status d = VTXOStatusLive) then total
        else int64 (total + Amount d)
    end) 0 l.

Definition insufficientLiquidityError (liveCandidates : list Candidate)
    (p : reserveParams) : op_ merr :=
  let liveTotal := sum_amounts c_Amount liveCandidates in
  do* r := mcall ListLiveVTXOs in
  mret (match r with
  | Err e => errorf ("classify liquidity: " +:+ e)
  | Ok nonTerminal =>
      let lockedTotal := locked_total nonTerminal in
      if (0 <? lockedTotal) && (targetAmount p <=? int64 (liveTotal + lockedTotal))
      then mkErr (Some ErrVTXOLiquidityLocked) "need, spendable, locked"
      else mkErr (Some ErrInsufficientSpendableFunds) "need, spendable"
  end).

Definition selectReservationCandidates (candidates : list Candidate)
    (p : reserveParams) : op_ (result merr (list Candidate)) :=
  match exactOutpoints p with
  | _ :: _ => selectExactReservationCandidates candidates p
  | [] =>
      let '(res, err) :=
        LargestFirst c_Amount candidates
          (mkRequest (targetAmount p) (minChangeAmount p) false) in
      match err with
      | Some ErrChangeBelowMin =>
          mret (Err (mkErr (Some SelChangeBelowMin)
            "change is below minimum change amount"))
      | Some ErrSelectionShortfall | Some ErrNoCandidates =>
          do* e := insufficientLiquidityError candidates p in mret (Err e)
      | Some ErrInvalidTarget => mret (Err (errorf "invalid target"))
      | None => mret (Ok (Selected res))
      end
  end.

(** The reservation loop: [done] are the outpoints reserved so far. *)
Fixpoint reserve_loop (p : reserveParams) (selected : list Candidate)
    (done : list OutPoint) (epochs : gmap OutPoint Z) :
    op_ (result merr (gmap OutPoint Z)) :=
  match selected with
  | [] => mret (Ok epochs)
  | c :: selected =>
      let op := c_Outpoint c in
      do* m := mget in
      do* ref :=
        (if bool_decide (op ∈ actors m) then mret (Ok tt)
         else respawnActorFromStore op) in
      match ref with
      | Err e =>
          seq* rollback p done in
          mret (Err (wrapf "no actor for outpoint: " e))
      | Ok _ =>
          if detached p then
            do* epoch := markReserved op in
            seq* mcall (DetachedAsk op epoch (reserveEvent p)) in
            reserve_loop p selected (done ++ [op]) (<[op := epoch]> epochs)
          else
            do* r := ask p op (reserveEvent p) in
            match r with
            | Err e =>
                seq* rollback p done in
                mret (Err (mkErr (Some ErrVTXOLiquidityLocked) ("reserve: " +:+ e)))
            | Ok _ => reserve_loop p selected (done ++ [op]) epochs
            end
      end
  end.

(** A missing key reads as zero. *)
Definition epoch_of (epochs : gmap OutPoint Z) (op : OutPoint) : Z :=
  default 0 (epochs !! op).

Definition selected_vtxos (epochs : gmap OutPoint Z) (selected : list Candidate) :
    list SelectedVTXO :=
  (λ c, mkSelectedVTXO (c_Outpoint c) (epoch_of epochs (c_Outpoint c)) (c_Amount c)
    (c_PkScript c)) <$> selected.

Definition selectAndReserveVTXOs (p : reserveParams) :
    op_ (result merr (list SelectedVTXO * Z)) :=
  if targetAmount p <=? 0
  then mret (Err (errorf "target amount must be positive"))
  else
    do* rows := mcall (ListSelectionCandidates VTXOStatusLive) in
    match rows with
    | Err e => mret (Err (errorf ("list live vtxos: " +:+ e)))
    | Ok rows =>
        do* m := mget in
        let candidates := filter (λ c, isReserved m (c_Outpoint c) = false) rows in
        do* sel := selectReservationCandidates candidates p in
        match sel with
        | Err e => mret (Err e)
        | Ok selected =>
            do* r := reserve_loop p selected [] ∅ in
            mret (match r with
            | Err e => Err e
            | Ok epochs =>
                Ok (selected_vtxos epochs selected, sum_amounts c_Amount selected)
            end)
        end
    end.

Definition rollbackSpend (outpoints : list OutPoint) : op_ unit :=
  mfor (λ op,
    seq* dropReserved op in
    do* m := mget in
    if bool_decide (op ∈ actors m)
    then seq* askVTXOActor op SpendReleasedEvent in mret tt
    else mret tt) outpoints.

Definition handleSelectAndReserveSpend (TargetAmount MinChangeAmount : Z)
    (Outpoints : list OutPoint) : op_ (result merr ManagerResp) :=
  do* r := selectAndReserveVTXOs
    (mkReserveParams TargetAmount MinChangeAmount Outpoints SpendReserveEvent
      rollbackSpend askVTXOActor true) in
  mret (match r with
        | Err e => Err e
        | Ok (vtxos, total) => Ok (SelectAndReserveSpendResponse vtxos total)
        end).

(** [dedupOutpoints] keeps first occurrences. *)
Definition dedupOutpoints (ops : list OutPoint) : list OutPoint :=
  foldl (λ out op, if bool_decide (op ∈ out) then out else out ++ [op]) [] ops.

(** One outpoint of [handleReleaseSpend]. *)
Definition release_spend_one (epochs : gmap OutPoint Z) (acc : nat * list merr)
    (op : OutPoint) : op_ (nat * list merr) :=
  let '(released, errs) := acc in
  do* m := mget in
  let epoch := epoch_of epochs op in
  let superseded :=
    negb (epoch =? 0) &&
    match reserved m !! op with
    | Some cur => negb (cur =? 0) && negb (cur =? epoch)
    | None => false
    end in
  if superseded then mret acc
  else if bool_decide (op ∉ actors m)
  then mret (released, errs ++ [errorf "no actor for outpoint"])
  else
    do* r := askVTXOActor op SpendReleasedEvent in
    match r with
    | Err e => mret (released, errs ++ [errorf ("release: " +:+ e)])
    | Ok _ => seq* dropReserved op in mret (S released, errs)
    end.

Definition handleReleaseSpend (Outpoints : list OutPoint)
    (ReserveEpochs : gmap OutPoint Z) : op_ (result merr ManagerResp) :=
  do* acc := mfold (release_spend_one ReserveEpochs) (0%nat, []) (dedupOutpoints Outpoints) in
  let '(released, errs) := acc in
  mret (match errs with
        | [] => Ok (ReleaseSpendResponse released)
        | _ => Err (joinf "release spend: failed: " errs)
        end).

Definition isPersistedSpent (op : OutPoint) : op_ (result merr bool) :=
  do* r := mcall (GetVTXO op) in
  mret (match r with
  | Err ErrVTXONotFound | Ok None => Ok false
  | Err (GetFailed e) => Err (errorf ("load vtxo for spent check: " +:+ e))
  | Ok (Some d) => Ok (bool_decide (Status d = VTXOStatusSpent))
  end).

Fixpoint complete_loop (ops : list OutPoint) (completed : nat) :
    op_ (result merr ManagerResp) :=
  match ops with
  | [] => mret (Ok (CompleteSpendResponse completed))
  | op :: ops =>
      do* m := mget in
      if bool_decide (op ∈ actors m) then
        do* r := askVTXOActor op SpendCompletedEvent in
        match r with
        | Err e => mret (Err (errorf ("complete: " +:+ e)))
        | Ok _ => seq* dropReserved op in complete_loop ops (S completed)
        end
      else
        do* r := isPersistedSpent op in
        match r with
        | Err e => mret (Err e)
        | Ok true => seq* dropReserved op in complete_loop ops (S completed)
        | Ok false => mret (Err (errorf "no actor for outpoint"))
        end
  end.

Definition handleCompleteSpend (Outpoints : list OutPoint) : op_ (result merr ManagerResp) :=
  complete_loop (dedupOutpoints Outpoints) 0.

(** ** Forfeit admission *)

Definition rollbackForfeit (outpoints : list OutPoint) : op_ unit :=
  mfor (λ op,
    do* m := mget in
    if bool_decide (op ∈ actors m)
    then seq* askForfeitVTXOActor op (ForfeitReleasedEvent "") in mret tt
    else mret tt) outpoints.

Fixpoint forfeit_known (m : Manager) (ops : list OutPoint) : result merr unit :=
  match ops with
  | [] => Ok tt
  | op :: ops =>
      if bool_decide (op ∉ actors m) then Err (errorf "no actor for outpoint")
      else if isReserved m op
      then Err (mkErr (Some ErrVTXOLiquidityLocked) "outpoint is spend-reserved")
      else forfeit_known m ops
  end.

Fixpoint reserve_forfeit_loop (ops done : list OutPoint) : op_ (result merr ManagerResp) :=
  match ops with
  | [] => mret (Ok ReserveForfeitResponse)
  | op :: ops =>
      do* r := askForfeitVTXOActor op PendingForfeitEvent in
      match r with
      | Err e =>
          seq* rollbackForfeit done in
          mret (Err (errorf ("reserve forfeit: " +:+ e)))
      | Ok _ => reserve_forfeit_loop ops (done ++ [op])
      end
  end.

Definition handleReserveForfeit (Outpoints : list OutPoint) : op_ (result merr ManagerResp) :=
  let outpoints := dedupOutpoints Outpoints in
  do* m := mget in
  match forfeit_known m outpoints with
  | Err e => mret (Err e)
  | Ok _ => reserve_forfeit_loop outpoints []
  end.

Definition release_forfeit_one (RoundID : string) (acc : nat * list merr)
    (op : OutPoint) : op_ (nat * list merr) :=
  let '(released, errs) := acc in
  do* m := mget in
  if bool_decide (op ∉ actors m)
  then mret (released, errs ++ [errorf "no actor for outpoint"])
  else
    do* r := askForfeitVTXOActor op (ForfeitReleasedEvent RoundID) in
    mret (match r with
          | Err e => (released, errs ++ [errorf ("release forfeit: " +:+ e)])
          | Ok _ => (S released, errs)
          end).

Definition handleReleaseForfeit (Outpoints : list OutPoint) (RoundID : string) :
    op_ (result merr ManagerResp) :=
  do* acc := mfold (release_forfeit_one RoundID) (0%nat, []) (dedupOutpoints Outpoints) in
  let '(released, errs) := acc in
  mret (match errs with
        | [] => Ok (ReleaseForfeitResponse released)
        | _ => Err (joinf "release forfeit: failed: " errs)
        end).

Definition handleSelectAndReserveForfeit (TargetAmount : Z) : op_ (result merr ManagerResp) :=
  do* r := selectAndReserveVTXOs
    (mkReserveParams TargetAmount 0 [] PendingForfeitEvent rollbackForfeit
      askForfeitVTXOActor false) in
  mret (match r with
        | Err e => Err e
        | Ok (vtxos, total) => Ok (SelectAndReserveForfeitResponse vtxos total)
        end).

(** ** Startup sweeps *)

(** Rows of a listing are non-nil where the code dereferences them unchecked. *)
Definition present (l : list (option Descriptor)) : list Descriptor := omap id l.

(** Only the first descriptor of the outpoint is updated. *)
Fixpoint mark_live (op : OutPoint) (l : list Descriptor) : list Descriptor :=
  match l with
  | [] => []
  | d :: l =>
      if bool_decide (Outpoint d = op) then set_Status d VTXOStatusLive :: l
      else d :: mark_live op l
  end.
Definition markDescriptorLive (op : OutPoint) : op_ unit :=
  mmodify (λ m, set_liveDescriptors m (mark_live op (liveDescriptors m))).

(** Release one orphan; the answer's error is logged. *)
Definition sweep_release (bounded : bool) (op : OutPoint) (e : VTXOEvent) : op_ unit :=
  do* m := mget in
  if bool_decide (op ∉ actors m) then mret tt
  else
    do* r := mcall (Ask bounded op e) in
    match r with Err _ => mret tt | Ok _ => markDescriptorLive op end.

(** The reverse direction of the reservation sweep. *)
Definition redrive (spendingSet : gset OutPoint) (op : OutPoint) : op_ unit :=
  if bool_decide (op ∈ spendingSet) then mret tt
  else
    do* m := mget in
    if bool_decide (op ∉ actors m) then mret tt
    else
      seq* markReservedUnknown op in
      seq* mcall (Tell op SpendReserveEvent) in mret tt.

Definition sweepOrphanedReservations : op_ unit :=
  if negb (mc_ReservationStore cfg) then mret tt
  else
    do* spending := mcall (ListVTXOsByStatus VTXOStatusSpending) in
    match spending with
    | Err _ => mret tt
    | Ok spending =>
        let spending := Outpoint <$> present spending in
        do* reserved := mcall ListReservedOutpoints in
        match reserved with
        | Err _ => mret tt
        | Ok reserved =>
            let reservedSet : gset OutPoint := list_to_set reserved in
            seq* mfor (λ op,
              if bool_decide (op ∈ reservedSet) then mret tt
              else sweep_release false op SpendReleasedEvent) spending in
            mfor (redrive (list_to_set spending)) reserved
        end
    end.

(** One row of [releasePreCheckpointForfeits]. *)
Definition release_pre_checkpoint (d : Descriptor) : op_ unit :=
  if bool_decide (ForfeitRoundID d = EmptyString) then mret tt
  else
    do* r := mcall (HasForfeitRoundCheckpoint (ForfeitRoundID d)) in
    match r with
    | Err _ | Ok true => mret tt
    | Ok false =>
        sweep_release true (Outpoint d) (ForfeitReleasedEvent (ForfeitRoundID d))
    end.

Definition releasePreCheckpointForfeits : op_ unit :=
  if negb (mc_HasForfeitRoundCheckpoint cfg) then mret tt
  else
    do* r := mcall (ListVTXOsByStatus VTXOStatusForfeiting) in
    match r with
    | Err _ => mret tt
    | Ok l => mfor release_pre_checkpoint (present l)
    end.

Definition releaseOrphanedForfeits : op_ unit :=
  do* r := mcall (ListVTXOsByStatus VTXOStatusPendingForfeit) in
  match r with
  | Err _ => mret tt
  | Ok l =>
      seq* mfor (λ d, sweep_release true (Outpoint d) (ForfeitReleasedEvent ""))
        (present l) in
      releasePreCheckpointForfeits
  end.

(** ** Exit outcomes *)

Definition ExitPolicyVHTLCClaim : string := "vhtlc_claim".
Definition ExitPolicyVHTLCRefundWithoutReceiver : string :=
  "vhtlc_refund_without_receiver".
Definition ExitPolicyKind_Valid (k : string) : bool :=
  bool_decide (k = ExitPolicyVHTLCClaim) ||
  bool_decide (k = ExitPolicyVHTLCRefundWithoutReceiver).

(** Drive a live actor through the outcome. *)
Definition exit_via_actor (op : OutPoint) (e : VTXOEvent) (text : error) :
    op_ (result merr ManagerResp) :=
  do* r := askVTXOActor op e in
  mret (match r with
        | Err e => Err (errorf (text +:+ e))
        | Ok _ => Ok ExitOutcomeResp
        end).

(** Re-materialise an exiting row in another status: spawn first, then persist,
    then let the actor classify its expiry. *)
Definition rematerialize (op : OutPoint) (d : Descriptor) (st : VTXOStatus)
    (spawnText storeText : error) : op_ (result merr ManagerResp) :=
  let d := set_Status d st in
  do* r := spawnUnclassifiedVTXOActor d in
  match r with
  | Err e => mret (Err (wrapf spawnText e))
  | Ok _ =>
      seq* track op in
      do* w := mcall (StoreStatus op st) in
      seq* requestStartTip d in
      mret (match w with
            | Err e => Err (errorf (storeText +:+ e))
            | Ok _ => Ok ExitOutcomeResp
            end)
  end.

Definition recoverExitedVTXO (req : ExitOutcomeNotification) : op_ (result merr ManagerResp) :=
  if ExitPolicyKind_Valid (eo_PolicyKind req) then mret (Ok ExitOutcomeResp)
  else
    do* m := mget in
    if bool_decide (eo_Outpoint req ∈ actors m)
    then exit_via_actor (eo_Outpoint req) (ExitFailedEvent (eo_Reason req)) "ask exit-failed: "
    else
      do* r := mcall (GetVTXO (eo_Outpoint req)) in
      match r with
      | Err e => mret (Err (errorf ("load vtxo for recovery: " +:+ get_text e)))
      | Ok None => mret (Ok ExitOutcomeResp)
      | Ok (Some d) =>
          if bool_decide (Status d ≠ VTXOStatusUnilateralExit) then mret (Ok ExitOutcomeResp)
          else rematerialize (eo_Outpoint req) d VTXOStatusLive "respawn recovered vtxo actor: "
                 "restore vtxo status: "
      end.

Definition confirmExitedVTXO (req : ExitOutcomeNotification) : op_ (result merr ManagerResp) :=
  do* m := mget in
  if bool_decide (eo_Outpoint req ∈ actors m)
  then exit_via_actor (eo_Outpoint req) ExitConfirmedEvent "ask exit-confirmed: "
  else
    do* r := mcall (GetVTXO (eo_Outpoint req)) in
    match r with
    | Err e => mret (Err (errorf ("load vtxo for confirm: " +:+ get_text e)))
    | Ok None => mret (Ok ExitOutcomeResp)
    | Ok (Some d) =>
        if bool_decide (Status d ≠ VTXOStatusUnilateralExit) then mret (Ok ExitOutcomeResp)
        else
          do* w := mcall (StoreStatus (eo_Outpoint req) VTXOStatusSpent) in
          mret (match w with
                | Err e => Err (errorf ("persist spent status: " +:+ e))
                | Ok _ => Ok ExitOutcomeResp
                end)
    end.

Definition conflictExitedVTXO (req : ExitOutcomeNotification) : op_ (result merr ManagerResp) :=
  if ExitPolicyKind_Valid (eo_PolicyKind req) then mret (Ok ExitOutcomeResp)
  else
    do* m := mget in
    if bool_decide (eo_Outpoint req ∈ actors m)
    then exit_via_actor (eo_Outpoint req) (ExitConflictedEvent (eo_Reason req))
           "ask exit-conflicted: "
    else
      do* r := mcall (GetVTXO (eo_Outpoint req)) in
      match r with
      | Err e => mret (Err (errorf ("load vtxo for conflict: " +:+ get_text e)))
      | Ok None => mret (Ok ExitOutcomeResp)
      | Ok (Some d) =>
          if bool_decide (Status d ≠ VTXOStatusUnilateralExit) then mret (Ok ExitOutcomeResp)
          else rematerialize (eo_Outpoint req) d VTXOStatusExpired "respawn conflicted vtxo actor: "
                 "persist expired status: "
      end.

Definition handleExitOutcome (req : ExitOutcomeNotification) : op_ (result merr ManagerResp) :=
  match eo_Outcome req with
  | ExitOutcomeRecoverable => recoverExitedVTXO req
  | ExitOutcomeConfirmed => confirmExitedVTXO req
  | ExitOutcomeConflicted => conflictExitedVTXO req
  | ExitOutcomeOther _ => mret (Err (errorf "unknown exit outcome"))
  end.

Definition reconcile_exit (d : Descriptor) : op_ unit :=
  do* r := mcall (ResolveExitOutcome (Outpoint d)) in
  match r with
  | Err _ | Ok None => mret tt
  | Ok (Some (outcome, reason, kind)) =>
      seq* handleExitOutcome (mkExitOutcome (Outpoint d) outcome reason kind) in mret tt
  end.

Definition reconcileUnilateralExits : op_ unit :=
  if negb (mc_ExitOutcomeResolver cfg) then mret tt
  else
    do* r := mcall (ListVTXOsByStatus VTXOStatusUnilateralExit) in
    match r with
    | Err _ => mret tt
    | Ok l => mfor reconcile_exit (present l)
    end.

(** ** Start *)

Definition recover_actor (d : Descriptor) : op_ unit :=
  do* r := spawnVTXOActor d in
  match r with
  | Err _ => mret tt
  | Ok _ =>
      seq* track (Outpoint d) in
      mmodify (λ m, set_liveDescriptors m (liveDescriptors m ++ [d]))
  end.

Definition Start : op_ (result merr unit) :=
  do* r := mcall ListRecoverableVTXOs in
  match r with
  | Err e => mret (Err (errorf ("list recoverable vtxos: " +:+ e)))
  | Ok vtxos =>
      seq* mfor recover_actor vtxos in
      seq* reconcileUnilateralExits in
      seq* sweepOrphanedReservations in
      seq* releaseOrphanedForfeits in
      mret (Ok tt)
  end.

(** ** Relays and cohorts *)

Definition maxAutoRefreshCohortSize : Z := 32.

Record autoRefreshCohortMember := mkMember {
  cm_outpoint : OutPoint;
  cm_request : RefreshVTXORequest;
  cm_adopted : bool;
  cm_generation : Z;
}.

Record autoRefreshCandidate := mkCohortCandidate {
  cc_descriptor : Descriptor;
  cc_pending : bool;
}.

Definition rememberAdoptedAutoRefreshRelay (req : RefreshVTXORequest) : op_ unit :=
  mmodify (λ m, set_relays m
    (<[rr_VTXOOutpoint req := rr_TriggerHeight req]> (adoptedAutoRefreshRelays m))).

Definition forgetAdoptedAutoRefreshRelay (req : RefreshVTXORequest) : op_ unit :=
  mmodify (λ m,
    if bool_decide (adoptedAutoRefreshRelays m !! rr_VTXOOutpoint req =
                    Some (rr_TriggerHeight req))
    then set_relays m (delete (rr_VTXOOutpoint req) (adoptedAutoRefreshRelays m))
    else m).

Definition consumeAdoptedAutoRefreshRelay (m : Manager) (req : RefreshVTXORequest) : bool :=
  bool_decide (adoptedAutoRefreshRelays m !! rr_VTXOOutpoint req =
               Some (rr_TriggerHeight req)).

Definition releaseAutoRefreshCohortMember (op leader : OutPoint) (generation : Z) :
    op_ unit :=
  seq* mcall (Tell op (CohortRefreshReleaseEvent leader generation)) in mret tt.

(** The key and whether there is one to go on with. *)
Definition autoRefreshCohortOperatorKey (req : RefreshVTXORequest) :
    op_ (option PublicKey * bool) :=
  if bool_decide (is_Some (rr_OperatorKey req)) || negb (mc_FetchOperatorKey cfg)
  then mret (rr_OperatorKey req, true)
  else
    do* r := mcall FetchOperatorKey in
    mret (match r with
          | Ok (Some key) => (Some key, true)
          | _ => (None, false)
          end).

(** The guards of [addCandidates], less [seen]. *)
Definition cohort_eligible (m : Manager) (c : ExpiryConfig) (req : RefreshVTXORequest)
    (pending : bool) (d : Descriptor) : bool :=
  negb (bool_decide (is_Some (TaprootAssetRoot d)) ||
        bool_decide (Outpoint d = rr_VTXOOutpoint req) ||
        bool_decide (BatchExpiry d ≠ rr_BatchExpiry req) ||
        isReserved m (Outpoint d)) &&
  negb (pending &&
        bool_decide (default 0 (adoptedAutoRefreshRelays m !! Outpoint d) =
                     rr_TriggerHeight req)) &&
  negb (negb pending && ShouldWaitForFreeRefreshWindow c d (rr_TriggerHeight req)) &&
  bool_decide (Outpoint d ∈ actors m).

Definition addCandidates (m : Manager) (c : ExpiryConfig) (req : RefreshVTXORequest)
    (pending : bool) (eligible : list autoRefreshCandidate) (l : list (option Descriptor)) :
    list autoRefreshCandidate :=
  foldl (λ eligible d,
    if cohort_eligible m c req pending d &&
       bool_decide (Outpoint d ∉ (λ x, Outpoint (cc_descriptor x)) <$> eligible)
    then eligible ++ [mkCohortCandidate d pending] else eligible) eligible (present l).

(** Pending candidates first, then by outpoint. *)
Definition candidate_le (x y : autoRefreshCandidate) : Prop :=
  (cc_pending x = true ∧ cc_pending y = false) ∨
  (cc_pending x = cc_pending y ∧
   outpoint_le (Outpoint (cc_descriptor x)) (Outpoint (cc_descriptor y))).
#[export] Instance candidate_le_dec : RelDecision candidate_le.
Proof. intros x y. unfold candidate_le. apply _. Defined.

(** The loop over the sorted candidates. *)
Fixpoint cohort_loop (req : RefreshVTXORequest) (key : option PublicKey) (generation : Z)
    (eligible : list autoRefreshCandidate) (remaining : Z)
    (members : list autoRefreshCohortMember) : op_ (list autoRefreshCohortMember) :=
  match eligible with
  | [] => mret members
  | x :: eligible =>
      if remaining <=? 0 then mret members
      else
        do* expired := mcall ContextErr in
        if expired then mret members
        else
          let op := Outpoint (cc_descriptor x) in
          do* r := askForfeitVTXOActor op
            (CohortRefreshEvent (rr_TriggerHeight req) (rr_BatchExpiry req)
              (rr_VTXOOutpoint req) generation key) in
          match r with
          | Err _ =>
              seq* releaseAutoRefreshCohortMember op (rr_VTXOOutpoint req) generation in
              do* expired := mcall ContextErr in
              if expired then mret members
              else cohort_loop req key generation eligible remaining members
          | Ok t =>
              let wasLive := match PriorState t with LiveState _ _ => true | _ => false end in
              let wasPending := isPendingForfeitState (PriorState t) in
              if negb ((wasLive || wasPending) && isPendingForfeitState (NewState t))
              then cohort_loop req key generation eligible remaining members
              else
                match RoundRequest t with
                | None =>
                    seq* releaseAutoRefreshCohortMember op (rr_VTXOOutpoint req)
                      generation in
                    cohort_loop req key generation eligible remaining members
                | Some request =>
                    seq* (if wasPending then rememberAdoptedAutoRefreshRelay request
                          else mret tt) in
                    cohort_loop req key generation eligible (remaining - 1)
                      (members ++ [mkMember op request wasPending generation])
                end
          end
  end.

Definition coordinateAutoRefreshCohort (req : RefreshVTXORequest) :
    op_ (list autoRefreshCohortMember) :=
  if (rr_BatchExpiry req <=? 0) || (rr_TriggerHeight req <=? 0) then mret []
  else
    do* m := mget in
    let generation := uint64 (autoRefreshCohortGeneration m + 1) in
    seq* mmodify (λ m, set_generation m generation) in
    do* k := autoRefreshCohortOperatorKey req in
    let '(key, keyOK) := k in
    if negb keyOK then mret []
    else
      do* live := mcall (ListVTXOsByStatus VTXOStatusLive) in
      match live with
      | Err _ => mret []
      | Ok live =>
          do* pending := mcall (ListVTXOsByStatus VTXOStatusPendingForfeit) in
          let pending := match pending with Ok l => l | Err _ => [] end in
          do* terms := mcall OperatorTerms in
          do* m := mget in
          let c := with_terms (mc_Expiry cfg) terms in
          let eligible :=
            merge_sort candidate_le
              (addCandidates m c req false (addCandidates m c req true [] pending) live) in
          cohort_loop req key generation eligible (maxAutoRefreshCohortSize - 1) []
      end.

(** The order of the requests of a cohort. *)
Definition request_le (x y : RefreshVTXORequest) : Prop :=
  outpoint_le (rr_VTXOOutpoint x) (rr_VTXOOutpoint y).
#[export] Instance request_le_dec : RelDecision request_le.
Proof. intros x y. unfold request_le. apply _. Defined.

Definition release_member (req : RefreshVTXORequest) (member : autoRefreshCohortMember) :
    op_ unit :=
  if cm_adopted member then forgetAdoptedAutoRefreshRelay (cm_request member)
  else releaseAutoRefreshCohortMember (cm_outpoint member) (rr_VTXOOutpoint req)
         (cm_generation member).

(** The final handoff and what follows it; [auto] is the automatic refresh the
    payload carries. *)
Definition relay (payload : RoundReceivable) (auto : option RefreshVTXORequest)
    (members : list autoRefreshCohortMember) : op_ (result merr ManagerResp) :=
  do* r := mcall (RoundTell payload) in
  match r, auto with
  | Err e, None => mret (Err (errorf ("relay to round: " +:+ e)))
  | Err e, Some req =>
      seq* mfor (release_member req) members in
      seq* rollbackForfeit [rr_VTXOOutpoint req] in
      mret (Err (errorf ("relay to round: " +:+ e)))
  | Ok _, None => mret (Ok RelayToRoundResp)
  | Ok _, Some req =>
      seq* rememberAdoptedAutoRefreshRelay req in
      seq* mfor (λ x, rememberAdoptedAutoRefreshRelay (cm_request x)) members in
      mret (Ok RelayToRoundResp)
  end.

Definition handleRelayToRound (payload : RoundReceivable) : op_ (result merr ManagerResp) :=
  match payload with
  | RefreshPayload req =>
      if negb (rr_Automatic req) then relay payload None []
      else
        do* m := mget in
        if consumeAdoptedAutoRefreshRelay m req then mret (Ok RelayToRoundResp)
        else if roundStartupPending m then
          seq* rollbackForfeit [rr_VTXOOutpoint req] in mret (Ok RelayToRoundResp)
        else if rr_ExpandCohort req then
          do* members := coordinateAutoRefreshCohort req in
          relay (RefreshVTXOCohortRequest
                   (merge_sort request_le ((cm_request <$> members) ++ [req])))
            (Some req) members
        else relay payload (Some req) []
  | _ => relay payload None []
  end.

(** ** Creation and termination *)

Definition clientVTXOToDescriptor (cv : ClientVTXO) (msg : VTXOCreatedNotification) :
    Descriptor :=
  mkDescriptor (cv_Outpoint cv) (cv_Amount cv) (cv_PolicyTemplate cv) (cv_PkScript cv)
    (cv_TaprootAssetRoot cv) (cv_OwnerKey cv) (cv_OperatorKey cv) (cv_Ancestry cv)
    (cn_RoundID msg) (cn_CommitmentTxID msg) "" None (cn_BatchExpiry msg)
    (cv_Expiry cv) 0 (cn_CreatedHeight msg) VTXOStatusLive.

(** Spawn an actor unless the outpoint has one, and track it. *)
Definition spawn_tracked (d : Descriptor) : op_ unit :=
  do* r := spawnVTXOActor d in
  match r with Err _ => mret tt | Ok _ => track (Outpoint d) end.

Definition create_one (msg : VTXOCreatedNotification) (cv : ClientVTXO) : op_ unit :=
  do* m := mget in
  if bool_decide (cv_Outpoint cv ∈ actors m) then mret tt
  else
    let d := clientVTXOToDescriptor cv msg in
    do* r := mcall (SaveVTXO d) in
    match r with Err _ => mret tt | Ok _ => spawn_tracked d end.

Definition handleVTXOCreated (msg : VTXOCreatedNotification) : op_ (result merr ManagerResp) :=
  seq* mfor (create_one msg) (cn_VTXOs msg) in mret (Ok VTXOCreatedResp).

Definition materialize_one (o : option Descriptor) : op_ unit :=
  match o with
  | None => mret tt
  | Some d =>
      do* m := mget in
      if bool_decide (Outpoint d ∈ actors m) then mret tt else spawn_tracked d
  end.

Definition handleVTXOsMaterialized (l : list (option Descriptor)) :
    op_ (result merr ManagerResp) :=
  seq* mfor materialize_one l in mret (Ok VTXOsMaterializedResp).

Definition handleVTXOTerminated (op : OutPoint) : op_ (result merr ManagerResp) :=
  seq* mmodify (λ m, set_actors m (actors m ∖ {[op]})) in
  seq* mmodify (λ m, set_relays m (delete op (adoptedAutoRefreshRelays m))) in
  seq* dropReserved op in
  seq* (if mc_TerminalVTXOObserver cfg
        then seq* mcall (TerminalVTXOObserver op) in mret tt else mret tt) in
  mret (Ok VTXOTerminatedResp).

(** ** Forced exits *)

(** The actor to ask, or the answer to return at once. *)
Definition spawnForceUnrollActor (op : OutPoint) : op_ (option (result merr ManagerResp)) :=
  do* r := mcall (GetVTXO op) in
  match r with
  | Err ErrVTXONotFound | Ok None =>
      mret (Some (Ok (ForceUnrollResponse false "no such vtxo")))
  | Err (GetFailed e) =>
      mret (Some (Err (errorf ("load vtxo for force-unroll: " +:+ e))))
  | Ok (Some d) =>
      if IsTerminal (statusToState d (Ok None))
      then mret (Some (Ok (ForceUnrollResponse false "already terminal")))
      else
        do* r := spawnVTXOActor d in
        match r with
        | Err e => mret (Some (Err (wrapf "respawn vtxo actor for force-unroll: " e)))
        | Ok _ => seq* track op in mret None
        end
  end.

Definition is_expired (s : VTXOState) : bool :=
  match s with ExpiredState _ _ => true | _ => false end.
Definition is_forfeiting (s : VTXOState) : bool :=
  match s with ForfeitingState _ _ _ _ _ _ => true | _ => false end.

(** How the answer of the actor is reported. *)
Definition force_unroll_answer (t : VTXOActorResponse) : ManagerResp :=
  if IsTerminal (PriorState t) && IsTerminal (NewState t)
  then ForceUnrollResponse false "already terminal"
  else if is_expired (NewState t)
  then ForceUnrollResponse false
    "batch expired; recover by refreshing this VTXO into a round"
  else if is_forfeiting (PriorState t) && is_forfeiting (NewState t)
  then ForceUnrollResponse false
    "forfeit signature already issued; recover via the round holding this VTXO"
  else ForceUnrollResponse true "".

Definition handleForceUnroll (op : OutPoint) (Reason : string) (Trigger : UnrollTrigger)
    (Policy : option ExitPolicy) : op_ (result merr ManagerResp) :=
  do* m := mget in
  do* early :=
    (if bool_decide (op ∈ actors m) then mret None else spawnForceUnrollActor op) in
  match early with
  | Some answer => mret answer
  | None =>
      let reason := if bool_decide (Reason = EmptyString) then "manual unroll" else Reason in
      do* r := askVTXOActor op (ForceUnrollEvent reason Trigger Policy) in
      mret (match r with
            | Err e => Err (errorf ("ask force-unroll: " +:+ e))
            | Ok t => Ok (force_unroll_answer t)
            end)
  end.

(** ** Custom forfeit inputs *)

Definition customForfeitInputDescriptor (i : CustomForfeitInput) : Descriptor :=
  mkDescriptor (ci_Outpoint i) (ci_Amount i) (ci_PolicyTemplate i) (ci_PkScript i) None
    (ci_ClientKey i) (ci_OperatorKey i) (ci_Ancestry i) (ci_RoundID i)
    (ci_CommitmentTxID i) "" None (ci_BatchExpiry i) (ci_RelativeExpiry i)
    (ci_ChainDepth i) (ci_CreatedHeight i) VTXOStatusPendingForfeit.

Definition customForfeitInputIsSynthetic (op : OutPoint) : op_ (result merr bool) :=
  do* r := mcall (GetVTXO op) in
  mret (match r with
        | Ok (Some _) => Ok false
        | Ok None => Err (errorf "check custom forfeit input: nil descriptor")
        | Err ErrVTXONotFound => Ok true
        | Err (GetFailed e) => Err (errorf ("check custom forfeit input: " +:+ e))
        end).

Definition customForfeitActorActive (m : Manager) (op : OutPoint) : bool :=
  bool_decide (is_Some (customForfeitSynthetic m !! op)).

Definition markCustomForfeitSynthetic (op : OutPoint) (synthetic : bool) : op_ unit :=
  mmodify (λ m, set_customForfeitSynthetic m
    (<[op := synthetic]> (customForfeitSynthetic m))).

(** Nil keys never match.  The client keys are compared as points, which the x-only
    keys of the model do not tell apart further. *)
Definition same_key (a b : option PublicKey) : bool :=
  match a, b with Some a, Some b => bool_decide (a = b) | _, _ => false end.

(** The identity of a custom input. *)
Definition same_identity (d : Descriptor) (i : CustomForfeitInput) : bool :=
  bool_decide (Amount d = ci_Amount i) &&
  bool_decide (d_PkScript d = ci_PkScript i) &&
  bool_decide (PolicyTemplate d = ci_PolicyTemplate i) &&
  same_key (ClientKey d) (ci_ClientKey i) &&
  same_key (OperatorKey d) (ci_OperatorKey i) &&
  bool_decide (d_RoundID d = ci_RoundID i) &&
  bool_decide (d_CommitmentTxID d = ci_CommitmentTxID i) &&
  bool_decide (BatchExpiry d = ci_BatchExpiry i) &&
  bool_decide (ChainDepth d = ci_ChainDepth i).

(** Whether the stored row matches, and whether it looks synthetic. *)
Definition customForfeitInputStoredMatch (i : CustomForfeitInput) :
    op_ (result merr (bool * bool)) :=
  do* r := mcall (GetVTXO (ci_Outpoint i)) in
  mret (match r with
  | Err e => Err (errorf ("load existing custom forfeit input: " +:+ get_text e))
  | Ok None => Err (errorf "load existing custom forfeit input: nil descriptor")
  | Ok (Some d) =>
      if bool_decide (is_Some (TaprootAssetRoot d))
      then Err (mkErr (Some SelAssetRequiresTransition) ErrAssetVTXORequiresTransition)
      else Ok (same_identity d i, bool_decide (Status d = VTXOStatusPendingForfeit))
  end).

Definition respawnCustomForfeitBaseActor (op : OutPoint) : op_ (result merr unit) :=
  do* r := mcall (GetVTXO op) in
  match r with
  | Err e => mret (Err (errorf ("load base custom forfeit input: " +:+ get_text e)))
  | Ok None => mret (Err (errorf "load base custom forfeit input: nil descriptor"))
  | Ok (Some d) =>
      if IsTerminal (statusToState d (Ok None)) then mret (Ok tt)
      else
        do* r := spawnVTXOActor d in
        match r with
        | Err e => mret (Err (wrapf "respawn base custom forfeit actor: " e))
        | Ok _ => seq* track op in mret (Ok tt)
        end
  end.

Definition stop_actor (op : OutPoint) : op_ unit :=
  seq* mcall (StopAndRemoveActor op) in
  mmodify (λ m, set_actors m (actors m ∖ {[op]})).

(** A missing entry counts as synthetic. *)
Definition dropCustomForfeitSynthetic (op : OutPoint) : op_ bool :=
  do* m := mget in
  seq* mmodify (λ m, set_customForfeitSynthetic m (delete op (customForfeitSynthetic m))) in
  mret (default true (customForfeitSynthetic m !! op)).

Definition drop_custom_one (acc : nat * list merr) (op : OutPoint) :
    op_ (nat * list merr) :=
  let '(dropped, errs) := acc in
  do* m := mget in
  seq* (if bool_decide (op ∈ actors m) then stop_actor op else mret tt) in
  do* synthetic := dropCustomForfeitSynthetic op in
  if synthetic then
    do* r := mcall (DeleteVTXO op) in
    mret (match r with
          | Err e => (dropped, errs ++ [errorf ("delete custom forfeit input: " +:+ e)])
          | Ok _ => (S dropped, errs)
          end)
  else
    do* r := respawnCustomForfeitBaseActor op in
    mret (match r with
          | Err e => (dropped, errs ++ [wrapf "restore custom forfeit base actor: " e])
          | Ok _ => (S dropped, errs)
          end).

Definition handleDropCustomForfeitInputs (Outpoints : list OutPoint) :
    op_ (result merr ManagerResp) :=
  do* acc := mfold drop_custom_one (0%nat, []) (dedupOutpoints Outpoints) in
  let '(dropped, errs) := acc in
  mret (match errs with
        | [] => Ok (DropCustomForfeitInputsResponse dropped)
        | _ => Err (joinf "drop custom forfeit inputs: " errs)
        end).

Definition rollbackActivatedCustomForfeitInputs (outpoints : list OutPoint) :
    op_ (result merr unit) :=
  match outpoints with
  | [] => mret (Ok tt)
  | _ =>
      do* r := handleDropCustomForfeitInputs outpoints in
      mret (match r with Ok _ => Ok tt | Err e => Err e end)
  end.

(** What an input needs before its signer can be spawned: nothing, because the
    signer already runs ([None]), or whether its row is synthetic. *)
Definition prepare_custom (i : CustomForfeitInput) : op_ (result merr (option bool)) :=
  do* m := mget in
  if bool_decide (ci_Outpoint i ∈ actors m) && customForfeitActorActive m (ci_Outpoint i)
  then
    do* r := customForfeitInputStoredMatch i in
    mret (match r with
          | Err e => Err e
          | Ok (true, _) => Ok None
          | Ok (false, _) =>
              Err (errorf "custom forfeit input conflicts with active custom signer")
          end)
  else
    do* known :=
      (if bool_decide (ci_Outpoint i ∈ actors m) then
         do* r := customForfeitInputStoredMatch i in
         match r with
         | Err e => mret (Err e)
         | Ok (false, _) =>
             mret (Err (errorf "custom forfeit input conflicts with existing VTXO actor"))
         | Ok (true, synthetic) =>
             seq* stop_actor (ci_Outpoint i) in mret (Ok synthetic)
         end
       else customForfeitInputIsSynthetic (ci_Outpoint i)) in
    match known with
    | Err e => mret (Err e)
    | Ok true => mret (Ok (Some true))
    | Ok false =>
        do* r := customForfeitInputStoredMatch i in
        mret (match r with
              | Err e => Err e
              | Ok (false, _) =>
                  Err (errorf "custom forfeit input does not match existing VTXO row")
              | Ok (true, synthetic) => Ok (Some synthetic)
              end)
    end.

(** Persisting a synthetic descriptor. *)
Definition save_synthetic (d : Descriptor) : op_ (result merr unit) :=
  do* r := mcall (SaveVTXO d) in
  match r with
  | Err e => mret (Err (errorf ("save custom forfeit input: " +:+ e)))
  | Ok _ =>
      do* r := mcall (StoreStatus (Outpoint d) VTXOStatusPendingForfeit) in
      match r with
      | Ok _ => mret (Ok tt)
      | Err e =>
          seq* mcall (DeleteVTXO (Outpoint d)) in
          mret (Err (errorf ("mark custom forfeit input pending: " +:+ e)))
      end
  end.

(** Spawning the signer; a failure undoes what the row needed. *)
Definition spawn_custom (d : Descriptor) (synthetic : bool) : op_ (result merr unit) :=
  do* r := spawnVTXOActor d in
  match r with
  | Err e =>
      seq* (if synthetic then seq* mcall (DeleteVTXO (Outpoint d)) in mret tt
            else seq* respawnCustomForfeitBaseActor (Outpoint d) in mret tt) in
      mret (Err (wrapf "spawn custom forfeit input: " e))
  | Ok _ =>
      seq* track (Outpoint d) in
      seq* markCustomForfeitSynthetic (Outpoint d) synthetic in
      mret (Ok tt)
  end.

(** One input: [Ok true] when a signer was spawned, [Ok false] when one already
    ran. *)
Definition activate_one (i : CustomForfeitInput) : op_ (result merr bool) :=
  match ci_OperatorKey i, ci_ClientKey i with
  | None, _ => mret (Err (errorf "custom forfeit input missing operator key"))
  | _, None => mret (Err (errorf "custom forfeit input missing client key"))
  | _, _ =>
      do* r := prepare_custom i in
      match r with
      | Err e => mret (Err e)
      | Ok None => mret (Ok false)
      | Ok (Some synthetic) =>
          let d := customForfeitInputDescriptor i in
          do* r := (if synthetic then save_synthetic d else mret (Ok tt)) in
          match r with
          | Err e => mret (Err e)
          | Ok _ =>
              do* r := spawn_custom d synthetic in
              mret (match r with Err e => Err e | Ok _ => Ok true end)
          end
      end
  end.

Fixpoint activate_loop (inputs : list CustomForfeitInput) (activated : nat)
    (outpoints : list OutPoint) : op_ (result merr ManagerResp) :=
  match inputs with
  | [] => mret (Ok (ActivateCustomForfeitInputsResponse activated))
  | i :: inputs =>
      do* r := activate_one i in
      match r with
      | Ok spawned =>
          activate_loop inputs (S activated)
            (if spawned then outpoints ++ [ci_Outpoint i] else outpoints)
      | Err e =>
          do* r := rollbackActivatedCustomForfeitInputs outpoints in
          mret (Err (match r with
                     | Ok _ => e
                     | Err e' =>
                         joinf "" [e; wrapf "rollback activated custom forfeit inputs: " e']
                     end))
      end
  end.

Definition handleActivateCustomForfeitInputs (inputs : list CustomForfeitInput) :
    op_ (result merr ManagerResp) :=
  match inputs with
  | [] => mret (Err (errorf "custom forfeit inputs are empty"))
  | _ => activate_loop inputs 0 []
  end.

(** ** Expiry reconciliation *)

Definition handleReconcileExpiry : op_ (result merr ManagerResp) :=
  seq* mmodify (λ m, set_startup m false) in
  seq* releaseOrphanedForfeits in
  do* r := mcall BestHeight in
  do* m := mget in
  mret (match r with
        | Err e => Err (errorf ("get best height for expiry reconcile: " +:+ e))
        | Ok height => Ok (expiryReconcilePlan (actors m) height)
        end).

(** One row of [reconcileConfirmedForfeits]; the pass stops when the caller's
    context is done. *)
Fixpoint reconcile_confirmed_loop (refs : gset OutPoint) (l : list (option Descriptor))
    (reconciled : gset OutPoint) : op_ (gset OutPoint) :=
  match l with
  | [] => mret reconciled
  | o :: l =>
      do* cancelled := mcall ContextErr in
      if cancelled then mret reconciled
      else
        match o with
        | None => reconcile_confirmed_loop refs l reconciled
        | Some d =>
            match d_Settlement d with
            | None => reconcile_confirmed_loop refs l reconciled
            | Some st =>
                if bool_decide (ForfeitRoundID d = EmptyString) || (st_Height st <=? 0) ||
                   bool_decide (st_TxID st = 0%N) || bool_decide (Outpoint d ∉ refs)
                then reconcile_confirmed_loop refs l reconciled
                else
                  do* r := mcall (Ask true (Outpoint d) (ForfeitConfirmedEvent (st_TxID st))) in
                  let done :=
                    match r with
                    | Ok t => match NewState t with ForfeitedState _ _ _ => true | _ => false end
                    | Err _ => false
                    end in
                  reconcile_confirmed_loop refs l
                    (if done then {[Outpoint d]} ∪ reconciled else reconciled)
            end
        end
  end.

Definition reconcileConfirmedForfeits (refs : gset OutPoint) : op_ (gset OutPoint) :=
  do* r := mcall (ListVTXOsByStatus VTXOStatusForfeiting) in
  match r with
  | Err _ => mret ∅
  | Ok l => reconcile_confirmed_loop refs l ∅
  end.

(** The loop of [run] over the actors, in some order. *)
Fixpoint run_loop (confirmed : gset OutPoint) (height : Z) (ops : list OutPoint)
    (checked : nat) : op_ (option nat) :=
  match ops with
  | [] => mret (Some checked)
  | op :: ops =>
      do* cancelled := mcall ContextErr in
      if cancelled then mret None
      else if bool_decide (op ∈ confirmed) then run_loop confirmed height ops checked
      else
        do* r := mcall (Ask true op (BlockEpochEvent height)) in
        match r with
        | Err _ => run_loop confirmed height ops checked
        | Ok t =>
            if negb (is_expired (NewState t)) || is_expired (PriorState t)
            then run_loop confirmed height ops (S checked)
            else
              seq* mcall (Ask true op (BlockEpochEvent height)) in
              run_loop confirmed height ops (S checked)
        end
  end.

(** [plan.run]: executed by the caller outside the manager's turns. *)
Definition run (refs : gset OutPoint) (height : Z) : op_ (option nat) :=
  do* confirmed := reconcileConfirmedForfeits refs in
  do* r := run_loop confirmed height (elements refs) 0 in
  match r with
  | None => mret None
  | Some checked =>
      do* cancelled := mcall ContextErr in
      mret (if cancelled then None else Some checked)
  end.

(** ** The manager's turn *)

Definition Manager_Receive (msg : ManagerMsg) : op_ (result merr ManagerResp) :=
  match msg with
  | deferredRefreshRelay payload token =>
      do* active := mcall (TokenActive token) in
      if active then handleRelayToRound payload else mret (Ok RelayToRoundResp)
  | VTXOCreated n => handleVTXOCreated n
  | VTXOsMaterialized l => handleVTXOsMaterialized l
  | VTXOTerminatedMsg op => handleVTXOTerminated op
  | spendReservationFailedMsg op epoch =>
      seq* dropReservedEpoch op epoch in mret (Ok (ReleaseSpendResponse 0))
  | RelayToRoundMsg payload => handleRelayToRound payload
  | SelectAndReserveSpendRequest target minChange ops =>
      handleSelectAndReserveSpend target minChange ops
  | ReleaseSpendRequest ops epochs => handleReleaseSpend ops epochs
  | CompleteSpendRequest ops => handleCompleteSpend ops
  | ReserveForfeitRequest ops => handleReserveForfeit ops
  | ReleaseForfeitRequest ops round => handleReleaseForfeit ops round
  | ActivateCustomForfeitInputsRequest inputs => handleActivateCustomForfeitInputs inputs
  | DropCustomForfeitInputsRequest ops => handleDropCustomForfeitInputs ops
  | SelectAndReserveForfeitRequest target => handleSelectAndReserveForfeit target
  | GetActiveVTXOCountRequest =>
      do* m := mget in mret (Ok (GetActiveVTXOCountResponse (size (actors m))))
  | ListLiveDescriptorsRequest =>
      do* m := mget in mret (Ok (ListLiveDescriptorsResponse (liveDescriptors m)))
  | ReconcileExpiryRequest => handleReconcileExpiry
  | ForceUnrollRequest op reason trigger policy => handleForceUnroll op reason trigger policy
  | ExitOutcomeMsg n => handleExitOutcome n
  end.

End manager.
