(* ===== verification/VtxoLeases.v ===== *)
(** * Leases on coins: the theorems of [VtxoManager] about its reservation map

    What the manager promises whatever the store, the actors, the round and the
    clock answer.  The reservation map is a table of leases ([lease_spec], the
    abstract specification every message refines): a spend is granted coins that
    nobody holds, under fresh epochs, and a lease ends only by the message of its
    owner, a failure report of its own epoch or the end of the coin. *)

From S2P Require Import Prelude RecoveryProof CoinSelect VtxoExpiry VtxoForfeit VtxoFsm VtxoActor VtxoManager.
Local Open Scope Z_scope.

(** ** Computations that grant and free nothing *)

(** The reservation map with the epoch of the last grant. *)
Definition leases (m : Manager) : gmap OutPoint Z * Z := (reserved m, reserveEpoch m).

(** The detached reservations of a history: one for each grant. *)
Definition is_detached (ev : MEvent) : bool :=
  match ev with MEv (DetachedAsk _ _ _) _ => true | _ => false end.
Definition asks (tr : list MEvent) : nat := length (filter is_detached tr).

Lemma asks_snoc tr ev : asks (tr ++ [ev]) = (asks tr + if is_detached ev then 1 else 0)%nat.
Proof.
  unfold asks. rewrite filter_app, length_app. f_equal. rewrite filter_cons, filter_nil.
  by destruct (is_detached ev).
Qed.

Section frames.
Context {W : Type}.

(** What is watched of a state: calls other than grants do not change it. *)
Record Observer (B : Type) := mkObserver {
  observe : MSys W → B;
  observe_call : ∀ s w c r, is_detached (MEv c r) = false →
    observe (mkMSys (mgr s) w (mtrace s ++ [MEv c r])) = observe s;
}.
Arguments observe {B} _ _.

Program Definition view : Observer (gmap OutPoint Z * Z * nat) :=
  mkObserver _ (λ s, (leases (mgr s), asks (mtrace s))) _.
Next Obligation. intros s w c r Hc. simpl. by rewrite asks_snoc, Hc, Nat.add_0_r. Qed.

(** The counter of the epochs and the grants made. *)
Program Definition counts : Observer (Z * nat) :=
  mkObserver _ (λ s, (reserveEpoch (mgr s), asks (mtrace s))) _.
Next Obligation. intros s w c r Hc. simpl. by rewrite asks_snoc, Hc, Nat.add_0_r. Qed.

(** [m] does not change what [o] watches. *)
Definition keeps {A B} (o : Observer B) (m : MM W A) : Prop :=
  ∀ s, observe o (m s).2 = observe o s.

Context {B : Type} (o : Observer B).

Lemma keeps_ret {A} (a : A) : keeps o (mret a).
Proof. done. Qed.
Lemma keeps_get : keeps o mget.
Proof. done. Qed.
Lemma keeps_bind {A C} (m : MM W A) (k : A → MM W C) :
  keeps o m → (∀ a, keeps o (k a)) → keeps o (mbind m k).
Proof.
  intros Hm Hk s. unfold mbind. specialize (Hm s). destruct (m s) as [a s'].
  by rewrite Hk.
Qed.
Lemma keeps_modify (g : Manager → Manager) :
  (∀ s, observe o (mkMSys (g (mgr s)) (mworld s) (mtrace s)) = observe o s) →
  keeps o (mmodify g).
Proof. intros Hg s. apply Hg. Qed.
Lemma keeps_call (handle : ∀ c : Call, W → Resp c * W) c :
  (∀ r, is_detached (MEv c r) = false) → keeps o (mcall handle c).
Proof.
  intros Hc s. unfold mcall. destruct (handle c (mworld s)) as [r w].
  by apply observe_call.
Qed.
Lemma keeps_fold {A C} (g : C → A → MM W C) l :
  (∀ c a, keeps o (g c a)) → ∀ acc, keeps o (mfold g acc l).
Proof.
  intros Hg. induction l as [|x l IH]; intros acc; simpl; [apply keeps_ret|].
  by apply keeps_bind.
Qed.
Lemma keeps_for {A} (g : A → MM W unit) l : (∀ a, keeps o (g a)) → keeps o (mfor g l).
Proof. intros Hg. by apply keeps_fold. Qed.

End frames.
Arguments observe {W B} _ _.

Lemma keeps_counts {W A} (m : MM W A) : keeps view m → keeps counts m.
Proof.
  intros Hk s. specialize (Hk s). simpl in *. by injection Hk as _ -> ->.
Qed.

(** Symbolic execution up to the writes of the memory. *)
Ltac keeps_step :=
  match goal with
  | |- keeps _ (mret _) => apply keeps_ret
  | |- keeps _ mget => apply keeps_get
  | |- keeps ?o (mcall ?h ?c) => exact (keeps_call o h c (λ _, eq_refl))
  | |- keeps _ (mbind _ _) => apply keeps_bind; [|intros]
  | |- keeps _ (mfor _ _) => apply keeps_for; intros
  | |- keeps _ (mfold _ _ _) => apply keeps_fold; intros
  | |- keeps _ (mmodify _) => apply keeps_modify; intros; reflexivity
  | |- keeps _ (match ?x with _ => _ end) => destruct x
  | |- keeps _ (if ?x then _ else _) => destruct x
  | |- keeps _ (let '(_, _) := ?x in _) => destruct x
  end.
Ltac keeps :=
  repeat first [keeps_step | progress cbv zeta
    | progress unfold askVTXOActor, askForfeitVTXOActor].

(** Opens a call in a hypothesis. *)
Ltac call_inv lem H w Hw Hs :=
  lazymatch type of H with
  | mcall _ ?c ?s = (?r, ?s') => destruct (lem c s r s' H) as (w & Hw & Hs)
  end.

Section leases.
Context {W : Type} (cfg : ManagerConfig) (handle : ∀ c : Call, W → Resp c * W).
Local Abbreviation op_ A := (MM W A).

(** ** Leases *)

Lemma keeps_sweep_release b op e : keeps view (sweep_release handle b op e).
Proof. unfold sweep_release, markDescriptorLive. keeps. Qed.

Lemma keeps_spawn d : keeps view (spawnVTXOActor handle d).
Proof. unfold spawnVTXOActor, spawnUnclassifiedVTXOActor, requestStartTip. keeps. Qed.

Lemma keeps_respawn op : keeps view (respawnActorFromStore handle op).
Proof.
  unfold respawnActorFromStore, track. keeps; try apply keeps_spawn; keeps.
Qed.

Lemma keeps_rollbackForfeit l : keeps view (rollbackForfeit handle l).
Proof. unfold rollbackForfeit, askForfeitVTXOActor. keeps. Qed.

Lemma keeps_orphaned_forfeits : keeps view (releaseOrphanedForfeits cfg handle).
Proof.
  unfold releaseOrphanedForfeits, releasePreCheckpointForfeits, release_pre_checkpoint.
  keeps; apply keeps_sweep_release.
Qed.

Lemma keeps_exit n : keeps view (handleExitOutcome handle n).
Proof.
  unfold handleExitOutcome, recoverExitedVTXO, confirmExitedVTXO, conflictExitedVTXO,
    exit_via_actor, rematerialize, spawnUnclassifiedVTXOActor, requestStartTip, track.
  keeps.
Qed.

(** ** Inversion of computations *)

Lemma mbind_inv {A B} (m : op_ A) (k : A → op_ B) s r s' :
  mbind m k s = (r, s') → ∃ a s1, m s = (a, s1) ∧ k a s1 = (r, s').
Proof. unfold mbind. destruct (m s) as [a s1]. eauto. Qed.

Lemma mcall_inv c (s : MSys W) r s' :
  mcall handle c s = (r, s') → ∃ w, handle c (mworld s) = (r, w) ∧
    s' = mkMSys (mgr s) w (mtrace s ++ [MEv c r]).
Proof. unfold mcall. destruct (handle c (mworld s)) as [x w]. intros [= <- <-]. eauto. Qed.

Lemma keeps_run {A B} (o : Observer B) (m : op_ A) s r s' :
  keeps o m → m s = (r, s') → observe o s' = observe o s.
Proof. intros Hk Hm. specialize (Hk s). by rewrite Hm in Hk. Qed.

Lemma keeps_eq {A} (m : op_ A) s r s' :
  keeps view m → m s = (r, s') → leases (mgr s') = leases (mgr s).
Proof. intros Hk Hm. exact (f_equal fst (keeps_run view m s r s' Hk Hm)). Qed.

(** The grants of a selection, in order. *)
Fixpoint grant (ops : list OutPoint) (l : gmap OutPoint Z * Z) : gmap OutPoint Z * Z :=
  match ops with
  | [] => l
  | op :: ops =>
      let epoch := uint64 (l.2 + 1) in grant ops (<[op := epoch]> l.1, epoch)
  end.

Lemma grant_other ops l op : op ∉ ops → (grant ops l).1 !! op = l.1 !! op.
Proof.
  revert l. induction ops as [|o ops IH]; intros l Hop; [done|]. simpl.
  apply not_elem_of_cons in Hop as [Hne Hop]. rewrite IH by done. simpl.
  by rewrite lookup_insert_ne.
Qed.

Lemma grant_Some ops l op : op ∈ ops → is_Some ((grant ops l).1 !! op).
Proof.
  revert l. induction ops as [|o ops IH]; intros l Hop; [set_solver|]. simpl.
  destruct (decide (op ∈ ops)) as [Hin|Hnin]; [by apply IH|].
  apply elem_of_cons in Hop as [->|?]; [|done].
  rewrite grant_other by done. simpl. rewrite lookup_insert_eq. eauto.
Qed.

Lemma markReserved_run op (s : MSys W) :
  markReserved op s = (uint64 (reserveEpoch (mgr s) + 1),
    mkMSys (set_reserved (mgr s) (<[op := uint64 (reserveEpoch (mgr s) + 1)]> (reserved (mgr s)))
      (uint64 (reserveEpoch (mgr s) + 1))) (mworld s) (mtrace s)).
Proof. done. Qed.

(** A loop invariant over the part of the list already done. *)
Lemma mfold_inv {A B} (f : B → A → op_ B) (I : list A → B → MSys W → Prop) l acc s :
  I [] acc s →
  (∀ pre x post acc s, l = pre ++ x :: post → I pre acc s →
    I (pre ++ [x]) (f acc x s).1 (f acc x s).2) →
  I l (mfold f acc l s).1 (mfold f acc l s).2.
Proof.
  intros H0 Hs.
  assert (∀ todo pre acc s, l = pre ++ todo → I pre acc s →
    I l (mfold f acc todo s).1 (mfold f acc todo s).2) as Hall; [|by apply (Hall l [])].
  induction todo as [|x todo IH]; intros pre acc0 s0 Hl HI; simpl.
  { by rewrite Hl, app_nil_r. }
  unfold mbind. specialize (Hs pre x todo acc0 s0 Hl HI).
  destruct (f acc0 x s0) as [a s1]. simpl in Hs. apply (IH (pre ++ [x])); [|done].
  by rewrite <- app_assoc.
Qed.

Lemma mfor_inv {A} (f : A → op_ unit) (I : list A → MSys W → Prop) l s :
  I [] s →
  (∀ pre x post s, l = pre ++ x :: post → I pre s → I (pre ++ [x]) (f x s).2) →
  I l (mfor f l s).2.
Proof.
  intros H0 Hs. unfold mfor.
  apply (mfold_inv (λ _ x, f x) (λ pre _ s, I pre s)); [done|]. intros. by eapply Hs.
Qed.

(** Dropping one mark, and dropping a list of them. *)
Lemma drop_one op (s s' : MSys W) :
  leases (mgr s') = leases (mgr (dropReserved op s).2) →
  reserveEpoch (mgr s') = reserveEpoch (mgr s) ∧
  reserved (mgr s') = delete op (reserved (mgr s)).
Proof. by intros [= -> ->]. Qed.

Definition dropped (s : MSys W) (l : list OutPoint) (s' : MSys W) : Prop :=
  reserveEpoch (mgr s') = reserveEpoch (mgr s) ∧
  ∀ op, reserved (mgr s') !! op =
    if bool_decide (op ∈ l) then None else reserved (mgr s) !! op.

Lemma rollbackSpend_leases l (s : MSys W) : dropped s l (rollbackSpend handle l s).2.
Proof.
  apply (mfor_inv _ (dropped s)).
  { split; [done|]. intros op. by rewrite bool_decide_false by apply not_elem_of_nil. }
  intros pre x _ s1 _ [He Hr].
  match goal with |- context [mbind (dropReserved x) ?k s1] => set (k0 := k) end.
  assert (leases (mgr (mbind (dropReserved x) k0 s1).2) =
    leases (mgr (dropReserved x s1).2)) as [He' Hr']%drop_one.
  { subst k0. unfold mbind at 1. destruct (dropReserved x s1) as [[] s2]. simpl.
    match goal with |- leases (mgr (?m s2).2) = _ =>
      apply (keeps_eq m s2 (m s2).1); [|by destruct (m s2)] end. keeps. }
  split; [by rewrite He'|]. intros op. rewrite Hr'.
  destruct (decide (op = x)) as [->|Hne].
  - rewrite lookup_delete_eq, bool_decide_true by set_solver. done.
  - rewrite lookup_delete_ne, Hr by done. by rewrite (bool_decide_ext (op ∈ pre ++ [x]) (op ∈ pre)) by set_solver.
Qed.

(** ** Selection *)

Local Abbreviation outs l := (c_Outpoint <$> l).

Lemma by_outpoint_Some l op c : by_outpoint l !! op = Some c → c ∈ l ∧ c_Outpoint c = op.
Proof.
  unfold by_outpoint.
  assert (∀ acc : gmap OutPoint Candidate,
    foldl (λ acc c, <[c_Outpoint c := c]> acc) acc l !! op = Some c →
    (c ∈ l ∧ c_Outpoint c = op) ∨ acc !! op = Some c) as Hall.
  { induction l as [|x l IH]; intros acc; simpl; [by right|].
    intros [[? ?]|Hx]%IH; [left; set_solver|].
    apply lookup_insert_Some in Hx as [[? <-]|[_ Hx]]; [left; set_solver|by right]. }
  intros [?|Hn]%Hall; [done|]. by rewrite lookup_empty in Hn.
Qed.

Lemma pick_exact_ok cands ops : ∀ sel total s r s',
  pick_exact handle (by_outpoint cands) ops sel total s = (Ok r, s') →
  NoDup (outs sel) →
  ∃ t, r.1 = sel ++ t ∧ outs t = ops ∧ t ⊆ cands ∧ NoDup (outs (sel ++ t)) ∧
    r.2 = fold_left (λ total c, int64 (total + c_Amount c)) t total.
Proof.
  induction ops as [|op ops IH]; intros sel total s r s'; simpl.
  { intros [= <- <-] Hnd. exists []. rewrite app_nil_r. set_solver. }
  case_bool_decide as Hin; [done|]. unfold mbind, mget. simpl.
  destruct (isReserved (mgr s) op); [done|].
  destruct (by_outpoint cands !! op) as [c|] eqn:Hc;
    [|by destruct (exactSpendUnavailableError _ _ _)].
  apply by_outpoint_Some in Hc as [Hc Ho]. intros Hp Hnd.
  destruct (IH _ _ _ _ _ Hp) as (t & Hr & Ht & Hsub & Hnd' & Htot).
  { rewrite fmap_app. simpl. rewrite Ho. apply NoDup_app. split; [done|].
    split; [|apply NoDup_singleton]. intros x Hx Hy.
    by apply list_elem_of_singleton in Hy as ->. }
  exists (c :: t). rewrite <- app_assoc in Hr, Hnd'. simpl in *.
  split_and!; [done|by f_equal|set_solver|done|done].
Qed.

Definition unique_rows : Prop := ∀ st w rows w',
  handle (ListSelectionCandidates st) w = (Ok rows, w') → NoDup (outs rows).

(** What a selection returns: distinct candidates, in the order of the request
    when it names them, that cover the target and respect the change floor. *)
Definition selection_ok (cands : list Candidate) (p : reserveParams (W := W))
    (sel : list Candidate) : Prop :=
  NoDup (outs sel) ∧ sel ⊆ cands ∧
  (exactOutpoints p ≠ [] → outs sel = exactOutpoints p) ∧
  (amounts_ok c_Amount cands →
    targetAmount p ≤ value c_Amount sel ∧
    (0 ≤ minChangeAmount p →
     value c_Amount sel = targetAmount p ∨
     targetAmount p + minChangeAmount p ≤ value c_Amount sel)).

Lemma exact_selection_ok cands p s sel s' :
  selectExactReservationCandidates handle cands p s = (Ok sel, s') →
  0 < targetAmount p → NoDup (outs cands) → selection_ok cands p sel.
Proof.
  unfold selectExactReservationCandidates. intros (r & s1 & Hp & Hk)%mbind_inv Hpos Hnd.
  destruct r as [[sel' total]|]; [|done]. simpl in Hk.
  destruct (Z.ltb_spec total (targetAmount p)) as [|Hge]; [done|].
  destruct ((0 <? _) && _) eqn:Hch; [done|]. injection Hk as <- _.
  destruct (pick_exact_ok _ _ _ _ _ _ _ Hp) as (t & Ht & Ho & Hsub & Hnd' & Htot);
    [apply NoDup_nil_2|].
  simpl in *. subst t.
  split_and!; [done|done|done|].
  intros [Hnn Hint].
  assert (sel' ⊆+ cands) as Hle.
  { apply NoDup_submseteq; [|done]. by apply (NoDup_fmap_1 c_Outpoint). }
  apply (value_submseteq c_Amount) in Hle; [|done].
  assert (0 ≤ value c_Amount sel') by (apply value_nonneg; auto).
  rewrite sum_amounts_from in Htot; [|auto|lia|unfold is_int64 in *; simpl; lia].
  unfold is_int64 in Hint. rewrite int64_id in Hch by (unfold is_int64; lia).
  split; [lia|]. intros. apply andb_false_iff in Hch as [?|?]; zbool; lia.
Qed.

Lemma selection_sound cands p s sel s' :
  selectReservationCandidates handle cands p s = (Ok sel, s') →
  0 < targetAmount p → NoDup (outs cands) → selection_ok cands p sel.
Proof.
  unfold selectReservationCandidates. intros Hs Hpos Hnd.
  destruct (exactOutpoints p) as [|o l] eqn:He; [|by eapply exact_selection_ok].
  destruct (LargestFirst c_Amount cands _) as [res err] eqn:HL.
  destruct err as [[]|]; try done;
    [by apply mbind_inv in Hs as (? & ? & _ & ?)..|]. injection Hs as <- _.
  pose proof (LargestFirst_submseteq _ _ _ _ HL) as Hsub.
  split_and!.
  - apply submseteq_Permutation in Hsub as [k Hk]. rewrite Hk, fmap_app in Hnd.
    by apply NoDup_app in Hnd as (? & _).
  - intros c Hc. by eapply elem_of_submseteq.
  - by rewrite He.
  - intros Hok.
    assert (cands ≠ []) as Hne by (intros ->; unfold LargestFirst in HL; simpl in HL; by destruct (_ <=? _)).
    pose proof (LargestFirst_spec c_Amount cands (mkRequest (targetAmount p) (minChangeAmount p) false)
      eq_refl Hpos Hne Hok) as HA. rewrite HL in HA.
    destruct HA as (n & _ & _ & Htot & Hch & Hch0 & Hmin & _). simpl in *.
    rewrite <- Htot. split; [lia|]. lia.
Qed.

Lemma keeps_pick by_op ops : ∀ sel total,
  keeps view (pick_exact handle by_op ops sel total).
Proof.
  induction ops as [|op ops IH]; intros sel total; simpl; [keeps|].
  unfold exactSpendUnavailableError. keeps. apply IH.
Qed.

Lemma keeps_selection cands p : keeps view (selectReservationCandidates handle cands p).
Proof.
  unfold selectReservationCandidates, selectExactReservationCandidates,
    insufficientLiquidityError. keeps. apply keeps_pick.
Qed.

(** The reservations of a spend: all of the coins are granted, in order, or none
    stays marked. *)
Lemma reserve_loop_spend p : detached p = true → rollback p = rollbackSpend handle →
  ∀ sel held epochs s r s',
  reserve_loop handle p sel held epochs s = (r, s') → NoDup (outs sel) →
  match r with
  | Ok epochs' =>
      leases (mgr s') = grant (outs sel) (leases (mgr s)) ∧
      (∀ op, op ∈ outs sel → epochs' !! op = reserved (mgr s') !! op) ∧
      (∀ op, op ∉ outs sel → epochs' !! op = epochs !! op)
  | Err _ =>
      ∀ op, (op ∈ held → reserved (mgr s') !! op = None) ∧
        (op ∈ outs sel → reserved (mgr s) !! op = None → reserved (mgr s') !! op = None) ∧
        (op ∉ held → op ∉ outs sel → reserved (mgr s') !! op = reserved (mgr s) !! op)
  end.
Proof.
  intros Hd Hrb. induction sel as [|c sel IH]; intros held epochs s r s'; simpl.
  { intros [= <- <-] _. split_and!; [done|set_solver|done]. }
  rewrite Hd, Hrb. intros (m & s0 & [= <- <-] & Hr)%mbind_inv [Hc Hnd]%NoDup_cons.
  apply mbind_inv in Hr as (ref & s1 & Href & Hr).
  assert (leases (mgr s1) = leases (mgr s)) as Hl1.
  { eapply keeps_eq; [|exact Href]. case_bool_decide; [keeps|apply keeps_respawn]. }
  injection Hl1 as Hl1 He1. destruct ref as [u|e].
  - apply mbind_inv in Hr as (epoch & s2 & Hm & Hr). rewrite markReserved_run in Hm.
    injection Hm as <- <-. apply mbind_inv in Hr as (d & s3 & Hcall & Hr).
    call_inv mcall_inv Hcall w Hw Hs. subst s3. specialize (IH _ _ _ _ _ Hr Hnd).
    simpl in IH. rewrite Hl1, He1 in IH. destruct r as [epochs'|e].
    + destruct IH as (IHl & IHe & IHo). split_and!; [done| |].
      * intros op [->|Hop]%elem_of_cons; [|by apply IHe].
        rewrite IHo, lookup_insert_eq by done.
        change (Some (uint64 (reserveEpoch (mgr s) + 1)) = (leases (mgr s')).1 !! c_Outpoint c).
        rewrite IHl. unfold leases. simpl. rewrite grant_other by done. simpl. by rewrite lookup_insert_eq.
      * intros op [Hne Hop]%not_elem_of_cons. rewrite IHo by done. by rewrite lookup_insert_ne.
    + intros op. destruct (IH op) as (I1 & I2 & I3). split_and!.
      * intros Hop. apply I1. set_solver.
      * intros [->|Hop]%elem_of_cons Hn; [apply I1; set_solver|]. apply I2; [done|].
        rewrite lookup_insert_ne; [done|]. set_solver.
      * intros Hop [Hne Ho]%not_elem_of_cons. rewrite I3; [|set_solver|done].
        by rewrite lookup_insert_ne.
  - apply mbind_inv in Hr as (u & s2 & Hroll & Hr). injection Hr as <- <-.
    pose proof (rollbackSpend_leases held s1) as [_ Hdrop]. rewrite Hroll in Hdrop.
    simpl in Hdrop. rewrite Hl1 in Hdrop. intros op. rewrite Hdrop.
    split_and!; intros; destruct (bool_decide_reflect (op ∈ held)); done.
Qed.

(** ** The lease specification *)

(** The messages that may end the lease of [op] held under epoch [e]: its owner
    releases or completes it, the coin ends, or the reservation of that epoch
    failed.  An unknown epoch is zero. *)
Definition frees (msg : ManagerMsg) (op : OutPoint) (e : Z) : Prop :=
  match msg with
  | ReleaseSpendRequest ops epochs =>
      op ∈ ops ∧ (epoch_of epochs op = 0 ∨ e = 0 ∨ epoch_of epochs op = e)
  | CompleteSpendRequest ops => op ∈ ops
  | VTXOTerminatedMsg o => o = op
  | spendReservationFailedMsg o e' => o = op ∧ e' = e
  | _ => False
  end.

#[export] Instance frees_dec msg op e : Decision (frees msg op e).
Proof. destruct msg; simpl; apply _. Defined.

Definition only_freed (msg : ManagerMsg) (l l' : gmap OutPoint Z * Z) : Prop :=
  l'.2 = l.2 ∧ ∀ op, l'.1 !! op = l.1 !! op ∨
    l'.1 !! op = None ∧ ∀ e, l.1 !! op = Some e → frees msg op e.

Definition lease_spec (msg : ManagerMsg) (r : result merr ManagerResp)
    (l l' : gmap OutPoint Z * Z) : Prop :=
  match msg, r with
  | SelectAndReserveSpendRequest _ _ _, Ok (SelectAndReserveSpendResponse vs _) =>
      NoDup (sv_Outpoint <$> vs) ∧
      (∀ v, v ∈ vs → l.1 !! sv_Outpoint v = None ∧
        l'.1 !! sv_Outpoint v = Some (sv_ReserveEpoch v)) ∧
      l' = grant (sv_Outpoint <$> vs) l
  | SelectAndReserveSpendRequest _ _ _, _ => l'.1 = l.1
  | ReserveForfeitRequest ops, Ok _ => (∀ op, op ∈ ops → l.1 !! op = None) ∧ l' = l
  | SelectAndReserveForfeitRequest _, Ok (SelectAndReserveForfeitResponse vs _) =>
      (∀ v, v ∈ vs → l.1 !! sv_Outpoint v = None) ∧ l' = l
  | _, _ => only_freed msg l l'
  end.

Lemma only_freed_refl msg l l' : l' = l → only_freed msg l l'.
Proof. intros ->. split; [done|]. auto. Qed.

Lemma keeps_only_freed {A} msg (m : op_ A) s r s' :
  keeps view m → m s = (r, s') → only_freed msg (leases (mgr s)) (leases (mgr s')).
Proof. intros Hk Hm. by apply only_freed_refl, (keeps_eq m _ r). Qed.

Lemma elem_of_dedup ops op : op ∈ dedupOutpoints ops ↔ op ∈ ops.
Proof.
  unfold dedupOutpoints.
  assert (∀ acc, op ∈ foldl (λ out op, if bool_decide (op ∈ out) then out else out ++ [op])
    acc ops ↔ op ∈ acc ∨ op ∈ ops) as Hall; [|rewrite Hall; set_solver].
  induction ops as [|x ops IH]; intros acc; simpl; [set_solver|].
  rewrite IH. case_bool_decide; set_solver.
Qed.

Lemma NoDup_dedup ops : NoDup (dedupOutpoints ops).
Proof.
  unfold dedupOutpoints.
  assert (∀ acc, NoDup acc → NoDup (foldl (λ out op, if bool_decide (op ∈ out) then out
    else out ++ [op]) acc ops)) as Hall; [|apply Hall, NoDup_nil_2].
  induction ops as [|x ops IH]; intros acc Hacc; simpl; [done|].
  apply IH. case_bool_decide; [done|]. apply NoDup_app. split; [done|].
  split; [set_solver|apply NoDup_singleton].
Qed.

(** Freeing one more outpoint. *)
Lemma only_freed_drop msg l0 l op :
  only_freed msg l0 l → (∀ e, l0.1 !! op = Some e → frees msg op e) →
  only_freed msg l0 (delete op l.1, l.2).
Proof.
  intros [He Ho] Hf. split; [done|]. intros o. simpl.
  destruct (decide (o = op)) as [->|Hne].
  - rewrite lookup_delete_eq. by right.
  - rewrite lookup_delete_ne by done. apply Ho.
Qed.

Lemma release_spend_freed ops epochs s r s' :
  handleReleaseSpend handle ops epochs s = (r, s') →
  only_freed (ReleaseSpendRequest ops epochs) (leases (mgr s)) (leases (mgr s')).
Proof.
  intros Hr. unfold handleReleaseSpend in Hr.
  apply mbind_inv in Hr as (acc & s1 & Hf & Hr).
  assert (s' = s1) as -> by (destruct acc; by injection Hr).
  pose proof (mfold_inv (release_spend_one handle epochs) (λ pre _ s1,
    only_freed (ReleaseSpendRequest ops epochs) (leases (mgr s)) (leases (mgr s1)))
    (dedupOutpoints ops) (0%nat, []) s) as Hinv.
  rewrite Hf in Hinv. apply Hinv; [by apply only_freed_refl|]. clear.
  intros pre op post [n errs] s1 Hl Hprev. unfold release_spend_one.
  assert (op ∈ ops) as Hop by (apply elem_of_dedup; rewrite Hl; set_solver).
  unfold mbind at 1. simpl. destruct (_ && _) eqn:Hsup; [done|].
  case_bool_decide; [done|]. unfold mbind at 1.
  destruct (askVTXOActor handle op SpendReleasedEvent s1) as [a s2] eqn:Ha.
  unfold askVTXOActor in Ha. call_inv mcall_inv Ha w Hw Hs. subst s2.
  destruct a as [t|e]; [|done]. simpl.
  apply (only_freed_drop _ _ (leases (mgr s1)) op); [done|]. intros e He. split; [done|].
  destruct (proj2 Hprev op) as [Hsame|[_ Hfr]]; [|by apply Hfr].
  simpl in He, Hsame. rewrite He in Hsame. rewrite Hsame in Hsup.
  apply andb_false_iff in Hsup as [?|[?|?]%andb_false_iff]; zbool; lia.
Qed.

Lemma complete_freed ops : ∀ l n s r s' all,
  complete_loop handle ops n s = (r, s') → ops ⊆ all →
  only_freed (CompleteSpendRequest all) l (leases (mgr s)) →
  only_freed (CompleteSpendRequest all) l (leases (mgr s')).
Proof.
  induction ops as [|op ops IH]; intros l n s r s' all; simpl; [by intros [= _ <-]|].
  intros (m & s0 & [= <- <-] & Hr)%mbind_inv Hsub Hl.
  assert (∀ s1, leases (mgr s1) = leases (mgr s) →
    mbind (dropReserved op) (λ _, complete_loop handle ops (S n)) s1 = (r, s') →
    only_freed (CompleteSpendRequest all) l (leases (mgr s'))) as Hgo.
  { intros s1 H1 Hk. eapply IH; [exact Hk|set_solver|].
    change (only_freed (CompleteSpendRequest all) l
      (delete op (leases (mgr s1)).1, (leases (mgr s1)).2)).
    apply only_freed_drop; [by rewrite H1|]. intros e _. simpl. set_solver. }
  case_bool_decide.
  - apply mbind_inv in Hr as (a & s1 & Ha & Hr). unfold askVTXOActor in Ha.
    call_inv mcall_inv Ha w Hw Hs. subst s1.
    destruct a as [t|e]; [by eapply Hgo; [|exact Hr]|]. by injection Hr as _ <-.
  - apply mbind_inv in Hr as (a & s1 & Ha & Hr).
    assert (leases (mgr s1) = leases (mgr s)) as H1.
    { eapply keeps_eq; [|exact Ha]. unfold isPersistedSpent. keeps. }
    destruct a as [[]|e]; [by eapply Hgo| |]; injection Hr as _ <-; by rewrite H1.
Qed.

(** What every successful selection has done, and what a failed one may have. *)
Lemma selectAndReserve_run p s r s' : unique_rows →
  selectAndReserveVTXOs handle p s = (r, s') →
  (∃ e, r = Err e ∧ observe view s' = observe view s) ∨
  ∃ rows w cands sel s1 ep, handle (ListSelectionCandidates VTXOStatusLive) (mworld s) = (Ok rows, w) ∧
    cands = filter (λ c, isReserved (mgr s) (c_Outpoint c) = false) rows ∧
    selection_ok cands p sel ∧ 0 < targetAmount p ∧
    observe view s1 = observe view s ∧ reserve_loop handle p sel [] ∅ s1 = (ep, s') ∧
    r = match ep with
        | Err e => Err e
        | Ok epochs => Ok (selected_vtxos epochs sel, sum_amounts c_Amount sel)
        end.
Proof.
  intros Huniq Hsel. unfold selectAndReserveVTXOs in Hsel.
  destruct (Z.leb_spec (targetAmount p) 0) as [|Hpos]; [left; injection Hsel as <- <-; eauto|].
  apply mbind_inv in Hsel as (rows & s2 & Hrows & Hsel).
  pose proof (keeps_run view _ _ _ _ (keeps_call view handle
    (ListSelectionCandidates VTXOStatusLive) (λ _, eq_refl)) Hrows) as Hk1.
  call_inv mcall_inv Hrows w Hw Hs. subst s2.
  destruct rows as [rows|]; [|left; injection Hsel as <- <-; eauto].
  apply mbind_inv in Hsel as (m & s2 & [= <- <-] & Hsel).
  apply mbind_inv in Hsel as (sel & s2 & Hs2 & Hsel). cbn [mgr] in *.
  pose proof (keeps_run view _ _ _ _ (keeps_selection _ _) Hs2) as Hm2.
  rewrite Hk1 in Hm2.
  destruct sel as [sel|]; [|left; injection Hsel as <- <-; eauto].
  apply selection_sound in Hs2; [|done|].
  2: { eapply sublist_NoDup; [by eapply Huniq|]. apply fmap_sublist, sublist_filter. }
  apply mbind_inv in Hsel as (ep & s3 & Hloop & [= <- <-]).
  right. exists rows, w. eexists. by exists sel, s2, ep.
Qed.

Lemma selected_outpoints epochs sel :
  sv_Outpoint <$> selected_vtxos epochs sel = outs sel.
Proof. unfold selected_vtxos. by rewrite <- list_fmap_compose. Qed.

Lemma selected_value epochs sel :
  value sv_Amount (selected_vtxos epochs sel) = value c_Amount sel.
Proof. induction sel as [|c sel IH]; simpl; [done|]. by rewrite <- IH. Qed.

Lemma candidate_free m (rows : list Candidate) c :
  c ∈ filter (λ c, isReserved m (c_Outpoint c) = false) rows →
  reserved m !! c_Outpoint c = None.
Proof.
  intros [Hc _]%list_elem_of_filter. unfold isReserved in Hc. zbool.
  by apply eq_None_not_Some.
Qed.

Lemma selectAndReserve_ok p s vs total s' : unique_rows →
  selectAndReserveVTXOs handle p s = (Ok (vs, total), s') →
  ∃ sel epochs, vs = selected_vtxos epochs sel ∧
    ∀ c, c ∈ sel → reserved (mgr s) !! c_Outpoint c = None.
Proof.
  intros Huniq [(e & ? & _)|(rows & w & cands & sel & s1 & ep & _ & -> & Hok & _ & _ & _ & Hr)]%selectAndReserve_run;
    [done| |done].
  destruct ep as [epochs|]; [|done]. injection Hr as -> _.
  exists sel, epochs. split; [done|]. intros c Hc. by eapply candidate_free, Hok.
Qed.

Lemma spend_lease target minChange ops s r s' : unique_rows →
  handleSelectAndReserveSpend handle target minChange ops s = (r, s') →
  lease_spec (SelectAndReserveSpendRequest target minChange ops) r
    (leases (mgr s)) (leases (mgr s')).
Proof.
  intros Huniq Hr. unfold handleSelectAndReserveSpend in Hr.
  apply mbind_inv in Hr as (a & s1 & Hsel & Hr).
  assert (s1 = s') as -> by (destruct a as [[]|]; by injection Hr).
  apply selectAndReserve_run in Hsel
    as [(e & -> & Hl)|(rows & w & cands & sel & s2 & ep & _ & -> & Hok & _ & Hl & Hloop & ->)];
    [..|done].
  { injection Hr as <-. exact (f_equal (fst ∘ fst) Hl). }
  apply (f_equal fst) in Hl. simpl in Hl. pose proof (f_equal fst Hl) as Hr2. simpl in Hr2.
  destruct Hok as (Hnd & Hsub & _).
  assert (∀ c, c ∈ sel → reserved (mgr s) !! c_Outpoint c = None) as Hfree
    by (intros c Hc%Hsub; by eapply candidate_free).
  apply reserve_loop_spend in Hloop; [|done|done|done]. rewrite ?Hl, ?Hr2 in Hloop.
  destruct ep as [epochs|e]; injection Hr as <-.
  - destruct Hloop as (Hg & He & _). simpl.
    rewrite selected_outpoints. split_and!; [done| |done].
    intros v (c & -> & Hc)%list_elem_of_fmap. simpl. split; [by apply Hfree|].
    apply (list_elem_of_fmap_2 c_Outpoint) in Hc.
    unfold epoch_of. rewrite He by done.
    destruct (grant_Some (outs sel) (leases (mgr s)) (c_Outpoint c)) as [e Hsome]; [done|].
    rewrite <- Hg in Hsome. simpl in Hsome. by rewrite Hsome.
  - simpl. apply map_eq. intros op. destruct (Hloop op) as (_ & H1 & H2).
    destruct (decide (op ∈ outs sel)) as [Ho|Ho]; [|apply H2; set_solver].
    apply list_elem_of_fmap in Ho as (c & -> & Hc).
    rewrite H1; [|by apply list_elem_of_fmap_2|by apply Hfree]. symmetry. by apply Hfree.
Qed.

(** ** The messages that do not touch the leases *)

Lemma keeps_reserve_forfeit p :
  detached p = false → (∀ op e, keeps view (ask p op e)) →
  (∀ l, keeps view (rollback p l)) →
  ∀ sel held epochs, keeps view (reserve_loop handle p sel held epochs).
Proof.
  intros Hd Ha Hr. induction sel as [|c sel IH]; intros held epochs; simpl; [keeps|].
  rewrite Hd. keeps; auto using keeps_respawn.
Qed.

Lemma keeps_select_forfeit target :
  keeps view (handleSelectAndReserveForfeit handle target).
Proof.
  unfold handleSelectAndReserveForfeit, selectAndReserveVTXOs. simpl. keeps.
  - apply keeps_selection.
  - apply keeps_reserve_forfeit; [done| |apply keeps_rollbackForfeit].
    intros. simpl. keeps.
Qed.

Lemma keeps_reserve_loop_forfeit ops : ∀ held,
  keeps view (reserve_forfeit_loop handle ops held).
Proof.
  induction ops as [|op ops IH]; intros held; simpl; [keeps|].
  keeps; auto using keeps_rollbackForfeit.
Qed.

Lemma keeps_cohort_loop req key gen l : ∀ n members,
  keeps view (cohort_loop handle req key gen l n members).
Proof.
  induction l as [|x l IH]; intros n members; simpl; [keeps|].
  unfold releaseAutoRefreshCohortMember, rememberAdoptedAutoRefreshRelay.
  keeps; apply IH.
Qed.

Lemma keeps_coordinate req : keeps view (coordinateAutoRefreshCohort cfg handle req).
Proof.
  unfold coordinateAutoRefreshCohort, autoRefreshCohortOperatorKey. keeps.
  apply keeps_cohort_loop.
Qed.

Lemma keeps_relay payload : keeps view (handleRelayToRound cfg handle payload).
Proof.
  assert (∀ payload auto members, keeps view (relay handle payload auto members)) as Hrel.
  { intros. unfold relay, release_member, forgetAdoptedAutoRefreshRelay,
      releaseAutoRefreshCohortMember, rememberAdoptedAutoRefreshRelay.
    keeps; try apply keeps_rollbackForfeit; keeps.
    intros m'. simpl. by case_bool_decide. }
  unfold handleRelayToRound. keeps; auto using keeps_rollbackForfeit, keeps_coordinate.
Qed.

Lemma keeps_respawn_base op : keeps view (respawnCustomForfeitBaseActor handle op).
Proof. unfold respawnCustomForfeitBaseActor, track. keeps; apply keeps_spawn. Qed.

Lemma keeps_drop_custom ops : keeps view (handleDropCustomForfeitInputs handle ops).
Proof.
  unfold handleDropCustomForfeitInputs, drop_custom_one, stop_actor,
    dropCustomForfeitSynthetic. keeps. apply keeps_respawn_base.
Qed.

Lemma keeps_activate inputs : keeps view (handleActivateCustomForfeitInputs handle inputs).
Proof.
  assert (∀ i, keeps view (activate_one handle i)) as Hone.
  { intros i. unfold activate_one, prepare_custom, customForfeitInputStoredMatch,
      customForfeitInputIsSynthetic, stop_actor, save_synthetic, spawn_custom, track,
      markCustomForfeitSynthetic.
    keeps; auto using keeps_spawn, keeps_respawn_base. }
  unfold handleActivateCustomForfeitInputs. destruct inputs as [|i l]; [keeps|].
  assert (∀ l n ops, keeps view (activate_loop handle l n ops)) as Hl; [|apply Hl].
  clear i l. induction l as [|i l IH]; intros n ops; simpl; [keeps|].
  unfold rollbackActivatedCustomForfeitInputs. keeps; auto using keeps_drop_custom.
Qed.

Lemma keeps_force_unroll op reason trigger policy :
  keeps view (handleForceUnroll handle op reason trigger policy).
Proof.
  unfold handleForceUnroll, spawnForceUnrollActor, track. keeps; apply keeps_spawn.
Qed.

Lemma keeps_created n : keeps view (handleVTXOCreated handle n).
Proof.
  unfold handleVTXOCreated, create_one, spawn_tracked, track. keeps; apply keeps_spawn.
Qed.

Lemma keeps_materialized l : keeps view (handleVTXOsMaterialized handle l).
Proof.
  unfold handleVTXOsMaterialized, materialize_one, spawn_tracked, track.
  keeps; apply keeps_spawn.
Qed.

Lemma keeps_forfeit_requests ops round :
  keeps view (handleReserveForfeit handle ops) ∧
  keeps view (handleReleaseForfeit handle ops round).
Proof.
  unfold handleReserveForfeit, handleReleaseForfeit, release_forfeit_one.
  split; keeps. apply keeps_reserve_loop_forfeit.
Qed.

Lemma keeps_reconcile : keeps view (handleReconcileExpiry cfg handle).
Proof. unfold handleReconcileExpiry. keeps. apply keeps_orphaned_forfeits. Qed.

#[local] Hint Resolve keeps_relay keeps_created keeps_materialized keeps_activate
  keeps_drop_custom keeps_select_forfeit keeps_force_unroll keeps_exit keeps_reconcile : wave.

Lemma terminated_freed op s r s' :
  handleVTXOTerminated cfg handle op s = (r, s') →
  only_freed (VTXOTerminatedMsg op) (leases (mgr s)) (leases (mgr s')).
Proof.
  unfold handleVTXOTerminated. intros (_ & s1 & [= _ <-] & Hr)%mbind_inv.
  apply mbind_inv in Hr as (_ & s1 & [= _ <-] & Hr).
  apply mbind_inv in Hr as (_ & s1 & [= _ <-] & Hr).
  apply keeps_eq in Hr; [|keeps]. rewrite Hr.
  by apply (only_freed_drop _ _ (leases (mgr s))); [apply only_freed_refl|].
Qed.

(** The guarded drop of a failure report. *)
Lemma dropReservedEpoch_run op e (s : MSys W) :
  leases (mgr (dropReservedEpoch op e s).2) =
    (if bool_decide (reserved (mgr s) !! op = Some e)
     then delete op (reserved (mgr s)) else reserved (mgr s), reserveEpoch (mgr s)).
Proof. unfold dropReservedEpoch, mbind, mget. simpl. by case_bool_decide. Qed.

Lemma failed_freed op e (s : MSys W) :
  only_freed (spendReservationFailedMsg op e) (leases (mgr s))
    (leases (mgr (dropReservedEpoch op e s).2)).
Proof.
  rewrite dropReservedEpoch_run. case_bool_decide as He; [|by apply only_freed_refl].
  apply (only_freed_drop _ _ (leases (mgr s))); [by apply only_freed_refl|].
  simpl. rewrite He. by intros e' [= ->].
Qed.

Lemma forfeit_known_free m ops u :
  forfeit_known m ops = Ok u → ∀ op, op ∈ ops → reserved m !! op = None.
Proof.
  induction ops as [|o ops IH]; simpl; [set_solver|].
  case_bool_decide; [done|]. destruct (isReserved m o) eqn:Hr; [done|].
  intros Hk op [->|Hop]%elem_of_cons; [|by apply IH].
  unfold isReserved in Hr. zbool. by apply eq_None_not_Some.
Qed.

Lemma reserve_forfeit_lease ops s r s' :
  handleReserveForfeit handle ops s = (r, s') →
  lease_spec (ReserveForfeitRequest ops) r (leases (mgr s)) (leases (mgr s')).
Proof.
  intros Hr. pose proof (keeps_eq _ _ _ _ (proj1 (keeps_forfeit_requests ops "")) Hr) as Hl.
  unfold handleReserveForfeit in Hr. apply mbind_inv in Hr as (m & s1 & [= <- <-] & Hr).
  destruct r as [a|e]; simpl; [|by apply only_freed_refl]. split; [|done].
  destruct (forfeit_known (mgr s) (dedupOutpoints ops)) as [u|] eqn:Hk; [|done].
  intros op Hop. eapply forfeit_known_free; [exact Hk|]. by apply elem_of_dedup.
Qed.

Lemma select_forfeit_lease target s r s' : unique_rows →
  handleSelectAndReserveForfeit handle target s = (r, s') →
  lease_spec (SelectAndReserveForfeitRequest target) r (leases (mgr s)) (leases (mgr s')).
Proof.
  intros Huniq Hr. pose proof (keeps_eq _ _ _ _ (keeps_select_forfeit target) Hr) as Hl.
  destruct r as [a|e]; simpl; [|by apply only_freed_refl].
  unfold handleSelectAndReserveForfeit in Hr. apply mbind_inv in Hr as (r & s1 & Hsel & Hr).
  destruct r as [[vs total]|]; [|done]. injection Hr as <- <-. split; [|done].
  apply selectAndReserve_ok in Hsel as (sel & epochs & -> & Hfree); [|done].
  intros v (c & -> & Hc)%list_elem_of_fmap. by apply Hfree.
Qed.

Lemma Receive_leases msg s r s' :
  unique_rows → Manager_Receive cfg handle msg s = (r, s') →
  lease_spec msg r (leases (mgr s)) (leases (mgr s')).
Proof.
  intros Huniq Hr.
  destruct msg; try (eapply keeps_only_freed; [|exact Hr]; simpl; keeps; auto with wave; fail).
  - by eapply terminated_freed.
  - apply mbind_inv in Hr as (b & s1 & Hd & [= <- <-]).
    pose proof (failed_freed op Epoch s) as Hf. by rewrite Hd in Hf.
  - by apply spend_lease.
  - by eapply release_spend_freed.
  - eapply complete_freed; [exact Hr| |by apply only_freed_refl].
    intros op. apply elem_of_dedup.
  - by apply reserve_forfeit_lease.
  - eapply keeps_only_freed; [|exact Hr]. apply keeps_forfeit_requests.
  - by apply select_forfeit_lease.
Qed.

(** ** Runs *)

(** A run of the manager: messages, each processed in some world. *)
Fixpoint serve (ts : list (W * ManagerMsg)) (s : MSys W) :
    list (ManagerMsg * result merr ManagerResp) * MSys W :=
  match ts with
  | [] => ([], s)
  | (w, msg) :: ts =>
      let '(r, s1) := Manager_Receive cfg handle msg (mkMSys (mgr s) w (mtrace s)) in
      let '(h, s2) := serve ts s1 in ((msg, r) :: h, s2)
  end.

Inductive lease_path :
    list (ManagerMsg * result merr ManagerResp) →
    gmap OutPoint Z * Z → gmap OutPoint Z * Z → Prop :=
| lease_done l : lease_path [] l l
| lease_step msg r h l l1 l2 :
    lease_spec msg r l l1 → lease_path h l1 l2 → lease_path ((msg, r) :: h) l l2.

Lemma serve_path ts : unique_rows → ∀ s h s',
  serve ts s = (h, s') → lease_path h (leases (mgr s)) (leases (mgr s')).
Proof.
  intros Huniq. induction ts as [|[w msg] ts IH]; intros s h s'; simpl.
  { intros [= <- <-]. constructor. }
  destruct (Manager_Receive cfg handle msg _) as [r s1] eqn:Hr.
  destruct (serve ts s1) as [h1 s2] eqn:Hs. intros [= <- <-].
  econstructor; [|by eapply IH]. by apply Receive_leases in Hr.
Qed.

Lemma lease_path_app h1 h2 l l' :
  lease_path (h1 ++ h2) l l' → ∃ l1, lease_path h1 l l1 ∧ lease_path h2 l1 l'.
Proof.
  revert l. induction h1 as [|[msg r] h1 IH]; intros l; simpl.
  { intros Hp. exists l. split; [constructor|done]. }
  inversion 1 as [|? ? ? ? l1 ? Hs Hp]; subst. apply IH in Hp as (l2 & Hp1 & Hp2).
  exists l2. split; [by econstructor|done].
Qed.

(** A lease lasts until a message that may end it. *)
Lemma lease_lasts msg r l l' op e :
  lease_spec msg r l l' → l.1 !! op = Some e → ¬ frees msg op e → l'.1 !! op = Some e.
Proof.
  assert (only_freed msg l l' → l.1 !! op = Some e → ¬ frees msg op e →
    l'.1 !! op = Some e) as Hof.
  { intros [_ Ho] He Hn. destruct (Ho op) as [->|[_ Hf]]; [done|]. by apply Hf in He. }
  destruct msg; try done; simpl; destruct r as [[]|]; try done;
    try (intros [_ ->]; done); try (intros ->; done).
  intros (_ & Hv & ->) He _. rewrite grant_other; [done|].
  intros (v & -> & Hin)%list_elem_of_fmap. apply Hv in Hin as [Hn _]. congruence.
Qed.

Lemma lease_path_lasts h l l' op e :
  lease_path h l l' → l.1 !! op = Some e →
  (∀ msg r, (msg, r) ∈ h → ¬ frees msg op e) → l'.1 !! op = Some e.
Proof.
  induction 1 as [|msg r h l l1 l2 Hs Hp IH]; intros He Hn; [done|].
  apply IH; [|set_solver]. eapply lease_lasts; [exact Hs|done|]. eapply Hn. by left.
Qed.

(** The answer of a message hands the coin to a new claimant. *)
Definition takes (msg : ManagerMsg) (r : result merr ManagerResp) (op : OutPoint) : Prop :=
  match msg, r with
  | SelectAndReserveSpendRequest _ _ _, Ok (SelectAndReserveSpendResponse vs _)
  | SelectAndReserveForfeitRequest _, Ok (SelectAndReserveForfeitResponse vs _) =>
      op ∈ sv_Outpoint <$> vs
  | ReserveForfeitRequest ops, Ok _ => op ∈ ops
  | _, _ => False
  end.

Lemma takes_free msg r l l' op : lease_spec msg r l l' → takes msg r op → l.1 !! op = None.
Proof.
  destruct msg; try done; destruct r as [[]|]; try done; simpl.
  all: try (intros (? & Hv & ?) (v & -> & Hin)%list_elem_of_fmap; by apply Hv).
  all: try (intros [Hv _] (v & -> & Hin)%list_elem_of_fmap; by apply Hv).
  all: intros [Hv _]; apply Hv.
Qed.



(** ** Epochs *)

(** The counter is the number of grants of the process. *)
Definition counted (s : MSys W) : Prop :=
  reserveEpoch (mgr s) = uint64 (Z.of_nat (asks (mtrace s))).

Lemma counted_keeps s s' :
  observe counts s' = observe counts s → counted s → counted s'.
Proof. unfold counted. simpl. by intros [= -> ->]. Qed.

Lemma uint64_succ z : uint64 (uint64 z + 1) = uint64 (z + 1).
Proof. unfold uint64. apply Zplus_mod_idemp_l. Qed.

Lemma reserve_loop_asks p : detached p = true → (∀ l, keeps counts (rollback p l)) →
  ∀ sel held epochs s r s',
  reserve_loop handle p sel held epochs s = (r, s') → counted s →
  counted s' ∧ (asks (mtrace s) ≤ asks (mtrace s'))%nat ∧
  (is_ok r = true → asks (mtrace s') = asks (mtrace s) + length sel)%nat.
Proof.
  intros Hd Hrb. induction sel as [|c sel IH]; intros held epochs s r s'; simpl.
  { intros [= <- <-] Hc. split; [done|]. split; [done|]. intros _. lia. }
  rewrite Hd. intros (m & s0 & [= <- <-] & Hr)%mbind_inv Hc.
  apply mbind_inv in Hr as (ref & s1 & Href & Hr).
  assert (observe counts s1 = observe counts s) as Hk1.
  { eapply keeps_run; [|exact Href]. apply keeps_counts.
    case_bool_decide; [keeps|apply keeps_respawn]. }
  assert (counted s1) as Hc1 by (by eapply counted_keeps).
  injection Hk1 as _ Ha1. destruct ref as [u|e].
  - apply mbind_inv in Hr as (epoch & s2 & Hm & Hr). rewrite markReserved_run in Hm.
    injection Hm as <- <-. apply mbind_inv in Hr as (d & s3 & Hcall & Hr).
    call_inv mcall_inv Hcall w Hw Hs. subst s3. apply IH in Hr; simpl in Hr.
    + rewrite asks_snoc in Hr. simpl in Hr. destruct Hr as (? & ? & Hl).
      split_and!; [done|lia|]. intros Hok. rewrite Hl by done. lia.
    + unfold counted in *. simpl. rewrite asks_snoc, Hc1. simpl.
      rewrite uint64_succ. f_equal. lia.
  - apply mbind_inv in Hr as (u & s2 & Hroll & [= <- <-]).
    assert (observe counts s2 = observe counts s1) as Hk2.
    { specialize (Hrb held s1). by rewrite Hroll in Hrb. }
    pose proof (counted_keeps _ _ Hk2 Hc1). injection Hk2 as _ Ha2. split_and!; [done|lia|done].
Qed.

Lemma keeps_counts_rollback l : keeps counts (rollbackSpend handle l).
Proof. unfold rollbackSpend, dropReserved. keeps. Qed.

Lemma keeps_counts_complete ops : ∀ n, keeps counts (complete_loop handle ops n).
Proof.
  induction ops as [|op ops IH]; intros n; simpl; [keeps|].
  unfold dropReserved, isPersistedSpent. keeps; apply IH.
Qed.

Definition is_spend (msg : ManagerMsg) : bool :=
  match msg with SelectAndReserveSpendRequest _ _ _ => true | _ => false end.

Lemma Receive_keeps_counts msg :
  is_spend msg = false → keeps counts (Manager_Receive cfg handle msg).
Proof.
  destruct msg; try done; intros _;
    try (apply keeps_counts; simpl; keeps; auto with wave; fail).
  - simpl. unfold handleVTXOTerminated, dropReserved. keeps.
  - simpl. unfold dropReservedEpoch, dropReserved. keeps.
  - simpl. unfold handleReleaseSpend, release_spend_one, dropReserved. keeps.
  - apply keeps_counts_complete.
  - apply keeps_counts, (keeps_forfeit_requests _ "").
  - apply keeps_counts, keeps_forfeit_requests.
Qed.

Lemma Receive_counted msg s r s' : unique_rows →
  Manager_Receive cfg handle msg s = (r, s') → counted s →
  counted s' ∧ (asks (mtrace s) ≤ asks (mtrace s'))%nat ∧
  (∀ vs total, is_spend msg = true → r = Ok (SelectAndReserveSpendResponse vs total) →
    asks (mtrace s') = asks (mtrace s) + length vs)%nat.
Proof.
  intros Huniq Hr Hc. destruct (is_spend msg) eqn:Hsp.
  - destruct msg; try done. simpl in Hr. unfold handleSelectAndReserveSpend in Hr.
    apply mbind_inv in Hr as (a & s1 & Hsel & Hr).
    assert (s1 = s') as -> by (destruct a as [[]|]; by injection Hr).
    apply selectAndReserve_run in Hsel
      as [(e & -> & Hl)|(rows & w & cands & sel & s2 & ep & _ & _ & _ & _ & Hl & Hloop & ->)];
      [..|done].
    { injection Hl as Hl He Ha. injection Hr as <-.
      split; [by unfold counted; rewrite He, Ha|]. split; [lia|done]. }
    assert (counted s2) as Hc2 by (injection Hl as _ He Ha; by unfold counted; rewrite He, Ha).
    injection Hl as _ _ Ha.
    apply reserve_loop_asks in Hloop as (Hc' & Hle & Hok); [|done|apply keeps_counts_rollback|done].
    split; [done|]. split; [lia|]. intros vs total _ Hvs. destruct ep as [epochs|]; injection Hr as <-; [|done].
    injection Hvs as <- _. rewrite Hok, Ha by done.
    unfold selected_vtxos. by rewrite length_fmap.
  - pose proof (keeps_run _ _ _ _ _ (Receive_keeps_counts msg Hsp) Hr) as Hk.
    pose proof (counted_keeps _ _ Hk Hc). injection Hk as _ Ha. split_and!; [done|lia|done].
Qed.

(** Without wrap-around a grant raises the counter by one each. *)
Lemma grant_epochs ops e0 l :
  0 ≤ e0 → e0 + Z.of_nat (length ops) < 2 ^ 64 → NoDup ops →
  ∀ op e, op ∈ ops → (grant ops (l, e0)).1 !! op = Some e →
  e0 < e ≤ e0 + Z.of_nat (length ops).
Proof.
  revert e0 l. induction ops as [|o ops IH]; intros e0 l H0 Hlt Hnd op e Hin; [set_solver|].
  apply NoDup_cons in Hnd as [Hno Hnd]. simpl in Hlt |- *.
  assert (uint64 (e0 + 1) = e0 + 1) as -> by (unfold uint64; apply Z.mod_small; lia).
  destruct (decide (op ∈ ops)) as [Hop|Hop].
  - intros He. apply IH in He; [lia|lia|lia|done|done].
  - rewrite grant_other by done. simpl. apply elem_of_cons in Hin as [->|?]; [|done].
    rewrite lookup_insert_eq. intros [= <-]. lia.
Qed.

Lemma serve_counted ts : unique_rows → ∀ s h s',
  serve ts s = (h, s') → counted s →
  counted s' ∧ (asks (mtrace s) ≤ asks (mtrace s'))%nat.
Proof.
  intros Huniq. induction ts as [|[w msg] ts IH]; intros s h s'; simpl.
  { intros [= <- <-]. done. }
  destruct (Manager_Receive cfg handle msg _) as [r s1] eqn:Hr.
  destruct (serve ts s1) as [h1 s2] eqn:Hs. intros [= <- <-] Hc.
  apply Receive_counted in Hr as (Hc1 & Hle & _); [|done|done].
  apply IH in Hs as [? ?]; [|done]. simpl in Hle. split; [done|lia].
Qed.

Lemma serve_app ts h1 h2 s s' :
  serve ts s = (h1 ++ h2, s') →
  ∃ t1 t2 s1, ts = t1 ++ t2 ∧ serve t1 s = (h1, s1) ∧ serve t2 s1 = (h2, s').
Proof.
  revert s h1. induction ts as [|[w msg] ts IH]; intros s h1; simpl.
  { intros [= [-> ->]%eq_sym%app_eq_nil <-]. by exists [], [], s. }
  destruct (Manager_Receive cfg handle msg _) as [r s1] eqn:Hr.
  destruct (serve ts s1) as [h s2] eqn:Hs. destruct h1 as [|x h1]; simpl.
  - intros [= <- <-]. exists [], ((w, msg) :: ts), s. simpl. by rewrite Hr, Hs.
  - intros [= <- -> <-]. apply IH in Hs as (t1 & t2 & s3 & -> & H1 & H2).
    exists ((w, msg) :: t1), t2, s3. simpl. by rewrite Hr, H1.
Qed.

Lemma serve_cons ts msg r h s s' :
  serve ts s = ((msg, r) :: h, s') →
  ∃ w ts' s1, ts = (w, msg) :: ts' ∧
    Manager_Receive cfg handle msg (mkMSys (mgr s) w (mtrace s)) = (r, s1) ∧
    serve ts' s1 = (h, s').
Proof.
  destruct ts as [|[w m] ts]; simpl; [done|].
  destruct (Manager_Receive cfg handle m _) as [r1 s1] eqn:Hr.
  destruct (serve ts s1) as [h2 s2] eqn:Hs. intros [= <- <- <- <-]. eauto 6.
Qed.

(** The epochs of an answered spend lie between the grants before and after it. *)
Lemma spend_epochs w msg s r s' vs total v : unique_rows →
  Manager_Receive cfg handle msg (mkMSys (mgr s) w (mtrace s)) = (r, s') → counted s →
  is_spend msg = true → r = Ok (SelectAndReserveSpendResponse vs total) → v ∈ vs →
  Z.of_nat (asks (mtrace s')) < 2 ^ 64 →
  Z.of_nat (asks (mtrace s)) < sv_ReserveEpoch v ≤ Z.of_nat (asks (mtrace s')).
Proof.
  intros Huniq Hr Hc Hsp Hok Hv Hlt.
  pose proof (Receive_counted _ _ _ _ Huniq Hr Hc) as (_ & Hle & Ha). simpl in Ha.
  specialize (Ha _ _ Hsp Hok). apply Receive_leases in Hr; [|done]. rewrite Hok in Hr.
  destruct msg; try done. destruct Hr as (Hnd & Hvs & Hg).
  destruct (Hvs v Hv) as [_ He]. rewrite Hg in He. simpl in He.
  assert (reserveEpoch (mgr s) = Z.of_nat (asks (mtrace s))) as Hcnt.
  { rewrite Hc. unfold uint64. apply Z.mod_small. lia. }
  unfold leases in He. simpl in He. rewrite Hcnt in He.
  apply grant_epochs in He; [|lia|rewrite length_fmap; lia|done|by apply list_elem_of_fmap_2].
  rewrite length_fmap in He. lia.
Qed.
(** Two answered spends of a run: the epochs of the later are larger. *)
Lemma served_twice ts s s' h1 h2 h3 t1 c1 o1 vs1 n1 t2 c2 o2 vs2 n2 v1 v2 :
  unique_rows → counted s →
  serve ts s = (h1 ++ (SelectAndReserveSpendRequest t1 c1 o1,
                       Ok (SelectAndReserveSpendResponse vs1 n1)) ::
                h2 ++ (SelectAndReserveSpendRequest t2 c2 o2,
                       Ok (SelectAndReserveSpendResponse vs2 n2)) :: h3, s') →
  Z.of_nat (asks (mtrace s')) < 2 ^ 64 → v1 ∈ vs1 → v2 ∈ vs2 →
  0 < sv_ReserveEpoch v1 ∧ sv_ReserveEpoch v1 < sv_ReserveEpoch v2.
Proof.
  intros Huniq Hc Hs Hlt Hv1 Hv2.
  apply serve_app in Hs as (ts1 & ts2 & sa & -> & Ha & Hs).
  apply serve_counted in Ha as [Hca _]; [|done|done].
  apply serve_cons in Hs as (w1 & ts3 & sb & -> & Hb & Hs).
  assert (counted sb ∧ asks (mtrace sa) ≤ asks (mtrace sb))%nat as [Hcb Hab].
  { apply Receive_counted in Hb as (? & ? & _); done. }
  apply serve_app in Hs as (ts4 & ts5 & sc & -> & Hsc & Hs).
  apply serve_counted in Hsc as [Hcc Hbc]; [|done|done].
  apply serve_cons in Hs as (w2 & ts6 & sd & -> & Hd & Hs).
  assert (counted sd ∧ asks (mtrace sc) ≤ asks (mtrace sd))%nat as [Hcd Hcd'].
  { apply Receive_counted in Hd as (? & ? & _); done. }
  apply serve_counted in Hs as [_ Hde]; [|done|done].
  eapply spend_epochs in Hb; [|done|done|done|done|exact Hv1|lia].
  eapply spend_epochs in Hd; [|done|done|done|done|exact Hv2|lia]. lia.
Qed.

End leases.

(** ** A manager with two coins *)

Module LeaseDemo.

Definition coin (i : Z) : OutPoint := mkOutPoint 1%N i.
Definition coin_row (i amount : Z) : Candidate := mkCandidate (coin i) amount [1].
Definition answer : VTXOActorResponse :=
  mkResponse (LiveState sample_vtxo 100) (SpendingState sample_vtxo 100) [] None.

(** A store with two rows, the first in the world's status, and actors that
    accept everything. *)
Definition demo_answer (c : Call) (w : VTXOStatus) : Resp c :=
  match c return Resp c with
  | ListSelectionCandidates _ => Ok [coin_row 0 50000; coin_row 1 20000]
  | ListVTXOsByStatus st =>
      Ok (if bool_decide (st = w) then [Some (set_Status sample_vtxo w)] else [])
  | ListLiveVTXOs => Ok [Some (set_Status sample_vtxo w)]
  | ListRecoverableVTXOs => Ok [set_Status sample_vtxo w]
  | ListReservedOutpoints => Ok []
  | GetVTXO _ => Ok (Some (set_Status sample_vtxo w))
  | StoreStatus _ _ | SaveVTXO _ | DeleteVTXO _ => Ok tt
  | Ask _ _ _ => Ok answer
  | DetachedAsk _ _ _ => tt
  | Tell _ _ | SpawnActor _ => Ok tt
  | RequestStartTip _ | StopAndRemoveActor _ => tt
  | RoundTell _ => Ok tt
  | FetchOperatorKey => Ok None
  | OperatorTerms => mkTerms None None
  | BestHeight => Ok 900
  | HasForfeitRoundCheckpoint _ => Ok false
  | ResolveExitOutcome _ => Ok None
  | TerminalVTXOObserver _ => Ok tt
  | ContextErr | TokenActive _ => false
  end.
Definition demo_handle (c : Call) (w : VTXOStatus) : Resp c * VTXOStatus :=
  (demo_answer c w, w).

Definition demo_config : ManagerConfig :=
  mkManagerConfig DefaultExpiryConfig false false true true false false.

Definition demo_manager : Manager :=
  set_actors (NewManager demo_config) {[coin 0; coin 1]}.

Definition demo_start : MSys VTXOStatus := mkMSys demo_manager VTXOStatusLive [].

(** A spend of the larger coin, its release, and a second spend of it. *)
Definition demo_run : list (VTXOStatus * ManagerMsg) :=
  [(VTXOStatusLive, SelectAndReserveSpendRequest 50000 0 []);
   (VTXOStatusLive, ReleaseSpendRequest [coin 0] {[coin 0 := 1]});
   (VTXOStatusLive, SelectAndReserveSpendRequest 50000 0 [])].

Lemma demo_unique : unique_rows demo_handle.
Proof.
  intros st w rows w' [= <- _]. apply (bool_decide_unpack _). by vm_compute.
Qed.

End LeaseDemo.

Import LeaseDemo.

Definition demo_history := (serve demo_config demo_handle demo_run demo_start).1.
Definition demo_end := (serve demo_config demo_handle demo_run demo_start).2.

Lemma demo_served : serve demo_config demo_handle demo_run demo_start = (demo_history, demo_end).
Proof. unfold demo_history, demo_end. by destruct (serve _ _ _ _). Qed.


Definition demo_spend (epoch : Z) : ManagerMsg * result merr ManagerResp :=
  (SelectAndReserveSpendRequest 50000 0 [],
   Ok (SelectAndReserveSpendResponse [mkSelectedVTXO (coin 0) epoch 50000 [1]] 50000)).
Definition demo_release : ManagerMsg * result merr ManagerResp :=
  (ReleaseSpendRequest [coin 0] {[coin 0 := 1]}, Ok (ReleaseSpendResponse 1)).

