(* ===== verification/VtxoAdmission.v ===== *)
(** * The calls of the VTXO manager: the theorems of [VtxoManager] about a turn

    A small program logic over the computations of the manager: [mwp J m Q s] says
    that [m], started in [s], makes only calls that [J] justifies by the history
    before them, and ends with [Q].  With it, the theorems say which calls a turn
    can make, whatever the answers: a stale release touches nothing, the startup
    sweeps release only what the store shows to be orphaned, exits are applied
    only to exiting rows and in crash-safe order, and a refresh cohort is bounded,
    uniform and released when its handoff fails. *)

From S2P Require Import Prelude RecoveryProof CoinSelect VtxoExpiry VtxoForfeit VtxoFsm VtxoActor VtxoManager VtxoLeases.
Local Open Scope Z_scope.

(** ** A logic of calls *)

(** [tr'] extends [tr] by events [J] justifies, each by the history before it. *)
Inductive grows (J : list MEvent → MEvent → Prop) (tr : list MEvent) :
    list MEvent → Prop :=
| grows_refl : grows J tr tr
| grows_snoc tr' ev : grows J tr tr' → J tr' ev → grows J tr (tr' ++ [ev]).

Lemma grows_trans J tr1 tr2 tr3 : grows J tr1 tr2 → grows J tr2 tr3 → grows J tr1 tr3.
Proof. intros H1. induction 1; [done|]. by constructor. Qed.

Lemma grows_prefix J tr tr' : grows J tr tr' → tr `prefix_of` tr'.
Proof. induction 1; [done|]. by apply prefix_app_r. Qed.

Lemma grows_inv J tr tr' : grows J tr tr' →
  ∀ pre ev post, tr' = pre ++ ev :: post → (length tr ≤ length pre)%nat → J pre ev.
Proof.
  induction 1 as [|tr' ev Hg IH Hev]; intros pre ev0 post Htr Hlen.
  { apply (f_equal length) in Htr. rewrite length_app in Htr. simpl in Htr. lia. }
  destruct post as [|x post _] using rev_ind.
  - apply app_inj_tail in Htr as [-> ->]. done.
  - rewrite app_comm_cons, app_assoc in Htr. apply app_inj_tail in Htr as [-> _]. eauto.
Qed.

Lemma grows_mono J J' tr tr' :
  (∀ pre ev, tr `prefix_of` pre → J pre ev → J' pre ev) → grows J tr tr' → grows J' tr tr'.
Proof.
  intros HJ. induction 1 as [|tr' ev Hg IH Hev]; constructor; [done|].
  apply HJ; [|done]. by eapply grows_prefix.
Qed.

Lemma elem_of_prefix (tr tr' : list MEvent) ev : tr `prefix_of` tr' → ev ∈ tr → ev ∈ tr'.
Proof. intros [k ->] Hev. set_solver. Qed.

Section mwp.
Context {W : Type} (handle : ∀ c : Call, W → Resp c * W).
Local Abbreviation op_ A := (MM W A).

Definition mwp {A} (J : list MEvent → MEvent → Prop) (m : op_ A)
    (Q : A → MSys W → Prop) (s : MSys W) : Prop :=
  grows J (mtrace s) (mtrace (m s).2) ∧ Q (m s).1 (m s).2.

Context (J : list MEvent → MEvent → Prop).

Lemma mwp_ret {A} (a : A) (Q : A → MSys W → Prop) s : Q a s → mwp J (mret a) Q s.
Proof. split; [constructor|done]. Qed.

Lemma mwp_get (Q : Manager → MSys W → Prop) s : Q (mgr s) s → mwp J mget Q s.
Proof. split; [constructor|done]. Qed.

Lemma mwp_modify g (Q : unit → MSys W → Prop) s :
  Q tt (mkMSys (g (mgr s)) (mworld s) (mtrace s)) → mwp J (mmodify g) Q s.
Proof. split; [constructor|done]. Qed.

Lemma mwp_bind {A B} (m : op_ A) (k : A → op_ B) (Q : B → MSys W → Prop) s :
  mwp J m (λ a s1, mwp J (k a) Q s1) s → mwp J (mbind m k) Q s.
Proof.
  unfold mwp, mbind. destruct (m s) as [a s1]. simpl. intros (H1 & H2 & HQ).
  split; [by eapply grows_trans|done].
Qed.

Lemma mwp_call c (Q : Resp c → MSys W → Prop) s :
  (∀ r w, handle c (mworld s) = (r, w) → J (mtrace s) (MEv c r) ∧
    Q r (mkMSys (mgr s) w (mtrace s ++ [MEv c r]))) → mwp J (mcall handle c) Q s.
Proof.
  intros H. unfold mwp, mcall. destruct (handle c (mworld s)) as [r w]. simpl.
  destruct (H r w eq_refl) as [HJ HQ]. split; [|done]. by apply grows_snoc; [constructor|].
Qed.

Lemma mwp_mono {A} (m : op_ A) (Q Q' : A → MSys W → Prop) s :
  (∀ a s', mtrace s `prefix_of` mtrace s' → Q a s' → Q' a s') → mwp J m Q s → mwp J m Q' s.
Proof. intros HQ [Hg Hm]. split; [done|]. apply HQ; [by eapply grows_prefix|done]. Qed.

Lemma mwp_fold {A B} (f : B → A → op_ B) l (I : B → MSys W → Prop) acc s :
  (∀ x acc s, x ∈ l → I acc s → mwp J (f acc x) I s) → I acc s → mwp J (mfold f acc l) I s.
Proof.
  revert acc s. induction l as [|x l IH]; intros acc s Hf HI; simpl; [by apply mwp_ret|].
  apply mwp_bind. eapply mwp_mono; [|apply Hf; [set_solver|exact HI]].
  intros acc' s' _ HI'. apply IH; [|done]. intros. apply Hf; [set_solver|done].
Qed.

Lemma mwp_for {A} (f : A → op_ unit) l (I : MSys W → Prop) s :
  (∀ x s, x ∈ l → I s → mwp J (f x) (λ _, I) s) → I s → mwp J (mfor f l) (λ _, I) s.
Proof. intros Hf HI. apply (mwp_fold _ _ (λ _, I)); [|done]. intros. by apply Hf. Qed.

(** The calls of a turn that starts without a history. *)
Lemma mwp_calls {A} (m : op_ A) (Q : A → MSys W → Prop) (s s' : MSys W) r :
  mwp J m Q s → m s = (r, s') → mtrace s = [] →
  (∀ pre ev post, mtrace s' = pre ++ ev :: post → J pre ev) ∧ Q r s'.
Proof.
  intros [Hg HQ] Hm Ht. rewrite Hm in Hg, HQ. split; [|done]. intros pre ev post Htr.
  eapply grows_inv; [exact Hg|exact Htr|]. rewrite Ht. simpl. lia.
Qed.

End mwp.

Lemma mwp_weaken {W A} (J J' : list MEvent → MEvent → Prop) (m : MM W A) Q s :
  (∀ pre ev, mtrace s `prefix_of` pre → J pre ev → J' pre ev) → mwp J m Q s → mwp J' m Q s.
Proof. intros HJ [Hg HQ]. split; [by eapply grows_mono|done]. Qed.

(** Symbolic execution: one instruction, and instructions up to the loops. *)
Ltac mwp_step :=
  match goal with
  | |- mwp _ (mret _) _ _ => apply mwp_ret
  | |- mwp _ mget _ _ => apply mwp_get
  | |- mwp _ (mbind _ _) _ _ => apply mwp_bind
  | |- mwp _ (mmodify _) _ _ => apply mwp_modify
  | |- mwp ?J (mcall ?h ?c) ?Q ?s => refine (mwp_call h J c Q s _); intros ?r ?w _; split
  | |- mwp _ (match ?x with _ => _ end) _ _ => destruct x eqn:?
  | |- mwp _ (if ?x then _ else _) _ _ => destruct x eqn:?
  end.
Ltac mwp_run :=
  repeat first [mwp_step | progress cbv zeta
    | progress unfold askVTXOActor, askForfeitVTXOActor, track, dropReserved].

(** A recorded event is in a longer history. *)
Ltac in_trace :=
  repeat match goal with
  | H : _ `prefix_of` _ |- _ ∈ _ => apply (elem_of_prefix _ _ _ H); clear H
  end; simpl; rewrite ?elem_of_app, ?list_elem_of_singleton; tauto.

Section calls.
Context {W : Type} (cfg : ManagerConfig) (handle : ∀ c : Call, W → Resp c * W).

(** ** Releases by the holder of an old lease *)

(** The call leaves the actor of [op] alone. *)
Definition spares (op : OutPoint) (_ : list MEvent) (ev : MEvent) : Prop :=
  match ev with
  | MEv (Ask _ o _) _ | MEv (DetachedAsk o _ _) _ | MEv (Tell o _) _ => o ≠ op
  | _ => True
  end.

Lemma release_spares op e1 e2 ops epochs (s : MSys W) :
  epochs !! op = Some e1 → reserved (mgr s) !! op = Some e2 → 0 < e1 → e1 < e2 →
  mwp (spares op) (handleReleaseSpend handle ops epochs)
    (λ _ s', reserved (mgr s') !! op = Some e2) s.
Proof.
  intros He1 He2 H1 H2. unfold handleReleaseSpend. apply mwp_bind.
  eapply mwp_mono; [|apply (mwp_fold _ _ _ (λ _ s, reserved (mgr s) !! op = Some e2)); [|done]].
  { intros [n errs] s' _ Hr. mwp_run; done. }
  clear s He2. intros o [n errs] s _ He2. unfold release_spend_one. apply mwp_bind, mwp_get.
  cbv zeta. destruct (_ && _) eqn:Hsup; [by apply mwp_ret|].
  assert (o ≠ op) as Hne.
  { intros ->. unfold epoch_of in Hsup. rewrite He1, He2 in Hsup. simpl in Hsup.
    apply andb_false_iff in Hsup as [?|[?|?]%andb_false_iff]; zbool; lia. }
  mwp_run; try done. simpl. by rewrite lookup_delete_ne.
Qed.

(** C25 A lease cannot be ended by an earlier holder of the coin: of two grants of a
    run the later has the larger epoch, and a release that names the epoch of the
    earlier one while the later is in force leaves the mark in place and sends
    nothing to the coin's actor.  The counter of epochs is a [uint64]: the process
    grants fewer than 2^64 coins. *)
Theorem manager_stale_release_refused ts s h s' h1 h2 h3 t1 c1 o1 vs1 n1 t2 c2 o2 vs2 n2
    v1 v2 w ops epochs r s'' :
  unique_rows handle → counted s → serve cfg handle ts s = (h, s') →
  Z.of_nat (asks (mtrace s')) < 2 ^ 64 →
  h = h1 ++ (SelectAndReserveSpendRequest t1 c1 o1, Ok (SelectAndReserveSpendResponse vs1 n1)) ::
      h2 ++ (SelectAndReserveSpendRequest t2 c2 o2, Ok (SelectAndReserveSpendResponse vs2 n2)) :: h3 →
  v1 ∈ vs1 → v2 ∈ vs2 →
  reserved (mgr s') !! sv_Outpoint v2 = Some (sv_ReserveEpoch v2) →
  epochs !! sv_Outpoint v2 = Some (sv_ReserveEpoch v1) →
  Manager_Receive cfg handle (ReleaseSpendRequest ops epochs) (mkMSys (mgr s') w []) = (r, s'') →
  sv_ReserveEpoch v1 < sv_ReserveEpoch v2 ∧
  reserved (mgr s'') !! sv_Outpoint v2 = Some (sv_ReserveEpoch v2) ∧
  ∀ pre ev post, mtrace s'' = pre ++ ev :: post → spares (sv_Outpoint v2) pre ev.
Proof.
  intros Huniq Hc Hs Hlt -> Hv1 Hv2 Hheld He Hr.
  destruct (served_twice cfg handle _ _ _ _ _ _ _ _ _ _ _ _ _ _ _ _ _ _
    Huniq Hc Hs Hlt Hv1 Hv2) as [Hpos Hlt12].
  split; [done|].
  destruct (mwp_calls _ _ _ _ _ _ (release_spares _ _ _ ops _ (mkMSys (mgr s') w []) He Hheld
    Hpos Hlt12) Hr eq_refl) as [Hcalls HQ]. done.
Qed.

(** ** Selections *)

(** What an accepted spend is given: rows the store listed as live, none of
    them reserved, all different, in the order of the request when it names them,
    and, if the listed amounts sum to an [int64], with the total it is told, which
    covers the target and leaves either no change or at least the change floor. *)
Theorem manager_selection_sound target minChange ops s vs total s' :
  unique_rows handle →
  Manager_Receive cfg handle (SelectAndReserveSpendRequest target minChange ops) s =
    (Ok (SelectAndReserveSpendResponse vs total), s') →
  ∃ rows w, handle (ListSelectionCandidates VTXOStatusLive) (mworld s) = (Ok rows, w) ∧
    NoDup (sv_Outpoint <$> vs) ∧
    (∀ v, v ∈ vs → reserved (mgr s) !! sv_Outpoint v = None ∧
      mkCandidate (sv_Outpoint v) (sv_Amount v) (sv_PkScript v) ∈ rows) ∧
    (ops ≠ [] → sv_Outpoint <$> vs = ops) ∧
    (amounts_ok c_Amount rows →
      total = value sv_Amount vs ∧ target ≤ total ∧
      (0 ≤ minChange → total = target ∨ target + minChange ≤ total)).
Proof.
  intros Huniq Hr. simpl in Hr. unfold handleSelectAndReserveSpend in Hr.
  apply mbind_inv in Hr as (a & s1 & Hsel & Hr).
  destruct a as [[vs' total']|]; [|done]. injection Hr as -> -> ->.
  apply selectAndReserve_run in Hsel
    as [(e & ? & _)|(rows & w & cands & sel & s2 & ep & Hrows & Hc & Hok & _ & _ & _ & Hr)];
    [done| |done].
  destruct ep as [epochs|]; [|done]. injection Hr as -> ->.
  destruct Hok as (Hnd & Hsub & Hexact & Hval). simpl in Hexact, Hval.
  exists rows, w. rewrite selected_outpoints. split_and!; [done|done| |done|].
  - intros v (c & -> & Hin%Hsub)%list_elem_of_fmap. rewrite Hc in Hin. simpl.
    split; [by eapply candidate_free|]. apply list_elem_of_filter in Hin as [_ Hin].
    by destruct c.
  - intros Hrowsok.
    assert (amounts_ok c_Amount cands) as Hcok
      by (rewrite Hc; eapply amounts_ok_submseteq, Hrowsok; apply sublist_submseteq, sublist_filter).
    rewrite selected_value, (sum_amounts_value c_Amount sel).
    + apply Hval in Hcok. tauto.
    + eapply amounts_ok_submseteq, Hcok. apply NoDup_submseteq; [|done].
      by apply (NoDup_fmap_1 c_Outpoint).
Qed.

(** ** Exit outcomes *)

(** The calls an exit outcome can make.  Its actor is told the outcome; without an
    actor only an exiting row is written: spent when the exit is confirmed, live
    or expired after an actor in that status was started, and the actor sees the
    tip after the write.  A recovery-only policy restores nothing. *)
Definition exit_justified (n : ExitOutcomeNotification) (pre : list MEvent) (ev : MEvent) :
    Prop :=
  let exiting d :=
    MEv (GetVTXO (eo_Outpoint n)) (Ok (Some d)) ∈ pre ∧ Status d = VTXOStatusUnilateralExit in
  let restored st :=
    match eo_Outcome n with
    | ExitOutcomeRecoverable => st = VTXOStatusLive ∧ ExitPolicyKind_Valid (eo_PolicyKind n) = false
    | ExitOutcomeConflicted => st = VTXOStatusExpired ∧ ExitPolicyKind_Valid (eo_PolicyKind n) = false
    | _ => False
    end in
  match ev with
  | MEv (Ask _ op (ExitFailedEvent reason)) _ =>
      op = eo_Outpoint n ∧ reason = eo_Reason n ∧ restored VTXOStatusLive
  | MEv (Ask _ op (ExitConflictedEvent reason)) _ =>
      op = eo_Outpoint n ∧ reason = eo_Reason n ∧ restored VTXOStatusExpired
  | MEv (Ask _ op ExitConfirmedEvent) _ =>
      op = eo_Outpoint n ∧ eo_Outcome n = ExitOutcomeConfirmed
  | MEv (GetVTXO op) _ => op = eo_Outpoint n
  | MEv (SpawnActor d') _ => ∃ d, exiting d ∧ restored (Status d') ∧ d' = set_Status d (Status d')
  | MEv (StoreStatus op st) _ =>
      op = eo_Outpoint n ∧ ∃ d, exiting d ∧
      (st = VTXOStatusSpent ∧ eo_Outcome n = ExitOutcomeConfirmed ∨
       restored st ∧ MEv (SpawnActor (set_Status d st)) (Ok tt) ∈ pre)
  | MEv (RequestStartTip op) _ => ∃ st r, MEv (StoreStatus (eo_Outpoint n) st) r ∈ pre
  | _ => False
  end.

(** An outcome that was acknowledged was applied, or there was nothing to apply:
    a recovery-only policy, or a row that is not exiting. *)
Inductive exit_applied (n : ExitOutcomeNotification) (before tr : list MEvent) : Prop :=
| applied_by_actor e t : MEv (Ask false (eo_Outpoint n) e) (Ok t) ∈ tr → exit_applied n before tr
| applied_to_row st :
    MEv (StoreStatus (eo_Outpoint n) st) (Ok tt) ∈ tr → exit_applied n before tr
| no_row : MEv (GetVTXO (eo_Outpoint n)) (Ok None) ∈ tr → exit_applied n before tr
| not_exiting d : MEv (GetVTXO (eo_Outpoint n)) (Ok (Some d)) ∈ tr →
    Status d ≠ VTXOStatusUnilateralExit → exit_applied n before tr
| recovery_only : tr = before → ExitPolicyKind_Valid (eo_PolicyKind n) = true →
    eo_Outcome n ≠ ExitOutcomeConfirmed → exit_applied n before tr.

Lemma exit_calls n (s : MSys W) :
  mwp (exit_justified n) (handleExitOutcome handle n)
    (λ r s', is_ok r = true → exit_applied n (mtrace s) (mtrace s')) s.
Proof.
  unfold handleExitOutcome, recoverExitedVTXO, confirmExitedVTXO, conflictExitedVTXO,
    exit_via_actor, rematerialize, spawnUnclassifiedVTXOActor, requestStartTip.
  mwp_run; simpl; try done.
  all: repeat match goal with
    | H : bool_decide (Status _ ≠ _) = false |- _ => apply bool_decide_eq_false, dec_stable in H
    | H : bool_decide (Status _ ≠ _) = true |- _ => apply bool_decide_eq_true in H
    | H : eo_Outcome ?n = _ |- context [eo_Outcome ?n] => rewrite H; clear H
    | H : match ?r with _ => _ end = Ok _ |- _ => destruct r as [[]|]; [clear H|done]
    | |- is_ok (match ?r with _ => _ end) = true → _ => destruct r as [[]|]; [intros _|done]
    | |- true = true → _ => intros _
    end.
  all: try match goal with d : Descriptor |- _ => match goal with
    | |- ∃ _, _ => exists d | |- _ ∧ ∃ _, _ => split; [done|exists d] end end.
  all: split_and?; try done; try in_trace.
  all: first
    [ left; done | right; split_and!; [done..|in_trace] | eexists _, _; in_trace
    | eapply applied_by_actor; in_trace | eapply applied_to_row; in_trace
    | eapply no_row; in_trace | eapply not_exiting; [in_trace|done]
    | by apply recovery_only; [|congruence|congruence] ].
Qed.

(** C27 Exit outcomes are applied only to exiting coins and in crash-safe order.
    Whatever the answers, the turn of an exit outcome tells only that coin's actor
    that outcome; it writes a status only for a row it has just read as exiting,
    the status of that outcome, and for a live or expired one after an actor was
    started and before that actor sees the tip; a recovery-only policy restores
    nothing; and an acknowledgement means that the outcome was applied or that
    there was nothing to apply. *)
Theorem manager_exit_outcome_guarded n m w r s' :
  Manager_Receive cfg handle (ExitOutcomeMsg n) (mkMSys m w []) = (r, s') →
  (∀ pre ev post, mtrace s' = pre ++ ev :: post → exit_justified n pre ev) ∧
  (is_ok r = true → exit_applied n [] (mtrace s')).
Proof. intros Hr. exact (mwp_calls _ _ _ _ _ _ (exit_calls n _) Hr eq_refl). Qed.

(** ** Startup *)

Definition listed (pre : list MEvent) (st : VTXOStatus) (d : Descriptor) : Prop :=
  ∃ l, MEv (ListVTXOsByStatus st) (Ok l) ∈ pre ∧ d ∈ present l.

Definition unreserved (pre : list MEvent) (op : OutPoint) : Prop :=
  ∃ l, MEv ListReservedOutpoints (Ok l) ∈ pre ∧ op ∉ l.

(** The calls [Start] can make to the actors and the rows.  A spend is released
    when its row is spending and no session holds a reservation for it; a
    reservation is driven again when its row is not spending; a forfeit is
    released when no round has it, or its round has no checkpoint; the rest
    applies an exit the resolver knows the outcome of. *)
Definition start_justified (pre : list MEvent) (ev : MEvent) : Prop :=
  let exits op := ∃ outcome reason kind,
    MEv (ResolveExitOutcome op) (Ok (Some (outcome, reason, kind))) ∈ pre ∧
    exit_justified (mkExitOutcome op outcome reason kind) pre ev in
  match ev with
  | MEv (Ask _ op SpendReleasedEvent) _ =>
      (∃ d, listed pre VTXOStatusSpending d ∧ Outpoint d = op) ∧ unreserved pre op
  | MEv (Ask _ op (ForfeitReleasedEvent round)) _ =>
      ∃ d, Outpoint d = op ∧
        (round = "" ∧ listed pre VTXOStatusPendingForfeit d ∨
         round ≠ "" ∧ round = ForfeitRoundID d ∧ listed pre VTXOStatusForfeiting d ∧
         MEv (HasForfeitRoundCheckpoint round) (Ok false) ∈ pre)
  | MEv (Ask _ op _) _ | MEv (StoreStatus op _) _ => exits op
  | MEv (Tell op event) _ =>
      event = SpendReserveEvent ∧
      (∃ l, MEv ListReservedOutpoints (Ok l) ∈ pre ∧ op ∈ l) ∧
      ∃ l, MEv (ListVTXOsByStatus VTXOStatusSpending) (Ok l) ∈ pre ∧
        op ∉ Outpoint <$> present l
  | MEv (SaveVTXO _) _ | MEv (DeleteVTXO _) _ | MEv (DetachedAsk _ _ _) _
  | MEv (RoundTell _) _ => False
  | _ => True
  end.

Lemma sweep_release_calls b op e evs (s : MSys W) :
  (∀ pre r, evs ⊆ pre → start_justified pre (MEv (Ask b op e) r)) → evs ⊆ mtrace s →
  mwp start_justified (sweep_release handle b op e) (λ _ s', evs ⊆ mtrace s') s.
Proof.
  intros HJ Hs. unfold sweep_release, markDescriptorLive. mwp_run; auto; simpl; set_solver.
Qed.

Lemma sweep_spend_calls (s : MSys W) :
  mwp start_justified (sweepOrphanedReservations cfg handle) (λ _ _, True) s.
Proof.
  unfold sweepOrphanedReservations. mwp_step; [by apply mwp_ret|]. mwp_step. mwp_step; [done|].
  mwp_step; [|by apply mwp_ret]. cbv zeta. mwp_step. mwp_step; [done|]. mwp_step; [|by apply mwp_ret].
  rename a into rows, a0 into held.
  set (evs := [MEv (ListVTXOsByStatus VTXOStatusSpending) (Ok rows);
               MEv ListReservedOutpoints (Ok held)]).
  apply mwp_bind. eapply mwp_mono; [|apply (mwp_for _ _ _ (λ s, evs ⊆ mtrace s))].
  - intros ? s1 _ H1. eapply mwp_mono; [|apply (mwp_for _ _ _ (λ s, evs ⊆ mtrace s)); [|exact H1]]; [done|].
    clear s1 H1. intros op s1 Hop H1. unfold redrive, markReservedUnknown.
    case_bool_decide as Hsp; [by apply mwp_ret|]. rewrite elem_of_list_to_set in Hsp.
    mwp_run; [done| |simpl; set_solver]. simpl. split; [done|].
    split; [exists held|exists rows]; set_solver.
  - intros op s1 Hop H1. case_bool_decide as Hh; [by apply mwp_ret|].
    rewrite elem_of_list_to_set in Hh. apply sweep_release_calls; [|done].
    apply list_elem_of_fmap in Hop as (d & -> & Hd). intros pre r1 Hpre. simpl.
    split; [|exists held; set_solver]. exists d. split; [|done]. exists rows. set_solver.
  - simpl. set_solver.
Qed.

Lemma release_pre_checkpoint_calls l d (s : MSys W) :
  let evs := [MEv (ListVTXOsByStatus VTXOStatusForfeiting) (Ok l)] in
  d ∈ present l → evs ⊆ mtrace s →
  mwp start_justified (release_pre_checkpoint handle d) (λ _ s', evs ⊆ mtrace s') s.
Proof.
  intros evs Hd Hs. unfold release_pre_checkpoint. case_bool_decide as Hr; [by apply mwp_ret|].
  mwp_step. mwp_step; [done|]. mwp_step; [mwp_step|]; [mwp_run; simpl; set_solver| |mwp_run; simpl; set_solver].
  set (evs' := MEv (HasForfeitRoundCheckpoint (ForfeitRoundID d)) (Ok false) :: evs).
  eapply mwp_mono; [|apply (sweep_release_calls _ _ _ evs')].
  - intros ? s' _ Hs'. set_solver.
  - intros pre r1 Hpre. simpl. exists d. split; [done|]. right.
    split_and!; [done|done|exists l; set_solver|set_solver].
  - simpl. set_solver.
Qed.

Lemma orphaned_forfeits_calls (s : MSys W) :
  mwp start_justified (releaseOrphanedForfeits cfg handle) (λ _ _, True) s.
Proof.
  unfold releaseOrphanedForfeits, releasePreCheckpointForfeits.
  mwp_step. mwp_step; [done|]. mwp_step; [|by apply mwp_ret]. rename a into rows.
  set (evs := [MEv (ListVTXOsByStatus VTXOStatusPendingForfeit) (Ok rows)]).
  apply mwp_bind. eapply mwp_mono; [|apply (mwp_for _ _ _ (λ s, evs ⊆ mtrace s))].
  - intros ? s1 _ _. mwp_step; [by apply mwp_ret|]. mwp_step. mwp_step; [done|].
    mwp_step; [|by apply mwp_ret]. rename a0 into l.
    eapply mwp_mono; [|apply (mwp_for _ _ _ (λ s,
      [MEv (ListVTXOsByStatus VTXOStatusForfeiting) (Ok l)] ⊆ mtrace s))];
      [done| |simpl; set_solver].
    intros d s2 Hd H2. by apply release_pre_checkpoint_calls.
  - intros d s1 Hd H1. apply sweep_release_calls; [|done]. intros pre r1 Hpre. simpl.
    exists d. split; [done|]. left. split; [done|]. exists rows. set_solver.
  - simpl. set_solver.
Qed.

Lemma reconcile_exits_calls (s : MSys W) :
  mwp start_justified (reconcileUnilateralExits cfg handle) (λ _ _, True) s.
Proof.
  unfold reconcileUnilateralExits. mwp_step; [by apply mwp_ret|]. mwp_step. mwp_step; [done|].
  mwp_step; [|by apply mwp_ret]. apply mwp_for; [|done]. intros d s1 _ _. unfold reconcile_exit.
  mwp_step. mwp_step; [done|]. mwp_step; [mwp_step|]; [|by apply mwp_ret..].
  destruct p as [[outcome reason] kind]. apply mwp_bind.
  eapply mwp_weaken; [|eapply mwp_mono; [|apply exit_calls]]; [|by intros; apply mwp_ret].
  intros pre ev Hpre Hev.
  assert (MEv (ResolveExitOutcome (Outpoint d)) (Ok (Some (outcome, reason, kind))) ∈ pre) as Hin
    by (eapply elem_of_prefix; [exact Hpre|]; simpl; set_solver).
  destruct ev as [c answer]. destruct c; try done; simpl in Hev.
  - destruct Hev as [-> Hev]. exists outcome, reason, kind. by split.
  - destruct event; try done; destruct Hev as [-> Hev]; exists outcome, reason, kind; by split.
Qed.

Lemma start_calls (s : MSys W) :
  mwp start_justified (Start cfg handle) (λ _ _, True) s.
Proof.
  unfold Start. mwp_step. mwp_step; [done|]. mwp_step; [|by apply mwp_ret]. apply mwp_bind.
  eapply mwp_mono; [|apply (mwp_for _ _ _ (λ _, True)); [|done]].
  - intros ? s1 _ _. apply mwp_bind. eapply mwp_mono; [|apply reconcile_exits_calls].
    intros ? s2 _ _. apply mwp_bind. eapply mwp_mono; [|apply sweep_spend_calls].
    intros ? s3 _ _. apply mwp_bind. eapply mwp_mono; [|apply orphaned_forfeits_calls].
    intros ? s4 _ _. by apply mwp_ret.
  - intros d s1 _ _. unfold recover_actor, spawnVTXOActor, spawnUnclassifiedVTXOActor, requestStartTip.
    mwp_run; done.
Qed.

(** C26 The startup sweeps fail closed.  Whatever the store, the actors and the
    resolver answer while the manager starts: a spend is released only if the
    store listed its row as spending and its outpoint has no session reservation;
    a reservation is driven again only if its row is not spending; a forfeit is
    released only if its row is pending, or forfeiting in a round the checkpoint
    lookup denied; every other event for an actor, and every status write, applies
    an exit outcome the resolver reported; no row is saved or deleted and nothing
    is sent to the round.  A failed or missing lookup justifies nothing. *)
Theorem manager_start_fails_closed w r s' :
  Start cfg handle (mkMSys (NewManager cfg) w []) = (r, s') →
  ∀ pre ev post, mtrace s' = pre ++ ev :: post → start_justified pre ev.
Proof. intros Hr. by destruct (mwp_calls _ _ _ _ _ _ (start_calls _) Hr eq_refl). Qed.

(** ** Refresh cohorts *)

Section cohort.
Context (m0 : Manager) (req : RefreshVTXORequest).
Local Abbreviation leader := (rr_VTXOOutpoint req).
Local Abbreviation gen := (uint64 (autoRefreshCohortGeneration m0 + 1)).

(** The answer of a coin that was asked to join. *)
Definition join_answer (ev : MEvent) : option (OutPoint * result error VTXOActorResponse) :=
  let '(MEv c a) := ev in
  match c return Resp c → option (OutPoint * result error VTXOActorResponse) with
  | Ask _ op (CohortRefreshEvent _ _ _ _ _) => λ a, Some (op, a)
  | _ => λ _, None
  end a.

(** A coin that may join: listed as live or pending, of the batch of the leader,
    without assets, not the leader, not leased to a spend, with an actor. *)
Definition may_join (pre : list MEvent) (op : OutPoint) : Prop :=
  ∃ st d, (st = VTXOStatusLive ∨ st = VTXOStatusPendingForfeit) ∧ listed pre st d ∧
    Outpoint d = op ∧ op ≠ leader ∧ TaprootAssetRoot d = None ∧
    BatchExpiry d = rr_BatchExpiry req ∧ reserved m0 !! op = None ∧ op ∈ actors m0.

(** A request of the cohort comes from a coin that reported itself pending. *)
Definition joined (pre : list MEvent) (q : RefreshVTXORequest) : Prop :=
  ∃ ev op t, ev ∈ pre ∧ join_answer ev = Some (op, Ok t) ∧
    isPendingForfeitState (NewState t) = true ∧ RoundRequest t = Some q.

Definition told_release (tr : list MEvent) (op : OutPoint) : Prop :=
  ∃ a, MEv (Tell op (CohortRefreshReleaseEvent leader gen)) a ∈ tr.

(** The coin was live before it joined. *)
Definition fresh_join (t : VTXOActorResponse) : bool :=
  match PriorState t with LiveState _ _ => true | _ => false end &&
  isPendingForfeitState (NewState t).

(** Every coin that may have joined is told to leave, or is a member. *)
Definition settled (members : list OutPoint) (tr : list MEvent) : Prop :=
  ∀ ev op a, ev ∈ tr → join_answer ev = Some (op, a) →
  match a with
  | Err _ => told_release tr op
  | Ok t => fresh_join t = true → told_release tr op ∨ op ∈ members
  end.

Definition cohort_justified (pre : list MEvent) (ev : MEvent) : Prop :=
  match ev with
  | MEv (Ask _ op (CohortRefreshEvent h b l g _)) _ =>
      h = rr_TriggerHeight req ∧ b = rr_BatchExpiry req ∧ l = leader ∧ g = gen ∧
      may_join pre op
  | MEv (Ask _ op e) _ => op = leader ∧ e = ForfeitReleasedEvent ""
  | MEv (Tell _ e) _ => e = CohortRefreshReleaseEvent leader gen
  | MEv (RoundTell (RefreshVTXOCohortRequest reqs)) _ =>
      Z.of_nat (length reqs) ≤ maxAutoRefreshCohortSize ∧ req ∈ reqs ∧
      ∀ q, q ∈ reqs → q = req ∨ joined pre q
  | MEv (RoundTell payload) _ => payload = RefreshPayload req
  | MEv (StoreStatus _ _) _ | MEv (SaveVTXO _) _ | MEv (DeleteVTXO _) _
  | MEv (DetachedAsk _ _ _) _ | MEv (SpawnActor _) _ => False
  | _ => True
  end.

Lemma joined_mono tr tr' q : tr ⊆ tr' → joined tr q → joined tr' q.
Proof. intros Hs (ev & op & t & ? & ?). exists ev, op, t. split; [by apply Hs|done]. Qed.

Lemma told_mono tr tr' op : tr ⊆ tr' → told_release tr op → told_release tr' op.
Proof. intros Hs [a Ha]. exists a. by apply Hs. Qed.

Lemma settled_app members members' tr evs :
  settled members tr → members ⊆ members' →
  (∀ ev op a, ev ∈ evs → join_answer ev = Some (op, a) →
    match a with
    | Err _ => told_release (tr ++ evs) op
    | Ok t => fresh_join t = true → told_release (tr ++ evs) op ∨ op ∈ members'
    end) → settled members' (tr ++ evs).
Proof.
  intros Hs Hm Hev ev op a Hin Ha. apply elem_of_app in Hin as [Hin|Hin]; [|by eapply Hev].
  specialize (Hs ev op a Hin Ha). assert (tr ⊆ tr ++ evs) as Hsub by set_solver.
  destruct a as [t|e]; [|by eapply told_mono]. intros Hf.
  destruct (Hs Hf); [left; by eapply told_mono|right; set_solver].
Qed.

(** Events that are no answers of coins. *)
Lemma settled_skip members tr ev :
  settled members tr → join_answer ev = None → settled members (tr ++ [ev]).
Proof.
  intros Hs Hev. apply (settled_app members); [done..|]. intros ev' op a Hin Ha.
  apply list_elem_of_singleton in Hin as ->. congruence.
Qed.

(** What the loop over the candidates has established so far. *)
Definition cohort_inv (members : list autoRefreshCohortMember) (s : MSys W) : Prop :=
  Z.of_nat (length members) ≤ maxAutoRefreshCohortSize - 1 ∧
  (∀ x, x ∈ members → joined (mtrace s) (cm_request x) ∧ cm_generation x = gen) ∧
  settled (cm_outpoint <$> filter (λ x, cm_adopted x = false) members) (mtrace s) ∧
  actors (mgr s) = actors m0.

Lemma may_join_mono tr tr' op : tr ⊆ tr' → may_join tr op → may_join tr' op.
Proof.
  intros Hs (st & d & Hst & (l & Hl & Hd) & Hrest). exists st, d. split; [done|].
  split; [|done]. exists l. split; [by apply Hs|done].
Qed.

Lemma cohort_inv_app members members' (s s' : MSys W) evs :
  cohort_inv members s → mtrace s' = mtrace s ++ evs → actors (mgr s') = actors (mgr s) →
  members `prefix_of` members' →
  Z.of_nat (length members') ≤ maxAutoRefreshCohortSize - 1 →
  (∀ x, x ∈ members' → x ∈ members ∨ joined (mtrace s') (cm_request x) ∧ cm_generation x = gen) →
  (∀ ev op a, ev ∈ evs → join_answer ev = Some (op, a) →
    match a with
    | Err _ => told_release (mtrace s') op
    | Ok t => fresh_join t = true → told_release (mtrace s') op ∨
        ∃ x, x ∈ members' ∧ cm_adopted x = false ∧ cm_outpoint x = op
    end) → cohort_inv members' s'.
Proof.
  intros (H1 & H2 & H3 & H4) Htr Hact [more ->] Hlen Hm Hev.
  split_and!; [done| | |congruence].
  - intros x [Hx|Hx]%Hm; [|done]. destruct (H2 x Hx) as [Hj ?]. split; [|done].
    eapply joined_mono, Hj. rewrite Htr. set_solver.
  - rewrite Htr in Hev |- *. eapply settled_app; [exact H3| |].
    + rewrite filter_app, fmap_app. set_solver.
    + intros ev op a Hin Ha. specialize (Hev ev op a Hin Ha). destruct a as [t|e]; [|done].
      intros [|(x & Hx & Had & <-)]%Hev; [by left|right].
      apply list_elem_of_fmap_2, list_elem_of_filter. done.
Qed.

Lemma cohort_inv_call members (s : MSys W) c r w :
  cohort_inv members s → join_answer (MEv c r) = None →
  cohort_inv members (mkMSys (mgr s) w (mtrace s ++ [MEv c r])).
Proof.
  intros Hinv Hc. eapply cohort_inv_app; [exact Hinv|done|done|done|apply Hinv|by left|].
  intros ev op a Hin Ha. apply list_elem_of_singleton in Hin as ->. congruence.
Qed.

(** A coin asked to join and then told to leave, or that did not join. *)
Lemma cohort_inv_left members (s : MSys W) op h b l g key a w w' rt :
  cohort_inv members s →
  cohort_inv members (mkMSys (mgr s) w'
    ((mtrace s ++ [MEv (Ask true op (CohortRefreshEvent h b l g key)) a]) ++
     [MEv (Tell op (CohortRefreshReleaseEvent leader gen)) rt])) ∧
  (∀ t, a = Ok t → fresh_join t = false →
   cohort_inv members (mkMSys (mgr s) w
    (mtrace s ++ [MEv (Ask true op (CohortRefreshEvent h b l g key)) a]))).
Proof.
  intros Hinv. split.
  - eapply cohort_inv_app; [exact Hinv|simpl; by rewrite <- app_assoc|done|done|apply Hinv|by left|].
    intros ev o a' Hin Ha. simpl.
    assert (o = op) as ->.
    { apply elem_of_cons in Hin as [->|Hin]; [by injection Ha|].
      by apply list_elem_of_singleton in Hin as ->. }
    assert (told_release (mtrace s ++ [MEv (Ask true op (CohortRefreshEvent h b l g key)) a;
      MEv (Tell op (CohortRefreshReleaseEvent leader gen)) rt]) op) as Ht
      by (exists rt; set_solver).
    rewrite <- app_assoc. simpl. destruct a'; auto.
  - intros t -> Hf. eapply cohort_inv_app; [exact Hinv|done|done|done|apply Hinv|by left|].
    intros ev o a' Hin Ha. apply list_elem_of_singleton in Hin as ->.
    injection Ha as <- <-. congruence.
Qed.

(** A coin that joined. *)
Lemma cohort_inv_joined members (s : MSys W) m op h b l g key t q w adopted :
  cohort_inv members s → actors m = actors (mgr s) →
  Z.of_nat (length members) + 1 ≤ maxAutoRefreshCohortSize - 1 →
  isPendingForfeitState (NewState t) = true → RoundRequest t = Some q →
  (fresh_join t = true → adopted = false) →
  cohort_inv (members ++ [mkMember op q adopted gen]) (mkMSys m w
    (mtrace s ++ [MEv (Ask true op (CohortRefreshEvent h b l g key)) (Ok t)])).
Proof.
  intros Hinv Hm Hlen Hp Hq Hf.
  eapply cohort_inv_app; [exact Hinv|done|done|by apply prefix_app_r| | |].
  - rewrite length_app. simpl. lia.
  - intros x [Hx|Hx]%elem_of_app; [by left|]. apply list_elem_of_singleton in Hx as ->. right.
    split; [|done]. exists (MEv (Ask true op (CohortRefreshEvent h b l g key)) (Ok t)), op, t.
    split; [simpl; set_solver|done].
  - intros ev o a Hin Ha. apply list_elem_of_singleton in Hin as ->. injection Ha as <- <-.
    intros Hfr. right. eexists. split; [apply elem_of_app; right; by apply list_elem_of_singleton|].
    by rewrite Hf.
Qed.

Lemma cohort_loop_calls key elig : ∀ remaining members (s : MSys W),
  remaining + Z.of_nat (length members) ≤ maxAutoRefreshCohortSize - 1 →
  (∀ x, x ∈ elig → may_join (mtrace s) (Outpoint (cc_descriptor x))) →
  cohort_inv members s →
  mwp cohort_justified (cohort_loop handle req key gen elig remaining members)
    (λ members s', cohort_inv members s') s.
Proof.
  induction elig as [|x elig IH]; intros remaining members s Hrem Helig Hinv; simpl;
    [by apply mwp_ret|].
  mwp_step; [by apply mwp_ret|]. mwp_step. mwp_step; [done|].
  mwp_step; [apply mwp_ret; by apply cohort_inv_call|].
  apply (cohort_inv_call _ _ ContextErr false w) in Hinv; [|done].
  set (s1 := mkMSys (mgr s) w (mtrace s ++ [MEv ContextErr false])) in *.
  assert (∀ y, y ∈ x :: elig → may_join (mtrace s1) (Outpoint (cc_descriptor y))) as Helig1
    by (intros y Hy; eapply may_join_mono, Helig, Hy; simpl; set_solver).
  unfold askForfeitVTXOActor. mwp_step.
  mwp_step; [simpl; split_and!; [done..|]; apply Helig1; left|].
  unfold releaseAutoRefreshCohortMember, rememberAdoptedAutoRefreshRelay.
  assert (∀ tr y, mtrace s1 `prefix_of` tr → y ∈ elig →
    may_join tr (Outpoint (cc_descriptor y))) as Hmay.
  { intros tr y Hp Hy. eapply may_join_mono, Helig1; [|by right].
    intros ev. by apply elem_of_prefix. }
  mwp_run; try done; cbn [mgr mworld mtrace].
  - apply IH; [done|intros; apply Hmay; [by apply prefix_app_r|done]|].
    eapply (proj2 (cohort_inv_left members s1 _ _ _ _ _ _ _ _ w0 (Ok tt) Hinv)); [done|].
    unfold fresh_join. destruct (PriorState a), (isPendingForfeitState (NewState a)); done.
  - zbool. apply IH; [rewrite length_app; simpl; lia|intros; apply Hmay; [by apply prefix_app_r|done]|].
    apply cohort_inv_joined; try done; [lia|]. unfold fresh_join. by destruct (PriorState a).
  - zbool. apply IH; [rewrite length_app; simpl; lia|intros; apply Hmay; [by apply prefix_app_r|done]|].
    by apply cohort_inv_joined; [..|lia| | |].
  - apply IH; [done|intros; apply Hmay; [by do 2 apply prefix_app_r|done]|].
    by eapply (proj1 (cohort_inv_left members s1 _ _ _ _ _ _ _ w0 _ _ Hinv)).
  - refine (cohort_inv_call members (mkMSys (mgr s1) w1 _) ContextErr _ w2 _ eq_refl).
    by eapply (proj1 (cohort_inv_left members s1 _ _ _ _ _ _ _ w0 _ _ Hinv)).
  - apply IH; [done|intros; apply Hmay; [by do 3 apply prefix_app_r|done]|].
    refine (cohort_inv_call members (mkMSys (mgr s1) w1 _) ContextErr _ w2 _ eq_refl).
    by eapply (proj1 (cohort_inv_left members s1 _ _ _ _ _ _ _ w0 _ _ Hinv)).
Qed.

(** ** The handoff of a cohort *)

(** [tr'] extends [tr] and asks no further coin to join. *)
Definition no_joins (tr tr' : list MEvent) : Prop :=
  tr ⊆ tr' ∧ ∀ ev, ev ∈ tr' → ev ∈ tr ∨ join_answer ev = None.

Lemma no_joins_refl tr : no_joins tr tr.
Proof. split; [done|]. by left. Qed.

Lemma no_joins_snoc tr tr' ev : no_joins tr tr' → join_answer ev = None → no_joins tr (tr' ++ [ev]).
Proof.
  intros [H1 H2] Hev. split; [set_solver|]. intros ev' [Hin|Hin]%elem_of_app; [by apply H2|].
  apply list_elem_of_singleton in Hin as ->. by right.
Qed.

Lemma settled_release members tr tr' :
  settled members tr → no_joins tr tr' → (∀ op, op ∈ members → told_release tr' op) →
  settled [] tr'.
Proof.
  intros Hs [Hsub Hnew] Ht ev op a Hin Ha. destruct (Hnew ev Hin) as [Hold|]; [|congruence].
  specialize (Hs ev op a Hold Ha). destruct a as [t|e]; [|by eapply told_mono].
  intros [|Hm]%Hs; left; [by eapply told_mono|by apply Ht].
Qed.

Lemma release_members_calls members : ∀ s : MSys W,
  (∀ x, x ∈ members → cm_generation x = gen) →
  mwp cohort_justified (mfor (release_member handle req) members) (λ _ s',
    (∀ x, x ∈ members → cm_adopted x = false → told_release (mtrace s') (cm_outpoint x)) ∧
    no_joins (mtrace s) (mtrace s') ∧ actors (mgr s') = actors (mgr s)) s.
Proof.
  unfold mfor. induction members as [|x members IH]; intros s Hg; simpl.
  { apply mwp_ret. split_and!; [set_solver|apply no_joins_refl|done]. }
  assert (∀ y, y ∈ members → cm_generation y = gen) as Hg' by set_solver.
  unfold release_member at 1, releaseAutoRefreshCohortMember, forgetAdoptedAutoRefreshRelay.
  mwp_step. destruct (cm_adopted x) eqn:Had; mwp_run;
    [|simpl; rewrite (Hg x) by left; done|]; (eapply mwp_mono; [|by apply IH]);
    cbn [mgr mworld mtrace]; intros ? s' _ (H1 & [H2 H2'] & H3).
  - split_and!; [|done|rewrite H3; by case_bool_decide].
    intros y [->|Hy]%elem_of_cons; [congruence|by apply H1].
  - split_and!; [|split; [set_solver|]|done].
    + intros y [->|Hy]%elem_of_cons; [|by apply H1]. intros _. exists r.
      rewrite <- (Hg x) by left. set_solver.
    + intros ev [[Hin|Hin]%elem_of_app|]%H2'; [by left| |by right].
      apply list_elem_of_singleton in Hin as ->. by right.
Qed.

(** What the payload of the handoff must satisfy. *)
Lemma relay_calls payload members (s : MSys W) :
  (∀ r, cohort_justified (mtrace s) (MEv (RoundTell payload) r)) → cohort_inv members s →
  mwp cohort_justified (relay handle payload (Some req) members) (λ r s',
    is_ok r = false → settled [] (mtrace s') ∧
    (leader ∈ actors m0 → ∃ a, MEv (Ask true leader (ForfeitReleasedEvent "")) a ∈ mtrace s')) s.
Proof.
  intros Hp (_ & Hmem & Hset & Hact). unfold relay. mwp_step. mwp_step; [apply Hp|]. mwp_step.
  { mwp_step. unfold rememberAdoptedAutoRefreshRelay. mwp_step. mwp_step.
    eapply mwp_mono; [|apply (mwp_for _ _ _ (λ _, True)); [|done]].
    - intros. by apply mwp_ret.
    - intros. by apply mwp_modify. }
  mwp_step. eapply mwp_mono; [|apply release_members_calls; intros x Hx; by apply Hmem].
  cbn [mgr mworld mtrace]. intros ? s1 _ (Htold & Hnew & Hact1).
  assert (settled [] (mtrace s1)) as Hs1.
  { eapply settled_release; [exact Hset| |].
    - destruct Hnew as [H1 H2]. split; [set_solver|]. intros ev [Hin|]%H2; [|by right].
      apply elem_of_app in Hin as [|Hin]; [by left|].
      apply list_elem_of_singleton in Hin as ->. by right.
    - intros op (x & -> & [Had Hx]%list_elem_of_filter)%list_elem_of_fmap. by apply Htold. }
  unfold rollbackForfeit, mfor, mfold. mwp_run; simpl; try done.
  - intros _. split; [by apply settled_skip|]. intros _. exists r0. set_solver.
  - intros _. split; [done|]. zbool. rewrite Hact1, Hact in *. done.
Qed.

Lemma eligible_spec m c pending d :
  cohort_eligible m c req pending d = true →
  Outpoint d ≠ leader ∧ TaprootAssetRoot d = None ∧ BatchExpiry d = rr_BatchExpiry req ∧
  reserved m !! Outpoint d = None ∧ Outpoint d ∈ actors m.
Proof.
  unfold cohort_eligible, isReserved. rewrite !andb_true_iff, negb_true_iff, !orb_false_iff.
  intros [[[H _] _] Ha]. destruct H as [[[H1 H2] H3] H4].
  rewrite !bool_decide_eq_false in H1, H2, H3, H4. apply bool_decide_eq_true in Ha.
  split_and!; [done| | | |done].
  - by apply eq_None_not_Some.
  - by apply dec_stable.
  - by apply eq_None_not_Some.
Qed.

Lemma addCandidates_spec m c pending eligible l x :
  x ∈ addCandidates m c req pending eligible l →
  x ∈ eligible ∨
  cc_descriptor x ∈ present l ∧ cohort_eligible m c req pending (cc_descriptor x) = true.
Proof.
  unfold addCandidates. generalize (present l) as ds. intros ds.
  revert eligible. induction ds as [|d ds IH]; intros eligible; simpl; [by left|].
  intros [Hin|[? ?]]%IH; [|right; set_solver].
  destruct (cohort_eligible m c req pending d) eqn:He; simpl in Hin; [|by left].
  case_bool_decide; [|by left]. apply elem_of_app in Hin as [|Hin]; [by left|right].
  apply list_elem_of_singleton in Hin as ->. simpl. set_solver.
Qed.

Lemma candidates_may_join m c pend live tr x :
  reserved m = reserved m0 → actors m = actors m0 →
  MEv (ListVTXOsByStatus VTXOStatusLive) (Ok live) ∈ tr →
  (pend ≠ [] → MEv (ListVTXOsByStatus VTXOStatusPendingForfeit) (Ok pend) ∈ tr) →
  x ∈ merge_sort candidate_le
    (addCandidates m c req false (addCandidates m c req true [] pend) live) →
  may_join tr (Outpoint (cc_descriptor x)).
Proof.
  intros Hr Ha Hl Hp. rewrite merge_sort_Permutation.
  assert (∀ st l pending, MEv (ListVTXOsByStatus st) (Ok l) ∈ tr →
    st = VTXOStatusLive ∨ st = VTXOStatusPendingForfeit →
    cc_descriptor x ∈ present l → cohort_eligible m c req pending (cc_descriptor x) = true →
    may_join tr (Outpoint (cc_descriptor x))) as Hone.
  { intros st l pending Hin Hst Hd (H1 & H2 & H3 & H4 & H5)%eligible_spec.
    exists st, (cc_descriptor x). rewrite <- Hr, <- Ha. split_and!; try done. by exists l. }
  intros [[?|[Hd He]]%addCandidates_spec|[Hd He]]%addCandidates_spec; [set_solver| |].
  - eapply Hone; [|by right|exact Hd|exact He]. apply Hp. intros ->. by apply not_elem_of_nil in Hd.
  - eapply Hone; [exact Hl|by left|exact Hd|exact He].
Qed.

Lemma coordinate_calls (s : MSys W) :
  mgr s = m0 → mtrace s = [] →
  mwp cohort_justified (coordinateAutoRefreshCohort cfg handle req)
    (λ members s', cohort_inv members s') s.
Proof.
  intros Hm Ht.
  assert (∀ s' : MSys W, actors (mgr s') = actors m0 →
    Forall (λ ev, join_answer ev = None) (mtrace s') → cohort_inv [] s') as Hnil.
  { intros s' Ha Hj. split_and!; [done|set_solver| |done].
    intros ev op a Hin Hev. rewrite Forall_forall in Hj. rewrite Hj in Hev by done. done. }
  unfold coordinateAutoRefreshCohort, autoRefreshCohortOperatorKey.
  mwp_run; cbn [mgr mworld mtrace] in *; try done.
  all: rewrite ?Hm, ?Ht; try (apply Hnil; simpl; rewrite ?Hm, ?Ht; [done|by repeat constructor]).
  all: apply cohort_loop_calls; [done| |apply Hnil; [done|by repeat constructor]].
  all: intros x; apply candidates_may_join; [done|done|simpl; set_solver|].
  all: match goal with |- match ?r with _ => _ end ≠ [] → _ => destruct r end; simpl; set_solver.
Qed.

Lemma auto_relay_calls (s : MSys W) :
  mgr s = m0 → mtrace s = [] → rr_Automatic req = true →
  mwp cohort_justified (handleRelayToRound cfg handle (RefreshPayload req)) (λ r s',
    is_ok r = false → settled [] (mtrace s') ∧
    (leader ∈ actors m0 → ∃ a, MEv (Ask true leader (ForfeitReleasedEvent "")) a ∈ mtrace s')) s.
Proof.
  intros Hm Ht Hauto. unfold handleRelayToRound. rewrite Hauto. simpl. mwp_step. mwp_step.
  mwp_step; [by apply mwp_ret|]. mwp_step; [|mwp_step].
  - unfold rollbackForfeit, mfor, mfold. mwp_run; done.
  - mwp_step. eapply mwp_mono; [|by apply coordinate_calls]. simpl. intros members s1 _ Hinv.
    apply relay_calls; [|done]. intros r. simpl. destruct Hinv as (Hlen & Hmem & _).
    rewrite merge_sort_Permutation. split_and!.
    + rewrite length_app, length_fmap. simpl. lia.
    + set_solver.
    + intros q. rewrite merge_sort_Permutation. intros [Hq|Hq]%elem_of_app.
      * apply list_elem_of_fmap in Hq as (x & -> & Hx). right. by apply Hmem.
      * apply list_elem_of_singleton in Hq. by left.
  - apply relay_calls; [done|]. split_and!; [done|set_solver| |by rewrite Hm].
    rewrite Ht. intros ev op a Hin. set_solver.
Qed.
End cohort.

(** C28 A refresh cohort is bounded, uniform and atomic.  The turn that relays an
    automatic refresh invites only coins the store listed as live or pending, of
    the leader's batch, without assets, with an actor and not leased to a spend; it
    hands the round at most 32 requests, the leader's and those of coins that
    reported themselves pending; and when the handoff fails, every coin that was
    live and joined, and every coin whose answer was lost, has been told to leave
    and the leader is released. *)
Theorem manager_cohort_bounded_atomic req m w r s' :
  rr_Automatic req = true →
  Manager_Receive cfg handle (RelayToRoundMsg (RefreshPayload req)) (mkMSys m w []) = (r, s') →
  (∀ pre ev post, mtrace s' = pre ++ ev :: post → cohort_justified m req pre ev) ∧
  (is_ok r = false → settled m req [] (mtrace s') ∧
   (rr_VTXOOutpoint req ∈ actors m →
    ∃ a, MEv (Ask true (rr_VTXOOutpoint req) (ForfeitReleasedEvent "")) a ∈ mtrace s')).
Proof.
  intros Hauto Hr.
  exact (mwp_calls _ _ _ _ _ _ (auto_relay_calls m req (mkMSys m w []) eq_refl
    eq_refl Hauto) Hr eq_refl).
Qed.
End calls.

(** ** Witnesses *)

Module AdmissionDemo.
Import LeaseDemo.

(** The turn of the stale release of [demo_run]'s first holder. *)
Definition stale_turn :=
  Manager_Receive demo_config demo_handle (ReleaseSpendRequest [coin 0] {[coin 0 := 1]})
    (mkMSys (mgr demo_end) VTXOStatusLive []).

Definition spend_turn :=
  Manager_Receive demo_config demo_handle (SelectAndReserveSpendRequest 60000 1000 []) demo_start.

(** A start with an orphaned spend. *)
Definition start_turn :=
  Start demo_config demo_handle (mkMSys (NewManager demo_config) VTXOStatusSpending []).

(** A recovered exit of a coin without an actor. *)
Definition exit_note : ExitOutcomeNotification :=
  mkExitOutcome (coin 0) ExitOutcomeRecoverable "swept back" "".
Definition exit_turn :=
  Manager_Receive demo_config demo_handle (ExitOutcomeMsg exit_note)
    (mkMSys (NewManager demo_config) VTXOStatusUnilateralExit []).

(** A leader that is not listed invites the listed coin; the round refuses. *)
Definition leader_request : RefreshVTXORequest :=
  mkRefreshVTXORequest (coin 1) 20000 0 true 1000 950 true (Some 2%N) [4] (Some 1%N).
Definition join_response : VTXOActorResponse :=
  mkResponse (LiveState sample_vtxo 100) (PendingForfeitState sample_vtxo 950) []
    (Some (mkRefreshVTXORequest (coin 0) 50000 0 true 1000 950 false (Some 2%N) [4] (Some 1%N))).
Definition refusing_handle (c : Call) (w : VTXOStatus) : Resp c * VTXOStatus :=
  (match c return Resp c with
   | RoundTell _ => Err "round unavailable"
   | Ask _ _ (CohortRefreshEvent _ _ _ _ _) => Ok join_response
   | c => demo_answer c w
   end, w).
Definition cohort_turn :=
  Manager_Receive demo_config refusing_handle (RelayToRoundMsg (RefreshPayload leader_request))
    demo_start.
End AdmissionDemo.
Import LeaseDemo AdmissionDemo.

Lemma manager_stale_release_refused_witness :
  1 < 2 ∧ reserved (mgr stale_turn.2) !! coin 0 = Some 2 ∧
  ∀ pre ev post, mtrace stale_turn.2 = pre ++ ev :: post → spares (coin 0) pre ev.
Proof.
  refine (manager_stale_release_refused demo_config demo_handle demo_run demo_start demo_history
    demo_end [] [demo_release] [] 50000 0 [] [mkSelectedVTXO (coin 0) 1 50000 [1]] 50000
    50000 0 [] [mkSelectedVTXO (coin 0) 2 50000 [1]] 50000
    (mkSelectedVTXO (coin 0) 1 50000 [1]) (mkSelectedVTXO (coin 0) 2 50000 [1])
    VTXOStatusLive [coin 0] {[coin 0 := 1]} stale_turn.1 stale_turn.2
    demo_unique eq_refl demo_served _ _ _ _ _ _ _).
  - vm_compute. reflexivity.
  - vm_compute. reflexivity.
  - left.
  - left.
  - vm_compute. reflexivity.
  - vm_compute. reflexivity.
  - unfold stale_turn. destruct (Manager_Receive _ _ _ _). reflexivity.
Defined.

Lemma manager_selection_sound_witness :
  ∃ rows w, demo_handle (ListSelectionCandidates VTXOStatusLive) VTXOStatusLive = (Ok rows, w) ∧
    sum_amounts c_Amount rows = 70000 ∧ is_ok spend_turn.1 = true.
Proof.
  destruct (manager_selection_sound demo_config demo_handle 60000 1000 [] demo_start
    [mkSelectedVTXO (coin 0) 1 50000 [1]; mkSelectedVTXO (coin 1) 2 20000 [1]] 70000 spend_turn.2
    demo_unique) as (rows & w & Hrows & _).
  - vm_compute. reflexivity.
  - exists rows, w. split; [exact Hrows|]. injection Hrows as <- <-.
    split; vm_compute; reflexivity.
Defined.

Lemma manager_exit_outcome_guarded_witness :
  (∀ pre ev post, mtrace exit_turn.2 = pre ++ ev :: post → exit_justified exit_note pre ev) ∧
  (is_ok exit_turn.1 = true → exit_applied exit_note [] (mtrace exit_turn.2)).
Proof.
  refine (manager_exit_outcome_guarded demo_config demo_handle exit_note (NewManager demo_config)
    VTXOStatusUnilateralExit exit_turn.1 exit_turn.2 _).
  unfold exit_turn. destruct (Manager_Receive _ _ _ _). reflexivity.
Defined.

Lemma manager_start_fails_closed_witness :
  length (mtrace start_turn.2) = 8%nat ∧
  ∀ pre ev post, mtrace start_turn.2 = pre ++ ev :: post → start_justified pre ev.
Proof.
  split; [vm_compute; reflexivity|].
  refine (manager_start_fails_closed demo_config demo_handle VTXOStatusSpending
    start_turn.1 start_turn.2 _).
  unfold start_turn. destruct (Start _ _ _). reflexivity.
Defined.

Lemma manager_cohort_bounded_atomic_witness :
  is_ok cohort_turn.1 = false ∧ length (mtrace cohort_turn.2) = 8%nat ∧
  settled demo_manager leader_request [] (mtrace cohort_turn.2).
Proof.
  assert (is_ok cohort_turn.1 = false) as Herr by (vm_compute; reflexivity).
  split; [exact Herr|]. split; [vm_compute; reflexivity|].
  apply (manager_cohort_bounded_atomic demo_config refusing_handle leader_request demo_manager
    VTXOStatusLive cohort_turn.1 cohort_turn.2); [reflexivity| |exact Herr].
  unfold cohort_turn, demo_start. destruct (Manager_Receive _ _ _ _). reflexivity.
Defined.

(** A coin whose reservation has not reached its row counts neither as spendable
    nor as locked: the free selection reports missing funds where the exact one
    reports locked funds. *)
Example inflight_lease_counted_nowhere :
  let s := (Manager_Receive demo_config demo_handle
    (SelectAndReserveSpendRequest 70000 0 []) demo_start).2 in
  let err r := match r with Err e => me_is e | Ok _ => None end in
  err (Manager_Receive demo_config demo_handle (SelectAndReserveSpendRequest 50000 0 []) s).1 =
    Some ErrInsufficientSpendableFunds ∧
  err (Manager_Receive demo_config demo_handle (SelectAndReserveSpendRequest 50000 0 [coin 0]) s).1 =
    Some ErrVTXOLiquidityLocked.
Proof. split; vm_compute; reflexivity. Qed.

(** ** A failed activation of a custom input *)

(** The second read of the row fails; the world counts the reads. *)
Definition second_read_fails (c : Call) (reads : nat) : Resp c * nat :=
  match c return Resp c * nat with
  | GetVTXO _ =>
      (match reads with 0%nat => Ok (Some sample_vtxo) | S _ => Err (GetFailed "busy") end, S reads)
  | c => (demo_answer c VTXOStatusLive, reads)
  end.

Definition sample_input : CustomForfeitInput :=
  mkCustomInput (coin 0) 50000 [1] [4] (Some 1%N) (Some 2%N) 20 "round-0" 3%N 1000 0 100
    [mkAncestry 3%N 2 0].

(** A live coin whose row cannot be read again after its actor was stopped: the
    activation fails, nothing is rolled back and the coin has no actor. *)
Example custom_activation_loses_actor :
  let run := Manager_Receive demo_config second_read_fails
    (ActivateCustomForfeitInputsRequest [sample_input]) (mkMSys demo_manager 0%nat []) in
  is_ok run.1 = false ∧ coin 0 ∈ actors demo_manager ∧ coin 0 ∉ actors (mgr run.2) ∧
  map (λ ev, let '(MEv c _) := ev in c) (mtrace run.2) =
    [GetVTXO (coin 0); StopAndRemoveActor (coin 0); GetVTXO (coin 0)].
Proof.
  split_and!; [by vm_compute|set_solver| |by vm_compute].
  apply (bool_decide_unpack _). by vm_compute.
Qed.
