(* ===== verification/Ledger.v ===== *)
(** * The client ledger: [ledger/actor.go], [ledger/handlers.go],
      [db/ledger_store.go], [db/utxo_audit_store.go]

    A durable actor that turns wallet events into double-entry rows.  Messages
    are delivered at least once and in almost any order, so every row carries an
    identity (a round, a session or a key) under a unique index, a conflicting
    reuse of an identity is an error, and everything a message writes commits in
    one transaction with its acknowledgement.

    A transaction is a computation over the tables and a list of faults, one for
    each access to the database: a fault makes the access fail, and a failed
    transaction leaves no trace.  The texts of the rows are built as the code
    builds them, because they are compared when an identity is used again; how the
    bitcoin library prints a hash or an outpoint is an interface.  One turn reads the
    clock once. *)

From S2P Require Import Prelude RecoveryProof.
Local Open Scope Z_scope.

(** ** Bytes and texts *)

(** The [n] bytes of a number, most significant first. *)
Definition be_bytes (n : nat) (z : Z) : list Z :=
  (λ i, (z / 256 ^ Z.of_nat i) mod 256) <$> reverse (seq 0 n).
Definition hash_bytes (h : Hash) : list Z := be_bytes 32 (Z.of_N h).

(** The bytes of a Go string. *)
Definition str_bytes (s : string) : list Z :=
  (λ a, Z.of_N (Ascii.N_of_ascii a)) <$> String.list_ascii_of_string s.

Definition hex_digit (d : Z) : Ascii.ascii :=
  Ascii.ascii_of_N (Z.to_N (if d <? 10 then 48 + d else 87 + d)).
(** [%x] of bytes. *)
Definition hex (l : list Z) : string :=
  String.string_of_list_ascii (l ≫= λ b, [hex_digit (b / 16); hex_digit (b mod 16)]).

(** The [String] methods of [chainhash.Hash] and [wire.OutPoint]. *)
Class ChainText := {
  Hash_String : Hash → string;
  OutPoint_String : OutPoint → string;
}.

(** [%x] of a value with a [String] method formats the bytes of that string. *)
Definition hex_String `{ChainText} (h : Hash) : string := hex (str_bytes (Hash_String h)).
(** [%d] *)
Definition dec (z : Z) : string := pretty z.
(** ["%x:%d"] of a raw hash and an index. *)
Definition raw_outpoint (h : Hash) (index : Z) : string :=
  hex (hash_bytes h) +:+ ":" +:+ dec index.

(** ** Names *)

Definition AccountWalletBalance : string := "wallet_balance".
Definition AccountVTXOBalance : string := "vtxo_balance".
Definition AccountFeesPaid : string := "fees_paid".
Definition AccountOnchainFees : string := "onchain_fees".
Definition AccountTransfersIn : string := "transfers_in".
Definition AccountTransfersOut : string := "transfers_out".
Definition AccountOpeningBalance : string := "opening_balance".
Definition AccountWalletClearing : string := "wallet_clearing".

Definition EventBoardingFeePaid : string := "boarding_fee_paid".
Definition EventRefreshFeePaid : string := "refresh_fee_paid".
Definition EventOnchainFeePaid : string := "onchain_fee_paid".
Definition EventBoardingSweepFeePaid : string := "boarding_sweep_fee_paid".
Definition EventVTXOReceived : string := "vtxo_received".
Definition EventVTXOSent : string := "vtxo_sent".
Definition EventWalletUTXOCreated : string := "wallet_utxo_created".
Definition EventWalletUTXOSpent : string := "wallet_utxo_spent".
Definition EventWalletSweepTransfer : string := "wallet_sweep_transfer".

Definition SourceRoundBoarding : string := "round_boarding".
Definition SourceRoundRefresh : string := "round_refresh".
Definition SourceRoundTransfer : string := "round_transfer".
Definition SourceOOR : string := "oor".
Definition SourceOORSelfChange : string := "oor_self_change".

Definition FeeTypeBoarding : string := "boarding".
Definition FeeTypeRefresh : string := "refresh".
Definition FeeTypeOnchainSweep : string := "onchain_sweep".

Definition ClassificationBoardingSweepInput : string := "boarding_sweep_input".
Definition ClassificationBoardingSweepReturn : string := "boarding_sweep_return".
Definition ClassificationDeposit : string := "deposit".
Definition ClassificationExitProceeds : string := "exit_proceeds".
Definition ClassificationLeaveProceeds : string := "leave_proceeds".
Definition ClassificationRecycledChange : string := "recycled_change".
Definition ClassificationDepositFunding : string := "deposit_funding".

(** The classifications the database knows; the log refuses any other. *)
Definition utxo_classifications : list string :=
  ["deposit"; "sweep_return"; "round_funding"; "change"; "unknown";
   "boarding_sweep_input"; "boarding_sweep_return"; "exit_proceeds"; "leave_proceeds";
   "recycled_change"; "deposit_funding"].

Definition IsOwnWalletProceeds (c : string) : bool :=
  bool_decide (c ∈ [ClassificationExitProceeds; ClassificationLeaveProceeds;
    ClassificationRecycledChange; ClassificationBoardingSweepReturn]).

Definition creditAlreadyBooked (c : string) : bool :=
  bool_decide (c ∈ [ClassificationExitProceeds; ClassificationLeaveProceeds]).

(** ** Rows and tables *)

(** Absent identifiers are nil slices in the code, [None] or [[]] here.  The
    column with the textual form of the round id repeats [e_RoundID]. *)
Record LedgerEntry := mkLedgerEntry {
  DebitAccount : string;
  CreditAccount : string;
  e_AmountSat : Z;
  e_RoundID : option N;
  e_SessionID : option N;
  EventType : string;
  Description : string;
  CreatedAt : Z;
  e_IdempotencyKey : list Z;
  ChainTxid : option Hash;
  ChainVout : option Z;
  ConfirmationHeight : option Z;
}.

#[export] Instance LedgerEntry_eq_dec : EqDecision LedgerEntry.
Proof. solve_decision. Defined.

Record UTXOAuditEntry := mkAudit {
  u_Outpoint : OutPoint;
  u_AmountSat : Z;
  u_Event : string;
  u_BlockHeight : Z;
  ClassifiedAs : string;
  u_CreatedAt : Z;
}.

(** The tables: the ledger in order of insertion, the audit log, unique by
    outpoint and event, and the funding inputs of deposits. *)
Record LedgerDB := mkLedgerDB {
  ledger_entries : list LedgerEntry;
  wallet_utxo_log : gmap (OutPoint * string) UTXOAuditEntry;
  deposit_funding : gset (OutPoint * OutPoint);
}.

(** The index columns are [int32]. *)
Definition column (o : OutPoint) : OutPoint := mkOutPoint (op_Hash o) (int32 (op_Index o)).
Definition from_column (o : OutPoint) : OutPoint := mkOutPoint (op_Hash o) (uint32 (op_Index o)).

(** ** Transactions *)

Inductive lerr :=
| ErrInvalidMessage (text : error)
| ErrIdempotencyConflict (text : error)
| ErrStore (text : error).

Definition lwrap (prefix : error) (e : lerr) : lerr :=
  match e with
  | ErrInvalidMessage t => ErrInvalidMessage (prefix +:+ t)
  | ErrIdempotencyConflict t => ErrIdempotencyConflict (prefix +:+ t)
  | ErrStore t => ErrStore (prefix +:+ t)
  end.

Definition LTx (A : Type) : Type :=
  LedgerDB * list bool → result lerr A * (LedgerDB * list bool).

Definition lret {A} (a : A) : LTx A := λ s, (Ok a, s).
Definition lthrow {A} (e : lerr) : LTx A := λ s, (Err e, s).
Definition lbind {A B} (m : LTx A) (k : A → LTx B) : LTx B := λ s,
  match m s with
  | (Ok a, s') => k a s'
  | (Err e, s') => (Err e, s')
  end.
(** [if err != nil { return fmt.Errorf("prefix: %w", err) }] *)
Definition lwrapped {A} (prefix : error) (m : LTx A) : LTx A := λ s,
  match m s with
  | (Ok a, s') => (Ok a, s')
  | (Err e, s') => (Err (lwrap prefix e), s')
  end.

Declare Scope ledger_scope.
Delimit Scope ledger_scope with ledger.
Notation "'tx*' x ':=' m 'in' k" := (lbind m (λ x, k))
  (at level 10, x pattern, m at level 100, k at level 200) : ledger_scope.
Notation "'then*' m 'in' k" := (lbind m (λ _, k))
  (at level 10, m at level 100, k at level 200) : ledger_scope.
Open Scope ledger_scope.

(** An access to the database, which the next fault may break. *)
Definition access {A} (f : LedgerDB → result lerr A * LedgerDB) : LTx A := λ '(db, faults),
  match faults with
  | true :: faults => (Err (ErrStore "database access failed"), (db, faults))
  | _ => let '(r, db') := f db in (r, (db', tail faults))
  end.

(** [ax.Commit]: the body and the acknowledgement, or nothing. *)
Definition Commit (body : LTx unit) (db : LedgerDB) (faults : list bool) :
    result lerr unit * LedgerDB :=
  match body (db, faults) with
  | (Ok _, (db', true :: _)) => (Err (ErrStore "commit failed"), db)
  | (Ok _, (db', _)) => (Ok tt, db')
  | (Err e, _) => (Err e, db)
  end.

(** ** The ledger store *)

Definition same_leg (a b : LedgerEntry) : bool :=
  bool_decide (EventType a = EventType b) &&
  bool_decide (DebitAccount a = DebitAccount b) &&
  bool_decide (CreditAccount a = CreditAccount b).

(** The partial unique indexes: whether a row has the identity of [e]. *)
Definition same_key (e row : LedgerEntry) : bool :=
  negb (bool_decide (e_IdempotencyKey e = [])) &&
  bool_decide (e_IdempotencyKey row = e_IdempotencyKey e) && same_leg row e.
Definition same_session (e row : LedgerEntry) : bool :=
  bool_decide (is_Some (e_SessionID e)) &&
  bool_decide (e_SessionID row = e_SessionID e) && same_leg row e.
Definition same_round (e row : LedgerEntry) : bool :=
  bool_decide (is_Some (e_RoundID e)) && bool_decide (e_IdempotencyKey e = []) &&
  bool_decide (e_IdempotencyKey row = []) &&
  bool_decide (e_RoundID row = e_RoundID e) && same_leg row e.
Definition same_identity (e row : LedgerEntry) : bool :=
  same_key e row || same_session e row || same_round e row.

(** [ledgerPayloadEqual]: everything but the time of insertion. *)
Definition ledgerPayloadEqual (a b : LedgerEntry) : bool :=
  bool_decide (DebitAccount a = DebitAccount b) &&
  bool_decide (CreditAccount a = CreditAccount b) &&
  bool_decide (e_AmountSat a = e_AmountSat b) &&
  bool_decide (e_RoundID a = e_RoundID b) &&
  bool_decide (e_SessionID a = e_SessionID b) &&
  bool_decide (e_IdempotencyKey a = e_IdempotencyKey b) &&
  bool_decide (EventType a = EventType b) &&
  bool_decide (Description a = Description b) &&
  bool_decide (ChainTxid a = ChainTxid b) &&
  bool_decide (ChainVout a = ChainVout b) &&
  bool_decide (ConfirmationHeight a = ConfirmationHeight b).

Definition hasIdentity (e : LedgerEntry) : bool :=
  negb (bool_decide (e_IdempotencyKey e = [])) ||
  bool_decide (is_Some (e_SessionID e)) || bool_decide (is_Some (e_RoundID e)).

(** The rows the three lookups find. *)
Definition winners (rows : list LedgerEntry) (e : LedgerEntry) : list LedgerEntry :=
  omap id [find (same_key e) rows; find (same_session e) rows; find (same_round e) rows].

Definition verifyLedgerEntryReplay (rows : list LedgerEntry) (e : LedgerEntry) :
    result lerr unit :=
  if negb (hasIdentity e) then Ok tt
  else
    match winners rows e with
    | [] => Err (ErrIdempotencyConflict "no row for ledger identity")
    | ws =>
        if forallb (λ w, ledgerPayloadEqual w e) ws then Ok tt
        else Err (ErrIdempotencyConflict "event, debit, credit")
    end.

(** The checks of the table. *)
Definition row_ok (e : LedgerEntry) : bool :=
  (0 <? e_AmountSat e) && negb (bool_decide (DebitAccount e = CreditAccount e)).

(** [ON CONFLICT DO NOTHING] *)
Definition insert_row (rows : list LedgerEntry) (e : LedgerEntry) : list LedgerEntry :=
  if existsb (same_identity e) rows then rows else rows ++ [e].

Definition set_entries (db : LedgerDB) (rows : list LedgerEntry) : LedgerDB :=
  mkLedgerDB rows (wallet_utxo_log db) (deposit_funding db).

Definition InsertLedgerEntry (e : LedgerEntry) : LTx unit :=
  access (λ db,
    if negb (row_ok e) then (Err (ErrStore "CHECK constraint failed"), db)
    else
      let rows := insert_row (ledger_entries db) e in
      (verifyLedgerEntryReplay rows e, set_entries db rows)).

Definition HasSessionEntry (sessionID : N) (event debit credit : string) : LTx bool :=
  access (λ db,
    (Ok (existsb (λ r, bool_decide (e_SessionID r = Some sessionID) &&
       bool_decide (EventType r = event) && bool_decide (DebitAccount r = debit) &&
       bool_decide (CreditAccount r = credit)) (ledger_entries db)), db)).

Definition HasEntryForKey (key : list Z) (event : string) : LTx bool :=
  access (λ db,
    (Ok (existsb (λ r, negb (bool_decide (e_IdempotencyKey r = [])) &&
       bool_decide (e_IdempotencyKey r = key) &&
       bool_decide (EventType r = event)) (ledger_entries db)), db)).

(** The sum of the rows of a query. *)
Definition total (rows : list LedgerEntry) : Z := foldr (λ e n, e_AmountSat e + n) 0 rows.

(** Debits minus credits. *)
Definition GetAccountBalance (db : LedgerDB) (account : string) : Z :=
  total (filter (λ e, DebitAccount e = account) (ledger_entries db)) -
  total (filter (λ e, CreditAccount e = account) (ledger_entries db)).

Definition GetTotalOperatorFeesPaid (db : LedgerDB) : Z :=
  total (filter (λ e, DebitAccount e = AccountFeesPaid) (ledger_entries db)).

(** ** The audit store *)

Definition InsertUTXOAuditEntry (u : UTXOAuditEntry) : LTx unit :=
  access (λ db,
    if bool_decide (ClassifiedAs u ∉ utxo_classifications)
    then (Err (ErrStore "FOREIGN KEY constraint failed"), db)
    else
      let k := (column (u_Outpoint u), u_Event u) in
      (Ok tt,
       if bool_decide (is_Some (wallet_utxo_log db !! k)) then db
       else mkLedgerDB (ledger_entries db) (<[k := u]> (wallet_utxo_log db))
              (deposit_funding db))).

Definition LookupCreatedUTXO (o : OutPoint) : LTx (option UTXOAuditEntry) :=
  access (λ db, (Ok (wallet_utxo_log db !! (column o, "created")), db)).

Definition InsertDepositFundingInput (input deposit : OutPoint) : LTx unit :=
  access (λ db,
    (Ok tt, mkLedgerDB (ledger_entries db) (wallet_utxo_log db)
       ({[(column input, column deposit)]} ∪ deposit_funding db))).

Definition DepositsFundedByInput (o : OutPoint) : LTx (list OutPoint) :=
  access (λ db,
    (Ok (from_column <$> merge_sort outpoint_le
       (omap (λ p, if bool_decide (p.1 = column o) then Some p.2 else None)
         (elements (deposit_funding db)))), db)).


(** ** Messages *)

Record FeePaidMsg := mkFeePaid {
  fp_RoundID : N;
  fp_AmountSat : Z;
  FeeType : string;
  fp_BlockHeight : Z;
  fp_IdempotencyKey : list Z;
}.

Record VTXOReceivedMsg := mkVTXOReceived {
  vr_OutpointHash : Hash;
  vr_OutpointIndex : Z;
  vr_AmountSat : Z;
  Source : string;
  vr_RoundID : N;
  vr_SessionID : N;
}.

Record VTXOSentMsg := mkVTXOSent {
  vs_SessionID : N;
  vs_RoundID : N;
  vs_Outpoint : OutPoint;
  vs_AmountSat : Z;
  vs_IdempotencyKey : list Z;
  ProceedsOwnWallet : bool;
}.

Record ExitCostMsg := mkExitCost {
  ec_OutpointHash : Hash;
  ec_OutpointIndex : Z;
  ec_AmountSat : Z;
  ExitCostSat : Z;
  ec_BlockHeight : Z;
  DestinationOwnWallet : bool;
}.

Record UTXOCreatedMsg := mkUTXOCreated {
  uc_OutpointHash : Hash;
  uc_OutpointIndex : Z;
  uc_AmountSat : Z;
  uc_BlockHeight : Z;
  uc_Classification : string;
  FundingInputs : list OutPoint;
}.

Record UTXOSpentMsg := mkUTXOSpent {
  us_OutpointHash : Hash;
  us_OutpointIndex : Z;
  us_AmountSat : Z;
  us_BlockHeight : Z;
  us_Classification : string;
}.

Record SweepInput := mkSweepInput { si_Outpoint : OutPoint; si_AmountSat : Z }.

Record BoardingSweepConfirmedMsg := mkBoardingSweep {
  Txid : Hash;
  bs_BlockHeight : Z;
  ChainCostSat : Z;
  Inputs : list SweepInput;
  DestinationSat : Z;
  DestinationExternal : bool;
}.

Inductive LedgerMsg :=
| RestartMessage
| MsgFeePaid (m : FeePaidMsg)
| MsgVTXOReceived (m : VTXOReceivedMsg)
| MsgVTXOSent (m : VTXOSentMsg)
| MsgExitCost (m : ExitCostMsg)
| MsgUTXOCreated (m : UTXOCreatedMsg)
| MsgUTXOSpent (m : UTXOSpentMsg)
| MsgBoardingSweepConfirmed (m : BoardingSweepConfirmedMsg).

(** Zero identifiers are stored as NULL. *)
Definition roundIDOrNil (id : N) : option N := if (id =? 0)%N then None else Some id.
Definition sessionIDOrNil (id : N) : option N := if (id =? 0)%N then None else Some id.

(** ** Identity keys *)

Definition ledgerIdempotencyVersion : string := "ledger:v1:".
Definition operationSend : string := "send".
Definition operationRoundRefresh : string := "round_refresh".
Definition operationUnilateralExit : string := "unilateral_exit".
Definition legSend : string := "send".
Definition legSpend : string := "spend".
Definition legFee : string := "fee".
Definition legProceeds : string := "proceeds".

Definition outpointIdempotencyPayload (hash : Hash) (index : Z) : list Z :=
  hash_bytes hash ++ be_bytes 4 index.

Definition ledgerIdempotencyKey (operation leg : string) (payload : list Z) : list Z :=
  str_bytes (ledgerIdempotencyVersion +:+ operation +:+ ":" +:+ leg +:+ ":") ++ payload.

Definition refreshSendIdempotencyKey (hash : Hash) (index : Z) : list Z :=
  ledgerIdempotencyKey operationRoundRefresh legSend (outpointIdempotencyPayload hash index).
Definition exitSendIdempotencyKey (hash : Hash) (index : Z) : list Z :=
  ledgerIdempotencyKey operationUnilateralExit legSend (outpointIdempotencyPayload hash index).
Definition exitProceedsIdempotencyKey (hash : Hash) (index : Z) : list Z :=
  ledgerIdempotencyKey operationUnilateralExit legProceeds
    (outpointIdempotencyPayload hash index).
Definition exitFeeIdempotencyKey (hash : Hash) (index : Z) : list Z :=
  ledgerIdempotencyKey operationUnilateralExit legFee (outpointIdempotencyPayload hash index).
Definition sendProceedsIdempotencyKey (sendKey : list Z) : list Z :=
  ledgerIdempotencyKey operationSend legProceeds sendKey.
Definition walletUTXOIdempotencyKey (hash : Hash) (index : Z) : list Z :=
  outpointIdempotencyPayload hash index.
Definition classifiedUTXOIdempotencyKey (classification : string) (hash : Hash) (index : Z) :
    list Z :=
  ledgerIdempotencyKey classification legSpend (outpointIdempotencyPayload hash index).

Definition GetConfirmedExitCost (db : LedgerDB) (o : OutPoint) : Z :=
  total (filter (λ e, EventType e = EventOnchainFeePaid ∧
           e_IdempotencyKey e = exitFeeIdempotencyKey (op_Hash o) (op_Index o))
    (ledger_entries db)).

(** ** Handlers

    [now] is the clock of the turn, [audit] whether the audit store is
    configured.  A handler refuses its message, consumes it without a
    transaction, or commits one. *)

Definition turn : Type := LedgerDB → list bool → result lerr unit * LedgerDB.
Definition fail (e : lerr) : turn := λ db _, (Err e, db).
Definition consume : turn := λ db _, (Ok tt, db).
Definition commit (body : LTx unit) : turn := Commit body.

Definition feeDescription (msg : FeePaidMsg) : string :=
  FeeType msg +:+ " fee paid in round " +:+ hex (be_bytes 16 (Z.of_N (fp_RoundID msg))).

(** The row of a fee, by its type. *)
Definition feeEntry (now : Z) (msg : FeePaidMsg) : result lerr LedgerEntry :=
  let entry event debit credit round key description :=
    Ok (mkLedgerEntry debit credit (fp_AmountSat msg) round None event description now key
      None None None) in
  if bool_decide (FeeType msg = FeeTypeBoarding)
  then entry EventBoardingFeePaid AccountFeesPaid AccountWalletBalance
         (roundIDOrNil (fp_RoundID msg)) [] (feeDescription msg)
  else if bool_decide (FeeType msg = FeeTypeRefresh)
  then entry EventRefreshFeePaid AccountFeesPaid AccountVTXOBalance
         (roundIDOrNil (fp_RoundID msg)) [] (feeDescription msg)
  else if bool_decide (FeeType msg = FeeTypeOnchainSweep)
  then
    if negb (bool_decide (length (fp_IdempotencyKey msg) = 32%nat))
    then Err (ErrInvalidMessage "FeePaidMsg onchain-sweep idempotency_key must be 32 bytes")
    else entry EventBoardingSweepFeePaid AccountOnchainFees AccountWalletClearing
           None (fp_IdempotencyKey msg) "boarding-sweep on-chain cost"
  else Err (ErrInvalidMessage ("unknown fee type " +:+ FeeType msg)).

Definition handleFeePaid (now : Z) (msg : FeePaidMsg) : turn :=
  if fp_AmountSat msg <=? 0
  then fail (ErrInvalidMessage ("FeePaidMsg amount_sat must be positive (got " +:+
         dec (fp_AmountSat msg) +:+ ")"))
  else
    match feeEntry now msg with
    | Err e => fail e
    | Ok entry => commit (InsertLedgerEntry entry)
    end.

(** The account a receipt is credited to, by its source. *)
Definition receiveCredit (source : string) : option string :=
  if bool_decide (source = SourceOOR) then Some AccountTransfersIn
  else if bool_decide (source = SourceRoundTransfer) then Some AccountTransfersIn
  else if bool_decide (source = SourceRoundBoarding) then Some AccountWalletBalance
  else if bool_decide (source = SourceOORSelfChange) then Some AccountTransfersOut
  else if bool_decide (source = SourceRoundRefresh) then Some AccountTransfersOut
  else None.

(** The closure [classify]: [None] to skip, or the source and the credited
    account to book. *)
Definition classify (msg : VTXOReceivedMsg) (credit : string) : LTx (option (string * string)) :=
  tx* booked := lwrapped "look up booked receive: "
    (HasEntryForKey (walletUTXOIdempotencyKey (vr_OutpointHash msg) (vr_OutpointIndex msg))
       EventVTXOReceived) in
  if booked : bool then lret None
  else if negb (bool_decide (Source msg = SourceOOR)) || (vr_SessionID msg =? 0)%N
  then lret (Some (Source msg, credit))
  else
    tx* sent := lwrapped "classify OOR receive: "
      (HasSessionEntry (vr_SessionID msg) EventVTXOSent AccountTransfersOut
         AccountVTXOBalance) in
    lret (Some (if sent : bool then (SourceOORSelfChange, AccountTransfersOut)
                else (Source msg, credit))).

Definition handleVTXOReceived (now : Z) (msg : VTXOReceivedMsg) : turn :=
  let hash := vr_OutpointHash msg in
  let index := vr_OutpointIndex msg in
  if vr_AmountSat msg <=? 0
  then fail (ErrInvalidMessage ("VTXOReceivedMsg amount_sat must be positive (got " +:+
         dec (vr_AmountSat msg) +:+ ")"))
  else
    match receiveCredit (Source msg) with
    | None => fail (ErrInvalidMessage ("unknown vtxo source " +:+ Source msg))
    | Some credit =>
        commit (
          tx* booking := classify msg credit in
          match booking with
          | None => lret tt
          | Some (source, credit) =>
              InsertLedgerEntry (mkLedgerEntry AccountVTXOBalance credit (vr_AmountSat msg)
                (roundIDOrNil (vr_RoundID msg)) None EventVTXOReceived
                ("VTXO received via " +:+ source +:+ ": " +:+ raw_outpoint hash index)
                now (walletUTXOIdempotencyKey hash index) (Some hash) (Some (int32 index)) None)
          end)
    end.

(** The key of a send: the caller's, or one derived from the outpoint. *)
Definition sendKey (msg : VTXOSentMsg) : list Z :=
  if negb (bool_decide (vs_IdempotencyKey msg = [])) then vs_IdempotencyKey msg
  else if negb (op_Hash (vs_Outpoint msg) =? 0)%N
  then refreshSendIdempotencyKey (op_Hash (vs_Outpoint msg)) (op_Index (vs_Outpoint msg))
  else [].

Definition sendLegs (now : Z) (msg : VTXOSentMsg) : LedgerEntry * option LedgerEntry :=
  let sessionID := sessionIDOrNil (vs_SessionID msg) in
  let roundID := roundIDOrNil (vs_RoundID msg) in
  let description :=
    if bool_decide (is_Some sessionID)
    then "VTXO sent in OOR session " +:+ hex (be_bytes 32 (Z.of_N (vs_SessionID msg)))
    else "VTXO sent in round " +:+ hex (be_bytes 16 (Z.of_N (vs_RoundID msg))) in
  (mkLedgerEntry AccountTransfersOut AccountVTXOBalance (vs_AmountSat msg) roundID sessionID
     EventVTXOSent description now (sendKey msg) None None None,
   if ProceedsOwnWallet msg
   then Some (mkLedgerEntry AccountWalletBalance AccountTransfersOut (vs_AmountSat msg)
     roundID sessionID EventVTXOSent (description +:+ " (own-wallet proceeds)") now
     (sendProceedsIdempotencyKey (sendKey msg)) None None None)
   else None).

(** An optional leg. *)
Definition WhenSome (leg : option LedgerEntry) : LTx unit :=
  match leg with Some e => InsertLedgerEntry e | None => lret tt end.

Definition handleVTXOSent (now : Z) (msg : VTXOSentMsg) : turn :=
  if vs_AmountSat msg <=? 0
  then fail (ErrInvalidMessage ("VTXOSentMsg amount_sat must be positive (got " +:+
         dec (vs_AmountSat msg) +:+ ")"))
  else
    match sessionIDOrNil (vs_SessionID msg), roundIDOrNil (vs_RoundID msg) with
    | None, None =>
        fail (ErrInvalidMessage
          "VTXOSentMsg requires one of SessionID or RoundID to be non-zero")
    | Some _, Some _ =>
        fail (ErrInvalidMessage "VTXOSentMsg cannot set both SessionID and RoundID")
    | _, _ =>
        if ProceedsOwnWallet msg && bool_decide (sendKey msg = [])
        then fail (ErrInvalidMessage
          "VTXOSentMsg sets proceeds_own_wallet without an idempotency key")
        else
          let '(entry, proceedsLeg) := sendLegs now msg in
          commit (
            then* lwrapped "send leg: " (InsertLedgerEntry entry) in
            lwrapped "send proceeds leg: " (WhenSome proceedsLeg))
    end.

(** The legs of an exit.  The two amounts are positive and the cost is the
    smaller, so the subtraction stays in range. *)
Definition exitLegs (now : Z) (msg : ExitCostMsg) :
    LedgerEntry * LedgerEntry * option LedgerEntry :=
  let hash := ec_OutpointHash msg in
  let index := ec_OutpointIndex msg in
  let netAmount := ec_AmountSat msg - ExitCostSat msg in
  let at_height := raw_outpoint hash index +:+ " at height " +:+ dec (ec_BlockHeight msg) in
  let leg debit credit amount event description key :=
    mkLedgerEntry debit credit amount None None event description now key
      (Some hash) (Some (int32 index)) (Some (int32 (ec_BlockHeight msg))) in
  (leg AccountTransfersOut AccountVTXOBalance netAmount EventVTXOSent
     ("unilateral exit net value for " +:+ at_height) (exitSendIdempotencyKey hash index),
   leg AccountOnchainFees AccountVTXOBalance (ExitCostSat msg) EventOnchainFeePaid
     ("exit cost for " +:+ at_height) (exitFeeIdempotencyKey hash index),
   if DestinationOwnWallet msg
   then Some (leg AccountWalletBalance AccountTransfersOut netAmount EventVTXOSent
     ("unilateral exit proceeds to own wallet for " +:+ at_height)
     (exitProceedsIdempotencyKey hash index))
   else None).

Definition handleExitCost (now : Z) (msg : ExitCostMsg) : turn :=
  if (ExitCostSat msg <=? 0) || (ec_AmountSat msg <=? 0)
  then fail (ErrInvalidMessage "exit cost requires positive amount_sat and exit_cost_sat")
  else if ec_AmountSat msg <=? ExitCostSat msg
  then fail (ErrInvalidMessage "exit cost exceeds or equals VTXO amount")
  else
    let '(sendLeg, feeLeg, proceedsLeg) := exitLegs now msg in
    commit (
      then* lwrapped "exit send leg: " (InsertLedgerEntry sendLeg) in
      then* lwrapped "exit fee leg: " (InsertLedgerEntry feeLeg) in
      lwrapped "exit proceeds leg: " (WhenSome proceedsLeg)).

(** *** Recycled proceeds *)

Definition reversalEntry `{ChainText} (outpoint : OutPoint) (amountSat blockHeight now : Z) : LedgerEntry :=
  mkLedgerEntry AccountOpeningBalance AccountWalletBalance amountSat None None
    EventWalletUTXOSpent
    ("wallet UTXO spent at " +:+ OutPoint_String outpoint +:+ " (classification " +:+
       ClassificationDepositFunding +:+ ") at height " +:+ dec blockHeight)
    now
    (classifiedUTXOIdempotencyKey ClassificationDepositFunding
       (op_Hash outpoint) (op_Index outpoint))
    (Some (op_Hash outpoint)) (Some (int32 (op_Index outpoint))) (Some blockHeight).

Definition bookProceedsReversal `{ChainText} (outpoint : OutPoint) (amountSat blockHeight now : Z) :
    LTx unit :=
  then* lwrapped "audit funding spend: "
    (InsertUTXOAuditEntry (mkAudit outpoint amountSat "spent" blockHeight
       ClassificationDepositFunding now)) in
  InsertLedgerEntry (reversalEntry outpoint amountSat blockHeight now).

(** The loop of [bookDepositFunding]. *)
Fixpoint bookDepositFunding `{ChainText} (deposit : OutPoint) (blockHeight now : Z)
    (inputs : list OutPoint) : LTx unit :=
  match inputs with
  | [] => lret tt
  | input :: inputs =>
      then* lwrapped "record funding input: " (InsertDepositFundingInput input deposit) in
      tx* created := lwrapped "look up funding input: " (LookupCreatedUTXO input) in
      match created with
      | Some created =>
          if IsOwnWalletProceeds (ClassifiedAs created)
          then
            then* bookProceedsReversal input (u_AmountSat created) (int32 blockHeight) now in
            bookDepositFunding deposit blockHeight now inputs
          else bookDepositFunding deposit blockHeight now inputs
      | None => bookDepositFunding deposit blockHeight now inputs
      end
  end.

Definition reverseIfDepositFunded `{ChainText} (outpoint : OutPoint) (amountSat now : Z) : LTx unit :=
  tx* deposits := lwrapped "look up deposit funding: " (DepositsFundedByInput outpoint) in
  match deposits with
  | [] => lret tt
  | first :: _ =>
      tx* deposit := lwrapped "look up deposit: " (LookupCreatedUTXO first) in
      match deposit with
      | None => lthrow (ErrStore "deposit has no audit row")
      | Some deposit => bookProceedsReversal outpoint amountSat (u_BlockHeight deposit) now
      end
  end.

(** *** Wallet outputs *)

Definition createdEntry (now : Z) (msg : UTXOCreatedMsg) : LedgerEntry :=
  let hash := uc_OutpointHash msg in
  let index := uc_OutpointIndex msg in
  mkLedgerEntry AccountWalletBalance
    (if bool_decide (uc_Classification msg = ClassificationBoardingSweepReturn)
     then AccountWalletClearing else AccountOpeningBalance)
    (uc_AmountSat msg) None None EventWalletUTXOCreated
    ("wallet UTXO confirmed at " +:+ raw_outpoint hash index +:+ " (classification " +:+
       uc_Classification msg +:+ ") at height " +:+ dec (uc_BlockHeight msg))
    now (walletUTXOIdempotencyKey hash index)
    (Some hash) (Some (int32 index)) (Some (int32 (uc_BlockHeight msg))).

Definition handleUTXOCreated `{ChainText} (audit : bool) (now : Z) (msg : UTXOCreatedMsg) : turn :=
  let outpoint := mkOutPoint (uc_OutpointHash msg) (uc_OutpointIndex msg) in
  if negb audit then consume
  else if uc_AmountSat msg <=? 0
  then fail (ErrInvalidMessage ("UTXOCreatedMsg amount_sat must be positive (got " +:+
         dec (uc_AmountSat msg) +:+ ")"))
  else commit (
    then* InsertUTXOAuditEntry (mkAudit outpoint (uc_AmountSat msg) "created"
            (int32 (uc_BlockHeight msg)) (uc_Classification msg) now) in
    then* (if negb (creditAlreadyBooked (uc_Classification msg))
           then InsertLedgerEntry (createdEntry now msg) else lret tt) in
    if bool_decide (uc_Classification msg = ClassificationDeposit)
    then bookDepositFunding outpoint (uc_BlockHeight msg) now (FundingInputs msg)
    else if IsOwnWalletProceeds (uc_Classification msg)
    then reverseIfDepositFunded outpoint (uc_AmountSat msg) now
    else lret tt).

(** The row of a boarding input a sweep spent; [at_] is its outpoint as the
    caller formats it. *)
Definition sweepInputEntry (now : Z) (at_ : string) (o : OutPoint) (amountSat height : Z) :
    LedgerEntry :=
  mkLedgerEntry AccountWalletClearing AccountWalletBalance amountSat None None
    EventWalletUTXOSpent
    ("wallet UTXO spent at " +:+ at_ +:+ " (classification " +:+
       ClassificationBoardingSweepInput +:+ ") at height " +:+ dec height)
    now (walletUTXOIdempotencyKey (op_Hash o) (op_Index o))
    (Some (op_Hash o)) (Some (int32 (op_Index o))) (Some (int32 height)).

Definition handleUTXOSpent (audit : bool) (now : Z) (msg : UTXOSpentMsg) : turn :=
  let outpoint := mkOutPoint (us_OutpointHash msg) (us_OutpointIndex msg) in
  let row := mkAudit outpoint (us_AmountSat msg) "spent" (int32 (us_BlockHeight msg))
               (us_Classification msg) now in
  if negb audit then consume
  else if bool_decide (us_Classification msg = ClassificationBoardingSweepInput)
  then
    if us_AmountSat msg <=? 0
    then fail (ErrInvalidMessage ("UTXOSpentMsg amount_sat must be positive (got " +:+
           dec (us_AmountSat msg) +:+ ")"))
    else commit (
      then* InsertUTXOAuditEntry row in
      InsertLedgerEntry (sweepInputEntry now
        (raw_outpoint (us_OutpointHash msg) (us_OutpointIndex msg))
        outpoint (us_AmountSat msg) (us_BlockHeight msg)))
  else commit (InsertUTXOAuditEntry row).

(** *** Boarding sweeps *)

Definition sweepLeg : Type := option UTXOAuditEntry * LedgerEntry.

(** The hash of an input is formatted with [%x] from a type with a [String]
    method. *)
Definition sweepInputLeg `{ChainText} (now : Z) (msg : BoardingSweepConfirmedMsg) (i : SweepInput) :
    sweepLeg :=
  (Some (mkAudit (si_Outpoint i) (si_AmountSat i) "spent" (int32 (bs_BlockHeight msg))
     ClassificationBoardingSweepInput now),
   sweepInputEntry now
     (hex_String (op_Hash (si_Outpoint i)) +:+ ":" +:+ dec (op_Index (si_Outpoint i)))
     (si_Outpoint i) (si_AmountSat i) (bs_BlockHeight msg)).

Definition sweepFeeEntry (now : Z) (msg : BoardingSweepConfirmedMsg) : LedgerEntry :=
  mkLedgerEntry AccountOnchainFees AccountWalletClearing (ChainCostSat msg) None None
    EventBoardingSweepFeePaid "boarding-sweep on-chain cost" now (hash_bytes (Txid msg))
    None None None.

Definition sweepTransferEntry (now : Z) (msg : BoardingSweepConfirmedMsg) : LedgerEntry :=
  mkLedgerEntry AccountTransfersOut AccountWalletClearing (DestinationSat msg) None None
    EventWalletSweepTransfer
    ("wallet sweep external transfer for txid " +:+ hex (hash_bytes (Txid msg)) +:+
       " at height " +:+ dec (bs_BlockHeight msg))
    now (str_bytes "wallet-sweep:" ++ hash_bytes (Txid msg))
    (Some (Txid msg)) None (Some (int32 (bs_BlockHeight msg))).

Definition sweepReturnLeg (now : Z) (msg : BoardingSweepConfirmedMsg) : sweepLeg :=
  (Some (mkAudit (mkOutPoint (Txid msg) 0) (DestinationSat msg) "created"
     (int32 (bs_BlockHeight msg)) ClassificationBoardingSweepReturn now),
   mkLedgerEntry AccountWalletBalance AccountWalletClearing (DestinationSat msg) None None
     EventWalletUTXOCreated
     ("wallet UTXO confirmed at " +:+ raw_outpoint (Txid msg) 0 +:+ " (classification " +:+
        ClassificationBoardingSweepReturn +:+ ") at height " +:+ dec (bs_BlockHeight msg))
     now (walletUTXOIdempotencyKey (Txid msg) 0)
     (Some (Txid msg)) (Some 0) (Some (int32 (bs_BlockHeight msg)))).

Definition boardingSweepLegs `{ChainText} (now : Z) (msg : BoardingSweepConfirmedMsg) : list sweepLeg :=
  (None, sweepFeeEntry now msg) :: (sweepInputLeg now msg <$> Inputs msg) ++
  [if DestinationExternal msg then (None, sweepTransferEntry now msg)
   else sweepReturnLeg now msg].

Fixpoint insertLegs (audit : bool) (legs : list sweepLeg) : LTx unit :=
  match legs with
  | [] => lret tt
  | (row, entry) :: legs =>
      then* match row with
            | Some u => if audit then InsertUTXOAuditEntry u else lret tt
            | None => lret tt
            end in
      then* InsertLedgerEntry entry in
      insertLegs audit legs
  end.

Definition handleBoardingSweepConfirmed `{ChainText} (audit : bool) (now : Z)
    (msg : BoardingSweepConfirmedMsg) : turn :=
  if ChainCostSat msg <=? 0
  then fail (ErrInvalidMessage "BoardingSweepConfirmedMsg chain_cost_sat must be positive")
  else if DestinationSat msg <=? 0
  then fail (ErrInvalidMessage "BoardingSweepConfirmedMsg destination_sat must be positive")
  else if bool_decide (Inputs msg = [])
  then fail (ErrInvalidMessage "BoardingSweepConfirmedMsg must carry at least one input")
  else if existsb (λ i, si_AmountSat i <=? 0) (Inputs msg)
  then fail (ErrInvalidMessage "BoardingSweepConfirmedMsg input amount_sat must be positive")
  else commit (
    then* insertLegs audit (boardingSweepLegs now msg) in
    if DestinationExternal msg || negb audit then lret tt
    else reverseIfDepositFunded (mkOutPoint (Txid msg) 0) (DestinationSat msg) now).

(** ** The actor *)

Definition Receive `{ChainText} (audit : bool) (now : Z) (msg : LedgerMsg) : turn :=
  match msg with
  | RestartMessage => consume
  | MsgFeePaid m => handleFeePaid now m
  | MsgVTXOReceived m => handleVTXOReceived now m
  | MsgVTXOSent m => handleVTXOSent now m
  | MsgExitCost m => handleExitCost now m
  | MsgUTXOCreated m => handleUTXOCreated audit now m
  | MsgUTXOSpent m => handleUTXOSpent audit now m
  | MsgBoardingSweepConfirmed m => handleBoardingSweepConfirmed audit now m
  end.

(** The runtime's policy: up to five attempts, the delay in seconds. *)
Definition DefaultTellRetryPolicy (e : lerr) (attempts : nat) : bool * Z :=
  if (5 <=? attempts)%nat then (false, 0)
  else (true, Z.min (Z.shiftl 1 (Z.of_nat attempts)) 60).

(** Whether a failed turn is tried again, and when. *)
Definition ledgerTellRetryPolicy (e : lerr) (attempts : nat) : bool * Z :=
  match e with
  | ErrInvalidMessage _ | ErrIdempotencyConflict _ => (false, 0)
  | ErrStore _ => DefaultTellRetryPolicy e attempts
  end.

(** ** Bytes of numbers *)

Lemma be_bytes_S n z : be_bytes (S n) z = (z / 256 ^ Z.of_nat n) mod 256 :: be_bytes n z.
Proof. unfold be_bytes. rewrite seq_S, reverse_app. done. Qed.

Lemma be_bytes_length n z : length (be_bytes n z) = n.
Proof. unfold be_bytes. by rewrite length_fmap, length_reverse, length_seq. Qed.
