(* ===== verification/LedgerSafety.v ===== *)
(** * What the ledger guarantees

    Theorems about [Ledger.v]: a program logic for transactions, the invariant of
    the tables, and what follows for errors, redelivery, recycled proceeds and
    balances. *)

From S2P Require Import Prelude RecoveryProof Ledger.
Local Open Scope Z_scope.

Section Transactions.
Context {T : ChainText}.

(** ** A logic for transactions

    [lwp calm m Q db]: run on [db], [m] either returns a value and tables in [Q] or
    fails with an error it may fail with.  No transaction reports an invalid
    message; a calm one, run without faults, can only report a conflict. *)

Definition allowed (calm : bool) (e : lerr) : Prop :=
  match e with
  | ErrInvalidMessage _ => False
  | ErrIdempotencyConflict _ => True
  | ErrStore _ => calm = false
  end.

Definition lwp {A} (calm : bool) (m : LTx A) (Q : A → LedgerDB → Prop) (db : LedgerDB) : Prop :=
  ∀ faults, (calm = true → true ∉ faults) →
    match m (db, faults) with
    | (Ok a, (db', faults')) => (calm = true → true ∉ faults') ∧ Q a db'
    | (Err e, _) => allowed calm e
    end.

Lemma lwp_ret {A} calm (a : A) Q db : Q a db → lwp calm (lret a) Q db.
Proof. by intros HQ faults Hf. Qed.

Lemma lwp_bind {A B} calm (m : LTx A) (k : A → LTx B) Q db :
  lwp calm m (λ a, lwp calm (k a) Q) db → lwp calm (lbind m k) Q db.
Proof.
  intros Hm faults Hf. specialize (Hm faults Hf). unfold lbind.
  destruct (m (db, faults)) as [[a|e] [db' f']]; [|done].
  destruct Hm as [Hf' Hk]. exact (Hk f' Hf').
Qed.

Lemma lwp_wrapped {A} calm prefix (m : LTx A) Q db :
  lwp calm m Q db → lwp calm (lwrapped prefix m) Q db.
Proof.
  intros Hm faults Hf. specialize (Hm faults Hf). unfold lwrapped.
  destruct (m (db, faults)) as [[a|[]] [db' f']]; done.
Qed.

Lemma lwp_mono {A} calm (m : LTx A) (Q Q' : A → LedgerDB → Prop) db :
  lwp calm m Q db → (∀ a db', Q a db' → Q' a db') → lwp calm m Q' db.
Proof.
  intros Hm HQ faults Hf. specialize (Hm faults Hf).
  destruct (m (db, faults)) as [[a|e] [db' f']]; [|done]. naive_solver.
Qed.

Lemma lwp_access {A} calm (f : LedgerDB → result lerr A * LedgerDB) Q db :
  match f db with (Ok a, db') => Q a db' | (Err e, _) => allowed calm e end →
  lwp calm (access f) Q db.
Proof.
  intros Hf faults Hcalm. unfold access.
  destruct faults as [|[] faults].
  - destruct (f db) as [[a|e] db']; done.
  - destruct calm; [|done]. destruct (Hcalm eq_refl). left.
  - destruct (f db) as [[a|e] db']; [|done]. split; [|done].
    intros Hc Hin. apply (Hcalm Hc). by right.
Qed.

(** *** Rows *)

Lemma same_leg_spec a b :
  same_leg a b = true ↔ EventType a = EventType b ∧ DebitAccount a = DebitAccount b ∧
    CreditAccount a = CreditAccount b.
Proof. unfold same_leg. rewrite !andb_true_iff, !bool_decide_eq_true. tauto. Qed.

Lemma same_key_spec e r :
  same_key e r = true ↔ e_IdempotencyKey e ≠ [] ∧
    e_IdempotencyKey r = e_IdempotencyKey e ∧ same_leg r e = true.
Proof.
  unfold same_key. rewrite !andb_true_iff, negb_true_iff, bool_decide_eq_true,
    bool_decide_eq_false. tauto.
Qed.

Lemma same_session_spec e r :
  same_session e r = true ↔ is_Some (e_SessionID e) ∧
    e_SessionID r = e_SessionID e ∧ same_leg r e = true.
Proof. unfold same_session. rewrite !andb_true_iff, !bool_decide_eq_true. tauto. Qed.

Lemma same_round_spec e r :
  same_round e r = true ↔ is_Some (e_RoundID e) ∧ e_IdempotencyKey e = [] ∧
    e_IdempotencyKey r = [] ∧ e_RoundID r = e_RoundID e ∧ same_leg r e = true.
Proof. unfold same_round. rewrite !andb_true_iff, !bool_decide_eq_true. tauto. Qed.

Lemma same_identity_spec e r :
  same_identity e r = true ↔
    same_key e r = true ∨ same_session e r = true ∨ same_round e r = true.
Proof. unfold same_identity. rewrite !orb_true_iff. tauto. Qed.

(** The payload of a row fixes its identity. *)
Lemma ledgerPayloadEqual_spec a b :
  ledgerPayloadEqual a b = true ↔ a = mkLedgerEntry (DebitAccount b) (CreditAccount b)
    (e_AmountSat b) (e_RoundID b) (e_SessionID b) (EventType b) (Description b) (CreatedAt a)
    (e_IdempotencyKey b) (ChainTxid b) (ChainVout b) (ConfirmationHeight b).
Proof.
  unfold ledgerPayloadEqual. rewrite !andb_true_iff, !bool_decide_eq_true.
  destruct a, b; simpl. split; [naive_solver | intros [= ]; naive_solver].
Qed.

Lemma same_leg_sym a b : same_leg a b = same_leg b a.
Proof. apply eq_true_iff_eq. rewrite !same_leg_spec. naive_solver. Qed.

Lemma same_identity_sym a b : same_identity a b = same_identity b a.
Proof.
  apply eq_true_iff_eq.
  rewrite !same_identity_spec, !same_key_spec, !same_session_spec, !same_round_spec.
  rewrite (same_leg_sym a b).
  split; intros [(?&Hk&?)|[(?&Hk&?)|(?&?&?&Hk&?)]]; rewrite ?Hk; repeat split_and; try tauto.
  all: rewrite Hk in *; tauto.
Qed.

Lemma hasIdentity_self e : hasIdentity e = true ↔ same_identity e e = true.
Proof.
  rewrite same_identity_spec, same_key_spec, same_session_spec, same_round_spec.
  assert (same_leg e e = true) as Hl by by apply same_leg_spec.
  unfold hasIdentity. rewrite !orb_true_iff, negb_true_iff, !bool_decide_eq_true,
    bool_decide_eq_false.
  destruct (decide (e_IdempotencyKey e = [])); tauto.
Qed.

(** Whether a row with the identity of [e] is booked. *)
Definition covered (rows : list LedgerEntry) (e : LedgerEntry) : bool :=
  existsb (same_identity e) rows.

Lemma covered_spec rows e :
  covered rows e = true ↔ ∃ r, r ∈ rows ∧ same_identity e r = true.
Proof. unfold covered. rewrite existsb_exists. by setoid_rewrite <- list_elem_of_In. Qed.

Lemma insert_covered rows e : covered rows e = true → insert_row rows e = rows.
Proof. unfold insert_row. fold (covered rows e). by intros ->. Qed.

Lemma insert_fresh rows e : covered rows e = false → insert_row rows e = rows ++ [e].
Proof. unfold insert_row. fold (covered rows e). by intros ->. Qed.

Lemma insert_prefix rows e : rows `prefix_of` insert_row rows e.
Proof.
  destruct (covered rows e) eqn:Hc; [by rewrite insert_covered | rewrite insert_fresh by done].
  by exists [e].
Qed.

Lemma insert_elem rows e r : r ∈ insert_row rows e → r ∈ rows ∨ r = e.
Proof.
  destruct (covered rows e) eqn:Hc; [rewrite insert_covered by done; auto |].
  rewrite insert_fresh by done. rewrite elem_of_app, list_elem_of_singleton. tauto.
Qed.

(** What a lookup by an index found is compared: a replay that succeeds has every
    row of its identity, with its payload. *)
Lemma winners_spec rows e w :
  w ∈ winners rows e → w ∈ rows ∧ same_identity e w = true.
Proof.
  unfold winners. rewrite list_elem_of_omap. intros (o & Ho & Hw). simpl in Hw. subst o.
  rewrite !elem_of_cons, elem_of_nil in Ho. rewrite same_identity_spec.
  destruct Ho as [Ho|[Ho|[Ho|[]]]]; symmetry in Ho; apply find_some in Ho as [Hin Hs];
    apply list_elem_of_In in Hin; auto.
Qed.

Lemma winners_nil rows e : winners rows e = [] → covered rows e = false.
Proof.
  unfold winners, covered, same_identity. intros Hw.
  apply not_true_iff_false. rewrite existsb_exists. intros (r & Hin & Hr).
  rewrite !orb_true_iff in Hr. simpl in Hw.
  destruct (find (same_key e) rows) eqn:H1; [done|].
  destruct (find (same_session e) rows) eqn:H2; [done|].
  destruct (find (same_round e) rows) eqn:H3; [done|].
  pose proof (find_none _ _ H1 r Hin). pose proof (find_none _ _ H2 r Hin).
  pose proof (find_none _ _ H3 r Hin). naive_solver congruence.
Qed.

(** An accepted insert leaves a row with the payload of the entry. *)
Lemma insert_accepted rows e :
  verifyLedgerEntryReplay (insert_row rows e) e = Ok tt →
  (hasIdentity e = true → covered (insert_row rows e) e = true) ∧
  ∃ r, r ∈ insert_row rows e ∧ ledgerPayloadEqual r e = true.
Proof.
  unfold verifyLedgerEntryReplay. destruct (hasIdentity e) eqn:Hi; simpl.
  - destruct (winners _ e) as [|w ws] eqn:Hw; [done|].
    assert (w ∈ winners (insert_row rows e) e) as Hin by (rewrite Hw; left).
    apply winners_spec in Hin as [Hin Hs].
    simpl. destruct (ledgerPayloadEqual w e) eqn:Heq; [intros _ | done].
    split; [intros _; apply covered_spec; eauto | eauto].
  - intros _. split; [done|].
    assert (covered rows e = false) as Hc.
    { apply not_true_iff_false. rewrite covered_spec. intros (r & _ & Hr).
      assert (same_identity e e = true); [|by apply hasIdentity_self in H; congruence].
      revert Hr. rewrite !same_identity_spec, !same_key_spec, !same_session_spec,
        !same_round_spec.
      assert (same_leg e e = true) as -> by by apply same_leg_spec. naive_solver. }
    exists e. rewrite (insert_fresh _ _ Hc). split; [set_solver|].
    apply ledgerPayloadEqual_spec. by destruct e.
Qed.


(** *** Store operations *)

Lemma lwp_insert calm e Q db :
  (calm = true → row_ok e = true) →
  (row_ok e = true → verifyLedgerEntryReplay (insert_row (ledger_entries db) e) e = Ok tt →
   Q tt (set_entries db (insert_row (ledger_entries db) e))) →
  lwp calm (InsertLedgerEntry e) Q db.
Proof.
  intros Hok HQ. apply lwp_access. destruct (row_ok e) eqn:Hr; simpl.
  - specialize (HQ eq_refl). destruct (verifyLedgerEntryReplay _ e) as [[]|err] eqn:Hv;
      [by apply HQ|].
    revert Hv. unfold verifyLedgerEntryReplay. destruct (negb (hasIdentity e)); [done|].
    destruct (winners _ _); [by intros [= <-]|].
    destruct (forallb _ _); [done | by intros [= <-]].
  - destruct calm; [by specialize (Hok eq_refl)|done].
Qed.

Lemma lwp_has_key calm key event (Q : bool → LedgerDB → Prop) db :
  (∀ b, b = true ↔ (∃ r, r ∈ ledger_entries db ∧ e_IdempotencyKey r ≠ [] ∧
                      e_IdempotencyKey r = key ∧ EventType r = event) → Q b db) →
  lwp calm (HasEntryForKey key event) Q db.
Proof.
  intros HQ. apply lwp_access. apply HQ. rewrite existsb_exists.
  setoid_rewrite <- list_elem_of_In. setoid_rewrite andb_true_iff.
  setoid_rewrite andb_true_iff. setoid_rewrite negb_true_iff.
  setoid_rewrite bool_decide_eq_true. setoid_rewrite bool_decide_eq_false. naive_solver.
Qed.

Lemma lwp_has_session calm sid event debit credit (Q : bool → LedgerDB → Prop) db :
  (∀ b, b = true ↔ (∃ r, r ∈ ledger_entries db ∧ e_SessionID r = Some sid ∧
                      EventType r = event ∧ DebitAccount r = debit ∧
                      CreditAccount r = credit) → Q b db) →
  lwp calm (HasSessionEntry sid event debit credit) Q db.
Proof.
  intros HQ. apply lwp_access. apply HQ. rewrite existsb_exists.
  setoid_rewrite <- list_elem_of_In. setoid_rewrite andb_true_iff.
  setoid_rewrite andb_true_iff. setoid_rewrite andb_true_iff.
  setoid_rewrite bool_decide_eq_true. naive_solver.
Qed.

(** The log after an insert, which keeps a row that is there. *)
Definition log_insert (u : UTXOAuditEntry) (db : LedgerDB) : LedgerDB :=
  let k := (column (u_Outpoint u), u_Event u) in
  if bool_decide (is_Some (wallet_utxo_log db !! k)) then db
  else mkLedgerDB (ledger_entries db) (<[k := u]> (wallet_utxo_log db)) (deposit_funding db).

Lemma lwp_audit calm u Q db :
  (calm = true → ClassifiedAs u ∈ utxo_classifications) → Q tt (log_insert u db) →
  lwp calm (InsertUTXOAuditEntry u) Q db.
Proof.
  intros Hc HQ. apply lwp_access. case_bool_decide; [|done].
  destruct calm; [naive_solver | done].
Qed.

Definition fund (input deposit : OutPoint) (db : LedgerDB) : LedgerDB :=
  mkLedgerDB (ledger_entries db) (wallet_utxo_log db)
    ({[(column input, column deposit)]} ∪ deposit_funding db).

Lemma lwp_fund calm input deposit Q db :
  Q tt (fund input deposit db) → lwp calm (InsertDepositFundingInput input deposit) Q db.
Proof. intros HQ. by apply lwp_access. Qed.

Lemma lwp_created calm o (Q : option UTXOAuditEntry → LedgerDB → Prop) db :
  Q (wallet_utxo_log db !! (column o, "created")) db → lwp calm (LookupCreatedUTXO o) Q db.
Proof. intros HQ. by apply lwp_access. Qed.

Lemma int32_uint32 z : int32 (uint32 z) = int32 z.
Proof.
  unfold int32, uint32. f_equal. rewrite Zplus_mod_idemp_l. done.
Qed.

Lemma column_from_column o : column (from_column (column o)) = column o.
Proof.
  unfold column, from_column. simpl. f_equal. rewrite int32_uint32.
  unfold int32. rewrite Z.sub_simpl_r, Z.mod_mod by done. done.
Qed.

(** The deposits of an input: those recorded, as they were stored. *)
Lemma lwp_deposits calm o (Q : list OutPoint → LedgerDB → Prop) db :
  (∀ ds, (∀ d, d ∈ ds ↔ ∃ c, (column o, c) ∈ deposit_funding db ∧ d = from_column c) → Q ds db) →
  lwp calm (DepositsFundedByInput o) Q db.
Proof.
  intros HQ. apply lwp_access. apply HQ. intros d. rewrite list_elem_of_fmap.
  setoid_rewrite (merge_sort_Permutation outpoint_le). setoid_rewrite list_elem_of_omap.
  setoid_rewrite elem_of_elements. split.
  - intros (c & -> & [p q] & Hin & Hc). simpl in Hc. case_bool_decide as Hp; [|done].
    injection Hc as ->. subst p. eauto.
  - intros (c & Hin & ->). exists c. split; [done|]. exists (column o, c). split; [done|].
    simpl. by rewrite bool_decide_true.
Qed.


(** ** Tables only grow *)

Definition extends (db db' : LedgerDB) : Prop :=
  ledger_entries db `prefix_of` ledger_entries db' ∧
  wallet_utxo_log db ⊆ wallet_utxo_log db' ∧ deposit_funding db ⊆ deposit_funding db'.

#[export] Instance extends_po : PreOrder extends.
Proof.
  split; [by intros db|]. intros a b c (?&?&?) (?&?&?).
  split_and!; [by etrans | by etrans | set_solver].
Qed.

Lemma extends_insert db e : extends db (set_entries db (insert_row (ledger_entries db) e)).
Proof. split_and!; [apply insert_prefix | done | done]. Qed.

Lemma extends_log u db : extends db (log_insert u db).
Proof.
  unfold log_insert. case_bool_decide as Hk; [done|].
  split_and!; [done | | done]. apply insert_subseteq. by apply eq_None_not_Some.
Qed.

Lemma extends_fund i d db : extends db (fund i d db).
Proof. split_and!; [done | done | set_solver]. Qed.

Lemma extends_rows db db' r : extends db db' → r ∈ ledger_entries db → r ∈ ledger_entries db'.
Proof. intros ([l ->] & _) Hr. apply elem_of_app. auto. Qed.

Lemma extends_covered db db' e :
  extends db db' → covered (ledger_entries db) e = true → covered (ledger_entries db') e = true.
Proof. rewrite !covered_spec. intros Hx (r & Hr & Hs). eauto using extends_rows. Qed.

Lemma extends_created db db' k u :
  extends db db' → wallet_utxo_log db !! k = Some u → wallet_utxo_log db' !! k = Some u.
Proof. intros (_ & Hl & _) Hk. by eapply lookup_weaken. Qed.

(** ** The invariant *)

Definition accounts : list string :=
  [AccountWalletBalance; AccountVTXOBalance; AccountFeesPaid; AccountOnchainFees;
   AccountTransfersIn; AccountTransfersOut; AccountOpeningBalance; AccountWalletClearing].

(** A row that takes back the credit of an own-wallet output: of any, or of the
    one at [p]. *)
Definition is_reversal (r : LedgerEntry) : Prop :=
  EventType r = EventWalletUTXOSpent ∧ DebitAccount r = AccountOpeningBalance.

Definition reverses (p : OutPoint) (r : LedgerEntry) : Prop :=
  is_reversal r ∧ CreditAccount r = AccountWalletBalance ∧
  e_IdempotencyKey r =
    classifiedUTXOIdempotencyKey ClassificationDepositFunding (op_Hash p) (op_Index p).

(** [pending] is the output whose reversal the running transaction may still have
    to book. *)
Record ledger_ok (pending : option OutPoint) (db : LedgerDB) : Prop := {
  ok_rows : ∀ r, r ∈ ledger_entries db →
    row_ok r = true ∧ DebitAccount r ∈ accounts ∧ CreditAccount r ∈ accounts;
  ok_unique : ∀ i j a b, ledger_entries db !! i = Some a → ledger_entries db !! j = Some b →
    same_identity a b = true → i = j;
  ok_receive : ∀ i j a b, ledger_entries db !! i = Some a → ledger_entries db !! j = Some b →
    EventType a = EventVTXOReceived → EventType b = EventVTXOReceived →
    e_IdempotencyKey a = e_IdempotencyKey b → i = j;
  ok_log : ∀ p u, wallet_utxo_log db !! (p, "created") = Some u → 0 < u_AmountSat u;
  ok_funded : ∀ p d, (p, d) ∈ deposit_funding db →
    column (from_column d) = d ∧ is_Some (wallet_utxo_log db !! (d, "created"));
  ok_recycled : ∀ p d u, pending ≠ Some p → (p, d) ∈ deposit_funding db →
    wallet_utxo_log db !! (p, "created") = Some u →
    IsOwnWalletProceeds (ClassifiedAs u) = true →
    ∃ r, r ∈ ledger_entries db ∧ reverses p r ∧ e_AmountSat r = u_AmountSat u;
  ok_reversal : ∀ r, r ∈ ledger_entries db → is_reversal r →
    ∃ p d, reverses p r ∧ (p, d) ∈ deposit_funding db;
}.

(** What the invariant asks of a new row. *)
Definition entry_ok (db : LedgerDB) (e : LedgerEntry) : Prop :=
  DebitAccount e ∈ accounts ∧ CreditAccount e ∈ accounts ∧
  (EventType e = EventVTXOReceived → ∀ r, r ∈ ledger_entries db →
     EventType r = EventVTXOReceived → e_IdempotencyKey r ≠ e_IdempotencyKey e) ∧
  (is_reversal e → ∃ p d, reverses p e ∧ (p, d) ∈ deposit_funding db).

(** Appending keeps a pairwise property of positions. *)
Lemma pairwise_snoc (R : LedgerEntry → LedgerEntry → Prop) rows e :
  (∀ i j a b, rows !! i = Some a → rows !! j = Some b → R a b → i = j) →
  (∀ r, r ∈ rows → ¬ R r e ∧ ¬ R e r) →
  ∀ i j a b, (rows ++ [e]) !! i = Some a → (rows ++ [e]) !! j = Some b → R a b → i = j.
Proof.
  intros Hrows He i j a b. rewrite !lookup_snoc_Some.
  intros [[Hi Ha]|[-> <-]] [[Hj Hb]|[-> <-]] HR; [by eapply Hrows | | | done].
  - apply list_elem_of_lookup_2, He in Ha. tauto.
  - apply list_elem_of_lookup_2, He in Hb. tauto.
Qed.

Lemma ledger_ok_insert pending db e :
  ledger_ok pending db → entry_ok db e → row_ok e = true →
  ledger_ok pending (set_entries db (insert_row (ledger_entries db) e)).
Proof.
  intros Hok (Hd & Hcr & Hrecv & Hrev) Hrow.
  destruct (covered (ledger_entries db) e) eqn:Hc.
  { rewrite insert_covered by done. by destruct db. }
  rewrite insert_fresh by done. destruct Hok as [H1 H2 H3 H4 H5 H6 H7].
  split; simpl; try done.
  - intros r. rewrite elem_of_app, list_elem_of_singleton. naive_solver.
  - apply pairwise_snoc; [done|]. intros r Hr. rewrite (same_identity_sym r e).
    rewrite not_true_iff_false. split; apply not_true_iff_false; intros Hs;
      apply not_true_iff_false in Hc; apply Hc, covered_spec; eauto.
  - intros i j a b Ha Hb Hea Heb Hk.
    refine (pairwise_snoc (λ a b, EventType a = EventVTXOReceived ∧
      EventType b = EventVTXOReceived ∧ e_IdempotencyKey a = e_IdempotencyKey b)
      (ledger_entries db) e _ _ i j a b Ha Hb _); [naive_solver | | done].
    intros r Hr. split; intros (?&?&?); by eapply (Hrecv _ r Hr).
  - intros p d u Hp Hpd Hu Hcl. destruct (H6 p d u Hp Hpd Hu Hcl) as (r & Hr & ?).
    exists r. split; [apply elem_of_app; auto | done].
  - intros r. rewrite elem_of_app, list_elem_of_singleton. naive_solver.
  Unshelve. all: done.
Qed.

Lemma log_insert_other u db k :
  k ≠ (column (u_Outpoint u), u_Event u) →
  wallet_utxo_log (log_insert u db) !! k = wallet_utxo_log db !! k.
Proof.
  intros Hk. unfold log_insert. case_bool_decide; [done|]. by apply lookup_insert_ne.
Qed.

Lemma log_insert_there u db :
  is_Some (wallet_utxo_log (log_insert u db) !! (column (u_Outpoint u), u_Event u)).
Proof.
  unfold log_insert. case_bool_decide; [done|]. simpl. rewrite lookup_insert_eq. eauto.
Qed.

Lemma log_insert_fresh u db :
  wallet_utxo_log db !! (column (u_Outpoint u), u_Event u) = None →
  wallet_utxo_log (log_insert u db) !! (column (u_Outpoint u), u_Event u) = Some u.
Proof.
  intros Hk. unfold log_insert. rewrite Hk, bool_decide_false by by intros [].
  apply lookup_insert_eq.
Qed.

Lemma log_insert_rows u db :
  ledger_entries (log_insert u db) = ledger_entries db ∧
  deposit_funding (log_insert u db) = deposit_funding db.
Proof. unfold log_insert. by case_bool_decide. Qed.

(** An output created, with a positive amount, may owe its reversal until the
    transaction has looked for one, unless it was logged before. *)
Definition owed (u : UTXOAuditEntry) (db : LedgerDB) : option OutPoint :=
  if bool_decide (is_Some (wallet_utxo_log db !! (column (u_Outpoint u), "created")))
  then None else Some (column (u_Outpoint u)).

Lemma ledger_ok_log db u :
  ledger_ok None db → u_Event u = "created" → 0 < u_AmountSat u →
  ledger_ok (owed u db) (log_insert u db).
Proof.
  intros Hok He Hpos. unfold log_insert, owed. rewrite He. case_bool_decide as Hk; [done|].
  destruct Hok as [H1 H2 H3 H4 H5 H6 H7]. split; simpl; try done.
  - intros p v. rewrite lookup_insert_Some. naive_solver.
  - intros p d Hpd. rewrite lookup_insert_is_Some'. naive_solver.
  - intros p d v Hp Hpd. rewrite lookup_insert_Some. naive_solver.
Qed.

(** A row of the log that owes nothing. *)
Lemma ledger_ok_log_plain pending db u :
  ledger_ok pending db → (u_Event u = "created" → 0 < u_AmountSat u) →
  u_Event u ≠ "created" ∨ IsOwnWalletProceeds (ClassifiedAs u) = false →
  ledger_ok pending (log_insert u db).
Proof.
  intros Hok Hpos Hplain. unfold log_insert. case_bool_decide as Hk; [done|].
  destruct Hok as [H1 H2 H3 H4 H5 H6 H7]. split; simpl; try done.
  - intros p v. rewrite lookup_insert_Some. naive_solver.
  - intros p d Hpd. rewrite lookup_insert_is_Some'. naive_solver.
  - intros p d v Hp Hpd. rewrite lookup_insert_Some.
    intros [[[= _ He] <-]|[_ Hv]]; [destruct Hplain; congruence | eauto].
Qed.

Lemma ledger_ok_fund db i d :
  ledger_ok None db → is_Some (wallet_utxo_log db !! (column d, "created")) →
  ledger_ok (Some (column i)) (fund i d db).
Proof.
  intros [H1 H2 H3 H4 H5 H6 H7] Hd. split; simpl; try done.
  - intros p q. rewrite elem_of_union, elem_of_singleton.
    intros [[= -> ->]|Hpq]; [split; [apply column_from_column | done] | eauto].
  - intros p q u Hp. rewrite elem_of_union, elem_of_singleton. naive_solver.
  - intros r Hr Hrev. destruct (H7 r Hr Hrev) as (p & q & ? & ?). exists p, q. set_solver.
Qed.

(** A debt is settled by a row, or when there is nothing to take back. *)
Lemma ledger_ok_settle p db :
  ledger_ok (Some p) db →
  (∀ d u, (p, d) ∈ deposit_funding db → wallet_utxo_log db !! (p, "created") = Some u →
     IsOwnWalletProceeds (ClassifiedAs u) = true →
     ∃ r, r ∈ ledger_entries db ∧ reverses p r ∧ e_AmountSat r = u_AmountSat u) →
  ledger_ok None db.
Proof.
  intros [H1 H2 H3 H4 H5 H6 H7] Hs. split; try done.
  intros q d u _. destruct (decide (p = q)) as [<-|Hq]; [apply Hs | apply H6; congruence].
Qed.

(** ** Transactions keep the invariant *)

Lemma lwp_book calm pending e Q db :
  ledger_ok pending db → entry_ok db e → (calm = true → row_ok e = true) →
  (∀ rows, let db' := set_entries db rows in
   ledger_ok pending db' → extends db db' → (hasIdentity e = true → covered rows e = true) →
   (∃ r, r ∈ rows ∧ ledgerPayloadEqual r e = true) → Q tt db') →
  lwp calm (InsertLedgerEntry e) Q db.
Proof.
  intros Hok He Hrow HQ. apply lwp_insert; [done|]. intros Hr Hv.
  destruct (insert_accepted _ _ Hv) as [Hc Hp].
  apply HQ; [by apply ledger_ok_insert | apply extends_insert | done | done].
Qed.

(** Rows that are neither receipts nor reversals ask nothing more. *)
Lemma entry_ok_plain db e :
  DebitAccount e ∈ accounts → CreditAccount e ∈ accounts →
  EventType e ≠ EventVTXOReceived → ¬ is_reversal e → entry_ok db e.
Proof. done. Qed.

(** The bytes of a number only depend on its value at their width. *)
Lemma be_bytes_mod n z : be_bytes n (z mod 256 ^ Z.of_nat n) = be_bytes n z.
Proof.
  unfold be_bytes. apply list_fmap_ext. intros k i Hi.
  apply list_elem_of_lookup_2, elem_of_reverse, elem_of_seq in Hi.
  assert (256 ^ Z.of_nat n = 256 ^ (Z.of_nat n - Z.of_nat i - 1) * 256 * 256 ^ Z.of_nat i) as Hn.
  { rewrite <- (Z.pow_1_r 256) at 3. rewrite <- !Z.pow_add_r by lia. f_equal. lia. }
  rewrite (Z_div_mod_eq_full z (256 ^ Z.of_nat n)) at 2. rewrite Hn at 2.
  set (q := z / _). set (r := z mod _). set (w := 256 ^ (_ - 1)).
  replace (w * 256 * 256 ^ Z.of_nat i * q + r) with (w * q * 256 * 256 ^ Z.of_nat i + r) by ring.
  rewrite Z.div_add_l by (apply Z.pow_nonzero; lia).
  rewrite Z.add_comm, Z_mod_plus_full. done.
Qed.

Lemma be_bytes_int32 z : be_bytes 4 (int32 z) = be_bytes 4 z.
Proof.
  rewrite <- (be_bytes_mod 4 (int32 z)), <- (be_bytes_mod 4 z). f_equal.
  change (256 ^ Z.of_nat 4) with 4294967296. unfold int32.
  rewrite Zminus_mod_idemp_l. f_equal. lia.
Qed.

Lemma reverses_column o r : reverses (column o) r ↔ reverses o r.
Proof.
  unfold reverses, classifiedUTXOIdempotencyKey, outpointIdempotencyPayload. simpl.
  by rewrite be_bytes_int32.
Qed.

Lemma reversal_reverses o amt h now r :
  ledgerPayloadEqual r (reversalEntry o amt h now) = true →
  reverses (column o) r ∧ e_AmountSat r = amt.
Proof. rewrite ledgerPayloadEqual_spec, reverses_column. by intros ->. Qed.

Lemma lwp_reversal calm pending o amt h now Q db :
  ledger_ok pending db → (∃ d, (column o, d) ∈ deposit_funding db) →
  (calm = true → 0 < amt) →
  (∀ db', ledger_ok pending db' → extends db db' →
     (∀ p, wallet_utxo_log db' !! (p, "created") = wallet_utxo_log db !! (p, "created")) →
     deposit_funding db' = deposit_funding db →
     (∃ r, r ∈ ledger_entries db' ∧ reverses (column o) r ∧ e_AmountSat r = amt) → Q tt db') →
  lwp calm (bookProceedsReversal o amt h now) Q db.
Proof.
  intros Hok [d Hd] Hamt HQ. apply lwp_bind, lwp_wrapped, lwp_audit.
  { intros _. simpl. unfold utxo_classifications, ClassificationDepositFunding. set_solver. }
  match goal with |- lwp _ _ _ (log_insert ?u db) => set (u0 := u) end.
  assert (ledger_ok pending (log_insert u0 db)) as Hok1.
  { apply ledger_ok_log_plain; [done | done | by left]. }
  destruct (log_insert_rows u0 db) as [_ Hf].
  eapply lwp_book; [exact Hok1 | | |].
  - split_and!; [set_solver | set_solver | done |]. intros _. exists (column o), d.
    rewrite reverses_column, Hf. done.
  - intros Hcalm. unfold row_ok. simpl. rewrite andb_true_iff. split; [|done].
    apply Z.ltb_lt. auto.
  - intros rows db' Hok' Hx _ (r & Hr & Hp). apply HQ; [done | | | done |].
    + etrans; [apply extends_log | exact Hx].
    + intros p. by apply (log_insert_other u0).
    + exists r. split; [done|]. by eapply reversal_reverses.
Qed.

Lemma lwp_reverse_if calm pending o amt now Q db :
  ledger_ok pending db → (calm = true → 0 < amt) →
  (∀ db', ledger_ok pending db' → extends db db' →
     (∀ p, wallet_utxo_log db' !! (p, "created") = wallet_utxo_log db !! (p, "created")) →
     deposit_funding db' = deposit_funding db →
     ((∃ d, (column o, d) ∈ deposit_funding db) →
      ∃ r, r ∈ ledger_entries db' ∧ reverses (column o) r ∧ e_AmountSat r = amt) → Q tt db') →
  lwp calm (reverseIfDepositFunded o amt now) Q db.
Proof.
  intros Hok Hamt HQ. apply lwp_bind, lwp_wrapped, lwp_deposits. intros ds Hds.
  destruct ds as [|d ds].
  { apply lwp_ret, HQ; try done. intros [c Hc].
    destruct (not_elem_of_nil (from_column c)). apply Hds. eauto. }
  destruct (proj1 (Hds d) ltac:(left)) as (c & Hc & ->).
  apply lwp_bind, lwp_wrapped, lwp_created.
  destruct (ok_funded _ _ Hok _ _ Hc) as [-> [u Hu]]. rewrite Hu.
  eapply lwp_reversal; [done | by eexists | done |].
  intros db' Hok' Hx Hlog Hf Hr. apply HQ; eauto.
Qed.

Lemma lwp_deposit_funding calm deposit h now inputs : ∀ Q db,
  ledger_ok None db → is_Some (wallet_utxo_log db !! (column deposit, "created")) →
  (∀ db', ledger_ok None db' → extends db db' →
     Forall (λ i, (column i, column deposit) ∈ deposit_funding db') inputs → Q tt db') →
  lwp calm (bookDepositFunding deposit h now inputs) Q db.
Proof.
  induction inputs as [|i inputs IH]; intros Q db Hok Hd HQ; simpl.
  { apply lwp_ret, HQ; done. }
  apply lwp_bind, lwp_wrapped, lwp_fund, lwp_bind, lwp_wrapped, lwp_created.
  pose proof (ledger_ok_fund _ i deposit Hok Hd) as Hok1.
  (* the rest of the loop, once the debt of this input is settled *)
  assert (∀ db1, ledger_ok None db1 → extends (fund i deposit db) db1 →
            lwp calm (bookDepositFunding deposit h now inputs) Q db1) as Hrest.
  { intros db1 Hok2 Hx. apply IH; [done | |].
    - destruct Hd as [v Hv]. exists v. by eapply extends_created.
    - intros db' Hok3 Hx3 Hall. apply HQ; [done | |].
      + etrans; [apply (extends_fund i deposit) | by etrans].
      + constructor; [|done]. apply Hx3, Hx. set_solver. }
  simpl. destruct (wallet_utxo_log db !! (column i, "created")) as [u|] eqn:Hu; [|].
  2: { apply Hrest; [|done]. eapply ledger_ok_settle; [done|].
       intros d v _ Hv ?. simpl in Hv. congruence. }
  destruct (IsOwnWalletProceeds (ClassifiedAs u)) eqn:Hp.
  2: { apply Hrest; [|done]. eapply ledger_ok_settle; [done|].
       intros d v _ Hv ?. simpl in Hv. congruence. }
  apply lwp_bind. eapply lwp_reversal; [done | | by intros _; eapply (ok_log _ _ Hok) |].
  { exists (column deposit). set_solver. }
  intros db' Hok2 Hx Hlog Hf Hr. apply Hrest; [|done].
  eapply ledger_ok_settle; [done|]. intros d v _. rewrite Hlog. simpl. rewrite Hu.
  by intros [= <-] _.
Qed.

(** ** Turns *)

(** What the handlers refuse. *)
Definition malformed (audit : bool) (msg : LedgerMsg) : bool :=
  match msg with
  | RestartMessage => false
  | MsgFeePaid m =>
      (fp_AmountSat m <=? 0) ||
      bool_decide (FeeType m ∉ [FeeTypeBoarding; FeeTypeRefresh; FeeTypeOnchainSweep]) ||
      bool_decide (FeeType m = FeeTypeOnchainSweep ∧ length (fp_IdempotencyKey m) ≠ 32%nat)
  | MsgVTXOReceived m =>
      (vr_AmountSat m <=? 0) ||
      bool_decide (Source m ∉ [SourceOOR; SourceRoundTransfer; SourceRoundBoarding;
                               SourceOORSelfChange; SourceRoundRefresh])
  | MsgVTXOSent m =>
      (vs_AmountSat m <=? 0) ||
      bool_decide (vs_SessionID m = 0%N ↔ vs_RoundID m = 0%N) ||
      (ProceedsOwnWallet m && bool_decide (sendKey m = []))
  | MsgExitCost m => (ExitCostSat m <=? 0) || (ec_AmountSat m <=? ExitCostSat m)
  | MsgUTXOCreated m => audit && (uc_AmountSat m <=? 0)
  | MsgUTXOSpent m =>
      audit && bool_decide (us_Classification m = ClassificationBoardingSweepInput) &&
      (us_AmountSat m <=? 0)
  | MsgBoardingSweepConfirmed m =>
      (ChainCostSat m <=? 0) || (DestinationSat m <=? 0) || bool_decide (Inputs m = []) ||
      existsb (λ i, si_AmountSat i <=? 0) (Inputs m)
  end.

(** Whether the classification of a message is one the database knows. *)
Definition known_class (msg : LedgerMsg) : bool :=
  match msg with
  | MsgUTXOCreated m => bool_decide (uc_Classification m ∈ utxo_classifications)
  | MsgUTXOSpent m => bool_decide (us_Classification m ∈ utxo_classifications)
  | _ => true
  end.

(** A turn commits into [Q], or changes nothing: it reports an invalid message
    exactly when [bad]. *)
Definition twp (calm bad : bool) (t : turn) (Q : LedgerDB → Prop) (db : LedgerDB) : Prop :=
  ∀ faults, (calm = true → true ∉ faults) →
    match t db faults with
    | (Ok _, db') => bad = false ∧ Q db'
    | (Err e, db') =>
        db' = db ∧ if bad then ∃ text, e = ErrInvalidMessage text else allowed calm e
    end.

Lemma twp_fail calm text Q db : twp calm true (fail (ErrInvalidMessage text)) Q db.
Proof. intros faults _. simpl. eauto. Qed.

Lemma twp_consume calm (Q : LedgerDB → Prop) db : Q db → twp calm false consume Q db.
Proof. by intros HQ faults _. Qed.

Lemma twp_commit calm body (Q : LedgerDB → Prop) db :
  lwp calm body (λ _, Q) db → twp calm false (commit body) Q db.
Proof.
  intros Hb faults Hf. specialize (Hb faults Hf). unfold commit, Commit.
  destruct (body (db, faults)) as [[[]|e] [db' f']]; [|done].
  destruct Hb as [Hf' HQ]. destruct f' as [|[] f']; try done. split; [done|].
  destruct calm; [destruct (Hf' eq_refl); left | done].
Qed.

(** The output a message reports as the wallet's own proceeds. *)
Definition proceeds_of (audit : bool) (msg : LedgerMsg) : option (OutPoint * Z) :=
  match msg with
  | MsgUTXOCreated m =>
      if audit && IsOwnWalletProceeds (uc_Classification m)
      then Some (mkOutPoint (uc_OutpointHash m) (uc_OutpointIndex m), uc_AmountSat m) else None
  | MsgBoardingSweepConfirmed m =>
      if audit && negb (DestinationExternal m)
      then Some (mkOutPoint (Txid m) 0, DestinationSat m) else None
  | _ => None
  end.

(** What a committed message leaves in the tables, to be found when it comes
    again. *)
Definition booked (audit : bool) (msg : LedgerMsg) (db : LedgerDB) : Prop :=
  let rows := ledger_entries db in
  let entry e := hasIdentity e = true → covered rows e = true in
  match msg with
  | RestartMessage => True
  | MsgFeePaid m => match feeEntry 0 m with Ok e => entry e | Err _ => True end
  | MsgVTXOReceived m => ∃ r, r ∈ rows ∧ EventType r = EventVTXOReceived ∧
      e_IdempotencyKey r = walletUTXOIdempotencyKey (vr_OutpointHash m) (vr_OutpointIndex m)
  | MsgVTXOSent m => entry (sendLegs 0 m).1 ∧ from_option entry True (sendLegs 0 m).2
  | MsgExitCost m =>
      entry (exitLegs 0 m).1.1 ∧ entry (exitLegs 0 m).1.2 ∧ from_option entry True (exitLegs 0 m).2
  | MsgUTXOCreated m => audit = true →
      (creditAlreadyBooked (uc_Classification m) = false → entry (createdEntry 0 m)) ∧
      is_Some (wallet_utxo_log db !!
        (column (mkOutPoint (uc_OutpointHash m) (uc_OutpointIndex m)), "created")) ∧
      (uc_Classification m = ClassificationDeposit →
       Forall (λ i, (column i, column (mkOutPoint (uc_OutpointHash m) (uc_OutpointIndex m)))
                      ∈ deposit_funding db) (FundingInputs m))
  | MsgUTXOSpent m =>
      audit = true → us_Classification m = ClassificationBoardingSweepInput →
      entry (sweepInputEntry 0 (raw_outpoint (us_OutpointHash m) (us_OutpointIndex m))
        (mkOutPoint (us_OutpointHash m) (us_OutpointIndex m)) (us_AmountSat m)
        (us_BlockHeight m))
  | MsgBoardingSweepConfirmed m => Forall (λ leg, entry leg.2) (boardingSweepLegs 0 m)
  end.

(** The log has a message's proceeds, unless the output was logged before. *)
Definition logged (audit : bool) (msg : LedgerMsg) (db db' : LedgerDB) : Prop :=
  ∀ o amt, proceeds_of audit msg = Some (o, amt) →
    wallet_utxo_log db !! (column o, "created") = None →
    ∃ u, wallet_utxo_log db' !! (column o, "created") = Some u ∧ u_AmountSat u = amt ∧
      IsOwnWalletProceeds (ClassifiedAs u) = true.

Definition turn_ok (audit : bool) (msg : LedgerMsg) (db db' : LedgerDB) : Prop :=
  ledger_ok None db' ∧ extends db db' ∧ booked audit msg db' ∧ logged audit msg db db'.

End Transactions.

(** Closed facts about accounts and events. *)
Ltac closed := simpl; unfold is_reversal, not; apply (bool_decide_unpack _); vm_compute; exact I.
Ltac plain_entry := apply entry_ok_plain; closed.
Ltac positive_row := intros _; unfold row_ok; simpl; rewrite andb_true_iff, Z.ltb_lt;
  split; [lia | reflexivity].

(** Book a row that asks nothing of the tables. *)
Ltac book_plain Hok rows :=
  eapply lwp_book; [exact Hok | plain_entry | positive_row | intros rows].

Section Turns.
Context {T : ChainText}.

Lemma handleFeePaid_spec audit calm now m db :
  ledger_ok None db →
  twp calm (malformed audit (MsgFeePaid m)) (handleFeePaid now m)
    (turn_ok audit (MsgFeePaid m) db) db.
Proof.
  intros Hok. unfold handleFeePaid, malformed, turn_ok, booked, feeEntry. simpl.
  destruct (Z.leb_spec (fp_AmountSat m) 0) as [|Hpos]; [apply twp_fail|]. simpl.
  destruct (decide (FeeType m = FeeTypeBoarding)) as [Hb|Hb].
  { rewrite !Hb. simpl. apply twp_commit. book_plain Hok rows. by intros. }
  destruct (decide (FeeType m = FeeTypeRefresh)) as [Hr|Hr].
  { rewrite !Hr. simpl. apply twp_commit. book_plain Hok rows. by intros. }
  destruct (decide (FeeType m = FeeTypeOnchainSweep)) as [Hs|Hs].
  { rewrite !Hs. simpl. destruct (decide (length (fp_IdempotencyKey m) = 32%nat)) as [Hl|Hl].
    - rewrite (bool_decide_true (length _ = _)) by done. rewrite bool_decide_false by tauto.
      apply twp_commit. book_plain Hok rows. by intros.
    - rewrite (bool_decide_false (length _ = _)) by done. rewrite bool_decide_true by tauto.
      apply twp_fail. }
  rewrite (bool_decide_true (_ ∉ _)) by set_solver.
  rewrite !(bool_decide_false (_ = _)) by done. apply twp_fail.
Qed.

Lemma outpoint_key_nonempty hash index : walletUTXOIdempotencyKey hash index ≠ [].
Proof. done. Qed.

(** The accounts receipts are credited to. *)
Definition receive_accounts : list string :=
  [AccountTransfersIn; AccountTransfersOut; AccountWalletBalance].

Lemma receiveCredit_spec source :
  match receiveCredit source with
  | Some c => c ∈ receive_accounts ∧
      source ∈ [SourceOOR; SourceRoundTransfer; SourceRoundBoarding; SourceOORSelfChange;
                SourceRoundRefresh]
  | None => source ∉ [SourceOOR; SourceRoundTransfer; SourceRoundBoarding;
                      SourceOORSelfChange; SourceRoundRefresh]
  end.
Proof.
  unfold receiveCredit. repeat case_bool_decide; try (split; set_solver). set_solver.
Qed.

Lemma lwp_classify calm m credit (Q : option (string * string) → LedgerDB → Prop) db :
  let key := walletUTXOIdempotencyKey (vr_OutpointHash m) (vr_OutpointIndex m) in
  let received r := r ∈ ledger_entries db ∧ EventType r = EventVTXOReceived ∧
                    e_IdempotencyKey r = key in
  credit ∈ receive_accounts →
  ((∃ r, received r) → Q None db) →
  (∀ s c, (∀ r, ¬ received r) → c ∈ receive_accounts → Q (Some (s, c)) db) →
  lwp calm (classify m credit) Q db.
Proof.
  intros key received Hc Hskip Hbook. unfold classify.
  apply lwp_bind, lwp_wrapped, lwp_has_key. intros [] Hb.
  { apply lwp_ret, Hskip. unfold received. naive_solver. }
  assert (∀ r, ¬ received r) as Hnone.
  { intros r (Hin & He & Hk). apply diff_false_true, Hb. exists r.
    rewrite Hk. auto using outpoint_key_nonempty. }
  destruct (_ || _); [by apply lwp_ret, Hbook|].
  apply lwp_bind, lwp_wrapped, lwp_has_session. intros sent _. apply lwp_ret.
  destruct sent; apply Hbook; try done. unfold receive_accounts. set_solver.
Qed.

Lemma receive_entry_ok db e :
  DebitAccount e = AccountVTXOBalance → CreditAccount e ∈ receive_accounts →
  EventType e = EventVTXOReceived →
  (∀ r, r ∈ ledger_entries db → EventType r = EventVTXOReceived →
     e_IdempotencyKey r ≠ e_IdempotencyKey e) →
  entry_ok db e.
Proof.
  intros Hd Hc He Hfresh. unfold receive_accounts in Hc.
  split_and!; [rewrite Hd; closed | unfold accounts; set_solver | auto |].
  intros [He' _]. by rewrite He in He'.
Qed.

Lemma handleVTXOReceived_spec audit calm now m db :
  ledger_ok None db →
  twp calm (malformed audit (MsgVTXOReceived m)) (handleVTXOReceived now m)
    (turn_ok audit (MsgVTXOReceived m) db) db.
Proof.
  intros Hok. unfold handleVTXOReceived, malformed, turn_ok. simpl.
  destruct (Z.leb_spec (vr_AmountSat m) 0) as [|Hpos]; [apply twp_fail|]. simpl.
  pose proof (receiveCredit_spec (Source m)) as Hsrc.
  destruct (receiveCredit (Source m)) as [credit|].
  2: { rewrite bool_decide_true by done. apply twp_fail. }
  destruct Hsrc as [Hc Hsrc]. rewrite bool_decide_false by tauto.
  apply twp_commit, lwp_bind, lwp_classify; [done | |].
  { intros (r & Hr). apply lwp_ret. split_and!; [done | done | naive_solver | done]. }
  intros s c Hnone Hc'. eapply lwp_book; [exact Hok | | |].
  - apply receive_entry_ok; [done | done | done |]. intros r Hin He Hk. by apply (Hnone r).
  - intros _. unfold row_ok. simpl. rewrite andb_true_iff, Z.ltb_lt. split; [lia|].
    unfold receive_accounts in Hc'. rewrite !elem_of_cons, elem_of_nil in Hc'.
    by destruct_or! Hc'; subst c.
  - intros rows db' Hok' Hx _ (r & Hr & Hp). apply ledgerPayloadEqual_spec in Hp.
    split_and!; [done | done | | done]. exists r. split; [done|]. by rewrite Hp.
Qed.

(** An optional row that asks nothing of the tables. *)
Lemma lwp_when_some calm leg Q db :
  ledger_ok None db →
  (∀ e, leg = Some e → entry_ok db e ∧ row_ok e = true) →
  (∀ db', ledger_ok None db' → extends db db' →
     from_option (λ e, hasIdentity e = true → covered (ledger_entries db') e = true) True leg →
     Q tt db') →
  lwp calm (WhenSome leg) Q db.
Proof.
  intros Hok Hleg HQ. destruct leg as [e|]; simpl; [|by apply lwp_ret, HQ].
  destruct (Hleg e eq_refl) as [He Hr].
  eapply lwp_book; [exact Hok | done | done |]. intros rows db' Hok' Hx Hc _. by apply HQ.
Qed.

Lemma sent_body_spec audit calm now m db :
  ledger_ok None db → 0 < vs_AmountSat m →
  lwp calm (then* lwrapped "send leg: " (InsertLedgerEntry (sendLegs now m).1) in
            lwrapped "send proceeds leg: " (WhenSome (sendLegs now m).2))
    (λ _, turn_ok audit (MsgVTXOSent m) db) db.
Proof.
  intros Hok Hpos. apply lwp_bind, lwp_wrapped. book_plain Hok rows.
  intros db1 Hok1 Hx1 Hc1 _. apply lwp_wrapped, lwp_when_some; [done | |].
  - intros e. unfold sendLegs. destruct (ProceedsOwnWallet m); [|done]. intros [= <-].
    split; [plain_entry|]. unfold row_ok. simpl. rewrite andb_true_iff, Z.ltb_lt. by split; [lia|].
  - intros db2 Hok2 Hx2 Hc2. split_and!; [done | by etrans | | done]. split.
    + intros Hi. eapply extends_covered; [done|]. by apply Hc1.
    + revert Hc2. unfold sendLegs. by destruct (ProceedsOwnWallet m).
Qed.

Lemma handleVTXOSent_spec audit calm now m db :
  ledger_ok None db →
  twp calm (malformed audit (MsgVTXOSent m)) (handleVTXOSent now m)
    (turn_ok audit (MsgVTXOSent m) db) db.
Proof.
  intros Hok. unfold handleVTXOSent, malformed.
  destruct (Z.leb_spec (vs_AmountSat m) 0) as [|Hpos]; [apply twp_fail|].
  pose proof (sent_body_spec audit calm now m db Hok Hpos) as Hbody.
  rewrite (surjective_pairing (sendLegs now m)). unfold sessionIDOrNil, roundIDOrNil.
  destruct (N.eqb_spec (vs_SessionID m) 0) as [Hs|Hs];
    destruct (N.eqb_spec (vs_RoundID m) 0) as [Hr|Hr]; cbn [orb].
  1, 4: rewrite bool_decide_true by tauto; apply twp_fail.
  all: rewrite bool_decide_false by tauto; cbn [orb];
    destruct (ProceedsOwnWallet m && _); [apply twp_fail | by apply twp_commit].
Qed.

Lemma handleExitCost_spec audit calm now m db :
  ledger_ok None db →
  twp calm (malformed audit (MsgExitCost m)) (handleExitCost now m)
    (turn_ok audit (MsgExitCost m) db) db.
Proof.
  intros Hok. unfold handleExitCost, malformed.
  destruct (Z.leb_spec (ExitCostSat m) 0) as [|Hcost]; [apply twp_fail|]. cbn [orb].
  destruct (Z.leb_spec (ec_AmountSat m) (ExitCostSat m)) as [Hle|Hnet].
  { destruct (ec_AmountSat m <=? 0); apply twp_fail. }
  rewrite (proj2 (Z.leb_gt _ _)) by lia. unfold exitLegs. cbv zeta beta.
  apply twp_commit, lwp_bind, lwp_wrapped. book_plain Hok rows1. intros db1 Hok1 Hx1 Hc1 _.
  apply lwp_bind, lwp_wrapped. book_plain Hok1 rows2. intros db2 Hok2 Hx2 Hc2 _.
  apply lwp_wrapped, lwp_when_some; [done | |].
  - intros e. destruct (DestinationOwnWallet m); [|done]. intros [= <-].
    split; [plain_entry|]. unfold row_ok. simpl. rewrite andb_true_iff, Z.ltb_lt. by split; [lia|].
  - intros db3 Hok3 Hx3 Hc3. assert (extends db1 db3) as Hx23 by by etrans; [exact Hx2|].
    split_and!; [done | by etrans; [exact Hx1|] | | done]. split_and!.
    + intros Hi. eapply extends_covered; [exact Hx23|]. by apply Hc1.
    + intros Hi. eapply extends_covered; [exact Hx3|]. by apply Hc2.
    + revert Hc3. unfold exitLegs. by destruct (DestinationOwnWallet m).
Qed.

(** The reversal a proceeds output may owe, once its row [u] is in the log. *)
Lemma lwp_settle_proceeds calm u now Q db db1 :
  u_Event u = "created" → 0 < u_AmountSat u →
  ledger_ok (owed u db) db1 → extends (log_insert u db) db1 →
  (∀ db', ledger_ok None db' → extends db1 db' → Q tt db') →
  lwp calm (reverseIfDepositFunded (u_Outpoint u) (u_AmountSat u) now) Q db1.
Proof.
  intros He Hpos Hok Hx HQ. eapply lwp_reverse_if; [exact Hok | done |].
  intros db' Hok' Hx' Hlog Hf Hr. apply HQ; [|done].
  revert Hok'. unfold owed. case_bool_decide as Hv; [done|]. intros Hok'.
  eapply ledger_ok_settle; [exact Hok'|]. intros d w Hd Hw Hcl.
  assert (wallet_utxo_log db' !! (column (u_Outpoint u), "created") = Some u) as Hu.
  { eapply extends_created; [exact Hx'|]. eapply extends_created; [exact Hx|].
    rewrite <- He. apply log_insert_fresh. rewrite He. by apply eq_None_not_Some. }
  rewrite Hw in Hu. injection Hu as ->. apply Hr. exists d. by rewrite <- Hf.
Qed.

(** A created output without proceeds owes nothing. *)
Lemma ledger_ok_created db u :
  ledger_ok None db → u_Event u = "created" → 0 < u_AmountSat u →
  ledger_ok (if IsOwnWalletProceeds (ClassifiedAs u) then owed u db else None)
    (log_insert u db).
Proof.
  intros Hok He Hpos. destruct (IsOwnWalletProceeds _) eqn:Hp.
  - by apply ledger_ok_log.
  - apply ledger_ok_log_plain; auto.
Qed.

(** The credit of a created output, where no earlier message booked it. *)
Lemma lwp_created_credit calm pending now m Q db :
  ledger_ok pending db → 0 < uc_AmountSat m →
  (∀ db', ledger_ok pending db' → extends db db' →
     (creditAlreadyBooked (uc_Classification m) = false →
      covered (ledger_entries db') (createdEntry 0 m) = true) → Q tt db') →
  lwp calm (if negb (creditAlreadyBooked (uc_Classification m))
            then InsertLedgerEntry (createdEntry now m) else lret tt) Q db.
Proof.
  intros Hok Hpos HQ. destruct (creditAlreadyBooked _); simpl; [by apply lwp_ret, HQ|].
  unfold createdEntry. destruct (bool_decide _) eqn:Hc; book_plain Hok rows;
    intros db' Hok' Hx Hcov _; apply HQ; try done; intros _.
  all: unfold createdEntry; rewrite Hc; by apply Hcov.
Qed.

(** The row of the log a created output writes. *)
Definition created_row (now : Z) (m : UTXOCreatedMsg) : UTXOAuditEntry :=
  mkAudit (mkOutPoint (uc_OutpointHash m) (uc_OutpointIndex m)) (uc_AmountSat m) "created"
    (int32 (uc_BlockHeight m)) (uc_Classification m) now.

(** What is left to do after the row and the credit only has to keep the
    invariant and to record the funding of a deposit. *)
Lemma created_turn_ok now m db db2 db' :
  extends (log_insert (created_row now m) db) db2 →
  (creditAlreadyBooked (uc_Classification m) = false →
   covered (ledger_entries db2) (createdEntry 0 m) = true) →
  ledger_ok None db' → extends db2 db' →
  (uc_Classification m = ClassificationDeposit → Forall (λ i, (column i,
     column (u_Outpoint (created_row now m))) ∈ deposit_funding db') (FundingInputs m)) →
  turn_ok true (MsgUTXOCreated m) db db'.
Proof.
  set (u0 := created_row now m). intros Hx2 Hcov Hok' Hx' Hf.
  assert (extends (log_insert u0 db) db') as Hx3 by by etrans.
  split_and!; [done | by etrans; [apply (extends_log u0)|] | |].
  - intros _. split_and!; [|destruct (log_insert_there u0 db) as [v Hv]|done].
    + intros Hc _. eapply extends_covered; [exact Hx'|]. by apply Hcov.
    + exists v. by eapply extends_created.
  - intros o amt. simpl. destruct (IsOwnWalletProceeds _) eqn:Hp; [|done].
    intros [= <- <-] Hnone. exists u0. split; [|done].
    eapply extends_created; [exact Hx3|]. by apply (log_insert_fresh u0).
Qed.

Lemma handleUTXOCreated_spec audit calm now m db :
  ledger_ok None db → (calm = true → known_class (MsgUTXOCreated m) = true) →
  twp calm (malformed audit (MsgUTXOCreated m)) (handleUTXOCreated audit now m)
    (turn_ok audit (MsgUTXOCreated m) db) db.
Proof.
  intros Hok Hknown. unfold handleUTXOCreated, malformed.
  destruct audit; simpl; [|apply twp_consume; by split_and!].
  destruct (Z.leb_spec (uc_AmountSat m) 0) as [|Hpos]; [apply twp_fail|].
  apply twp_commit, lwp_bind, lwp_audit.
  { intros Hc. by apply (bool_decide_unpack _), Is_true_true, Hknown. }
  set (u0 := created_row now m). change (mkAudit _ _ _ _ _ _) with u0.
  pose proof (ledger_ok_created db u0 Hok eq_refl Hpos) as Hok1.
  apply lwp_bind. eapply lwp_created_credit; [exact Hok1 | done |].
  intros db2 Hok2 Hx2 Hcov. simpl in Hok2. case_bool_decide as Hdep.
  - assert (IsOwnWalletProceeds (uc_Classification m) = false) as Hp by by rewrite Hdep.
    rewrite Hp in Hok2. apply lwp_deposit_funding; [done | |].
    + destruct (log_insert_there u0 db) as [v Hv]. exists v. by eapply extends_created.
    + intros db' Hok' Hx' Hf. by eapply (created_turn_ok now).
  - destruct (IsOwnWalletProceeds _).
    + eapply (lwp_settle_proceeds calm u0); [done | done | exact Hok2 | done |].
      intros db' Hok' Hx'. by eapply (created_turn_ok now).
    + apply lwp_ret. by eapply (created_turn_ok now).
Qed.

Lemma handleUTXOSpent_spec audit calm now m db :
  ledger_ok None db → (calm = true → known_class (MsgUTXOSpent m) = true) →
  twp calm (malformed audit (MsgUTXOSpent m)) (handleUTXOSpent audit now m)
    (turn_ok audit (MsgUTXOSpent m) db) db.
Proof.
  intros Hok Hknown. unfold handleUTXOSpent, malformed, turn_ok, booked.
  destruct audit; cbn [negb andb]; [|apply twp_consume; by split_and!].
  assert (calm = true → us_Classification m ∈ utxo_classifications) as Hc.
  { intros Hc. by apply (bool_decide_unpack _), Is_true_true, Hknown. }
  destruct (decide (us_Classification m = ClassificationBoardingSweepInput)) as [He|He].
  - rewrite bool_decide_true by done. cbn [andb].
    destruct (Z.leb_spec (us_AmountSat m) 0) as [|Hpos]; [apply twp_fail|].
    apply twp_commit, lwp_bind, lwp_audit; [done|].
    match goal with |- lwp _ _ _ (log_insert ?u db) => set (u0 := u) end.
    assert (ledger_ok None (log_insert u0 db)) as Hok1.
    { apply ledger_ok_log_plain; [done | done | by left]. }
    book_plain Hok1 rows. intros db' Hok' Hx Hcov _.
    split_and!; [done | by etrans; [apply (extends_log u0)|] | by intros _ _ | done].
  - rewrite bool_decide_false by done. cbn [andb]. apply twp_commit, lwp_audit; [done|].
    split_and!; [|apply extends_log | by intros _ ? | done].
    apply ledger_ok_log_plain; [done | done | by left].
Qed.

(** *** Sweeps *)

(** A leg that spends an output, or touches no output. *)
Definition spend_leg (leg : sweepLeg) : Prop :=
  (∀ db, entry_ok db leg.2) ∧ row_ok leg.2 = true ∧ hasIdentity leg.2 = true ∧
  from_option (λ u, u_Event u = "spent" ∧ ClassifiedAs u ∈ utxo_classifications) True leg.1.

(** No output was created in between. *)
Definition same_created (db db' : LedgerDB) : Prop :=
  ∀ p, wallet_utxo_log db' !! (p, "created") = wallet_utxo_log db !! (p, "created").

(** The first access of a leg. *)
Lemma lwp_leg_row calm (audit : bool) row Q db :
  ledger_ok None db →
  from_option (λ u, u_Event u = "spent" ∧ ClassifiedAs u ∈ utxo_classifications) True row →
  (∀ db', ledger_ok None db' → extends db db' → same_created db db' → Q tt db') →
  lwp calm (match row with
            | Some u => if audit then InsertUTXOAuditEntry u else lret tt
            | None => lret tt
            end) Q db.
Proof.
  intros Hok Hrow HQ. destruct row as [u|]; [destruct audit|]; try by apply lwp_ret, HQ.
  destruct Hrow as [He Hc]. apply lwp_audit; [done|]. apply HQ; [|apply extends_log |].
  - apply ledger_ok_log_plain; [done | by rewrite He | left; by rewrite He].
  - intros p. apply log_insert_other. rewrite He. by intros [=].
Qed.

Lemma lwp_spend_legs calm audit legs rest Q : ∀ db,
  ledger_ok None db → Forall spend_leg legs →
  (∀ db', ledger_ok None db' → extends db db' → same_created db db' →
     Forall (λ leg, covered (ledger_entries db') leg.2 = true) legs →
     lwp calm (insertLegs audit rest) Q db') →
  lwp calm (insertLegs audit (legs ++ rest)) Q db.
Proof.
  induction legs as [|[row e] legs IH]; intros db Hok Hall HQ; cbn [app insertLegs];
    [by apply HQ|].
  apply Forall_cons in Hall as [(He & Hr & Hi & Hrow) Hall].
  apply lwp_bind, lwp_leg_row; [done | done |]. intros db1 Hok1 Hx1 Hs1.
  apply lwp_bind. eapply lwp_book; [exact Hok1 | apply He | done |].
  intros rows db2 Hok2 Hx2 Hcov _. apply IH; [done | done |].
  intros db3 Hok3 Hx3 Hs3 Hcov3. apply HQ; [done | | |].
  - etrans; [exact Hx1|]. by etrans; [exact Hx2|].
  - intros p. rewrite (Hs3 p). apply Hs1.
  - constructor; [|done]. eapply extends_covered; [exact Hx3|]. by apply Hcov.
Qed.

Lemma sweep_input_legs now m :
  Forall (λ i, 0 < si_AmountSat i) (Inputs m) → Forall spend_leg (sweepInputLeg now m <$> Inputs m).
Proof.
  intros Hpos. apply Forall_fmap. eapply Forall_impl; [exact Hpos|]. intros i Hi. cbv beta in Hi. split_and!.
  - intros db. plain_entry.
  - unfold row_ok. simpl. rewrite andb_true_iff, Z.ltb_lt. by split; [lia|].
  - done.
  - split; [done|]. simpl. closed.
Qed.

(** The legs cover themselves whatever the clock. *)
Lemma sweep_legs_covered now m db :
  Forall (λ leg, covered (ledger_entries db) leg.2 = true) (boardingSweepLegs now m) →
  booked true (MsgBoardingSweepConfirmed m) db.
Proof.
  unfold booked, boardingSweepLegs. rewrite !Forall_cons, !Forall_app, !Forall_singleton, !Forall_fmap.
  intros (Hf & Hi & Hd). split_and!; [by intros _ | | destruct (DestinationExternal m); by intros _].
  eapply Forall_impl; [exact Hi|]. by intros i Hc _.
Qed.

(** The last leg of a sweep into the wallet, and the reversal it may owe. *)
Lemma lwp_sweep_return calm audit now m Q db :
  ledger_ok None db → 0 < DestinationSat m →
  (∀ db', ledger_ok None db' → extends db db' →
     covered (ledger_entries db') (sweepReturnLeg 0 m).2 = true →
     (audit = true → wallet_utxo_log db !! (column (mkOutPoint (Txid m) 0), "created") = None →
      from_option (λ u, wallet_utxo_log db' !! (column (mkOutPoint (Txid m) 0), "created") = Some u)
        True (sweepReturnLeg now m).1) → Q tt db') →
  lwp calm (insertLegs audit [sweepReturnLeg now m])
    (λ _, lwp calm (if negb audit then lret tt
                    else reverseIfDepositFunded (mkOutPoint (Txid m) 0) (DestinationSat m) now) Q)
    db.
Proof.
  intros Hok Hpos HQ. unfold sweepReturnLeg. cbn [insertLegs]. apply lwp_bind.
  set (u0 := mkAudit _ _ _ _ _ _). destruct audit; cbn [negb].
  - apply lwp_audit; [intros _; simpl; closed|].
    pose proof (ledger_ok_log db u0 Hok eq_refl Hpos) as Hok1.
    apply lwp_bind. book_plain Hok1 rows. intros db2 Hok2 Hx2 Hcov _. apply lwp_ret.
    eapply (lwp_settle_proceeds calm u0); [done | done | exact Hok2 | done |].
    intros db' Hok' Hx'. apply HQ; [done | | |].
    + etrans; [apply (extends_log u0)|]. by etrans; [exact Hx2|].
    + eapply extends_covered; [exact Hx'|]. by apply Hcov.
    + intros _ Hnone. eapply extends_created; [exact Hx'|].
      eapply extends_created; [exact Hx2|]. by apply (log_insert_fresh u0).
  - apply lwp_ret, lwp_bind. book_plain Hok rows. intros db2 Hok2 Hx2 Hcov _.
    apply lwp_ret, lwp_ret, HQ; [done | done | by apply Hcov | done].
Qed.

(** The legs but the last, and the transaction around them. *)
Lemma sweep_body_spec audit calm now m db :
  ledger_ok None db → 0 < ChainCostSat m → 0 < DestinationSat m →
  Forall (λ i, 0 < si_AmountSat i) (Inputs m) →
  lwp calm (then* insertLegs audit (boardingSweepLegs now m) in
            if DestinationExternal m || negb audit then lret tt
            else reverseIfDepositFunded (mkOutPoint (Txid m) 0) (DestinationSat m) now)
    (λ _, turn_ok audit (MsgBoardingSweepConfirmed m) db) db.
Proof.
  intros Hok Hcost Hdest Hin. apply lwp_bind. unfold boardingSweepLegs. rewrite app_comm_cons.
  apply lwp_spend_legs; [done | |].
  { constructor; [|by apply sweep_input_legs]. split_and!; [intros ?; plain_entry | | done | done].
    unfold row_ok. simpl. rewrite andb_true_iff, Z.ltb_lt. by split; [lia|]. }
  intros db1 Hok1 Hx1 Hs1 Hcov1.
  assert (∀ db', extends db1 db' → covered (ledger_entries db')
    (if DestinationExternal m then (None, sweepTransferEntry 0 m) else sweepReturnLeg 0 m).2 = true →
    booked audit (MsgBoardingSweepConfirmed m) db') as Hbooked.
  { intros db' Hx' Hd. apply (sweep_legs_covered now). unfold boardingSweepLegs.
    rewrite app_comm_cons, Forall_app, Forall_singleton. split.
    - eapply Forall_impl; [exact Hcov1|]. intros leg Hc. by eapply extends_covered.
    - by destruct (DestinationExternal m). }
  unfold turn_ok, logged, proceeds_of. destruct (DestinationExternal m); cbn [orb negb].
  - cbn [insertLegs]. apply lwp_bind, lwp_ret, lwp_bind. book_plain Hok1 rows.
    intros db2 Hok2 Hx2 Hcov _. apply lwp_ret, lwp_ret.
    split_and!; [done | by etrans; [exact Hx1|] | by apply Hbooked, Hcov|]. by rewrite andb_false_r.
  - apply lwp_sweep_return; [done | done |]. intros db' Hok' Hx' Hcov Hlog.
    split_and!; [done | by etrans; [exact Hx1|] | by apply Hbooked |].
    destruct audit; [|done]. intros o amt [= <- <-] Hnone. eexists.
    split; [apply Hlog; [done|] | done]. by rewrite Hs1.
Qed.

Lemma handleBoardingSweepConfirmed_spec audit calm now m db :
  ledger_ok None db →
  twp calm (malformed audit (MsgBoardingSweepConfirmed m))
    (handleBoardingSweepConfirmed audit now m)
    (turn_ok audit (MsgBoardingSweepConfirmed m) db) db.
Proof.
  intros Hok. unfold handleBoardingSweepConfirmed, malformed.
  destruct (Z.leb_spec (ChainCostSat m) 0) as [|Hcost]; [apply twp_fail|].
  destruct (Z.leb_spec (DestinationSat m) 0) as [|Hdest]; [apply twp_fail|]. cbn [orb].
  destruct (bool_decide (Inputs m = [])); [apply twp_fail|]. cbn [orb].
  destruct (existsb _ _) eqn:Hpos; [apply twp_fail|].
  apply twp_commit, sweep_body_spec; [done | done | done |].
  apply Forall_forall. intros i Hi. apply Z.lt_nge. intros Hle.
  apply not_true_iff_false in Hpos. apply Hpos, existsb_exists. exists i.
  rewrite <- list_elem_of_In. split; [done|]. by apply Z.leb_le.
Qed.

(** Every turn keeps the invariant, extends the tables, and leaves its message
    booked; or it changes nothing. *)
Lemma Receive_spec audit calm now msg db :
  ledger_ok None db → (calm = true → known_class msg = true) →
  twp calm (malformed audit msg) (Receive audit now msg) (turn_ok audit msg db) db.
Proof.
  intros Hok Hknown. destruct msg; cbn [Receive].
  - apply twp_consume. by split_and!.
  - by apply handleFeePaid_spec.
  - by apply handleVTXOReceived_spec.
  - by apply handleVTXOSent_spec.
  - by apply handleExitCost_spec.
  - by apply handleUTXOCreated_spec.
  - by apply handleUTXOSpent_spec.
  - by apply handleBoardingSweepConfirmed_spec.
Qed.

(** ** Histories *)

(** The tables after a run of turns, with any clock and any faults. *)
Inductive ledger_later (audit : bool) (db : LedgerDB) : LedgerDB → Prop :=
| later_refl : ledger_later audit db db
| later_turn db' now msg faults :
    ledger_later audit db db' → ledger_later audit db (Receive audit now msg db' faults).2.

Definition empty_ledger : LedgerDB := mkLedgerDB [] ∅ ∅.
Definition ledger_reach (audit : bool) : LedgerDB → Prop := ledger_later audit empty_ledger.

Lemma ledger_ok_empty : ledger_ok None empty_ledger.
Proof. split; simpl; try done; set_solver. Qed.

Lemma turn_grows audit now msg db faults :
  ledger_ok None db →
  let db' := (Receive audit now msg db faults).2 in ledger_ok None db' ∧ extends db db'.
Proof.
  intros Hok. pose proof (Receive_spec audit false now msg db Hok ltac:(done) faults ltac:(done)).
  destruct (Receive _ _ _ _ _) as [[[]|e] db']; [|by destruct H as [-> _]].
  destruct H as (_ & ? & ? & _). done.
Qed.

Lemma later_ok audit db db' :
  ledger_later audit db db' → ledger_ok None db → ledger_ok None db' ∧ extends db db'.
Proof.
  induction 1 as [|db' now msg faults _ IH]; intros Hok; [done|].
  destruct (IH Hok) as [Hok' Hx]. destruct (turn_grows audit now msg db' faults Hok') as [? ?].
  split; [done | by etrans].
Qed.

Lemma reach_ok audit db : ledger_reach audit db → ledger_ok None db.
Proof. intros H. apply (later_ok _ _ _ H), ledger_ok_empty. Qed.

End Turns.
