(* ===== verification/LedgerBooks.v ===== *)
(** * The ledger's books

    Theorems about the turns of the ledger ([Ledger.v]), from the invariant of
    [LedgerSafety.v]: what every history keeps, which failures are permanent, that
    a redelivered message books nothing, that recycled coins are counted once, and
    what exits, receipts and sweeps do to the balances. *)

From S2P Require Import Prelude RecoveryProof Ledger LedgerSafety.
Local Open Scope Z_scope.

Section Books.
Context {T : ChainText}.

(** ** Redelivery

    A transaction that finds its rows booked leaves the rows as they are. *)

Lemma set_entries_same db : set_entries db (ledger_entries db) = db.
Proof. by destruct db. Qed.

Lemma lwp_replay e (Q : unit → LedgerDB → Prop) db :
  covered (ledger_entries db) e = true → Q tt db → lwp false (InsertLedgerEntry e) Q db.
Proof.
  intros Hc HQ. apply lwp_insert; [done|]. intros _ _.
  by rewrite insert_covered, set_entries_same.
Qed.

Lemma lwp_replay_when_some leg (Q : unit → LedgerDB → Prop) db :
  from_option (λ e, covered (ledger_entries db) e = true) True leg → Q tt db →
  lwp false (WhenSome leg) Q db.
Proof. destruct leg; [apply lwp_replay | intros _; apply lwp_ret]. Qed.

(** The tables of a replay: the same rows and funding, no output created. *)
Definition replayed (db db' : LedgerDB) : Prop :=
  ledger_entries db' = ledger_entries db ∧ deposit_funding db' = deposit_funding db ∧
  same_created db db' ∧ ledger_ok None db'.

Lemma replayed_refl db : ledger_ok None db → replayed db db.
Proof. done. Qed.

Lemma replayed_trans a b c : replayed a b → replayed b c → replayed a c.
Proof.
  intros (H1 & H2 & H3 & _) (H4 & H5 & H6 & H7). split_and!; [congruence | congruence | | done].
  intros p. by rewrite (H6 p).
Qed.

Lemma replayed_log db u :
  ledger_ok None db →
  u_Event u = "spent" ∨
    is_Some (wallet_utxo_log db !! (column (u_Outpoint u), u_Event u)) →
  replayed db (log_insert u db).
Proof.
  intros Hok Hu. destruct (log_insert_rows u db) as [Hr Hf].
  destruct Hu as [He|Hsome].
  - split_and!; [done | done | |].
    + intros p. apply log_insert_other. by rewrite He.
    + apply ledger_ok_log_plain; [done | by rewrite He | left; by rewrite He].
  - unfold log_insert. by rewrite bool_decide_true.
Qed.

Lemma reversal_covered rows o amt h now :
  (∃ r, r ∈ rows ∧ reverses (column o) r) → covered rows (reversalEntry o amt h now) = true.
Proof.
  intros (r & Hr & Hrev). apply covered_spec. exists r. split; [done|].
  rewrite reverses_column in Hrev. destruct Hrev as ([He Hd] & Hc & Hk).
  apply same_identity_spec. left. apply same_key_spec. rewrite same_leg_spec.
  split_and!; [discriminate | exact Hk | exact He | exact Hd | exact Hc].
Qed.

Lemma lwp_replay_reversal o amt h now (Q : unit → LedgerDB → Prop) db :
  ledger_ok None db → (∃ r, r ∈ ledger_entries db ∧ reverses (column o) r) →
  (∀ db', replayed db db' → Q tt db') →
  lwp false (bookProceedsReversal o amt h now) Q db.
Proof.
  intros Hok Hr HQ. apply lwp_bind, lwp_wrapped, lwp_audit; [done|].
  set (u0 := mkAudit _ _ _ _ _ _).
  pose proof (replayed_log db u0 Hok (or_introl eq_refl)) as Hrep.
  apply lwp_replay; [|by apply HQ]. destruct Hrep as [-> _]. by apply reversal_covered.
Qed.

Lemma lwp_replay_reverse_if o amt now (Q : unit → LedgerDB → Prop) db :
  ledger_ok None db →
  ((∃ d, (column o, d) ∈ deposit_funding db) →
   ∃ r, r ∈ ledger_entries db ∧ reverses (column o) r) →
  (∀ db', replayed db db' → Q tt db') →
  lwp false (reverseIfDepositFunded o amt now) Q db.
Proof.
  intros Hok Hr HQ. apply lwp_bind, lwp_wrapped, lwp_deposits. intros ds Hds.
  destruct ds as [|d ds]; [by apply lwp_ret, HQ|].
  destruct (proj1 (Hds d) ltac:(left)) as (c & Hc & ->).
  apply lwp_bind, lwp_wrapped, lwp_created.
  destruct (ok_funded _ _ Hok _ _ Hc) as [-> [u Hu]]. rewrite Hu.
  apply lwp_replay_reversal; [done | by apply Hr; eexists | done].
Qed.

Lemma fund_same i d db : (column i, column d) ∈ deposit_funding db → fund i d db = db.
Proof. intros H. unfold fund. replace (_ ∪ _) with (deposit_funding db) by set_solver. by destruct db. Qed.

Lemma lwp_replay_deposit_funding deposit h now inputs (Q : unit → LedgerDB → Prop) : ∀ db,
  ledger_ok None db →
  Forall (λ i, (column i, column deposit) ∈ deposit_funding db) inputs →
  (∀ db', replayed db db' → Q tt db') →
  lwp false (bookDepositFunding deposit h now inputs) Q db.
Proof.
  induction inputs as [|i inputs IH]; intros db Hok Hall HQ; simpl; [by apply lwp_ret, HQ|].
  apply Forall_cons in Hall as [Hi Hall].
  apply lwp_bind, lwp_wrapped, lwp_fund. rewrite (fund_same _ _ _ Hi).
  apply lwp_bind, lwp_wrapped, lwp_created.
  destruct (wallet_utxo_log db !! _) as [u|] eqn:Hu; [|by apply IH].
  destruct (IsOwnWalletProceeds (ClassifiedAs u)) eqn:Hp; [|by apply IH].
  apply lwp_bind, lwp_replay_reversal; [done | |].
  - destruct (ok_recycled _ _ Hok _ _ _ ltac:(done) Hi Hu Hp) as (r & ? & ? & _). eauto.
  - intros db' Hrep. pose proof Hrep as (_ & Hf & _ & Hok'). apply IH; [done | by rewrite Hf |].
    intros db2 Hrep2. apply HQ. by eapply replayed_trans.
Qed.

(** A turn that books no row. *)
Definition quiet (t : turn) (db : LedgerDB) : Prop :=
  ∀ faults, ledger_entries (t db faults).2 = ledger_entries db.

Lemma quiet_fail e db : quiet (fail e) db.
Proof. done. Qed.
Lemma quiet_consume db : quiet consume db.
Proof. done. Qed.
Lemma quiet_commit body db :
  lwp false body (λ _ db', ledger_entries db' = ledger_entries db) db → quiet (commit body) db.
Proof.
  intros Hb faults. specialize (Hb faults ltac:(done)). unfold commit, Commit.
  destruct (body (db, faults)) as [[[]|e] [db' f']]; [|done].
  destruct Hb as [_ Hr]. by destruct f' as [|[] f'].
Qed.

(** Fees of round zero carry no identity; every other message does. *)
Definition identified (msg : LedgerMsg) : bool :=
  match msg with
  | MsgFeePaid m => bool_decide (FeeType m = FeeTypeOnchainSweep) || negb (fp_RoundID m =? 0)%N
  | _ => true
  end.

Lemma quiet_fee audit now m db :
  booked audit (MsgFeePaid m) db → identified (MsgFeePaid m) = true →
  quiet (handleFeePaid now m) db.
Proof.
  unfold booked, identified, handleFeePaid, feeEntry. intros Hb Hi.
  destruct (fp_AmountSat m <=? 0); [apply quiet_fail|].
  destruct (decide (FeeType m = FeeTypeBoarding)) as [He|]; [|destruct (decide (FeeType m =
    FeeTypeRefresh)) as [He|]; [|destruct (decide (FeeType m = FeeTypeOnchainSweep)) as [He|]]].
  - revert Hb Hi. rewrite He. simpl. unfold roundIDOrNil. destruct (_ =? _)%N; [done|].
    intros Hb _. apply quiet_commit, lwp_replay; [by apply Hb | done].
  - revert Hb Hi. rewrite He. simpl. unfold roundIDOrNil. destruct (_ =? _)%N; [done|].
    intros Hb _. apply quiet_commit, lwp_replay; [by apply Hb | done].
  - revert Hb. rewrite He. simpl. destruct (decide (length (fp_IdempotencyKey m) = 32%nat)) as [Hl|Hl].
    + rewrite (bool_decide_true _ Hl). intros Hb. apply quiet_commit, lwp_replay; [|done].
      apply Hb. unfold hasIdentity. simpl. by destruct (fp_IdempotencyKey m).
    + rewrite (bool_decide_false _ Hl). intros _. apply quiet_fail.
  - rewrite !(bool_decide_false (_ = _)) by done. apply quiet_fail.
Qed.

Lemma quiet_received audit now m db :
  booked audit (MsgVTXOReceived m) db → quiet (handleVTXOReceived now m) db.
Proof.
  intros Hb. unfold handleVTXOReceived.
  destruct (vr_AmountSat m <=? 0); [apply quiet_fail|].
  pose proof (receiveCredit_spec (Source m)) as Hsrc.
  destruct (receiveCredit (Source m)) as [credit|]; [|apply quiet_fail].
  apply quiet_commit, lwp_bind, lwp_classify; [tauto | by intros _; apply lwp_ret |].
  intros s c Hnone. destruct Hb as (r & Hr). destruct (Hnone r). naive_solver.
Qed.

Lemma sent_identity now m :
  vs_SessionID m ≠ 0%N ∨ vs_RoundID m ≠ 0%N → hasIdentity (sendLegs now m).1 = true.
Proof.
  unfold hasIdentity, sendLegs, sessionIDOrNil, roundIDOrNil. simpl. rewrite !orb_true_iff.
  intros [Hs|Hr]; [left; right; rewrite (proj2 (N.eqb_neq _ _) Hs)
                  | right; rewrite (proj2 (N.eqb_neq _ _) Hr)]; by apply bool_decide_eq_true.
Qed.

Lemma quiet_sent audit now m db :
  booked audit (MsgVTXOSent m) db → quiet (handleVTXOSent now m) db.
Proof.
  intros [Hsend Hproceeds]. unfold handleVTXOSent.
  destruct (vs_AmountSat m <=? 0); [apply quiet_fail|].
  rewrite (surjective_pairing (sendLegs now m)).
  assert (vs_SessionID m ≠ 0%N ∨ vs_RoundID m ≠ 0%N → quiet (commit (
    then* lwrapped "send leg: " (InsertLedgerEntry (sendLegs now m).1) in
    lwrapped "send proceeds leg: " (WhenSome (sendLegs now m).2))) db) as Hcommit.
  { intros Hi. apply quiet_commit, lwp_bind, lwp_wrapped, lwp_replay.
    - by apply Hsend, sent_identity.
    - apply lwp_wrapped, lwp_replay_when_some; [|done].
      revert Hproceeds. unfold sendLegs. destruct (ProceedsOwnWallet m); [|done].
      simpl. intros Hp. by apply Hp. }
  unfold sessionIDOrNil, roundIDOrNil.
  destruct (N.eqb_spec (vs_SessionID m) 0), (N.eqb_spec (vs_RoundID m) 0);
    try apply quiet_fail; destruct (_ && _); try apply quiet_fail; apply Hcommit; auto.
Qed.

Lemma quiet_exit audit now m db :
  booked audit (MsgExitCost m) db → quiet (handleExitCost now m) db.
Proof.
  intros (Hsend & Hfee & Hproceeds). unfold handleExitCost.
  destruct (_ || _); [apply quiet_fail|]. destruct (_ <=? _); [apply quiet_fail|].
  unfold exitLegs. cbv zeta beta. apply quiet_commit, lwp_bind, lwp_wrapped, lwp_replay.
  { by apply Hsend. }
  apply lwp_bind, lwp_wrapped, lwp_replay; [by apply Hfee|].
  apply lwp_wrapped, lwp_replay_when_some; [|done].
  revert Hproceeds. unfold exitLegs. destruct (DestinationOwnWallet m); [|done].
  simpl. intros Hp. by apply Hp.
Qed.

(** The reversal of a logged proceeds output is booked once a deposit it funded is
    recorded. *)
Lemma reversal_booked db o :
  ledger_ok None db →
  (∃ u, wallet_utxo_log db !! (column o, "created") = Some u ∧
        IsOwnWalletProceeds (ClassifiedAs u) = true) →
  (∃ d, (column o, d) ∈ deposit_funding db) →
  ∃ r, r ∈ ledger_entries db ∧ reverses (column o) r.
Proof.
  intros Hok (u & Hu & Hp) [d Hd].
  destruct (ok_recycled _ _ Hok _ _ _ ltac:(done) Hd Hu Hp) as (r & ? & ? & _). eauto.
Qed.

(** The log has the output a message reports as proceeds. *)
Definition proceeds_logged (audit : bool) (msg : LedgerMsg) (db : LedgerDB) : Prop :=
  ∀ o amt, proceeds_of audit msg = Some (o, amt) →
    ∃ u, wallet_utxo_log db !! (column o, "created") = Some u ∧
         IsOwnWalletProceeds (ClassifiedAs u) = true.

Lemma quiet_created audit now m db :
  ledger_ok None db → booked audit (MsgUTXOCreated m) db →
  proceeds_logged audit (MsgUTXOCreated m) db → quiet (handleUTXOCreated audit now m) db.
Proof.
  intros Hok Hb Hlog. unfold handleUTXOCreated. destruct audit; [|apply quiet_consume].
  cbn [negb]. destruct (uc_AmountSat m <=? 0); [apply quiet_fail|].
  destruct (Hb eq_refl) as (Hcov & Hlogged & Hfund).
  apply quiet_commit, lwp_bind, lwp_audit; [done|]. set (u0 := mkAudit _ _ _ _ _ _).
  assert (log_insert u0 db = db) as ->.
  { unfold log_insert. by rewrite bool_decide_true. }
  apply lwp_bind. apply lwp_mono with (λ _ db', db' = db).
  { destruct (creditAlreadyBooked _); [by apply lwp_ret|].
    apply lwp_replay; [|done]. by apply Hcov. }
  intros _ ? ->. case_bool_decide as Hdep.
  - apply lwp_replay_deposit_funding; [done | by apply Hfund |]. by intros db' [? _].
  - destruct (IsOwnWalletProceeds _) eqn:Hp; [|by apply lwp_ret].
    apply lwp_replay_reverse_if; [done | | by intros db' [? _]].
    apply reversal_booked; [done|]. eapply Hlog. simpl. by rewrite Hp.
Qed.

Lemma quiet_spent audit now m db :
  booked audit (MsgUTXOSpent m) db → quiet (handleUTXOSpent audit now m) db.
Proof.
  intros Hb. unfold handleUTXOSpent. destruct audit; [|apply quiet_consume]. cbn [negb].
  set (u0 := mkAudit _ _ _ _ _ _). destruct (log_insert_rows u0 db) as [Hr _].
  case_bool_decide as Hc.
  - destruct (_ <=? _); [apply quiet_fail|].
    apply quiet_commit, lwp_bind, lwp_audit; [done|]. apply lwp_replay; [|done].
    rewrite Hr. by apply Hb.
  - by apply quiet_commit, lwp_audit.
Qed.

(** A leg that is booked, with its output in the log. *)
Definition row_logged (db : LedgerDB) (u : UTXOAuditEntry) : Prop :=
  u_Event u = "spent" ∨
  u_Event u = "created" ∧ is_Some (wallet_utxo_log db !! (column (u_Outpoint u), "created")).

Definition leg_booked (audit : bool) (db : LedgerDB) (leg : sweepLeg) : Prop :=
  covered (ledger_entries db) leg.2 = true ∧
  (audit = true → from_option (row_logged db) True leg.1).

Lemma leg_booked_replayed audit db db' leg :
  replayed db db' → leg_booked audit db leg → leg_booked audit db' leg.
Proof.
  intros (Hr & _ & Hs & _) [Hc Hrow]. split; [by rewrite Hr|].
  intros Ha. specialize (Hrow Ha). destruct leg.1; [|done].
  simpl in *. unfold row_logged. by rewrite Hs.
Qed.

Lemma lwp_replay_leg_row (audit : bool) row (Q : unit → LedgerDB → Prop) db :
  ledger_ok None db → (audit = true → from_option (row_logged db) True row) →
  (∀ db', replayed db db' → Q tt db') →
  lwp false (match row with
             | Some u => if audit then InsertUTXOAuditEntry u else lret tt
             | None => lret tt
             end) Q db.
Proof.
  intros Hok Hrow HQ. destruct row as [u|]; [destruct audit|]; try by apply lwp_ret, HQ.
  apply lwp_audit; [done|]. apply HQ, replayed_log; [done|].
  destruct (Hrow eq_refl) as [?|[He ?]]; [by left | right; by rewrite He].
Qed.

Lemma lwp_replay_legs (audit : bool) legs (Q : unit → LedgerDB → Prop) : ∀ db,
  ledger_ok None db → Forall (leg_booked audit db) legs →
  (∀ db', replayed db db' → Q tt db') → lwp false (insertLegs audit legs) Q db.
Proof.
  induction legs as [|[row e] legs IH]; intros db Hok Hall HQ; cbn [insertLegs];
    [by apply lwp_ret, HQ|].
  apply Forall_cons in Hall as [[Hc Hrow] Hall].
  apply lwp_bind, lwp_replay_leg_row; [done | done |]. intros db1 Hrep.
  pose proof Hrep as (Hr & _ & _ & Hok1).
  apply lwp_bind, lwp_replay; [by rewrite Hr|]. apply IH; [done | |].
  - eapply Forall_impl; [exact Hall|]. intros leg. by apply leg_booked_replayed.
  - intros db2 Hrep2. apply HQ. by eapply replayed_trans.
Qed.

Lemma sweep_legs_booked audit now m db :
  booked audit (MsgBoardingSweepConfirmed m) db →
  proceeds_logged audit (MsgBoardingSweepConfirmed m) db →
  Forall (leg_booked audit db) (boardingSweepLegs now m).
Proof.
  unfold booked, boardingSweepLegs, proceeds_logged, proceeds_of.
  rewrite !Forall_cons, !Forall_app, !Forall_singleton, !Forall_fmap.
  intros (Hf & Hi & Hd) Hlog. split_and!.
  - split; [by apply Hf | done].
  - eapply Forall_impl; [exact Hi|]. intros i Hc. split; [by apply Hc | intros _; by left].
  - destruct (DestinationExternal m); [split; [by apply Hd | done]|].
    split; [by apply Hd|]. intros ->. right. split; [done|].
    destruct (Hlog _ _ eq_refl) as (u & Hu & _). by exists u.
Qed.

Lemma quiet_sweep audit now m db :
  ledger_ok None db → booked audit (MsgBoardingSweepConfirmed m) db →
  proceeds_logged audit (MsgBoardingSweepConfirmed m) db →
  quiet (handleBoardingSweepConfirmed audit now m) db.
Proof.
  intros Hok Hb Hlog. unfold handleBoardingSweepConfirmed.
  destruct (ChainCostSat m <=? 0); [apply quiet_fail|].
  destruct (DestinationSat m <=? 0); [apply quiet_fail|].
  destruct (bool_decide _); [apply quiet_fail|]. destruct (existsb _ _); [apply quiet_fail|].
  apply quiet_commit, lwp_bind, lwp_replay_legs; [done | by apply sweep_legs_booked |].
  intros db1 Hrep. pose proof Hrep as (Hr & Hf & Hs & Hok1).
  destruct (DestinationExternal m) eqn:Hext; [by apply lwp_ret|].
  destruct audit; [|by apply lwp_ret]. cbn [orb negb].
  apply lwp_replay_reverse_if; [done | |].
  - apply reversal_booked; [done|]. rewrite (Hs _). eapply Hlog. simpl. by rewrite Hext.
  - intros db2 [Hr2 _]. by rewrite Hr2.
Qed.

Lemma Receive_quiet audit now msg db :
  ledger_ok None db → booked audit msg db → identified msg = true →
  proceeds_logged audit msg db → quiet (Receive audit now msg) db.
Proof.
  intros Hok Hb Hi Hlog. destruct msg; cbn [Receive].
  - apply quiet_consume.
  - by eapply quiet_fee.
  - by eapply quiet_received.
  - by eapply quiet_sent.
  - by eapply quiet_exit.
  - by apply quiet_created.
  - by eapply quiet_spent.
  - by apply quiet_sweep.
Qed.

(** What a committed message left stays. *)
Lemma booked_later audit msg db db' : extends db db' → booked audit msg db → booked audit msg db'.
Proof.
  intros Hx. pose proof (λ e, extends_covered db db' e Hx) as Hcov.
  destruct msg; simpl; try done.
  - destruct (feeEntry 0 m); auto.
  - intros (r & Hr & ?). exists r. split; [by eapply extends_rows | done].
  - intros [? ?]. split; [auto|]. destruct (ProceedsOwnWallet m); simpl in *; auto.
  - intros (? & ? & ?). split_and!; auto. destruct (DestinationOwnWallet m); simpl in *; auto.
  - intros Hb Ha. destruct (Hb Ha) as (? & [u Hu] & Hf). split_and!; [auto | |].
    + exists u. by eapply extends_created.
    + intros Hd. eapply Forall_impl; [by apply Hf|]. intros i Hi. by apply Hx.
  - auto.
  - intros Hall. eapply Forall_impl; [exact Hall|]. auto.
Qed.

(** ** Balances *)

Lemma total_app l k : total (l ++ k) = total l + total k.
Proof. induction l as [|e l IH]; simpl; lia. Qed.

(** What a row adds to the balance of an account. *)
Definition effect (a : string) (e : LedgerEntry) : Z :=
  (if bool_decide (DebitAccount e = a) then e_AmountSat e else 0) -
  (if bool_decide (CreditAccount e = a) then e_AmountSat e else 0).

Definition effects (a : string) (l : list LedgerEntry) : Z := foldr (λ e n, effect a e + n) 0 l.

Lemma balance_effects db a : GetAccountBalance db a = effects a (ledger_entries db).
Proof.
  unfold GetAccountBalance, effects. induction (ledger_entries db) as [|e l IH]; [done|].
  rewrite !filter_cons. simpl. rewrite <- IH. unfold effect.
  repeat (case_decide || case_bool_decide); simpl; try done; lia.
Qed.

Lemma effects_cons a e l : effects a (e :: l) = effect a e + effects a l.
Proof. done. Qed.

Lemma effects_app a l k : effects a (l ++ k) = effects a l + effects a k.
Proof. unfold effects. induction l as [|e l IH]; simpl; lia. Qed.

(** The sum over a chart of accounts. *)
Definition sum_over (l : list string) (f : string → Z) : Z := foldr (λ a n, f a + n) 0 l.

Lemma sum_over_add l f g : sum_over l (λ a, f a + g a) = sum_over l f + sum_over l g.
Proof. unfold sum_over. induction l as [|a l IH]; simpl; lia. Qed.

Lemma sum_over_ext l f g : (∀ a, f a = g a) → sum_over l f = sum_over l g.
Proof. intros H. unfold sum_over. induction l as [|a l IH]; simpl; [done | by rewrite H, IH]. Qed.

Lemma sum_over_indicator l b z :
  NoDup l → b ∈ l → sum_over l (λ a, if bool_decide (b = a) then z else 0) = z.
Proof.
  induction 1 as [|a l Ha Hl IH]; intros Hb; [by apply not_elem_of_nil in Hb|]. simpl.
  assert (b ∉ l → sum_over l (λ a, if bool_decide (b = a) then z else 0) = 0) as Hout.
  { clear. unfold sum_over. induction l as [|c l IH]; intros Hb; [done|]. simpl.
    rewrite bool_decide_false by set_solver. rewrite IH by set_solver. done. }
  unfold sum_over in *. apply elem_of_cons in Hb as [->|Hb].
  - rewrite bool_decide_true, Hout by done. lia.
  - rewrite bool_decide_false by set_solver. by rewrite IH.
Qed.

Lemma accounts_NoDup : NoDup accounts.
Proof. apply (bool_decide_unpack _). vm_compute. exact I. Qed.

(** Every row takes from one account of the chart what it gives to another. *)
Lemma effects_balanced rows :
  (∀ r, r ∈ rows → DebitAccount r ∈ accounts ∧ CreditAccount r ∈ accounts) →
  sum_over accounts (λ a, effects a rows) = 0.
Proof.
  induction rows as [|e rows IH]; intros Hrows; [done|].
  destruct (Hrows e ltac:(left)) as [Hd Hc].
  pose proof (sum_over_indicator _ _ (e_AmountSat e) accounts_NoDup Hd) as H1.
  pose proof (sum_over_indicator _ _ (- e_AmountSat e) accounts_NoDup Hc) as H2.
  rewrite (sum_over_ext _ _ (λ a,
    (if bool_decide (DebitAccount e = a) then e_AmountSat e else 0) +
    ((if bool_decide (CreditAccount e = a) then - e_AmountSat e else 0) + effects a rows))).
  - rewrite !sum_over_add, H1, H2, IH; [lia|]. intros r Hr. apply Hrows. by right.
  - intros a. unfold effects at 1. simpl. fold (effects a rows). unfold effect.
    repeat case_bool_decide; lia.
Qed.

(** C30 The books are sound in every history, whatever is delivered, in any order,
    with any failures: every row has a positive amount and moves it between two
    different accounts, so the accounts sum to nothing; no two rows share a round,
    session or key identity; and an output is received at most once, whichever
    account its receipt was credited to. *)
Theorem ledger_books_sound audit db :
  ledger_reach audit db →
  (∀ r, r ∈ ledger_entries db → 0 < e_AmountSat r ∧ DebitAccount r ≠ CreditAccount r) ∧
  sum_over accounts (GetAccountBalance db) = 0 ∧
  (∀ i j a b, ledger_entries db !! i = Some a → ledger_entries db !! j = Some b →
     same_identity a b = true → i = j) ∧
  (∀ i j a b, ledger_entries db !! i = Some a → ledger_entries db !! j = Some b →
     EventType a = EventVTXOReceived → EventType b = EventVTXOReceived →
     e_IdempotencyKey a = e_IdempotencyKey b → i = j).
Proof.
  intros Hreach%reach_ok. split_and!.
  - intros r Hr. destruct (ok_rows _ _ Hreach r Hr) as [Hok _].
    unfold row_ok in Hok. rewrite andb_true_iff, Z.ltb_lt, negb_true_iff, bool_decide_eq_false in Hok.
    exact Hok.
  - rewrite (sum_over_ext _ _ (λ a, effects a (ledger_entries db))).
    + apply effects_balanced. intros r Hr. apply (ok_rows _ _ Hreach r Hr).
    + intros a. apply balance_effects.
  - apply (ok_unique _ _ Hreach).
  - apply (ok_receive _ _ Hreach).
Qed.

(** C33 Errors: a turn that fails leaves the tables as they were.  It reports an
    invalid message exactly when the message is malformed, which no table can
    change.  Only a fault of the database, or a classification it does not know,
    is tried again, at most five times; a malformed message and a conflict of
    identities are refused for good. *)
Theorem ledger_turn_errors audit db now msg faults e db' :
  ledger_reach audit db → Receive audit now msg db faults = (Err e, db') →
  db' = db ∧
  (malformed audit msg = true ↔ ∃ text, e = ErrInvalidMessage text) ∧
  (∀ attempts, (ledgerTellRetryPolicy e attempts).1 = true →
     (attempts < 5)%nat ∧ malformed audit msg = false ∧
     (true ∈ faults ∨ known_class msg = false)).
Proof.
  intros Hreach%reach_ok Hturn.
  pose proof (Receive_spec audit false now msg db Hreach ltac:(done) faults ltac:(done)) as Hs.
  rewrite Hturn in Hs. destruct Hs as [-> Hs]. split_and!; [done | |].
  - destruct (malformed audit msg); [naive_solver|]. split; [done|]. by intros [t ->].
  - intros n Hr. destruct (malformed audit msg) eqn:Hm; [by destruct Hs as [t ->]|].
    destruct e as [| |t]; [done | done |]. simpl in Hr. unfold DefaultTellRetryPolicy in Hr.
    destruct (Nat.leb_spec 5 n); [done|]. split_and!; [lia | done |].
    destruct (decide (true ∈ faults)) as [|Hf]; [by left|]. right.
    apply not_true_iff_false. intros Hk.
    pose proof (Receive_spec audit true now msg db Hreach (λ _, Hk) faults (λ _, Hf)) as Hs'.
    rewrite Hturn, Hm in Hs'. by destruct Hs' as [_ Hs'].
Qed.

(** C31 Redelivery: once a message has committed, delivering it again, after any
    further turns and at any time, books no row.  Fees of round zero carry no
    identity and are excepted; for an output reported as the wallet's own proceeds,
    the first report is the one that counts. *)
Theorem ledger_redelivery_neutral audit db db1 db2 now1 now2 msg faults1 faults2 :
  ledger_reach audit db → Receive audit now1 msg db faults1 = (Ok tt, db1) →
  identified msg = true →
  (∀ o amt, proceeds_of audit msg = Some (o, amt) →
     wallet_utxo_log db !! (column o, "created") = None) →
  ledger_later audit db1 db2 →
  ledger_entries (Receive audit now2 msg db2 faults2).2 = ledger_entries db2.
Proof.
  intros Hreach%reach_ok Hturn Hi Hfresh Hlater.
  pose proof (Receive_spec audit false now1 msg db Hreach ltac:(done) faults1 ltac:(done)) as Hs.
  rewrite Hturn in Hs. destruct Hs as (_ & Hok1 & _ & Hbooked & Hlogged).
  destruct (later_ok _ _ _ Hlater Hok1) as [Hok2 Hx].
  apply Receive_quiet; [done | by eapply booked_later | done |].
  intros o amt Ho. destruct (Hlogged o amt Ho (Hfresh o amt Ho)) as (u & Hu & _ & Hp).
  exists u. split; [by eapply extends_created | done].
Qed.

(** C32 Recycled coins are counted once: when an output the wallet was already
    credited for is recorded as funding a deposit, in whichever order the two are
    reported, exactly one row takes its amount back; and no such row exists for an
    output that funds no deposit. *)
Theorem ledger_recycled_counted_once audit db :
  ledger_reach audit db →
  (∀ p d u, (p, d) ∈ deposit_funding db → wallet_utxo_log db !! (p, "created") = Some u →
     IsOwnWalletProceeds (ClassifiedAs u) = true →
     ∃ i r, ledger_entries db !! i = Some r ∧ reverses p r ∧ e_AmountSat r = u_AmountSat u ∧
       ∀ j r', ledger_entries db !! j = Some r' → reverses p r' → j = i) ∧
  (∀ r, r ∈ ledger_entries db → is_reversal r →
     ∃ p d, reverses p r ∧ (p, d) ∈ deposit_funding db).
Proof.
  intros Hreach%reach_ok. split; [|apply (ok_reversal _ _ Hreach)].
  intros p d u Hd Hu Hp.
  destruct (ok_recycled _ _ Hreach _ _ _ ltac:(done) Hd Hu Hp) as (r & Hr & Hrev & Ha).
  apply list_elem_of_lookup in Hr as [i Hi]. exists i, r. split_and!; try done.
  intros j r' Hj Hrev'. eapply (ok_unique _ _ Hreach); [done | done |].
  apply same_identity_spec. left. apply same_key_spec. rewrite same_leg_spec.
  destruct Hrev as ([He Hdb] & Hc & Hk), Hrev' as ([He' Hdb'] & Hc' & Hk').
  split_and!; [by rewrite Hk' | congruence..].
Qed.

(** ** What a message does to the balances *)

Lemma lwp_fresh e (Q : unit → LedgerDB → Prop) db :
  covered (ledger_entries db) e = false →
  Q tt (set_entries db (ledger_entries db ++ [e])) → lwp false (InsertLedgerEntry e) Q db.
Proof. intros Hc HQ. apply lwp_insert; [done|]. intros _ _. by rewrite insert_fresh. Qed.

Lemma covered_snoc rows a e : covered (rows ++ [a]) e = covered rows e || same_identity e a.
Proof. unfold covered. rewrite existsb_app. simpl. by rewrite orb_false_r. Qed.

Lemma other_leg e a : same_leg a e = false → same_identity e a = false.
Proof.
  intros Hl. apply not_true_iff_false.
  rewrite same_identity_spec, same_key_spec, same_session_spec, same_round_spec, Hl. naive_solver.
Qed.

(** A committed turn ends where its transaction does. *)
Lemma commit_ok body (Q : LedgerDB → Prop) db faults db' :
  lwp false body (λ _, Q) db → commit body db faults = (Ok tt, db') → Q db'.
Proof.
  intros Hb Hc. pose proof (twp_commit _ _ _ _ Hb faults ltac:(done)) as Ht.
  rewrite Hc in Ht. apply Ht.
Qed.

(** The change of a balance over a turn. *)
Definition change (a : string) (db db' : LedgerDB) : Z :=
  GetAccountBalance db' a - GetAccountBalance db a.

Lemma change_app a db db' l :
  ledger_entries db' = ledger_entries db ++ l → change a db db' = effects a l.
Proof. intros H. unfold change. rewrite !balance_effects, H, effects_app. lia. Qed.

Lemma confirmed_cost_app o db db' l :
  ledger_entries db' = ledger_entries db ++ l →
  GetConfirmedExitCost db' o = GetConfirmedExitCost db o + total (filter (λ e,
    EventType e = EventOnchainFeePaid ∧
    e_IdempotencyKey e = exitFeeIdempotencyKey (op_Hash o) (op_Index o)) l).
Proof. intros H. unfold GetConfirmedExitCost. rewrite H, filter_app, total_app. done. Qed.

Definition exit_rows (now : Z) (m : ExitCostMsg) : list LedgerEntry :=
  [(exitLegs now m).1.1; (exitLegs now m).1.2] ++ option_list (exitLegs now m).2.

(** The legs of an exit are rows of different kinds. *)
Lemma exit_legs_distinct now m :
  let '(s, f, p) := exitLegs now m in
  same_leg s f = false ∧ from_option (λ p, same_leg s p = false ∧ same_leg f p = false) True p.
Proof. unfold exitLegs. by destruct (DestinationOwnWallet m). Qed.

Lemma exit_rows_booked now m faults db db' :
  handleExitCost now m db faults = (Ok tt, db') →
  Forall (λ e, covered (ledger_entries db) e = false) (exit_rows now m) →
  ledger_entries db' = ledger_entries db ++ exit_rows now m.
Proof.
  pose proof (exit_legs_distinct now m) as Hd. revert Hd.
  unfold handleExitCost, exit_rows. destruct (_ || _); [done|]. destruct (_ <=? _); [done|].
  destruct (exitLegs now m) as [[s f] p]. simpl. rewrite !Forall_cons.
  intros [Hsf Hp] Hc (H1 & H2 & H3).
  refine (commit_ok _ (λ db', ledger_entries db' = ledger_entries db ++ s :: f :: option_list p)
            _ _ _ _ Hc).
  apply lwp_bind, lwp_wrapped, lwp_fresh; [done|]. apply lwp_bind, lwp_wrapped, lwp_fresh.
  { simpl. by rewrite covered_snoc, H2, other_leg. }
  apply lwp_wrapped. destruct p as [p|]; simpl in *.
  - apply lwp_fresh; simpl; [|by rewrite <- !app_assoc].
    rewrite Forall_singleton in H3. destruct Hp as [Hps Hpf].
    by rewrite !covered_snoc, H3, (other_leg _ _ Hps), (other_leg _ _ Hpf).
  - apply lwp_ret. simpl. by rewrite <- app_assoc.
Qed.

(** An exit that commits for the first time takes the exited amount from the
    off-chain balance: its cost to the on-chain fees, the rest to the wallet when
    the wallet owns the destination, and out of the books when it does not; and the
    cost is the one the exit's outpoint is reported with from then on. *)
Theorem ledger_exit_balances audit now m faults db db' :
  Receive audit now (MsgExitCost m) db faults = (Ok tt, db') →
  Forall (λ e, covered (ledger_entries db) e = false) (exit_rows now m) →
  let net := ec_AmountSat m - ExitCostSat m in
  let o := mkOutPoint (ec_OutpointHash m) (ec_OutpointIndex m) in
  change AccountVTXOBalance db db' = - ec_AmountSat m ∧
  change AccountOnchainFees db db' = ExitCostSat m ∧
  change AccountWalletBalance db db' = (if DestinationOwnWallet m then net else 0) ∧
  change AccountTransfersOut db db' = (if DestinationOwnWallet m then 0 else net) ∧
  GetConfirmedExitCost db' o = GetConfirmedExitCost db o + ExitCostSat m.
Proof.
  intros Hturn Hfresh net o. pose proof (exit_rows_booked _ _ _ _ _ Hturn Hfresh) as Hrows.
  rewrite !(change_app _ _ _ _ Hrows), (confirmed_cost_app _ _ _ _ Hrows).
  assert (total (filter (λ e, EventType e = EventOnchainFeePaid ∧ e_IdempotencyKey e =
    exitFeeIdempotencyKey (ec_OutpointHash m) (ec_OutpointIndex m)) (exit_rows now m)) =
    ExitCostSat m) as Hcost.
  { unfold exit_rows, exitLegs. cbn [fst snd app option_list].
    rewrite filter_cons_False by by intros [? _]. rewrite filter_cons_True by done.
    destruct (DestinationOwnWallet m); unfold option_list; cbn [option_rect];
      [rewrite filter_cons_False by by intros [? _]|]; rewrite filter_nil; simpl; lia. }
  split_and!; [..|apply (f_equal (Z.add _)); exact Hcost]; unfold exit_rows, exitLegs, effects, effect;
    destruct (DestinationOwnWallet m); simpl; subst net; lia.
Qed.

(** *** Keys *)

Lemma be_bytes_inj n a b : be_bytes n a = be_bytes n b → a mod 256 ^ Z.of_nat n = b mod 256 ^ Z.of_nat n.
Proof.
  induction n as [|n IH]; [by rewrite !Z.mod_1_r|].
  rewrite !be_bytes_S. intros [= H1 H2%IH].
  replace (Z.of_nat (S n)) with (Z.of_nat n + 1) by lia.
  rewrite Z.pow_add_r, Z.pow_1_r by lia.
  assert (0 < 256 ^ Z.of_nat n) by (apply Z.pow_pos_nonneg; lia).
  by rewrite !Z.rem_mul_r, H1, H2 by lia.
Qed.

(** The range of a [wire.OutPoint]. *)
Definition outpoint_ok (o : OutPoint) : Prop :=
  (op_Hash o < 2 ^ 256)%N ∧ is_uint32 (op_Index o).

(** Keys tell outputs apart: two output keys, or two keys of one kind of leg, are
    equal only for one output. *)
Lemma outpoint_payload_inj a b :
  outpoint_ok a → outpoint_ok b →
  outpointIdempotencyPayload (op_Hash a) (op_Index a) =
  outpointIdempotencyPayload (op_Hash b) (op_Index b) → a = b.
Proof.
  intros [Ha Hia] [Hb Hib] Heq. unfold outpointIdempotencyPayload, hash_bytes in Heq.
  apply app_inj_1 in Heq as [Hh Hi]; [|by rewrite !be_bytes_length].
  apply be_bytes_inj in Hh, Hi. unfold is_uint32 in *.
  change (256 ^ Z.of_nat 4) with 4294967296 in Hi.
  change (256 ^ Z.of_nat 32) with (Z.of_N (2 ^ 256)) in Hh.
  rewrite !Z.mod_small in Hh, Hi by lia. destruct a, b. simpl in *. f_equal; lia.
Qed.

(** *** Sweeps *)

Fixpoint all_fresh (rows es : list LedgerEntry) : Prop :=
  match es with
  | [] => True
  | e :: es => covered rows e = false ∧ all_fresh (rows ++ [e]) es
  end.

Lemma all_fresh_intro es : ∀ rows,
  Forall (λ e, covered rows e = false) es →
  ForallOrdPairs (λ a b, same_identity b a = false) es → all_fresh rows es.
Proof.
  induction es as [|e es IH]; intros rows Hf Hp; [done|].
  apply Forall_cons in Hf as [He Hf]. inversion_clear Hp as [|? ? Hhead Htail].
  split; [done|]. apply IH; [|done].
  apply Forall_forall. intros b Hb. rewrite covered_snoc.
  rewrite Forall_forall in Hf. rewrite (Hf b Hb). simpl.
  rewrite List.Forall_forall in Hhead. apply Hhead. by apply list_elem_of_In.
Qed.

Lemma lwp_fresh_legs audit legs (Q : unit → LedgerDB → Prop) : ∀ db,
  all_fresh (ledger_entries db) (legs.*2) →
  (∀ db', ledger_entries db' = ledger_entries db ++ legs.*2 → Q tt db') →
  lwp false (insertLegs audit legs) Q db.
Proof.
  induction legs as [|[row e] legs IH]; intros db Hf HQ; cbn [insertLegs].
  { apply lwp_ret, HQ. simpl. by rewrite app_nil_r. }
  destruct Hf as [He Hf]. apply lwp_bind. apply lwp_mono with
    (λ _ db', ledger_entries db' = ledger_entries db).
  { destruct row as [u|]; [destruct audit|]; try by apply lwp_ret.
    apply lwp_audit; [done|]. apply log_insert_rows. }
  intros _ db1 Hr. apply lwp_bind, lwp_fresh; [by rewrite Hr|]. apply IH.
  - simpl. by rewrite Hr.
  - intros db' Hr'. apply HQ. rewrite Hr'. simpl. by rewrite Hr, <- app_assoc.
Qed.

Lemma FOP_snoc {A} (R : A → A → Prop) l x :
  ForallOrdPairs R l → Forall (λ a, R a x) l → ForallOrdPairs R (l ++ [x]).
Proof.
  induction 1 as [|a l Ha Hl IH]; intros Hx; simpl; [repeat constructor|].
  apply Forall_cons in Hx as [Hax Hx]. constructor; [|by apply IH].
  apply List.Forall_app. split; [done | by repeat constructor].
Qed.

Lemma input_legs_distinct now m l :
  Forall outpoint_ok (si_Outpoint <$> l) → NoDup (si_Outpoint <$> l) →
  ForallOrdPairs (λ a b, same_identity b a = false) ((sweepInputLeg now m <$> l).*2).
Proof.
  induction l as [|i l IH]; [constructor|]. simpl.
  rewrite Forall_cons, NoDup_cons. intros [Hi Hl] [Hni Hnd]. constructor; [|by apply IH].
  apply List.Forall_forall. intros e He%list_elem_of_In.
  apply list_elem_of_fmap in He as (leg & -> & He). apply list_elem_of_fmap in He as (j & -> & Hj).
  apply not_true_iff_false. rewrite same_identity_spec, same_key_spec, same_session_spec,
    same_round_spec. simpl. intros [(_ & Hk & _)|[([? [=]] & _)|([? [=]] & _)]].
  apply Hni. assert (si_Outpoint j ∈ si_Outpoint <$> l) as Hj' by (apply list_elem_of_fmap; eauto).
  rewrite Forall_forall in Hl. apply outpoint_payload_inj in Hk; [by rewrite Hk | done | auto].
Qed.

Lemma sweep_legs_distinct now m :
  Forall outpoint_ok (si_Outpoint <$> Inputs m) → NoDup (si_Outpoint <$> Inputs m) →
  ForallOrdPairs (λ a b, same_identity b a = false) ((boardingSweepLegs now m).*2).
Proof.
  intros Hok Hnd. unfold boardingSweepLegs. rewrite fmap_cons, fmap_app. constructor.
  - apply List.Forall_app. split;
      [|constructor; [destruct (DestinationExternal m); by apply other_leg | constructor]].
    apply List.Forall_forall. intros e He%list_elem_of_In.
    apply list_elem_of_fmap in He as (leg & -> & He). apply list_elem_of_fmap in He as (j & -> & _).
    by apply other_leg.
  - apply FOP_snoc; [by apply input_legs_distinct|].
    apply Forall_forall. intros e He.
    apply list_elem_of_fmap in He as (leg & -> & He). apply list_elem_of_fmap in He as (j & -> & _).
    apply other_leg. by destruct (DestinationExternal m).
Qed.

Definition sum_inputs (l : list SweepInput) : Z := foldr (λ i n, si_AmountSat i + n) 0 l.

Lemma effects_inputs a now m l :
  effects a ((sweepInputLeg now m <$> l).*2) =
    if bool_decide (a = AccountWalletClearing) then sum_inputs l
    else if bool_decide (a = AccountWalletBalance) then - sum_inputs l else 0.
Proof.
  induction l as [|i l IH]; [simpl; by repeat case_bool_decide|].
  rewrite !fmap_cons, effects_cons, IH. unfold effect. simpl.
  destruct (decide (a = AccountWalletClearing)) as [->|Hc]; [simpl; lia|].
  rewrite (bool_decide_false (AccountWalletClearing = a)) by congruence.
  rewrite (bool_decide_false (a = AccountWalletClearing)) by done.
  destruct (decide (a = AccountWalletBalance)) as [->|Hw]; [simpl; lia|].
  rewrite (bool_decide_false (AccountWalletBalance = a)) by congruence.
  rewrite (bool_decide_false (a = AccountWalletBalance)) by done. lia.
Qed.

(** A reversal may follow a sweep into the wallet. *)
Lemma lwp_reverse_rows o amt now db :
  lwp false (reverseIfDepositFunded o amt now)
    (λ _ db', ∃ extra, ledger_entries db' = ledger_entries db ++ extra ∧
       (extra = [] ∨ ∃ h, extra = [reversalEntry o amt h now])) db.
Proof.
  apply lwp_bind, lwp_wrapped, lwp_deposits. intros ds _.
  assert (∃ extra, ledger_entries db = ledger_entries db ++ extra ∧
    (extra = [] ∨ ∃ h, extra = [reversalEntry o amt h now])) as Hnone.
  { exists []. rewrite app_nil_r. auto. }
  destruct ds as [|d ds]; [by apply lwp_ret|].
  apply lwp_bind, lwp_wrapped, lwp_created.
  destruct (_ !! _) as [u|]; [|by intros faults _].
  apply lwp_bind, lwp_wrapped, lwp_audit; [done|]. apply lwp_insert; [done|]. intros _ _.
  set (u0 := mkAudit _ _ _ _ _ _). destruct (log_insert_rows u0 db) as [-> _].
  unfold set_entries, ledger_entries at 1. unfold insert_row.
  destruct (existsb _ _); [done|]. eexists. split; [done|]. eauto.
Qed.

Definition sweep_rows (now : Z) (m : BoardingSweepConfirmedMsg) : list LedgerEntry :=
  (boardingSweepLegs now m).*2.

Lemma sweep_rows_booked audit now m faults db db' :
  handleBoardingSweepConfirmed audit now m db faults = (Ok tt, db') →
  Forall outpoint_ok (si_Outpoint <$> Inputs m) → NoDup (si_Outpoint <$> Inputs m) →
  Forall (λ e, covered (ledger_entries db) e = false) (sweep_rows now m) →
  ∃ extra, ledger_entries db' = ledger_entries db ++ sweep_rows now m ++ extra ∧
    (extra = [] ∨ ∃ o amt h, extra = [reversalEntry o amt h now]).
Proof.
  intros Hturn Hrange Hnd Hfresh. revert Hturn. unfold handleBoardingSweepConfirmed.
  do 2 (destruct (_ <=? _); [done|]). destruct (bool_decide _); [done|].
  destruct (existsb _ _); [done|]. refine (commit_ok _ (λ db', ∃ extra, ledger_entries db' =
    ledger_entries db ++ sweep_rows now m ++ extra ∧ _) _ _ _ _).
  apply lwp_bind, lwp_fresh_legs.
  { apply all_fresh_intro; [done | by apply sweep_legs_distinct]. }
  intros db1 Hr1. destruct (_ || _).
  - apply lwp_ret. exists []. rewrite app_nil_r. auto.
  - eapply lwp_mono; [apply lwp_reverse_rows|]. intros _ db2 (extra & Hr2 & He).
    exists extra. rewrite Hr2, Hr1, <- app_assoc. split; [done|]. naive_solver.
Qed.

(** A sweep that commits for the first time, with distinct inputs, moves through
    the clearing account what the inputs held less what the sweep cost and paid:
    nothing stays there exactly when the message adds up.  The inputs leave the
    wallet and the cost goes to the on-chain fees; what the sweep paid goes out of
    the books, or comes back to the wallet, where a deposit it already funded takes
    it over. *)
Theorem ledger_sweep_balances audit now m faults db db' :
  Receive audit now (MsgBoardingSweepConfirmed m) db faults = (Ok tt, db') →
  Forall outpoint_ok (si_Outpoint <$> Inputs m) → NoDup (si_Outpoint <$> Inputs m) →
  Forall (λ e, covered (ledger_entries db) e = false) (sweep_rows now m) →
  let paid := DestinationSat m in
  change AccountWalletClearing db db' = sum_inputs (Inputs m) - ChainCostSat m - paid ∧
  change AccountOnchainFees db db' = ChainCostSat m ∧
  change AccountTransfersOut db db' = (if DestinationExternal m then paid else 0) ∧
  change AccountWalletBalance db db' + change AccountOpeningBalance db db' =
    (if DestinationExternal m then 0 else paid) - sum_inputs (Inputs m).
Proof.
  intros Hturn Hrange Hnd Hfresh paid.
  destruct (sweep_rows_booked _ _ _ _ _ _ Hturn Hrange Hnd Hfresh) as (extra & Hrows & Hextra).
  rewrite !(change_app _ _ _ _ Hrows). unfold sweep_rows, boardingSweepLegs.
  rewrite fmap_cons, fmap_app, <- app_comm_cons, <- app_assoc.
  change (?x :: ?l) with ([x] ++ l). rewrite !effects_app, !effects_inputs.
  destruct Hextra as [->|(o & amt & h & ->)], (DestinationExternal m);
    unfold effects, effect; simpl; subst paid; lia.
Qed.

(** *** Receipts *)

(** Whether the books have an outgoing send of a session. *)
Definition sent_in (sid : N) (db : LedgerDB) : Prop :=
  ∃ r, r ∈ ledger_entries db ∧ e_SessionID r = Some sid ∧ EventType r = EventVTXOSent ∧
    DebitAccount r = AccountTransfersOut ∧ CreditAccount r = AccountVTXOBalance.

(** Whether a receipt of an output is booked. *)
Definition received_at (key : list Z) (db : LedgerDB) : Prop :=
  ∃ r, r ∈ ledger_entries db ∧ EventType r = EventVTXOReceived ∧ e_IdempotencyKey r = key.

(** The change of an own send: an out-of-round receipt under its session. *)
Definition self_change (m : VTXOReceivedMsg) (db : LedgerDB) : Prop :=
  Source m = SourceOOR ∧ vr_SessionID m ≠ 0%N ∧ sent_in (vr_SessionID m) db.

(** What [classify] decides. *)
Lemma lwp_classify_exact m credit (Q : option (string * string) → LedgerDB → Prop) db :
  let key := walletUTXOIdempotencyKey (vr_OutpointHash m) (vr_OutpointIndex m) in
  (received_at key db → Q None db) →
  (¬ received_at key db → self_change m db →
   Q (Some (SourceOORSelfChange, AccountTransfersOut)) db) →
  (¬ received_at key db → ¬ self_change m db → Q (Some (Source m, credit)) db) →
  lwp false (classify m credit) Q db.
Proof.
  intros key Hskip Hself Hplain. unfold classify.
  apply lwp_bind, lwp_wrapped, lwp_has_key. intros [] Hb.
  { apply lwp_ret, Hskip. unfold received_at. naive_solver. }
  assert (¬ received_at key db) as Hnone.
  { intros (r & Hin & He & Hk). apply diff_false_true, Hb. exists r.
    rewrite Hk. auto using outpoint_key_nonempty. }
  unfold self_change in *. destruct (decide (Source m = SourceOOR)) as [Hs|Hs].
  2: { rewrite bool_decide_false by done. apply lwp_ret, Hplain; tauto. }
  rewrite bool_decide_true by done. destruct (N.eqb_spec (vr_SessionID m) 0) as [Hz|Hz].
  { apply lwp_ret, Hplain; tauto. }
  apply lwp_bind, lwp_wrapped, lwp_has_session. intros sent Hsent. apply lwp_ret.
  fold (sent_in (vr_SessionID m) db) in Hsent.
  destruct sent; [apply Hself | apply Hplain]; try done; [tauto|].
  intros (_ & _ & Hin). apply Hsent in Hin. done.
Qed.

(** A receipt has no identity but its key. *)
Lemma receipt_fresh rows e :
  EventType e = EventVTXOReceived → e_IdempotencyKey e ≠ [] → e_SessionID e = None →
  (∀ r, r ∈ rows → EventType r = EventVTXOReceived → e_IdempotencyKey r ≠ e_IdempotencyKey e) →
  covered rows e = false.
Proof.
  intros He Hk Hs Hnone. apply not_true_iff_false. rewrite covered_spec. intros (r & Hr & Hid).
  revert Hid. rewrite same_identity_spec, same_key_spec, same_session_spec, same_round_spec, Hs.
  intros [(_ & Hkr & Hl)|[([? [=]] & _)|(_ & ? & _)]]; [|done].
  apply same_leg_spec in Hl as [Hev _]. by eapply (Hnone r); [|congruence|].
Qed.

(** A receipt that commits is booked once, at its full amount, into the off-chain
    balance, unless a receipt of the output is booked already, whatever account that
    one was credited to.  The credit is the one its source names, except that an
    out-of-round receipt under a session this ledger has sent from is the change of
    that send and takes back part of it. *)
Theorem ledger_receipt_classified audit now m faults db db' :
  Receive audit now (MsgVTXOReceived m) db faults = (Ok tt, db') →
  let key := walletUTXOIdempotencyKey (vr_OutpointHash m) (vr_OutpointIndex m) in
  (received_at key db → ledger_entries db' = ledger_entries db) ∧
  (¬ received_at key db → ∃ e, ledger_entries db' = ledger_entries db ++ [e] ∧
     EventType e = EventVTXOReceived ∧ e_IdempotencyKey e = key ∧
     e_AmountSat e = vr_AmountSat m ∧ DebitAccount e = AccountVTXOBalance ∧
     (self_change m db → CreditAccount e = AccountTransfersOut) ∧
     (¬ self_change m db → receiveCredit (Source m) = Some (CreditAccount e))).
Proof.
  intros Hturn key. revert Hturn. cbn [Receive]. unfold handleVTXOReceived.
  destruct (vr_AmountSat m <=? 0); [done|].
  destruct (receiveCredit (Source m)) as [credit|]; [|done].
  refine (commit_ok _ (λ db', (received_at key db → _) ∧ (¬ received_at key db → ∃ e, _)) _ _ _ _).
  assert (∀ e, ¬ received_at key db → EventType e = EventVTXOReceived → e_IdempotencyKey e = key →
    e_SessionID e = None → covered (ledger_entries db) e = false) as Hfresh.
  { intros e Hnone He Hk Hs. apply receipt_fresh; [done | by rewrite Hk | done |].
    intros r Hr Her Hkr. apply Hnone. exists r. rewrite <- Hk. auto. }
  apply lwp_bind, lwp_classify_exact.
  - intros Hin. apply lwp_ret. split; [done | tauto].
  - intros Hout Hself. apply lwp_fresh; [by apply Hfresh|]. split; [tauto|]. intros _.
    eexists. split_and!; try done; tauto.
  - intros Hout Hself. apply lwp_fresh; [by apply Hfresh|]. split; [tauto|]. intros _.
    eexists. split_and!; try done; tauto.
Qed.

End Books.

(** ** Examples *)

Module LedgerDemo.

(** The library prints a hash as the hex of its bytes, reversed. *)
#[export] Instance demo_text : ChainText := {|
  Hash_String h := hex (reverse (hash_bytes h));
  OutPoint_String o := hex (reverse (hash_bytes (op_Hash o))) +:+ ":" +:+ dec (op_Index o);
|}.

Definition spent_change : OutPoint := mkOutPoint 5 1.
Definition deposit_msg : LedgerMsg :=
  MsgUTXOCreated (mkUTXOCreated 7 0 1000 100 ClassificationDeposit [spent_change]).
Definition change_msg : LedgerMsg :=
  MsgUTXOCreated (mkUTXOCreated 5 1 900 90 ClassificationRecycledChange []).
Definition send_msg : LedgerMsg :=
  MsgVTXOSent (mkVTXOSent 42 0 (mkOutPoint 0 0) 600 [] false).
Definition back_msg : VTXOReceivedMsg := mkVTXOReceived 11 1 250 SourceOOR 0 42.
Definition exit_msg : ExitCostMsg := mkExitCost 13 2 5000 300 120 true.
Definition sweep_msg : BoardingSweepConfirmedMsg :=
  mkBoardingSweep 17 130 200 [mkSweepInput (mkOutPoint 7 0) 1000; mkSweepInput (mkOutPoint 8 0) 500]
    1300 true.

(** The turns of a run, one second apart, without faults. *)
Fixpoint run (now : Z) (msgs : list LedgerMsg) (db : LedgerDB) : LedgerDB :=
  match msgs with
  | [] => db
  | m :: msgs => run (now + 1) msgs (Receive true now m db []).2
  end.

Lemma run_later msgs : ∀ now db0 db, ledger_later true db0 db →
  ledger_later true db0 (run now msgs db).
Proof. induction msgs as [|m msgs IH]; intros now db0 db H; [done|]. by apply IH, later_turn. Qed.

Lemma run_cons now m msgs db :
  run now (m :: msgs) db = run (now + 1) msgs (Receive true now m db []).2.
Proof. done. Qed.

(** The deposit is reported before the change that funded it. *)
Definition history : list LedgerMsg :=
  [deposit_msg; change_msg; send_msg; MsgVTXOReceived back_msg; MsgExitCost exit_msg].
Definition books : LedgerDB := run 1 history empty_ledger.

Lemma books_reach : ledger_reach true books.
Proof. apply run_later, later_refl. Qed.

End LedgerDemo.
Import LedgerDemo.

Lemma ledger_books_sound_witness :
  length (ledger_entries books) = 8%nat ∧ sum_over accounts (GetAccountBalance books) = 0.
Proof.
  split; [vm_compute; reflexivity|].
  exact (proj1 (proj2 (ledger_books_sound true books books_reach))).
Defined.

Definition bad_msg : LedgerMsg := MsgFeePaid (mkFeePaid 1 10 "tip" 100 []).

Lemma ledger_turn_errors_witness :
  (Receive true 9 bad_msg books []).2 = books ∧
  malformed true bad_msg = true.
Proof.
  split; [|reflexivity].
  exact (proj1 (ledger_turn_errors true books 9 bad_msg [] (ErrInvalidMessage "unknown fee type tip")
    _ books_reach eq_refl)).
Defined.

Lemma ledger_redelivery_neutral_witness :
  ledger_entries (Receive true 20 deposit_msg books []).2 = ledger_entries books.
Proof.
  refine (ledger_redelivery_neutral true empty_ledger (Receive true 1 deposit_msg empty_ledger []).2
    books 1 20 deposit_msg [] [] _ _ eq_refl _ _).
  - apply later_refl.
  - vm_compute. reflexivity.
  - intros o amt. discriminate.
  - unfold books, history. rewrite run_cons. apply run_later. constructor.
Defined.

Lemma ledger_recycled_counted_once_witness :
  ∃ i r, ledger_entries books !! i = Some r ∧ reverses (column spent_change) r ∧
    e_AmountSat r = 900.
Proof.
  destruct (proj1 (ledger_recycled_counted_once true books books_reach)
    (column spent_change) (column (mkOutPoint 7 0))
    (mkAudit spent_change 900 "created" 90 ClassificationRecycledChange 2)
    ltac:(vm_compute; reflexivity) ltac:(vm_compute; reflexivity) eq_refl)
    as (i & r & Hi & Hr & Ha & _).
  exists i, r. split_and!; [exact Hi | exact Hr | exact Ha].
Defined.

Lemma ledger_exit_balances_witness :
  let db' := (Receive true 1 (MsgExitCost exit_msg) empty_ledger []).2 in
  change AccountVTXOBalance empty_ledger db' = -5000 ∧
  change AccountWalletBalance empty_ledger db' = 4700.
Proof.
  pose proof (ledger_exit_balances true 1 exit_msg [] empty_ledger
    (Receive true 1 (MsgExitCost exit_msg) empty_ledger []).2
    ltac:(vm_compute; reflexivity) ltac:(apply (bool_decide_unpack _); vm_compute; exact I)) as (H1 & _ & H2 & _).
  split; [exact H1 | exact H2].
Defined.

Lemma ledger_sweep_balances_witness :
  let db' := (Receive true 1 (MsgBoardingSweepConfirmed sweep_msg) empty_ledger []).2 in
  change AccountWalletClearing empty_ledger db' = 0 ∧
  change AccountTransfersOut empty_ledger db' = 1300.
Proof.
  set (db' := (Receive true 1 (MsgBoardingSweepConfirmed sweep_msg) empty_ledger []).2).
  assert (Receive true 1 (MsgBoardingSweepConfirmed sweep_msg) empty_ledger [] = (Ok tt, db')) as Hrun.
  { vm_compute. reflexivity. }
  assert (Forall outpoint_ok (si_Outpoint <$> Inputs sweep_msg)) as Hrange.
  { constructor; [|constructor; [|constructor]]; (split; [reflexivity | unfold is_uint32; simpl; lia]). }
  assert (NoDup (si_Outpoint <$> Inputs sweep_msg)) as Hnd.
  { apply (bool_decide_unpack _). vm_compute. exact I. }
  assert (Forall (λ e, covered (ledger_entries empty_ledger) e = false) (sweep_rows 1 sweep_msg)) as Hfresh.
  { apply Forall_true. reflexivity. }
  destruct (ledger_sweep_balances true 1 sweep_msg [] empty_ledger db' Hrun Hrange Hnd Hfresh)
    as (H1 & _ & H2 & _).
  split; [exact H1 | exact H2].
Defined.

(** Change comes back under the session of the send. *)
Lemma ledger_receipt_classified_witness :
  let db := run 1 [send_msg] empty_ledger in
  ∃ e, ledger_entries (Receive true 2 (MsgVTXOReceived back_msg) db []).2 =
         ledger_entries db ++ [e] ∧ CreditAccount e = AccountTransfersOut.
Proof.
  set (db := run 1 [send_msg] empty_ledger).
  destruct (proj2 (ledger_receipt_classified true 2 back_msg [] db
    (Receive true 2 (MsgVTXOReceived back_msg) db []).2 ltac:(vm_compute; reflexivity)))
    as (e & He & _ & _ & _ & _ & Hself & _).
  - intros (r & Hr & Hev & _). vm_compute in Hr.
    apply list_elem_of_singleton in Hr. subst r. discriminate Hev.
  - exists e. split; [exact He|]. apply Hself. split; [reflexivity|]. split; [discriminate|].
    eexists. split; [left|]. vm_compute. auto.
Defined.

(** A boarding input reported by the single message and then by the sweep that
    spent it: the sweep formats the transaction hash through its [String] method, so
    the texts of the two rows differ and the sweep is refused for good. *)
Definition input_msg : LedgerMsg :=
  MsgUTXOSpent (mkUTXOSpent 7 0 1000 130 ClassificationBoardingSweepInput).

Example sweep_after_input_refused :
  let r := (Receive true 2 (MsgBoardingSweepConfirmed sweep_msg)
              (run 1 [input_msg] empty_ledger) []).1 in
  r = Err (ErrIdempotencyConflict "event, debit, credit") ∧
  ledgerTellRetryPolicy (ErrIdempotencyConflict "event, debit, credit") 0 = (false, 0).
Proof. split; vm_compute; reflexivity. Qed.

(** A sweep that does not add up is booked, and leaves its difference in the
    clearing account. *)
Example unbalanced_sweep_booked :
  let m := mkBoardingSweep 17 130 200 [mkSweepInput (mkOutPoint 7 0) 1000] 700 true in
  let out := Receive true 1 (MsgBoardingSweepConfirmed m) empty_ledger [] in
  out.1 = Ok tt ∧ GetAccountBalance out.2 AccountWalletClearing = 100.
Proof. split; vm_compute; reflexivity. Qed.

(** Fees of round zero carry no identity: each delivery books one. *)
Example roundless_fee_booked_twice :
  length (ledger_entries (run 1 [MsgFeePaid (mkFeePaid 0 10 FeeTypeRefresh 100 []);
    MsgFeePaid (mkFeePaid 0 10 FeeTypeRefresh 100 [])] empty_ledger)) = 2%nat.
Proof. vm_compute. reflexivity. Qed.
