(* ===== verification/OorReplay.v ===== *)
(** * The recipient proof of an outgoing transfer: [oor/outgoing_replay.go],
      [lib/tx/oor/build.go]

    An out-of-round transfer that carries a caller's key is recorded together
    with the recipients the caller asked for and their positions in the
    transaction, so that a repeated request can be answered with the outputs of
    the first one.  The record is a byte string: a version, a count, and for each
    recipient its position, value, script length and script.

    Bytes are numbers below 256; lengths and counts keep the width the code reads
    and writes them at. *)

From S2P Require Import Prelude RecoveryProof Ledger.
Local Open Scope Z_scope.

Record RecipientOutput := mkRecipient {
  PkScript : list Z;
  Value : Z;
  VTXOPolicyTemplate : list Z;
}.

Record ArkRecipientOutput := mkArkRecipient {
  OutputIndex : Z;
  ar_Value : Z;
  ar_PkScript : list Z;
  ar_VTXOPolicyTemplate : list Z;
}.

#[export] Instance RecipientOutput_eq_dec : EqDecision RecipientOutput.
Proof. solve_decision. Defined.
#[export] Instance ArkRecipientOutput_eq_dec : EqDecision ArkRecipientOutput.
Proof. solve_decision. Defined.

(** ** The canonical order *)

(** [bytes.Compare(a, b) < 0] *)
Fixpoint bytes_lt (a b : list Z) : bool :=
  match a, b with
  | _, [] => false
  | [], _ :: _ => true
  | x :: a, y :: b => if x =? y then bytes_lt a b else x <? y
  end.

Definition recipient_lt (a b : RecipientOutput) : bool :=
  if negb (Value a =? Value b) then Value a <? Value b
  else bytes_lt (PkScript a) (PkScript b).

(** [sort.SliceStable]: equal elements keep their order. *)
Fixpoint insert_recipient (r : RecipientOutput) (l : list RecipientOutput) :
    list RecipientOutput :=
  match l with
  | [] => [r]
  | x :: l => if recipient_lt x r then x :: insert_recipient r l else r :: x :: l
  end.

Definition CanonicalRecipientOutputs (recipients : list RecipientOutput) :
    list RecipientOutput :=
  foldr insert_recipient [] recipients.

(** ** The positions of the requested recipients *)

Definition same_output (a b : RecipientOutput) : bool :=
  (Value a =? Value b) && bool_decide (PkScript a = PkScript b).

(** The inner loop: the first unused output equal to the requested one. *)
Fixpoint find_match (requested : RecipientOutput) (canonical : list RecipientOutput)
    (used : list bool) (j : nat) : option nat :=
  match canonical, used with
  | c :: canonical, u :: used =>
      if u || negb (same_output c requested)
      then find_match requested canonical used (S j) else Some j
  | _, _ => None
  end.

Fixpoint match_requested (requested canonical : list RecipientOutput) (used : list bool) :
    result error (list ArkRecipientOutput) :=
  match requested with
  | [] => Ok []
  | r :: requested =>
      match find_match r canonical used 0 with
      | None => Err "requested OOR recipient is not present in the canonical output list"
      | Some j =>
          let* proof := match_requested requested canonical (<[j := true]> used) in
          Ok (mkArkRecipient (uint32 (Z.of_nat j)) (Value r) (PkScript r) [] :: proof)
      end
  end.

(** ** The encoding *)

Definition outgoingReplayVersion : Z := 1.
Definition maxOutgoingReplayPkScriptSize : Z := 10000.
Definition outgoingReplayHeaderSize : Z := 5.
Definition outgoingReplayEntrySize : Z := 16.
(** [btcutil.MaxSatoshi] *)
Definition MaxSatoshi : Z := 2100000000000000.

Definition encodeEntry (r : ArkRecipientOutput) : list Z :=
  be_bytes 4 (OutputIndex r) ++ be_bytes 8 (uint64 (ar_Value r)) ++
  be_bytes 4 (uint32 (Z.of_nat (length (ar_PkScript r)))) ++ ar_PkScript r.

Definition encodeOutgoingReplayData (recipients : list ArkRecipientOutput) : list Z :=
  match recipients with
  | [] => []
  | _ => outgoingReplayVersion :: be_bytes 4 (uint32 (Z.of_nat (length recipients))) ++
           (recipients ≫= encodeEntry)
  end.

(** [sort.Slice] by position; the positions of a proof differ. *)
Definition index_le (a b : ArkRecipientOutput) : Prop := OutputIndex a ≤ OutputIndex b.
#[export] Instance index_le_dec a b : Decision (index_le a b).
Proof. unfold index_le. apply _. Defined.
#[export] Instance index_le_total : Total index_le.
Proof. intros a b. unfold index_le. lia. Qed.
#[export] Instance index_le_trans : Transitive index_le.
Proof. intros a b c. unfold index_le. lia. Qed.

Definition NewOutgoingReplayData (recipients requested : list RecipientOutput) :
    result error (list Z) :=
  let canonical := CanonicalRecipientOutputs recipients in
  let* proof := match_requested requested canonical (replicate (length canonical) false) in
  Ok (encodeOutgoingReplayData (merge_sort index_le proof)).

Definition newOutgoingReplayData (recipients : list RecipientOutput) : result error (list Z) :=
  NewOutgoingReplayData recipients recipients.

(** ** The decoding *)

(** [binary.BigEndian.Uint32] and [Uint64] of the first bytes. *)
Definition be_read (bs : list Z) : Z := foldl (λ acc b, acc * 256 + b) 0 bs.

(** The loop over the entries; [rest] is [raw[offset:]] and [prev] the position
    of the last entry read. *)
Fixpoint decodeEntries (count : nat) (prev : option Z) (rest : list Z) :
    result error (list ArkRecipientOutput * list Z) :=
  match count with
  | O => Ok ([], rest)
  | S count =>
      guard* negb (Z.of_nat (length rest) <? outgoingReplayEntrySize)
        else "outgoing replay recipient is truncated" in
      let outputIndex := be_read (take 4 rest) in
      let rest := drop 4 rest in
      guard* match prev with Some p => negb (outputIndex <=? p) | None => true end
        else "outgoing replay recipient has non-increasing output index" in
      let value := be_read (take 8 rest) in
      let rest := drop 8 rest in
      guard* negb ((value =? 0) || (MaxSatoshi <? value))
        else "outgoing replay recipient has invalid value" in
      let scriptSize := be_read (take 4 rest) in
      let rest := drop 4 rest in
      guard* negb ((scriptSize =? 0) || (maxOutgoingReplayPkScriptSize <? scriptSize))
        else "outgoing replay recipient has invalid pkScript size" in
      guard* negb (uint32 (Z.of_nat (length rest)) <? scriptSize)
        else "outgoing replay recipient pkScript is truncated" in
      let pkScript := take (Z.to_nat scriptSize) rest in
      let* tail := decodeEntries count (Some outputIndex) (drop (Z.to_nat scriptSize) rest) in
      Ok (mkArkRecipient outputIndex value pkScript [] :: tail.1, tail.2)
  end.

Definition OutgoingReplayRecipients (raw : list Z) : result error (list ArkRecipientOutput) :=
  guard* negb (Z.of_nat (length raw) <? outgoingReplayHeaderSize)
    else "outgoing replay proof is truncated" in
  guard* bool_decide (head raw = Some outgoingReplayVersion)
    else "unknown outgoing replay proof version" in
  let count := be_read (take 4 (drop 1 raw)) in
  let maxCount := (Z.of_nat (length raw) - outgoingReplayHeaderSize) `quot`
                    (outgoingReplayEntrySize + 1) in
  guard* negb ((count =? 0) || (maxCount <? count))
    else "invalid outgoing replay recipient count" in
  let* entries := decodeEntries (Z.to_nat count) None (drop 5 raw) in
  guard* bool_decide (entries.2 = []) else "outgoing replay proof has trailing bytes" in
  Ok entries.1.

(** ** Round trips *)

Definition is_byte (b : Z) : Prop := 0 ≤ b < 256.

(** The recipients a proof can name. *)
Record entry_wf (r : ArkRecipientOutput) : Prop := mk_entry_wf {
  ew_index : is_uint32 (OutputIndex r);
  ew_value : 0 < ar_Value r ≤ MaxSatoshi;
  ew_size : 0 < Z.of_nat (length (ar_PkScript r)) ≤ maxOutgoingReplayPkScriptSize;
  ew_script : Forall is_byte (ar_PkScript r);
  ew_policy : ar_VTXOPolicyTemplate r = [];
}.

Definition index_lt (a b : ArkRecipientOutput) : Prop := OutputIndex a < OutputIndex b.

Definition replay_wf (rs : list ArkRecipientOutput) : Prop :=
  rs ≠ [] ∧ Forall entry_wf rs ∧ StronglySorted index_lt rs.

Lemma be_read_snoc bs b : be_read (bs ++ [b]) = be_read bs * 256 + b.
Proof. unfold be_read. by rewrite foldl_app. Qed.

Lemma be_read_cons b bs : be_read (b :: bs) = b * 256 ^ Z.of_nat (length bs) + be_read bs.
Proof.
  induction bs as [|x bs IH] using rev_ind; [cbn; lia|].
  rewrite app_comm_cons, !be_read_snoc, IH, length_app.
  replace (Z.of_nat (length bs + length [x])) with (Z.succ (Z.of_nat (length bs)))
    by (cbn [length]; lia).
  rewrite Z.pow_succ_r; lia.
Qed.

Lemma be_read_bytes n z : be_read (be_bytes n z) = z mod 256 ^ Z.of_nat n.
Proof.
  induction n as [|n IH]; [cbn; by rewrite Z.mod_1_r|].
  rewrite be_bytes_S, be_read_cons, be_bytes_length, IH, Nat2Z.inj_succ, Z.pow_succ_r by lia.
  rewrite (Z.mul_comm 256), Z.rem_mul_r; lia.
Qed.

Lemma be_read_range bs : Forall is_byte bs → 0 ≤ be_read bs < 256 ^ Z.of_nat (length bs).
Proof.
  unfold is_byte. induction 1 as [|b bs Hb _ IH]; [cbn; lia|].
  rewrite be_read_cons. cbn [length]. rewrite Nat2Z.inj_succ, Z.pow_succ_r by lia. nia.
Qed.

Lemma be_bytes_read bs : Forall is_byte bs → be_bytes (length bs) (be_read bs) = bs.
Proof.
  induction 1 as [|b bs Hb Hbs IH]; [done|].
  pose proof (be_read_range bs Hbs) as Hr. unfold is_byte in Hb.
  cbn [length]. rewrite be_bytes_S, be_read_cons. f_equal.
  - rewrite Z.add_comm, Z.div_add, Z.div_small, Z.mod_small; lia.
  - etransitivity; [|exact IH]. unfold be_bytes. apply list_fmap_ext. intros k i Hi.
    apply list_elem_of_lookup_2, elem_of_reverse, elem_of_seq in Hi.
    replace (256 ^ Z.of_nat (length bs))
      with (256 ^ (Z.of_nat (length bs) - Z.of_nat i - 1) * 256 * 256 ^ Z.of_nat i).
    + set (q := 256 ^ (_ - _ - 1)). set (p := 256 ^ Z.of_nat i).
      replace (b * (q * 256 * p) + be_read bs) with (be_read bs + (b * q * 256) * p) by ring.
      rewrite Z.div_add by (subst p; lia). by rewrite Z.mod_add.
    + rewrite <- (Z.pow_1_r 256) at 2. rewrite <- !Z.pow_add_r by lia. f_equal. lia.
Qed.

Lemma bytes_be_bytes n z : Forall is_byte (be_bytes n z).
Proof.
  apply Forall_fmap, Forall_true. intros i. unfold compose, is_byte.
  apply Z.mod_pos_bound. lia.
Qed.

Lemma encodeEntry_take r tl :
  take 4 (encodeEntry r ++ tl) = be_bytes 4 (OutputIndex r) ∧
  drop 4 (encodeEntry r ++ tl) =
    be_bytes 8 (uint64 (ar_Value r)) ++
    be_bytes 4 (uint32 (Z.of_nat (length (ar_PkScript r)))) ++ ar_PkScript r ++ tl.
Proof.
  unfold encodeEntry. rewrite <- !app_assoc.
  by rewrite take_app_length', drop_app_length' by by rewrite be_bytes_length.
Qed.

Lemma encodeEntry_length r : length (encodeEntry r) = (16 + length (ar_PkScript r))%nat.
Proof. unfold encodeEntry. rewrite !length_app, !be_bytes_length. lia. Qed.

Lemma bind_cons {A B} (f : A → list B) x l : (x :: l) ≫= f = f x ++ (l ≫= f).
Proof. done. Qed.

Lemma encode_length rs :
  Forall entry_wf rs → 17 * Z.of_nat (length rs) ≤ Z.of_nat (length (rs ≫= encodeEntry)).
Proof.
  induction 1 as [|r rs [_ _ ? _ _] _ IH]; [cbn; lia|].
  rewrite bind_cons, length_app, encodeEntry_length. cbn [length]. lia.
Qed.

Definition above (prev : option Z) (rs : list ArkRecipientOutput) : Prop :=
  match prev with Some p => Forall (λ r, p < OutputIndex r) rs | None => True end.

(** Reading back what was written. *)
Lemma decode_encode rs prev tl :
  Forall entry_wf rs → StronglySorted index_lt rs → above prev rs →
  Z.of_nat (length ((rs ≫= encodeEntry) ++ tl)) < 4294967296 →
  decodeEntries (length rs) prev ((rs ≫= encodeEntry) ++ tl) = Ok (rs, tl).
Proof.
  intros Hwf. revert prev. induction Hwf as [|r rs [Hi Hv Hs Hb Hp] _ IH];
    intros prev Hsort Habove Hlen; [done|].
  inversion_clear Hsort as [|?? Hsort' Hlt].
  rewrite bind_cons in Hlen |- *. rewrite <- app_assoc in Hlen |- *.
  set (rest := (rs ≫= encodeEntry) ++ tl) in *.
  destruct (encodeEntry_take r rest) as [Ht Hd].
  rewrite length_app, encodeEntry_length in Hlen.
  cbn [length decodeEntries]. rewrite Ht, Hd, length_app, encodeEntry_length, be_read_bytes.
  change (256 ^ Z.of_nat 4) with 4294967296. unfold is_uint32 in Hi. rewrite (Z.mod_small (OutputIndex r)) by lia.
  unfold outgoingReplayEntrySize, maxOutgoingReplayPkScriptSize, MaxSatoshi in *.
  rewrite (proj2 (Z.ltb_ge _ _)) by lia. cbn [negb].
  replace (match prev with Some p => negb (OutputIndex r <=? p) | None => true end) with true.
  2:{ destruct prev as [p|]; [|done]. cbn in Habove. inversion_clear Habove.
      by rewrite (proj2 (Z.leb_gt _ _)). }
  rewrite take_app_length', drop_app_length' by by rewrite be_bytes_length.
  rewrite be_read_bytes. change (256 ^ Z.of_nat 8) with 18446744073709551616.
  unfold uint64. rewrite Z.mod_mod, (Z.mod_small (ar_Value r)) by lia.
  rewrite (proj2 (Z.eqb_neq _ 0)), (proj2 (Z.ltb_ge _ (ar_Value r))) by lia. cbn [orb negb].
  rewrite take_app_length', drop_app_length' by by rewrite be_bytes_length.
  rewrite be_read_bytes. change (256 ^ Z.of_nat 4) with 4294967296.
  unfold uint32. rewrite Z.mod_mod, (Z.mod_small (Z.of_nat (length (ar_PkScript r)))) by lia.
  rewrite (proj2 (Z.eqb_neq _ 0)), (proj2 (Z.ltb_ge 10000 _)) by lia. cbn [orb negb].
  rewrite Z.mod_small, (proj2 (Z.ltb_ge _ _)) by (rewrite length_app; lia). cbn [negb].
  rewrite Nat2Z.id, take_app_length, drop_app_length.
  rewrite IH; [|done| |lia].
  - destruct r; cbn in *; by subst.
  - exact Hlt.
Qed.

(** A field of [n] bytes is the encoding of the number it holds. *)
Lemma field_bytes n bs :
  Forall is_byte bs → (n ≤ length bs)%nat →
  bs = be_bytes n (be_read (take n bs)) ++ drop n bs ∧
  0 ≤ be_read (take n bs) < 256 ^ Z.of_nat n.
Proof.
  intros Hb Hn. assert (Forall is_byte (take n bs)) as Ht by by apply Forall_take.
  assert (length (take n bs) = n) as Hl by (rewrite length_take; lia).
  pose proof (be_bytes_read _ Ht) as He. pose proof (be_read_range _ Ht) as Hr.
  rewrite Hl in He, Hr. by rewrite He, take_drop.
Qed.

(** The reading of one entry. *)
Lemma decodeEntries_inv n prev rest rs tl :
  decodeEntries (S n) prev rest = Ok (rs, tl) →
  let b4 := drop 4 rest in let b8 := drop 8 b4 in let b12 := drop 4 b8 in
  let index := be_read (take 4 rest) in let value := be_read (take 8 b4) in
  let size := be_read (take 4 b8) in
  ∃ rs', rs = mkArkRecipient index value (take (Z.to_nat size) b12) [] :: rs' ∧
    decodeEntries n (Some index) (drop (Z.to_nat size) b12) = Ok (rs', tl) ∧
    16 ≤ Z.of_nat (length rest) ∧ (∀ p, prev = Some p → p < index) ∧
    value ≠ 0 ∧ value ≤ MaxSatoshi ∧ size ≠ 0 ∧ size ≤ 10000 ∧
    size ≤ uint32 (Z.of_nat (length b12)).
Proof.
  cbn [decodeEntries]. unfold outgoingReplayEntrySize, maxOutgoingReplayPkScriptSize.
  intros H. inv_ok. destruct a as [rs' tl']. cbn [fst snd] in *. zbool.
  exists rs'. repeat split; try assumption; try lia.
  intros p ->. zbool. lia.
Qed.

(** What is accepted is what the encoder writes. *)
Lemma decode_sound n : ∀ prev rest rs tl,
  decodeEntries n prev rest = Ok (rs, tl) → Forall is_byte rest →
  rest = (rs ≫= encodeEntry) ++ tl ∧ length rs = n ∧ Forall entry_wf rs ∧
  StronglySorted index_lt rs ∧ above prev rs.
Proof.
  induction n as [|n IH]; intros prev rest rs tl H Hb.
  { cbn in H. inv_ok. destruct prev; repeat split; constructor. }
  apply decodeEntries_inv in H as (rs' & -> & H & Hl & Hp & Hv & Hv' & Hs & Hs' & Hu).
  destruct (field_bytes 4 rest) as [E4 R4]; [done|lia|].
  pose proof (Forall_drop is_byte 4 rest Hb) as Hb4. pose proof (length_drop rest 4) as L4.
  destruct (field_bytes 8 (drop 4 rest)) as [E8 R8]; [done|lia|].
  set (b8 := drop 8 (drop 4 rest)) in *.
  pose proof (Forall_drop is_byte 8 _ Hb4 : Forall is_byte b8) as Hb8.
  pose proof (length_drop (drop 4 rest) 8 : length b8 = _) as L8.
  destruct (field_bytes 4 b8) as [E12 R12]; [done|lia|].
  pose proof (Forall_drop is_byte 4 _ Hb8) as Hb12.
  set (b12 := drop 4 b8) in *. set (size := be_read (take 4 b8)) in *.
  assert (Z.to_nat size ≤ length b12)%nat as Hsz.
  { unfold uint32 in Hu. pose proof (Z.mod_le (Z.of_nat (length b12)) 4294967296). lia. }
  assert (length (take (Z.to_nat size) b12) = Z.to_nat size) as Hlt
    by (rewrite length_take; lia).
  apply IH in H as (Hrest & Hn & Hwf & Hsort & Habove); [|by apply Forall_drop].
  split; [|split; [cbn; lia|split; [|split]]].
  - rewrite bind_cons. unfold encodeEntry at 1. cbn [OutputIndex ar_Value ar_PkScript].
    rewrite Hlt, Z2Nat.id by lia. unfold uint64, uint32.
    change (256 ^ Z.of_nat 8) with 18446744073709551616 in R8.
    change (256 ^ Z.of_nat 4) with 4294967296 in R12.
    rewrite !Z.mod_small by lia. rewrite <- !app_assoc, <- Hrest, take_drop, <- E12, <- E8.
    exact E4.
  - constructor; [|exact Hwf]. constructor; cbn [OutputIndex ar_Value ar_PkScript ar_VTXOPolicyTemplate].
    + change (256 ^ Z.of_nat 4) with 4294967296 in R4. unfold is_uint32. lia.
    + lia.
    + rewrite Hlt. unfold maxOutgoingReplayPkScriptSize. lia.
    + by apply Forall_take.
    + done.
  - constructor; [done|]. exact Habove.
  - destruct prev as [p|]; [|done]. constructor; [by apply Hp|].
    eapply Forall_impl; [exact Habove|]. intros r Hr. specialize (Hp p eq_refl).
    cbn in Hr. cbv beta. lia.
Qed.

Lemma header_bytes raw :
  Forall is_byte raw → 5 ≤ Z.of_nat (length raw) → head raw = Some outgoingReplayVersion →
  raw = outgoingReplayVersion :: be_bytes 4 (be_read (take 4 (drop 1 raw))) ++ drop 5 raw.
Proof.
  intros Hb Hl Hh. destruct raw as [|v raw]; [done|]. cbn in Hh, Hl. injection Hh as ->.
  inversion_clear Hb. cbn [drop]. rewrite drop_0. f_equal.
  apply (field_bytes 4); [done|lia].
Qed.

(** ** Which requests have a proof *)

Definition output_key (r : RecipientOutput) : Z * list Z := (Value r, PkScript r).
Definition entry_key (r : ArkRecipientOutput) : Z * list Z := (ar_Value r, ar_PkScript r).

Lemma same_output_key a b : same_output a b = true ↔ output_key a = output_key b.
Proof.
  unfold same_output, output_key. rewrite andb_true_iff, Z.eqb_eq, bool_decide_eq_true.
  split; [by intros [-> ->]|by intros [= -> ->]].
Qed.

(** The outputs not yet taken. *)
Definition free_keys (canonical : list RecipientOutput) (used : list bool) :
    list (Z * list Z) :=
  omap (λ p : RecipientOutput * bool, if p.2 then None else Some (output_key p.1))
    (zip canonical used).

Lemma find_match_Some r canonical used k j :
  find_match r canonical used k = Some j →
  ∃ i c, j = (k + i)%nat ∧ canonical !! i = Some c ∧ used !! i = Some false ∧
    output_key c = output_key r.
Proof.
  revert used k. induction canonical as [|c canonical IH]; intros [|u used] k H; try done.
  cbn in H. destruct (u || negb (same_output c r)) eqn:E.
  - apply IH in H as (i & c' & -> & ? & ? & ?). exists (S i), c'. split; [lia|done].
  - injection H as <-. apply orb_false_iff in E as [-> E%negb_false_iff].
    exists 0%nat, c. rewrite same_output_key in E. split; [lia|done].
Qed.

Lemma find_match_None r canonical used k :
  find_match r canonical used k = None → output_key r ∉ free_keys canonical used.
Proof.
  revert used k. induction canonical as [|c canonical IH]; intros [|u used] k H; try apply not_elem_of_nil.
  cbn in H. destruct (u || negb (same_output c r)) eqn:E; [|done]. apply IH in H.
  unfold free_keys in *. cbn. destruct u; [done|]. cbn in E.
  apply not_elem_of_cons. split; [|done]. intros Heq%eq_sym.
  apply same_output_key in Heq. by rewrite Heq in E.
Qed.

Lemma free_keys_take canonical used j c :
  canonical !! j = Some c → used !! j = Some false →
  free_keys canonical used ≡ₚ output_key c :: free_keys canonical (<[j := true]> used).
Proof.
  revert used j. induction canonical as [|c' canonical IH]; intros [|u used] [|j] Hc Hu; try done.
  - cbn in *. injection Hc as ->. injection Hu as ->. done.
  - cbn in Hc, Hu. specialize (IH used j Hc Hu). unfold free_keys in *. cbn.
    destruct u; cbn; [done|]. rewrite IH. apply Permutation_swap.
Qed.

Lemma submseteq_cancel {A} (x : A) l k : x :: l ⊆+ x :: k ↔ l ⊆+ k.
Proof.
  split; [|apply submseteq_skip]. intros (k' & Hp & Hs)%submseteq_cons_l.
  apply (Permutation_cons_inv (a := x)) in Hp. by rewrite Hp.
Qed.

Lemma match_requested_ok requested canonical used :
  is_ok (match_requested requested canonical used) = true ↔
  output_key <$> requested ⊆+ free_keys canonical used.
Proof.
  revert used. induction requested as [|r requested IH]; intros used; cbn [match_requested].
  { split; [intros _; apply submseteq_nil_l|done]. }
  destruct (find_match r canonical used 0) as [j|] eqn:E.
  - apply find_match_Some in E as (i & c & -> & Hc & Hu & Hk). cbn [Nat.add].
    rewrite (free_keys_take _ _ i c Hc Hu), Hk, fmap_cons, submseteq_cancel, <- IH.
    by destruct (match_requested _ _ _).
  - apply find_match_None in E. split; [done|]. intros Hsub. destruct E.
    eapply elem_of_submseteq; [|exact Hsub]. apply list_elem_of_here.
Qed.

Lemma taken_stays (used : list bool) i j :
  <[i := true]> used !! j = Some false → j ≠ i ∧ used !! j = Some false.
Proof.
  intros H. destruct (decide (j = i)) as [->|Hne]; [|by rewrite list_lookup_insert_ne in H].
  pose proof (lookup_lt_Some _ _ _ H) as Hl. rewrite length_insert in Hl.
  by rewrite list_lookup_insert_eq in H.
Qed.

Lemma match_requested_spec requested canonical used proof :
  match_requested requested canonical used = Ok proof →
  entry_key <$> proof = output_key <$> requested ∧
  ∃ js, OutputIndex <$> proof = (λ j, uint32 (Z.of_nat j)) <$> js ∧ NoDup js ∧
    Forall2 (λ p j, used !! j = Some false ∧
      ∃ c, canonical !! j = Some c ∧ output_key c = entry_key p) proof js ∧
    Forall (λ p, ar_VTXOPolicyTemplate p = []) proof.
Proof.
  revert used proof. induction requested as [|r requested IH]; intros used proof H;
    cbn [match_requested] in H.
  { inv_ok. split; [done|]. exists []. repeat split; constructor. }
  destruct (find_match r canonical used 0) as [j|] eqn:E; [|done].
  apply find_match_Some in E as (i & c & -> & Hc & Hu & Hk). cbn [Nat.add] in H.
  inv_ok. apply IH in E as (Hkeys & js & Hi & Hnd & Hf & Hp).
  split; [rewrite !fmap_cons, Hkeys; done|].
  exists (i :: js). rewrite !fmap_cons, Hi. split; [done|].
  split; [|split; [|by constructor]].
  - constructor; [|done]. intros Hin.
    apply list_elem_of_lookup in Hin as [k Hk'].
    destruct (Forall2_lookup_r _ _ _ _ _ Hf Hk') as (p & _ & Hu' & _).
    by apply taken_stays in Hu' as [].
  - constructor; [split; [done|by exists c]|].
    eapply Forall2_impl; [exact Hf|]. intros p j [Hu' Hc']. by apply taken_stays in Hu' as [].
Qed.

Lemma insert_recipient_perm r l : insert_recipient r l ≡ₚ r :: l.
Proof.
  induction l as [|x l IH]; [done|]. cbn. destruct (recipient_lt x r); [|done].
  rewrite IH. apply Permutation_swap.
Qed.

Lemma canonical_perm rs : CanonicalRecipientOutputs rs ≡ₚ rs.
Proof. induction rs as [|r rs IH]; [done|]. cbn. by rewrite insert_recipient_perm, IH. Qed.

Lemma free_keys_all canonical :
  free_keys canonical (replicate (length canonical) false) = output_key <$> canonical.
Proof. induction canonical as [|c l IH]; [done|]. unfold free_keys in *. cbn. by rewrite IH. Qed.

(** A recipient the caller may ask for. *)
Definition requestable (r : RecipientOutput) : Prop :=
  0 < Value r ≤ MaxSatoshi ∧
  0 < Z.of_nat (length (PkScript r)) ≤ maxOutgoingReplayPkScriptSize ∧
  Forall is_byte (PkScript r).

Lemma sorted_strict rs :
  Sorted index_le rs → NoDup (OutputIndex <$> rs) → StronglySorted index_lt rs.
Proof.
  intros Hs%Sorted_StronglySorted Hnd; [|apply _]. induction Hs as [|r rs Hs IH Hf]; [constructor|].
  rewrite fmap_cons in Hnd. apply NoDup_cons in Hnd as [Hr Hnd]. constructor; [by apply IH|].
  rewrite Forall_forall in Hf |- *. intros x Hx. specialize (Hf x Hx).
  unfold index_le, index_lt in *. assert (OutputIndex r ≠ OutputIndex x); [|lia].
  intros Heq. apply Hr. rewrite Heq. by apply list_elem_of_fmap_2.
Qed.

Lemma length_encode rs :
  rs ≠ [] → length (encodeOutgoingReplayData rs) = (5 + length (rs ≫= encodeEntry))%nat.
Proof.
  destruct rs; [done|]. intros _. unfold encodeOutgoingReplayData. cbn [length].
  by rewrite length_app, be_bytes_length.
Qed.

Lemma replay_decode_encode rs :
  replay_wf rs → Z.of_nat (length (encodeOutgoingReplayData rs)) < 4294967296 →
  OutgoingReplayRecipients (encodeOutgoingReplayData rs) = Ok rs.
Proof.
  intros (Hne & Hwf & Hsort) Hlen. pose proof (encode_length rs Hwf) as Hl.
  rewrite length_encode in Hlen by done. unfold OutgoingReplayRecipients.
  rewrite length_encode by done. unfold outgoingReplayHeaderSize, outgoingReplayEntrySize.
  rewrite (proj2 (Z.ltb_ge _ _)) by lia. cbn [negb].
  assert (0 < length rs)%nat as Hpos by (destruct rs; [done|cbn; lia]).
  destruct rs as [|r rs'] eqn:Ers; [done|]. rewrite <- Ers in *.
  replace (encodeOutgoingReplayData rs) with
    (outgoingReplayVersion :: be_bytes 4 (uint32 (Z.of_nat (length rs))) ++ (rs ≫= encodeEntry))
    by by rewrite Ers.
  cbn [head]. rewrite bool_decide_eq_true_2 by done.
  change (drop 5 (?v :: ?l)) with (drop 4 l). change (drop 1 (?v :: ?l)) with (drop 0 l).
  rewrite drop_0, take_app_length', drop_app_length' by by rewrite be_bytes_length.
  rewrite be_read_bytes. change (256 ^ Z.of_nat 4) with 4294967296. unfold uint32.
  rewrite Z.mod_mod, Z.mod_small by lia.
  rewrite (proj2 (Z.eqb_neq _ 0)), (proj2 (Z.ltb_ge _ _)); [|apply Z.quot_le_lower_bound; lia|lia].
  cbn [orb negb]. rewrite Nat2Z.id.
  pose proof (decode_encode rs None [] Hwf Hsort I) as H. rewrite app_nil_r in H.
  rewrite H by lia. cbn [snd fst]. by rewrite bool_decide_eq_true_2.
Qed.

Lemma replay_decode_sound raw rs :
  Forall is_byte raw → OutgoingReplayRecipients raw = Ok rs →
  replay_wf rs ∧ raw = encodeOutgoingReplayData rs.
Proof.
  intros Hb H. unfold OutgoingReplayRecipients, outgoingReplayHeaderSize in H. inv_ok.
  destruct a as [rs tl]. cbn [fst snd] in *. zbool. subst tl.
  pose proof (header_bytes raw Hb ltac:(lia) ltac:(done)) as Hraw.
  assert (0 ≤ be_read (take 4 (drop 1 raw)) < 4294967296) as Hc.
  { apply (field_bytes 4); [by apply Forall_drop|rewrite length_drop; lia]. }
  apply decode_sound in E as (Hrest & Hn & Hwf & Hsort & _); [|by apply Forall_drop].
  set (count := be_read _) in *. rewrite app_nil_r in Hrest.
  assert (rs ≠ []) as Hne by (intros ->; cbn in Hn; lia).
  split; [by repeat split|]. rewrite Hrest in Hraw. rewrite Hraw.
  unfold encodeOutgoingReplayData. destruct rs as [|r rs]; [done|]. do 2 f_equal.
  rewrite Hn. unfold uint32. by rewrite Z2Nat.id, Z.mod_small by lia.
Qed.

(** the decoder of a recipient proof accepts exactly the byte strings the
    encoder writes for well-formed recipients - at least one, with strictly
    increasing 32-bit positions, positive values no larger than the money supply
    and scripts of one to ten thousand bytes - and gives back those recipients; any
    other byte string of under four gigabytes is refused. *)
Theorem oor_replay_roundtrip raw rs :
  Forall is_byte raw → Z.of_nat (length raw) < 4294967296 →
  OutgoingReplayRecipients raw = Ok rs ↔ replay_wf rs ∧ raw = encodeOutgoingReplayData rs.
Proof.
  intros Hb Hlen. split; [by apply replay_decode_sound|].
  intros [Hwf ->]. by apply replay_decode_encode.
Qed.

Lemma encode_bound rs :
  Forall entry_wf rs → Z.of_nat (length (rs ≫= encodeEntry)) ≤ 10016 * Z.of_nat (length rs).
Proof.
  induction 1 as [|r rs [_ _ Hs _ _] _ IH]; [cbn; lia|].
  unfold maxOutgoingReplayPkScriptSize in Hs.
  rewrite bind_cons, length_app, encodeEntry_length. cbn [length]. lia.
Qed.

Lemma proof_entries_wf requested proof :
  Forall requestable requested → entry_key <$> proof = output_key <$> requested →
  Forall (λ p, ar_VTXOPolicyTemplate p = []) proof →
  Forall (λ p, is_uint32 (OutputIndex p)) proof → Forall entry_wf proof.
Proof.
  intros Hr Hk Hp Hi. rewrite Forall_forall in Hr. rewrite Forall_forall in Hp, Hi. apply Forall_forall. intros p Hin.
  assert (entry_key p ∈ output_key <$> requested) as Hin'
    by (rewrite <- Hk; by apply list_elem_of_fmap_2).
  apply list_elem_of_fmap in Hin' as (r & [= Hv Hs] & Hin').
  destruct (Hr r Hin') as (? & ? & ?). constructor; rewrite ?Hv, ?Hs; auto.
Qed.

(** The proof of a request, sorted, is well formed and names outputs of the
    transaction. *)
Lemma request_proof recipients requested proof :
  Forall requestable requested → requested ≠ [] → Z.of_nat (length recipients) < 4294967296 →
  match_requested requested (CanonicalRecipientOutputs recipients)
    (replicate (length (CanonicalRecipientOutputs recipients)) false) = Ok proof →
  replay_wf (merge_sort index_le proof) ∧
  (entry_key <$> merge_sort index_le proof) ≡ₚ output_key <$> requested ∧
  Forall (λ p, ∃ c, CanonicalRecipientOutputs recipients !! Z.to_nat (OutputIndex p) = Some c ∧
    output_key c = entry_key p) (merge_sort index_le proof).
Proof.
  intros Hr Hne Hlen H. apply match_requested_spec in H as (Hk & js & Hi & Hnd & Hf & Hp).
  set (canonical := CanonicalRecipientOutputs recipients) in *.
  assert (length canonical = length recipients) as Hcl
    by (apply Permutation_length, canonical_perm).
  assert (Forall (λ j, Z.of_nat j < 4294967296) js) as Hjs.
  { apply Forall_forall. intros j Hj. apply list_elem_of_lookup in Hj as [k Hj].
    destruct (Forall2_lookup_r _ _ _ _ _ Hf Hj) as (p & _ & Hu & _).
    apply lookup_lt_Some in Hu. rewrite length_replicate in Hu. lia. }
  assert (OutputIndex <$> proof = Z.of_nat <$> js) as Hi'.
  { rewrite Hi. apply list_fmap_ext. intros k j Hj%list_elem_of_lookup_2.
    rewrite Forall_forall in Hjs. specialize (Hjs j Hj). unfold uint32.
    rewrite Z.mod_small; lia. }
  assert (∀ p, p ∈ proof → ∃ j c, OutputIndex p = Z.of_nat j ∧ Z.of_nat j < 4294967296 ∧
      canonical !! j = Some c ∧ output_key c = entry_key p) as Hpos.
  { intros p Hin. apply list_elem_of_lookup in Hin as [k Hk'].
    destruct (Forall2_lookup_l _ _ _ _ _ Hf Hk') as (j & Hj & _ & c & Hc & Hkey).
    exists j, c. rewrite Forall_forall in Hjs. pose proof (Hjs j (list_elem_of_lookup_2 _ _ _ Hj)).
    assert (Some (OutputIndex p) = Some (Z.of_nat j)) as [= ->]; [|done].
    transitivity ((OutputIndex <$> proof) !! k); [by rewrite list_lookup_fmap, Hk'|].
    by rewrite Hi', list_lookup_fmap, Hj. }
  pose proof (merge_sort_Permutation index_le proof) as Hperm.
  assert (merge_sort index_le proof ≠ []) as Hsne.
  { intros Hnil. rewrite Hnil in Hperm. apply Permutation_nil_l in Hperm. subst proof.
    by destruct requested. }
  split; [split; [done|split]|split].
  - rewrite Hperm. eapply proof_entries_wf; [done..|]. apply Forall_forall.
    intros p (j & c & -> & Hj & _)%Hpos. unfold is_uint32. lia.
  - apply sorted_strict; [apply Sorted_merge_sort, _|]. rewrite Hperm, Hi'.
    apply NoDup_fmap_2; [apply _|done].
  - by rewrite Hperm, Hk.
  - rewrite Hperm. apply Forall_forall. intros p (j & c & -> & Hj & Hc & Hkey)%Hpos.
    exists c. by rewrite Nat2Z.id.
Qed.

(** a request that is part of the outputs of the transfer always has a proof,
    and what is decoded from it names, in transaction order, outputs of the
    canonical transaction with exactly the values and scripts of the request; a
    request that is not part of the outputs, counted with multiplicity, has none. *)
Theorem oor_replay_proves_request recipients requested :
  requested ≠ [] → Forall requestable requested →
  Z.of_nat (length recipients) < 4294967296 →
  10016 * Z.of_nat (length requested) + 5 < 4294967296 →
  (output_key <$> requested ⊆+ output_key <$> recipients →
   ∃ raw rs, NewOutgoingReplayData recipients requested = Ok raw ∧
     OutgoingReplayRecipients raw = Ok rs ∧
     (entry_key <$> rs) ≡ₚ output_key <$> requested ∧ StronglySorted index_lt rs ∧
     Forall (λ p, ∃ c, CanonicalRecipientOutputs recipients !! Z.to_nat (OutputIndex p) = Some c ∧
       output_key c = entry_key p) rs) ∧
  (¬ output_key <$> requested ⊆+ output_key <$> recipients →
   is_ok (NewOutgoingReplayData recipients requested) = false).
Proof.
  intros Hne Hr Hlen Hsz. pose proof (match_requested_ok requested
    (CanonicalRecipientOutputs recipients)
    (replicate (length (CanonicalRecipientOutputs recipients)) false)) as Hok.
  pose proof (fmap_Permutation output_key _ _ (canonical_perm recipients)) as Hc.
  rewrite free_keys_all, Hc in Hok.
  unfold NewOutgoingReplayData.
  destruct (match_requested _ _ _) as [proof|e] eqn:E; cbn [is_ok] in Hok |- *.
  - split; [intros _|intros Hn; destruct Hn; by apply Hok]. apply request_proof in E as (Hwf & Hk & Hp); [|done..].
    eexists _, _. split; [done|]. split; [apply replay_decode_encode; [exact Hwf|]|].
    + rewrite length_encode by apply Hwf. pose proof (encode_bound _ (proj1 (proj2 Hwf))) as Hb.
      apply Permutation_length in Hk. rewrite !length_fmap in Hk. rewrite Hk in Hb. lia.
    + split; [exact Hk|]. split; [apply Hwf|exact Hp].
  - split; [|done]. intros Hsub. by apply Hok in Hsub.
Qed.

(** ** A request *)

Module ReplayDemo.
Definition alice : RecipientOutput := mkRecipient [81; 32; 7] 5000 [].
Definition bob : RecipientOutput := mkRecipient [81; 32; 9] 5000 [1].
Definition change : RecipientOutput := mkRecipient [81; 32; 4] 1200 [].
Definition outputs : list RecipientOutput := [bob; alice; change].
Definition proof : list ArkRecipientOutput :=
  [mkArkRecipient 1 5000 [81; 32; 7] []; mkArkRecipient 2 5000 [81; 32; 9] []].
Definition raw : list Z := encodeOutgoingReplayData proof.
End ReplayDemo.
Import ReplayDemo.

Lemma oor_replay_roundtrip_witness :
  Forall is_byte raw ∧ OutgoingReplayRecipients raw = Ok proof.
Proof.
  assert (Forall is_byte raw) as Hb.
  { unfold is_byte. repeat (constructor; [split; vm_compute; congruence|]). constructor. }
  split; [exact Hb|]. apply (oor_replay_roundtrip raw proof Hb); [vm_compute; reflexivity|].
  split; [|reflexivity]. apply (replay_decode_sound raw); [exact Hb|vm_compute; reflexivity].
Defined.

Lemma oor_replay_proves_request_witness :
  is_ok (NewOutgoingReplayData outputs [bob; alice]) = true ∧
  ∃ raw' rs, NewOutgoingReplayData outputs [bob; alice] = Ok raw' ∧
    OutgoingReplayRecipients raw' = Ok rs ∧
    (entry_key <$> rs) ≡ₚ output_key <$> [bob; alice] ∧ StronglySorted index_lt rs ∧
    Forall (λ p, ∃ c, CanonicalRecipientOutputs outputs !! Z.to_nat (OutputIndex p) = Some c ∧
      output_key c = entry_key p) rs.
Proof.
  split; [vm_compute; reflexivity|].
  apply (oor_replay_proves_request outputs [bob; alice]); [done| |vm_compute; reflexivity..|].
  - unfold requestable, is_byte, MaxSatoshi, maxOutgoingReplayPkScriptSize.
    repeat constructor; cbn; lia.
  - apply submseteq_skip, submseteq_skip, submseteq_nil_l.
Defined.

(** The same output asked for twice has no proof. *)
Example twice_refused :
  is_ok (NewOutgoingReplayData outputs [alice; alice]) = false.
Proof. vm_compute. reflexivity. Qed.
