(* ===== verification/OorInputs.v ===== *)
(** * The inputs of an out-of-round transfer: [oor/transfer_inputs.go],
      [oor/transfer_input_snapshot.go]

    An input is a VTXO with what is needed to sign for it.  A session is stored
    with a portable form of its inputs, from which they are rebuilt after a
    restart.  Keys and the scripts derived from them are an interface; filling in
    the defaults of an input, refusing an ill-formed one, and the two conversions
    are the code's. *)

From S2P Require Import Prelude RecoveryProof Ledger OorReplay.
Local Open Scope Z_scope.

Record SpendInfo := mkSpendInfo { WitnessScript : list Z; ControlBlock : list Z }.

Record SpendPath := mkSpendPath {
  sp_SpendInfo : option SpendInfo;
  Conditions : list (list Z);
  RequiredSequence : Z;
  RequiredLockTime : Z;
}.

(** Public keys and the Ark scripts made of them. *)
Class ArkScripts := {
  PubKey : Type;
  SerializeCompressed : PubKey → list Z;
  ParsePubKey : list Z → result error PubKey;
  TapScript : Type;
  VTXOTapScript : PubKey → PubKey → Z → result error TapScript;
  (** the taproot output script of the standard VTXO of two keys and a delay *)
  VTXOPkScript : PubKey → PubKey → Z → result error (list Z);
  (** the standard owner leaf of two keys: its script and its policy *)
  CollabOwnerLeaf : PubKey → PubKey → result error (list Z * list Z);
  (** the script of an encoded leaf policy *)
  LeafScript : list Z → result error (list Z);
  (** the policy of the standard VTXO of two keys and a delay *)
  EncodeStandardVTXOTemplate : PubKey → PubKey → Z → result error (list Z);
  (** whether an encoded policy is that of an output script *)
  MatchesPkScript : list Z → list Z → result error bool;
  (** the keys a spend path of a policy is signed with *)
  customSpendKeys : list Z → SpendPath → result error (list PubKey);
  ExternalSignature : Type;
}.

(** The documented behaviour of the key encoding. *)
Class KeyLaws `{ArkScripts} := {
  parse_serialize : ∀ k, ParsePubKey (SerializeCompressed k) = Ok k;
  serialize_nonempty : ∀ k, SerializeCompressed k ≠ [];
}.

Section Inputs.
Context {K : ArkScripts}.

(** The part of a VTXO descriptor a transfer uses. *)
Record Vtxo := mkVtxo {
  v_Outpoint : OutPoint;
  v_Amount : Z;
  v_PkScript : list Z;
  KeyFamily : Z;
  KeyIndex : Z;
  ClientKey : option PubKey;
  v_OperatorKey : option PubKey;
  v_TapScript : option TapScript;
  RelativeExpiry : Z;
}.

Record TransferInput := mkTransferInput {
  VTXO : Vtxo;
  ReserveEpoch : Z;
  ti_VTXOPolicyTemplate : list Z;
  OwnerLeafScript : list Z;
  OwnerLeafPolicy : list Z;
  CustomSpend : option SpendPath;
  CustomSpendKeys : list PubKey;
  ExternalSignatures : list ExternalSignature;
}.

Definition InputOutpoints (inputs : list TransferInput) : list OutPoint :=
  (λ i, v_Outpoint (VTXO i)) <$> inputs.

Definition IsCustomSpend (i : TransferInput) : bool := bool_decide (is_Some (CustomSpend i)).

Definition defaultOwnerLeaf (ownerKey operatorKey : option PubKey) :
    result error (list Z * list Z) :=
  match ownerKey, operatorKey with
  | Some owner, Some operator => CollabOwnerLeaf owner operator
  | _, _ => Ok ([], [])
  end.

Definition compileOwnerLeaf (ownerLeafPolicy : list Z) : result error (list Z) :=
  if bool_decide (ownerLeafPolicy = []) then Ok [] else LeafScript ownerLeafPolicy.

(** The standard policy of the VTXO, when it is a standard one. *)
Definition defaultVTXOPolicyTemplate (v : Vtxo) : result error (list Z) :=
  match ClientKey v, v_OperatorKey v with
  | Some owner, Some operator =>
      if RelativeExpiry v =? 0 then Ok []
      else
        let* policy := EncodeStandardVTXOTemplate owner operator (RelativeExpiry v) in
        let* matches := MatchesPkScript policy (v_PkScript v) in
        Ok (if matches : bool then policy else [])
  | _, _ => Ok []
  end.

Definition set_leaf (i : TransferInput) (script policy : list Z) : TransferInput :=
  mkTransferInput (VTXO i) (ReserveEpoch i) (ti_VTXOPolicyTemplate i) script policy
    (CustomSpend i) (CustomSpendKeys i) (ExternalSignatures i).
Definition set_template (i : TransferInput) (template : list Z) : TransferInput :=
  mkTransferInput (VTXO i) (ReserveEpoch i) template (OwnerLeafScript i) (OwnerLeafPolicy i)
    (CustomSpend i) (CustomSpendKeys i) (ExternalSignatures i).
Definition set_spend_keys (i : TransferInput) (keys : list PubKey) : TransferInput :=
  mkTransferInput (VTXO i) (ReserveEpoch i) (ti_VTXOPolicyTemplate i) (OwnerLeafScript i)
    (OwnerLeafPolicy i) (CustomSpend i) keys (ExternalSignatures i).

Definition no_bytes (l : list Z) : bool := bool_decide (l = []).

(** The owner leaf and its policy, one filled in from the other or both from the
    standard leaf. *)
Definition completeOwnerLeaf (i : TransferInput) (leaf : list Z * list Z) :
    result error TransferInput :=
  let '(defaultLeaf, defaultPolicy) := leaf in
  let policy :=
    if no_bytes (OwnerLeafPolicy i) && negb (no_bytes defaultPolicy) &&
       (no_bytes (OwnerLeafScript i) || bool_decide (OwnerLeafScript i = defaultLeaf))
    then defaultPolicy else OwnerLeafPolicy i in
  let* compiled := compileOwnerLeaf policy in
  guard* negb (negb (no_bytes (OwnerLeafScript i)) && negb (no_bytes compiled) &&
               negb (bool_decide (OwnerLeafScript i = compiled)))
    else "owner leaf script and policy mismatch" in
  let script := if no_bytes (OwnerLeafScript i) && negb (no_bytes compiled)
                then compiled else OwnerLeafScript i in
  let* i' :=
    if no_bytes script
    then
      guard* negb (no_bytes defaultLeaf || no_bytes defaultPolicy)
        else "owner leaf script must be provided" in
      Ok (set_leaf i defaultLeaf defaultPolicy)
    else Ok (set_leaf i script policy) in
  guard* negb (no_bytes (OwnerLeafPolicy i')) else "owner leaf policy must be provided" in
  Ok i'.

(** [Validate] fills in the input it is called on. *)
Definition Validate (i : TransferInput) : result error TransferInput :=
  guard* 0 <? v_Amount (VTXO i) else "vtxo amount must be positive" in
  guard* negb (no_bytes (v_PkScript (VTXO i))) else "vtxo pkScript must be provided" in
  guard* IsCustomSpend i || bool_decide (is_Some (v_TapScript (VTXO i)))
    else "vtxo tapscript must be provided" in
  guard* IsCustomSpend i || bool_decide (is_Some (ClientKey (VTXO i)))
    else "vtxo client key must be provided" in
  let* leaf := defaultOwnerLeaf (ClientKey (VTXO i)) (v_OperatorKey (VTXO i)) in
  let* template :=
    if no_bytes (ti_VTXOPolicyTemplate i) then defaultVTXOPolicyTemplate (VTXO i)
    else Ok (ti_VTXOPolicyTemplate i) in
  let* i := completeOwnerLeaf (set_template i template) leaf in
  match CustomSpend i with
  | Some path =>
      if bool_decide (CustomSpendKeys i = []) && negb (no_bytes (ti_VTXOPolicyTemplate i))
      then
        let* keys := customSpendKeys (ti_VTXOPolicyTemplate i) path in
        Ok (set_spend_keys i keys)
      else Ok i
  | None => Ok i
  end.

(** ** The stored form *)

Record TransferInputSnapshot := mkInputSnapshot {
  s_Outpoint : OutPoint;
  s_ReserveEpoch : Z;
  AmountSat : Z;
  ClientKeyFamily : Z;
  ClientKeyIndex : Z;
  ClientPubKey : list Z;
  OperatorPubKey : list Z;
  ExitDelay : Z;
  s_OwnerLeafScript : list Z;
  s_OwnerLeafPolicy : list Z;
  s_VTXOPolicyTemplate : list Z;
  s_PkScript : list Z;
  SpendWitnessScript : list Z;
  SpendControlBlock : list Z;
  ConditionWitness : list (list Z);
  s_RequiredSequence : Z;
  s_RequiredLockTime : Z;
  s_ExternalSignatures : list ExternalSignature;
}.

Definition ToSnapshot (i : TransferInput) : result error TransferInputSnapshot :=
  let* i := Validate i in
  match v_OperatorKey (VTXO i) with
  | None => Err "vtxo operator key must be provided"
  | Some operator =>
      guard* negb (RelativeExpiry (VTXO i) =? 0) else "vtxo exit delay must be provided" in
      let info := CustomSpend i ≫= sp_SpendInfo in
      Ok (mkInputSnapshot (v_Outpoint (VTXO i)) (ReserveEpoch i) (v_Amount (VTXO i))
        (KeyFamily (VTXO i)) (KeyIndex (VTXO i))
        (from_option SerializeCompressed [] (ClientKey (VTXO i)))
        (SerializeCompressed operator) (RelativeExpiry (VTXO i))
        (OwnerLeafScript i) (OwnerLeafPolicy i) (ti_VTXOPolicyTemplate i)
        (v_PkScript (VTXO i))
        (from_option WitnessScript [] info) (from_option ControlBlock [] info)
        (from_option Conditions [] (CustomSpend i))
        (from_option RequiredSequence 0 (CustomSpend i))
        (from_option RequiredLockTime 0 (CustomSpend i)) (ExternalSignatures i))
  end.

Definition TransferInputFromSnapshot (s : TransferInputSnapshot) : result error TransferInput :=
  guard* 0 <? AmountSat s else "amount must be positive" in
  guard* negb (no_bytes (ClientPubKey s) || no_bytes (OperatorPubKey s))
    else "pubkeys must be provided" in
  guard* negb (ExitDelay s =? 0) else "exit delay must be provided" in
  guard* negb (no_bytes (s_OwnerLeafScript s) && no_bytes (s_OwnerLeafPolicy s))
    else "owner leaf script or policy must be provided" in
  let* client := ParsePubKey (ClientPubKey s) in
  let* operator := ParsePubKey (OperatorPubKey s) in
  let* tap := VTXOTapScript client operator (ExitDelay s) in
  let* pkScript := VTXOPkScript client operator (ExitDelay s) in
  Ok (mkTransferInput
    (mkVtxo (s_Outpoint s) (AmountSat s)
      (if no_bytes (s_PkScript s) then pkScript else s_PkScript s)
      (ClientKeyFamily s) (ClientKeyIndex s) (Some client) (Some operator) (Some tap)
      (ExitDelay s))
    (s_ReserveEpoch s) (s_VTXOPolicyTemplate s) (s_OwnerLeafScript s) (s_OwnerLeafPolicy s)
    (if no_bytes (SpendWitnessScript s) then None
     else Some (mkSpendPath (Some (mkSpendInfo (SpendWitnessScript s) (SpendControlBlock s)))
            (ConditionWitness s) (s_RequiredSequence s) (s_RequiredLockTime s)))
    [] (s_ExternalSignatures s)).

(** ** What survives a restart *)

Lemma no_bytes_true l : no_bytes l = true ↔ l = [].
Proof. unfold no_bytes. apply bool_decide_eq_true. Qed.
Lemma no_bytes_false l : no_bytes l = false ↔ l ≠ [].
Proof. unfold no_bytes. apply bool_decide_eq_false. Qed.

(** The part of an input that completing its leaf leaves alone. *)
Definition claim (i : TransferInput) : OutPoint * Z * Z :=
  (v_Outpoint (VTXO i), v_Amount (VTXO i), ReserveEpoch i).

Lemma completeOwnerLeaf_ok i leaf i' :
  completeOwnerLeaf i leaf = Ok i' →
  i' = set_leaf i (OwnerLeafScript i') (OwnerLeafPolicy i') ∧ OwnerLeafPolicy i' ≠ [].
Proof.
  destruct leaf as [dl dp]. unfold completeOwnerLeaf. intros H. inv_ok.
  match goal with E : (if ?b then _ else _) = Ok _ |- _ => destruct b end; inv_ok;
    (split; [by destruct i|by apply no_bytes_false, negb_true_iff]).
Qed.

Lemma Validate_ok i i' :
  Validate i = Ok i' →
  VTXO i' = VTXO i ∧ ReserveEpoch i' = ReserveEpoch i ∧ CustomSpend i' = CustomSpend i ∧
  ExternalSignatures i' = ExternalSignatures i ∧ OwnerLeafPolicy i' ≠ [] ∧
  0 < v_Amount (VTXO i) ∧ v_PkScript (VTXO i) ≠ [].
Proof.
  unfold Validate. intros H. inv_ok.
  apply completeOwnerLeaf_ok in E1 as [Hi Hp].
  match type of Hi with ?j = _ => rename j into i1 end. zbool.
  match goal with G : no_bytes (v_PkScript _) = false |- _ => apply no_bytes_false in G end.
  destruct (CustomSpend i1); [destruct (_ && _)|]; inv_ok; rewrite Hi; repeat split; cbn; auto;
    by rewrite Hi in Hp.
Qed.

(** The rebuilt input: everything of the completed one but the keys of its custom
    path, which validation derives again from the policy. *)
Definition restored (i : TransferInput) (tap : TapScript) : TransferInput :=
  mkTransferInput
    (mkVtxo (v_Outpoint (VTXO i)) (v_Amount (VTXO i)) (v_PkScript (VTXO i)) (KeyFamily (VTXO i))
      (KeyIndex (VTXO i)) (ClientKey (VTXO i)) (v_OperatorKey (VTXO i)) (Some tap)
      (RelativeExpiry (VTXO i)))
    (ReserveEpoch i) (ti_VTXOPolicyTemplate i) (OwnerLeafScript i) (OwnerLeafPolicy i)
    (CustomSpend i) [] (ExternalSignatures i).

(** A custom path whose script is known. *)
Definition path_known (p : option SpendPath) : Prop :=
  match p with
  | None => True
  | Some path => ∃ info, sp_SpendInfo path = Some info ∧ WitnessScript info ≠ []
  end.

Lemma snapshot_restores `{!KeyLaws} i i' s client operator tap pkScript :
  ToSnapshot i = Ok s → Validate i = Ok i' →
  ClientKey (VTXO i) = Some client → v_OperatorKey (VTXO i) = Some operator →
  VTXOTapScript client operator (RelativeExpiry (VTXO i)) = Ok tap →
  VTXOPkScript client operator (RelativeExpiry (VTXO i)) = Ok pkScript →
  path_known (CustomSpend i) → TransferInputFromSnapshot s = Ok (restored i' tap).
Proof.
  intros Hs Hv Hc Ho Ht Hpk Hpath. unfold ToSnapshot in Hs. rewrite Hv in Hs.
  apply Validate_ok in Hv as (Hvtxo & He & Hcs & Hex & Hpol & Hamt & Hpks).
  rewrite Hvtxo, Ho in Hs. inv_ok. zbool.
  unfold TransferInputFromSnapshot, restored. cbn. rewrite Hvtxo, Hc, Ho. cbn.
  rewrite (proj2 (Z.ltb_lt _ _)), (proj2 (Z.eqb_neq _ _)) by done. cbn.
  rewrite !(proj2 (no_bytes_false (SerializeCompressed _))) by apply serialize_nonempty. cbn.
  rewrite (proj2 (no_bytes_false (OwnerLeafPolicy i'))), andb_false_r by done. cbn.
  rewrite !parse_serialize. cbn. rewrite (proj2 (no_bytes_false (v_PkScript _))) by done.
  rewrite Ht, Hpk, Hcs. do 2 f_equal.
  destruct (CustomSpend i) as [[info cond seq lock]|]; cbn in *; [|done].
  destruct Hpath as ([ws cb] & -> & Hw). cbn in *. by rewrite (proj2 (no_bytes_false _)).
Qed.

Lemma keyless_not_restored i i' s :
  ToSnapshot i = Ok s → Validate i = Ok i' → ClientKey (VTXO i) = None →
  TransferInputFromSnapshot s = Err "pubkeys must be provided".
Proof.
  intros Hs Hv Hc. unfold ToSnapshot in Hs. rewrite Hv in Hs.
  apply Validate_ok in Hv as (Hvtxo & _ & _ & _ & _ & Hamt & _). rewrite Hvtxo in Hs.
  destruct (v_OperatorKey (VTXO i)); inv_ok. unfold TransferInputFromSnapshot. cbn.
  rewrite Hc. cbn. by rewrite (proj2 (Z.ltb_lt _ _)).
Qed.

End Inputs.
