(* ===== verification/OorFsm.v ===== *)
(** * The out-of-round transfer state machines: [oor/transitions.go],
      [oor/receive_transitions.go], [oor/states.go], [oor/resume.go],
      [oor/outgoing_snapshot.go], [oor/receive_snapshot.go]

    A sender builds a package of transactions, signs it, has the operator co-sign
    it (the point of no return), signs the checkpoints and hands the finished
    package back.  A receiver resolves a hint into a package, asks for the metadata
    of its outputs, stores them and acknowledges.  Every transition is a function
    of the state and the event; what is to be done in the world comes out as
    outbox events, and a stored session is resumed by the outbox its state implies.

    Packets and the checks on them are an interface.  A packet that is missing or
    has no transaction is [None].  Texts made by formatting are kept as the values
    that are formatted. *)

From S2P Require Import Prelude RecoveryProof Ledger OorReplay OorInputs.
Local Open Scope Z_scope.

(** ** Texts *)

Inductive text :=
| Plain (s : string)
| BudgetExhausted (maxRetry elapsed : Z) (last : text)
| CoSignedInvalid (e : error)
| MetadataUnresolved (retries : Z) (last : text)
| HintUnresolved (retries : Z).

#[export] Instance text_eq_dec : EqDecision text.
Proof. solve_decision. Defined.

(** ** The transaction library *)

Class OorTx := {
  oor_scripts :: ArkScripts;
  Packet : Type;
  (** [UnsignedTx.TxHash()] *)
  TxHash : Packet → Hash;
  PolicyRest : Type;
  (** the rest of [BuildSubmitPackage]'s policy, given its operator key *)
  BuildSubmitPackage : PubKey * PolicyRest → list TransferInput → list RecipientOutput →
    result error (Packet * list Packet);
  ValidateSubmitPackage : Packet → list Packet → result error unit;
  ValidateSubmitPackageSigned : Packet → list Packet → result error unit;
  ValidateFinalizePackageSigned : Packet → list Packet → result error unit;
  (** [arktx.ValidateCanonicalPSBT], and the outputs of the transaction but the anchor *)
  ValidateCanonicalPSBT : Packet → result error unit;
  NonAnchorOutputs : Packet → list ArkRecipientOutput;
  RawPacket : Type;
  Serialize : Packet → result error RawPacket;
  Parse : RawPacket → result error Packet;
  (** metadata of an output from the indexer, and packages of earlier transfers *)
  IncomingMetadata : Type;
  PackageArtifact : Type;
}.

(** Documented behaviour: a packet is read back as it was written, and a package
    is built only of some inputs and some recipients, with its checkpoints. *)
Class OorTxLaws `{OorTx} := {
  parse_packet : ∀ p raw, Serialize p = Ok raw → Parse raw = Ok p;
  build_needs : ∀ policy inputs outputs ark checkpoints,
    BuildSubmitPackage policy inputs outputs = Ok (ark, checkpoints) →
    inputs ≠ [] ∧ outputs ≠ [] ∧ checkpoints ≠ [];
}.

Section Machines.
Context {T : OorTx}.

(** ** States *)

Record ArkSigning := mkArkSigning {
  as_ArkPSBT : Packet;
  as_CheckpointPSBTs : list Packet;
  as_TransferInputs : list TransferInput;
  as_RecipientOutputs : list RecipientOutput;
  as_IdempotencyKey : string;
  as_DispatchRequestData : list Z;
}.

Record Submitting := mkSubmitting {
  su_ArkPSBT : Packet;
  su_CheckpointPSBTs : list Packet;
  su_TransferInputs : list TransferInput;
  su_RecipientOutputs : list RecipientOutput;
  su_IdempotencyKey : string;
  su_DispatchRequestData : list Z;
  su_RetryAfter : Z;
  su_RetryReason : text;
  FirstRejectUnixNanos : Z;
}.

Record CoSigned := mkCoSigned {
  cs_SessionID : Hash;
  cs_ArkPSBT : Packet;
  CoSignedCheckpointPSBTs : list Packet;
  cs_TransferInputs : list TransferInput;
  cs_IdempotencyKey : string;
}.

Record Finalizing := mkFinalizing {
  fs_SessionID : Hash;
  fs_ArkPSBT : Packet;
  FinalCheckpointPSBTs : list Packet;
  fs_TransferInputs : list TransferInput;
  fs_IdempotencyKey : string;
}.

Record LocalUpdate := mkLocalUpdate {
  lu_SessionID : Hash;
  lu_TransferInputs : list TransferInput;
  lu_IdempotencyKey : string;
}.

Record Resolving := mkResolving {
  rr_SessionID : Hash;
  RecipientPkScript : list Z;
  RecipientEventID : Z;
  ResolveAttempts : Z;
}.

Record Notified := mkNotified {
  rn_SessionID : Hash;
  rn_ArkPSBT : Packet;
  rn_FinalCheckpointPSBTs : list Packet;
  rn_AncestorPackages : list PackageArtifact;
  rn_Recipients : list ArkRecipientOutput;
  MetadataAttempts : Z;
}.

(** The states of both machines; [Failed] is shared. *)
Inductive SessionState :=
| Idle
| AwaitingArkSignatures (s : ArkSigning)
| AwaitingSubmitAccepted (s : Submitting)
| AwaitingCheckpointSignatures (s : CoSigned)
| AwaitingFinalizeAccepted (s : Finalizing)
| AwaitingLocalVTXOUpdate (s : LocalUpdate)
| Completed (IdempotencyKey : string)
| Failed (Reason : text) (IdempotencyKey : string) (PrePONR : bool)
| ReceiveIdle
| ReceiveResolving (s : Resolving)
| ReceiveNotified (s : Notified)
| ReceiveAwaitingAck (SessionID : Hash)
| ReceiveCompleted.

Definition IsTerminal (s : SessionState) : bool :=
  match s with Completed _ | Failed _ _ _ | ReceiveCompleted => true | _ => false end.

(** ** Events and outbox *)

Record MetadataMatch := mkMetadataMatch { mm_OutputIndex : Z; mm_Metadata : IncomingMetadata }.

(** A stored output: its outpoint and amount. *)
Record Received := mkReceived { rc_Outpoint : OutPoint; rc_Amount : Z }.

Record IncomingTransfer := mkIncomingTransfer {
  it_SessionID : Hash;
  it_ArkPSBT : option Packet;
  it_FinalCheckpointPSBTs : list Packet;
  it_AncestorPackages : list PackageArtifact;
  it_Recipients : list ArkRecipientOutput;
}.

Record CheckpointPolicy := mkPolicy { OperatorKey : option PubKey; policy_rest : PolicyRest }.

Record StartTransfer := mkStartTransfer {
  VTXOInputs : list TransferInput;
  RecipientOutputs : list RecipientOutput;
  Policy : CheckpointPolicy;
  st_IdempotencyKey : string;
  st_DispatchRequestData : list Z;
}.

Record OutboxError := mkOutboxError {
  Retryable : bool;
  RetryAfter : Z;
  ErrorReason : text;
}.

Inductive Event :=
| StartTransferEvent (e : StartTransfer)
| ArkSignedEvent (ArkPSBT : option Packet)
| SubmitAcceptedEvent (SessionID : Hash) (ArkPSBT : option Packet) (CoSigned : list Packet)
| CheckpointsSignedEvent (Final : list Packet)
| FinalizeAcceptedEvent
| InputsMarkedSpentEvent
| FailEvent (Reason : text)
| OutboxErrorEvent (e : OutboxError)
| RetryDueEvent
| IncomingTransferEvent (e : IncomingTransfer)
| IncomingMetadataResolvedEvent (Matches : list MetadataMatch) (ExpiryAuthenticated : bool)
| IncomingHandledEvent (MaterializedVTXOs : list Received)
| IncomingAckSentEvent.

Record MaterializeRequest := mkMaterialize {
  mr_SessionID : Hash;
  mr_ArkPSBT : Packet;
  mr_FinalCheckpointPSBTs : list Packet;
  mr_Recipients : list ArkRecipientOutput;
  MetadataMatches : list MetadataMatch;
  mr_AncestorPackages : list PackageArtifact;
}.

Inductive OutboxEvent :=
| RequestArkSignatures (Ark : Packet) (Checkpoints : list Packet) (Inputs : list TransferInput)
| SendSubmitPackageRequest (Ark : Packet) (Checkpoints : list Packet)
    (Inputs : list TransferInput) (Recipients : list RecipientOutput)
| RequestCheckpointSignatures (Ark : Packet) (CoSigned : list Packet)
    (Inputs : list TransferInput)
| SendFinalizePackageRequest (Ark : Packet) (Final : list Packet)
| MarkInputsSpentRequest (Outpoints : list OutPoint)
| ReleaseInputsRequest (Outpoints : list OutPoint) (ReserveEpochs : gmap OutPoint Z)
| IncomingTransferNotification (SessionID : Hash) (Recipients : list ArkRecipientOutput)
| QueryIncomingTransferRequest (SessionID : Hash) (PkScript : list Z) (EventID : Z)
| QueryIncomingMetadataRequest (SessionID : Hash) (Ark : Packet) (Final : list Packet)
    (Recipients : list ArkRecipientOutput)
| AuthenticateIncomingMetadataRequest (Matches : list MetadataMatch)
| MaterializeIncomingVTXOsRequest (r : MaterializeRequest)
| SendIncomingAckRequest (SessionID : Hash)
| ScheduleRetryRequest (After : Z) (Reason : text).

Record Environment := mkEnvironment {
  env_SessionID : Hash;
  Now : Z;
  MaxTransientSubmitRetry : Z;
}.

Definition transition : Type := result error (SessionState * list OutboxEvent).
Definition go (s : SessionState) (outbox : list OutboxEvent) : transition := Ok (s, outbox).
Definition unexpectedEvent (s : SessionState) : transition := go s [].

(** ** Outboxes *)

(** Durations are in nanoseconds. *)
Definition Second : Z := 1000000000.
Definition defaultRetryDelay : Z := 1 * Second.
Definition outgoingTransportRedriveInterval : Z := 30 * Second.
Definition metadataRetryBaseDelay : Z := 1 * Second.
Definition metadataRetryMaxDelay : Z := 5 * 60 * Second.
Definition maxMetadataRetries : Z := 20.
Definition maxResolveRetries : Z := 20.

Definition submitRedriveReason : text := Plain "outgoing submit re-drive timer".
Definition finalizeRedriveReason : text := Plain "outgoing finalize re-drive timer".
Definition localVTXOUpdateRedriveReason : text :=
  Plain "outgoing local-vtxo-update re-drive timer".
Definition resolveGiveUpReason : text := Plain "incoming resolve give-up timer".
Definition notifiedGiveUpReason : text := Plain "incoming metadata give-up timer".

Definition submitOutbox (s : Submitting) : list OutboxEvent :=
  [SendSubmitPackageRequest (su_ArkPSBT s) (su_CheckpointPSBTs s) (su_TransferInputs s)
     (su_RecipientOutputs s);
   ScheduleRetryRequest outgoingTransportRedriveInterval submitRedriveReason].

Definition finalizeOutbox (s : Finalizing) : list OutboxEvent :=
  [SendFinalizePackageRequest (fs_ArkPSBT s) (FinalCheckpointPSBTs s);
   ScheduleRetryRequest outgoingTransportRedriveInterval finalizeRedriveReason].

Definition localVTXOUpdateOutbox (s : LocalUpdate) : list OutboxEvent :=
  [MarkInputsSpentRequest (InputOutpoints (lu_TransferInputs s));
   ScheduleRetryRequest outgoingTransportRedriveInterval localVTXOUpdateRedriveReason].

(** [attempt] is a [uint32]. *)
Definition metadataRetryBackoff (attempt : Z) : Z :=
  let attempt := if attempt <? 1 then 1 else attempt in
  let shift := uint32 (attempt - 1) in
  let shift := if 30 <? shift then 30 else shift in
  let delay := int64 (Z.shiftl metadataRetryBaseDelay shift) in
  if (delay <=? 0) || (metadataRetryMaxDelay <? delay) then metadataRetryMaxDelay else delay.

Definition resolvingOutbox (s : Resolving) : list OutboxEvent :=
  [QueryIncomingTransferRequest (rr_SessionID s) (RecipientPkScript s) (RecipientEventID s);
   ScheduleRetryRequest (metadataRetryBackoff (uint32 (ResolveAttempts s + 1)))
     resolveGiveUpReason].

Definition notifiedOutbox (s : Notified) (recipients : list ArkRecipientOutput) :
    list OutboxEvent :=
  [QueryIncomingMetadataRequest (rn_SessionID s) (rn_ArkPSBT s) (rn_FinalCheckpointPSBTs s)
     recipients;
   ScheduleRetryRequest (metadataRetryBackoff (uint32 (MetadataAttempts s + 1)))
     notifiedGiveUpReason].

(** ** The sender *)

Definition stateIdempotencyKey (s : SessionState) : string :=
  match s with
  | AwaitingArkSignatures s => as_IdempotencyKey s
  | AwaitingSubmitAccepted s => su_IdempotencyKey s
  | AwaitingCheckpointSignatures s => cs_IdempotencyKey s
  | AwaitingFinalizeAccepted s => fs_IdempotencyKey s
  | AwaitingLocalVTXOUpdate s => lu_IdempotencyKey s
  | Completed key => key
  | Failed _ key _ => key
  | _ => ""
  end.

Definition failsBeforePONR (s : SessionState) : bool :=
  match s with
  | Idle | AwaitingArkSignatures _ | AwaitingSubmitAccepted _ => true
  | _ => false
  end.

Definition failedState (reason : text) (current : SessionState) : SessionState :=
  Failed reason (stateIdempotencyKey current) (failsBeforePONR current).

Definition prePONRInputs (s : SessionState) : list TransferInput :=
  match s with
  | AwaitingArkSignatures s => as_TransferInputs s
  | AwaitingSubmitAccepted s => su_TransferInputs s
  | _ => []
  end.

Definition prePONRInputOutpoints (s : SessionState) : list OutPoint :=
  InputOutpoints (prePONRInputs s).

Definition prePONRReserveEpochs (s : SessionState) : gmap OutPoint Z :=
  foldl (λ epochs i, if ReserveEpoch i =? 0 then epochs
           else <[v_Outpoint (VTXO i) := ReserveEpoch i]> epochs) ∅ (prePONRInputs s).

Definition retryDelay (after : Z) : Z := if after =? 0 then defaultRetryDelay else after.

Definition handleOutboxError (current : SessionState) (evt : OutboxError) : transition :=
  if negb (Retryable evt)
  then
    let outpoints := prePONRInputOutpoints current in
    go (failedState (ErrorReason evt) current)
      (if bool_decide (outpoints = []) then []
       else [ReleaseInputsRequest outpoints (prePONRReserveEpochs current)])
  else go current [ScheduleRetryRequest (retryDelay (RetryAfter evt)) (ErrorReason evt)].

(** [time.Time.Sub] saturates. *)
Definition time_sub (a b : Z) : Z :=
  Z.max (-9223372036854775808) (Z.min 9223372036854775807 (a - b)).

Definition set_retry (s : Submitting) (after : Z) (reason : text) (first : Z) : Submitting :=
  mkSubmitting (su_ArkPSBT s) (su_CheckpointPSBTs s) (su_TransferInputs s)
    (su_RecipientOutputs s) (su_IdempotencyKey s) (su_DispatchRequestData s) after reason first.

Definition handleSubmitOutboxError (env : Environment) (current : Submitting)
    (evt : OutboxError) : transition :=
  if negb (Retryable evt) then handleOutboxError (AwaitingSubmitAccepted current) evt
  else
    let maxRetry := MaxTransientSubmitRetry env in
    let elapsed := time_sub (Now env) (FirstRejectUnixNanos current) in
    if (0 <? maxRetry) && negb (FirstRejectUnixNanos current =? 0) && (maxRetry <? elapsed)
    then handleOutboxError (AwaitingSubmitAccepted current)
           (mkOutboxError false 0 (BudgetExhausted maxRetry elapsed (ErrorReason evt)))
    else
      let first := if FirstRejectUnixNanos current =? 0 then int64 (Now env)
                   else FirstRejectUnixNanos current in
      let after := retryDelay (RetryAfter evt) in
      go (AwaitingSubmitAccepted (set_retry current after (ErrorReason evt) first))
        [ScheduleRetryRequest after (ErrorReason evt)].

(** The owner leaf of every standard input is bound to the operator key of the
    session. *)
Fixpoint normalizeCheckpointOwnerLeaves (operator : PubKey) (inputs : list TransferInput) :
    result error (list TransferInput) :=
  match inputs with
  | [] => Ok []
  | i :: inputs =>
      let* i' :=
        if IsCustomSpend i then Ok i
        else
          match ClientKey (VTXO i) with
          | None => Ok i
          | Some client =>
              let* leaf := CollabOwnerLeaf client operator in
              Ok (if no_bytes leaf.1 then i else set_leaf i leaf.1 leaf.2)
          end in
      let* inputs' := normalizeCheckpointOwnerLeaves operator inputs in
      Ok (i' :: inputs')
  end.

Definition Idle_ProcessEvent (evt : Event) (env : Environment) : transition :=
  match evt with
  | StartTransferEvent e =>
      match OperatorKey (Policy e) with
      | None => Err "checkpoint policy operator key required"
      | Some operator =>
          let* inputs := normalizeCheckpointOwnerLeaves operator (VTXOInputs e) in
          let recipients := CanonicalRecipientOutputs (RecipientOutputs e) in
          let* data :=
            if negb (bool_decide (st_IdempotencyKey e = "")) && no_bytes (st_DispatchRequestData e)
            then newOutgoingReplayData recipients else Ok (st_DispatchRequestData e) in
          let* package := BuildSubmitPackage (operator, policy_rest (Policy e)) inputs recipients in
          let '(ark, checkpoints) := package in
          guard* negb (bool_decide (length checkpoints = 0%nat))
            else "checkpoint psbts must be provided" in
          guard* (env_SessionID env =? 0)%N || (TxHash ark =? env_SessionID env)%N
            else "ark txid mismatch with session id" in
          go (AwaitingArkSignatures (mkArkSigning ark checkpoints inputs recipients
                (st_IdempotencyKey e) data))
            [RequestArkSignatures ark checkpoints inputs]
      end
  | FailEvent reason => go (failedState reason Idle) []
  | _ => unexpectedEvent Idle
  end.

Definition ArkSignatures_ProcessEvent (s : ArkSigning) (evt : Event) : transition :=
  match evt with
  | ArkSignedEvent None => Err "signed ark psbt must be provided"
  | ArkSignedEvent (Some ark) =>
      guard* (TxHash ark =? TxHash (as_ArkPSBT s))%N else "ark txid mismatch" in
      let* _ := ValidateSubmitPackage ark (as_CheckpointPSBTs s) in
      let next := mkSubmitting ark (as_CheckpointPSBTs s) (as_TransferInputs s)
        (as_RecipientOutputs s) (as_IdempotencyKey s) (as_DispatchRequestData s)
        0 (Plain "") 0 in
      go (AwaitingSubmitAccepted next) (submitOutbox next)
  | OutboxErrorEvent e => handleOutboxError (AwaitingArkSignatures s) e
  | FailEvent reason => go (failedState reason (AwaitingArkSignatures s)) []
  | _ => unexpectedEvent (AwaitingArkSignatures s)
  end.

Definition SubmitAccepted_ProcessEvent (s : Submitting) (evt : Event) (env : Environment) :
    transition :=
  let reject reason :=
    handleOutboxError (AwaitingSubmitAccepted s) (mkOutboxError false 0 reason) in
  match evt with
  | SubmitAcceptedEvent _ None _ => reject (Plain "ark psbt must be provided")
  | SubmitAcceptedEvent sid (Some ark) checkpoints =>
      if negb (sid =? TxHash (su_ArkPSBT s))%N
      then reject (Plain "submit accepted session id mismatch")
      else if negb (TxHash (su_ArkPSBT s) =? TxHash ark)%N
      then reject (Plain "ark txid mismatch")
      else if bool_decide (length checkpoints = 0%nat)
      then reject (Plain "co-signed checkpoints required")
      else
        match ValidateSubmitPackageSigned ark checkpoints with
        | Err e => reject (CoSignedInvalid e)
        | Ok _ =>
            go (AwaitingCheckpointSignatures (mkCoSigned sid ark checkpoints
                  (su_TransferInputs s) (su_IdempotencyKey s)))
              [RequestCheckpointSignatures ark checkpoints (su_TransferInputs s)]
        end
  | OutboxErrorEvent e => handleSubmitOutboxError env s e
  | FailEvent reason => go (failedState reason (AwaitingSubmitAccepted s)) []
  | _ => unexpectedEvent (AwaitingSubmitAccepted s)
  end.

Definition CheckpointSignatures_ProcessEvent (s : CoSigned) (evt : Event) : transition :=
  match evt with
  | CheckpointsSignedEvent final =>
      guard* negb (bool_decide (length final = 0%nat)) else "final checkpoints required" in
      let* _ := ValidateFinalizePackageSigned (cs_ArkPSBT s) final in
      let next := mkFinalizing (cs_SessionID s) (cs_ArkPSBT s) final (cs_TransferInputs s)
        (cs_IdempotencyKey s) in
      go (AwaitingFinalizeAccepted next) (finalizeOutbox next)
  | OutboxErrorEvent e => handleOutboxError (AwaitingCheckpointSignatures s) e
  | FailEvent reason => go (failedState reason (AwaitingCheckpointSignatures s)) []
  | _ => unexpectedEvent (AwaitingCheckpointSignatures s)
  end.

Definition FinalizeAccepted_ProcessEvent (s : Finalizing) (evt : Event) : transition :=
  match evt with
  | FinalizeAcceptedEvent =>
      go (AwaitingLocalVTXOUpdate (mkLocalUpdate (fs_SessionID s) (fs_TransferInputs s)
            (fs_IdempotencyKey s)))
        [MarkInputsSpentRequest (InputOutpoints (fs_TransferInputs s))]
  | OutboxErrorEvent e => handleOutboxError (AwaitingFinalizeAccepted s) e
  | FailEvent reason => go (failedState reason (AwaitingFinalizeAccepted s)) []
  | _ => unexpectedEvent (AwaitingFinalizeAccepted s)
  end.

Definition LocalVTXOUpdate_ProcessEvent (s : LocalUpdate) (evt : Event) : transition :=
  match evt with
  | InputsMarkedSpentEvent => go (Completed (lu_IdempotencyKey s)) []
  | OutboxErrorEvent e => handleOutboxError (AwaitingLocalVTXOUpdate s) e
  | FailEvent reason => go (failedState reason (AwaitingLocalVTXOUpdate s)) []
  | _ => unexpectedEvent (AwaitingLocalVTXOUpdate s)
  end.

(** ** The receiver *)

Definition receiveFailed (reason : text) : SessionState := Failed reason "" false.

Definition ExtractArkRecipients (ark : Packet) : result error (list ArkRecipientOutput) :=
  let* _ := ValidateCanonicalPSBT ark in
  guard* negb (bool_decide (NonAnchorOutputs ark = [])) else "ark tx has no recipient outputs" in
  Ok (NonAnchorOutputs ark).

(** The recipients an event or a state names, or those of its transaction. *)
Definition recipientsOr (recipients : list ArkRecipientOutput) (ark : Packet) :
    result error (list ArkRecipientOutput) :=
  if bool_decide (recipients = []) then ExtractArkRecipients ark else Ok recipients.

Definition set_attempts (s : Notified) (n : Z) : Notified :=
  mkNotified (rn_SessionID s) (rn_ArkPSBT s) (rn_FinalCheckpointPSBTs s)
    (rn_AncestorPackages s) (rn_Recipients s) n.

(** The next attempt, or the failure that gives up. *)
Definition notifiedGiveUp (s : Notified) (reason : text) : SessionState + Notified :=
  if maxMetadataRetries <=? MetadataAttempts s
  then inl (receiveFailed (MetadataUnresolved maxMetadataRetries reason))
  else inr (set_attempts s (uint32 (MetadataAttempts s + 1))).

Definition handleNotifiedRetry (s : Notified) (evt : OutboxError) : transition :=
  match notifiedGiveUp s (ErrorReason evt) with
  | inl failed => go failed []
  | inr next =>
      go (ReceiveNotified next)
        [ScheduleRetryRequest (metadataRetryBackoff (MetadataAttempts next)) (ErrorReason evt)]
  end.

Definition handleNotifiedTimerRetry (s : Notified) : transition :=
  match notifiedGiveUp s notifiedGiveUpReason with
  | inl failed => go failed []
  | inr next =>
      match ExtractArkRecipients (rn_ArkPSBT s) with
      | Err _ =>
          go (ReceiveNotified next)
            [ScheduleRetryRequest (metadataRetryBackoff (MetadataAttempts next))
               notifiedGiveUpReason]
      | Ok recipients => go (ReceiveNotified next) (notifiedOutbox next recipients)
      end
  end.

Definition handleReceiveOutboxError (s : Notified) (evt : OutboxError) : transition :=
  if negb (Retryable evt) then go (receiveFailed (ErrorReason evt)) []
  else handleNotifiedRetry s evt.

Definition handleResolveRetry (s : Resolving) : transition :=
  if maxResolveRetries <=? ResolveAttempts s
  then go (receiveFailed (HintUnresolved maxResolveRetries)) []
  else
    let next := mkResolving (rr_SessionID s) (RecipientPkScript s) (RecipientEventID s)
      (uint32 (ResolveAttempts s + 1)) in
    go (ReceiveResolving next) (resolvingOutbox next).

Definition waitsOnGiveUpTimer (s : SessionState) : bool :=
  match s with ReceiveResolving _ | ReceiveNotified _ => true | _ => false end.

Definition transitionIncomingTransfer (evt : IncomingTransfer) : transition :=
  match it_ArkPSBT evt with
  | None => Err "ark psbt must be provided"
  | Some ark =>
      guard* negb (it_SessionID evt =? 0)%N else "session id must be provided" in
      guard* (TxHash ark =? it_SessionID evt)%N else "ark txid mismatch" in
      let* _ := ValidateCanonicalPSBT ark in
      let* recipients := recipientsOr (it_Recipients evt) ark in
      let notified := mkNotified (it_SessionID evt) ark (it_FinalCheckpointPSBTs evt)
        (it_AncestorPackages evt) recipients 0 in
      go (ReceiveNotified notified)
        (IncomingTransferNotification (it_SessionID evt) recipients ::
         notifiedOutbox notified recipients)
  end.

Definition ReceiveIdle_ProcessEvent (evt : Event) : transition :=
  match evt with
  | IncomingTransferEvent e => transitionIncomingTransfer e
  | FailEvent reason => go (receiveFailed reason) []
  | _ => unexpectedEvent ReceiveIdle
  end.

Definition ReceiveResolving_ProcessEvent (s : Resolving) (evt : Event) : transition :=
  match evt with
  | IncomingTransferEvent e => transitionIncomingTransfer e
  | RetryDueEvent => handleResolveRetry s
  | FailEvent reason => go (receiveFailed reason) []
  | _ => unexpectedEvent (ReceiveResolving s)
  end.

Definition ReceiveNotified_ProcessEvent (s : Notified) (evt : Event) : transition :=
  match evt with
  | IncomingMetadataResolvedEvent matches false =>
      go (ReceiveNotified s) [AuthenticateIncomingMetadataRequest matches]
  | IncomingMetadataResolvedEvent matches true =>
      let* recipients := recipientsOr (rn_Recipients s) (rn_ArkPSBT s) in
      go (ReceiveNotified s)
        [MaterializeIncomingVTXOsRequest (mkMaterialize (rn_SessionID s) (rn_ArkPSBT s)
           (rn_FinalCheckpointPSBTs s) recipients matches (rn_AncestorPackages s))]
  | IncomingHandledEvent _ =>
      go (ReceiveAwaitingAck (rn_SessionID s)) [SendIncomingAckRequest (rn_SessionID s)]
  | OutboxErrorEvent e => handleReceiveOutboxError s e
  | RetryDueEvent => handleNotifiedTimerRetry s
  | FailEvent reason => go (receiveFailed reason) []
  | _ => unexpectedEvent (ReceiveNotified s)
  end.

Definition ReceiveAwaitingAck_ProcessEvent (sid : Hash) (evt : Event) : transition :=
  match evt with
  | IncomingAckSentEvent => go ReceiveCompleted []
  | OutboxErrorEvent e => go (receiveFailed (ErrorReason e)) []
  | FailEvent reason => go (receiveFailed reason) []
  | _ => unexpectedEvent (ReceiveAwaitingAck sid)
  end.

(** [AskEvent]: a transition that fails leaves the state as it was. *)
Definition ProcessEvent (s : SessionState) (evt : Event) (env : Environment) : transition :=
  match s with
  | Idle => Idle_ProcessEvent evt env
  | AwaitingArkSignatures s => ArkSignatures_ProcessEvent s evt
  | AwaitingSubmitAccepted s => SubmitAccepted_ProcessEvent s evt env
  | AwaitingCheckpointSignatures s => CheckpointSignatures_ProcessEvent s evt
  | AwaitingFinalizeAccepted s => FinalizeAccepted_ProcessEvent s evt
  | AwaitingLocalVTXOUpdate s => LocalVTXOUpdate_ProcessEvent s evt
  | Completed _ | Failed _ _ _ | ReceiveCompleted => unexpectedEvent s
  | ReceiveIdle => ReceiveIdle_ProcessEvent evt
  | ReceiveResolving s => ReceiveResolving_ProcessEvent s evt
  | ReceiveNotified s => ReceiveNotified_ProcessEvent s evt
  | ReceiveAwaitingAck sid => ReceiveAwaitingAck_ProcessEvent sid evt
  end.

(** ** Resuming *)

Definition OutboxForIncomingState (s : SessionState) : result error (list OutboxEvent) :=
  match s with
  | ReceiveResolving s => Ok (resolvingOutbox s)
  | ReceiveNotified s =>
      let* recipients := recipientsOr (rn_Recipients s) (rn_ArkPSBT s) in
      Ok (notifiedOutbox s recipients)
  | ReceiveAwaitingAck sid => Ok [SendIncomingAckRequest sid]
  | ReceiveCompleted | Failed _ _ _ => Ok []
  | _ => Err "unsupported incoming state type"
  end.

Definition resumeOutboxForIncomingState (s : SessionState) : result error (list OutboxEvent) :=
  match s with
  | ReceiveResolving s =>
      Ok [ScheduleRetryRequest (metadataRetryBackoff (uint32 (ResolveAttempts s + 1)))
            resolveGiveUpReason]
  | ReceiveNotified s =>
      Ok [ScheduleRetryRequest (metadataRetryBackoff (uint32 (MetadataAttempts s + 1)))
            notifiedGiveUpReason]
  | s => OutboxForIncomingState s
  end.

Definition OutboxForState (s : SessionState) : result error (list OutboxEvent) :=
  match s with
  | AwaitingArkSignatures s =>
      Ok [RequestArkSignatures (as_ArkPSBT s) (as_CheckpointPSBTs s) (as_TransferInputs s)]
  | AwaitingSubmitAccepted s => Ok (submitOutbox s)
  | AwaitingCheckpointSignatures s =>
      Ok [RequestCheckpointSignatures (cs_ArkPSBT s) (CoSignedCheckpointPSBTs s)
            (cs_TransferInputs s)]
  | AwaitingFinalizeAccepted s => Ok (finalizeOutbox s)
  | AwaitingLocalVTXOUpdate s => Ok (localVTXOUpdateOutbox s)
  | Completed _ | Failed _ _ _ => Ok []
  | _ => Err "unsupported outgoing state type"
  end.

(** ** Snapshots *)

Inductive OutgoingPhase :=
| OutgoingPhaseArkSignRequested
| OutgoingPhaseSubmitSent
| OutgoingPhaseCoSigned
| OutgoingPhaseFinalizeSent
| OutgoingPhaseLocalVTXOUpdate
| OutgoingPhaseCompleted
| OutgoingPhaseFailed.

(** The inputs the code also keeps beside their portable form are not stored. *)
Record OutgoingSnapshot := mkOutgoingSnapshot {
  os_Version : Z;
  os_SessionID : Hash;
  os_Phase : OutgoingPhase;
  os_ArkPSBT : option RawPacket;
  os_CheckpointPSBTs : list RawPacket;
  TransferInputSnapshots : list TransferInputSnapshot;
  os_RetryAfter : Z;
  os_FailReason : text;
  FailedPrePONR : bool;
  os_IdempotencyKey : string;
  os_DispatchRequestData : list Z;
  os_FirstRejectUnixNanos : Z;
}.

Fixpoint map_ok {A B} (f : A → result error B) (l : list A) : result error (list B) :=
  match l with
  | [] => Ok []
  | x :: l => let* y := f x in let* ys := map_ok f l in Ok (y :: ys)
  end.

Definition serializePSBTSlice (pkts : list Packet) : result error (list RawPacket) :=
  guard* negb (bool_decide (length pkts = 0%nat)) else "psbt slice must be provided" in
  map_ok Serialize pkts.

Definition parsePSBTSlice (raws : list RawPacket) : result error (list Packet) :=
  guard* negb (bool_decide (length raws = 0%nat)) else "psbt bytes must be provided" in
  map_ok Parse raws.

Definition snapshotTransferInputs (inputs : list TransferInput) :
    result error (list TransferInputSnapshot) :=
  guard* negb (bool_decide (length inputs = 0%nat)) else "transfer inputs required" in
  map_ok ToSnapshot inputs.

Definition restoreTransferInputs (s : OutgoingSnapshot) : result error (list TransferInput) :=
  guard* negb (bool_decide (length (TransferInputSnapshots s) = 0%nat))
    else "transfer inputs required" in
  map_ok TransferInputFromSnapshot (TransferInputSnapshots s).

(** A snapshot with packets and inputs. *)
Definition assignPSBTArtifacts (sid : Hash) (phase : OutgoingPhase) (key : string)
    (data : list Z) (after : Z) (reason : text) (first : Z) (ark : Packet)
    (checkpoints : list Packet) (inputs : list TransferInput) : result error OutgoingSnapshot :=
  let* arkRaw := Serialize ark in
  let* cps := serializePSBTSlice checkpoints in
  let* snaps := snapshotTransferInputs inputs in
  Ok (mkOutgoingSnapshot 6 sid phase (Some arkRaw) cps snaps after reason false key data first).

Definition NewOutgoingSnapshot (sid : Hash) (state : SessionState) :
    result error OutgoingSnapshot :=
  guard* negb (sid =? 0)%N else "session id must be provided" in
  match state with
  | AwaitingArkSignatures s =>
      assignPSBTArtifacts sid OutgoingPhaseArkSignRequested (as_IdempotencyKey s)
        (as_DispatchRequestData s) 0 (Plain "") 0 (as_ArkPSBT s) (as_CheckpointPSBTs s)
        (as_TransferInputs s)
  | AwaitingSubmitAccepted s =>
      assignPSBTArtifacts sid OutgoingPhaseSubmitSent (su_IdempotencyKey s)
        (su_DispatchRequestData s) (su_RetryAfter s) (su_RetryReason s) (FirstRejectUnixNanos s)
        (su_ArkPSBT s) (su_CheckpointPSBTs s) (su_TransferInputs s)
  | AwaitingCheckpointSignatures s =>
      assignPSBTArtifacts sid OutgoingPhaseCoSigned (cs_IdempotencyKey s) [] 0 (Plain "") 0
        (cs_ArkPSBT s) (CoSignedCheckpointPSBTs s) (cs_TransferInputs s)
  | AwaitingFinalizeAccepted s =>
      assignPSBTArtifacts sid OutgoingPhaseFinalizeSent (fs_IdempotencyKey s) [] 0 (Plain "") 0
        (fs_ArkPSBT s) (FinalCheckpointPSBTs s) (fs_TransferInputs s)
  | AwaitingLocalVTXOUpdate s =>
      let* snaps := snapshotTransferInputs (lu_TransferInputs s) in
      Ok (mkOutgoingSnapshot 6 sid OutgoingPhaseLocalVTXOUpdate None [] snaps 0 (Plain "") false
            (lu_IdempotencyKey s) [] 0)
  | Completed key =>
      Ok (mkOutgoingSnapshot 6 sid OutgoingPhaseCompleted None [] [] 0 (Plain "") false key [] 0)
  | Failed reason key prePONR =>
      Ok (mkOutgoingSnapshot 6 sid OutgoingPhaseFailed None [] [] 0 reason prePONR key [] 0)
  | _ => Err "unsupported outgoing state type"
  end.

(** The values the decoding of a stored snapshot refuses: it reads a delay and a
    time only when they are not negative, and lists up to a limit. *)
Definition DefaultMaxMailboxItems : Z := 10000.
Definition len {A} (l : list A) : Z := Z.of_nat (length l).
Definition decodeOutgoingSnapshot (s : OutgoingSnapshot) : result error OutgoingSnapshot :=
  guard* (len (os_CheckpointPSBTs s) <=? DefaultMaxMailboxItems) &&
         (len (TransferInputSnapshots s) <=? DefaultMaxMailboxItems)
    else "max mailbox items exceeded" in
  guard* os_Version s <=? 255 else "snapshot version overflows uint8" in
  guard* 0 <=? os_RetryAfter s else "snapshot retry_after nanos overflows time.Duration" in
  guard* 0 <=? os_FirstRejectUnixNanos s else "snapshot first_reject nanos overflows int64" in
  Ok s.

Definition requireSessionIDMatchesArk (sid : Hash) (ark : Packet) : result error unit :=
  guard* (TxHash ark =? sid)%N else "ark txid mismatch with session id" in
  Ok tt.

(** The packets and the inputs of a snapshot. *)
Definition restoreArtifacts (s : OutgoingSnapshot) :
    result error (Packet * list Packet * list TransferInput) :=
  match os_ArkPSBT s with
  | None => Err "psbt bytes must be provided"
  | Some raw =>
      let* ark := Parse raw in
      let* cps := parsePSBTSlice (os_CheckpointPSBTs s) in
      let* _ := requireSessionIDMatchesArk (os_SessionID s) ark in
      let* inputs := restoreTransferInputs s in
      Ok (ark, cps, inputs)
  end.

Definition OutgoingStateFromSnapshot (s : OutgoingSnapshot) : result error SessionState :=
  guard* negb (os_SessionID s =? 0)%N else "session id must be provided" in
  guard* negb (os_Version s =? 0) else "snapshot version must be provided" in
  match os_Phase s with
  | OutgoingPhaseArkSignRequested =>
      let* a := restoreArtifacts s in
      let '(ark, cps, inputs) := a in
      Ok (AwaitingArkSignatures (mkArkSigning ark cps inputs [] (os_IdempotencyKey s)
            (os_DispatchRequestData s)))
  | OutgoingPhaseSubmitSent =>
      let* a := restoreArtifacts s in
      let '(ark, cps, inputs) := a in
      Ok (AwaitingSubmitAccepted (mkSubmitting ark cps inputs [] (os_IdempotencyKey s)
            (os_DispatchRequestData s) (os_RetryAfter s) (os_FailReason s)
            (os_FirstRejectUnixNanos s)))
  | OutgoingPhaseCoSigned =>
      let* a := restoreArtifacts s in
      let '(ark, cps, inputs) := a in
      Ok (AwaitingCheckpointSignatures (mkCoSigned (os_SessionID s) ark cps inputs
            (os_IdempotencyKey s)))
  | OutgoingPhaseFinalizeSent =>
      let* a := restoreArtifacts s in
      let '(ark, cps, inputs) := a in
      Ok (AwaitingFinalizeAccepted (mkFinalizing (os_SessionID s) ark cps inputs
            (os_IdempotencyKey s)))
  | OutgoingPhaseLocalVTXOUpdate =>
      let* inputs := restoreTransferInputs s in
      Ok (AwaitingLocalVTXOUpdate (mkLocalUpdate (os_SessionID s) inputs (os_IdempotencyKey s)))
  | OutgoingPhaseCompleted => Ok (Completed (os_IdempotencyKey s))
  | OutgoingPhaseFailed =>
      Ok (Failed (os_FailReason s) (os_IdempotencyKey s) (FailedPrePONR s))
  end.

Inductive IncomingPhase :=
| IncomingPhaseResolvePending
| IncomingPhaseMaterializePending
| IncomingPhaseAckPending
| IncomingPhaseCompleted
| IncomingPhaseFailed.

Record IncomingSnapshot := mkIncomingSnapshot {
  is_Version : Z;
  is_SessionID : Hash;
  is_Phase : IncomingPhase;
  is_ArkPSBT : option RawPacket;
  is_CheckpointPSBTs : list RawPacket;
  is_AncestorPackages : list PackageArtifact;
  is_Recipients : list ArkRecipientOutput;
  is_FailReason : text;
  is_RecipientPkScript : list Z;
  is_RecipientEventID : Z;
  is_MetadataAttempts : Z;
  is_ResolveAttempts : Z;
}.

Definition plainIncoming (sid : Hash) (phase : IncomingPhase) (reason : text) :
    IncomingSnapshot :=
  mkIncomingSnapshot 1 sid phase None [] [] [] reason [] 0 0 0.

Definition NewIncomingSnapshot (sid : Hash) (state : SessionState) :
    result error IncomingSnapshot :=
  guard* negb (sid =? 0)%N else "session id must be provided" in
  match state with
  | ReceiveResolving s =>
      Ok (mkIncomingSnapshot 1 sid IncomingPhaseResolvePending None [] [] [] (Plain "")
            (RecipientPkScript s) (RecipientEventID s) 0 (ResolveAttempts s))
  | ReceiveNotified s =>
      let* ark := Serialize (rn_ArkPSBT s) in
      let* cps := serializePSBTSlice (rn_FinalCheckpointPSBTs s) in
      Ok (mkIncomingSnapshot 1 sid IncomingPhaseMaterializePending (Some ark) cps
            (rn_AncestorPackages s) (rn_Recipients s) (Plain "") [] 0 (MetadataAttempts s) 0)
  | ReceiveAwaitingAck _ => Ok (plainIncoming sid IncomingPhaseAckPending (Plain ""))
  | ReceiveCompleted => Ok (plainIncoming sid IncomingPhaseCompleted (Plain ""))
  | Failed reason _ _ => Ok (plainIncoming sid IncomingPhaseFailed reason)
  | _ => Err "unsupported incoming state type"
  end.

(** [limit] is the configured number of items. *)
Definition decodeIncomingSnapshotWithLimits (limit : Z) (s : IncomingSnapshot) :
    result error IncomingSnapshot :=
  guard* (len (is_CheckpointPSBTs s) <=? limit) && (len (is_AncestorPackages s) <=? limit) &&
         (len (is_Recipients s) <=? limit)
    else "max mailbox items exceeded" in
  guard* is_Version s <=? 255 else "incoming snapshot version overflows uint8" in
  Ok s.

Definition IncomingStateFromSnapshot (s : IncomingSnapshot) : result error SessionState :=
  guard* negb (is_SessionID s =? 0)%N else "session id must be provided" in
  guard* negb (is_Version s =? 0) else "snapshot version must be provided" in
  match is_Phase s with
  | IncomingPhaseResolvePending =>
      Ok (ReceiveResolving (mkResolving (is_SessionID s) (is_RecipientPkScript s)
            (is_RecipientEventID s) (is_ResolveAttempts s)))
  | IncomingPhaseMaterializePending =>
      match is_ArkPSBT s with
      | None => Err "psbt bytes must be provided"
      | Some raw =>
          let* ark := Parse raw in
          let* cps := parsePSBTSlice (is_CheckpointPSBTs s) in
          let* _ := requireSessionIDMatchesArk (is_SessionID s) ark in
          Ok (ReceiveNotified (mkNotified (is_SessionID s) ark cps (is_AncestorPackages s)
                (is_Recipients s) (is_MetadataAttempts s)))
      end
  | IncomingPhaseAckPending => Ok (ReceiveAwaitingAck (is_SessionID s))
  | IncomingPhaseCompleted => Ok ReceiveCompleted
  | IncomingPhaseFailed => Ok (receiveFailed (is_FailReason s))
  end.

End Machines.
