(* ===== verification/OorActor.v ===== *)
(** * The out-of-round session actor: [oor/session_actor.go],
      [oor/session_actor_handlers.go], [oor/session_registry_bridge.go],
      [db/oor_session_registry_store.go]

    One durable actor per session.  A turn runs the state machine on a message and
    executes the outbox it emits: signing, spending and releasing inputs happen
    while the turn runs; messages to the operator and to the ledger, reservations,
    the finished package and stored outputs are collected and written in one
    transaction with the snapshot of the session and the acknowledgement of the
    message.  A turn whose transaction fails has moved the machine in memory but
    not on disk, so the next turn loads the machine again.

    What the world answers during a turn is a record of functions, arbitrary in
    every turn.  An access to the database inside the transaction fails when the
    next fault says so; the transaction is not started when the lease is lost.  The
    calls a turn makes are logged. *)

From S2P Require Import Prelude RecoveryProof Ledger OorReplay OorInputs OorFsm.
Local Open Scope Z_scope.

Inductive Direction := DirOutgoing | DirIncoming.
#[export] Instance Direction_eq_dec : EqDecision Direction.
Proof. solve_decision. Defined.

Inductive SessionStatus := StatusPending | StatusCompleted | StatusFailed.
#[export] Instance SessionStatus_eq_dec : EqDecision SessionStatus.
Proof. solve_decision. Defined.
Definition status_terminal (s : SessionStatus) : bool :=
  match s with StatusPending => false | _ => true end.

(** [actor.ErrLeaseLost], an error the same turn will always meet, any other. *)
Inductive oerr :=
| ErrLeaseLost
| ErrTerminal (cause : text)
| ErrOther (e : error)
| ErrFuel.

(** What is configured; the stores and references are present or nil. *)
Record Config := mkConfig {
  Signer : bool;
  IncomingHandler : bool;
  ServerConn : bool;
  SpendCompleter : bool;
  SpendReleaser : bool;
  ReservationStore : bool;
  PackageStore : bool;
  VTXOStore : bool;
  LedgerSink : bool;
  TimeoutActor : bool;
  CallbackRef : bool;
  MaxVTXOMatches : Z;
  MaxMailboxItems : Z;
  cfg_MaxTransientSubmitRetry : Z;
}.

Section Actor.
Context {T : OorTx}.

(** ** Tables *)

Record Row := mkRow {
  r_Direction : Direction;
  r_IdempotencyKey : string;
  r_Status : SessionStatus;
  r_LastError : text;
  r_Snapshot : OutgoingSnapshot + IncomingSnapshot;
  r_FlowVersion : Z;
}.

(** Messages to the operator. *)
Inductive ServerMsg :=
| SubmitPackage (Ark : Packet) (Checkpoints : list Packet) (Inputs : list TransferInput)
    (Recipients : list RecipientOutput)
| FinalizePackage (Ark : Packet) (Final : list Packet)
| IncomingAck (SessionID : Hash)
| ListRecipientEvents (SessionID : Hash) (PkScript : list Z) (AfterEventID EventID : Z)
| ListVTXOsByScripts (SessionID : Hash) (PkScripts : list (list Z)) (Limit : Z).

(** The registry, the immutable attempts by key, the reservations with their
    owner, the finished packages, the bindings of outpoints to sessions, the stored
    outputs, and the mailboxes of the operator connection and of the ledger. *)
Record OorDB := mkOorDB {
  rows : gmap Hash Row;
  attempts : gmap string (Hash * list Z);
  reservations : gmap OutPoint Hash;
  packages : gmap Hash (Packet * list Packet);
  bindings : gmap OutPoint (Hash * Z);
  stored : list Received;
  transport : list (Hash * ServerMsg);
  ledger_mailbox : list LedgerMsg;
}.

(** ** The behavior *)

(** Writes staged for the transaction. *)
Inductive Work :=
| RecordReservations (inputs : list TransferInput)
| PersistPackage (s : Finalizing)
| Materialize (r : MaterializeRequest).

(** Calls made while a turn runs. *)
Inductive Call :=
| CallSignArk (Ark : Packet)
| CallSignCheckpoints (CoSigned : list Packet)
| CallCompleteSpend (Outpoints : list OutPoint) (done : bool)
| CallReleaseSpend (Outpoints : list OutPoint) (Epochs : gmap OutPoint Z) (done : bool).

Record Behavior := mkBehavior {
  b_sessionID : Hash;
  b_direction : option Direction;
  b_fsm : option SessionState;
  b_loaded : bool;
  commitFailed : bool;
  pendingTransport : list ServerMsg;
  pendingLedger : list LedgerMsg;
  commitWork : list Work;
  postCommit : list (list Received);
  pendingRetries : list (Z * text);
  terminalCommitted : bool;
  dedupKeyWinner : option Hash;
  calls : list Call;
}.

Definition set_session (b : Behavior) (sid : Hash) (d : option Direction)
    (fsm : option SessionState) (loaded : bool) : Behavior :=
  mkBehavior sid d fsm loaded (commitFailed b) (pendingTransport b) (pendingLedger b)
    (commitWork b) (postCommit b) (pendingRetries b) (terminalCommitted b) (dedupKeyWinner b)
    (calls b).
Definition set_fsm (b : Behavior) (s : SessionState) : Behavior :=
  set_session b (b_sessionID b) (b_direction b) (Some s) (b_loaded b).
Definition set_commitFailed (b : Behavior) (f : bool) : Behavior :=
  mkBehavior (b_sessionID b) (b_direction b) (b_fsm b) (b_loaded b) f (pendingTransport b)
    (pendingLedger b) (commitWork b) (postCommit b) (pendingRetries b) (terminalCommitted b)
    (dedupKeyWinner b) (calls b).
(** Appends to the accumulators of the turn. *)
Definition stage (b : Behavior) (t : list ServerMsg) (l : list LedgerMsg) (w : list Work)
    (p : list (list Received)) (r : list (Z * text)) (c : list Call) : Behavior :=
  mkBehavior (b_sessionID b) (b_direction b) (b_fsm b) (b_loaded b) (commitFailed b)
    (pendingTransport b ++ t) (pendingLedger b ++ l) (commitWork b ++ w) (postCommit b ++ p)
    (pendingRetries b ++ r) (terminalCommitted b) (dedupKeyWinner b) (calls b ++ c).
Definition set_committed (b : Behavior) (t : bool) (w : option Hash) : Behavior :=
  mkBehavior (b_sessionID b) (b_direction b) (b_fsm b) (b_loaded b) (commitFailed b)
    (pendingTransport b) (pendingLedger b) (commitWork b) (postCommit b) (pendingRetries b)
    t w (calls b).
(** The reset at the start of a turn. *)
Definition reset_turn (b : Behavior) : Behavior :=
  mkBehavior (b_sessionID b) (b_direction b) (b_fsm b) (b_loaded b) (commitFailed b)
    [] [] [] [] [] false None [].

(** ** What the world answers *)

Record Answers := mkAnswers {
  a_Now : Z;
  SignArkPSBT : Packet → list Packet → list TransferInput → result error Packet;
  SignCheckpointPSBTs : list TransferInput → list Packet → result error (list Packet);
  (** whether the store knows the outpoint *)
  GetVTXO : OutPoint → result error bool;
  CompleteSpend : list OutPoint → result error unit;
  UpdateVTXOStatus : OutPoint → result error unit;
  ReleaseSpend : list OutPoint → gmap OutPoint Z → result error unit;
  (** the local persistence handler *)
  HandleAuthenticate : list MetadataMatch → result oerr (list Event);
  HandleMaterialize : MaterializeRequest → result oerr (list Event);
  FilterIncomingMetadataRecipients :
    list ArkRecipientOutput → result error (list ArkRecipientOutput);
  (** whether the package store knows the outpoint of a binding *)
  BindingKnown : OutPoint → bool;
  UpsertPackageError : option error;
  (** the lookups outside the transaction fail *)
  ReadFails : bool;
  (** the transaction: the lease is lost, or an access fails *)
  LeaseLost : bool;
  Faults : list bool;
}.

(** ** Computations of a turn *)

Definition OM (A : Type) : Type := Behavior → result oerr A * Behavior.
Definition oret {A} (a : A) : OM A := λ b, (Ok a, b).
Definition othrow {A} (e : oerr) : OM A := λ b, (Err e, b).
Definition obind {A B} (m : OM A) (k : A → OM B) : OM B := λ b,
  match m b with (Ok a, b') => k a b' | (Err e, b') => (Err e, b') end.
Definition omodify (f : Behavior → Behavior) : OM unit := λ b, (Ok tt, f b).
Definition oget : OM Behavior := λ b, (Ok b, b).
Definition olift {A} (r : result error A) : OM A := λ b,
  match r with Ok a => (Ok a, b) | Err e => (Err (ErrOther e), b) end.
Fixpoint ofor {A} (l : list A) (f : A → OM unit) : OM unit :=
  match l with [] => oret tt | x :: l => obind (f x) (λ _, ofor l f) end.

Notation "'do*' x ':=' m 'in' k" := (obind m (λ x, k))
  (at level 10, x pattern, m at level 100, k at level 200).
Notation "'run*' m 'in' k" := (obind m (λ _, k))
  (at level 10, m at level 100, k at level 200).
Notation "'need*' b 'else' e 'in' k" := (if (b : bool) then k else othrow (ErrOther e))
  (at level 10, b at level 100, e at level 100, k at level 200).

Context (cfg : Config).

Section Turn.
Context (env : Answers).

Definition fsm_env (sid : Hash) : Environment :=
  mkEnvironment sid (a_Now env) (cfg_MaxTransientSubmitRetry cfg).

Definition apply (event : Event) : OM (list OutboxEvent) := λ b,
  match b_fsm b with
  | None => (Err (ErrOther "session fsm not loaded"), b)
  | Some s =>
      match ProcessEvent s event (fsm_env (b_sessionID b)) with
      | Err e => (Err (ErrOther e), b)
      | Ok (s', outbox) => (Ok outbox, set_fsm b s')
      end
  end.

(** The outpoints the local store knows. *)
Fixpoint known_outpoints (ops : list OutPoint) : result error (list OutPoint) :=
  match ops with
  | [] => Ok []
  | op :: ops =>
      let* known := GetVTXO env op in
      let* rest := known_outpoints ops in
      Ok (if known : bool then op :: rest else rest)
  end.
Definition locally_known (ops : list OutPoint) : result error (list OutPoint) :=
  if VTXOStore cfg then known_outpoints ops else Ok ops.

Fixpoint update_all (ops : list OutPoint) : result error unit :=
  match ops with
  | [] => Ok tt
  | op :: ops => let* _ := UpdateVTXOStatus env op in update_all ops
  end.

Definition completeSpend (outpoints : list OutPoint) : OM unit :=
  if bool_decide (outpoints = []) then oret tt
  else
    do* known := olift (locally_known outpoints) in
    if bool_decide (known = []) then oret tt
    else
      let done := if SpendCompleter cfg then CompleteSpend env known
                  else if VTXOStore cfg then update_all known
                  else Err "vtxo store must be provided" in
      run* omodify (λ b, stage b [] [] [] [] [] [CallCompleteSpend known (is_ok done)]) in
      olift done.

Definition releaseSpend (outpoints : list OutPoint) (epochs : gmap OutPoint Z) : OM unit :=
  if bool_decide (outpoints = []) then oret tt
  else
    do* known := olift (locally_known outpoints) in
    if bool_decide (known = []) then oret tt
    else
      need* SpendReleaser cfg else "no spend releaser configured" in
      let done := ReleaseSpend env known epochs in
      run* omodify (λ b, stage b [] [] [] [] [] [CallReleaseSpend known epochs (is_ok done)]) in
      olift done.

Definition queueRetry (after : Z) (reason : text) : OM unit :=
  if negb (TimeoutActor cfg) then oret tt
  else
    need* CallbackRef cfg else "timeout callback ref not wired" in
    omodify (λ b, stage b [] [] [] [] [(after, reason)] []).

Definition buildTransportMessage (event : OutboxEvent) : OM ServerMsg :=
  match event with
  | SendSubmitPackageRequest ark cps inputs recipients =>
      oret (SubmitPackage ark cps inputs recipients)
  | SendFinalizePackageRequest ark final => oret (FinalizePackage ark final)
  | SendIncomingAckRequest sid => oret (IncomingAck sid)
  | QueryIncomingTransferRequest sid script eventID =>
      oret (ListRecipientEvents sid script (if 0 <? eventID then eventID - 1 else 0) eventID)
  | QueryIncomingMetadataRequest sid _ _ recipients =>
      do* recipients :=
        if IncomingHandler cfg then olift (FilterIncomingMetadataRecipients env recipients)
        else oret recipients in
      if bool_decide (recipients = [])
      then othrow (ErrTerminal (Plain "incoming metadata query contains no wallet-owned recipients"))
      else oret (ListVTXOsByScripts sid (ar_PkScript <$> recipients) (MaxVTXOMatches cfg))
  | _ => othrow (ErrTerminal (Plain "transport event does not implement ServerMessage"))
  end.

Definition is_ack (event : OutboxEvent) : bool :=
  match event with SendIncomingAckRequest _ => true | _ => false end.

(** One case of the switch; [continue] is [continueWith]. *)
Definition runOutboxEvent (continue : Event → OM unit) (event : OutboxEvent) : OM unit :=
  match event with
  | RequestArkSignatures ark cps inputs =>
      need* Signer cfg else "signer is required" in
      run* omodify (λ b, stage b [] [] [] [] [] [CallSignArk ark]) in
      do* signed := olift (SignArkPSBT env ark cps inputs) in
      continue (ArkSignedEvent (Some signed))
  | RequestCheckpointSignatures _ cosigned inputs =>
      need* Signer cfg else "signer is required" in
      run* omodify (λ b, stage b [] [] [] [] [] [CallSignCheckpoints cosigned]) in
      do* final := olift (SignCheckpointPSBTs env inputs cosigned) in
      continue (CheckpointsSignedEvent final)
  | SendSubmitPackageRequest _ _ _ _ | SendFinalizePackageRequest _ _
  | SendIncomingAckRequest _ | QueryIncomingTransferRequest _ _ _
  | QueryIncomingMetadataRequest _ _ _ _ =>
      do* msg := buildTransportMessage event in
      run* omodify (λ b, stage b [msg] [] [] [] [] []) in
      if is_ack event then continue IncomingAckSentEvent else oret tt
  | MarkInputsSpentRequest ops =>
      run* completeSpend ops in
      continue InputsMarkedSpentEvent
  | AuthenticateIncomingMetadataRequest matches =>
      need* IncomingHandler cfg else "incoming handler must be provided" in
      do* followUps := (λ b, (HandleAuthenticate env matches, b)) in
      ofor followUps continue
  | ReleaseInputsRequest ops epochs => λ b,
      (** a failed release is only logged *)
      (Ok tt, (releaseSpend ops epochs b).2)
  | MaterializeIncomingVTXOsRequest r =>
      omodify (λ b, stage b [] [] [Materialize r] [] [] [])
  | ScheduleRetryRequest after reason => queueRetry after reason
  | IncomingTransferNotification _ _ => oret tt
  end.

Fixpoint driveOutboxEvents (fuel : nat) (outbox : list OutboxEvent) : OM unit :=
  match fuel with
  | O => othrow ErrFuel
  | S fuel =>
      ofor outbox (runOutboxEvent (λ event,
        do* next := apply event in driveOutboxEvents fuel next))
  end.

(** The longest chain of follow-up events has three links. *)
Definition drive_fuel : nat := 4.

Definition continueWith (event : Event) : OM unit :=
  do* next := apply event in driveOutboxEvents drive_fuel next.

Definition failTerminal (cause : text) : OM unit := continueWith (FailEvent cause).

Definition driveOutbox (outbox : list OutboxEvent) : OM unit := λ b,
  match driveOutboxEvents drive_fuel outbox b with
  | (Err (ErrTerminal cause), b') => failTerminal cause b'
  | r => r
  end.

(** ** Handlers *)

Inductive ActorResp :=
| DriveEventResponse
| StartTransferResponse (SessionID : Hash) (Existing : bool)
| GetStateResponse (State : SessionState).

Inductive OorMsg :=
| MsgRestart
| GetStateRequest
| StartTransferRequest (e : StartTransfer) (AdmissionDeadlineUnixNanos : Z)
| DriveEventRequest (Event : option Event)
| ResolveIncomingTransferRequest (SessionID : Hash) (PkScript : list Z) (EventID : Z)
| ResumeSessionRequest (FromRetryTimer : bool).

Definition admissionDeadlineReached (deadline : Z) : bool :=
  (0 <? deadline) && negb (a_Now env <? deadline).

(** [newSessionWithDispatchRequest]: a fresh machine on the start event. *)
Definition newSession (e : StartTransfer) :
    result error (Hash * SessionState * list OutboxEvent) :=
  let* r := ProcessEvent Idle (StartTransferEvent e) (fsm_env 0%N) in
  let '(state, outbox) := r in
  match state with
  | AwaitingArkSignatures s => Ok (TxHash (as_ArkPSBT s), state, outbox)
  | AwaitingSubmitAccepted s => Ok (TxHash (su_ArkPSBT s), state, outbox)
  | _ => Err "unexpected start state"
  end.

Definition attempt_bound (db : OorDB) (sid : Hash) : bool :=
  bool_decide (map_Exists (λ _ a, a.1 = sid) (attempts db)).

(** Whether the installed session may be replaced: a keyed retry over a failed one
    that was never dispatched. *)
Definition replaceFailed (db : OorDB) (key : string) (b : Behavior) : result oerr bool :=
  match b_fsm b with
  | Some (Failed _ _ _) =>
      if bool_decide (key = "") then Ok false
      else if ReadFails env then Err (ErrOther "database access failed")
      else Ok (negb (attempt_bound db (b_sessionID b)))
  | _ => Ok false
  end.

Definition handleStartTransfer (db : OorDB) (e : StartTransfer) (deadline : Z) : OM ActorResp :=
  do* b := oget in
  do* existing :=
    if b_loaded b && bool_decide (is_Some (b_fsm b))
    then do* replace := (λ b, (replaceFailed db (st_IdempotencyKey e) b, b)) in oret (negb replace)
    else oret false in
  if existing : bool then oret (StartTransferResponse (b_sessionID b) true)
  else if admissionDeadlineReached deadline
  then othrow (ErrOther "outgoing admission expired")
  else
    do* session := olift (newSession e) in
    let '(sid, state, outbox) := session in
    run* omodify (λ b, set_session b sid (Some DirOutgoing) (Some state) true) in
    run* omodify (λ b, stage b [] [] [RecordReservations (VTXOInputs e)] [] [] []) in
    run* driveOutbox outbox in
    oret (StartTransferResponse sid false).

Definition captureFinalizeState (event : Event) (b : Behavior) : option Finalizing :=
  if negb (PackageStore cfg) then None
  else
    match event, b_fsm b with
    | FinalizeAcceptedEvent, Some (AwaitingFinalizeAccepted s) => Some s
    | _, _ => None
    end.

Definition sent_total (inputs : list TransferInput) : Z :=
  foldl (λ total i, int64 (total + v_Amount (VTXO i))) 0 inputs.

Definition sent_msg (sid : Hash) (amount : Z) : LedgerMsg :=
  MsgVTXOSent (mkVTXOSent sid 0%N (mkOutPoint 0%N 0) amount [] false).

Definition queueVTXOSent (s : Finalizing) : OM unit := λ b,
  (Ok tt,
   if negb (LedgerSink cfg) || bool_decide (fs_TransferInputs s = []) then b
   else
     let total := sent_total (fs_TransferInputs s) in
     if total <=? 0 then b else stage b [] [sent_msg (b_sessionID b) total] [] [] [] []).

Definition handleDriveEvent (event : option Event) : OM ActorResp :=
  match event with
  | None => othrow (ErrOther "event must be provided")
  | Some event =>
      do* b := oget in
      match b_fsm b with
      | None => othrow (ErrOther "unknown session")
      | Some _ =>
          let finalizeState := captureFinalizeState event b in
          do* outbox := apply event in
          run* driveOutbox outbox in
          run* match finalizeState with
               | Some s =>
                   run* omodify (λ b, stage b [] [] [PersistPackage s] [] [] []) in
                   queueVTXOSent s
               | None => oret tt
               end in
          oret DriveEventResponse
      end
  end.

Definition handleResolveIncomingTransfer (sid : Hash) (script : list Z) (eventID : Z) :
    OM ActorResp :=
  if no_bytes script then othrow (ErrOther "recipient pk script must be provided")
  else
    do* b := oget in
    if b_loaded b && bool_decide (is_Some (b_fsm b)) then oret DriveEventResponse
    else
      need* negb (sid =? 0)%N else "session id must be provided" in
      let state := ReceiveResolving (mkResolving sid script eventID 0) in
      run* omodify (λ b, set_session b sid (Some DirIncoming) (Some state) true) in
      do* outbox := olift (OutboxForIncomingState state) in
      run* driveOutbox outbox in
      oret DriveEventResponse.

Definition handleResumeSession (fromRetryTimer : bool) : OM ActorResp :=
  do* b := oget in
  match b_fsm b with
  | None => othrow (ErrOther "unknown session")
  | Some state =>
      do* outbox :=
        if fromRetryTimer && waitsOnGiveUpTimer state then apply RetryDueEvent
        else
          match b_direction b with
          | Some DirOutgoing => olift (OutboxForState state)
          | Some DirIncoming => olift (resumeOutboxForIncomingState state)
          | None => othrow (ErrOther "unknown session direction")
          end in
      run* driveOutbox outbox in
      oret DriveEventResponse
  end.

Definition dispatch (db : OorDB) (msg : OorMsg) : OM ActorResp :=
  match msg with
  | StartTransferRequest e deadline => handleStartTransfer db e deadline
  | DriveEventRequest event => handleDriveEvent event
  | ResolveIncomingTransferRequest sid script eventID =>
      handleResolveIncomingTransfer sid script eventID
  | ResumeSessionRequest fromTimer => handleResumeSession fromTimer
  | _ => othrow (ErrOther "unknown oor session message")
  end.

(** ** The transaction *)

Record TxState := mkTx { tx_b : Behavior; tx_db : OorDB; tx_faults : list bool }.

Definition TM (A : Type) : Type := TxState → result oerr A * TxState.
Definition tret {A} (a : A) : TM A := λ s, (Ok a, s).
Definition tthrow {A} (e : oerr) : TM A := λ s, (Err e, s).
Definition tbind {A B} (m : TM A) (k : A → TM B) : TM B := λ s,
  match m s with (Ok a, s') => k a s' | (Err e, s') => (Err e, s') end.
Fixpoint tfor {A} (l : list A) (f : A → TM unit) : TM unit :=
  match l with [] => tret tt | x :: l => tbind (f x) (λ _, tfor l f) end.
(** A computation of the behavior inside the transaction. *)
Definition tturn {A} (m : OM A) : TM A := λ s,
  let '(r, b) := m (tx_b s) in (r, mkTx b (tx_db s) (tx_faults s)).
Definition tget : TM Behavior := λ s, (Ok (tx_b s), s).
(** An access to the database, which the next fault may break. *)
Definition taccess {A} (f : OorDB → result oerr A * OorDB) : TM A := λ s,
  match tx_faults s with
  | true :: faults => (Err (ErrOther "database access failed"), mkTx (tx_b s) (tx_db s) faults)
  | faults => let '(r, db) := f (tx_db s) in (r, mkTx (tx_b s) db (tail faults))
  end.
Definition twrite (f : OorDB → OorDB) : TM unit := taccess (λ db, (Ok tt, f db)).

Notation "'in*' x ':=' m 'in' k" := (tbind m (λ x, k))
  (at level 10, x pattern, m at level 100, k at level 200).
Notation "'seq*' m 'in' k" := (tbind m (λ _, k))
  (at level 10, m at level 100, k at level 200).

Definition with_rows (db : OorDB) (r : gmap Hash Row) (a : gmap string (Hash * list Z)) : OorDB :=
  mkOorDB r a (reservations db) (packages db) (bindings db) (stored db) (transport db)
    (ledger_mailbox db).
Definition with_reservation (op : OutPoint) (owner : Hash) (db : OorDB) : OorDB :=
  mkOorDB (rows db) (attempts db) (<[op := owner]> (reservations db)) (packages db)
    (bindings db) (stored db) (transport db) (ledger_mailbox db).
Definition with_package (sid : Hash) (p : Packet * list Packet) (db : OorDB) : OorDB :=
  mkOorDB (rows db) (attempts db) (reservations db) (<[sid := p]> (packages db))
    (bindings db) (stored db) (transport db) (ledger_mailbox db).
Definition with_binding (op : OutPoint) (x : Hash * Z) (db : OorDB) : OorDB :=
  mkOorDB (rows db) (attempts db) (reservations db) (packages db)
    (<[op := x]> (bindings db)) (stored db) (transport db) (ledger_mailbox db).
Definition with_stored (l : list Received) (db : OorDB) : OorDB :=
  mkOorDB (rows db) (attempts db) (reservations db) (packages db) (bindings db)
    (stored db ++ l) (transport db) (ledger_mailbox db).
Definition with_mail (t : list (Hash * ServerMsg)) (l : list LedgerMsg) (db : OorDB) : OorDB :=
  mkOorDB (rows db) (attempts db) (reservations db) (packages db) (bindings db) (stored db)
    (transport db ++ t) (ledger_mailbox db ++ l).

(** *** The registry store *)

Definition outgoingPhaseStatus (p : OutgoingPhase) : SessionStatus :=
  match p with
  | OutgoingPhaseCompleted => StatusCompleted
  | OutgoingPhaseFailed => StatusFailed
  | _ => StatusPending
  end.
Definition incomingPhaseStatus (p : IncomingPhase) : SessionStatus :=
  match p with
  | IncomingPhaseCompleted => StatusCompleted
  | IncomingPhaseFailed => StatusFailed
  | _ => StatusPending
  end.

Definition FlowVersionV1 : Z := 0.

(** A record is a row with the data of a dispatch that is to be bound. *)
Definition outgoingRegistryRecord (sid : Hash) (state : SessionState) :
    result error (Row * list Z) :=
  let* snap := NewOutgoingSnapshot sid state in
  let status := outgoingPhaseStatus (os_Phase snap) in
  Ok (mkRow DirOutgoing (os_IdempotencyKey snap) status
        (if bool_decide (status = StatusFailed) then os_FailReason snap else Plain "")
        (inl snap) FlowVersionV1,
      match state with AwaitingSubmitAccepted s => su_DispatchRequestData s | _ => [] end).

Definition incomingRegistryRecord (sid : Hash) (state : SessionState) :
    result error (Row * list Z) :=
  let* snap := NewIncomingSnapshot sid state in
  let status := incomingPhaseStatus (is_Phase snap) in
  Ok (mkRow DirIncoming "" status
        (if bool_decide (status = StatusFailed) then is_FailReason snap else Plain "")
        (inr snap) FlowVersionV1, []).

Definition snapshotRecord (b : Behavior) : result error (Row * list Z) :=
  match b_fsm b with
  | None => Err "session fsm not loaded"
  | Some state =>
      match b_direction b with
      | Some DirOutgoing => outgoingRegistryRecord (b_sessionID b) state
      | Some DirIncoming => incomingRegistryRecord (b_sessionID b) state
      | None => Err "unknown session direction"
      end
  end.

(** The partial unique index over the keys of sessions that have not failed. *)
Definition key_taken (db : OorDB) (sid : Hash) (r : Row) : bool :=
  negb (bool_decide (r_IdempotencyKey r = "")) && negb (bool_decide (r_Status r = StatusFailed)) &&
  bool_decide (map_Exists (λ sid' r', sid' ≠ sid ∧ r_IdempotencyKey r' = r_IdempotencyKey r ∧
    r_Status r' ≠ StatusFailed) (rows db)).

(** The flow version is written once. *)
Definition upsert_row (db : OorDB) (sid : Hash) (r : Row) : gmap Hash Row :=
  let flow := match rows db !! sid with Some old => r_FlowVersion old | None => r_FlowVersion r end in
  <[sid := mkRow (r_Direction r) (r_IdempotencyKey r) (r_Status r) (r_LastError r)
             (r_Snapshot r) flow]> (rows db).

(** [ON CONFLICT DO NOTHING] on the key and on the session, then the comparison
    with the attempt that is there. *)
Definition insert_attempt (db : OorDB) (key : string) (sid : Hash) (data : list Z) :
    gmap string (Hash * list Z) :=
  if bool_decide (is_Some (attempts db !! key)) || attempt_bound db sid then attempts db
  else <[key := (sid, data)]> (attempts db).
Definition ensureOORDispatchAttempt (db : OorDB) (key : string) (sid : Hash) (data : list Z) :
    result oerr unit * OorDB :=
  let a := insert_attempt db key sid data in
  (match a !! key with
   | Some (sid', data') =>
       if (sid' =? sid)%N && bool_decide (data' = data) then Ok tt
       else Err (ErrOther "oor dispatch attempt conflict")
   | None => Err (ErrOther "oor dispatch attempt conflict")
   end, with_rows db (rows db) a).

Definition UpsertSession (sid : Hash) (rec : Row * list Z) : TM unit :=
  taccess (λ db,
    let '(r, data) := rec in
    if key_taken db sid r then (Err (ErrOther "UNIQUE constraint failed"), db)
    else
      let db := with_rows db (upsert_row db sid r) (attempts db) in
      if bool_decide (r_Direction r = DirOutgoing) && negb (bool_decide (r_IdempotencyKey r = "")) &&
         negb (no_bytes data)
      then ensureOORDispatchAttempt db (r_IdempotencyKey r) sid data
      else (Ok tt, db)).

Definition GetDispatchAttemptByIdempotencyKey (key : string) : TM (option (Hash * list Z)) :=
  taccess (λ db, (Ok (attempts db !! key), db)).

(** *** The staged writes *)

Definition recordReservations (inputs : list TransferInput) : TM unit :=
  if negb (ReservationStore cfg) then tret tt
  else
    in* b := tget in
    tfor (InputOutpoints inputs) (λ op, twrite (with_reservation op (b_sessionID b))).

(** The bindings of the consumed inputs, by position. *)
Fixpoint bind_inputs (sid : Hash) (i : Z) (ops : list OutPoint) : TM unit :=
  match ops with
  | [] => tret tt
  | op :: ops =>
      seq* (if BindingKnown env op then twrite (with_binding op (sid, i)) else tret tt) in
      bind_inputs sid (i + 1) ops
  end.

Definition persistOutgoingPackage (s : Finalizing) : TM unit :=
  if negb (PackageStore cfg) then tret tt
  else
    in* b := tget in
    match UpsertPackageError env with
    | Some e => tthrow (ErrOther e)
    | None =>
        seq* twrite (with_package (b_sessionID b) (fs_ArkPSBT s, FinalCheckpointPSBTs s)) in
        bind_inputs (b_sessionID b) 0 (InputOutpoints (fs_TransferInputs s))
    end.

Definition received_msg (sid : Hash) (d : Received) : LedgerMsg :=
  MsgVTXOReceived (mkVTXOReceived (op_Hash (rc_Outpoint d)) (op_Index (rc_Outpoint d))
    (rc_Amount d) SourceOOR 0%N sid).

Definition notifyMaterialized (event : Event) : OM unit := λ b,
  (Ok tt,
   match event with
   | IncomingHandledEvent ((_ :: _) as descs) =>
       stage b [] (if LedgerSink cfg then received_msg (b_sessionID b) <$> descs else [])
         [] [descs] [] []
   | _ => b
   end).

(** The outputs a handled event says were stored. *)
Definition materialized (events : list Event) : list Received :=
  events ≫= λ e, match e with IncomingHandledEvent descs => descs | _ => [] end.

(** The handler's writes join the transaction. *)
Definition materializeIncoming (r : MaterializeRequest) : TM unit :=
  if negb (IncomingHandler cfg) then tthrow (ErrOther "incoming handler must be provided")
  else
    match HandleMaterialize env r with
    | Err e => tthrow e
    | Ok followUps =>
        seq* twrite (with_stored (materialized followUps)) in
        tfor followUps (λ event,
          seq* tturn (notifyMaterialized event) in
          tturn (continueWith event))
    end.

Definition run_work (w : Work) : TM unit :=
  match w with
  | RecordReservations inputs => recordReservations inputs
  | PersistPackage s => persistOutgoingPackage s
  | Materialize r => materializeIncoming r
  end.

(** *** The commit *)

Definition trecord : TM (Row * list Z) := λ s,
  match snapshotRecord (tx_b s) with
  | Ok r => (Ok r, s)
  | Err e => (Err (ErrOther e), s)
  end.

(** [Some] other session bound to the key. *)
Definition resolveKeyDedup (rec : Row * list Z) : TM (option Hash) :=
  if negb (bool_decide (r_Direction rec.1 = DirOutgoing)) ||
     bool_decide (r_IdempotencyKey rec.1 = "")
  then tret None
  else
    in* attempt := GetDispatchAttemptByIdempotencyKey (r_IdempotencyKey rec.1) in
    in* b := tget in
    tret (match attempt with
          | Some (winner, _) => if (winner =? b_sessionID b)%N then None else Some winner
          | None => None
          end).

Definition tellTransport : TM unit :=
  in* b := tget in
  match pendingTransport b with
  | [] => tret tt
  | msgs =>
      if negb (ServerConn cfg) then tthrow (ErrOther "serverconn ref must be provided")
      else tfor msgs (λ m, twrite (with_mail [(b_sessionID b, m)] []))
  end.

Definition tellLedger : TM unit :=
  in* b := tget in
  match pendingLedger b with
  | [] => tret tt
  | msgs =>
      if negb (LedgerSink cfg) then tthrow (ErrOther "ledger sink must be provided")
      else tfor msgs (λ m, twrite (with_mail [] [m]))
  end.

Definition commit_body : TM unit :=
  in* gate := trecord in
  in* winner := resolveKeyDedup gate in
  match winner with
  | Some w => tturn (omodify (λ b, set_committed b (terminalCommitted b) (Some w)))
  | None =>
      in* b := tget in
      seq* tfor (commitWork b) run_work in
      in* rec := trecord in
      seq* UpsertSession (b_sessionID b) rec in
      seq* tturn (omodify (λ b, set_committed b (status_terminal (r_Status rec.1))
                                  (dedupKeyWinner b))) in
      seq* tellTransport in
      tellLedger
  end.

(** [ax.Commit]: nothing when the lease is lost, everything or nothing otherwise;
    the behavior keeps what the closure did to it. *)
Definition commitAck (b : Behavior) (db : OorDB) : result oerr unit * Behavior * OorDB :=
  if LeaseLost env then (Err ErrLeaseLost, b, db)
  else
    match commit_body (mkTx b db (Faults env)) with
    | (Ok _, s) =>
        if bool_decide (head (tx_faults s) = Some true)
        then (Err (ErrOther "commit failed"), tx_b s, db)
        else (Ok tt, tx_b s, tx_db s)
    | (Err e, s) => (Err e, tx_b s, db)
    end.

(** ** Turns *)

(** The machine of a stored session. *)
Definition sessionFromRecord (r : Row) : result error SessionState :=
  match r_Snapshot r with
  | inl snap =>
      let* snap := decodeOutgoingSnapshot snap in
      OutgoingStateFromSnapshot snap
  | inr snap =>
      let* snap := decodeIncomingSnapshotWithLimits (MaxMailboxItems cfg) snap in
      IncomingStateFromSnapshot snap
  end.

(** An incoming session may start over a finished outgoing one. *)
Definition selfTransfer (d : Direction) (r : Row) : bool :=
  bool_decide (d = DirIncoming) && bool_decide (r_Direction r = DirOutgoing) &&
  status_terminal (r_Status r).

Definition restore (db : OorDB) (b : Behavior) : result error Behavior :=
  if ReadFails env then Err "database access failed"
  else
    match rows db !! b_sessionID b with
    | None => Ok b
    | Some r =>
        guard* r_FlowVersion r =? FlowVersionV1 else "unknown flow version" in
        match b_direction b with
        | Some d =>
            if bool_decide (r_Direction r = d)
            then
              let* s := sessionFromRecord r in
              Ok (set_session b (b_sessionID b) (Some (r_Direction r)) (Some s) true)
            else if selfTransfer d r then Ok b else Err "direction mismatch"
        | None =>
            let* s := sessionFromRecord r in
            Ok (set_session b (b_sessionID b) (Some (r_Direction r)) (Some s) true)
        end
    end.

Definition handleGetState (b : Behavior) : result oerr ActorResp :=
  match b_fsm b with
  | None => Err (ErrOther "session not loaded")
  | Some s => Ok (GetStateResponse s)
  end.

(** What a committed turn sends when it is over. *)
Inductive Output :=
| NotifyMaterialized (descs : list Received)
| ArmTimer (After : Z) (Reason : text)
| NotifyTerminal (SessionID : Hash).

Definition outputs (b : Behavior) : list Output :=
  (NotifyMaterialized <$> postCommit b) ++
  ((λ r, ArmTimer r.1 r.2) <$> pendingRetries b) ++
  (if terminalCommitted b then [NotifyTerminal (b_sessionID b)] else []).

Record Turn := mkTurn {
  t_resp : result oerr ActorResp;
  t_behavior : Behavior;
  t_db : OorDB;
  t_out : list Output;
}.

(** The machine in memory is dropped and loaded again after a failed commit. *)
Definition reload (db : OorDB) (b : Behavior) : result error Behavior :=
  if commitFailed b
  then
    let* b' := restore db (set_session b (b_sessionID b) (b_direction b) None false) in
    Ok (set_commitFailed b' false)
  else Ok b.

Definition is_lease_lost (e : oerr) : bool :=
  match e with ErrLeaseLost => true | _ => false end.

Definition Receive (msg : OorMsg) (b : Behavior) (db : OorDB) : Turn :=
  match msg with
  | MsgRestart => mkTurn (Ok DriveEventResponse) b db []
  | GetStateRequest => mkTurn (handleGetState b) b db []
  | _ =>
      match reload db b with
      | Err e =>
          mkTurn (Err (ErrOther e))
            (set_session b (b_sessionID b) (b_direction b) None false) db []
      | Ok b =>
          match dispatch db msg (reset_turn b) with
          | (Err e, b) =>
              mkTurn (Err e) (if is_lease_lost e then b else set_commitFailed b true) db []
          | (Ok resp, b) =>
              match commitAck b db with
              | (Err e, b, db) =>
                  mkTurn (Err e) (if is_lease_lost e then b else set_commitFailed b true) db []
              | (Ok _, b, db) =>
                  match dedupKeyWinner b with
                  | Some winner =>
                      mkTurn (Ok (StartTransferResponse winner true)) b db
                        [NotifyTerminal (b_sessionID b)]
                  | None => mkTurn (Ok resp) b db (outputs b)
                  end
              end
          end
      end
  end.

(** [NewOORSessionActor] *)
Definition NewOORSessionActor (sid : Hash) (d : option Direction) (db : OorDB) :
    result error Behavior :=
  restore db (mkBehavior sid d None false false [] [] [] [] [] false None []).

End Turn.
End Actor.
