(* ===== verification/OorSafety.v ===== *)
(** * Out-of-round sessions: what a turn does, and the invariants it keeps

    The first part describes a successful turn as a move between the states a
    session can be stored in, with the messages, writes and calls of the move.  The
    second describes a successful transaction.  The third is the world: the tables,
    the running actors and everything that was called, with the turns, restarts and
    crashes that change them, and the invariant of its rows. *)

From S2P Require Import Prelude RecoveryProof Ledger OorReplay OorInputs OorFsm OorActor.
Local Open Scope Z_scope.

Section Safety.
Context {T : OorTx} {TL : OorTxLaws} (cfg : Config).

(** ** States a session rests in *)

(** The states between turns, of the session [sid] in a direction. *)
Definition at_rest (sid : Hash) (d : Direction) (s : SessionState) : Prop :=
  match d, s with
  | DirOutgoing, AwaitingSubmitAccepted s => TxHash (su_ArkPSBT s) = sid
  | DirOutgoing, AwaitingFinalizeAccepted s => fs_SessionID s = sid ∧ TxHash (fs_ArkPSBT s) = sid
  | DirOutgoing, Completed _ => True
  | DirOutgoing, Failed _ _ _ => True
  | DirIncoming, ReceiveResolving s =>
      rr_SessionID s = sid ∧ 0 ≤ ResolveAttempts s ≤ maxResolveRetries
  | DirIncoming, ReceiveNotified s =>
      rn_SessionID s = sid ∧ TxHash (rn_ArkPSBT s) = sid ∧
      0 ≤ MetadataAttempts s ≤ maxMetadataRetries
  | DirIncoming, ReceiveCompleted => True
  | DirIncoming, Failed _ key prePONR => key = "" ∧ prePONR = false
  | _, _ => False
  end.

(** The events the connection to the operator delivers to a session. *)
Definition external (sid : Hash) (e : Event) : Prop :=
  match e with
  | SubmitAcceptedEvent _ _ _ | FinalizeAcceptedEvent | FailEvent _ => True
  | OutboxErrorEvent _ => True
  | IncomingTransferEvent t => it_SessionID t = sid
  | IncomingMetadataResolvedEvent _ authenticated => authenticated = false
  | _ => False
  end.

(** What the local persistence handler promises: authenticated metadata from the
    one request, one event for the stored outputs from the other. *)
Definition handler_contract (env : Answers) : Prop :=
  (∀ matches events, HandleAuthenticate env matches = Ok events →
     ∃ matches', events = [IncomingMetadataResolvedEvent matches' true]) ∧
  (∀ matches e, HandleAuthenticate env matches = Err e → e ≠ ErrFuel ∧ e ≠ ErrLeaseLost) ∧
  (∀ r events, HandleMaterialize env r = Ok events →
     ∃ descs, events = [IncomingHandledEvent descs]) ∧
  (∀ r, HandleMaterialize env r ≠ Err ErrFuel).

(** ** Moves *)

(** The messages, staged writes and calls of a move. *)
Record Effects := mkEffects {
  f_msgs : list ServerMsg;
  f_ledger : list LedgerMsg;
  f_work : list Work;
  f_calls : list Call;
}.
Definition nothing : Effects := mkEffects [] [] [] [].
Definition only_msgs (msgs : list ServerMsg) : Effects := mkEffects msgs [] [] [].

(** Same transfer, perhaps with another retry. *)
Definition same_submit (s s' : Submitting) : Prop :=
  ∃ after reason first, s' = set_retry s after reason first.

(** The calls that return the inputs of a state. *)
Definition releases (env : Answers) (s : SessionState) (cs : list Call) : Prop :=
  cs = [] ∨ ∃ known done, cs = [CallReleaseSpend known (prePONRReserveEpochs s) done] ∧
    known ⊆ prePONRInputOutpoints s.

(** The calls that spend the inputs of a state, all successful. *)
Definition spends (env : Answers) (inputs : list TransferInput) (cs : list Call) : Prop :=
  ∃ known, (InputOutpoints inputs = [] → known = []) ∧
    (InputOutpoints inputs ≠ [] → locally_known cfg env (InputOutpoints inputs) = Ok known) ∧
    cs = if bool_decide (known = []) then [] else [CallCompleteSpend known true].

(** What the ledger is told of a finished transfer. *)
Definition sent_note (sid : Hash) (inputs : list TransferInput) : list LedgerMsg :=
  if PackageStore cfg && LedgerSink cfg && (0 <? sent_total inputs)
  then [sent_msg sid (sent_total inputs)] else [].
Definition told (sid : Hash) (s : Finalizing) : list LedgerMsg := sent_note sid (fs_TransferInputs s).

(** The number of metadata requests after [s]: one more, or a new count. *)
Definition counted (s : SessionState) (n : Z) : Prop :=
  n = 0 ∨ ∃ s', s = ReceiveNotified s' ∧ MetadataAttempts s' < maxMetadataRetries ∧
    n = uint32 (MetadataAttempts s' + 1).

Inductive move (env : Answers) (sid : Hash) : SessionState → SessionState → Effects → Prop :=
| move_stay s : move env sid s s nothing
| move_resubmit s :
    move env sid (AwaitingSubmitAccepted s) (AwaitingSubmitAccepted s)
      (only_msgs [SubmitPackage (su_ArkPSBT s) (su_CheckpointPSBTs s) (su_TransferInputs s)
                    (su_RecipientOutputs s)])
| move_retry s s' :
    same_submit s s' →
    move env sid (AwaitingSubmitAccepted s) (AwaitingSubmitAccepted s') nothing
| move_reject s reason cs :
    releases env (AwaitingSubmitAccepted s) cs →
    move env sid (AwaitingSubmitAccepted s) (failedState reason (AwaitingSubmitAccepted s))
      (mkEffects [] [] [] cs)
| move_cosigned s ark cosigned final :
    TxHash ark = TxHash (su_ArkPSBT s) →
    ValidateSubmitPackageSigned ark cosigned = Ok tt →
    ValidateFinalizePackageSigned ark final = Ok tt →
    final ≠ [] →
    move env sid (AwaitingSubmitAccepted s)
      (AwaitingFinalizeAccepted (mkFinalizing (TxHash ark) ark final (su_TransferInputs s)
         (su_IdempotencyKey s)))
      (mkEffects [FinalizePackage ark final] [] [] [CallSignCheckpoints cosigned])
| move_refinalize s :
    move env sid (AwaitingFinalizeAccepted s) (AwaitingFinalizeAccepted s)
      (only_msgs [FinalizePackage (fs_ArkPSBT s) (FinalCheckpointPSBTs s)])
| move_accepted s cs :
    spends env (fs_TransferInputs s) cs →
    move env sid (AwaitingFinalizeAccepted s) (Completed (fs_IdempotencyKey s))
      (mkEffects [] (told sid s) (if PackageStore cfg then [PersistPackage s] else []) cs)
| move_fail s reason :
    IsTerminal s = false →
    move env sid s (failedState reason s) nothing
| move_resolve s n :
    ResolveAttempts s < maxResolveRetries → n = uint32 (ResolveAttempts s + 1) →
    move env sid (ReceiveResolving s)
      (ReceiveResolving (mkResolving (rr_SessionID s) (RecipientPkScript s)
         (RecipientEventID s) n))
      (only_msgs [ListRecipientEvents (rr_SessionID s) (RecipientPkScript s)
         (if 0 <? RecipientEventID s then RecipientEventID s - 1 else 0) (RecipientEventID s)])
| move_notified s n scripts :
    rn_SessionID n = sid → TxHash (rn_ArkPSBT n) = sid →
    waitsOnGiveUpTimer s = true → counted s (MetadataAttempts n) →
    move env sid s (ReceiveNotified n)
      (only_msgs [ListVTXOsByScripts sid scripts (MaxVTXOMatches cfg)])
| move_wait s n :
    counted (ReceiveNotified s) n →
    move env sid (ReceiveNotified s) (ReceiveNotified (set_attempts s n)) nothing
| move_materialize s recipients matches :
    move env sid (ReceiveNotified s) (ReceiveNotified s)
      (mkEffects [] [] [Materialize (mkMaterialize (rn_SessionID s) (rn_ArkPSBT s)
         (rn_FinalCheckpointPSBTs s) recipients matches (rn_AncestorPackages s))] []).

(** ** The accumulators of a turn *)

Lemma stage_nil b : stage b [] [] [] [] [] [] = b.
Proof. destruct b. unfold stage. cbn. by rewrite !app_nil_r. Qed.
Lemma stage_stage b t l w p r c t' l' w' p' r' c' :
  stage (stage b t l w p r c) t' l' w' p' r' c' =
  stage b (t ++ t') (l ++ l') (w ++ w') (p ++ p') (r ++ r') (c ++ c').
Proof. unfold stage. cbn. by rewrite <- !app_assoc. Qed.
Lemma set_fsm_stage b t l w p r c s : set_fsm (stage b t l w p r c) s = stage (set_fsm b s) t l w p r c.
Proof. done. Qed.
Lemma set_fsm_twice b s s' : set_fsm (set_fsm b s) s' = set_fsm b s'.
Proof. done. Qed.
Lemma set_fsm_same b s : b_fsm b = Some s → set_fsm b s = b.
Proof. destruct b. unfold set_fsm, set_session. cbn. by intros ->. Qed.

(** The behavior after a move, with the timers it asked for. *)
Definition moved (b : Behavior) (s : SessionState) (f : Effects) (rs : list (Z * text)) : Behavior :=
  stage (set_fsm b s) (f_msgs f) (f_ledger f) (f_work f) [] rs (f_calls f).

(** Errors a turn may end in: never the fuel, and without a release. *)
Definition plain_error (e : oerr) : Prop := ∃ t, e = ErrOther t.
Definition is_release (c : Call) : Prop :=
  match c with CallReleaseSpend _ _ _ => True | _ => False end.
Definition no_release (cs : list Call) : Prop := Forall (λ c, ¬ is_release c) cs.

Lemma queueRetry_cases after reason b :
  (∃ rs, queueRetry cfg after reason b = (Ok tt, stage b [] [] [] [] rs [])) ∨
  (∃ e, queueRetry cfg after reason b = (Err (ErrOther e), b)).
Proof.
  unfold queueRetry, othrow, omodify, oret.
  destruct (TimeoutActor cfg); cbn; [|left; exists []; by rewrite stage_nil].
  destruct (CallbackRef cfg); [left|right]; eauto.
Qed.

Lemma known_subset env ops known : known_outpoints env ops = Ok known → known ⊆ ops.
Proof.
  revert known. induction ops as [|op ops IH]; intros known H; cbn in H; inv_ok; [done|].
  specialize (IH _ eq_refl). destruct a; set_solver.
Qed.

Lemma locally_known_subset env ops known : locally_known cfg env ops = Ok known → known ⊆ ops.
Proof. unfold locally_known. destruct (VTXOStore cfg); [apply known_subset|]. by intros [= ->]. Qed.

Lemma release_cases env s b :
  ∃ cs, (releaseSpend cfg env (prePONRInputOutpoints s) (prePONRReserveEpochs s) b).2 =
    stage b [] [] [] [] [] cs ∧ releases env s cs.
Proof.
  unfold releaseSpend, obind, oret, olift, othrow, omodify, releases.
  set (ops := prePONRInputOutpoints s). set (epochs := prePONRReserveEpochs s).
  case_bool_decide; [exists []; rewrite stage_nil; auto|].
  destruct (locally_known cfg env ops) as [known|e] eqn:E;
    [|exists []; rewrite stage_nil; auto].
  case_bool_decide; [exists []; rewrite stage_nil; auto|].
  destruct (SpendReleaser cfg); [|exists []; rewrite stage_nil; auto].
  exists [CallReleaseSpend known epochs (is_ok (ReleaseSpend env known epochs))].
  split; [by destruct (ReleaseSpend env known epochs)|].
  right. eexists known, _. split; [done|]. by eapply locally_known_subset.
Qed.

Lemma complete_cases env inputs b :
  (∃ cs, completeSpend cfg env (InputOutpoints inputs) b = (Ok tt, stage b [] [] [] [] [] cs) ∧
     spends env inputs cs) ∨
  (∃ e cs, completeSpend cfg env (InputOutpoints inputs) b =
     (Err (ErrOther e), stage b [] [] [] [] [] cs) ∧ no_release cs).
Proof.
  unfold completeSpend, obind, oret, olift, othrow, omodify, spends.
  set (ops := InputOutpoints inputs).
  case_bool_decide as Hops; [left; exists []; rewrite stage_nil; split; [done|]; by exists []|].
  destruct (locally_known cfg env ops) as [known|e] eqn:E.
  2:{ right. exists e, []. rewrite stage_nil. by split; [|constructor]. }
  case_bool_decide as Hk.
  { left. exists []. rewrite stage_nil. split; [done|]. exists known.
    by rewrite bool_decide_eq_true_2. }
  set (done := if SpendCompleter cfg then _ else _). destruct done as [[]|e]; cbn.
  - left. eexists. split; [done|]. exists known. by rewrite bool_decide_eq_false_2.
  - right. eexists e, _. split; [done|]. constructor; [|constructor]. by intros [].
Qed.

(** ** Driving an outbox *)

Abbreviation drive := (driveOutboxEvents cfg).

Lemma drive_nil env n b : drive env (S n) [] b = (Ok tt, b).
Proof. done. Qed.

Lemma drive_cons env n ev evs b :
  drive env (S n) (ev :: evs) b =
  match runOutboxEvent cfg env (λ e, obind (apply cfg env e) (drive env n)) ev b with
  | (Ok _, b') => drive env (S n) evs b'
  | (Err e, b') => (Err e, b')
  end.
Proof. done. Qed.

(** Outboxes that end in a plain error or in some timers. *)
Definition quiet (r : result oerr unit * Behavior) (b : Behavior) (msgs : list ServerMsg) : Prop :=
  (∃ rs, r = (Ok tt, stage b msgs [] [] [] rs [])) ∨
  (∃ e, r = (Err (ErrOther e), stage b msgs [] [] [] [] [])).

Lemma drive_retry env n after reason b :
  quiet (drive env (S n) [ScheduleRetryRequest after reason] b) b [].
Proof.
  rewrite drive_cons. cbn [runOutboxEvent]. unfold quiet.
  destruct (queueRetry_cases after reason b) as [[rs ->]|[e ->]].
  - left. exists rs. by rewrite drive_nil.
  - right. exists e. by rewrite stage_nil.
Qed.

(** A message followed by a timer. *)
Lemma drive_send env n ev msg after reason b :
  runOutboxEvent cfg env (λ e, obind (apply cfg env e) (drive env n)) ev b =
    (Ok tt, stage b [msg] [] [] [] [] []) →
  quiet (drive env (S n) [ev; ScheduleRetryRequest after reason] b) b [msg].
Proof.
  intros H. rewrite drive_cons, H. unfold quiet.
  destruct (drive_retry env n after reason (stage b [msg] [] [] [] [] [])) as [[rs ->]|[e ->]].
  - left. exists rs. by rewrite stage_stage.
  - right. exists e. by rewrite stage_stage.
Qed.

Lemma drive_submit env n s b :
  quiet (drive env (S n) (submitOutbox s) b) b
    [SubmitPackage (su_ArkPSBT s) (su_CheckpointPSBTs s) (su_TransferInputs s)
       (su_RecipientOutputs s)].
Proof. by apply drive_send. Qed.

Lemma drive_finalize env n s b :
  quiet (drive env (S n) (finalizeOutbox s) b) b
    [FinalizePackage (fs_ArkPSBT s) (FinalCheckpointPSBTs s)].
Proof. by apply drive_send. Qed.

Lemma drive_resolving env n s b :
  quiet (drive env (S n) (resolvingOutbox s) b) b
    [ListRecipientEvents (rr_SessionID s) (RecipientPkScript s)
       (if 0 <? RecipientEventID s then RecipientEventID s - 1 else 0) (RecipientEventID s)].
Proof. by apply drive_send. Qed.

(** The metadata query may also find that nothing is owned. *)
Lemma drive_notified env n s recipients b :
  (∃ scripts, quiet (drive env (S n) (notifiedOutbox s recipients) b) b
     [ListVTXOsByScripts (rn_SessionID s) scripts (MaxVTXOMatches cfg)]) ∨
  (∃ e, drive env (S n) (notifiedOutbox s recipients) b = (Err (ErrOther e), b)) ∨
  (∃ c, drive env (S n) (notifiedOutbox s recipients) b = (Err (ErrTerminal c), b)).
Proof.
  unfold notifiedOutbox.
  destruct (buildTransportMessage cfg env (QueryIncomingMetadataRequest (rn_SessionID s)
    (rn_ArkPSBT s) (rn_FinalCheckpointPSBTs s) recipients) b) as [r b1] eqn:E.
  assert (b1 = b ∧ ((∃ scripts, r = Ok (ListVTXOsByScripts (rn_SessionID s) scripts
            (MaxVTXOMatches cfg))) ∨ (∃ e, r = Err (ErrOther e)) ∨ ∃ c, r = Err (ErrTerminal c)))
    as [-> Hr].
  { cbn in E. unfold obind, olift, oret, othrow in E.
    destruct (IncomingHandler cfg); [destruct (FilterIncomingMetadataRecipients _ _)|];
      try case_bool_decide; injection E as <- <-; eauto 6. }
  destruct Hr as [[scripts ->]|[[e ->]|[c ->]]].
  - left. exists scripts. apply drive_send. cbn [runOutboxEvent]. unfold obind. by rewrite E.
  - right; left. exists e. rewrite drive_cons. cbn [runOutboxEvent]. unfold obind. by rewrite E.
  - right; right. exists c. rewrite drive_cons. cbn [runOutboxEvent]. unfold obind. by rewrite E.
Qed.

Lemma driveOutbox_quiet env evs b msgs :
  quiet (drive env drive_fuel evs b) b msgs → quiet (driveOutbox cfg env evs b) b msgs.
Proof. unfold driveOutbox. by intros [[rs ->]|[e ->]]; [left; exists rs|right; exists e]. Qed.

(** ** A turn on an event *)

(** What a dispatch that started at [b] in [s] comes to. *)
Definition comes_to (env : Answers) (sid : Hash) (b : Behavior) (s : SessionState)
    (r : result oerr unit * Behavior) : Prop :=
  match r with
  | (Ok _, b') => ∃ s' f rs, move env sid s s' f ∧ b' = moved b s' f rs
  | (Err e, b') => plain_error e ∧ no_release (calls b')
  end.

Lemma quiet_comes_to env sid b s s' msgs r :
  quiet r (set_fsm b s') msgs → no_release (calls b) →
  move env sid s s' (only_msgs msgs) → comes_to env sid b s r.
Proof.
  intros [[rs ->]|[e ->]] Hc Hm; cbn.
  - by exists s', (only_msgs msgs), rs.
  - split; [by exists e|]. by rewrite app_nil_r.
Qed.

Definition on_event (env : Answers) (e : Event) : OM unit :=
  obind (apply cfg env e) (driveOutbox cfg env).

Lemma on_event_run env e b s :
  b_fsm b = Some s →
  on_event env e b =
  match ProcessEvent s e (fsm_env cfg env (b_sessionID b)) with
  | Err t => (Err (ErrOther t), b)
  | Ok (s', outbox) => driveOutbox cfg env outbox (set_fsm b s')
  end.
Proof.
  intros Hs. unfold on_event, obind, apply. rewrite Hs.
  by destruct (ProcessEvent _ _ _) as [[s' outbox]|t].
Qed.

Lemma comes_to_stay env sid b s : b_fsm b = Some s → comes_to env sid b s (Ok tt, b).
Proof.
  intros Hs. exists s, nothing, []. split; [constructor|].
  unfold moved. cbn. by rewrite stage_nil, set_fsm_same.
Qed.

Lemma comes_to_error env sid b s t b' :
  no_release (calls b') → comes_to env sid b s (Err (ErrOther t), b').
Proof. intros H. split; [by exists t|done]. Qed.

Lemma comes_to_failed env sid b s reason :
  IsTerminal s = false → comes_to env sid b s (Ok tt, set_fsm b (failedState reason s)).
Proof.
  intros Hs. exists (failedState reason s), nothing, []. split; [by constructor|].
  unfold moved. cbn. by rewrite stage_nil.
Qed.

(** What follows from a transition. *)
Definition after (env : Answers) (b : Behavior) (t : transition) : result oerr unit * Behavior :=
  match t with
  | Err e => (Err (ErrOther e), b)
  | Ok (s', outbox) => driveOutbox cfg env outbox (set_fsm b s')
  end.

Lemma reject_comes_to env sid b s evt :
  Retryable evt = false →
  comes_to env sid b (AwaitingSubmitAccepted s)
    (after env b (handleOutboxError (AwaitingSubmitAccepted s) evt)).
Proof.
  intros Hr. unfold handleOutboxError. rewrite Hr. cbn [negb]. cbv zeta.
  set (s0 := AwaitingSubmitAccepted s). set (b1 := set_fsm b (failedState (ErrorReason evt) s0)).
  case_bool_decide; cbn [after go].
  { exists (failedState (ErrorReason evt) s0), nothing, [].
    split; [apply move_reject; by left|]. unfold moved. cbn. by rewrite stage_nil. }
  destruct (release_cases env s0 b1) as (cs & Hb & Hcs).
  exists (failedState (ErrorReason evt) s0), (mkEffects [] [] [] cs), [].
  split; [by apply move_reject|]. exact Hb.
Qed.

Lemma submit_error_comes_to env sid b s evt :
  b_fsm b = Some (AwaitingSubmitAccepted s) → no_release (calls b) →
  comes_to env sid b (AwaitingSubmitAccepted s)
    (after env b (handleSubmitOutboxError (fsm_env cfg env (b_sessionID b)) s evt)).
Proof.
  intros Hs Hc. unfold handleSubmitOutboxError. cbv zeta.
  destruct (Retryable evt) eqn:Hr; cbn [negb]; [|by apply reject_comes_to].
  set (f := if FirstRejectUnixNanos s =? 0 then _ else _).
  destruct (_ && _ && _); [by apply reject_comes_to|]. cbn [after go].
  eapply quiet_comes_to; [apply driveOutbox_quiet, drive_retry|done|].
  apply move_retry. by eexists _, _, _.
Qed.

Lemma driveOutbox_comes_to env sid b s evs b1 :
  comes_to env sid b s (drive env drive_fuel evs b1) →
  comes_to env sid b s (driveOutbox cfg env evs b1).
Proof.
  intros H. unfold driveOutbox. destruct (drive env drive_fuel evs b1) as [[[]|[| | |]] b'];
    try exact H; destruct H as [[t Ht] _]; discriminate Ht.
Qed.

Lemma cosigned_comes_to env sid b s ark cosigned :
  no_release (calls b) → TxHash ark = TxHash (su_ArkPSBT s) →
  ValidateSubmitPackageSigned ark cosigned = Ok tt →
  comes_to env sid b (AwaitingSubmitAccepted s)
    (driveOutbox cfg env [RequestCheckpointSignatures ark cosigned (su_TransferInputs s)]
       (set_fsm b (AwaitingCheckpointSignatures (mkCoSigned (TxHash ark) ark cosigned
          (su_TransferInputs s) (su_IdempotencyKey s))))).
Proof.
  intros Hc Htx Hv. set (cs := mkCoSigned _ _ _ _ _). set (b1 := set_fsm b _).
  apply driveOutbox_comes_to. change drive_fuel with (S 3). rewrite drive_cons. cbn [runOutboxEvent].
  destruct (Signer cfg); [|by apply comes_to_error].
  unfold obind at 1, omodify. unfold obind at 1, olift.
  set (b2 := stage b1 [] [] [] [] [] _).
  assert (no_release (calls b2)) as Hc2 by (apply Forall_app; split; [done|apply Forall_singleton; intros []]).
  destruct (SignCheckpointPSBTs env (su_TransferInputs s) cosigned) as [final|e];
    [|by apply comes_to_error].
  unfold obind, apply. change (b_fsm b2) with (Some (AwaitingCheckpointSignatures cs)).
  cbn [ProcessEvent CheckpointSignatures_ProcessEvent].
  case_bool_decide as Hl; cbn [negb]; [by apply comes_to_error|].
  change (cs_ArkPSBT cs) with ark.
  destruct (ValidateFinalizePackageSigned ark final) as [[]|e] eqn:Hf; [|by apply comes_to_error].
  cbn [go]. set (fs := mkFinalizing _ _ _ _ _).
  destruct (drive_finalize env 2 fs (set_fsm b2 (AwaitingFinalizeAccepted fs)))
    as [[rs ->]|[e ->]].
  - rewrite drive_nil. eexists _, _, rs. split.
    + eapply (move_cosigned env sid s ark cosigned final); try done. by intros ->.
    + unfold moved, b2, b1. cbn [f_msgs f_work f_calls].
      by rewrite set_fsm_stage, set_fsm_twice, stage_stage.
  - apply comes_to_error. cbn. by rewrite app_nil_r.
Qed.

Lemma accepted_run env b s :
  no_release (calls b) →
  let r := driveOutbox cfg env [MarkInputsSpentRequest (InputOutpoints (fs_TransferInputs s))]
       (set_fsm b (AwaitingLocalVTXOUpdate (mkLocalUpdate (fs_SessionID s) (fs_TransferInputs s)
          (fs_IdempotencyKey s)))) in
  (∃ cs, r = (Ok tt, stage (set_fsm b (Completed (fs_IdempotencyKey s))) [] [] [] [] [] cs) ∧
     spends env (fs_TransferInputs s) cs) ∨
  (∃ t b', r = (Err (ErrOther t), b') ∧ no_release (calls b')).
Proof.
  intros Hc. cbv zeta. set (b1 := set_fsm b _).
  assert (∀ r, drive env 4 [MarkInputsSpentRequest (InputOutpoints (fs_TransferInputs s))] b1 = r →
    match r.1 with Err (ErrTerminal _) => False | _ => True end →
    driveOutbox cfg env [MarkInputsSpentRequest (InputOutpoints (fs_TransferInputs s))] b1 = r) as Hd.
  { intros [[|[]] ?] H Hr; unfold driveOutbox; change drive_fuel with 4%nat; by rewrite H. }
  revert Hd. rewrite drive_cons. cbn [runOutboxEvent]. unfold obind at 1.
  destruct (complete_cases env (fs_TransferInputs s) b1) as [(cs & -> & Hs)|(e & cs & -> & Hcs)];
    intros Hd.
  - left. exists cs. by rewrite (Hd _ eq_refl).
  - right. eexists e, _. rewrite (Hd _ eq_refl) by done. split; [done|]. cbn. by apply Forall_app.
Qed.

(** A deterministic failure of a receiving session ends it. *)
Lemma terminal_comes_to env sid b s s1 evs c :
  waitsOnGiveUpTimer s = true → waitsOnGiveUpTimer s1 = true →
  drive env drive_fuel evs (set_fsm b s1) = (Err (ErrTerminal c), set_fsm b s1) →
  comes_to env sid b s (driveOutbox cfg env evs (set_fsm b s1)).
Proof.
  intros Hs Hs1 H. unfold driveOutbox. rewrite H.
  assert (failTerminal cfg env c (set_fsm b s1) = (Ok tt, set_fsm b (failedState c s))) as ->.
  { destruct s1, s; try discriminate; reflexivity. }
  apply comes_to_failed. by destruct s.
Qed.

Lemma notified_comes_to env sid b s n recipients :
  no_release (calls b) → waitsOnGiveUpTimer s = true →
  rn_SessionID n = sid → TxHash (rn_ArkPSBT n) = sid → counted s (MetadataAttempts n) →
  comes_to env sid b s (driveOutbox cfg env (notifiedOutbox n recipients)
    (set_fsm b (ReceiveNotified n))).
Proof.
  intros Hc Hs Hn Htx Ha. set (b1 := set_fsm b _).
  destruct (drive_notified env 3 n recipients b1) as [[scripts H]|[[e H]|[c H]]].
  - eapply quiet_comes_to; [by apply driveOutbox_quiet|done|]. rewrite Hn. by apply move_notified.
  - apply driveOutbox_comes_to. change drive_fuel with (S 3). rewrite H. by apply comes_to_error.
  - by eapply terminal_comes_to.
Qed.

Lemma transfer_comes_to env sid b s e :
  no_release (calls b) → waitsOnGiveUpTimer s = true → it_SessionID e = sid →
  comes_to env sid b s (after env b (transitionIncomingTransfer e)).
Proof.
  intros Hc Hs He. unfold transitionIncomingTransfer.
  destruct (it_ArkPSBT e) as [ark|]; [|by apply comes_to_error].
  destruct (negb (it_SessionID e =? 0)%N); [|by apply comes_to_error].
  destruct (TxHash ark =? it_SessionID e)%N eqn:Htx; [|by apply comes_to_error].
  apply N.eqb_eq in Htx.
  destruct (ValidateCanonicalPSBT ark); [|by apply comes_to_error].
  destruct (recipientsOr (it_Recipients e) ark) as [recipients|]; [|by apply comes_to_error].
  cbn [after go]. set (n := mkNotified _ _ _ _ _ _).
  change (driveOutbox cfg env (?x :: ?l) ?b1) with (driveOutbox cfg env l b1).
  apply notified_comes_to; [done..|by subst sid|by left].
Qed.

Lemma metadata_comes_to env sid b s matches :
  handler_contract env → no_release (calls b) → b_fsm b = Some (ReceiveNotified s) →
  comes_to env sid b (ReceiveNotified s)
    (driveOutbox cfg env [AuthenticateIncomingMetadataRequest matches] b).
Proof.
  intros (Hauth & Herr & _) Hc Hs.
  assert (drive env 4 [AuthenticateIncomingMetadataRequest matches] b =
    runOutboxEvent cfg env (λ e, obind (apply cfg env e) (drive env 3))
      (AuthenticateIncomingMetadataRequest matches) b) as Hd.
  { rewrite drive_cons. by destruct (runOutboxEvent _ _ _ _ _) as [[[]|] ?]. }
  revert Hd. cbn [runOutboxEvent]. destruct (IncomingHandler cfg); intros Hd.
  2:{ apply driveOutbox_comes_to. change drive_fuel with 4%nat. rewrite Hd. by apply comes_to_error. }
  unfold obind at 1 in Hd.
  destruct (HandleAuthenticate env matches) as [events|e] eqn:E.
  - apply driveOutbox_comes_to. change drive_fuel with 4%nat. rewrite Hd.
    apply Hauth in E as [matches' ->].
    cbn [ofor]. unfold obind, apply. rewrite Hs. cbn [ProcessEvent ReceiveNotified_ProcessEvent].
    destruct (recipientsOr _ _) as [recipients|t]; [|by apply comes_to_error].
    cbn. eexists _, _, []. split; [apply move_materialize|]. done.
  - destruct (Herr _ _ E) as [Hf Hl]. destruct e as [|c|t|]; [done| | |done].
    + rewrite <- (set_fsm_same b (ReceiveNotified s)) in Hd by done.
      pose proof (terminal_comes_to env sid b (ReceiveNotified s) (ReceiveNotified s) _ c eq_refl eq_refl Hd) as H.
      by rewrite set_fsm_same in H.
    + apply driveOutbox_comes_to. change drive_fuel with 4%nat. rewrite Hd. by apply comes_to_error.
Qed.

Lemma after_stay env sid b s : b_fsm b = Some s → comes_to env sid b s (after env b (unexpectedEvent s)).
Proof. intros Hs. cbn. rewrite set_fsm_same by done. by apply comes_to_stay. Qed.

Lemma after_failed env sid b s reason :
  IsTerminal s = false → comes_to env sid b s (after env b (go (failedState reason s) [])).
Proof. apply comes_to_failed. Qed.

(** Events on a session that waits for the operator's signatures. *)
Lemma submitting_comes_to env sid b s e :
  b_fsm b = Some (AwaitingSubmitAccepted s) → no_release (calls b) →
  comes_to env sid b (AwaitingSubmitAccepted s)
    (after env b (SubmitAccepted_ProcessEvent s e (fsm_env cfg env (b_sessionID b)))).
Proof.
  intros Hs Hc. destruct e as [|oa|sid' [ark|] cps|fi| | |r|oe| |it|ms a|ds|];
    cbn [SubmitAccepted_ProcessEvent]; try by apply after_stay.
  - destruct (sid' =? _)%N eqn:E1; cbn [negb]; [|by apply reject_comes_to].
    destruct (TxHash (su_ArkPSBT s) =? _)%N eqn:E2; cbn [negb]; [|by apply reject_comes_to].
    case_bool_decide; [by apply reject_comes_to|].
    destruct (ValidateSubmitPackageSigned ark cps) as [[]|] eqn:E3; [|by apply reject_comes_to].
    apply N.eqb_eq in E1, E2. subst sid'. rewrite E2. by apply cosigned_comes_to.
  - by apply reject_comes_to.
  - by apply after_failed.
  - by apply submit_error_comes_to.
Qed.

(** Events on a session that waits for the final acceptance. *)
Lemma finalizing_comes_to env sid b s e :
  b_fsm b = Some (AwaitingFinalizeAccepted s) → no_release (calls b) →
  e ≠ FinalizeAcceptedEvent →
  comes_to env sid b (AwaitingFinalizeAccepted s)
    (after env b (FinalizeAccepted_ProcessEvent s e)).
Proof.
  intros Hs Hc He. destruct e; cbn [FinalizeAccepted_ProcessEvent]; try by apply after_stay.
  - done.
  - by apply after_failed.
  - unfold handleOutboxError. destruct (Retryable e); cbn [negb]; [|by apply after_failed].
    cbn [after go]. rewrite set_fsm_same by done.
    eapply quiet_comes_to; [|done|apply (move_stay env sid (AwaitingFinalizeAccepted s))].
    rewrite set_fsm_same by done. apply driveOutbox_quiet, drive_retry.
Qed.

Lemma resolving_comes_to env sid b s e :
  b_fsm b = Some (ReceiveResolving s) → no_release (calls b) →
  (external sid e ∨ e = RetryDueEvent) →
  comes_to env sid b (ReceiveResolving s) (after env b (ReceiveResolving_ProcessEvent s e)).
Proof.
  intros Hs Hc He. destruct e; cbn [ReceiveResolving_ProcessEvent]; try by apply after_stay.
  - by apply (after_failed env sid b (ReceiveResolving s)).
  - unfold handleResolveRetry. destruct (_ <=? _) eqn:E; [by apply (after_failed env sid b (ReceiveResolving s))|].
    apply Z.leb_gt in E. cbn [after go]. eapply quiet_comes_to; [apply driveOutbox_quiet, drive_resolving|done|].
    by exact (move_resolve env sid s _ E eq_refl).
  - destruct He as [He|He]; [|done]. by apply transfer_comes_to.
Qed.

Lemma notified_event_comes_to env sid b s e :
  handler_contract env → b_fsm b = Some (ReceiveNotified s) → no_release (calls b) →
  rn_SessionID s = sid → TxHash (rn_ArkPSBT s) = sid →
  (external sid e ∨ e = RetryDueEvent) →
  comes_to env sid b (ReceiveNotified s) (after env b (ReceiveNotified_ProcessEvent s e)).
Proof.
  intros Hh Hs Hc Hsid Htx He.
  assert (∀ reason, comes_to env sid b (ReceiveNotified s) (after env b (go (receiveFailed reason) [])))
    as Hfail by (intros reason; by apply (after_failed env sid b (ReceiveNotified s))).
  assert (∀ n r d, counted (ReceiveNotified s) n → comes_to env sid b (ReceiveNotified s)
    (after env b (go (ReceiveNotified (set_attempts s n)) [ScheduleRetryRequest d r]))) as Hwait.
  { intros n r d Hn. eapply quiet_comes_to; [apply driveOutbox_quiet, drive_retry|done|].
    by apply move_wait. }
  assert (∀ E : MetadataAttempts s < maxMetadataRetries,
    counted (ReceiveNotified s) (uint32 (MetadataAttempts s + 1))) as Hcount.
  { intros E. right. by exists s. }
  destruct e as [| | | | | |reason|oe| |t|matches []|descs|]; cbn [ReceiveNotified_ProcessEvent];
    try by apply after_stay.
  - apply Hfail.
  - unfold handleReceiveOutboxError, handleNotifiedRetry, notifiedGiveUp.
    destruct (Retryable oe); cbn [negb]; [|apply Hfail].
    destruct (_ <=? _) eqn:E; [apply Hfail|by apply Hwait, Hcount, Z.leb_gt].
  - unfold handleNotifiedTimerRetry, notifiedGiveUp. destruct (_ <=? _) eqn:E; [apply Hfail|].
    apply Z.leb_gt in E. destruct (ExtractArkRecipients _); [|by apply Hwait, Hcount].
    apply notified_comes_to; [done..|by apply Hcount].
  - by destruct He as [He|He].
  - cbn [after go]. rewrite set_fsm_same by done. by apply metadata_comes_to.
  - by destruct He as [He|He].
Qed.

(** The event that finishes a transfer. *)
Definition finishes (s : SessionState) (e : Event) : bool :=
  match s, e with AwaitingFinalizeAccepted _, FinalizeAcceptedEvent => true | _, _ => false end.

(** Every other event of the connection, and the timer of a receiving session. *)
Lemma on_event_comes_to env sid d b s e :
  handler_contract env → at_rest sid d s → b_fsm b = Some s → no_release (calls b) →
  (external sid e ∨ e = RetryDueEvent) → finishes s e = false →
  comes_to env sid b s (on_event env e b).
Proof.
  intros Hh Hr Hs Hc He Hn. rewrite (on_event_run env e b s) by done.
  change (comes_to env sid b s (after env b (ProcessEvent s e (fsm_env cfg env (b_sessionID b))))).
  destruct d, s; try done; cbn [ProcessEvent]; try by apply after_stay.
  - by apply submitting_comes_to.
  - apply finalizing_comes_to; [done..|]. by intros ->.
  - by apply resolving_comes_to.
  - destruct Hr as (? & ? & _). by apply notified_event_comes_to.
Qed.

End Safety.
