(* ===== verification/OorTurn.v ===== *)
(** * Out-of-round sessions: what the dispatch of a message comes to

    A loaded actor that is told an event of the connection, or is resumed, makes a
    move of its session; an actor without a session begins one.  Every dispatch
    keeps the identity of the actor. *)

From S2P Require Import Prelude RecoveryProof Ledger OorReplay OorInputs OorFsm OorActor OorSafety.
Local Open Scope Z_scope.

(** Computations that keep the identity of the actor. *)
Create HintDb keeps.

Section Turns.
Context {T : OorTx} {TL : OorTxLaws} (cfg : Config).

(** ** The identity of an actor *)

Definition same_actor (b b' : Behavior) : Prop :=
  b_sessionID b' = b_sessionID b ∧ b_direction b' = b_direction b ∧ b_loaded b' = b_loaded b.
Definition keeps {A} (m : OM A) : Prop := ∀ b, same_actor b (m b).2.

#[local] Instance same_actor_trans : Transitive same_actor.
Proof. intros b1 b2 b3 (? & ? & ?) (? & ? & ?). repeat split; congruence. Qed.
#[local] Instance same_actor_refl : Reflexive same_actor.
Proof. by intros b. Qed.

Lemma okeeps_ret {A} (a : A) : keeps (oret a).
Proof. by intros b. Qed.
Lemma keeps_throw {A} e : keeps (othrow e : OM A).
Proof. by intros b. Qed.
Lemma keeps_lift {A} (r : result error A) : keeps (olift r).
Proof. intros b. unfold olift. by destruct r. Qed.
Lemma okeeps_bind {A B} (m : OM A) (k : A → OM B) :
  keeps m → (∀ a, keeps (k a)) → keeps (obind m k).
Proof.
  intros Hm Hk b. unfold obind. specialize (Hm b). destruct (m b) as [[a|e] b']; [|done].
  etrans; [exact Hm|apply Hk].
Qed.
Lemma okeeps_for {A} (l : list A) (f : A → OM unit) : (∀ a, keeps (f a)) → keeps (ofor l f).
Proof. intros Hf. induction l; [apply okeeps_ret|by apply okeeps_bind]. Qed.
Lemma keeps_stage t l w p r c : keeps (omodify (λ b, stage b t l w p r c)).
Proof. by intros b. Qed.

#[local] Hint Resolve okeeps_ret keeps_throw keeps_lift okeeps_bind okeeps_for keeps_stage : keeps.

Lemma keeps_apply env e : keeps (apply cfg env e).
Proof.
  intros b. unfold apply. destruct (b_fsm b); [|done]. by destruct (ProcessEvent _ _ _) as [[]|].
Qed.
Lemma keeps_complete env ops : keeps (completeSpend cfg env ops).
Proof.
  unfold completeSpend. case_bool_decide; [auto with keeps|]. apply okeeps_bind; [auto with keeps|].
  intros known. case_bool_decide; auto with keeps.
Qed.
Lemma keeps_release env ops epochs : keeps (releaseSpend cfg env ops epochs).
Proof.
  unfold releaseSpend. case_bool_decide; [auto with keeps|]. apply okeeps_bind; [auto with keeps|].
  intros known. case_bool_decide; [auto with keeps|]. destruct (SpendReleaser cfg); auto with keeps.
Qed.
Lemma keeps_retry after reason : keeps (queueRetry cfg after reason).
Proof.
  unfold queueRetry. destruct (negb _); [auto with keeps|]. destruct (CallbackRef cfg); auto with keeps.
Qed.
Lemma keeps_build env ev : keeps (buildTransportMessage cfg env ev).
Proof.
  destruct ev; cbn; auto with keeps. apply okeeps_bind; [destruct (IncomingHandler cfg); auto with keeps|].
  intros l. case_bool_decide; auto with keeps.
Qed.
#[local] Hint Resolve keeps_apply keeps_complete keeps_release keeps_retry keeps_build : keeps.

Lemma keeps_event env k ev : (∀ e, keeps (k e)) → keeps (runOutboxEvent cfg env k ev).
Proof.
  intros Hk.
  destruct ev; cbn [runOutboxEvent is_ack]; 
    try match goal with |- context [Signer cfg] => destruct (Signer cfg) end; auto 6 with keeps.
  - intros b. exact (keeps_release env _ _ b).
  - destruct (IncomingHandler cfg); [|auto with keeps]. apply okeeps_bind; [by intros b|auto with keeps].
Qed.

Lemma keeps_drive env n evs : keeps (driveOutboxEvents cfg env n evs).
Proof.
  revert evs. induction n as [|n IH]; intros evs; [apply keeps_throw|]. apply okeeps_for.
  intros ev. apply keeps_event. auto with keeps.
Qed.
#[local] Hint Resolve keeps_drive : keeps.

Lemma keeps_driveOutbox env evs : keeps (driveOutbox cfg env evs).
Proof.
  intros b. unfold driveOutbox. pose proof (keeps_drive env drive_fuel evs b) as H.
  destruct (driveOutboxEvents cfg env drive_fuel evs b) as [[[]|[| c | |]] b']; try exact H.
  etrans; [exact H|]. unfold failTerminal, continueWith. apply okeeps_bind; auto with keeps.
Qed.
#[local] Hint Resolve keeps_driveOutbox : keeps.

Lemma keeps_on_event env e : keeps (on_event cfg env e).
Proof. apply okeeps_bind; auto with keeps. Qed.
#[local] Hint Resolve keeps_on_event : keeps.

(** ** A session that exists *)

(** What a dispatch of a message comes to, started in [s]. *)
Definition turns_to {A} (env : Answers) (sid : Hash) (b : Behavior) (s : SessionState)
    (r : result oerr A * Behavior) : Prop :=
  match r with
  | (Ok _, b') => ∃ s' f rs, move cfg env sid s s' f ∧ b' = moved b s' f rs
  | (Err e, b') => plain_error e ∧ no_release (calls b') ∧ same_actor b b'
  end.

Lemma comes_to_turns {A} env sid b s (m : OM unit) (a : A) :
  comes_to cfg env sid b s (m b) → keeps m → turns_to env sid b s (obind m (λ _, oret a) b).
Proof.
  intros H Hk. specialize (Hk b). unfold obind. destruct (m b) as [[[]|e] b']; [exact H|].
  destruct H as [H1 H2]. by split.
Qed.

Lemma turns_error {A} env sid b s t : no_release (calls b) →
  turns_to env sid b s (Err (ErrOther t) : result oerr A, b).
Proof. intros H. split; [by exists t|done]. Qed.

Lemma queue_sent b (s : Finalizing) :
  PackageStore cfg = true →
  queueVTXOSent cfg s b = (Ok tt, stage b [] (told cfg (b_sessionID b) s) [] [] [] []).
Proof.
  intros Hp. unfold queueVTXOSent, told, sent_note. rewrite Hp.
  destruct (LedgerSink cfg); cbn [negb orb andb]; [|by rewrite stage_nil].
  case_bool_decide as E; [rewrite E; cbn; by rewrite stage_nil|].
  rewrite Z.ltb_antisym. destruct (sent_total _ <=? 0); [by rewrite stage_nil|done].
Qed.

Lemma drive_event_run env e b s :
  b_fsm b = Some s →
  handleDriveEvent cfg env (Some e) b =
  obind (on_event cfg env e) (λ _, obind
    match captureFinalizeState cfg e b with
    | Some s => obind (omodify (λ b, stage b [] [] [PersistPackage s] [] [] [])) (λ _, queueVTXOSent cfg s)
    | None => oret tt
    end (λ _, oret DriveEventResponse)) b.
Proof.
  intros Hs. unfold handleDriveEvent. unfold obind at 1, oget. rewrite Hs. unfold on_event, obind at 1.
  unfold obind at 4. unfold obind at 4. by destruct (apply cfg env e b) as [[|] ?].
Qed.

(** The event that finishes a transfer. *)
Lemma finish_turns env sid b s :
  b_sessionID b = sid → b_fsm b = Some (AwaitingFinalizeAccepted s) → no_release (calls b) →
  turns_to env sid b (AwaitingFinalizeAccepted s) (handleDriveEvent cfg env (Some FinalizeAcceptedEvent) b).
Proof.
  intros Hid Hs Hc. rewrite (drive_event_run _ _ _ _ Hs). unfold captureFinalizeState. rewrite Hs.
  unfold obind at 1.
  assert (same_actor b (on_event cfg env FinalizeAcceptedEvent b).2) as Hk by apply keeps_on_event.
  rewrite (on_event_run cfg env _ b _ Hs) in Hk |- *. cbn [ProcessEvent FinalizeAccepted_ProcessEvent go] in *.
  destruct (accepted_run cfg env b s Hc) as [(cs & Hr & Hsp)|(t & b' & Hr & Hb')];
    rewrite Hr in Hk |- *; [|by split; [by exists t|split; [done|]]].
  enough (∀ r b', (r, b') = (Ok DriveEventResponse, moved b (Completed (fs_IdempotencyKey s))
    (mkEffects [] (told cfg sid s) (if PackageStore cfg then [PersistPackage s] else []) cs) []) →
    turns_to env sid b (AwaitingFinalizeAccepted s) (r, b')) as H.
  - destruct (PackageStore cfg) eqn:Hp; cbn [negb].
    + unfold obind, omodify. rewrite queue_sent by done. cbn [oret]. apply H. unfold moved.
      cbn [f_msgs f_ledger f_work f_calls]. rewrite !stage_stage. cbn. by rewrite Hid, !app_nil_r.
    + unfold obind, oret. apply H. unfold moved. cbn. unfold told, sent_note. by rewrite Hp.
  - intros r b' [= -> ->]. eexists _, _, []. split; [by apply move_accepted|done].
Qed.

(** Any event of the connection. *)
Lemma drive_event_turns env sid d b s e :
  handler_contract env → at_rest sid d s → b_sessionID b = sid → b_fsm b = Some s →
  no_release (calls b) → external sid e →
  turns_to env sid b s (handleDriveEvent cfg env (Some e) b).
Proof.
  intros Hh Hr Hid Hs Hc He. destruct (finishes s e) eqn:Hf.
  { destruct s, e; try done. by apply finish_turns. }
  rewrite (drive_event_run _ _ _ _ Hs).
  assert (captureFinalizeState cfg e b = None) as ->.
  { unfold captureFinalizeState. rewrite Hs. destruct (PackageStore cfg); [|done]. by destruct e, s. }
  unfold obind at 2, oret at 1. apply comes_to_turns.
  - eapply on_event_comes_to; eauto.
  - auto with keeps.
Qed.

(** The outbox a session is resumed with. *)
Lemma resume_turns env sid d b s timer :
  handler_contract env → at_rest sid d s → b_sessionID b = sid → b_fsm b = Some s →
  b_direction b = Some d → no_release (calls b) →
  turns_to env sid b s (handleResumeSession cfg env timer b).
Proof.
  intros Hh Hr Hid Hs Hd Hc. unfold handleResumeSession. unfold obind at 1, oget. rewrite Hs, Hd.
  assert (∀ r, (timer = true ∧ waitsOnGiveUpTimer s = true → r = apply cfg env RetryDueEvent) →
    (timer && waitsOnGiveUpTimer s = false → r = olift (match d with DirOutgoing => OutboxForState s
       | DirIncoming => resumeOutboxForIncomingState s end)) →
    turns_to env sid b s (obind r (λ outbox, obind (driveOutbox cfg env outbox)
      (λ _, oret DriveEventResponse)) b)) as H; [intros r H1 H2|].
  2:{ apply H; [by intros [-> ->]|]. intros ->. by destruct d. }
  destruct (timer && waitsOnGiveUpTimer s) eqn:Et.
  { apply andb_true_iff in Et. rewrite (H1 Et).
    assert (∀ o, obind (apply cfg env RetryDueEvent) (λ outbox, obind (driveOutbox cfg env outbox)
      (λ _, oret o)) b = obind (on_event cfg env RetryDueEvent) (λ _, oret o) b) as ->.
    { intros o. unfold on_event, obind. by destruct (apply _ _ _ _) as [[]]. }
    apply comes_to_turns; [|auto with keeps].
    eapply on_event_comes_to; eauto. by destruct s. }
  rewrite H2 by done.
  assert (∀ evs msgs, move cfg env sid s s (only_msgs msgs) →
    quiet (driveOutbox cfg env evs b) b msgs →
    turns_to env sid b s (obind (olift (Ok evs)) (λ outbox, obind (driveOutbox cfg env outbox)
      (λ _, oret DriveEventResponse)) b)) as Hq.
  { intros evs msgs Hm Hq. apply comes_to_turns; [|auto with keeps].
    eapply quiet_comes_to; [|done..]. by rewrite set_fsm_same. }
  destruct d, s; try done; cbn [OutboxForState resumeOutboxForIncomingState OutboxForIncomingState].
  - eapply Hq; [apply move_resubmit|apply driveOutbox_quiet, drive_submit].
  - eapply Hq; [apply move_refinalize|apply driveOutbox_quiet, drive_finalize].
  - apply (Hq [] []); [apply move_stay|]. left. exists []. by rewrite stage_nil.
  - apply (Hq [] []); [apply move_stay|]. left. exists []. by rewrite stage_nil.
  - apply (Hq [] []); [apply move_stay|]. left. exists []. by rewrite stage_nil.
  - apply (Hq _ []); [apply move_stay|apply driveOutbox_quiet, drive_retry].
  - apply (Hq _ []); [apply move_stay|apply driveOutbox_quiet, drive_retry].
  - apply (Hq [] []); [apply move_stay|]. left. exists []. by rewrite stage_nil.
Qed.

(** ** A session that begins *)

Inductive begins (env : Answers) (sid : Hash) : Direction → SessionState → Effects → Prop :=
| begin_transfer s inputs unsigned :
    TxHash (su_ArkPSBT s) = sid →
    (su_IdempotencyKey s ≠ "" → su_DispatchRequestData s ≠ []) →
    begins env sid DirOutgoing (AwaitingSubmitAccepted s)
      (mkEffects [SubmitPackage (su_ArkPSBT s) (su_CheckpointPSBTs s) (su_TransferInputs s)
                    (su_RecipientOutputs s)] [] [RecordReservations inputs] [CallSignArk unsigned])
| begin_receipt script eventID :
    begins env sid DirIncoming (ReceiveResolving (mkResolving sid script eventID 0))
      (only_msgs [ListRecipientEvents sid script (if 0 <? eventID then eventID - 1 else 0) eventID]).

(** The behavior with a session it was given. *)
Definition installed (b : Behavior) (sid : Hash) (d : Direction) (s : SessionState) (f : Effects)
    (rs : list (Z * text)) : Behavior :=
  stage (set_session b sid (Some d) (Some s) true) (f_msgs f) (f_ledger f) (f_work f) [] rs
    (f_calls f).

Definition begins_to (env : Answers) (sid : Hash) (d : Direction) (b : Behavior)
    (r : result oerr ActorResp * Behavior) : Prop :=
  match r with
  | (Ok _, b') => ∃ s f rs, begins env sid d s f ∧ b' = installed b sid d s f rs
  | (Err e, b') => plain_error e ∧ no_release (calls b') ∧ b_sessionID b' = sid
  end.

Lemma moved_installed b sid d s f rs :
  b_sessionID b = sid → b_direction b = Some d → b_loaded b = true →
  moved b s f rs = installed b sid d s f rs.
Proof. unfold moved, installed, set_fsm. by intros -> -> ->. Qed.

Lemma replay_data_nonempty recipients data :
  recipients ≠ [] → newOutgoingReplayData recipients = Ok data → data ≠ [].
Proof.
  intros Hne H. unfold newOutgoingReplayData, NewOutgoingReplayData in H. inv_ok.
  apply match_requested_spec in E as [Hk _]. destruct (merge_sort index_le a) as [|x l] eqn:Em; [|done].
  pose proof (merge_sort_Permutation index_le a) as Hp. rewrite Em in Hp.
  apply Permutation_nil_l in Hp as <-. destruct recipients; [done|by rewrite fmap_cons in Hk].
Qed.

Lemma newSession_ok env e sid s o :
  newSession cfg env e = Ok (sid, s, o) →
  ∃ a, s = AwaitingArkSignatures a ∧ TxHash (as_ArkPSBT a) = sid ∧
    o = [RequestArkSignatures (as_ArkPSBT a) (as_CheckpointPSBTs a) (as_TransferInputs a)] ∧
    (as_IdempotencyKey a ≠ "" → as_DispatchRequestData a ≠ []).
Proof.
  unfold newSession. cbn [ProcessEvent Idle_ProcessEvent]. intros H.
  destruct (OperatorKey (Policy e)) as [operator|]; [|done]. cbn [go] in H. inv_ok.
  destruct a2 as [ark cps]. unfold go in E. inv_ok. eexists. split; [done|]. cbn.
  split; [done|]. split; [done|]. intros Hk. apply build_needs in E2 as (_ & Hr & _).
  rewrite bool_decide_eq_false_2 in E1 by done. cbn [negb andb] in E1.
  destruct (no_bytes (st_DispatchRequestData e)) eqn:En.
  - by eapply replay_data_nonempty.
  - injection E1 as <-. by apply no_bytes_false.
Qed.

Lemma start_begins env db e deadline sid b :
  no_release (calls b) → b_sessionID b = sid →
  (∀ sid' s o, newSession cfg env e = Ok (sid', s, o) → sid' = sid) →
  (b_fsm b = None ∨ replaceFailed env db (st_IdempotencyKey e) b = Ok true) →
  begins_to env sid DirOutgoing b (handleStartTransfer cfg env db e deadline b).
Proof.
  intros Hc Hid Hroute Hnew. unfold handleStartTransfer, oget. unfold obind at 1.
  assert (∀ k : bool → OM ActorResp, obind (if b_loaded b && bool_decide (is_Some (b_fsm b))
    then obind (λ b, (replaceFailed env db (st_IdempotencyKey e) b, b)) (λ r, oret (negb r))
    else oret false) k b = k false b) as ->.
  { intros k. unfold obind. destruct Hnew as [->|Hr].
    - rewrite bool_decide_eq_false_2 by by intros []. by rewrite andb_false_r.
    - destruct (_ && _); [by rewrite Hr|done]. }
  destruct (admissionDeadlineReached _ _); [by split; [eexists|]|].
  unfold obind at 1, olift. destruct (newSession cfg env e) as [[[sid' st] o]|t] eqn:E;
    [|by split; [eexists|]].
  apply newSession_ok in E as Hn. specialize (Hroute _ _ _ eq_refl). subst sid'.
  destruct Hn as (a & -> & Htx & -> & Hk). unfold obind, omodify.
  set (b1 := stage _ _ _ _ _ _ _).
  assert (no_release (calls b1)) as Hc1 by (cbn; by rewrite app_nil_r).
  destruct (driveOutbox cfg env _ b1) as [r b'] eqn:Ed.
  assert (b_sessionID b' = sid) as Hid'.
  { pose proof (keeps_driveOutbox env [RequestArkSignatures (as_ArkPSBT a) (as_CheckpointPSBTs a)
      (as_TransferInputs a)] b1) as Hkd. rewrite Ed in Hkd. exact (proj1 Hkd). }
  revert Ed. unfold driveOutbox. change drive_fuel with 4%nat. rewrite drive_cons. cbn [runOutboxEvent].
  destruct (Signer cfg); [|by intros [= <- <-]; split; [eexists|]].
  unfold obind, omodify, olift. set (b2 := stage b1 _ _ _ _ _ _).
  assert (no_release (calls b2)) as Hc2.
  { apply Forall_app. split; [done|]. apply Forall_singleton. by intros []. }
  destruct (SignArkPSBT env _ _ _) as [signed|t]; [|by intros [= <- <-]; split; [eexists|]].
  unfold apply. change (b_fsm b2) with (Some (AwaitingArkSignatures a)).
  cbn [ProcessEvent ArkSignatures_ProcessEvent].
  destruct (TxHash signed =? _)%N eqn:Et; [|by intros [= <- <-]; split; [eexists|]].
  apply N.eqb_eq in Et. destruct (ValidateSubmitPackage _ _); [|by intros [= <- <-]; split; [eexists|]].
  cbn [go]. set (su := mkSubmitting _ _ _ _ _ _ _ _ _).
  destruct (drive_submit cfg env 2 su (set_fsm b2 (AwaitingSubmitAccepted su))) as [[rs ->]|[t ->]].
  - rewrite drive_nil. intros [= <- <-]. eexists _, _, rs. split.
    { apply (begin_transfer env sid su (VTXOInputs e) (as_ArkPSBT a)); [by rewrite <- Htx|done]. }
    unfold installed, b2, b1. cbn. unfold set_fsm, set_session, stage. cbn. by rewrite !app_nil_r.
  - intros [= <- <-]. split; [by eexists|]. split; [|done]. cbn. by rewrite app_nil_r.
Qed.

Lemma receipt_begins env sid script eventID b :
  no_release (calls b) → b_sessionID b = sid → b_fsm b = None →
  begins_to env sid DirIncoming b (handleResolveIncomingTransfer cfg env sid script eventID b).
Proof.
  intros Hc Hid Hn. unfold handleResolveIncomingTransfer.
  destruct (no_bytes script); [by split; [eexists|]|]. unfold obind at 1, oget. rewrite Hn.
  rewrite bool_decide_eq_false_2, andb_false_r by by intros [].
  destruct (negb _); [|by split; [eexists|]]. unfold obind, omodify, olift.
  cbn [OutboxForIncomingState]. set (s := mkResolving _ _ _ _). set (b1 := set_session _ _ _ _ _).
  destruct (driveOutbox_quiet cfg env _ b1 _ (drive_resolving cfg env 3 s b1)) as [[rs ->]|[t ->]].
  - eexists _, _, rs. split; [apply begin_receipt|done].
  - split; [by eexists|]. split; [|done]. cbn. by rewrite app_nil_r.
Qed.

End Turns.

#[export] Hint Resolve okeeps_ret keeps_throw keeps_lift okeeps_bind okeeps_for keeps_stage keeps_apply
  keeps_complete keeps_release keeps_retry keeps_build keeps_drive keeps_driveOutbox keeps_on_event : keeps.
