(* ===== verification/OorCommit.v ===== *)
(** * Out-of-round sessions: what a successful transaction writes

    The transaction of a turn either finds that another session holds its key and
    writes nothing, or runs the staged writes, stores the snapshot of the state
    the machine is then in, and appends the messages of the turn.  Everything else
    of the tables stays. *)

From S2P Require Import Prelude RecoveryProof Ledger OorReplay OorInputs OorFsm OorActor OorSafety OorTurn.
Local Open Scope Z_scope.

(** Transactions that keep the identity of the actor. *)
Create HintDb tkeeps.

Section Commits.
Context {T : OorTx} (cfg : Config).

(** ** Steps of a transaction *)

Lemma tbind_ok {A B} (m : TM A) (k : A → TM B) s c s'' :
  tbind m k s = (Ok c, s'') → ∃ a s', m s = (Ok a, s') ∧ k a s' = (Ok c, s'').
Proof. unfold tbind. destruct (m s) as [[a|] s']; [eauto|done]. Qed.

Lemma taccess_ok {A} (f : OorDB → result oerr A * OorDB) s a s' :
  taccess f s = (Ok a, s') → tx_b s' = tx_b s ∧ f (tx_db s) = (Ok a, tx_db s').
Proof.
  unfold taccess. destruct (tx_faults s) as [|[] faults]; [|done|];
    destruct (f (tx_db s)) as [r db'] eqn:E; by intros [= -> <-].
Qed.

Lemma twrite_ok f s s' : twrite f s = (Ok tt, s') → tx_b s' = tx_b s ∧ tx_db s' = f (tx_db s).
Proof. intros H. apply taccess_ok in H as [? H]. cbv beta in H. split; congruence. Qed.

(** Writes of a loop, one after the other. *)
Lemma twrites_ok {A} (l : list A) (f : A → OorDB → OorDB) s s' :
  tfor l (λ x, twrite (f x)) s = (Ok tt, s') →
  tx_b s' = tx_b s ∧ tx_db s' = foldl (λ db x, f x db) (tx_db s) l.
Proof.
  revert s. induction l as [|x l IH]; intros s H; cbn in H; [by injection H as <-|].
  apply tbind_ok in H as ([] & s1 & H1 & H). apply twrite_ok in H1 as [Hb Hd].
  apply IH in H as [-> ->]. by rewrite Hb, Hd.
Qed.

(** ** Frames *)

(** The registry, the attempts, the mailboxes and the stored outputs are the same. *)
Definition framed (db db' : OorDB) : Prop :=
  rows db' = rows db ∧ attempts db' = attempts db ∧ transport db' = transport db ∧
  ledger_mailbox db' = ledger_mailbox db ∧ stored db' = stored db.

#[export] Instance framed_preorder : PreOrder framed.
Proof.
  split; [by intros db|]. intros db1 db2 db3 (? & ? & ? & ? & ?) (? & ? & ? & ? & ?).
  repeat split; congruence.
Qed.

Lemma framed_foldl {A} (f : A → OorDB → OorDB) l db :
  (∀ x db, framed db (f x db)) → framed db (foldl (λ db x, f x db) db l).
Proof.
  intros Hf. revert db. induction l as [|x l IH]; intros db; cbn; [done|].
  etrans; [apply (Hf x)|apply IH].
Qed.

Lemma packages_foldl {A} (f : A → OorDB → OorDB) l db :
  (∀ x db, packages (f x db) = packages db) →
  packages (foldl (λ db x, f x db) db l) = packages db.
Proof.
  intros Hf. revert db. induction l as [|x l IH]; intros db; cbn; [done|]. by rewrite IH.
Qed.

(** ** The staged writes *)

Lemma reservations_ok inputs s s' :
  recordReservations cfg inputs s = (Ok tt, s') →
  tx_b s' = tx_b s ∧ framed (tx_db s) (tx_db s') ∧ packages (tx_db s') = packages (tx_db s).
Proof.
  unfold recordReservations. destruct (negb _); [by intros [= <-]|]. intros H.
  apply tbind_ok in H as (b & s1 & [= <- <-] & H).
  apply (twrites_ok _ (λ op, with_reservation op (b_sessionID (tx_b s)))) in H as [-> ->].
  split; [done|]. split; [by apply framed_foldl|]. by rewrite packages_foldl.
Qed.

Lemma bind_inputs_ok env sid i ops s s' :
  bind_inputs env sid i ops s = (Ok tt, s') →
  tx_b s' = tx_b s ∧ framed (tx_db s) (tx_db s') ∧ packages (tx_db s') = packages (tx_db s).
Proof.
  revert i s. induction ops as [|op ops IH]; intros i s H; cbn in H; [by injection H as <-|].
  apply tbind_ok in H as ([] & s1 & H1 & H). apply IH in H as (Hb & Hf & Hp).
  destruct (BindingKnown env op); [|by injection H1 as <-].
  apply twrite_ok in H1 as [Hb1 Hd1]. rewrite Hd1 in Hf, Hp. rewrite Hb, Hb1, Hp.
  split; [done|]. by split; [etrans; [|exact Hf]|].
Qed.

Lemma package_ok env fs s s' :
  persistOutgoingPackage cfg env fs s = (Ok tt, s') →
  tx_b s' = tx_b s ∧ framed (tx_db s) (tx_db s') ∧
  packages (tx_db s') =
    if PackageStore cfg
    then <[b_sessionID (tx_b s) := (fs_ArkPSBT fs, FinalCheckpointPSBTs fs)]> (packages (tx_db s))
    else packages (tx_db s).
Proof.
  unfold persistOutgoingPackage. destruct (PackageStore cfg); cbn [negb]; [|by intros [= <-]].
  intros H. apply tbind_ok in H as (b & s1 & [= <- <-] & H).
  destruct (UpsertPackageError env); [done|].
  apply tbind_ok in H as ([] & s1 & H1 & H). apply twrite_ok in H1 as [Hb1 Hd1].
  apply bind_inputs_ok in H as (Hb & Hf & Hp). rewrite Hd1 in Hf, Hp. rewrite Hb, Hb1, Hp.
  split; [done|]. by split; [etrans; [|exact Hf]|].
Qed.

(** What the ledger is told of stored outputs. *)
Definition received_notes (sid : Hash) (descs : list Received) : list LedgerMsg :=
  if LedgerSink cfg then received_msg sid <$> descs else [].
Definition stored_notices (descs : list Received) : list (list Received) :=
  match descs with [] => [] | _ => [descs] end.

Lemma handled_run env n descs b :
  b_fsm b = Some (ReceiveNotified n) →
  continueWith cfg env (IncomingHandledEvent descs) b =
  (Ok tt, stage (set_fsm b ReceiveCompleted) [IncomingAck (rn_SessionID n)] [] [] [] [] []).
Proof. intros Hs. unfold continueWith, obind, apply. rewrite Hs. done. Qed.

Lemma materialize_ok env r n s s' :
  handler_contract env → b_fsm (tx_b s) = Some (ReceiveNotified n) →
  materializeIncoming cfg env r s = (Ok tt, s') →
  ∃ descs, HandleMaterialize env r = Ok [IncomingHandledEvent descs] ∧
    tx_b s' = stage (set_fsm (tx_b s) ReceiveCompleted) [IncomingAck (rn_SessionID n)]
      (received_notes (b_sessionID (tx_b s)) descs) [] (stored_notices descs) [] [] ∧
    tx_db s' = with_stored descs (tx_db s).
Proof.
  intros (_ & _ & Hh & _) Hs H. unfold materializeIncoming in H.
  destruct (IncomingHandler cfg); [|done]. cbn [negb] in H.
  destruct (HandleMaterialize env r) as [events|] eqn:E; [|done].
  apply Hh in E as Hev. destruct Hev as [descs ->]. exists descs. split; [done|].
  apply tbind_ok in H as ([] & s1 & H1 & H). apply twrite_ok in H1 as [Hb Hd].
  cbn [tfor] in H. apply tbind_ok in H as ([] & s2 & H2 & H). injection H as <-.
  apply tbind_ok in H2 as ([] & s3 & H3 & H2). unfold tturn in H2, H3. rewrite Hb in H3.
  cbn in H3. injection H3 as <-. cbn [tx_b tx_db] in H2.
  rewrite (handled_run env n) in H2 by by destruct descs. injection H2 as <-.
  cbn [tx_b tx_db]. rewrite Hd. split; [|cbn; by rewrite app_nil_r].
  unfold received_notes, stored_notices. destruct descs as [|d ds]; [|rewrite set_fsm_stage, stage_stage; cbn; by rewrite app_nil_r].
  by destruct (LedgerSink cfg).
Qed.

(** The staged writes of a state: the state they leave, and the messages and outputs
    they add. *)
Inductive worked (env : Answers) (sid : Hash) (s : SessionState) :
    list Work → SessionState → list ServerMsg → list LedgerMsg → list Received → Prop :=
| worked_none : worked env sid s [] s [] [] []
| worked_reserved inputs : worked env sid s [RecordReservations inputs] s [] [] []
| worked_package fs : worked env sid s [PersistPackage fs] s [] [] []
| worked_materialized n r descs :
    s = ReceiveNotified n → HandleMaterialize env r = Ok [IncomingHandledEvent descs] →
    worked env sid s [Materialize r] ReceiveCompleted [IncomingAck (rn_SessionID n)]
      (received_notes sid descs) descs.

(** The finished packages after the staged writes. *)
Definition packages_after (sid : Hash) (w : list Work) (p : gmap Hash (Packet * list Packet)) :
    gmap Hash (Packet * list Packet) :=
  match w with
  | [PersistPackage fs] =>
      if PackageStore cfg then <[sid := (fs_ArkPSBT fs, FinalCheckpointPSBTs fs)]> p else p
  | _ => p
  end.

(** What a turn stages in a state. *)
Definition fits (s : SessionState) (w : list Work) : Prop :=
  match w with
  | [] | [RecordReservations _] | [PersistPackage _] => True
  | [Materialize _] => ∃ n, s = ReceiveNotified n
  | _ => False
  end.

Lemma works_ok env sid s w t t' :
  handler_contract env → fits s w → b_fsm (tx_b t) = Some s → b_sessionID (tx_b t) = sid →
  tfor w (run_work cfg env) t = (Ok tt, t') →
  ∃ s2 msgs ledger descs, worked env sid s w s2 msgs ledger descs ∧
    tx_b t' = stage (set_fsm (tx_b t) s2) msgs ledger [] (stored_notices descs) [] [] ∧
    framed (with_stored descs (tx_db t)) (tx_db t') ∧
    packages (tx_db t') = packages_after sid w (packages (tx_db t)).
Proof.
  intros Hh Hf Hs Hid H.
  assert (∀ db, framed (tx_db t) db → framed (with_stored [] (tx_db t)) db) as Hst.
  { intros db (? & ? & ? & ? & Hst). repeat split; [done..|]. rewrite Hst. symmetry. apply app_nil_r. }
  destruct w as [|w [|]]; [| |by destruct w].
  { injection H as <-. eexists _, [], [], []. split; [constructor|].
    by rewrite stage_nil, set_fsm_same; [split; [|split; [by apply Hst|]]|]. }
  cbn in H. apply tbind_ok in H as ([] & t1 & H & [= <-]). destruct w as [inputs|fs|r]; cbn in H.
  - apply reservations_ok in H as (-> & Hfr & Hp). eexists _, [], [], []. split; [constructor|].
    by rewrite stage_nil, set_fsm_same; [split; [|split; [by apply Hst|]]|].
  - apply package_ok in H as (-> & Hfr & Hp). eexists _, [], [], []. split; [constructor|].
    cbn [stored_notices packages_after]. rewrite stage_nil, set_fsm_same, <- Hid by done. auto.
  - destruct Hf as [n ->]. eapply materialize_ok in H as (descs & He & -> & ->); [|done..].
    eexists _, _, _, _. split; [by eapply worked_materialized|]. by rewrite Hid.
Qed.

(** ** The registry *)

Lemma insert_attempt_grows db key sid data : attempts db ⊆ insert_attempt db key sid data.
Proof.
  unfold insert_attempt. destruct (bool_decide (is_Some (attempts db !! key))) eqn:E; [done|].
  cbn. destruct (attempt_bound db sid); [done|]. apply bool_decide_eq_false_1 in E.
  apply insert_subseteq. by apply eq_None_not_Some.
Qed.

Lemma upsert_ok sid r data t t' :
  UpsertSession sid (r, data) t = (Ok tt, t') →
  tx_b t' = tx_b t ∧ key_taken (tx_db t) sid r = false ∧
  rows (tx_db t') = upsert_row (tx_db t) sid r ∧ attempts (tx_db t) ⊆ attempts (tx_db t') ∧
  (r_Direction r = DirOutgoing → r_IdempotencyKey r ≠ "" → data ≠ [] →
     attempts (tx_db t') !! r_IdempotencyKey r = Some (sid, data)) ∧
  packages (tx_db t') = packages (tx_db t) ∧ transport (tx_db t') = transport (tx_db t) ∧
  ledger_mailbox (tx_db t') = ledger_mailbox (tx_db t) ∧ stored (tx_db t') = stored (tx_db t).
Proof.
  intros H. apply taccess_ok in H as [Hb H]. split; [done|]. cbv beta iota in H.
  destruct (key_taken (tx_db t) sid r); [done|]. split; [done|].
  set (db := tx_db t) in *. set (db1 := with_rows db (upsert_row db sid r) (attempts db)) in *.
  destruct (bool_decide (r_Direction r = DirOutgoing) &&
    negb (bool_decide (r_IdempotencyKey r = "")) && negb (no_bytes data)) eqn:E.
  - unfold ensureOORDispatchAttempt in H.
    pose proof (insert_attempt_grows db1 (r_IdempotencyKey r) sid data) as Hg.
    destruct (insert_attempt db1 _ sid data !! _) as [[sid' data']|] eqn:Ea; [|done].
    destruct ((sid' =? sid)%N && bool_decide (data' = data)) eqn:Em; [|done].
    apply andb_true_iff in Em as [->%N.eqb_eq ->%bool_decide_eq_true_1].
    injection H as <-. by repeat split.
  - injection H as <-. repeat split; [done|]. intros Hd Hk Hn. exfalso. revert E.
    rewrite bool_decide_eq_true_2, (bool_decide_eq_false_2 (_ = "")) by done. cbn.
    by rewrite (proj2 (no_bytes_false data)).
Qed.

Lemma tell_transport_ok t t' :
  tellTransport cfg t = (Ok tt, t') →
  tx_b t' = tx_b t ∧ tx_db t' = with_mail (pair (b_sessionID (tx_b t)) <$> pendingTransport (tx_b t)) []
    (tx_db t).
Proof.
  intros H. apply tbind_ok in H as (b & t1 & [= <- <-] & H).
  assert (∀ l db, foldl (λ db m, with_mail [(b_sessionID (tx_b t), m)] [] db) db l =
    with_mail (pair (b_sessionID (tx_b t)) <$> l) [] db) as Hfold.
  { intros l. induction l as [|m l IH]; intros db; cbn [foldl].
    - destruct db. unfold with_mail. cbn. by rewrite !app_nil_r.
    - rewrite IH. unfold with_mail. cbn. by rewrite <- !app_assoc. }
  destruct (pendingTransport (tx_b t)) as [|m l]; [injection H as <-; by rewrite <- (Hfold [])|].
  destruct (negb _); [done|].
  apply (twrites_ok _ (λ m, with_mail [(b_sessionID (tx_b t), m)] [])) in H as [-> ->].
  by rewrite Hfold.
Qed.

Lemma tell_ledger_ok t t' :
  tellLedger cfg t = (Ok tt, t') →
  tx_b t' = tx_b t ∧ tx_db t' = with_mail [] (pendingLedger (tx_b t)) (tx_db t).
Proof.
  intros H. apply tbind_ok in H as (b & t1 & [= <- <-] & H).
  assert (∀ l db, foldl (λ db m, with_mail [] [m] db) db l = with_mail [] l db) as Hfold.
  { intros l. induction l as [|m l IH]; intros db; cbn [foldl].
    - destruct db. unfold with_mail. cbn. by rewrite !app_nil_r.
    - rewrite IH. unfold with_mail. cbn. by rewrite <- !app_assoc. }
  destruct (pendingLedger (tx_b t)) as [|m l]; [injection H as <-; by rewrite <- (Hfold [])|].
  destruct (negb _); [done|]. apply (twrites_ok _ (λ m, with_mail [] [m])) in H as [-> ->].
  by rewrite Hfold.
Qed.

(** ** The identity of the actor *)

Definition tkeeps {A} (m : TM A) : Prop :=
  ∀ t, b_sessionID (tx_b (m t).2) = b_sessionID (tx_b t).

Lemma tkeeps_ret {A} (a : A) : tkeeps (tret a).
Proof. by intros t. Qed.
Lemma tkeeps_throw {A} e : tkeeps (tthrow e : TM A).
Proof. by intros t. Qed.
Lemma tkeeps_get : tkeeps tget.
Proof. by intros t. Qed.
Lemma tkeeps_bind {A B} (m : TM A) (k : A → TM B) :
  tkeeps m → (∀ a, tkeeps (k a)) → tkeeps (tbind m k).
Proof.
  intros Hm Hk t. unfold tbind. specialize (Hm t). destruct (m t) as [[a|e] t']; [|done].
  by rewrite Hk.
Qed.
Lemma tkeeps_for {A} (l : list A) (f : A → TM unit) : (∀ a, tkeeps (f a)) → tkeeps (tfor l f).
Proof. intros Hf. induction l; [apply tkeeps_ret|by apply tkeeps_bind]. Qed.
Lemma tkeeps_access {A} (f : OorDB → result oerr A * OorDB) : tkeeps (taccess f).
Proof. intros t. unfold taccess. destruct (tx_faults t) as [|[]]; try done; by destruct (f (tx_db t)). Qed.
Lemma tkeeps_write f : tkeeps (twrite f).
Proof. apply tkeeps_access. Qed.
Lemma tkeeps_turn {A} (m : OM A) : keeps m → tkeeps (tturn m).
Proof. intros Hm t. unfold tturn. pose proof (Hm (tx_b t)) as [H _]. by destruct (m (tx_b t)). Qed.

#[local] Hint Resolve tkeeps_ret tkeeps_throw tkeeps_get tkeeps_bind tkeeps_for tkeeps_access
  tkeeps_write tkeeps_turn : tkeeps.

Lemma tkeeps_bindings env sid i ops : tkeeps (bind_inputs env sid i ops).
Proof.
  revert i. induction ops; intros i; cbn; [auto with tkeeps|].
  apply tkeeps_bind; [destruct (BindingKnown _ _)|]; auto with tkeeps.
Qed.
#[local] Hint Resolve tkeeps_bindings : tkeeps.

Lemma tkeeps_work env w : tkeeps (run_work cfg env w).
Proof.
  destruct w; cbn.
  - unfold recordReservations. destruct (negb _); auto with tkeeps.
  - unfold persistOutgoingPackage. destruct (negb _); [auto with tkeeps|].
    apply tkeeps_bind; [auto with tkeeps|]. intros b. destruct (UpsertPackageError env); auto with tkeeps.
  - unfold materializeIncoming. destruct (negb _); [auto with tkeeps|].
    destruct (HandleMaterialize env r); [|auto with tkeeps].
    apply tkeeps_bind; [auto with tkeeps|]. intros _. apply tkeeps_for. intros e.
    apply tkeeps_bind; [|intros _]; apply tkeeps_turn.
    + intros b. destruct e as [| | | | | | | | | | |[]|]; done.
    + unfold continueWith. auto with keeps.
Qed.
#[local] Hint Resolve tkeeps_work : tkeeps.

Lemma tkeeps_commit env : tkeeps (commit_body cfg env).
Proof.
  assert (tkeeps trecord) as Hrec by (intros t; unfold trecord; by destruct (snapshotRecord _)).
  unfold commit_body. apply tkeeps_bind; [done|]. intros gate. apply tkeeps_bind.
  { unfold resolveKeyDedup. destruct (_ || _); unfold GetDispatchAttemptByIdempotencyKey; auto with tkeeps. }
  intros [w|]; [apply tkeeps_turn; by intros b|]. apply tkeeps_bind; [auto with tkeeps|]. intros b.
  apply tkeeps_bind; [auto with tkeeps|]. intros _. apply tkeeps_bind; [done|]. intros rec.
  apply tkeeps_bind; [apply tkeeps_access|]. intros _. apply tkeeps_bind; [apply tkeeps_turn; by intros ?|].
  intros _. apply tkeeps_bind; [|intros _]; apply tkeeps_bind; auto with tkeeps; intros b'.
  - destruct (pendingTransport b'); [|destruct (negb _)]; auto with tkeeps.
  - destruct (pendingLedger b'); [|destruct (negb _)]; auto with tkeeps.
Qed.

Lemma commit_failed env b db e b' db' :
  commitAck cfg env b db = (Err e, b', db') → db' = db ∧ b_sessionID b' = b_sessionID b.
Proof.
  unfold commitAck. destruct (LeaseLost env); [by intros [= <- <- <-]|].
  pose proof (tkeeps_commit env (mkTx b db (Faults env))) as Hk.
  destruct (commit_body cfg env _) as [[[]|] t]; [case_bool_decide; [|done]|]; by intros [= <- <- <-].
Qed.

(** ** The commit *)

Definition record_of (d : Direction) (sid : Hash) (s : SessionState) : result error (Row * list Z) :=
  match d with
  | DirOutgoing => outgoingRegistryRecord sid s
  | DirIncoming => incomingRegistryRecord sid s
  end.

Lemma record_run b d s :
  b_direction b = Some d → b_fsm b = Some s → snapshotRecord b = record_of d (b_sessionID b) s.
Proof. unfold snapshotRecord. intros -> ->. by destruct d. Qed.

(** The tables after the transaction of a turn of [sid] that left the session in
    [s], with the row it stored and its messages. *)
Record committed (d : Direction) (sid : Hash) (s : SessionState) (r : Row) (data : list Z)
    (msgs : list ServerMsg) (notes : list LedgerMsg) (descs : list Received) (work : list Work)
    (db db' : OorDB) : Prop := mkCommitted {
  com_record : record_of d sid s = Ok (r, data);
  com_key : key_taken db sid r = false;
  com_rows : rows db' = upsert_row db sid r;
  com_attempts : attempts db ⊆ attempts db';
  com_bound : r_Direction r = DirOutgoing → r_IdempotencyKey r ≠ "" → data ≠ [] →
    attempts db' !! r_IdempotencyKey r = Some (sid, data);
  com_packages : packages db' = packages_after sid work (packages db);
  com_transport : transport db' = transport db ++ (pair sid <$> msgs);
  com_ledger : ledger_mailbox db' = ledger_mailbox db ++ notes;
  com_stored : stored db' = stored db ++ descs;
}.

(** Another session holds the key of this one. *)
Definition key_held (db : OorDB) (sid : Hash) (s : SessionState) (winner : Hash) : Prop :=
  winner ≠ sid ∧ stateIdempotencyKey s ≠ "" ∧
  ∃ data, attempts db !! stateIdempotencyKey s = Some (winner, data).

Lemma record_key d sid s r data :
  record_of d sid s = Ok (r, data) →
  r_Direction r = d ∧ (d = DirOutgoing → r_IdempotencyKey r = stateIdempotencyKey s).
Proof.
  intros H. destruct d; cbn in H; unfold outgoingRegistryRecord, incomingRegistryRecord in H; inv_ok.
  - split; [done|]. intros _. cbn. unfold NewOutgoingSnapshot, assignPSBTArtifacts in E.
    inv_ok. destruct s; inv_ok; done.
  - done.
Qed.

Lemma dedup_ok d sid s r data t t' winner :
  record_of d sid s = Ok (r, data) → b_sessionID (tx_b t) = sid →
  resolveKeyDedup (r, data) t = (Ok winner, t') →
  tx_b t' = tx_b t ∧ tx_db t' = tx_db t ∧
  match winner with Some w => d = DirOutgoing ∧ key_held (tx_db t) sid s w | None => True end.
Proof.
  intros Hr Hid H. apply record_key in Hr as [Hd Hk]. unfold resolveKeyDedup in H. cbn [fst] in H.
  destruct (negb _ || _) eqn:E; [by injection H as <- <-|].
  apply orb_false_iff in E as [E1%negb_false_iff%bool_decide_eq_true_1 E2%bool_decide_eq_false_1].
  apply tbind_ok in H as (attempt & t1 & H1 & H). apply taccess_ok in H1 as [Hb H1].
  injection H1 as Ha Hdb. apply tbind_ok in H as (b & t2 & [= <- <-] & H). injection H as <- <-.
  split; [done|]. split; [done|]. subst d. rewrite E1 in Hk. specialize (Hk eq_refl). rewrite Hk in *.
  subst attempt. destruct (attempts (tx_db t) !! _) as [[w x]|] eqn:Ex; [|done].
  rewrite Hb, Hid. destruct (w =? sid)%N eqn:Ew; [done|]. apply N.eqb_neq in Ew.
  split; [done|]. split; [done|]. split; [done|]. by exists x.
Qed.

Lemma commit_turn_ok env b db b' db' s d sid :
  handler_contract env → b_fsm b = Some s → b_direction b = Some d → b_sessionID b = sid →
  fits s (commitWork b) → dedupKeyWinner b = None →
  commitAck cfg env b db = (Ok tt, b', db') →
  (∃ w, dedupKeyWinner b' = Some w ∧ b_sessionID b' = sid ∧ d = DirOutgoing ∧ key_held db sid s w ∧
     db' = db) ∨
  (∃ s2 msgs notes descs r data,
     worked env sid s (commitWork b) s2 msgs notes descs ∧
     b' = set_committed (stage (set_fsm b s2) msgs notes [] (stored_notices descs) [] [])
            (status_terminal (r_Status r)) None ∧
     committed d sid s2 r data (pendingTransport b ++ msgs) (pendingLedger b ++ notes)
       descs (commitWork b) db db').
Proof.
  intros Hh Hs Hd Hid Hf Hw H. unfold commitAck in H. destruct (LeaseLost env); [done|].
  destruct (commit_body cfg env _) as [[[]|] t] eqn:E; [|done].
  case_bool_decide; [done|]. injection H as <- <-. unfold commit_body in E.
  apply tbind_ok in E as ([r0 data0] & t0 & E0 & E). unfold trecord in E0. cbn [tx_b] in E0.
  rewrite (record_run b d s), Hid in E0 by done.
  destruct (record_of d sid s) as [rec0|] eqn:Er0; [|done]. injection E0 as -> <-.
  apply tbind_ok in E as (winner & t1 & E1 & E).
  eapply dedup_ok in E1 as (Hb1 & Hdb1 & Hwin); [|done..]. cbn [tx_b tx_db] in Hb1, Hdb1, Hwin.
  destruct winner as [w|].
  { left. exists w. unfold tturn, omodify in E. injection E as <-. cbn. rewrite Hb1, Hdb1.
    by destruct Hwin. }
  right. apply tbind_ok in E as (b1 & t2 & [= <- <-] & E).
  apply tbind_ok in E as ([] & t3 & E3 & E). rewrite Hb1 in E3, E.
  eapply works_ok in E3 as (s2 & msgs & notes & descs & Hwk & Hb3 & Hfr & Hp); [|done|done|rewrite Hb1; exact Hs|rewrite Hb1; exact Hid].
  rewrite Hb1 in Hb3. rewrite Hdb1 in Hfr, Hp.
  apply tbind_ok in E as ([r data] & t4 & E4 & E). unfold trecord in E4. rewrite Hb3 in E4.
  rewrite (record_run _ d s2) in E4 by done. cbn in E4. rewrite Hid in E4.
  destruct (record_of d sid s2) as [rec|] eqn:Er; [|done]. injection E4 as -> <-.
  apply tbind_ok in E as ([] & t5 & E5 & E). rewrite Hid in E5.
  apply upsert_ok in E5 as (Hb5 & Hkey & Hrows & Hatt & Hbound & Hp5 & Ht5 & Hl5 & Hs5).
  apply tbind_ok in E as ([] & t6 & E6 & E). unfold tturn, omodify in E6. injection E6 as <-.
  apply tbind_ok in E as ([] & t7 & E7 & E8).
  apply tell_transport_ok in E7 as [Hb7 Hdb7]. apply tell_ledger_ok in E8 as [Hb8 Hdb8].
  cbn [tx_b tx_db] in *. rewrite Hb8, Hb7, Hb5, Hb3 in *. destruct Hfr as (Hf1 & Hf2 & Hf3 & Hf4 & Hf5).
  cbn in Hf1, Hf2, Hf3, Hf4, Hf5.
  exists s2, msgs, notes, descs, r, data. split; [done|]. split; [cbn; by rewrite Hw|].
  rewrite Hdb8, Hdb7. split; cbn; [done| | | |done|congruence| | |congruence].
  - rewrite <- Hkey. unfold key_taken. by rewrite Hf1.
  - rewrite Hrows. unfold upsert_row. by rewrite Hf1.
  - by rewrite <- Hf2.
  - by rewrite app_nil_r, Ht5, Hf3, Hid.
  - by rewrite app_nil_r, Hl5, Hf4.
Qed.

(** ** A transaction never runs out of follow-up events *)

Definition calm {A} (m : TM A) : Prop := ∀ t, (m t).1 ≠ Err ErrFuel.

Lemma calm_ret {A} (a : A) : calm (tret a).
Proof. by intros t. Qed.
Lemma calm_other {A} e : calm (tthrow (ErrOther e) : TM A).
Proof. by intros t. Qed.
Lemma calm_get : calm tget.
Proof. by intros t. Qed.
Lemma calm_bind {A B} (m : TM A) (k : A → TM B) : calm m → (∀ a, calm (k a)) → calm (tbind m k).
Proof.
  intros Hm Hk t. unfold tbind. specialize (Hm t). destruct (m t) as [[a|e] t']; [apply Hk|].
  cbn in *. congruence.
Qed.
Lemma calm_for {A} (l : list A) (f : A → TM unit) : (∀ a, calm (f a)) → calm (tfor l f).
Proof. intros Hf. induction l; [apply calm_ret|by apply calm_bind]. Qed.
Lemma calm_access {A} (f : OorDB → result oerr A * OorDB) :
  (∀ db, (f db).1 ≠ Err ErrFuel) → calm (taccess f).
Proof.
  intros Hf t. unfold taccess. destruct (tx_faults t) as [|[]]; try done;
    pose proof (Hf (tx_db t)) as H; by destruct (f (tx_db t)).
Qed.
Lemma calm_write f : calm (twrite f).
Proof. by apply calm_access. Qed.

#[local] Hint Resolve calm_ret calm_other calm_get calm_bind calm_for calm_write : tkeeps.

Lemma calm_bindings env sid i ops : calm (bind_inputs env sid i ops).
Proof.
  revert i. induction ops; intros i; cbn; [auto with tkeeps|].
  apply calm_bind; [destruct (BindingKnown _ _)|]; auto with tkeeps.
Qed.
#[local] Hint Resolve calm_bindings : tkeeps.

Lemma works_calm env s w t :
  handler_contract env → fits s w → b_fsm (tx_b t) = Some s →
  (tfor w (run_work cfg env) t).1 ≠ Err ErrFuel.
Proof.
  intros Hh Hf Hs. destruct w as [|w [|]]; [done| |by destruct w]. cbn [tfor].
  assert ((run_work cfg env w t).1 ≠ Err ErrFuel) as H.
  2:{ unfold tbind. destruct (run_work cfg env w t) as [[[]|e] t']; [done|]. cbn in *. congruence. }
  destruct w as [inputs|fs|r]; cbn [run_work].
  - unfold recordReservations. destruct (negb _); [done|]. apply calm_bind; auto with tkeeps.
  - unfold persistOutgoingPackage. destruct (negb _); [done|]. apply calm_bind; [auto with tkeeps|].
    intros b. destruct (UpsertPackageError env); auto with tkeeps.
  - destruct Hf as [n ->]. destruct Hh as (_ & _ & Hm & Hme). unfold materializeIncoming.
    destruct (negb _); [done|]. destruct (HandleMaterialize env r) as [events|e] eqn:E.
    2:{ cbn. intros [= ->]. by apply (Hme r). }
    apply Hm in E as [descs ->]. unfold tbind at 1.
    pose proof (calm_write (with_stored (materialized [IncomingHandledEvent descs])) t) as Hw.
    destruct (twrite _ t) as [[[]|e] t1] eqn:Et; [|cbn in *; congruence].
    apply twrite_ok in Et as [Hb _]. cbn [tfor]. unfold tbind, tturn at 1. rewrite Hb. cbn.
    unfold tturn. cbn [tx_b]. rewrite (handled_run env n); [done|]. by destruct descs.
Qed.

Lemma record_calm {A} (k : Row * list Z → TM A) t :
  (∀ r, (k r t).1 ≠ Err ErrFuel) → (tbind trecord k t).1 ≠ Err ErrFuel.
Proof. intros Hk. unfold tbind, trecord. by destruct (snapshotRecord (tx_b t)). Qed.

Lemma upsert_calm sid rec : calm (UpsertSession sid rec).
Proof.
  apply calm_access. intros db. destruct rec as [r data]. destruct (key_taken db sid r); [done|].
  destruct (_ && _ && _); [|done]. unfold ensureOORDispatchAttempt. cbn.
  destruct (insert_attempt _ _ _ _ !! _) as [[]|]; [|done]. by destruct (_ && _).
Qed.

Lemma tells_calm : calm (tbind (tellTransport cfg) (λ _, tellLedger cfg)).
Proof.
  apply calm_bind; [|intros _]; apply calm_bind; auto with tkeeps; intros b.
  - destruct (pendingTransport b); [|destruct (negb _)]; auto with tkeeps.
  - destruct (pendingLedger b); [|destruct (negb _)]; auto with tkeeps.
Qed.

Lemma dedup_calm rec t :
  (resolveKeyDedup rec t).1 ≠ Err ErrFuel ∧ tx_b (resolveKeyDedup rec t).2 = tx_b t.
Proof.
  unfold resolveKeyDedup. destruct (_ || _); [done|].
  unfold tbind, GetDispatchAttemptByIdempotencyKey, taccess. by destruct (tx_faults t) as [|[]].
Qed.

Lemma commit_calm env b db s :
  handler_contract env → b_fsm b = Some s → fits s (commitWork b) →
  (commitAck cfg env b db).1.1 ≠ Err ErrFuel.
Proof.
  intros Hh Hs Hf. unfold commitAck. destruct (LeaseLost env); [done|].
  enough ((commit_body cfg env (mkTx b db (Faults env))).1 ≠ Err ErrFuel) as H.
  { destruct (commit_body _ _ _) as [[[]|e] t]; [by case_bool_decide|]. cbn in *. congruence. }
  unfold commit_body. apply record_calm. intros gate. unfold tbind at 1.
  pose proof (dedup_calm gate (mkTx b db (Faults env))) as [Hd Hb].
  destruct (resolveKeyDedup gate _) as [[[w|]|e] t]; [done| |cbn in *; congruence].
  cbn [snd tx_b] in Hb. unfold tbind at 1, tget at 1. rewrite Hb. unfold tbind at 1.
  pose proof (works_calm env s (commitWork b) t Hh Hf) as Hw. rewrite Hb in Hw. specialize (Hw Hs).
  destruct (tfor (commitWork b) (run_work cfg env) t) as [[[]|e] t1]; [|cbn in *; congruence].
  apply record_calm. intros rec. apply calm_bind; [apply upsert_calm|]. intros _.
  apply calm_bind; [by intros ?|]. intros _. apply tells_calm.
Qed.

End Commits.

Arguments com_record {_ _ _ _ _ _ _ _ _ _ _ _ _} _.
Arguments com_key {_ _ _ _ _ _ _ _ _ _ _ _ _} _.
Arguments com_rows {_ _ _ _ _ _ _ _ _ _ _ _ _} _.
Arguments com_attempts {_ _ _ _ _ _ _ _ _ _ _ _ _} _.
Arguments com_bound {_ _ _ _ _ _ _ _ _ _ _ _ _} _.
Arguments com_packages {_ _ _ _ _ _ _ _ _ _ _ _ _} _.
Arguments com_transport {_ _ _ _ _ _ _ _ _ _ _ _ _} _.
Arguments com_ledger {_ _ _ _ _ _ _ _ _ _ _ _ _} _.
Arguments com_stored {_ _ _ _ _ _ _ _ _ _ _ _ _} _.
