(* ===== verification/OorResume.v ===== *)
(** * Out-of-round sessions: what a restart brings back

    A session is stored as a snapshot and loaded from it.  What comes back is the
    session that was stored, but for the recipients of a transfer that waits for
    the operator, which are not stored, and the parts of its inputs that are
    derived again. *)

From S2P Require Import Prelude RecoveryProof Ledger OorReplay OorInputs OorFsm OorActor OorSafety OorTurn OorCommit.
Local Open Scope Z_scope.

Section Resume.
Context {T : OorTx} {TL : OorTxLaws} (cfg : Config).

Lemma map_ok_Forall2 {A B} (f : A → result error B) l l' :
  map_ok f l = Ok l' → Forall2 (λ x y, f x = Ok y) l l'.
Proof. revert l'. induction l as [|x l IH]; intros l' H; cbn in H; inv_ok; constructor; auto. Qed.

Lemma Forall2_map_ok {A B} (f : A → result error B) l l' :
  Forall2 (λ x y, f x = Ok y) l l' → map_ok f l = Ok l'.
Proof. induction 1 as [|x y l l' Hx _ IH]; cbn; [done|]. by rewrite Hx, IH. Qed.

Lemma packets_restored pkts raws :
  serializePSBTSlice pkts = Ok raws → parsePSBTSlice raws = Ok pkts.
Proof.
  unfold serializePSBTSlice, parsePSBTSlice. intros H. inv_ok. apply map_ok_Forall2 in H.
  rewrite <- (Forall2_length _ _ _ H), G. apply Forall2_map_ok, Forall2_flip.
  eapply Forall2_impl; [exact H|]. intros p raw Hp. by apply parse_packet.
Qed.

Lemma input_restored i snap i' :
  ToSnapshot i = Ok snap → TransferInputFromSnapshot snap = Ok i' → claim i' = claim i.
Proof.
  unfold ToSnapshot, TransferInputFromSnapshot. intros Hs Hr. inv_ok.
  match goal with E : Validate i = Ok ?x |- _ => apply Validate_ok in E as (Hv & He & _); rename x into j end.
  destruct (v_OperatorKey (VTXO j)); inv_ok. cbn [claim]. unfold claim. cbn. by rewrite He, Hv.
Qed.

Lemma inputs_restored ins snaps ins' :
  snapshotTransferInputs ins = Ok snaps → map_ok TransferInputFromSnapshot snaps = Ok ins' →
  claim <$> ins' = claim <$> ins.
Proof.
  unfold snapshotTransferInputs. intros H H'. inv_ok. clear G.
  apply map_ok_Forall2 in H. apply map_ok_Forall2 in H'.
  revert ins' H'. induction H as [|i snap ins snaps Hi _ IH]; intros ins' H'.
  - by inversion H'.
  - inversion H' as [|? i' ? ins'' Hs' Hl']; subst.
    by rewrite !fmap_cons, (input_restored _ _ _ Hi Hs'), (IH _ Hl').
Qed.

(** What is loaded of a stored session. *)
Definition resumed (s s' : SessionState) : Prop :=
  match s with
  | AwaitingSubmitAccepted su => ∃ inputs, claim <$> inputs = claim <$> su_TransferInputs su ∧
      s' = AwaitingSubmitAccepted (mkSubmitting (su_ArkPSBT su) (su_CheckpointPSBTs su) inputs []
        (su_IdempotencyKey su) (su_DispatchRequestData su) (su_RetryAfter su) (su_RetryReason su)
        (FirstRejectUnixNanos su))
  | AwaitingFinalizeAccepted fs => ∃ inputs, claim <$> inputs = claim <$> fs_TransferInputs fs ∧
      s' = AwaitingFinalizeAccepted (mkFinalizing (fs_SessionID fs) (fs_ArkPSBT fs)
        (FinalCheckpointPSBTs fs) inputs (fs_IdempotencyKey fs))
  | _ => s' = s
  end.

Lemma artifacts_restored sid phase key data after reason first ark cps ins snap r :
  assignPSBTArtifacts sid phase key data after reason first ark cps ins = Ok snap →
  restoreArtifacts snap = Ok r →
  snap = mkOutgoingSnapshot 6 sid phase (os_ArkPSBT snap) (os_CheckpointPSBTs snap)
    (TransferInputSnapshots snap) after reason false key data first ∧
  ∃ ins', r = (ark, cps, ins') ∧ claim <$> ins' = claim <$> ins ∧ TxHash ark = sid.
Proof.
  unfold assignPSBTArtifacts, restoreArtifacts. intros Hs Hr. inv_ok. cbn in *. split; [done|].
  apply parse_packet in E. rewrite E in Hr. rewrite (packets_restored _ _ E0) in Hr. inv_ok.
  unfold requireSessionIDMatchesArk, restoreTransferInputs in *. cbn in *. inv_ok.
  eexists. split; [done|]. split; [by eapply inputs_restored|by apply N.eqb_eq].
Qed.

Lemma outgoing_restored sid s snap snap' s' :
  at_rest sid DirOutgoing s → NewOutgoingSnapshot sid s = Ok snap →
  decodeOutgoingSnapshot snap = Ok snap' → OutgoingStateFromSnapshot snap' = Ok s' → resumed s s'.
Proof.
  intros Hr Hn Hd Ho. assert (snap' = snap) as -> by (unfold decodeOutgoingSnapshot in Hd; by inv_ok).
  unfold NewOutgoingSnapshot in Hn. inv_ok. unfold OutgoingStateFromSnapshot in Ho. inv_ok.
  destruct s as [| |su| |fs| |k|rs k p| | | | |]; try done; cbn [resumed].
  - assert (os_Phase snap = OutgoingPhaseSubmitSent) as Hp
      by (unfold assignPSBTArtifacts in Hn; by inv_ok). rewrite Hp in Ho. inv_ok.
    destruct (artifacts_restored _ _ _ _ _ _ _ _ _ _ _ _ Hn E) as (Hsn & ins' & -> & Hc & _).
    inv_ok. exists ins'. split; [done|]. by rewrite Hsn.
  - assert (os_Phase snap = OutgoingPhaseFinalizeSent) as Hp
      by (unfold assignPSBTArtifacts in Hn; by inv_ok). rewrite Hp in Ho. inv_ok.
    destruct (artifacts_restored _ _ _ _ _ _ _ _ _ _ _ _ Hn E) as (Hsn & ins' & -> & Hc & _).
    inv_ok. exists ins'. split; [done|]. rewrite Hsn. by destruct Hr as [-> _].
  - inv_ok. cbn in Ho. by inv_ok.
  - inv_ok. cbn in Ho. by inv_ok.
Qed.

Lemma incoming_restored sid s limit snap snap' s' :
  at_rest sid DirIncoming s → NewIncomingSnapshot sid s = Ok snap →
  decodeIncomingSnapshotWithLimits limit snap = Ok snap' →
  IncomingStateFromSnapshot snap' = Ok s' → resumed s s'.
Proof.
  intros Hr Hn Hd Ho.
  assert (snap' = snap) as -> by (unfold decodeIncomingSnapshotWithLimits in Hd; by inv_ok).
  unfold NewIncomingSnapshot in Hn. inv_ok. unfold IncomingStateFromSnapshot in Ho. inv_ok.
  destruct s as [| | | | | | |rs k p| |rr|rn|x|]; try done; cbn [resumed].
  - inv_ok. cbn in Ho. inv_ok. by destruct Hr as [-> ->].
  - inv_ok. cbn in Ho. inv_ok. destruct Hr as [<- _]. by destruct rr.
  - inv_ok. cbn in Ho. apply parse_packet in E. rewrite E in Ho. rewrite (packets_restored _ _ E0) in Ho.
    inv_ok. destruct Hr as [<- _]. by destruct rn.
  - inv_ok. cbn in Ho. by inv_ok.
Qed.

Lemma record_restored sid d s r data s' :
  at_rest sid d s → record_of d sid s = Ok (r, data) → sessionFromRecord cfg r = Ok s' → resumed s s'.
Proof.
  intros Hr Hrec Hs. unfold sessionFromRecord in Hs.
  destruct d; cbn in Hrec; unfold outgoingRegistryRecord, incomingRegistryRecord in Hrec; inv_ok;
    cbn in Hs; inv_ok.
  - by eapply outgoing_restored.
  - by eapply incoming_restored.
Qed.

Lemma resumed_at_rest sid d s s' : at_rest sid d s → resumed s s' → at_rest sid d s'.
Proof. destruct d, s; try done; cbn; try (by intros H ->); by intros H (ins & _ & ->). Qed.

(** ** What can be loaded *)

(** An input with the wallet's key, whose scripts can be derived. *)
Definition restorable_input (i : TransferInput) : Prop :=
  path_known (CustomSpend i) ∧ ∃ client, ClientKey (VTXO i) = Some client ∧
  ∀ operator, v_OperatorKey (VTXO i) = Some operator →
    (∃ tap, VTXOTapScript client operator (RelativeExpiry (VTXO i)) = Ok tap) ∧
    (∃ script, VTXOPkScript client operator (RelativeExpiry (VTXO i)) = Ok script).

(** A state within the limits of the decoding. *)
Definition restorable (s : SessionState) : Prop :=
  match s with
  | AwaitingSubmitAccepted s =>
      len (su_CheckpointPSBTs s) ≤ DefaultMaxMailboxItems ∧
      len (su_TransferInputs s) ≤ DefaultMaxMailboxItems ∧
      0 ≤ su_RetryAfter s ∧ 0 ≤ FirstRejectUnixNanos s ∧ Forall restorable_input (su_TransferInputs s)
  | AwaitingFinalizeAccepted s =>
      len (FinalCheckpointPSBTs s) ≤ DefaultMaxMailboxItems ∧
      len (fs_TransferInputs s) ≤ DefaultMaxMailboxItems ∧ Forall restorable_input (fs_TransferInputs s)
  | ReceiveNotified s =>
      len (rn_FinalCheckpointPSBTs s) ≤ MaxMailboxItems cfg ∧
      len (rn_AncestorPackages s) ≤ MaxMailboxItems cfg ∧ len (rn_Recipients s) ≤ MaxMailboxItems cfg
  | _ => 0 ≤ MaxMailboxItems cfg
  end.

Context {KL : KeyLaws}.

Lemma input_restores i snap :
  restorable_input i → ToSnapshot i = Ok snap → is_ok (TransferInputFromSnapshot snap) = true.
Proof.
  intros (Hp & client & Hc & Hscripts) Hs.
  assert (∃ i' operator, Validate i = Ok i' ∧ v_OperatorKey (VTXO i) = Some operator) as (i' & operator & Hv & Ho).
  { unfold ToSnapshot in Hs. destruct (Validate i) as [i'|] eqn:Ev; [|done].
    apply Validate_ok in Ev as Hv. rewrite (proj1 Hv) in Hs.
    destruct (v_OperatorKey (VTXO i)) as [o|]; [by exists i', o|done]. }
  destruct (Hscripts operator Ho) as [[tap Ht] [script Hsc]].
  by rewrite (snapshot_restores i i' snap client operator tap script).
Qed.

Lemma inputs_restore ins snaps :
  Forall restorable_input ins → snapshotTransferInputs ins = Ok snaps →
  ∃ ins', map_ok TransferInputFromSnapshot snaps = Ok ins'.
Proof.
  unfold snapshotTransferInputs. intros Hf H. inv_ok. clear G. apply map_ok_Forall2 in H.
  induction H as [|i snap ins snaps Hi _ IH]; [by exists []|]. inversion Hf; subst.
  destruct IH as [ins' Hins]; [done|]. cbn. pose proof (input_restores i snap) as Hr.
  destruct (TransferInputFromSnapshot snap) as [i'|]; [|by discriminate Hr].
  exists (i' :: ins'). by rewrite Hins.
Qed.

Lemma slice_length pkts raws : serializePSBTSlice pkts = Ok raws → len raws = len pkts.
Proof.
  unfold serializePSBTSlice. intros H. inv_ok. apply map_ok_Forall2, Forall2_length in H.
  unfold len. by rewrite H.
Qed.

Lemma snaps_length ins snaps :
  snapshotTransferInputs ins = Ok snaps → len snaps = len ins ∧ snaps ≠ [].
Proof.
  unfold snapshotTransferInputs. intros H. inv_ok. apply map_ok_Forall2, Forall2_length in H.
  unfold len. split; [by rewrite H|]. intros ->. by destruct ins.
Qed.

(** A snapshot with packets is decoded and its packets and inputs come back. *)
Lemma artifacts_restore sid phase key data after reason first ark cps ins snap :
  assignPSBTArtifacts sid phase key data after reason first ark cps ins = Ok snap →
  TxHash ark = sid → len cps ≤ DefaultMaxMailboxItems → len ins ≤ DefaultMaxMailboxItems →
  0 ≤ after → 0 ≤ first → Forall restorable_input ins →
  decodeOutgoingSnapshot snap = Ok snap ∧ ∃ r, restoreArtifacts snap = Ok r.
Proof.
  intros H Htx Hc Hi Ha Hf Hr. unfold assignPSBTArtifacts in H. inv_ok.
  pose proof (slice_length _ _ E0) as Hl. destruct (snaps_length _ _ E1) as [Hsl Hne]. split.
  - unfold decodeOutgoingSnapshot. cbn. rewrite Hl, Hsl, !(proj2 (Z.leb_le _ _)) by done. done.
  - unfold restoreArtifacts. cbn. rewrite (parse_packet _ _ E), (packets_restored _ _ E0).
    unfold requireSessionIDMatchesArk. rewrite N.eqb_refl. cbn.
    destruct (inputs_restore _ _ Hr E1) as [ins' Hins]. exists (ark, cps, ins').
    unfold restoreTransferInputs. cbn. rewrite bool_decide_eq_false_2 by by destruct a1. cbn.
    by rewrite Hins.
Qed.

Lemma record_restores sid d s r data :
  at_rest sid d s → restorable s → record_of d sid s = Ok (r, data) →
  is_ok (sessionFromRecord cfg r) = true.
Proof.
  intros Hr Hs Hrec. unfold sessionFromRecord.
  destruct d; cbn in Hrec; unfold outgoingRegistryRecord, incomingRegistryRecord in Hrec; inv_ok; cbn.
  - unfold NewOutgoingSnapshot in E. inv_ok. destruct s as [| |su| |fs| |k|rs k p| | | | |]; try done.
    + destruct Hs as (? & ? & ? & ? & ?).
      edestruct (artifacts_restore _ _ _ _ _ _ _ _ _ _ _ E) as [Hd [x Hx]]; [done..|]. rewrite Hd.
      unfold assignPSBTArtifacts in E. inv_ok. unfold OutgoingStateFromSnapshot. cbn in *.
      rewrite G. cbn. rewrite Hx. by destruct x as [[]].
    + destruct Hs as (? & ? & ?), Hr as [_ Htx].
      edestruct (artifacts_restore _ _ _ _ _ _ _ _ _ _ _ E) as [Hd [x Hx]]; [done..|]. rewrite Hd.
      unfold assignPSBTArtifacts in E. inv_ok. unfold OutgoingStateFromSnapshot. cbn in *.
      rewrite G. cbn. rewrite Hx. by destruct x as [[]].
    + inv_ok. assert (∀ A, (len (@nil A) <=? DefaultMaxMailboxItems) = true) as Hz by done.
      unfold decodeOutgoingSnapshot, OutgoingStateFromSnapshot. cbn. rewrite !Hz. cbn. by rewrite G.
    + inv_ok. assert (∀ A, (len (@nil A) <=? DefaultMaxMailboxItems) = true) as Hz by done.
      unfold decodeOutgoingSnapshot, OutgoingStateFromSnapshot. cbn. rewrite !Hz. cbn. by rewrite G.
  - unfold NewIncomingSnapshot in E. inv_ok.
    assert (∀ A x, 0 ≤ x → (len (@nil A) <=? x) = true) as Hz by (intros; by apply Z.leb_le).
    destruct s as [| | | | | | |rs k p| |rr|rn|x|]; try done; inv_ok; cbn in Hs.
    all: unfold decodeIncomingSnapshotWithLimits, IncomingStateFromSnapshot; cbn.
    1,2,4: rewrite !Hz by done; cbn; by rewrite G.
    destruct Hs as (? & ? & ?), Hr as (? & Htx & _). rewrite (slice_length _ _ E1).
    rewrite !(proj2 (Z.leb_le (len _) _)) by done. cbn. rewrite G. cbn.
    rewrite (parse_packet _ _ E0), (packets_restored _ _ E1). unfold requireSessionIDMatchesArk.
    by rewrite Htx, N.eqb_refl.
Qed.

End Resume.
