(* ===== verification/OorWorld.v ===== *)
(** * Out-of-round sessions: the invariant of the tables and the running actors

    A world is the tables and the actors that run.  Actors are started from the
    tables, take turns on messages, and may stop or crash at any time.  Every stored
    session rests in a state in which it waits for the operator, or is finished, and
    the mailboxes, the packages and the dispatch attempts hold the evidence of how it
    came there. *)

From S2P Require Import Prelude RecoveryProof Ledger OorReplay OorInputs OorFsm OorActor OorSafety OorTurn OorCommit OorResume.
Local Open Scope Z_scope.

Section World.
Context {T : OorTx} {TL : OorTxLaws} (cfg : Config).

(** ** What the tables say of a session *)

(** The messages of a session to the operator, and what the ledger was told of its
    transfer. *)
Definition mail (db : OorDB) (sid : Hash) : list ServerMsg :=
  omap (λ p, if (p.1 =? sid)%N then Some p.2 else None) (transport db).
Definition is_sent (sid : Hash) (m : LedgerMsg) : Prop :=
  match m with MsgVTXOSent x => vs_SessionID x = sid | _ => False end.
#[export] Instance is_sent_dec sid m : Decision (is_sent sid m).
Proof. destruct m; cbn; apply _. Defined.
Definition sent_notes (db : OorDB) (sid : Hash) : list LedgerMsg :=
  filter (is_sent sid) (ledger_mailbox db).

Definition is_finalize (m : ServerMsg) : Prop :=
  match m with FinalizePackage _ _ => True | _ => False end.
#[export] Instance is_finalize_dec m : Decision (is_finalize m).
Proof. destruct m; cbn; apply _. Defined.
Definition is_ack_msg (m : ServerMsg) : Prop :=
  match m with IncomingAck _ => True | _ => False end.
#[export] Instance is_ack_msg_dec m : Decision (is_ack_msg m).
Proof. destruct m; cbn; apply _. Defined.
Definition no_finalize (m : list ServerMsg) : Prop := Forall (λ x, ¬ is_finalize x) m.
Definition no_ack (m : list ServerMsg) : Prop := Forall (λ x, ¬ is_ack_msg x) m.

(** The package of these inputs was submitted. *)
Definition submitted (m : list ServerMsg) (sid : Hash) (inputs : list TransferInput) : Prop :=
  ∃ ark cps ins recipients, SubmitPackage ark cps ins recipients ∈ m ∧ TxHash ark = sid ∧
    claim <$> ins = claim <$> inputs.

(** What the ledger was told: nothing, or once the total of a package that was
    submitted and finalized. *)
Definition sent_ok (m : list ServerMsg) (notes : list LedgerMsg) (sid : Hash) : Prop :=
  notes = [] ∨ ∃ inputs ark final, submitted m sid inputs ∧ TxHash ark = sid ∧
    FinalizePackage ark final ∈ m ∧ notes = [sent_msg sid (sent_total inputs)].

Definition holds_key (db : OorDB) (sid : Hash) (key : string) : Prop :=
  key ≠ "" → ∃ data, attempts db !! key = Some (sid, data).

Definition evidence (db : OorDB) (sid : Hash) (d : Direction) (s : SessionState) : Prop :=
  match d with
  | DirOutgoing =>
      holds_key db sid (stateIdempotencyKey s) ∧ no_ack (mail db sid) ∧
      match s with
      | AwaitingSubmitAccepted s =>
          submitted (mail db sid) sid (su_TransferInputs s) ∧
          (su_IdempotencyKey s ≠ "" →
             attempts db !! su_IdempotencyKey s = Some (sid, su_DispatchRequestData s)) ∧
          no_finalize (mail db sid) ∧ sent_notes db sid = []
      | AwaitingFinalizeAccepted s =>
          submitted (mail db sid) sid (fs_TransferInputs s) ∧
          FinalizePackage (fs_ArkPSBT s) (FinalCheckpointPSBTs s) ∈ mail db sid ∧
          sent_notes db sid = []
      | Completed _ =>
          ∃ inputs ark final, submitted (mail db sid) sid inputs ∧ TxHash ark = sid ∧
            FinalizePackage ark final ∈ mail db sid ∧
            (PackageStore cfg = true → packages db !! sid = Some (ark, final)) ∧
            sent_notes db sid = sent_note cfg sid inputs
      | Failed _ _ prePONR =>
          (prePONR = true → no_finalize (mail db sid)) ∧ sent_notes db sid = []
      | _ => False
      end
  | DirIncoming =>
      sent_ok (mail db sid) (sent_notes db sid) sid ∧
      match s with
      | ReceiveCompleted => filter is_ack_msg (mail db sid) = [IncomingAck sid]
      | _ => no_ack (mail db sid)
      end
  end.

(** A session may begin. *)
Definition ready (db : OorDB) (sid : Hash) (d : Direction) : Prop :=
  no_ack (mail db sid) ∧
  match d with
  | DirOutgoing => no_finalize (mail db sid) ∧ sent_notes db sid = []
  | DirIncoming => sent_ok (mail db sid) (sent_notes db sid) sid
  end.

(** ** Commits and the tables *)

Lemma filter_none {A} (P : A → Prop) `{∀ x, Decision (P x)} l :
  Forall (λ x, ¬ P x) l → filter P l = [].
Proof. induction 1; [done|]. by rewrite filter_cons_False. Qed.

Lemma omap_fmap_pair sid sid' (msgs : list ServerMsg) :
  omap (λ p, if (p.1 =? sid)%N then Some p.2 else None) (pair sid' <$> msgs) =
  if (sid' =? sid)%N then msgs else [].
Proof. induction msgs as [|m msgs IH]; cbn; destruct (sid' =? sid)%N; by rewrite ?IH. Qed.

Section Committed.
Context {d : Direction} {sid : Hash} {s : SessionState} {r : Row} {data : list Z}
  {msgs : list ServerMsg} {notes : list LedgerMsg} {descs : list Received} {work : list Work}
  {db db' : OorDB} (C : committed cfg d sid s r data msgs notes descs work db db').

Lemma committed_mail : mail db' sid = mail db sid ++ msgs.
Proof. unfold mail. by rewrite (com_transport C), omap_app, omap_fmap_pair, N.eqb_refl. Qed.

Lemma committed_mail_other sid' : sid' ≠ sid → mail db' sid' = mail db sid'.
Proof.
  intros Hne. unfold mail. rewrite (com_transport C), omap_app, omap_fmap_pair.
  rewrite (proj2 (N.eqb_neq _ _)) by done. apply app_nil_r.
Qed.

Lemma committed_notes sid' : sent_notes db' sid' = sent_notes db sid' ++ filter (is_sent sid') notes.
Proof. unfold sent_notes. by rewrite (com_ledger C), filter_app. Qed.

Lemma committed_holds sid' key : holds_key db sid' key → holds_key db' sid' key.
Proof.
  intros H Hk. destruct (H Hk) as [x Hx]. exists x.
  eapply lookup_weaken; [exact Hx|apply (com_attempts C)].
Qed.

Lemma committed_attempt key x : attempts db !! key = Some x → attempts db' !! key = Some x.
Proof. intros H. eapply lookup_weaken; [exact H|apply (com_attempts C)]. Qed.

(** The evidence of another session is not touched. *)
Lemma committed_other sid' d' s' :
  sid' ≠ sid → Forall (λ m, ¬ is_sent sid' m) notes →
  evidence db sid' d' s' → evidence db' sid' d' s'.
Proof.
  intros Hne Hn. unfold evidence, no_ack. rewrite committed_mail_other by done.
  rewrite committed_notes, (filter_none _ notes), app_nil_r by done.
  destruct d'; [|done]. intros (Hk & Ha & Hs). split; [by apply committed_holds|]. split; [done|].
  destruct s'; try done.
  - destruct Hs as (? & Hkey & ?). split; [done|]. split; [|done].
    intros Hne'. by apply committed_attempt, Hkey.
  - destruct Hs as (inputs & ark & final & ? & ? & ? & Hp & ?). exists inputs, ark, final.
    split_and!; [done..| |done]. intros Hps. rewrite (com_packages C).
    rewrite <- Hp by done. unfold packages_after. destruct work as [|[] []]; try done.
    rewrite Hps. by rewrite lookup_insert_ne.
Qed.

End Committed.

(** ** Moves and the evidence *)

(** Messages of a turn that are neither a finalize nor an acknowledgement. *)
Definition plain_msgs (m : list ServerMsg) : Prop := no_ack m ∧ no_finalize m.

Lemma submitted_app m m' sid inputs : submitted m sid inputs → submitted (m ++ m') sid inputs.
Proof.
  intros (ark & cps & ins & rc & Hin & H). exists ark, cps, ins, rc. split; [|done].
  apply elem_of_app. by left.
Qed.

Lemma sent_ok_app m m' notes sid : sent_ok m notes sid → sent_ok (m ++ m') notes sid.
Proof.
  intros [->|(ins & ark & final & Hs & Htx & Hin & ->)]; [by left|right].
  exists ins, ark, final. split_and!; [by apply submitted_app|done| |done]. apply elem_of_app. by left.
Qed.

Lemma evidence_more db db' sid d s m :
  mail db' sid = mail db sid ++ m → plain_msgs m → sent_notes db' sid = sent_notes db sid →
  attempts db ⊆ attempts db' → packages db' = packages db →
  evidence db sid d s → evidence db' sid d s.
Proof.
  intros Hm [Ha Hf] Hn Hatt Hp. unfold evidence, no_ack, no_finalize in *. rewrite Hm, Hn, Hp. destruct d.
  - intros (Hk & Hna & Hs). split.
    { intros Hne. destruct (Hk Hne) as [x Hx]. exists x. by eapply lookup_weaken. }
    split; [by apply Forall_app|]. destruct s; try done.
    + destruct Hs as (Hsub & Hkey & Hnf & ?). split_and!; [by apply submitted_app| | |done].
      * intros Hne. eapply lookup_weaken; [by apply Hkey|done].
      * by apply Forall_app.
    + destruct Hs as (Hsub & Hin & ?). split_and!; [by apply submitted_app| |done].
      apply elem_of_app. by left.
    + destruct Hs as (inputs & ark & final & Hsub & ? & Hin & ?). exists inputs, ark, final.
      split_and!; [by apply submitted_app|done| |naive_solver..]. apply elem_of_app. by left.
    + destruct Hs as [Hnf ?]. split; [|done]. intros Hpre. apply Forall_app. auto.
  - intros [? Hs]. split; [by apply sent_ok_app|]. destruct s; try by apply Forall_app.
    rewrite filter_app, Hs, (filter_none _ m) by done. done.
Qed.

Lemma no_ack_snoc m x : no_ack m → ¬ is_ack_msg x → no_ack (m ++ [x]).
Proof. intros Hm Hx. apply Forall_app. by split; [|apply Forall_singleton]. Qed.

(** Effects that say nothing new of the session. *)
Definition ordinary (f : Effects) : Prop :=
  plain_msgs (f_msgs f) ∧ f_ledger f = [] ∧ f_work f = [].

Lemma nothing_ordinary cs : ordinary (mkEffects [] [] [] cs).
Proof. split; [split; constructor|done]. Qed.
Lemma message_ordinary m : ¬ is_ack_msg m → ¬ is_finalize m → ordinary (only_msgs [m]).
Proof. intros Ha Hf. split; [|done]. by split; apply Forall_singleton. Qed.

(** A committed turn of the session [sid] from [s'], with its effects. *)
Record turn (env : Answers) (sid : Hash) (d : Direction) (db : OorDB) (s' : SessionState)
    (f : Effects) (s2 : SessionState) (db' : OorDB) : Prop := mkTurnDone {
  turn_done : ∃ msgs notes descs r data, worked cfg env sid s' (f_work f) s2 msgs notes descs ∧
    committed cfg d sid s2 r data (f_msgs f ++ msgs) (f_ledger f ++ notes) descs (f_work f)
      db db';
}.

Lemma ordinary_turn env sid d db s' f s2 db' :
  turn env sid d db s' f s2 db' → ordinary f → evidence db sid d s' →
  s2 = s' ∧ evidence db' sid d s2.
Proof.
  intros [(msgs & notes & descs & r & data & Hw & C)] (Hm & Hl & Hwk) He. rewrite Hwk, Hl in *.
  inversion Hw; subst. split; [done|]. eapply (evidence_more db); try done.
  - rewrite (committed_mail C). by rewrite app_nil_r.
  - rewrite (committed_notes C). apply app_nil_r.
  - exact (com_attempts C).
  - exact (com_packages C).
Qed.

Lemma counted_bound s n sid :
  at_rest sid DirIncoming s → counted s n → 0 ≤ n ≤ maxMetadataRetries.
Proof.
  intros Hr [->|(s' & -> & Hlt & ->)]; [done|]. destruct Hr as (_ & _ & Hb).
  unfold maxMetadataRetries, uint32 in *. rewrite Z.mod_small; lia.
Qed.

Lemma cosigned_turn env sid db su fs s2 db' cs :
  let f := mkEffects [FinalizePackage (fs_ArkPSBT fs) (FinalCheckpointPSBTs fs)] [] [] cs in
  fs_TransferInputs fs = su_TransferInputs su → fs_IdempotencyKey fs = su_IdempotencyKey su →
  evidence db sid DirOutgoing (AwaitingSubmitAccepted su) →
  turn env sid DirOutgoing db (AwaitingFinalizeAccepted fs) f s2 db' →
  s2 = AwaitingFinalizeAccepted fs ∧ evidence db' sid DirOutgoing s2.
Proof.
  intros f Hi Hk (Hkey & Ha & Hsub & _ & _ & Hn) [(msgs & notes & descs & r & data & Hw & C)].
  inversion Hw; subst. split; [done|]. cbn in C. unfold evidence.
  rewrite (committed_mail C), (committed_notes C), Hi. cbn.
  split; [rewrite Hk; by apply (committed_holds C)|].
  split; [by apply no_ack_snoc; [|intros []]|].
  split; [by apply submitted_app|]. split; [|by rewrite app_nil_r].
  apply elem_of_app. right. apply list_elem_of_here.
Qed.

Lemma refinalize_turn env sid db fs s2 db' :
  let f := only_msgs [FinalizePackage (fs_ArkPSBT fs) (FinalCheckpointPSBTs fs)] in
  evidence db sid DirOutgoing (AwaitingFinalizeAccepted fs) →
  turn env sid DirOutgoing db (AwaitingFinalizeAccepted fs) f s2 db' →
  s2 = AwaitingFinalizeAccepted fs ∧ evidence db' sid DirOutgoing s2.
Proof.
  intros f (Hkey & Ha & Hsub & Hin & Hn) [(msgs & notes & descs & r & data & Hw & C)].
  inversion Hw; subst. split; [done|]. cbn in C. unfold evidence.
  rewrite (committed_mail C), (committed_notes C). cbn.
  split; [by apply (committed_holds C)|].
  split; [by apply no_ack_snoc; [|intros []]|].
  split; [by apply submitted_app|]. split; [|by rewrite app_nil_r].
  apply elem_of_app. by left.
Qed.

Lemma told_sent sid fs : filter (is_sent sid) (told cfg sid fs) = sent_note cfg sid (fs_TransferInputs fs).
Proof.
  unfold told, sent_note. destruct (_ && _ && _); [|done]. by rewrite filter_cons_True.
Qed.

Lemma accepted_turn env sid db fs s2 db' cs :
  let f := mkEffects [] (told cfg sid fs) (if PackageStore cfg then [PersistPackage fs] else []) cs in
  TxHash (fs_ArkPSBT fs) = sid →
  evidence db sid DirOutgoing (AwaitingFinalizeAccepted fs) →
  turn env sid DirOutgoing db (Completed (fs_IdempotencyKey fs)) f s2 db' →
  s2 = Completed (fs_IdempotencyKey fs) ∧ evidence db' sid DirOutgoing s2.
Proof.
  intros f Htx (Hkey & Ha & Hsub & Hin & Hn) [(msgs & notes & descs & r & data & Hw & C)].
  assert (s2 = Completed (fs_IdempotencyKey fs) ∧ msgs = [] ∧ notes = []) as (-> & -> & ->).
  { cbn in Hw. destruct (PackageStore cfg); by inversion Hw. }
  split; [done|]. pose proof (com_packages C) as Hp. cbn in C, Hp. rewrite app_nil_r in C.
  unfold evidence, no_ack. rewrite (committed_mail C), (committed_notes C), app_nil_r, Hn, told_sent.
  split; [by apply (committed_holds C)|]. split; [done|].
  exists (fs_TransferInputs fs), (fs_ArkPSBT fs), (FinalCheckpointPSBTs fs). split_and!; try done.
  intros Hps. rewrite Hp, Hps. unfold packages_after. rewrite Hps. by rewrite lookup_insert_eq.
Qed.

Lemma received_not_sent sid sid' descs : filter (is_sent sid) (received_notes cfg sid' descs) = [].
Proof.
  unfold received_notes. destruct (LedgerSink cfg); [|done]. apply filter_none, Forall_fmap.
  apply Forall_true. intros x [].
Qed.

Lemma materialized_turn env sid db n r s2 db' :
  let f := mkEffects [] [] [Materialize r] [] in
  rn_SessionID n = sid → evidence db sid DirIncoming (ReceiveNotified n) →
  turn env sid DirIncoming db (ReceiveNotified n) f s2 db' →
  s2 = ReceiveCompleted ∧ evidence db' sid DirIncoming s2.
Proof.
  intros f Hsid (Hl & Ha) [(msgs & notes & descs & r' & data & Hw & C)].
  inversion Hw as [| | |n' r'' descs' Hn Hm]; subst. injection Hn as <-. split; [done|]. cbn in C.
  unfold evidence. rewrite (committed_mail C), (committed_notes C), received_not_sent, app_nil_r.
  split; [by apply sent_ok_app|]. rewrite filter_app, (filter_none _ (mail db _)) by done. done.
Qed.

(** A failure keeps the evidence. *)
Lemma failed_evidence db sid d s reason :
  at_rest sid d s → IsTerminal s = false → evidence db sid d s →
  at_rest sid d (failedState reason s) ∧ evidence db sid d (failedState reason s).
Proof.
  intros Hr Ht. destruct d, s; try done; cbn.
  - by intros (? & ? & ? & ? & ? & ?).
  - by intros (? & ? & ? & ? & ?).
Qed.

Lemma move_evidence env sid d db s s' f s2 db' :
  at_rest sid d s → evidence db sid d s → move cfg env sid s s' f →
  turn env sid d db s' f s2 db' → at_rest sid d s2 ∧ evidence db' sid d s2.
Proof.
  intros Hr He Hm Ht.
  assert (ordinary f → at_rest sid d s' → evidence db sid d s' →
    at_rest sid d s2 ∧ evidence db' sid d s2) as Hord.
  { intros Hf Hr' He'. destruct (ordinary_turn _ _ _ _ _ _ _ _ Ht Hf He') as [-> ?]. done. }
  destruct Hm as [|su|su su' (a & b & c & ->)|su reason cs Hcs|su ark co fi Htx _ _ _|fs|fs cs Hsp
    |s reason Hterm|rs n Hlt ->|s n scripts Hn1 Hn2 Hw Hcount|rn n Hcount|rn rc ms].
  - apply Hord; [apply nothing_ordinary|done..].
  - apply Hord; [by apply message_ordinary; intros []|done..].
  - by apply Hord; [apply nothing_ordinary|destruct d..].
  - destruct (failed_evidence db sid d (AwaitingSubmitAccepted su) reason) as [? ?]; [done..|].
    apply Hord; [apply nothing_ordinary|done..].
  - destruct d; [|done]. set (fs := mkFinalizing _ _ _ _ _) in *.
    destruct (cosigned_turn env sid db su fs s2 db' _ eq_refl eq_refl He Ht) as [-> ?].
    split; [|done]. cbn in Hr |- *. by rewrite Htx.
  - destruct d; [|done]. by destruct (refinalize_turn env sid db fs s2 db' He Ht) as [-> ?].
  - destruct d; [|done]. destruct Hr as [_ Htx].
    by destruct (accepted_turn env sid db fs s2 db' cs Htx He Ht) as [-> ?].
  - destruct (failed_evidence db sid d s reason) as [? ?]; [done..|].
    apply Hord; [apply nothing_ordinary|done..].
  - destruct d; [done|]. destruct Hr as (Hr & Hb). apply Hord; [by apply message_ordinary; intros []| |done].
    split; [done|]. cbn [ResolveAttempts]. unfold maxResolveRetries, uint32 in *. rewrite Z.mod_small; lia.
  - destruct d; [by destruct s|]. apply Hord; [by apply message_ordinary; intros []| |].
    + split; [done|]. split; [done|]. by eapply counted_bound.
    + destruct He as [? He]. split; [done|]. by destruct s.
  - destruct d; [done|]. pose proof (counted_bound _ _ _ Hr Hcount) as Hb. destruct Hr as (? & ? & _).
    by apply Hord; [apply nothing_ordinary|..].
  - destruct d; [done|]. destruct Hr as [Hsid _].
    by destruct (materialized_turn env sid db rn _ s2 db' Hsid He Ht) as [-> ?].
Qed.

(** A session that begins. *)
Lemma begins_evidence env sid d db s' f s2 db' :
  ready db sid d → begins env sid d s' f → turn env sid d db s' f s2 db' →
  at_rest sid d s2 ∧ evidence db' sid d s2.
Proof.
  intros [Ha Hr] Hb [(msgs & notes & descs & r & data & Hw & C)]. destruct Hb as [su ins uns Htx Hd|script ev].
  - inversion Hw; subst s2 msgs notes descs. cbn in C. split; [done|]. destruct Hr as [Hf Hn].
    pose proof (record_key _ _ _ _ _ (com_record C)) as [Hdir Hkey]. specialize (Hkey eq_refl).
    assert (su_IdempotencyKey su ≠ "" →
      attempts db' !! su_IdempotencyKey su = Some (sid, su_DispatchRequestData su)) as Hatt.
    { intros Hk. pose proof (com_bound C Hdir) as Hbound. rewrite Hkey in Hbound. cbn in Hbound.
      pose proof (com_record C) as Hrec. cbn in Hrec. unfold outgoingRegistryRecord in Hrec. inv_ok. auto. }
    unfold evidence. rewrite (committed_mail C), (committed_notes C), Hn. split.
    { intros Hk. exists (su_DispatchRequestData su). by apply Hatt. }
    split; [by apply no_ack_snoc; [|intros []]|]. split_and!; [|done| |done].
    + eexists _, _, _, _. split; [apply elem_of_app; right; apply list_elem_of_here|done].
    + apply Forall_app. split; [done|]. apply Forall_singleton. by intros [].
  - inversion Hw; subst. cbn in C. split; [done|].
    unfold evidence. rewrite (committed_mail C), (committed_notes C), app_nil_r.
    split; [by apply sent_ok_app|]. by apply no_ack_snoc; [|intros []].
Qed.

Lemma resumed_evidence db sid d s s' :
  evidence db sid d s → resumed s s' → evidence db sid d s'.
Proof.
  assert (∀ ins ins', claim <$> ins' = claim <$> ins → submitted (mail db sid) sid ins →
    submitted (mail db sid) sid ins') as Hsub.
  { intros ins ins' Hc (ark & cps & i & rc & Hin & Htx & Hi). exists ark, cps, i, rc.
    split_and!; [done..|congruence]. }
  destruct s; cbn [resumed]; try by intros H ->.
  - intros H (ins & Hc & ->). destruct d; [|done]. destruct H as (? & ? & H & ?).
    split; [done|]. split; [done|]. split; [by eapply Hsub|done].
  - intros H (ins & Hc & ->). destruct d; [|done]. destruct H as (? & ? & H & ?).
    split; [done|]. split; [done|]. split; [by eapply Hsub|done].
Qed.

(** What the ledger is told in a turn is of its own session. *)
Definition own_notes (sid : Hash) (notes : list LedgerMsg) : Prop :=
  ∀ sid', sid' ≠ sid → Forall (λ m, ¬ is_sent sid' m) notes.

Lemma told_own sid inputs : own_notes sid (sent_note cfg sid inputs).
Proof.
  intros sid' Hne. unfold sent_note. destruct (_ && _ && _); [|constructor].
  apply Forall_singleton. cbn. by intros ->.
Qed.

Lemma worked_own env sid s w s2 msgs notes descs :
  worked cfg env sid s w s2 msgs notes descs → own_notes sid notes.
Proof.
  intros H sid' Hne. destruct H; try constructor. unfold received_notes.
  destruct (LedgerSink cfg); [|constructor]. apply Forall_fmap, Forall_true. intros x [].
Qed.

Lemma move_own env sid s s' f : move cfg env sid s s' f → own_notes sid (f_ledger f).
Proof. intros []; try (intros ? ?; constructor). apply told_own. Qed.

Lemma begins_own env sid d s f : begins env sid d s f → own_notes sid (f_ledger f).
Proof. intros [] ? ?; constructor. Qed.

Lemma move_fits env sid s s' f : move cfg env sid s s' f → fits s' (f_work f).
Proof. intros []; cbn; try done; [by destruct (PackageStore cfg)|by eexists]. Qed.

Lemma begins_fits env sid d s f : begins env sid d s f → fits s (f_work f).
Proof. by intros []. Qed.

(** ** Worlds *)

Record World := mkWorld { w_db : OorDB; w_actors : gmap Hash Behavior }.

(** The actor is gone after a turn: another instance took its message over, or
    another session has its key and the registry drops this one. *)
Definition leaves (t : Turn) : bool :=
  match t_resp t with Err ErrLeaseLost => true | _ => bool_decide (is_Some (dedupKeyWinner (t_behavior t))) end.

Definition turn_world (w : World) (sid : Hash) (t : Turn) : World :=
  mkWorld (t_db t)
    (if leaves t then delete sid (w_actors w) else <[sid := t_behavior t]> (w_actors w)).

(** What the registry sends to the actor of a session.  A transfer is sent to the
    session of its own transaction, never to one that receives it, and a keyed
    transfer is not started again once its package was finalized. *)
Definition routed (env : Answers) (db : OorDB) (sid : Hash) (b : Behavior) (msg : OorMsg) : Prop :=
  match msg with
  | StartTransferRequest e _ =>
      (∀ sid' s o, newSession cfg env e = Ok (sid', s, o) → sid' = sid) ∧
      b_direction b ≠ Some DirIncoming ∧
      (∀ r, rows db !! sid = Some r → r_Direction r = DirOutgoing) ∧
      (st_IdempotencyKey e = "" ∨ no_finalize (mail db sid))
  | DriveEventRequest (Some e) => external sid e
  | ResolveIncomingTransferRequest sid' _ _ => sid' = sid
  | _ => True
  end.

Inductive step (w : World) : World → Prop :=
| step_spawn env sid d b :
    w_actors w !! sid = None → NewOORSessionActor cfg env sid d (w_db w) = Ok b →
    step w (mkWorld (w_db w) (<[sid := b]> (w_actors w)))
| step_turn env sid b msg :
    w_actors w !! sid = Some b → handler_contract env → routed env (w_db w) sid b msg →
    step w (turn_world w sid (Receive cfg env msg b (w_db w)))
| step_stop sid : step w (mkWorld (w_db w) (delete sid (w_actors w))).

Definition empty_world : World := mkWorld (mkOorDB ∅ ∅ ∅ ∅ ∅ [] [] []) ∅.
Definition reachable : World → Prop := rtc step empty_world.

(** *** The invariant *)

Definition stored_ok (db : OorDB) (sid : Hash) (r : Row) : Prop :=
  ∃ s data, at_rest sid (r_Direction r) s ∧ evidence db sid (r_Direction r) s ∧
    record_of (r_Direction r) sid s = Ok (r, data).

(** No session of this direction is stored under the id. *)
Definition vacant (db : OorDB) (sid : Hash) (d : option Direction) : Prop :=
  rows db !! sid = None ∨
  d = Some DirIncoming ∧ ∃ r, rows db !! sid = Some r ∧ r_Direction r = DirOutgoing.

Definition clean (db : OorDB) (sid : Hash) (b : Behavior) : Prop :=
  b_sessionID b = sid ∧
  match b_fsm b with
  | Some s => ∃ d, b_direction b = Some d ∧ b_loaded b = true ∧ at_rest sid d s ∧ evidence db sid d s
  | None => b_loaded b = false ∧ vacant db sid (b_direction b)
  end.
Definition actor_ok (db : OorDB) (sid : Hash) (b : Behavior) : Prop :=
  b_sessionID b = sid ∧ (commitFailed b = true ∨ clean db sid b).

Record inv (w : World) : Prop := mkInv {
  inv_rows : ∀ sid r, rows (w_db w) !! sid = Some r → stored_ok (w_db w) sid r;
  inv_absent : ∀ sid, rows (w_db w) !! sid = None →
    mail (w_db w) sid = [] ∧ sent_notes (w_db w) sid = [];
  inv_actors : ∀ sid b, w_actors w !! sid = Some b → actor_ok (w_db w) sid b;
}.

Lemma evidence_ready db sid d s :
  at_rest sid DirOutgoing s → evidence db sid DirOutgoing s → d = DirIncoming → ready db sid d.
Proof.
  intros Hr (_ & Ha & Hs) ->. split; [done|]. destruct s; try done.
  - left. apply Hs.
  - left. apply Hs.
  - destruct Hs as (ins & ark & final & ? & ? & ? & _ & ->). unfold sent_note.
    destruct (_ && _ && _); [right|by left]. by exists ins, ark, final.
  - left. apply Hs.
Qed.

Lemma restored_clean env db sid b b' :
  (∀ r, rows db !! sid = Some r → stored_ok db sid r) →
  b_sessionID b = sid → b_fsm b = None → b_loaded b = false →
  restore cfg env db b = Ok b' → clean db sid b' ∧ commitFailed b' = commitFailed b.
Proof.
  intros Hrows Hid Hn Hl H. unfold restore in H. inv_ok. rewrite Hid in H.
  assert (vacant db sid (b_direction b) → clean db sid b) as Hvac.
  { intros Hv. split; [done|]. by rewrite Hn. }
  destruct (rows db !! sid) as [r|] eqn:Er; [|inv_ok; split; [apply Hvac; by left|done]].
  inv_ok. destruct (Hrows r eq_refl) as (s & data & Hr & He & Hrec).
  assert (∀ x, sessionFromRecord cfg r = Ok x →
    clean db sid (set_session b sid (Some (r_Direction r)) (Some x) true)) as Hload.
  { intros x Hx. pose proof (record_restored _ _ _ _ _ _ _ Hr Hrec Hx) as Hres. split; [done|].
    exists (r_Direction r). split_and!; [done..|by eapply resumed_at_rest|by eapply resumed_evidence]. }
  destruct (b_direction b) as [d|]; [|inv_ok; by split; [apply Hload|]].
  case_bool_decide as Hd; [inv_ok; by split; [apply Hload|]|].
  destruct (selfTransfer d r) eqn:Es; [|done]. inv_ok. unfold selfTransfer in Es. zbool.
  split; [|done]. apply Hvac. right. subst d. split; [done|]. by exists r.
Qed.

(** *** Turns *)

(** A turn of the session moves it or begins it. *)
Definition advance (env : Answers) (db : OorDB) (sid : Hash) (b : Behavior) (d : Direction)
    (s' : SessionState) (f : Effects) : Prop :=
  (∃ s, b_fsm b = Some s ∧ at_rest sid d s ∧ evidence db sid d s ∧ move cfg env sid s s' f) ∨
  (begins env sid d s' f ∧ ready db sid d).

Definition outcome (env : Answers) (db : OorDB) (sid : Hash) (b : Behavior)
    (r : result oerr ActorResp * Behavior) : Prop :=
  match r with
  | (Err e, b') => plain_error e ∧ b_sessionID b' = sid ∧ no_release (calls b')
  | (Ok _, b') => ∃ d s' f rs, advance env db sid b d s' f ∧ b' = installed b sid d s' f rs
  end.

Section Dispatch.
Context (env : Answers) (db : OorDB) (sid : Hash) (b : Behavior).
Hypothesis rows_ok : ∀ r, rows db !! sid = Some r → stored_ok db sid r.
Hypothesis absent_ok : rows db !! sid = None → mail db sid = [] ∧ sent_notes db sid = [].
Hypothesis contract : handler_contract env.
Hypothesis b_clean : clean db sid b.
Hypothesis quiet_so_far : no_release (calls b).

Lemma absent_ready d : rows db !! sid = None → ready db sid d.
Proof.
  intros H. destruct (absent_ok H) as [Hm Hn]. unfold ready. rewrite Hm, Hn.
  split; [constructor|]. destruct d; [by split; [constructor|]|by left].
Qed.

Lemma vacant_ready_incoming d : vacant db sid d → ready db sid DirIncoming.
Proof.
  intros [H|(_ & r & H & Hd)]; [by apply absent_ready|]. destruct (rows_ok r H) as (s & ? & Hr & He & _).
  rewrite Hd in Hr, He. by eapply evidence_ready.
Qed.

Lemma turns_outcome (s : SessionState) (d : Direction) r :
  b_fsm b = Some s → b_direction b = Some d → b_loaded b = true → at_rest sid d s →
  evidence db sid d s → turns_to cfg env sid b s r → outcome env db sid b r.
Proof.
  intros Hs Hd Hl Hr He H. pose proof b_clean as [Hid _]. destruct r as [[resp|e] b']; cbn in *.
  - destruct H as (s' & f & rs & Hm & ->). exists d, s', f, rs. split; [left; by exists s|].
    by apply moved_installed.
  - destruct H as (He' & Hc & Hsame). split; [done|]. split; [|done]. by rewrite (proj1 Hsame).
Qed.

Lemma begins_outcome d r :
  begins_to env sid d b r → ready db sid d → outcome env db sid b r.
Proof.
  destruct r as [[resp|e] b']; cbn; [|by intros (? & ? & ?)].
  intros (s & f & rs & Hb & ->) Hr. exists d, s, f, rs. by split; [right|].
Qed.

Lemma stay_outcome s resp : b_fsm b = Some s → outcome env db sid b (Ok resp, b).
Proof.
  intros Hs. pose proof b_clean as [Hid Hc]. rewrite Hs in Hc. destruct Hc as (d & Hd & Hl & Hr & He).
  apply (turns_outcome s d); [done..|]. exists s, nothing, []. split; [constructor|].
  unfold moved. cbn. by rewrite stage_nil, set_fsm_same.
Qed.

Lemma error_outcome t : outcome env db sid b (Err (ErrOther t), b).
Proof. split; [by exists t|]. split; [apply b_clean|done]. Qed.

Lemma start_outcome e deadline :
  routed env db sid b (StartTransferRequest e deadline) →
  outcome env db sid b (handleStartTransfer cfg env db e deadline b).
Proof.
  intros (Htx & Hdir & Hrow & Hfin). pose proof b_clean as [Hid Hc].
  destruct (b_fsm b) as [s|] eqn:Hs.
  - destruct Hc as (d & Hd & Hl & Hr & He). destruct d; [|by rewrite Hd in Hdir].
    destruct (replaceFailed env db (st_IdempotencyKey e) b) as [[]|err] eqn:Erep.
    + eapply begins_outcome; [apply start_begins; auto|]. unfold replaceFailed in Erep. rewrite Hs in Erep. destruct s; try done.
      case_bool_decide as Hk; [done|]. destruct Hfin as [|Hfin]; [done|].
      by destruct He as (_ & Ha & _ & Hn).
    + unfold handleStartTransfer, obind, oget. rewrite Hs, Hl. cbn [andb].
      rewrite bool_decide_eq_true_2 by done. cbv beta iota. rewrite Erep. by eapply stay_outcome.
    + unfold handleStartTransfer, obind, oget. rewrite Hs, Hl. cbn [andb].
      rewrite bool_decide_eq_true_2 by done. cbv beta iota. rewrite Erep.
      unfold replaceFailed in Erep. rewrite Hs in Erep. destruct s; try done.
      case_bool_decide; [done|]. destruct (ReadFails env); [|done]. injection Erep as <-. apply error_outcome.
  - destruct Hc as [Hl [Hv|[Hv _]]]; [|done].
    eapply begins_outcome; [apply start_begins; auto|]. by apply absent_ready.
Qed.

Lemma dispatch_outcome msg :
  routed env db sid b msg → outcome env db sid b (dispatch cfg env db msg b).
Proof.
  intros Hm. pose proof b_clean as [Hid Hc].
  destruct msg as [| |e dl|[e|]|sid' script ev|timer]; cbn [dispatch]; try by apply error_outcome.
  - by apply start_outcome.
  - destruct (b_fsm b) as [s|] eqn:Hs.
    + destruct Hc as (d & Hd & Hl & Hr & He). apply (turns_outcome s d); [done..|].
      by eapply drive_event_turns.
    + unfold handleDriveEvent, obind, oget. rewrite Hs. by apply error_outcome.
  - cbn in Hm. subst sid'. destruct (b_fsm b) as [s|] eqn:Hs.
    + destruct Hc as (d & Hd & Hl & Hr & He). unfold handleResolveIncomingTransfer.
      destruct (no_bytes script); [by apply error_outcome|]. unfold obind, oget. rewrite Hs, Hl.
      cbn [andb]. rewrite bool_decide_eq_true_2 by done. by eapply stay_outcome.
    + eapply begins_outcome; [by apply receipt_begins|]. destruct Hc as [_ Hv].
      exact (vacant_ready_incoming _ Hv).
  - destruct (b_fsm b) as [s|] eqn:Hs.
    + destruct Hc as (d & Hd & Hl & Hr & He). apply (turns_outcome s d); [done..|].
      by eapply resume_turns.
    + unfold handleResumeSession, obind, oget. rewrite Hs. by apply error_outcome.
Qed.

End Dispatch.

Lemma advance_evidence env db sid b d s' f s2 db' :
  advance env db sid b d s' f → turn env sid d db s' f s2 db' →
  at_rest sid d s2 ∧ evidence db' sid d s2.
Proof.
  intros [(s & _ & Hr & He & Hm)|[Hb Hr]] Ht; [by eapply move_evidence|by eapply begins_evidence].
Qed.

Lemma advance_own env db sid b d s' f :
  advance env db sid b d s' f → own_notes sid (f_ledger f) ∧ fits s' (f_work f).
Proof.
  intros [(s & _ & _ & _ & Hm)|[Hb _]].
  - split; [by eapply move_own|by eapply move_fits].
  - split; [by eapply begins_own|by eapply begins_fits].
Qed.

Lemma record_flow d sid s r data : record_of d sid s = Ok (r, data) → r_FlowVersion r = FlowVersionV1.
Proof. destruct d; cbn; unfold outgoingRegistryRecord, incomingRegistryRecord; intros H; by inv_ok. Qed.

Lemma reload_clean env db sid b b1 :
  (∀ r, rows db !! sid = Some r → stored_ok db sid r) → actor_ok db sid b →
  reload cfg env db b = Ok b1 →
  clean db sid b1 ∧ commitFailed b1 = false ∧
  (b_direction b1 = b_direction b ∨ ∃ r, rows db !! sid = Some r ∧ b_direction b1 = Some (r_Direction r)).
Proof.
  intros Hrows [<- Hc] H. unfold reload in H. destruct (commitFailed b) eqn:Hf.
  - inv_ok. rename a into b2. split; [|split; [done|]].
    + eapply restored_clean in E as [Hcl _]; [exact Hcl|done..].
    + unfold restore in E. cbn in E. inv_ok. cbn.
      destruct (rows db !! b_sessionID b) as [r|]; [|inv_ok; by left]. inv_ok.
      destruct (b_direction b) as [d|] eqn:Ed; [case_bool_decide|]; inv_ok; cbn; eauto.
  - inv_ok. destruct Hc as [Hc|Hc]; [done|]. by split_and!; [| |left].
Qed.

Lemma routed_reloaded env db sid b b1 msg :
  routed env db sid b msg →
  (b_direction b1 = b_direction b ∨ ∃ r, rows db !! sid = Some r ∧ b_direction b1 = Some (r_Direction r)) →
  routed env db sid b1 msg.
Proof.
  destruct msg; try done. intros (Htx & Hd & Hrow & Hf) Hb1. split_and!; try done.
  destruct Hb1 as [->|(r & Hr & ->)]; [done|]. by rewrite (Hrow r Hr).
Qed.

Definition driving (msg : OorMsg) : bool :=
  match msg with MsgRestart | GetStateRequest => false | _ => true end.

Lemma receive_driving env msg b db :
  driving msg = true →
  Receive cfg env msg b db =
  match reload cfg env db b with
  | Err e => mkTurn (Err (ErrOther e)) (set_session b (b_sessionID b) (b_direction b) None false) db []
  | Ok b =>
      match dispatch cfg env db msg (reset_turn b) with
      | (Err e, b) => mkTurn (Err e) (if is_lease_lost e then b else set_commitFailed b true) db []
      | (Ok resp, b) =>
          match commitAck cfg env b db with
          | (Err e, b, db) =>
              mkTurn (Err e) (if is_lease_lost e then b else set_commitFailed b true) db []
          | (Ok _, b, db) =>
              match dedupKeyWinner b with
              | Some winner => mkTurn (Ok (StartTransferResponse winner true)) b db
                                 [NotifyTerminal (b_sessionID b)]
              | None => mkTurn (Ok resp) b db (outputs b)
              end
          end
      end
  end.
Proof. by destruct msg. Qed.

(** A turn that changed the tables. *)
Definition turned (env : Answers) (db : OorDB) (sid : Hash) (b : Behavior) (msg : OorMsg) (t : Turn) :
    Prop :=
  ∃ b1 resp rs d s' f s2, reload cfg env db b = Ok b1 ∧
    dispatch cfg env db msg (reset_turn b1) = (Ok resp, installed (reset_turn b1) sid d s' f rs) ∧
    advance env db sid (reset_turn b1) d s' f ∧
    turn env sid d db s' f s2 (t_db t) ∧ is_ok (t_resp t) = true ∧
    b_sessionID (t_behavior t) = sid ∧ b_direction (t_behavior t) = Some d ∧
    b_loaded (t_behavior t) = true ∧ b_fsm (t_behavior t) = Some s2.

Lemma receive_outcome env db sid b msg :
  (∀ r, rows db !! sid = Some r → stored_ok db sid r) →
  (rows db !! sid = None → mail db sid = [] ∧ sent_notes db sid = []) →
  handler_contract env → actor_ok db sid b → routed env db sid b msg →
  let t := Receive cfg env msg b db in
  (t_db t = db ∧ (leaves t = true ∨ actor_ok db sid (t_behavior t))) ∨ turned env db sid b msg t.
Proof.
  intros Hrows Habs Hh Hb Hm. cbv zeta. destruct (driving msg) eqn:Hdr; [|left; destruct msg; try done; auto].
  rewrite receive_driving by done.
  destruct (reload cfg env db b) as [b1|e] eqn:Er.
  2:{ left. split; [done|]. right. destruct Hb as [Hid _]. split; [done|]. left. unfold reload in Er.
      cbn. destruct (commitFailed b); [done|discriminate Er]. }
  destruct (reload_clean _ _ _ _ _ Hrows Hb Er) as (Hc1 & Hf1 & Hd1).
  assert (routed env db sid (reset_turn b1) msg) as Hm1 by by eapply routed_reloaded.
  pose proof (dispatch_outcome env db sid (reset_turn b1) Hrows Habs Hh Hc1 ltac:(constructor) msg Hm1) as Ho.
  destruct (dispatch cfg env db msg (reset_turn b1)) as [[resp|e] b2] eqn:Edis; cbn in Ho.
  2:{ left. split; [done|]. right. destruct Ho as ([t ->] & Hid & _). split; [done|]. by left. }
  destruct Ho as (d & s' & f & rs & Hadv & ->).
  destruct (advance_own _ _ _ _ _ _ _ Hadv) as [_ Hfits].
  set (b2 := installed (reset_turn b1) sid d s' f rs).
  destruct (commitAck cfg env b2 db) as [[[[]|e] b3] db3] eqn:Ec.
  2:{ apply commit_failed in Ec as [-> Hid]. left. split; [done|]. destruct e; [by left|right..];
      (split; [done|by left]). }
  apply (commit_turn_ok cfg env b2 db b3 db3 s' d sid) in Ec as [(w & Hw & _ & _ & _ & ->)|Hdone]; try done.
  - left. rewrite Hw. split; [done|]. left. cbn. by rewrite Hw.
  - right. destruct Hdone as (s2 & msgs & notes & descs & r & data & Hwk & -> & C). cbn [dedupKeyWinner set_committed].
    exists b1, resp, rs, d, s', f, s2. split_and!; try done. constructor. by exists msgs, notes, descs, r, data.
Qed.

(** *** Every step keeps the invariant *)

Lemma upsert_same db sid r :
  (∀ old, rows db !! sid = Some old → stored_ok db sid old) → r_FlowVersion r = FlowVersionV1 →
  upsert_row db sid r = <[sid := r]> (rows db).
Proof.
  intros Hrows Hf. unfold upsert_row. destruct (rows db !! sid) as [old|] eqn:E; [|by destruct r].
  destruct (Hrows old eq_refl) as (s & data & _ & _ & Hrec). rewrite (record_flow _ _ _ _ _ Hrec), <- Hf.
  by destruct r.
Qed.

(** The sessions a commit of another one leaves alone. *)
Lemma other_stored d sid s r data msgs notes descs work db db' sid' r' :
  committed cfg d sid s r data msgs notes descs work db db' → own_notes sid notes → sid' ≠ sid →
  stored_ok db sid' r' → stored_ok db' sid' r'.
Proof.
  intros C Hn Hne (s' & x & Hr & He & Hrec). exists s', x. split; [done|]. split; [|done].
  eapply (committed_other C); [done| |done]. by apply Hn.
Qed.

Lemma other_actor d sid s r data msgs notes descs work db db' sid' b :
  committed cfg d sid s r data msgs notes descs work db db' → own_notes sid notes → sid' ≠ sid →
  actor_ok db sid' b → actor_ok db' sid' b.
Proof.
  intros C Hn Hne [Hid Hb]. split; [done|]. destruct Hb as [Hb|[_ Hb]]; [by left|right].
  split; [done|]. destruct (b_fsm b) as [s'|].
  - destruct Hb as (d' & Hd & Hl & Hr & He). exists d'. split_and!; [done..|].
    eapply (committed_other C); [done| |done]. by apply Hn.
  - destruct Hb as [Hl Hv]. split; [done|]. unfold vacant. rewrite (com_rows C). unfold upsert_row.
    by rewrite lookup_insert_ne.
Qed.

Lemma turned_inv w env sid b msg t :
  inv w → turned env (w_db w) sid b msg t → inv (turn_world w sid t).
Proof.
  intros [Hrows Habs Hact] (b1 & resp & rs & d & s' & f & s2 & _ & _ & Hadv & Ht & _ & Hid & Hd & Hl & Hs).
  destruct (advance_evidence _ _ _ _ _ _ _ _ _ Hadv Ht) as [Hrest Hev].
  destruct (advance_own _ _ _ _ _ _ _ Hadv) as [Hown _].
  destruct Ht as [(msgs & notes & descs & r & data & Hw & C)].
  assert (own_notes sid (f_ledger f ++ notes)) as Hn.
  { intros sid' Hne. apply Forall_app. split; [by apply Hown|]. by eapply worked_own. }
  assert (rows (t_db t) = <[sid := r]> (rows (w_db w))) as Hr.
  { rewrite (com_rows C). apply upsert_same; [apply Hrows|]. eapply record_flow, (com_record C). }
  pose proof (record_key _ _ _ _ _ (com_record C)) as [Hdir _]. split; cbn [turn_world w_db w_actors].
  - intros sid' r'. rewrite Hr. intros [[<- <-]|[Hne H]]%lookup_insert_Some.
    + exists s2, data. rewrite Hdir. split_and!; [done..|]. exact (com_record C).
    + eapply other_stored; eauto.
  - intros sid'. rewrite Hr. intros [H Hne]%lookup_insert_None. destruct (Habs sid' H) as [Hm Hs'].
    rewrite (committed_mail_other C) by done. rewrite (committed_notes C), Hs', filter_none; [done|].
    by apply Hn.
  - intros sid' b'. destruct (decide (sid' = sid)) as [->|Hne].
    + destruct (leaves t); [by rewrite lookup_delete_eq|]. rewrite lookup_insert_eq. intros [= <-].
      split; [done|]. right. split; [done|]. rewrite Hs. exists d. done.
    + destruct (leaves t); rewrite ?lookup_delete_ne, ?lookup_insert_ne by done; intros H;
        eapply other_actor; eauto.
Qed.

Lemma oor_step_inv w w' : inv w → step w w' → inv w'.
Proof.
  intros Hi [env sid d b Hno Hnew|env sid b msg Hb Hh Hm|sid].
  - destruct Hi as [Hrows Habs Hact]. split; [done..|]. cbn. intros sid' b'.
    intros [[<- <-]|[Hne H]]%lookup_insert_Some; [|by apply Hact].
    eapply restored_clean in Hnew as [Hc _]; [|by apply Hrows|done..]. split; [apply Hc|by right].
  - pose proof Hi as [Hrows Habs Hact].
    destruct (receive_outcome env (w_db w) sid b msg (Hrows sid) (Habs sid) Hh (Hact sid b Hb) Hm)
      as [[Hdb Hok]|Ht]; [|by eapply turned_inv].
    split; cbn; rewrite Hdb; [done..|]. intros sid' b'. destruct (leaves _) eqn:El.
    + intros [_ H]%lookup_delete_Some. by apply Hact.
    + intros [[<- <-]|[Hne H]]%lookup_insert_Some; [by destruct Hok|by apply Hact].
  - destruct Hi as [Hrows Habs Hact]. split; [done..|]. cbn. intros sid' b' [_ H]%lookup_delete_Some.
    by apply Hact.
Qed.

Lemma reachable_inv w : reachable w → inv w.
Proof.
  intros H. assert (inv empty_world) as H0.
  { split; [by intros sid r|done|by intros sid b]. }
  revert H0. induction H as [|w1 w2 w3 Hs _ IH]; [done|]. intros Hi. apply IH. by eapply oor_step_inv.
Qed.

End World.
