(* ===== verification/OorTransfers.v ===== *)
(** * Out-of-round transfers: what the sessions promise

    The theorems about the reachable worlds of the session actors, about a failed
    turn, about the stored form of a session and about the timers of a receiving
    one, each with a concrete run it is applied to. *)

From S2P Require Import Prelude RecoveryProof Ledger OorReplay OorInputs OorFsm OorActor OorSafety OorTurn OorCommit OorResume OorWorld.
Local Open Scope Z_scope.

Section Promises.
Context {T : OorTx} {TL : OorTxLaws} (cfg : Config).

(** ** What a session does in a turn *)

(** The calls the dispatch of a message makes. *)
Definition turn_calls (env : Answers) (db : OorDB) (msg : OorMsg) (b : Behavior) : list Call :=
  match reload cfg env db b with
  | Ok b1 => calls (dispatch cfg env db msg (reset_turn b1)).2
  | Err _ => []
  end.

Lemma move_release env sid s s' f ops epochs done :
  move cfg env sid s s' f → CallReleaseSpend ops epochs done ∈ f_calls f →
  ∃ su, s = AwaitingSubmitAccepted su ∧ ops ⊆ InputOutpoints (su_TransferInputs su) ∧
    epochs = prePONRReserveEpochs s ∧ f_msgs f = [] ∧ f_work f = [].
Proof.
  assert (∀ (c : Call) l, c ∈ l → l = [] → False) as Hnil by (intros c l H ->; by apply not_elem_of_nil in H).
  intros Hm Hin. destruct Hm; cbn in Hin; try by apply not_elem_of_nil in Hin.
  - destruct H as [->|(known & ok & -> & Hk)]; [by apply not_elem_of_nil in Hin|].
    apply list_elem_of_singleton in Hin as [= -> -> ->]. by exists s.
  - by apply list_elem_of_singleton in Hin.
  - destruct H as (known & _ & _ & ->). case_bool_decide; [by apply not_elem_of_nil in Hin|].
    by apply list_elem_of_singleton in Hin.
Qed.

Lemma move_no_ack env sid s s' f : move cfg env sid s s' f → no_ack (f_msgs f).
Proof. intros []; cbn; try constructor; try constructor; by intros []. Qed.

Lemma begins_no_ack env sid d s f : begins env sid d s f → no_ack (f_msgs f).
Proof. intros []; cbn; repeat constructor; by intros []. Qed.

Lemma installed_inj (r r' : result oerr ActorResp) b sid sid' d d' s s' f f' rs rs' :
  (r, installed (reset_turn b) sid d s f rs) = (r', installed (reset_turn b) sid' d' s' f' rs') → f' = f.
Proof. destruct f, f'. cbn. intros [=]. by subst. Qed.

(** The dispatch of a message of a reachable world. *)
Lemma reachable_dispatch w env sid b msg :
  reachable cfg w → w_actors w !! sid = Some b → handler_contract env →
  routed cfg env (w_db w) sid b msg →
  match reload cfg env (w_db w) b with
  | Ok b1 => clean cfg (w_db w) sid b1 ∧ outcome cfg env (w_db w) sid (reset_turn b1)
      (dispatch cfg env (w_db w) msg (reset_turn b1))
  | Err _ => True
  end.
Proof.
  intros Hw Hb Hh Hm. destruct (reachable_inv cfg w Hw) as [Hrows Habs Hact].
  destruct (reload cfg env (w_db w) b) as [b1|e] eqn:Er; [|done].
  destruct (reload_clean _ _ _ _ _ _ (Hrows sid) (Hact sid b Hb) Er) as (Hc & _ & Hd). split; [done|].
  apply dispatch_outcome; [apply Hrows|apply Habs|done|done|constructor|].
  by eapply routed_reloaded.
Qed.

Lemma reachable_turn w env sid b msg :
  reachable cfg w → w_actors w !! sid = Some b → handler_contract env →
  routed cfg env (w_db w) sid b msg →
  let t := Receive cfg env msg b (w_db w) in
  t_db t = w_db w ∨ turned cfg env (w_db w) sid b msg t.
Proof.
  intros Hw Hb Hh Hm. destruct (reachable_inv cfg w Hw) as [Hrows Habs Hact].
  destruct (receive_outcome cfg env (w_db w) sid b msg (Hrows sid) (Habs sid) Hh (Hact sid b Hb) Hm)
    as [[Hdb _]|Ht]; auto.
Qed.

(** ** The tables *)



(** The ledger hears of the transfer of a session at most once, and then of the
    total of the inputs of a package that was submitted and whose finalize was
    handed to the operator connection. *)
Theorem oor_sent_reported_once w sid :
  reachable cfg w → sent_ok (mail (w_db w) sid) (sent_notes (w_db w) sid) sid.
Proof.
  intros Hw. destruct (reachable_inv cfg w Hw) as [Hrows Habs _].
  destruct (rows (w_db w) !! sid) as [r|] eqn:Er; [|left; by apply Habs].
  destruct (Hrows sid r Er) as (s & data & Hr & He & _). destruct (r_Direction r); [|apply He].
  by apply (evidence_ready cfg (w_db w) sid DirIncoming s).
Qed.

(** C16 An idempotency key names one session for good: two stored sessions with the
    same key are the same session, also when one of them has failed. *)
Theorem oor_key_names_one_session w sid1 sid2 r1 r2 :
  reachable cfg w → rows (w_db w) !! sid1 = Some r1 → rows (w_db w) !! sid2 = Some r2 →
  r_IdempotencyKey r1 ≠ "" → r_IdempotencyKey r2 = r_IdempotencyKey r1 → sid1 = sid2.
Proof.
  intros Hw Hr1 Hr2 Hk He. pose proof (reachable_inv cfg w Hw) as [Hrows _ _].
  assert (∀ sid r, rows (w_db w) !! sid = Some r → r_IdempotencyKey r ≠ "" →
    ∃ data, attempts (w_db w) !! r_IdempotencyKey r = Some (sid, data)) as Hheld.
  { intros sid r Hr Hne. destruct (Hrows sid r Hr) as (s & data & _ & Hev & Hrec).
    destruct (r_Direction r) eqn:Ed.
    - apply record_key in Hrec as [_ Hkey]. rewrite (Hkey eq_refl) in Hne |- *. by apply Hev.
    - cbn in Hrec. unfold incomingRegistryRecord in Hrec. inv_ok. by destruct Hne. }
  destruct (Hheld _ _ Hr1 Hk) as [x1 H1]. destruct (Hheld _ _ Hr2) as [x2 H2]; [by rewrite He|].
  rewrite He, H1 in H2. by injection H2.
Qed.

(** C17 An incoming transfer is acknowledged only in the transaction that stored its
    outputs: a turn after which an acknowledgement is in the mailbox of the
    operator connection that was not there before has stored exactly the outputs
    the persistence handler gave for the package of the session. *)
Theorem oor_ack_with_storage w env sid b msg x :
  reachable cfg w → w_actors w !! sid = Some b → handler_contract env →
  routed cfg env (w_db w) sid b msg →
  let t := Receive cfg env msg b (w_db w) in
  IncomingAck x ∈ mail (t_db t) sid → IncomingAck x ∉ mail (w_db w) sid →
  x = sid ∧ ∃ r descs, mr_SessionID r = sid ∧ TxHash (mr_ArkPSBT r) = sid ∧
    HandleMaterialize env r = Ok [IncomingHandledEvent descs] ∧
    stored (t_db t) = stored (w_db w) ++ descs.
Proof.
  intros Hw Hb Hh Hm t Hin Hnew.
  destruct (reachable_turn w env sid b msg Hw Hb Hh Hm) as [Hdb|Ht]; [by rewrite <- Hdb in Hnew|].
  destruct Ht as (b1 & resp & rs & d & s' & f & s2 & _ & _ & Hadv & Htn & _).
  destruct Htn as [(msgs & notes & descs & r & data & Hwk & C)]. fold t in C.
  rewrite (committed_mail _ C) in Hin. apply elem_of_app in Hin as [Hin|Hin]; [done|].
  assert (no_ack (f_msgs f)) as Hna.
  { destruct Hadv as [(s & _ & _ & _ & Hmv)|[Hbg _]]; [by eapply move_no_ack|by eapply begins_no_ack]. }
  apply elem_of_app in Hin as [Hin|Hin].
  { unfold no_ack in Hna. rewrite Forall_forall in Hna. by destruct (Hna _ Hin). }
  inversion Hwk as [| | |n r' descs' Hn Hmat Hw1 Hw2 Hw3 Hw4]; subst; try by apply not_elem_of_nil in Hin.
  apply list_elem_of_singleton in Hin as [= ->].
  destruct Hadv as [(s & _ & Hr & _ & Hmv)|[Hbg _]].
  - inversion Hmv; subst; try discriminate.
    injection Hw1 as ->. destruct d; [done|]. destruct Hr as (Hsid & Htx & _).
    split; [done|]. eexists _, descs. split_and!; [| |exact Hmat|exact (com_stored C)]; done.
  - by destruct Hbg.
Qed.

(** ** Turns *)

Lemma restore_fresh env db b :
  restore cfg env db (set_session b (b_sessionID b) (b_direction b) None false) =
  match NewOORSessionActor cfg env (b_sessionID b) (b_direction b) db with
  | Ok b0 => Ok (set_session b (b_sessionID b0) (b_direction b0) (b_fsm b0) (b_loaded b0))
  | Err e => Err e
  end.
Proof.
  unfold NewOORSessionActor, restore. cbn. destruct (ReadFails env); [done|].
  destruct (rows db !! b_sessionID b) as [r|]; [|done]. destruct (_ =? _); [|done].
  destruct (b_direction b); [case_bool_decide|]; try (by destruct (sessionFromRecord cfg r)).
  by destruct (selfTransfer _ r).
Qed.

Lemma fresh_actor env sid d db b0 :
  NewOORSessionActor cfg env sid d db = Ok b0 →
  b0 = mkBehavior sid (b_direction b0) (b_fsm b0) (b_loaded b0) false [] [] [] [] [] false None [].
Proof.
  unfold NewOORSessionActor, restore. cbn. intros H. inv_ok.
  destruct (rows db !! sid) as [r|]; inv_ok; [|done].
  destruct d; [case_bool_decide|]; inv_ok; done.
Qed.


(** C35 The follow-up events of a turn come to an end: the chain of outbox events,
    answers and further outbox events of any message to any actor of a reachable
    world, in the dispatch and inside the transaction, is never longer than the
    machine allows for. *)
Theorem oor_turn_terminates w env sid b msg :
  reachable cfg w → w_actors w !! sid = Some b → handler_contract env →
  routed cfg env (w_db w) sid b msg →
  t_resp (Receive cfg env msg b (w_db w)) ≠ Err ErrFuel.
Proof.
  intros Hw Hb Hh Hm. pose proof (reachable_dispatch w env sid b msg Hw Hb Hh Hm) as Hd.
  destruct (driving msg) eqn:Hdr; [|destruct msg; try done; cbn; unfold handleGetState; by destruct (b_fsm b)].
  rewrite receive_driving by done. destruct (reload cfg env (w_db w) b) as [b1|e]; [|done].
  destruct Hd as [_ Ho].
  destruct (dispatch cfg env (w_db w) msg (reset_turn b1)) as [[resp|e] b2]; cbn in Ho.
  - destruct Ho as (d & s' & f & rs & Hadv & ->).
    pose proof (commit_calm cfg env (installed (reset_turn b1) sid d s' f rs) (w_db w) s' Hh eq_refl
      (proj2 (advance_own _ _ _ _ _ _ _ _ Hadv))) as Hc.
    destruct (commitAck cfg env _ (w_db w)) as [[[[]|e] b3] db3]; [by destruct (dedupKeyWinner b3)|].
    cbn in Hc |- *. congruence.
  - by destruct Ho as ([x ->] & _).
Qed.

(** ** Restarts *)


(** ** Timers *)

(** The delays an outbox asks for. *)
Definition delays (outbox : list OutboxEvent) : list Z :=
  omap (λ ev, match ev with ScheduleRetryRequest after _ => Some after | _ => None end) outbox.

(** The machine on [n] due timers, with the delays it asked for. *)
Fixpoint timers (env : Environment) (n : nat) (s : SessionState) : result error (SessionState * list Z) :=
  match n with
  | O => Ok (s, [])
  | S n =>
      let* r := ProcessEvent s RetryDueEvent env in
      let* rest := timers env n r.1 in
      Ok (rest.1, delays r.2 ++ rest.2)
  end.

Definition attempts_of (s : SessionState) : Z :=
  match s with ReceiveResolving s => ResolveAttempts s | ReceiveNotified s => MetadataAttempts s | _ => 0 end.

Definition bounded_delay (d : Z) : Prop := metadataRetryBaseDelay ≤ d ≤ metadataRetryMaxDelay.

Lemma backoff_bounded n : bounded_delay (metadataRetryBackoff n).
Proof.
  unfold bounded_delay, metadataRetryBackoff. cbv zeta. set (k := if 30 <? _ then _ else _).
  set (d := int64 (Z.shiftl metadataRetryBaseDelay k)).
  destruct ((d <=? 0) || (metadataRetryMaxDelay <? d)) eqn:E; [done|]. zbool. split; [|done].
  assert (0 ≤ k ≤ 30) as Hk.
  { subst k. destruct (30 <? _) eqn:E3; [lia|]. zbool. unfold uint32 in *.
    pose proof (Z.mod_pos_bound ((if n <? 1 then 1 else n) - 1) 4294967296 ltac:(lia)). lia. }
  subst d. rewrite Z.shiftl_mul_pow2 in * by lia.
  assert (1 ≤ 2 ^ k ≤ 1073741824) as Hp.
  { split; [lia|]. change 1073741824 with (2 ^ 30). apply Z.pow_le_mono_r; lia. }
  rewrite int64_id; unfold is_int64, metadataRetryBaseDelay, Second; lia.
Qed.

(** A due timer counts, or gives up. *)
Lemma timer_step env sid s :
  at_rest sid DirIncoming s → waitsOnGiveUpTimer s = true →
  ∃ s' outbox, ProcessEvent s RetryDueEvent env = Ok (s', outbox) ∧ Forall bounded_delay (delays outbox) ∧
    ((∃ reason, s' = receiveFailed reason) ∨
     at_rest sid DirIncoming s' ∧ waitsOnGiveUpTimer s' = true ∧ attempts_of s' = attempts_of s + 1).
Proof.
  intros Hr Hw. destruct s as [| | | | | | | | |rr|rn| |]; try done; cbn [ProcessEvent].
  - destruct Hr as [Hid Hb]. cbn [ReceiveResolving_ProcessEvent]. unfold handleResolveRetry.
    destruct (maxResolveRetries <=? _) eqn:E.
    { eexists _, _. split; [done|]. split; [constructor|]. left. by eexists. }
    zbool. eexists _, _. split; [done|]. split.
    { cbn. apply Forall_singleton, backoff_bounded. }
    right. cbn. unfold maxResolveRetries, uint32 in *. rewrite Z.mod_small by lia. split_and!; [done|lia..|done].
  - destruct Hr as (Hid & Htx & Hb). cbn [ReceiveNotified_ProcessEvent].
    unfold handleNotifiedTimerRetry, notifiedGiveUp. destruct (maxMetadataRetries <=? _) eqn:E.
    { eexists _, _. split; [done|]. split; [constructor|]. left. by eexists. }
    zbool. assert (uint32 (MetadataAttempts rn + 1) = MetadataAttempts rn + 1) as Hu.
    { unfold maxMetadataRetries, uint32 in *. apply Z.mod_small. lia. }
    destruct (ExtractArkRecipients (rn_ArkPSBT rn)); (eexists _, _; split; [done|]; split;
      [cbn; apply Forall_singleton, backoff_bounded|]; right; cbn; rewrite Hu;
      unfold maxMetadataRetries in *; split_and!; [done..|lia|lia|done|done]).
Qed.

Lemma failed_timers env n reason : timers env n (receiveFailed reason) = Ok (receiveFailed reason, []).
Proof. induction n as [|n IH]; [done|]. cbn [timers]. cbn. by rewrite IH. Qed.

Lemma timers_give_up env sid n s :
  at_rest sid DirIncoming s → waitsOnGiveUpTimer s = true → 20 - attempts_of s < Z.of_nat n →
  ∃ reason ds, timers env n s = Ok (receiveFailed reason, ds) ∧ Forall bounded_delay ds.
Proof.
  revert s. induction n as [|n IH]; intros s Hr Hw Hn.
  { destruct s; try done; cbn in *; unfold maxResolveRetries, maxMetadataRetries in *; lia. }
  destruct (timer_step env sid s Hr Hw) as (s' & outbox & Hs & Hd & Hs'). cbn [timers]. rewrite Hs. cbn.
  destruct Hs' as [[reason ->]|(Hr' & Hw' & Ha)].
  - rewrite failed_timers. eexists reason, _. split; [done|]. cbn. by rewrite app_nil_r.
  - destruct (IH s' Hr' Hw') as (reason & ds & -> & Hds); [lia|]. cbn.
    eexists reason, _. split; [done|]. by apply Forall_app.
Qed.

(** C36 A receiving session that hears nothing gives up: whatever it waits for, the
    resolution of a hint or the metadata of its outputs, it has failed after at most
    twenty-one timers, and every timer it asks for on the way is between one second
    and five minutes. *)
Theorem oor_receive_gives_up env sid s :
  at_rest sid DirIncoming s → waitsOnGiveUpTimer s = true →
  ∃ reason ds, timers env 21 s = Ok (receiveFailed reason, ds) ∧ Forall bounded_delay ds.
Proof.
  intros Hr Hw. apply (timers_give_up env sid); [done..|].
  destruct s; try done; cbn in Hr; unfold maxResolveRetries, maxMetadataRetries in *; cbn; lia.
Qed.

(** The outcome of rejections of a submit, each at its time, with what the outboxes
    release. *)
Fixpoint rejections (sid : Hash) (maxRetry : Z) (l : list (Z * OutboxError)) (s : SessionState) :
    result error (SessionState * list OutboxEvent) :=
  match l with
  | [] => Ok (s, [])
  | (now, e) :: l =>
      let* r := ProcessEvent s (OutboxErrorEvent e) (mkEnvironment sid now maxRetry) in
      let* rest := rejections sid maxRetry l r.1 in
      Ok (rest.1, filter (λ ev, match ev with ReleaseInputsRequest _ _ => true | _ => false end = true) r.2
            ++ rest.2)
  end.

(** What is released of a session that fails before the point of no return. *)
Definition release_all (s : SessionState) : list OutboxEvent :=
  if bool_decide (prePONRInputOutpoints s = []) then []
  else [ReleaseInputsRequest (prePONRInputOutpoints s) (prePONRReserveEpochs s)].

Lemma failed_rejections sid m l reason key p :
  rejections sid m l (Failed reason key p) = Ok (Failed reason key p, []).
Proof. induction l as [|[t e] l IH]; [done|]. cbn [rejections]. cbn. by rewrite IH. Qed.

Lemma rejections_from sid m l su first :
  0 < m < 9223372036854775807 → first ≠ 0 → FirstRejectUnixNanos su = first →
  Forall (λ x, Retryable x.2 = true) l →
  (Exists (λ x, m < x.1 - first) l →
     ∃ reason, rejections sid m l (AwaitingSubmitAccepted su) =
       Ok (Failed reason (su_IdempotencyKey su) true, release_all (AwaitingSubmitAccepted su))) ∧
  (Forall (λ x, x.1 - first ≤ m) l →
     ∃ su', same_submit su su' ∧ rejections sid m l (AwaitingSubmitAccepted su) =
       Ok (AwaitingSubmitAccepted su', [])).
Proof.
  intros Hm Hf. revert su. induction l as [|[t e] l IH]; intros su Hsu Hre.
  { split; [by intros ?%Exists_nil|]. intros _. exists su. split; [|done].
    exists (su_RetryAfter su), (su_RetryReason su), (FirstRejectUnixNanos su). by destruct su. }
  inversion Hre as [|? ? He Hl]; subst. cbn [snd] in He. cbn [rejections ProcessEvent SubmitAccepted_ProcessEvent].
  unfold handleSubmitOutboxError. rewrite He. cbn [negb Now MaxTransientSubmitRetry]. cbv zeta.
  rewrite (proj2 (Z.ltb_lt 0 m)), (proj2 (Z.eqb_neq (FirstRejectUnixNanos su) 0)) by (done || lia).
  cbn [negb andb].
  destruct (m <? time_sub t (FirstRejectUnixNanos su)) eqn:E.
  - apply Z.ltb_lt in E. assert (m < t - FirstRejectUnixNanos su) as Ht by (unfold time_sub in E; lia).
    split; [|intros Hb; inversion Hb; subst; cbn in *; lia]. intros _.
    unfold handleOutboxError, go, failedState. cbn [Retryable negb ErrorReason fst snd stateIdempotencyKey
      failsBeforePONR]. rewrite failed_rejections. cbn [fst snd]. rewrite app_nil_r. eexists.
    unfold release_all. by case_bool_decide.
  - apply Z.ltb_ge in E. assert (t - FirstRejectUnixNanos su ≤ m) as Ht by (unfold time_sub in E; lia).
    unfold go. cbn [fst snd filter].
    set (su1 := set_retry su _ _ _). destruct (IH su1 eq_refl Hl) as [IH1 IH2]. split.
    + intros Hex. apply Exists_cons in Hex as [Hx|Hx]; [cbn in Hx; lia|].
      destruct (IH1 Hx) as [reason ->]. by exists reason.
    + intros Hb. inversion Hb; subst. destruct (IH2) as (su' & (a & b & c & ->) & ->); [done|].
      eexists. split; [|done]. by exists a, b, c.
Qed.

(** A submit the operator keeps rejecting as transient is retried for the
    configured time and no longer, counted from the first rejection: once a
    rejection comes later than that the session has failed before the point of no
    return, under its key, and all its inputs were released, once; until then it
    waits with the package it has and releases nothing. *)
Theorem oor_submit_retry_bounded sid m su now e l :
  0 < m < 9223372036854775807 → 0 < now ≤ 9223372036854775807 → FirstRejectUnixNanos su = 0 →
  Forall (λ x, Retryable x.2 = true) ((now, e) :: l) →
  (Exists (λ x, m < x.1 - now) l →
     ∃ reason, rejections sid m ((now, e) :: l) (AwaitingSubmitAccepted su) =
       Ok (Failed reason (su_IdempotencyKey su) true, release_all (AwaitingSubmitAccepted su))) ∧
  (Forall (λ x, x.1 - now ≤ m) l →
     ∃ su', same_submit su su' ∧ rejections sid m ((now, e) :: l) (AwaitingSubmitAccepted su) =
       Ok (AwaitingSubmitAccepted su', [])).
Proof.
  intros Hm Hnow Hf Hre. inversion Hre as [|? ? He Hl]; subst. cbn [snd] in He.
  cbn [rejections ProcessEvent SubmitAccepted_ProcessEvent]. unfold handleSubmitOutboxError.
  rewrite He, Hf. cbn [negb Now MaxTransientSubmitRetry]. cbv zeta. cbn [Z.eqb]. rewrite andb_false_r. cbn [andb].
  rewrite int64_id by (unfold is_int64; lia). unfold go. cbn [fst snd filter].
  set (su1 := set_retry su _ _ _). destruct (rejections_from sid m l su1 now Hm) as [H1 H2]; [lia|done|done|].
  split.
  - intros Hx. destruct (H1 Hx) as [reason ->]. by exists reason.
  - intros Hb. destruct (H2 Hb) as (su' & (a & b & c & ->) & ->). eexists. split; [|done]. by exists a, b, c.
Qed.

End Promises.

(** ** A concrete run *)

Module OorDemo.
(** Keys are numbers; a packet is a transaction hash with a count of signatures. *)
#[export] Instance scripts : ArkScripts := {|
  PubKey := N;
  SerializeCompressed k := [Z.of_N k];
  ParsePubKey bs := match bs with [k] => Ok (Z.to_N k) | _ => Err "invalid public key" end;
  TapScript := unit;
  VTXOTapScript _ _ _ := Ok tt;
  VTXOPkScript _ _ _ := Ok [1];
  CollabOwnerLeaf _ _ := Ok ([81], [82]);
  LeafScript _ := Ok [81];
  EncodeStandardVTXOTemplate _ _ _ := Ok [7];
  MatchesPkScript _ _ := Ok true;
  customSpendKeys _ _ := Ok [];
  ExternalSignature := unit;
|}.

#[export] Instance key_laws : KeyLaws.
Proof. split; [|done]. intros k. cbn. by rewrite N2Z.id. Qed.

#[export] Instance tx : OorTx := {|
  oor_scripts := scripts;
  Packet := N * N;
  TxHash p := p.1;
  PolicyRest := unit;
  BuildSubmitPackage _ ins outs :=
    match ins, outs with
    | i :: _, _ :: _ => Ok ((500 + Z.to_N (op_Index (v_Outpoint (VTXO i))), 0)%N,
        (λ i, (900 + Z.to_N (op_Index (v_Outpoint (VTXO i))), 0)%N) <$> ins)
    | _, _ => Err "empty package"
    end;
  ValidateSubmitPackage _ _ := Ok tt;
  ValidateSubmitPackageSigned _ _ := Ok tt;
  ValidateFinalizePackageSigned _ _ := Ok tt;
  ValidateCanonicalPSBT _ := Ok tt;
  NonAnchorOutputs p := [mkArkRecipient 0 700 [81; 32; 5] []];
  RawPacket := N * N;
  Serialize p := Ok p;
  Parse p := Ok p;
  IncomingMetadata := unit;
  PackageArtifact := unit;
|}.

#[export] Instance tx_laws : OorTxLaws.
Proof.
  split.
  - intros p raw [= ->]. done.
  - intros policy ins outs ark cps. cbn. destruct ins, outs; try done. by intros [= <- <-].
Qed.

Definition cfg : Config :=
  mkConfig true true true true true true true true true true true 100 1000 600000000000.

(** Everything works; the signer adds a signature. *)
Definition answers (faults : list bool) : Answers :=
  mkAnswers 1000 (λ p _ _, Ok (p.1, p.2 + 1)%N) (λ _ ps, Ok ((λ p, (p.1, p.2 + 1)%N) <$> ps))
    (λ _, Ok true) (λ _, Ok tt) (λ _, Ok tt) (λ _ _, Ok tt)
    (λ ms, Ok [IncomingMetadataResolvedEvent ms true])
    (λ r, Ok [IncomingHandledEvent [mkReceived (mkOutPoint (mr_SessionID r) 0) 700]])
    (λ rs, Ok rs) (λ _, true) None false false faults.
Definition good : Answers := answers [].

Definition sid : Hash := 507%N.
Definition coin : TransferInput :=
  mkTransferInput (mkVtxo (mkOutPoint 3%N 7) 5000 [1] 0 0 (Some 11%N) (Some 12%N) (Some tt) 144)
    4 [] [] [] None [] [].
Definition payment : StartTransfer :=
  mkStartTransfer [coin] [mkRecipient [81; 32; 7] 5000 []] (mkPolicy (Some 12%N) tt) "pay-1" [].
Definition start : OorMsg := StartTransferRequest payment 0.
Definition signed : OorMsg :=
  DriveEventRequest (Some (SubmitAcceptedEvent sid (Some (507, 2)%N) [(907, 2)%N])).
Definition accepted : OorMsg := DriveEventRequest (Some FinalizeAcceptedEvent).
Definition rejected : OorMsg :=
  DriveEventRequest (Some (OutboxErrorEvent (mkOutboxError false 0 (Plain "double spend")))).

(** A world after an actor is started, and after a turn of it. *)
Definition spawn (w : World) (sid : Hash) (d : Direction) : World :=
  match NewOORSessionActor cfg good sid (Some d) (w_db w) with
  | Ok b => mkWorld (w_db w) (<[sid := b]> (w_actors w))
  | Err _ => w
  end.
Definition run (w : World) (sid : Hash) (msg : OorMsg) : World :=
  match w_actors w !! sid with
  | Some b => turn_world w sid (Receive cfg good msg b (w_db w))
  | None => w
  end.
Definition actor (w : World) (sid : Hash) : Behavior :=
  match w_actors w !! sid with
  | Some b => b
  | None => mkBehavior 0%N None None false false [] [] [] [] [] false None []
  end.

Definition w0 : World := spawn empty_world sid DirOutgoing.
Definition w1 : World := run w0 sid start.
Definition w2 : World := run w1 sid signed.
Definition w3 : World := run w2 sid accepted.

(** A transfer that arrives. *)
Definition sid' : Hash := 600%N.
Definition hint : OorMsg := ResolveIncomingTransferRequest sid' [81; 32; 5] 9.
Definition package : OorMsg :=
  DriveEventRequest (Some (IncomingTransferEvent
    (mkIncomingTransfer sid' (Some (600, 2)%N) [(901, 3)%N] [] []))).
Definition metadata : OorMsg := DriveEventRequest (Some (IncomingMetadataResolvedEvent [] false)).
Definition v0 : World := spawn w3 sid' DirIncoming.
Definition v1 : World := run v0 sid' hint.
Definition v2 : World := run v1 sid' package.
Definition v3 : World := run v2 sid' metadata.

(** The actor whose first turn could not be written. *)
Definition torn : Behavior := t_behavior (Receive cfg (answers [true]) start (actor w0 sid) (w_db w0)).

Lemma good_contract faults : handler_contract (answers faults).
Proof.
  split_and!; try done.
  - intros ms events [= <-]. by exists ms.
  - intros r events [= <-]. by eexists.
Qed.

Lemma spawn_reachable w sid d :
  reachable cfg w → w_actors w !! sid = None → reachable cfg (spawn w sid d).
Proof.
  intros Hw Hn. unfold spawn. destruct (NewOORSessionActor _ _ _ _ _) as [b|] eqn:E; [|done].
  eapply rtc_r; [exact Hw|]. by eapply step_spawn.
Qed.

Lemma oor_run_reachable w sid msg :
  reachable cfg w → routed cfg good (w_db w) sid (actor w sid) msg → reachable cfg (run w sid msg).
Proof.
  intros Hw Hr. unfold run, actor in *. destruct (w_actors w !! sid) as [b|] eqn:E; [|done].
  eapply rtc_r; [exact Hw|]. by apply step_turn; [|apply good_contract|].
Qed.

Lemma actor_here w sid :
  bool_decide (is_Some (w_actors w !! sid)) = true → w_actors w !! sid = Some (actor w sid).
Proof. unfold actor. intros [b Hb]%bool_decide_eq_true_1. by rewrite Hb. Qed.

Lemma ack_in m x : filter is_ack_msg m = [IncomingAck x] → IncomingAck x ∈ m.
Proof.
  intros H. assert (IncomingAck x ∈ filter is_ack_msg m) as Hin by (rewrite H; apply list_elem_of_here).
  by apply list_elem_of_filter in Hin as [_ ?].
Qed.

Lemma ack_not_in m x : filter is_ack_msg m = [] → IncomingAck x ∉ m.
Proof. intros H. by apply (filter_nil_not_elem_of is_ack_msg m). Qed.

Lemma start_routed : routed cfg good (w_db w0) sid (actor w0 sid) start.
Proof.
  assert (match newSession cfg good payment with Ok (x, _, _) => x | Err _ => sid end = sid) as Hid
    by (vm_compute; reflexivity).
  assert (b_direction (actor w0 sid) = Some DirOutgoing) as Hd by (vm_compute; reflexivity).
  assert (rows (w_db w0) !! sid = None) as Hr by (vm_compute; reflexivity).
  assert (mail (w_db w0) sid = []) as Hm by (vm_compute; reflexivity).
  split_and!.
  - intros x st o H. by rewrite H in Hid.
  - by rewrite Hd.
  - intros r H. by rewrite Hr in H.
  - right. rewrite Hm. constructor.
Qed.

Lemma w0_reachable : reachable cfg w0.
Proof. apply spawn_reachable; [constructor|done]. Qed.
Lemma w1_reachable : reachable cfg w1.
Proof. apply oor_run_reachable; [apply w0_reachable|apply start_routed]. Qed.
Lemma w2_reachable : reachable cfg w2.
Proof. apply oor_run_reachable; [apply w1_reachable|done]. Qed.
Lemma w3_reachable : reachable cfg w3.
Proof. apply oor_run_reachable; [apply w2_reachable|done]. Qed.
Lemma v2_reachable : reachable cfg v2.
Proof.
  apply oor_run_reachable; [|done]. apply oor_run_reachable; [|done]. apply spawn_reachable; [apply w3_reachable|].
  by vm_compute.
Qed.

End OorDemo.

Import OorDemo.

(** The transfer runs through: it is completed, its package is stored and the ledger
    was told its amount. *)
Example demo_completed :
  r_Status <$> rows (w_db w3) !! sid = Some StatusCompleted ∧
  packages (w_db w3) !! sid = Some ((507, 2)%N, [(907, 3)%N]) ∧
  ledger_mailbox (w_db w3) = [sent_msg sid 5000].
Proof. by vm_compute. Qed.



Lemma oor_sent_reported_once_witness : sent_ok (mail (w_db w3) sid) [sent_msg sid 5000] sid.
Proof. exact (oor_sent_reported_once cfg w3 sid w3_reachable). Defined.

Lemma oor_key_names_one_session_witness : sid = 507%N.
Proof.
  set (r := default (mkRow DirIncoming "" StatusFailed (Plain "")
      (inr (plainIncoming 0%N IncomingPhaseFailed (Plain ""))) 0) (rows (w_db w3) !! sid)).
  assert (rows (w_db w3) !! sid = Some r) as Hr by (vm_compute; reflexivity).
  assert (r_IdempotencyKey r = "pay-1") as Hk by (vm_compute; reflexivity).
  refine (oor_key_names_one_session cfg w3 sid 507%N r r w3_reachable Hr Hr _ eq_refl).
  rewrite Hk. discriminate.
Defined.

Lemma oor_ack_with_storage_witness :
  let t := Receive cfg good metadata (actor v2 sid') (w_db v2) in
  sid' = sid' ∧ ∃ r descs, mr_SessionID r = sid' ∧ TxHash (mr_ArkPSBT r) = sid' ∧
    HandleMaterialize good r = Ok [IncomingHandledEvent descs] ∧
    stored (t_db t) = stored (w_db v2) ++ descs.
Proof.
  assert (w_actors v2 !! sid' = Some (actor v2 sid')) as Hb
    by (apply actor_here; vm_compute; reflexivity).
  assert (IncomingAck sid' ∈ mail (t_db (Receive cfg good metadata (actor v2 sid') (w_db v2))) sid') as Hin.
  { assert (filter is_ack_msg (mail (t_db (Receive cfg good metadata (actor v2 sid') (w_db v2))) sid') =
      [IncomingAck sid']) as Hf by (vm_compute; reflexivity).
    exact (ack_in _ _ Hf). }
  assert (IncomingAck sid' ∉ mail (w_db v2) sid') as Hout.
  { assert (filter is_ack_msg (mail (w_db v2) sid') = []) as Hf by (vm_compute; reflexivity).
    exact (ack_not_in _ _ Hf). }
  exact (oor_ack_with_storage cfg v2 good sid' (actor v2 sid') metadata sid' v2_reachable Hb
    (good_contract []) eq_refl Hin Hout).
Defined.


Lemma oor_turn_terminates_witness :
  t_resp (Receive cfg good signed (actor w1 sid) (w_db w1)) ≠ Err ErrFuel.
Proof.
  assert (w_actors w1 !! sid = Some (actor w1 sid)) as Hb
    by (apply actor_here; vm_compute; reflexivity).
  exact (oor_turn_terminates cfg w1 good sid (actor w1 sid) signed w1_reachable Hb (good_contract []) I).
Defined.


Lemma oor_receive_gives_up_witness :
  let s := ReceiveResolving (mkResolving sid' [81] 9 0) in
  ∃ reason ds, timers (mkEnvironment sid' 0 0) 21 s = Ok (receiveFailed reason, ds) ∧
    Forall bounded_delay ds.
Proof.
  apply (oor_receive_gives_up (mkEnvironment sid' 0 0) sid'); [|reflexivity].
  vm_compute. split; [reflexivity|]. split; intros H; discriminate H.
Defined.

Lemma oor_submit_retry_bounded_witness :
  let su := mkSubmitting (507, 1)%N [(907, 0)%N] [coin] [] "pay-1" [] 0 (Plain "") 0 in
  let busy := mkOutboxError true 0 (Plain "busy") in
  ∃ reason, rejections sid 600 [(1000, busy); (1500, busy); (1601, busy)] (AwaitingSubmitAccepted su) =
    Ok (Failed reason "pay-1" true,
        [ReleaseInputsRequest [mkOutPoint 3%N 7] {[mkOutPoint 3%N 7 := 4]}]).
Proof.
  intros su busy.
  assert (0 < 600 < 9223372036854775807) as Hm by lia.
  assert (0 < 1000 ≤ 9223372036854775807) as Hn by lia.
  assert (Forall (λ x, Retryable x.2 = true) [(1000, busy); (1500, busy); (1601, busy)]) as Hre
    by (repeat constructor).
  apply (proj1 (oor_submit_retry_bounded sid 600 su 1000 busy [(1500, busy); (1601, busy)] Hm Hn eq_refl Hre)).
  apply Exists_cons_tl, Exists_cons_hd. cbn. lia.
Defined.

(** ** What the run also shows *)

Module OorEdges.
(** After a restart the same package is submitted again, without its recipients. *)
Definition restarted : World := spawn (mkWorld (w_db w1) ∅) sid DirOutgoing.
Example resubmitted_without_recipients :
  (λ m, match m with SubmitPackage _ _ _ recipients => length recipients | _ => 0%nat end) <$>
    mail (w_db (run restarted sid (ResumeSessionRequest false))) sid = [1%nat; 0%nat].
Proof. by vm_compute. Qed.

(** Co-signed checkpoints that come with a malformed transaction release the inputs
    and leave a failure that is recorded as one before the point of no return. *)
Definition malformed : OorMsg := DriveEventRequest (Some (SubmitAcceptedEvent sid None [(907, 2)%N])).
Example cosigned_released :
  turn_calls cfg good (w_db w1) malformed (actor w1 sid) =
    [CallReleaseSpend [mkOutPoint 3%N 7] {[mkOutPoint 3%N 7 := 4]} true] ∧
  b_fsm (actor (run w1 sid malformed) sid) =
    Some (Failed (Plain "ark psbt must be provided") "pay-1" true).
Proof. by vm_compute. Qed.

(** A transfer without a key that failed after its finalize was sent is started again
    by the same transfer with a key; its rejection is then recorded as a failure
    before the point of no return. *)
Definition unkeyed : OorMsg :=
  StartTransferRequest (mkStartTransfer (VTXOInputs payment) (RecipientOutputs payment) (Policy payment) "" []) 0.
Definition failure : OorMsg := DriveEventRequest (Some (FailEvent (Plain "shutdown"))).
Definition again : World :=
  foldl (λ w msg, run w sid msg) w0 [unkeyed; signed; failure; start; rejected].
Example keyed_retry_after_finalize :
  b_fsm (actor again sid) = Some (Failed (Plain "double spend") "pay-1" true) ∧
  filter is_finalize (mail (w_db again) sid) = [FinalizePackage (507, 2)%N [(907, 3)%N]].
Proof. by vm_compute. Qed.
End OorEdges.
