(* ===== verification/TxTree.v ===== *)
(** * Transaction trees: [lib/tree]

    The off-chain outputs of a round hang in a tree of transactions below one
    output of the commitment transaction.  A branch splits the output it spends
    among its children, a leaf pays one VTXO or connector; every transaction ends
    in an anchor, pays no fee, and is signed by the aggregate key of everyone below
    it.  Modelled are the nodes and trees ([node.go], [tree.go]), the validators
    ([value.go], [scripts.go], [tree.go]), the asset context
    ([asset_tree_context.go]) and the construction ([tree_structure.go],
    [build.go], [materializer_btc.go], [btc_tree_assembler.go], [batch.go]).

    A node is a value and not a pointer: a decoded tree shares no node, since the
    decoder refuses a second parent and anything unreachable.  Children are listed
    by their output index, in the order every traversal sorts them.  Outputs are
    non-nil, and fewer than 2^32 in one transaction.  Hashing, MuSig2 aggregation, taproot keys and Schnorr signatures are
    interfaces. *)

From S2P Require Import Prelude RecoveryProof VtxoExpiry VtxoForfeit.
Local Open Scope Z_scope.

(** [btcutil.MaxSatoshi] *)
Definition MaxSatoshi : Z := 2100000000000000.

(** MuSig2 and the parts of taproot that only trees use. *)
Class Musig := {
  (** [musig2.AggregateKeys] with sorted keys and a taproot tweak: the final key *)
  AggregateKeys : list PublicKey → list Z → result error PublicKey;
  (** [txscript.ComputeTaprootOutputKey] of one key *)
  TweakKey : PublicKey → list Z → PublicKey;
  (** [schnorr.SerializePubKey]: the x coordinate *)
  SerializePubKey : PublicKey → N;
  (** the key-spend signature hash of the first input, given the output it spends *)
  CalcTaprootSignatureHash : ForfeitMsgTx → option TxOut → result error (list Z);
  IsPayToTaproot : list Z → bool;
}.

Inductive Node := mkNode {
  Input : OutPoint;
  Outputs : list TxOut;
  CoSigners : list PublicKey;
  n_Amount : Z;
  NodeSignature : option Signature;
  FinalKey : option PublicKey;
  Children : list (Z * Node);
}.

(** What an asset tree knows of its transactions, by the outpoint each spends. *)
Record AssetTreeContext := mkAssetTreeContext {
  assetRef : string;
  amountsByInput : gmap OutPoint Z;
  leafRootsByInput : gmap OutPoint (list Z);
  tweaksByInput : gmap OutPoint (list Z);
  packagesByInput : gmap OutPoint (list Z);
}.

Record Tree := mkTree {
  Root : option Node;
  BatchOutpoint : OutPoint;
  BatchOutput : option TxOut;
  SweepTapscriptRoot : list Z;
  SweepKey : option PublicKey;
  SweepDelay : Z;
  AssetContext : option AssetTreeContext;
}.

Record LeafDescriptor := mkLeaf {
  l_PkScript : list Z;
  l_Amount : Z;
  CoSignerKey : option PublicKey;
  l_AssetAmount : Z;
}.

(** [for i, x := range l { y, err := f(x); ... }] *)
Fixpoint map_results {E A B} (f : A → result E B) (l : list A) : result E (list B) :=
  match l with
  | [] => Ok []
  | x :: l => let* y := f x in let* ys := map_results f l in Ok (y :: ys)
  end.

(** The same, with the position of each element kept. *)
Fixpoint index_results {E A B} (f : Z → A → result E B) (i : Z) (l : list A) :
    result E (list (Z * B)) :=
  match l with
  | [] => Ok []
  | x :: l =>
      let* y := f i x in
      let* ys := index_results f (i + 1) l in
      Ok ((i, y) :: ys)
  end.

Section Trees.
Context {TX : Txscript} {MS : Musig}.

(** ** Nodes *)

Definition ToTx (n : Node) : ForfeitMsgTx :=
  mkForfeitMsgTx 3 0 [(Input n, MaxTxInSequenceNum)] (Outputs n).
Definition TXID (n : Node) : Hash := ForfeitTxHash (ToTx n).
Definition IsLeaf (n : Node) : bool := match Children n with [] => true | _ => false end.

Fixpoint NodesIter (n : Node) : list Node := n :: (Children n ≫= λ p, NodesIter p.2).

Fixpoint GetLeafNodes (n : Node) : list Node :=
  if IsLeaf n then [n] else Children n ≫= λ p, GetLeafNodes p.2.

Fixpoint ForEach (callback : Node → result error unit) (n : Node) : result error unit :=
  check* callback n in for_each (λ p, ForEach callback p.2) (Children n).

Fixpoint Depth (n : Node) : Z :=
  if IsLeaf n then 1
  else 1 + foldr (λ p m, Z.max (Depth p.2) m) 0 (Children n).

Definition ContainsCosigner (cosigners : list PublicKey) (targetKey : PublicKey) : bool :=
  bool_decide (targetKey ∈ cosigners).

Fixpoint unique_from (seen : list N) (cosigners : list PublicKey) : list PublicKey :=
  match cosigners with
  | [] => []
  | k :: l =>
      if bool_decide (SerializePubKey k ∈ seen) then unique_from seen l
      else k :: unique_from (SerializePubKey k :: seen) l
  end.
Definition UniqueCosigners (cosigners : list PublicKey) : list PublicKey :=
  unique_from [] cosigners.

Definition ComputeFinalKey (cosigners : list PublicKey) (tweak : list Z) :
    result error PublicKey :=
  match cosigners with
  | [] => Err "no cosigners provided"
  | [k] => Ok (TweakKey k tweak)
  | _ => wrap "failed to aggregate keys: " (AggregateKeys cosigners tweak)
  end.

(** The output script of the cosigners of a node. *)
Definition cosigner_script (cosigners : list PublicKey) (tweak : list Z) :
    result error (list Z) :=
  let* k := ComputeFinalKey cosigners tweak in PayToTaprootScript k.

Definition is_anchor (o : TxOut) : bool := bool_decide (PkScript o = AnchorPkScript).

(** The first output that is not an anchor. *)
Fixpoint first_output (i : Z) (outs : list TxOut) : option Z :=
  match outs with
  | [] => None
  | o :: outs => if is_anchor o then first_output (i + 1) outs else Some i
  end.
Definition GetNonAnchorOutpoint (n : Node) : result error OutPoint :=
  guard* IsLeaf n else "node is not a leaf" in
  match first_output 0 (Outputs n) with
  | Some i => Ok (mkOutPoint (TXID n) i)
  | None => Err "no non-anchor output found in leaf node"
  end.

(** The node and the children on paths on which one of the keys signs. *)
Fixpoint ExtractNode (targetKeys : list PublicKey) (n : Node) : option Node :=
  if existsb (ContainsCosigner (CoSigners n)) targetKeys
  then Some (mkNode (Input n) (Outputs n) (CoSigners n) 0 (NodeSignature n) (FinalKey n)
               (omap (λ p, (λ c, (p.1, c)) <$> ExtractNode targetKeys p.2) (Children n)))
  else None.

(** ** The asset context *)

Definition NodeAssetAmount (c : AssetTreeContext) (n : Node) : Z :=
  default 0 (amountsByInput c !! Input n).
Definition SigningTweak (c : AssetTreeContext) (input : OutPoint) : list Z :=
  default [] (tweaksByInput c !! input).
Definition LeafAssetRoot (c : AssetTreeContext) (input : OutPoint) : list Z :=
  default [] (leafRootsByInput c !! input).
Definition SealedPackage (c : AssetTreeContext) (input : OutPoint) : list Z :=
  default [] (packagesByInput c !! input).

Definition set_package (c : AssetTreeContext) (input : OutPoint) (pkg : list Z) :
    AssetTreeContext :=
  mkAssetTreeContext (assetRef c) (amountsByInput c) (leafRootsByInput c) (tweaksByInput c)
    (<[input := pkg]> (packagesByInput c)).

Definition cloneForRoot (c : AssetTreeContext) (root : Node) : AssetTreeContext :=
  let inputs := Input <$> NodesIter root in
  let known {A} (m : gmap OutPoint A) := filter (λ p, p.1 ∈ inputs) m in
  mkAssetTreeContext (assetRef c) (known (amountsByInput c)) (known (leafRootsByInput c))
    (known (tweaksByInput c)) (known (packagesByInput c)).

(** The asset amount of a subtree, checked against those below it. *)
Fixpoint validateAssetNode (c : AssetTreeContext) (n : Node) : result error Z :=
  let amount := NodeAssetAmount c n in
  guard* negb (amount =? 0) else "node has no asset amount" in
  guard* (Z.of_nat (length (SigningTweak c (Input n))) =? 32)
    else "node signing tweak must be 32 bytes" in
  let leafRoot := LeafAssetRoot c (Input n) in
  if IsLeaf n
  then
    guard* (Z.of_nat (length leafRoot) =? 32)
      else "leaf asset commitment root must be 32 bytes" in
    Ok amount
  else
    guard* bool_decide (leafRoot = []) else "branch has an asset commitment root" in
    let* amounts := map_results (λ p, validateAssetNode c p.2) (Children n) in
    let* total := foldr (λ a total,
      let* total := total in
      guard* negb (18446744073709551615 - total <? a) else "asset amount overflow" in
      Ok (total + a)) (Ok 0) amounts in
    guard* negb (amount <? total) else "child asset total exceeds parent amount" in
    Ok amount.

Definition ValidateAssets (c : AssetTreeContext) (root : Node) : result error unit :=
  guard* negb (bool_decide (assetRef c = "")) else "asset reference is required" in
  guard* bool_decide (NoDup (Input <$> NodesIter root))
    else "input is used by multiple nodes" in
  check* validateAssetNode c root in Ok tt.

(** ** Validators *)

Definition validateSatoshiValue (value : Z) : result error unit :=
  guard* negb (value <? 0) else "negative value" in
  guard* negb (MaxSatoshi <? value) else "value exceeds maximum" in
  Ok tt.

Fixpoint sum_outputs (total : Z) (outs : list TxOut) : result error Z :=
  match outs with
  | [] => Ok total
  | o :: outs =>
      check* validateSatoshiValue (Value o) in
      guard* negb (MaxSatoshi - Value o <? total)
        else "total output value exceeds maximum" in
      sum_outputs (total + Value o) outs
  end.

Fixpoint validateNodeValueConservation (n : Node) (expectedInput : OutPoint)
    (inputValue : Z) : result error unit :=
  guard* bool_decide (Input n = expectedInput)
    else "input does not match funding outpoint" in
  guard* negb (bool_decide (Outputs n = [])) else "transaction has no outputs" in
  let* total := sum_outputs 0 (Outputs n) in
  guard* negb (inputValue <? total) else "output value exceeds input value" in
  guard* negb (total <? inputValue) else "output value does not equal input value" in
  for_each (λ p,
    match (if p.1 <? 0 then None else Outputs n !! Z.to_nat p.1) with
    | None => Err "child references non-existent output index"
    | Some o => validateNodeValueConservation p.2 (mkOutPoint (TXID n) p.1) (Value o)
    end) (Children n).

Definition ValidateValueConservation (t : Tree) : result error unit :=
  match Root t, BatchOutput t with
  | None, _ => Err "tree root is nil"
  | _, None => Err "batch output is nil"
  | Some root, Some out =>
      check* validateSatoshiValue (Value out) in
      validateNodeValueConservation root (BatchOutpoint t) (Value out)
  end.

Definition childSigningTweak (t : Tree) (child : Node) : list Z :=
  match AssetContext t with
  | Some c => SigningTweak c (Input child)
  | None => SweepTapscriptRoot t
  end.

Fixpoint validateNodeChildScripts (tweak : Node → list Z) (n : Node) : result error unit :=
  for_each (λ p,
    match (if p.1 <? 0 then None else Outputs n !! Z.to_nat p.1) with
    | None => Err "child references non-existent output index"
    | Some parentOutput =>
        let* expectedScript := cosigner_script (CoSigners p.2) (tweak p.2) in
        guard* bool_decide (PkScript parentOutput = expectedScript)
          else "output script does not match child cosigners and signing tweak" in
        validateNodeChildScripts tweak p.2
    end) (Children n).

Definition validate_context (t : Tree) (root : Node) : result error unit :=
  match AssetContext t with
  | None => Ok tt
  | Some c => wrap "asset tree context: " (ValidateAssets c root)
  end.

Definition ValidateChildScripts (t : Tree) : result error unit :=
  match Root t with
  | None => Err "tree root is nil"
  | Some root =>
      check* validate_context t root in
      validateNodeChildScripts (childSigningTweak t) root
  end.

Definition Verify_ (t : Tree) : result error unit :=
  match Root t with
  | None => Err "tree root is nil"
  | Some root =>
      guard* bool_decide (Input root = BatchOutpoint t)
        else "root input does not match batch outpoint" in
      wrap "value conservation failed: " (ValidateValueConservation t)
  end.

(** [None] is the nil tree of a key that signs nowhere. *)
Definition ExtractPathForCoSigners (t : Tree) (targetKeys : list (option PublicKey)) :
    result error (option Tree) :=
  guard* negb (bool_decide (targetKeys = [])) else "at least one target key required" in
  guard* forallb (λ k, bool_decide (is_Some k)) targetKeys
    else "target key cannot be nil" in
  match Root t with
  | None => Err "nil root"
  | Some root =>
      Ok match ExtractNode (omap id targetKeys) root with
         | None => None
         | Some root' => Some (mkTree (Some root') (BatchOutpoint t) (BatchOutput t)
             (SweepTapscriptRoot t) (SweepKey t) (SweepDelay t)
             ((λ c, cloneForRoot c root') <$> AssetContext t))
         end
  end.

Definition root_leaves (t : Tree) : list Node := from_option GetLeafNodes [] (Root t).

Definition VerifyVTXOPath (t : Tree) (coSignerKey : option PublicKey)
    (expectedVTXOScript : list Z) : result error unit :=
  match coSignerKey with
  | None => Err "cosigner key cannot be nil"
  | Some key =>
      guard* negb (bool_decide (expectedVTXOScript = []))
        else "expected VTXO script cannot be empty" in
      let* extracted := wrap "failed to extract path: "
                          (ExtractPathForCoSigners t [Some key]) in
      match extracted with
      | None => Err "no path found for cosigner"
      | Some extracted =>
          check* wrap "extracted tree structure invalid: " (Verify_ extracted) in
          check* wrap "extracted tree child scripts invalid: "
                   (ValidateChildScripts extracted) in
          match root_leaves extracted with
          | [leaf] =>
              match Outputs leaf with
              | [vtxo; anchor] =>
                  guard* bool_decide (PkScript vtxo = expectedVTXOScript)
                    else "VTXO script mismatch" in
                  guard* (Value anchor =? 0) else "anchor output should have value 0" in
                  guard* forallb (λ n, ContainsCosigner (CoSigners n) key)
                           (from_option NodesIter [] (Root extracted))
                    else "cosigner not found in node" in
                  Ok tt
              | _ => Err "leaf should have 2 outputs"
              end
          | _ => Err "expected exactly 1 leaf"
          end
      end
  end.

(** The operator key is never nil: both callers fall back to the operator's. *)
Definition ValidatePath (t : Tree) (signingKey : option PublicKey)
    (expectedLeaf : LeafDescriptor) (operatorKey : PublicKey) : result error Tree :=
  check* wrap "VTXO path verification failed: "
           (VerifyVTXOPath t signingKey (l_PkScript expectedLeaf)) in
  let* clientTree := wrap "failed to extract client path: "
                       (ExtractPathForCoSigners t [signingKey]) in
  match clientTree with
  | Some clientTree =>
      match root_leaves clientTree with
      | leaf :: _ =>
          match Outputs leaf with
          | vtxoOutput :: _ =>
              guard* (Value vtxoOutput =? l_Amount expectedLeaf)
                else "VTXO output value != expected" in
              guard* ContainsCosigner (CoSigners leaf) operatorKey
                else "leaf does not include operator key in co-signers" in
              Ok clientTree
          | [] => Err "index out of range"
          end
      | [] => Err "index out of range"
      end
  | None => Err "nil pointer dereference"
  end.

Definition validate_anchor (n : Node) : result error unit :=
  guard* (Version (ToTx n) =? 3) else "transaction version is not 3" in
  match last (Outputs n) with
  | None => Err "transaction has no outputs"
  | Some anchorOutput =>
      guard* (Value anchorOutput =? 0) else "anchor output has value" in
      guard* is_anchor anchorOutput else "anchor output has invalid script" in
      Ok tt
  end.
Definition ValidateAnchors (t : Tree) : result error unit :=
  match Root t with
  | None => Err "nil root"
  | Some root => ForEach validate_anchor root
  end.

(** ** Signatures *)

(** Every output of the tree by its outpoint, and the output the root spends. *)
Definition node_outputs (n : Node) : list (OutPoint * TxOut) :=
  imap (λ i o, (mkOutPoint (TXID n) (Z.of_nat i), o)) (Outputs n).
Definition PrevOutputFetcher (root : Node) (initialPrevOut : TxOut) : gmap OutPoint TxOut :=
  foldl (λ m p, <[p.1 := p.2]> m) {[Input root := initialPrevOut]}
    (NodesIter root ≫= node_outputs).

Definition SigHash (n : Node) (prevOuts : gmap OutPoint TxOut) : result error (list Z) :=
  CalcTaprootSignatureHash (ToTx n) (prevOuts !! Input n).

Definition verifyNodeSignature (prevOuts : gmap OutPoint TxOut) (n : Node) :
    result error unit :=
  match NodeSignature n with
  | None => Err "no signature found for transaction"
  | Some sig =>
      match FinalKey n with
      | None => Err "node has no FinalKey set"
      | Some key =>
          let* sigHash := wrap "failed to calculate signature hash: " (SigHash n prevOuts) in
          guard* Verify sig sigHash key else "signature verification failed" in
          Ok tt
      end
  end.

Definition VerifySigned (t : Tree) : result error unit :=
  match Root t, BatchOutput t with
  | Some root, Some out => ForEach (verifyNodeSignature (PrevOutputFetcher root out)) root
  | _, _ => Err "nil pointer dereference"
  end.

Fixpoint submit_node (sigs : gmap Hash Signature) (n : Node) : result error Node :=
  match sigs !! TXID n with
  | None => Err "signature not found for transaction"
  | Some sig =>
      let* children := map_results (λ p,
        let* c := submit_node sigs p.2 in Ok (p.1, c)) (Children n) in
      Ok (mkNode (Input n) (Outputs n) (CoSigners n) (n_Amount n) (Some sig) (FinalKey n)
            children)
  end.

Definition set_root (t : Tree) (root : Node) : Tree :=
  mkTree (Some root) (BatchOutpoint t) (BatchOutput t) (SweepTapscriptRoot t) (SweepKey t)
    (SweepDelay t) (AssetContext t).

Definition SubmitTreeSigs (t : Tree) (sigs : gmap Hash Signature) : result error Tree :=
  match Root t with
  | None => Err "nil root"
  | Some root => let* root := submit_node sigs root in Ok (set_root t root)
  end.

Definition parsed (raw : list Z) : option Signature :=
  match ParseSignature raw with Ok sig => Some sig | Err _ => None end.
(** The loop over the map stops at a signature that does not parse. *)
Definition parse_signatures (raw : gmap Hash (list Z)) : result error (gmap Hash Signature) :=
  guard* bool_decide (map_Forall (λ _ b, is_Some (parsed b)) raw)
    else "failed to parse signature" in
  Ok (omap parsed raw).

Definition ValidateAndSubmitSignatures (t : option Tree) (signatures : gmap Hash (list Z)) :
    result error Tree :=
  match t with
  | None => Err "tree is nil"
  | Some t =>
      guard* negb (bool_decide (signatures = ∅)) else "no signatures provided" in
      let* sigMap := parse_signatures signatures in
      let* t := wrap "failed to submit tree signatures: " (SubmitTreeSigs t sigMap) in
      check* wrap "tree signature verification failed: " (VerifySigned t) in
      Ok t
  end.

(** ** Construction *)

Definition WeightByBtcAmount (l : LeafDescriptor) : Z := l_Amount l.

(** Stable insertion by decreasing weight. *)
Fixpoint insert_weighted (x : Z * LeafDescriptor) (l : list (Z * LeafDescriptor)) :
    list (Z * LeafDescriptor) :=
  match l with
  | [] => [x]
  | y :: l => if y.1 <=? x.1 then x :: y :: l else y :: insert_weighted x l
  end.
Definition sort_weighted (l : list (Z * LeafDescriptor)) : list (Z * LeafDescriptor) :=
  foldr insert_weighted [] l.

(** The first group of least weight. *)
Fixpoint min_index (best : nat) (least : Z) (i : nat) (weights : list Z) : nat :=
  match weights with
  | [] => best
  | w :: ws => if w <? least then min_index i w (S i) ws else min_index best least (S i) ws
  end.
Definition assign (groups : list (Z * list LeafDescriptor)) (x : Z * LeafDescriptor) :
    list (Z * list LeafDescriptor) :=
  match groups with
  | [] => []
  | g :: gs =>
      alter (λ g, (int64 (g.1 + x.1), g.2 ++ [x.2])) (min_index 0 g.1 1 (fst <$> gs)) groups
  end.

Definition partitionLeavesByWeight (leaves : list LeafDescriptor) (radix : nat)
    (weightFn : LeafDescriptor → Z) : list (list LeafDescriptor) :=
  let weighted := (λ l, (Z.max 0 (weightFn l), l)) <$> leaves in
  let groups := foldl assign (replicate radix (0, [])) (sort_weighted weighted) in
  filter (λ g, g ≠ []) (snd <$> groups).

(** The shape of a tree before its transactions are filled in; a leaf carries the
    script that the code keeps in a side table. *)
Inductive Structure := mkStructure {
  s_CoSigners : list PublicKey;
  s_Amount : Z;
  s_Script : list Z;
  s_Children : list Structure;
}.

Definition buildLeafStructure (leaf : LeafDescriptor) (operatorKey : PublicKey) :
    result error Structure :=
  match CoSignerKey leaf with
  | None => Err "leaf cosigner key cannot be nil"
  | Some key =>
      Ok (mkStructure (UniqueCosigners [operatorKey; key]) (l_Amount leaf) (l_PkScript leaf) [])
  end.

(** Without a zero amount every group is smaller than the list that was split, so
    the number of leaves is enough; the recursion of the code has no other end. *)
Fixpoint buildStructureRecursive (fuel : nat) (leaves : list LeafDescriptor)
    (operatorKey : PublicKey) (radix : nat) (weightFn : LeafDescriptor → Z) :
    result error Structure :=
  match fuel with
  | O => Err "stack overflow"
  | S fuel =>
      match leaves with
      | [leaf] => buildLeafStructure leaf operatorKey
      | _ =>
          let* children := map_results (λ group,
            buildStructureRecursive fuel group operatorKey radix weightFn)
            (partitionLeavesByWeight leaves radix weightFn) in
          Ok (mkStructure (UniqueCosigners (operatorKey :: (children ≫= s_CoSigners)))
                (foldl (λ total c, int64 (total + s_Amount c)) 0 children) [] children)
      end
  end.
Definition BuildStructure (leaves : list LeafDescriptor) (operatorKey : PublicKey)
    (radix : nat) (weightFn : LeafDescriptor → Z) : result error Structure :=
  buildStructureRecursive (length leaves) leaves operatorKey radix weightFn.

Definition branch_outputs (sweepTapscriptRoot : list Z) (children : list Structure) :
    result error (list TxOut) :=
  map_results (λ c,
    let* pkScript := cosigner_script (s_CoSigners c) sweepTapscriptRoot in
    Ok (mkTxOut (s_Amount c) pkScript)) children.

(** [materializeLeaf], [materializeBranch] and the walk of [Materialize]. *)
Fixpoint Materialize (sweepTapscriptRoot : list Z) (input : OutPoint) (s : Structure) :
    result error Node :=
  let* finalKey := wrap "compute final key: "
                     (ComputeFinalKey (s_CoSigners s) sweepTapscriptRoot) in
  match s_Children s with
  | [] =>
      guard* negb (bool_decide (s_Script s = [])) else "leaf node missing pkscript" in
      Ok (mkNode input [mkTxOut (s_Amount s) (s_Script s); AnchorOutput] (s_CoSigners s)
            (s_Amount s) None (Some finalKey) [])
  | _ =>
      let* outputs := branch_outputs sweepTapscriptRoot (s_Children s) in
      let outputs := outputs ++ [AnchorOutput] in
      let txHash := ForfeitTxHash (mkForfeitMsgTx 3 0 [(input, MaxTxInSequenceNum)] outputs) in
      let* children := index_results (λ i c,
        Materialize sweepTapscriptRoot (mkOutPoint txHash i) c) 0 (s_Children s) in
      Ok (mkNode input outputs (s_CoSigners s) (s_Amount s) None (Some finalKey) children)
  end.

(** The weight function of the configuration is nil in every caller. *)
Definition BuildTree (operatorKey : option PublicKey) (sweepTapscriptRoot : list Z)
    (radix : Z) (rootInput : OutPoint) (rootOutput : option TxOut)
    (leaves : list LeafDescriptor) : result error Tree :=
  guard* negb (bool_decide (leaves = [])) else "no leaves supplied" in
  match rootOutput, operatorKey with
  | None, _ => Err "root output cannot be nil"
  | _, None => Err "operator key cannot be nil"
  | Some out, Some operatorKey =>
      guard* negb ((radix <? 2) && negb (radix =? 0)) else "radix must be at least 2" in
      let radix := if radix =? 0 then 2 else radix in
      let* structure := wrap "build tree structure: "
        (BuildStructure leaves operatorKey (Z.to_nat radix) WeightByBtcAmount) in
      guard* (s_Amount structure =? Value out)
        else "leaf amounts sum must equal the output value" in
      let* root := wrap "materialize tree: "
                     (Materialize sweepTapscriptRoot rootInput structure) in
      Ok (mkTree (Some root) rootInput rootOutput sweepTapscriptRoot None 0 None)
  end.

Record ConnectorDescriptor := mkConnector {
  c_PkScript : list Z;
  NumLeaves : Z;
  c_Amount : Z;
}.

Definition ValidateConnectorDescriptor (c : ConnectorDescriptor) : result error unit :=
  guard* (0 <? NumLeaves c) else "connector descriptor has invalid NumLeaves" in
  guard* (0 <? c_Amount c) else "connector descriptor has invalid amount" in
  guard* negb (bool_decide (c_PkScript c = [])) else "connector descriptor has empty PkScript" in
  guard* IsPayToTaproot (c_PkScript c)
    else "connector descriptor has invalid taproot script" in
  Ok tt.

Definition ToLeafDescriptors (c : ConnectorDescriptor) (operatorKey : PublicKey) :
    list LeafDescriptor :=
  replicate (Z.to_nat (NumLeaves c)) (mkLeaf (c_PkScript c) (c_Amount c) (Some operatorKey) 0).

Definition BuildConnectorTree (batchOutpoint : OutPoint) (batchOutput : TxOut)
    (connector : ConnectorDescriptor) (operatorKey : PublicKey) (radix : Z) :
    result error Tree :=
  check* wrap "invalid connector descriptor: " (ValidateConnectorDescriptor connector) in
  guard* negb (radix <? 2) else "radix must be at least 2" in
  BuildTree (Some operatorKey) [] radix batchOutpoint (Some batchOutput)
    (ToLeafDescriptors connector operatorKey).

(** ** The output a tree hangs below *)

(** [UnilateralCSVTimeoutTapLeaf] and its hash: the tweak of the operator's key and
    delay. *)
Context (sweepTapRoot : option PublicKey → Z → result error (list Z)).

Record VTXODescriptor := mkVTXODescriptor {
  vd_PolicyTemplate : list Z;
  vd_PkScript : list Z;
  vd_Amount : Z;
  vd_CoSignerKey : option PublicKey;
}.

Fixpoint validate_descriptors (seen : list N) (vtxos : list VTXODescriptor) : result error unit :=
  match vtxos with
  | [] => Ok tt
  | v :: vtxos =>
      guard* (0 <? vd_Amount v) else "VTXO has invalid amount" in
      guard* negb (bool_decide (vd_PkScript v = [])) else "VTXO has empty PkScript" in
      guard* IsPayToTaproot (vd_PkScript v) else "VTXO has invalid taproot script" in
      match vd_CoSignerKey v with
      | None => Err "VTXO has nil co-signer key"
      | Some key =>
          guard* negb (bool_decide (SerializePubKey key ∈ seen))
            else "VTXO has duplicate co-signer key" in
          validate_descriptors (SerializePubKey key :: seen) vtxos
      end
  end.
Definition ValidateVTXODescriptors (vtxos : list VTXODescriptor) : result error unit :=
  guard* negb (Nat.eqb (length vtxos) 0) else "no VTXO descriptors provided" in
  validate_descriptors [] vtxos.

Definition ToLeafDescriptor (v : VTXODescriptor) : LeafDescriptor :=
  mkLeaf (vd_PkScript v) (vd_Amount v) (vd_CoSignerKey v) 0.

(** [bytes.Compare] below zero. *)
Fixpoint script_lt (a b : list Z) : bool :=
  match a, b with
  | [], _ :: _ => true
  | _, [] => false
  | x :: a, y :: b => (x <? y) || (x =? y) && script_lt a b
  end.
Definition leaf_before (a b : LeafDescriptor) : bool :=
  if negb (l_Amount a =? l_Amount b) then l_Amount b <? l_Amount a
  else script_lt (l_PkScript a) (l_PkScript b).
Fixpoint insert_leaf (x : LeafDescriptor) (l : list LeafDescriptor) : list LeafDescriptor :=
  match l with
  | [] => [x]
  | y :: l => if leaf_before y x then y :: insert_leaf x l else x :: y :: l
  end.
Definition sort_leaves (l : list LeafDescriptor) : list LeafDescriptor := foldr insert_leaf [] l.

Definition BuildVTXOTree (batchOutpoint : OutPoint) (batchOutput : option TxOut)
    (vtxos : list VTXODescriptor) (operatorCoSignKey sweepKey : option PublicKey)
    (sweepDelay radix : Z) : result error Tree :=
  check* wrap "invalid VTXO descriptors: " (ValidateVTXODescriptors vtxos) in
  guard* negb (radix <? 2) else "radix must be at least 2" in
  guard* bool_decide (is_Some operatorCoSignKey) else "operator co-sign key cannot be nil" in
  guard* bool_decide (is_Some sweepKey) else "sweep key cannot be nil" in
  let leaves := sort_leaves (ToLeafDescriptor <$> vtxos) in
  let* sweepTapRoot := wrap "failed to create sweep tap leaf: "
                         (sweepTapRoot sweepKey sweepDelay) in
  BuildTree operatorCoSignKey sweepTapRoot radix batchOutpoint batchOutput leaves.

(** The keys seen so far, the signers in order and the sum. *)
Fixpoint batch_signers (operatorKey : N) (seen : list N) (signers : list PublicKey)
    (totalAmount : Z) (vtxos : list VTXODescriptor) : result error (list PublicKey * Z) :=
  match vtxos with
  | [] => Ok (signers, totalAmount)
  | v :: vtxos =>
      guard* negb (vd_Amount v <? 0) else "vtxo amount cannot be negative" in
      match vd_CoSignerKey v with
      | None => Err "VTXO has nil co-signer key"
      | Some key =>
          guard* negb (9223372036854775807 - vd_Amount v <? totalAmount)
            else "total amount exceeds int64 range" in
          let keyStr := SerializePubKey key in
          guard* negb (N.eqb keyStr operatorKey) else "VTXO co-signer key matches operator key" in
          if bool_decide (keyStr ∈ seen)
          then batch_signers operatorKey seen signers (totalAmount + vd_Amount v) vtxos
          else batch_signers operatorKey (keyStr :: seen) (signers ++ [key])
                 (totalAmount + vd_Amount v) vtxos
      end
  end.

(** The output of [BuildBatchOutputSpec]; its tap tree is data for the wallet. *)
Definition BuildBatchOutput (vtxos : list VTXODescriptor)
    (operatorMuSigKey sweepKey : option PublicKey) (sweepDelay : Z) : result error TxOut :=
  guard* negb (Nat.eqb (length vtxos) 0) else "batch output requires at least one VTXO" in
  match operatorMuSigKey with
  | None => Err "operator musig key cannot be nil"
  | Some op =>
      guard* bool_decide (is_Some sweepKey) else "sweep key cannot be nil" in
      let* sweepTapRoot := wrap "failed to create sweep tap leaf: "
                             (sweepTapRoot sweepKey sweepDelay) in
      let* p := batch_signers (SerializePubKey op) [SerializePubKey op] [op] 0 vtxos in
      let* aggKey := wrap "failed to aggregate keys: " (AggregateKeys p.1 sweepTapRoot) in
      let* pkScript := wrap "failed to create taproot script: " (PayToTaprootScript aggKey) in
      Ok (mkTxOut p.2 pkScript)
  end.

(** The script of the address is derived by the caller's library. *)
Definition BuildConnectorOutput (numConnectors dustAmount : Z) (addrScript : option (list Z)) :
    result error TxOut :=
  guard* negb (numConnectors =? 0) else "num connectors must be > 0" in
  guard* (0 <? dustAmount) else "dust amount must be > 0" in
  match addrScript with
  | None => Err "connector address cannot be nil"
  | Some pkScript => Ok (mkTxOut (int64 (dustAmount * numConnectors)) pkScript)
  end.

End Trees.
