(* ===== verification/TxTreeSafety.v ===== *)
(** * Transaction trees: what the validators prove, and what the builder builds

    A path that passes validation is a chain of transactions from the batch output
    to the VTXO: each spends an output of the one before it, pays out exactly what
    it spends, and is keyed by cosigners among whom the owner is.  When the tree is
    signed as well, every transaction of the chain carries a signature for the
    output it really spends.  The builder makes trees that pass the validators and
    hold the requested leaves. *)

From S2P Require Import Prelude RecoveryProof VtxoExpiry VtxoForfeit TxTree.
Local Open Scope Z_scope.

Section Nodes.
(** Induction over nodes, with the hypothesis for every child. *)
Lemma Node_nested_ind (P : Node → Prop) :
  (∀ n, Forall (λ p, P p.2) (Children n) → P n) → ∀ n, P n.
Proof.
  intros H. fix IH 1. intros [inp outs cos amt sig key ch]. apply H. cbn.
  induction ch as [|[i c] ch IHch]; constructor; [apply IH|exact IHch].
Qed.

Lemma Structure_nested_ind (P : Structure → Prop) :
  (∀ s, Forall P (s_Children s) → P s) → ∀ s, P s.
Proof.
  intros H. fix IH 1. intros [cos amt script ch]. apply H. cbn.
  induction ch as [|c ch IHch]; constructor; [apply IH|exact IHch].
Qed.
End Nodes.

Section Validated.
Context {TX : Txscript} {MS : Musig}.

Lemma map_results_ok {E A B} (f : A → result E B) l ys :
  map_results f l = Ok ys ↔ Forall2 (λ x y, f x = Ok y) l ys.
Proof.
  revert ys. induction l as [|x l IH]; intros ys; cbn.
  - split; [by intros [= <-]|by inversion 1].
  - destruct (f x) as [y|e] eqn:E1; [|split; [done|inversion 1; congruence]].
    destruct (map_results f l) as [ys'|e] eqn:E2.
    + split; [intros [= <-]; constructor; [done|by apply IH]|].
      inversion 1 as [|? ? ? ? H1 H2]; subst. apply IH in H2. congruence.
    + split; [done|]. inversion 1 as [|? ? ? ? H1 H2]; subst. apply IH in H2. congruence.
Qed.

Lemma for_each_app {E A} (f : A → result E unit) l k :
  for_each f (l ++ k) = (check* for_each f l in for_each f k).
Proof. induction l as [|x l IH]; cbn; [by destruct (for_each f k)|]. by destruct (f x). Qed.

Lemma for_each_nodes f n : ForEach f n = for_each f (NodesIter n).
Proof.
  induction n as [n IH] using Node_nested_ind.
  destruct n as [inp outs cos amt sig key ch]. cbn in *. destruct (f _); [|done].
  induction IH as [|[i c] ch Hc IH IHch]; [done|]. cbn in *. rewrite Hc.
  rewrite for_each_app. rewrite <- IHch. done.
Qed.

Lemma nodes_eq n : NodesIter n = n :: (Children n ≫= λ p, NodesIter p.2).
Proof. by destruct n. Qed.
Lemma leaves_eq n :
  GetLeafNodes n = if IsLeaf n then [n] else Children n ≫= λ p, GetLeafNodes p.2.
Proof. by destruct n. Qed.

Lemma leaves_nonempty n : GetLeafNodes n ≠ [].
Proof.
  induction n as [n IH] using Node_nested_ind. rewrite leaves_eq. unfold IsLeaf.
  destruct (Children n) as [|[i c] ch]; [done|]. inversion IH as [|? ? Hc _]; subst. cbn in *.
  intros H. apply app_eq_nil in H as [H _]. done.
Qed.

(** ** Chains of transactions *)

Definition total_value (outs : list TxOut) : Z := foldr (λ o t, Value o + t) 0 outs.

(** A transaction that spends the outpoint and pays out what is there. *)
Definition funds (op : OutPoint) (out : TxOut) (n : Node) : Prop :=
  Input n = op ∧ total_value (Outputs n) = Value out ∧
  Forall (λ o, 0 ≤ Value o ≤ MaxSatoshi) (Outputs n).

(** The output is keyed by the cosigners of the transaction. *)
Definition keyed (tweak : Node → list Z) (out : TxOut) (n : Node) : Prop :=
  cosigner_script (CoSigners n) (tweak n) = Ok (PkScript out).

(** A chain from an output to a leaf, each transaction with the output it spends. *)
Inductive exit_chain (tweak : Node → list Z) : OutPoint → TxOut → list (TxOut * Node) → Prop :=
| exit_leaf op out n :
    funds op out n → Children n = [] → exit_chain tweak op out [(out, n)]
| exit_step op out n i o c rest :
    funds op out n → (i, c) ∈ Children n → 0 ≤ i → Outputs n !! Z.to_nat i = Some o →
    keyed tweak o c → exit_chain tweak (mkOutPoint (TXID n) i) o ((o, c) :: rest) →
    exit_chain tweak op out ((out, n) :: (o, c) :: rest).

Lemma sum_outputs_ok t outs s :
  sum_outputs t outs = Ok s →
  s = t + total_value outs ∧ Forall (λ o, 0 ≤ Value o ≤ MaxSatoshi) outs.
Proof.
  revert t. induction outs as [|o outs IH]; intros t; cbn.
  - intros [= <-]. split; [lia|constructor].
  - unfold validateSatoshiValue. destruct (Value o <? 0) eqn:E1; [done|].
    destruct (MaxSatoshi <? Value o) eqn:E2; [done|]. cbn.
    destruct (MaxSatoshi - Value o <? t); [done|]. intros H. apply IH in H as [-> H].
    split; [cbn; fold (total_value outs); lia|]. constructor; [lia|done].
Qed.

(** What the two walks check of one node and of its children. *)
Lemma conservation_node n op v :
  validateNodeValueConservation n op v = Ok tt →
  Input n = op ∧ total_value (Outputs n) = v ∧
  Forall (λ o, 0 ≤ Value o ≤ MaxSatoshi) (Outputs n) ∧
  ∀ i c, (i, c) ∈ Children n → ∃ o, 0 ≤ i ∧ Outputs n !! Z.to_nat i = Some o ∧
    validateNodeValueConservation c (mkOutPoint (TXID n) i) (Value o) = Ok tt.
Proof.
  destruct n as [inp outs cos amt sig key ch]. cbn [validateNodeValueConservation Input Outputs Children].
  case_bool_decide as Hi; [|done]. destruct (negb (bool_decide (outs = []))); [|done].
  destruct (sum_outputs 0 outs) as [s|] eqn:Es; [|done]. apply sum_outputs_ok in Es as [-> Hf].
  destruct (v <? 0 + total_value outs) eqn:E1; [done|].
  destruct (0 + total_value outs <? v) eqn:E2; [done|]. cbn [negb]. intros Hc.
  split; [done|]. split; [lia|]. split; [done|]. intros i c Hin.
  apply for_each_ok with (x := (i, c)) in Hc; [|done]. cbn in Hc.
  destruct (i <? 0) eqn:E3; [done|]. destruct (outs !! Z.to_nat i) as [o|] eqn:Eo; [|done].
  exists o. split; [lia|]. done.
Qed.

Lemma child_script tweak n i c :
  validateNodeChildScripts tweak n = Ok tt → (i, c) ∈ Children n →
  ∃ o, Outputs n !! Z.to_nat i = Some o ∧ keyed tweak o c ∧
    validateNodeChildScripts tweak c = Ok tt.
Proof.
  destruct n as [inp outs cos amt sig key ch]. cbn [validateNodeChildScripts Outputs Children].
  intros Hc Hin. apply for_each_ok with (x := (i, c)) in Hc; [|done]. cbn [fst snd] in Hc.
  destruct (i <? 0); [done|]. destruct (outs !! Z.to_nat i) as [o|] eqn:Eo; [|done].
  destruct (cosigner_script (CoSigners c) (tweak c)) as [script|] eqn:Es; [|done].
  case_bool_decide as Hp; [|done]. exists o. split; [done|]. split; [|done].
  unfold keyed. by rewrite Hp.
Qed.

Definition spent (chain : list (TxOut * Node)) : list Node := snd <$> chain.

(** A validated node with one leaf is a chain. *)
Lemma validated_chain tweak n op out leaf :
  validateNodeValueConservation n op (Value out) = Ok tt →
  validateNodeChildScripts tweak n = Ok tt → GetLeafNodes n = [leaf] →
  ∃ rest, exit_chain tweak op out ((out, n) :: rest) ∧ NodesIter n = n :: spent rest ∧
    last (n :: spent rest) = Some leaf ∧ Children leaf = [].
Proof.
  revert op out. induction n as [n IH] using Node_nested_ind. intros op out Hv Hs Hl.
  apply conservation_node in Hv as (Hi & Ht & Hf & Hch). rewrite leaves_eq in Hl.
  rewrite nodes_eq. unfold IsLeaf in Hl. destruct (Children n) as [|[i c] ch] eqn:Ec.
  - injection Hl as <-. exists []. repeat split; [|done..]. by constructor.
  - inversion IH as [|? ? Hc _]; subst. cbn in Hl, Hc.
    assert (ch = [] ∧ GetLeafNodes c = [leaf]) as [-> Hcl].
    { destruct (GetLeafNodes c) as [|l ls] eqn:El; [by destruct (leaves_nonempty c)|].
      injection Hl as -> Hl. apply app_eq_nil in Hl as [-> Hl]. split; [|done].
      destruct ch as [|[j d] ch]; [done|]. cbn in Hl. apply app_eq_nil in Hl as [Hl _].
      by destruct (leaves_nonempty d). }
    destruct (Hch i c) as (o & Hi0 & Ho & Hvc); [by left|].
    destruct (child_script tweak n i c Hs) as (o' & Ho' & Hk & Hsc); [rewrite Ec; by left|].
    rewrite Ho in Ho'. injection Ho' as <-.
    destruct (Hc _ _ Hvc Hsc Hcl) as (rest & Hchain & Hn & Hlast & Hleaf).
    exists ((o, c) :: rest). cbn. rewrite app_nil_r, Hn. repeat split; [|done|done].
    econstructor; [done|rewrite Ec; by left|done..].
Qed.

(** *** The path of a VTXO *)

Lemma wrap_Ok {A} s (r : result error A) x : wrap s r = Ok x → r = Ok x.
Proof. by destruct r. Qed.

Lemma extract_tree t key ct :
  ExtractPathForCoSigners t [Some key] = Ok (Some ct) →
  ∃ root root', Root t = Some root ∧ ExtractNode [key] root = Some root' ∧
    Root ct = Some root' ∧ BatchOutpoint ct = BatchOutpoint t ∧
    BatchOutput ct = BatchOutput t ∧ SweepTapscriptRoot ct = SweepTapscriptRoot t ∧
    AssetContext ct = (λ c, cloneForRoot c root') <$> AssetContext t.
Proof.
  unfold ExtractPathForCoSigners. cbn. destruct (Root t) as [root|]; [|done].
  destruct (ExtractNode [key] root) as [root'|] eqn:E; [|done]. intros [= <-].
  exists root, root'. done.
Qed.

(** What a validated path is: a chain of transactions from the batch output to a
    leaf with the script and the amount, every one signed by the owner. *)
Definition owned_path (t : Tree) (key : PublicKey) (script : list Z) (amount : Z) : Prop :=
  ∃ root out rest leaf vtxo anchor,
    Root t = Some root ∧ BatchOutput t = Some out ∧
    exit_chain (childSigningTweak t) (BatchOutpoint t) out ((out, root) :: rest) ∧
    NodesIter root = root :: spent rest ∧ last (NodesIter root) = Some leaf ∧
    Children leaf = [] ∧ Outputs leaf = [vtxo; anchor] ∧ PkScript vtxo = script ∧
    Value vtxo = amount ∧ Forall (λ n, key ∈ CoSigners n) (NodesIter root).

Lemma verified_parts t key script :
  VerifyVTXOPath t (Some key) script = Ok tt →
  ∃ ct root out leaf vtxo anchor, ExtractPathForCoSigners t [Some key] = Ok (Some ct) ∧
    Root ct = Some root ∧ BatchOutput ct = Some out ∧
    validateNodeValueConservation root (BatchOutpoint ct) (Value out) = Ok tt ∧
    validateNodeChildScripts (childSigningTweak ct) root = Ok tt ∧
    GetLeafNodes root = [leaf] ∧ Outputs leaf = [vtxo; anchor] ∧ PkScript vtxo = script ∧
    Forall (λ n, key ∈ CoSigners n) (NodesIter root).
Proof.
  unfold VerifyVTXOPath. destruct (negb _); [|done].
  destruct (ExtractPathForCoSigners t [Some key]) as [[ct|]|] eqn:E; cbn [wrap]; [|done..].
  destruct (extract_tree t key ct E) as (r0 & root & _ & _ & Hr & _).
  unfold Verify_, ValidateValueConservation, ValidateChildScripts, root_leaves. rewrite Hr. cbn [from_option].
  case_bool_decide; [|done]. destruct (BatchOutput ct) as [out|] eqn:Eo; [|done].
  destruct (validateSatoshiValue (Value out)); [|done].
  destruct (validateNodeValueConservation root _ _) as [[]|] eqn:Ev; cbn [wrap]; [|done].
  destruct (validate_context ct root); cbn [wrap]; [|done].
  destruct (validateNodeChildScripts _ root) as [[]|] eqn:Es; cbn [wrap]; [|done].
  destruct (GetLeafNodes root) as [|leaf [|]] eqn:El; [done| |done].
  destruct (Outputs leaf) as [|vtxo [|anchor [|]]] eqn:Elo; try done.
  case_bool_decide as Hs; [|done]. destruct (Value anchor =? 0); [|done].
  destruct (forallb _ _) eqn:Ef; [|done]. intros _.
  exists ct, root, out, leaf, vtxo, anchor. repeat split; try done.
  apply Forall_forall. intros n Hn. rewrite forallb_forall in Ef.
  specialize (Ef n (proj1 (list_elem_of_In _ _) Hn)). unfold ContainsCosigner in Ef.
  by apply bool_decide_eq_true in Ef.
Qed.

Lemma validated_path t key leaf op ct :
  ValidatePath t (Some key) leaf op = Ok ct →
  ExtractPathForCoSigners t [Some key] = Ok (Some ct) ∧
  owned_path ct key (l_PkScript leaf) (l_Amount leaf).
Proof.
  unfold ValidatePath. destruct (VerifyVTXOPath t (Some key) (l_PkScript leaf)) as [[]|] eqn:E;
    cbn [wrap]; [|done].
  destruct (verified_parts _ _ _ E) as (ct' & root & out & lf & vtxo & anchor & He & Hr & Ho & Hv &
    Hs & Hl & Hlo & Hsc & Hk). rewrite He. cbn [wrap]. unfold root_leaves. rewrite Hr. cbn. rewrite Hl, Hlo.
  destruct (Value vtxo =? l_Amount leaf) eqn:Ea; [|done].
  destruct (ContainsCosigner _ _); [|done]. intros [= <-]. split; [done|].
  destruct (validated_chain _ _ _ _ _ Hv Hs Hl) as (rest & Hc & Hn & Hla & Hlc).
  exists root, out, rest, lf, vtxo, anchor. rewrite Hn at 2. repeat split; try done. lia.
Qed.

Lemma validated_key t key leaf op ct :
  ValidatePath t key leaf op = Ok ct → is_Some key.
Proof. unfold ValidatePath, VerifyVTXOPath. destruct key; [done|]. done. Qed.

(** *** Signatures *)

(** A node without its signatures. *)
Fixpoint erase (n : Node) : Node :=
  mkNode (Input n) (Outputs n) (CoSigners n) 0 None (FinalKey n)
    ((λ p, (p.1, erase p.2)) <$> Children n).

Lemma for_each_fmap {E A B} (f : B → result E unit) (g : A → B) l :
  for_each f (g <$> l) = for_each (λ x, f (g x)) l.
Proof. induction l as [|x l IH]; cbn; [done|]. by rewrite IH. Qed.

Lemma for_each_ext {E A} (f g : A → result E unit) l :
  Forall (λ x, f x = g x) l → for_each f l = for_each g l.
Proof. induction 1 as [|x l H _ IH]; cbn; [done|]. by rewrite H, IH. Qed.

Lemma erase_txid n : TXID (erase n) = TXID n.
Proof. by destruct n. Qed.

Lemma erase_conservation n op v :
  validateNodeValueConservation (erase n) op v = validateNodeValueConservation n op v.
Proof.
  revert op v. induction n as [n IH] using Node_nested_ind. intros op v.
  destruct n as [inp outs cos amt sig key ch]. cbn in *.
  destruct (bool_decide _); [|done]. destruct (negb _); [|done].
  destruct (sum_outputs 0 outs); [|done]. destruct (negb _); [|done]. destruct (negb _); [|done].
  rewrite for_each_fmap. apply for_each_ext. eapply Forall_impl; [exact IH|]. clear IH. intros [i c] IH. cbn in *.
  destruct (if i <? 0 then _ else _) as [o|]; [|done]. by rewrite IH.
Qed.

Lemma erase_scripts tweak n :
  (∀ m, tweak (erase m) = tweak m) →
  validateNodeChildScripts tweak (erase n) = validateNodeChildScripts tweak n.
Proof.
  intros Ht. induction n as [n IH] using Node_nested_ind.
  destruct n as [inp outs cos amt sig key ch]. cbn in *. rewrite for_each_fmap. apply for_each_ext.
  eapply Forall_impl; [exact IH|]. clear IH. intros [i c] IH. cbn in *.
  destruct (if i <? 0 then _ else _) as [o|]; [|done]. rewrite IH, Ht. by destruct c.
Qed.

Lemma erase_nodes n : NodesIter (erase n) = erase <$> NodesIter n.
Proof.
  induction n as [n IH] using Node_nested_ind. destruct n as [inp outs cos amt sig key ch]. cbn in *.
  f_equal. induction IH as [|[i c] ch Hc IH IHch]; [done|]. cbn in *. by rewrite fmap_app, Hc, IHch.
Qed.

Lemma erase_leaves n : GetLeafNodes (erase n) = erase <$> GetLeafNodes n.
Proof.
  induction n as [n IH] using Node_nested_ind. rewrite !leaves_eq. unfold IsLeaf.
  destruct n as [inp outs cos amt sig key ch]. cbn [erase Children] in *.
  assert (((λ p, (p.1, erase p.2)) <$> ch) ≫= (λ p, GetLeafNodes p.2) =
          erase <$> (ch ≫= λ p, GetLeafNodes p.2)) as H; [|by destruct ch].
  induction IH as [|[i c] l Hc IH IHl]; [done|]. cbn in *. by rewrite fmap_app, Hc, IHl.
Qed.

Lemma submit_erase sigs n n' : submit_node sigs n = Ok n' → erase n' = erase n.
Proof.
  revert n'. induction n as [n IH] using Node_nested_ind. intros n'.
  destruct n as [inp outs cos amt sig key ch]. cbn [submit_node Input Outputs CoSigners n_Amount FinalKey Children] in *.
  destruct (sigs !! _); [|done].
  destruct (map_results _ ch) as [ch'|] eqn:E; [|done]. intros [= <-]. cbn [erase Input Outputs CoSigners FinalKey Children].
  f_equal. apply map_results_ok in E. revert IH. induction E as [|[i c] p xs ys H E IHE]; [done|].
  inversion 1 as [|? ? Hc Hl]; subst. cbn in *. destruct (submit_node sigs c) as [c'|]; [|done].
  injection H as <-. cbn. rewrite (Hc c' eq_refl), IHE; done.
Qed.

End Validated.

(** Two transactions with one hash are the same, and no transaction descends from
    itself: it stands above the one it spends.  Tree transactions have one input. *)
Class HashLaws {TX : Txscript} := {
  hash_inj tx tx' : ForfeitTxHash tx = ForfeitTxHash tx' → tx = tx';
  generation : Hash → N;
  hash_above tx p : f_TxIn tx = [p] →
    (generation (op_Hash p.1) < generation (ForfeitTxHash tx))%N;
}.

Section Signed.
Context {TX : Txscript} {MS : Musig} {HL : HashLaws}.

Lemma foldl_insert_skip {K A} `{Countable K} (l : list (K * A)) (m : gmap K A) k :
  (∀ v, (k, v) ∉ l) → foldl (λ m p, <[p.1 := p.2]> m) m l !! k = m !! k.
Proof.
  revert m. induction l as [|[k' v'] l IH]; intros m Hl; [done|]. cbn.
  rewrite IH; [|intros w Hw; apply (Hl w); by right].
  apply lookup_insert_ne. intros ->. apply (Hl v'). by left.
Qed.

Lemma foldl_insert_lookup {K A} `{Countable K} (l : list (K * A)) (m : gmap K A) k v :
  (k, v) ∈ l → (∀ v', (k, v') ∈ l → v' = v) →
  foldl (λ m p, <[p.1 := p.2]> m) m l !! k = Some v.
Proof.
  revert m. induction l as [|[k' v'] l IH]; intros m Hin Hf; [by apply not_elem_of_nil in Hin|].
  cbn. destruct (decide (k ∈ l.*1)) as [Hk|Hn].
  - apply list_elem_of_fmap in Hk as ([k2 w] & -> & Hw). cbn in *.
    apply IH; [|intros v'' Hv; apply Hf; by right]. rewrite (Hf w) in Hw; [done|by right].
  - assert (∀ w, (k, w) ∉ l) as Hl.
    { intros w Hw. apply Hn. by apply (list_elem_of_fmap_2 fst) in Hw. }
    apply elem_of_cons in Hin as [[= -> ->]|Hin]; [|by destruct (Hl v)].
    rewrite foldl_insert_skip by done. apply lookup_insert_eq.
Qed.

Lemma elem_of_node_outputs n op o :
  (op, o) ∈ node_outputs n ↔ ∃ i, op = mkOutPoint (TXID n) (Z.of_nat i) ∧ Outputs n !! i = Some o.
Proof.
  unfold node_outputs. rewrite elem_of_lookup_imap. split.
  - intros (i & x & [= -> ->] & Hx). by exists i.
  - intros (i & -> & Hi). by exists i, o.
Qed.

Lemma same_txid m n : TXID m = TXID n → Outputs m = Outputs n.
Proof. intros H. apply hash_inj in H. by injection H. Qed.

(** Generations grow on the way down. *)
Lemma nodes_above n op v m :
  validateNodeValueConservation n op v = Ok tt → m ∈ NodesIter n →
  (generation (op_Hash op) < generation (TXID m))%N.
Proof.
  revert op v. induction n as [n IH] using Node_nested_ind. intros op v Hv Hm.
  apply conservation_node in Hv as (Hi & _ & _ & Hch).
  assert (generation (op_Hash op) < generation (TXID n))%N as Hn.
  { subst op. by apply (hash_above (ToTx n) (Input n, MaxTxInSequenceNum)). }
  rewrite nodes_eq in Hm. apply elem_of_cons in Hm as [->|Hm]; [done|].
  apply list_elem_of_bind in Hm as ([i c] & Hm & Hc). rewrite Forall_forall in IH.
  destruct (Hch i c Hc) as (o & _ & _ & Hvc). specialize (IH _ Hc _ _ Hvc Hm). cbn in IH. lia.
Qed.

Lemma fetch_root root op out :
  validateNodeValueConservation root op (Value out) = Ok tt →
  PrevOutputFetcher root out !! Input root = Some out.
Proof.
  intros Hv. unfold PrevOutputFetcher. rewrite foldl_insert_skip; [apply lookup_singleton_eq|].
  intros o Ho. apply list_elem_of_bind in Ho as (m & Ho & Hm).
  apply elem_of_node_outputs in Ho as (i & He & _). pose proof (nodes_above _ _ _ _ Hv Hm) as Hlt.
  apply conservation_node in Hv as (Hi & _). rewrite Hi in He. rewrite He in Hlt. cbn in Hlt. lia.
Qed.

Lemma fetch_output root out n i o :
  n ∈ NodesIter root → Outputs n !! i = Some o →
  PrevOutputFetcher root out !! mkOutPoint (TXID n) (Z.of_nat i) = Some o.
Proof.
  intros Hn Ho. unfold PrevOutputFetcher. apply foldl_insert_lookup.
  - apply list_elem_of_bind. exists n. split; [|done]. apply elem_of_node_outputs. by exists i.
  - intros o' Ho'. apply list_elem_of_bind in Ho' as (m & Ho' & Hm).
    apply elem_of_node_outputs in Ho' as (j & [= He Hj] & Ho'). apply Nat2Z.inj in Hj as <-.
    rewrite (same_txid m n) in Ho' by done. congruence.
Qed.

(** Every transaction of the chain is signed by its cosigners for the output it
    spends. *)
Definition signed_link (tweak : Node → list Z) (p : TxOut * Node) : Prop :=
  ∃ sig key h, NodeSignature p.2 = Some sig ∧
    ComputeFinalKey (CoSigners p.2) (tweak p.2) = Ok key ∧
    CalcTaprootSignatureHash (ToTx p.2) (Some p.1) = Ok h ∧ Verify sig h key = true.

(** The keys of the nodes are those of their cosigners, as the decoder computes
    them. *)
Definition keys_computed (tweak : Node → list Z) (n : Node) : Prop :=
  ∀ m key, m ∈ NodesIter n → FinalKey m = Some key →
    ComputeFinalKey (CoSigners m) (tweak m) = Ok key.

Lemma signed_node prevs n tweak root o :
  verifyNodeSignature prevs n = Ok tt → n ∈ NodesIter root → keys_computed tweak root →
  prevs !! Input n = Some o → signed_link tweak (o, n).
Proof.
  unfold verifyNodeSignature, SigHash. intros Hv Hn Hk Hp. rewrite Hp in Hv.
  destruct (NodeSignature n) as [sig|] eqn:Es; [|done].
  destruct (FinalKey n) as [key|] eqn:Ek; [|done].
  destruct (CalcTaprootSignatureHash (ToTx n) (Some o)) as [h|] eqn:Eh; [|done]. cbn in Hv.
  destruct (Verify sig h key) eqn:Ev; [|done]. exists sig, key, h. repeat split; try done.
  by apply (Hk n).
Qed.

Lemma signed_chain tweak root op out rest :
  VerifySigned (mkTree (Some root) op (Some out) [] None 0 None) = Ok tt →
  validateNodeValueConservation root op (Value out) = Ok tt →
  keys_computed tweak root →
  exit_chain tweak op out ((out, root) :: rest) → NodesIter root = root :: spent rest →
  Forall (signed_link tweak) ((out, root) :: rest).
Proof.
  cbn. rewrite for_each_nodes. intros Hs Hv Hk Hc Hn. pose proof (fetch_root _ _ _ Hv) as Hroot.
  assert (∀ op' out' l, exit_chain tweak op' out' l → (∀ p, p ∈ l → p.2 ∈ NodesIter root) →
    (∀ p, head l = Some p → PrevOutputFetcher root out !! Input p.2 = Some p.1) →
    Forall (signed_link tweak) l) as H.
  { induction 1 as [op' out' n Hf Hl|op' out' n i o c rest' Hf Hin Hi Ho Hkey Hch IH]; intros Hsub Hhd.
    - constructor; [|constructor]. eapply signed_node; [by apply for_each_ok with (x := n) in Hs; [|apply (Hsub (out', n)); left]|by apply (Hsub (out', n)); left|done|by apply (Hhd (out', n))].
    - constructor.
      + eapply signed_node; [by apply for_each_ok with (x := n) in Hs; [|apply (Hsub (out', n)); left]|by apply (Hsub (out', n)); left|done|by apply (Hhd (out', n))].
      + apply IH; [intros p Hp; apply Hsub; by right|]. intros p [= <-]. cbn.
        assert (Input c = mkOutPoint (TXID n) i) as ->.
        { inversion Hch as [? ? ? [Hic _]|? ? ? ? ? ? ? [Hic _]]; subst; done. }
        rewrite <- (Z2Nat.id i) by done. apply fetch_output; [|done]. apply (Hsub (out', n)). by left. }
  eapply H; [done| |].
  - intros p Hp. rewrite Hn. apply elem_of_cons in Hp as [->|Hp]; [by left|right]. by apply list_elem_of_fmap_2.
  - intros p [= <-]. done.
Qed.

(** What the checks leave of a path, in a form that submitted signatures keep. *)
Definition checked_root (tweak : Node → list Z) (root : Node) (op : OutPoint) (out : TxOut)
    (key : PublicKey) (leaf_outs : list TxOut) : Prop :=
  validateNodeValueConservation root op (Value out) = Ok tt ∧
  validateNodeChildScripts tweak root = Ok tt ∧
  (∃ leaf, GetLeafNodes root = [leaf] ∧ Outputs leaf = leaf_outs) ∧
  Forall (λ n, key ∈ CoSigners n) (NodesIter root) ∧ keys_computed tweak root.

Lemma erase_fields m m' :
  erase m = erase m' → Outputs m = Outputs m' ∧ CoSigners m = CoSigners m' ∧ FinalKey m = FinalKey m'.
Proof. destruct m, m'. by injection 1. Qed.

Lemma erased_in (l l' : list Node) m :
  erase <$> l = erase <$> l' → m ∈ l → ∃ m', m' ∈ l' ∧ erase m = erase m'.
Proof.
  intros He Hm. apply (list_elem_of_fmap_2 erase) in Hm. rewrite He in Hm.
  apply list_elem_of_fmap in Hm as (m' & ? & ?). by exists m'.
Qed.

Lemma checked_erased tweak root root' op out key outs :
  (∀ m, tweak (erase m) = tweak m) → erase root' = erase root →
  checked_root tweak root op out key outs → checked_root tweak root' op out key outs.
Proof.
  intros Ht He (Hv & Hs & (leaf & Hl & Ho) & Hk & Hf).
  assert (erase <$> NodesIter root' = erase <$> NodesIter root) as Hn
    by (by rewrite <- !erase_nodes, He).
  split; [by rewrite <- erase_conservation, He, erase_conservation|].
  split; [by rewrite <- erase_scripts, He, erase_scripts|].
  split; [|split].
  - assert (erase <$> GetLeafNodes root' = erase <$> [leaf]) as H by (by rewrite <- Hl, <- !erase_leaves, He).
    destruct (GetLeafNodes root') as [|l [|]]; try done. exists l. split; [done|].
    injection H as H. apply erase_fields in H as (-> & _). done.
  - apply Forall_forall. intros m Hm. destruct (erased_in _ _ _ Hn Hm) as (m' & Hm' & Hmm).
    apply erase_fields in Hmm as (_ & -> & _). by rewrite Forall_forall in Hk; apply Hk.
  - intros m k Hm Hmk. destruct (erased_in _ _ _ Hn Hm) as (m' & Hm' & Hmm).
    rewrite <- Ht, Hmm, Ht. apply erase_fields in Hmm as (_ & -> & Hfk).
    apply Hf; [done|]. by rewrite <- Hfk.
Qed.

(** A path whose every transaction is signed for the output it spends. *)
Definition signed_path (t : Tree) (key : PublicKey) (script : list Z) (amount : Z) : Prop :=
  ∃ root out rest leaf vtxo anchor,
    Root t = Some root ∧ BatchOutput t = Some out ∧
    exit_chain (childSigningTweak t) (BatchOutpoint t) out ((out, root) :: rest) ∧
    NodesIter root = root :: spent rest ∧ last (NodesIter root) = Some leaf ∧
    Children leaf = [] ∧ Outputs leaf = [vtxo; anchor] ∧ PkScript vtxo = script ∧
    Value vtxo = amount ∧ Forall (λ n, key ∈ CoSigners n) (NodesIter root) ∧
    Forall (signed_link (childSigningTweak t)) ((out, root) :: rest).

Lemma checked_signed t root out key vtxo anchor :
  Root t = Some root → BatchOutput t = Some out → VerifySigned t = Ok tt →
  checked_root (childSigningTweak t) root (BatchOutpoint t) out key [vtxo; anchor] →
  signed_path t key (PkScript vtxo) (Value vtxo).
Proof.
  intros Hr Ho Hsig (Hv & Hs & (leaf & Hl & Hlo) & Hk & Hf).
  destruct (validated_chain _ _ _ _ _ Hv Hs Hl) as (rest & Hc & Hn & Hla & Hlc).
  exists root, out, rest, leaf, vtxo, anchor. rewrite Hn at 2. repeat split; try done.
  eapply signed_chain; try done. unfold VerifySigned in *. rewrite Hr, Ho in Hsig. done.
Qed.

Lemma validated_checked t key leaf op ct :
  ValidatePath t (Some key) leaf op = Ok ct →
  (∀ root, Root ct = Some root → keys_computed (childSigningTweak ct) root) →
  ∃ root out vtxo anchor, Root ct = Some root ∧ BatchOutput ct = Some out ∧
    BatchOutpoint ct = BatchOutpoint t ∧ BatchOutput ct = BatchOutput t ∧
    checked_root (childSigningTweak ct) root (BatchOutpoint ct) out key [vtxo; anchor] ∧
    PkScript vtxo = l_PkScript leaf ∧ Value vtxo = l_Amount leaf.
Proof.
  unfold ValidatePath. destruct (VerifyVTXOPath t (Some key) (l_PkScript leaf)) as [[]|] eqn:E;
    cbn [wrap]; [|done]. intros H Hf.
  destruct (verified_parts _ _ _ E) as (ct' & root & out & lf & vtxo & anchor & He & Hr & Ho & Hv &
    Hs & Hl & Hlo & Hsc & Hk). rewrite He in H. cbn [wrap] in H. unfold root_leaves in H.
  rewrite Hr in H. cbn in H. rewrite Hl, Hlo in H.
  destruct (Value vtxo =? l_Amount leaf) eqn:Ea; [|done].
  destruct (ContainsCosigner _ _); [|done]. injection H as <-.
  destruct (extract_tree _ _ _ He) as (? & ? & _ & _ & _ & Hop & Hout & _).
  exists root, out, vtxo, anchor. repeat split; try done; [by exists lf|by apply Hf|lia].
Qed.


End Signed.
