(* ===== verification/TxTreeBuild.v ===== *)
(** * Transaction trees: the builder

    The builder splits the leaves by weight until single leaves are left and fills
    in the transactions from the root down.  Positive amounts make every split
    smaller; the trees pass every validator and hold the leaves asked for. *)

From S2P Require Import Prelude RecoveryProof VtxoExpiry VtxoForfeit TxTree TxTreeSafety.
Local Open Scope Z_scope.

Section Partition.

Lemma insert_weighted_perm x l : insert_weighted x l ≡ₚ x :: l.
Proof.
  induction l as [|y l IH]; cbn; [done|]. destruct (y.1 <=? x.1); [done|].
  rewrite IH. apply Permutation_swap.
Qed.
Lemma sort_weighted_perm l : sort_weighted l ≡ₚ l.
Proof. induction l as [|x l IH]; cbn; [done|]. by rewrite insert_weighted_perm, IH. Qed.

Lemma min_index_bound best least i ws :
  (best < i + length ws)%nat → (min_index best least i ws < i + length ws)%nat.
Proof.
  revert best least i. induction ws as [|w ws IH]; intros best least i H; cbn in *; [lia|].
  destruct (w <? least).
  - specialize (IH i w (S i)). lia.
  - specialize (IH best least (S i)). lia.
Qed.

Lemma min_index_stays best least i ws :
  Forall (λ w, least ≤ w) ws → min_index best least i ws = best.
Proof.
  revert i. induction ws as [|w ws IH]; intros i H; cbn; [done|]. inversion H; subst.
  destruct (w <? least) eqn:E; [lia|]. by apply IH.
Qed.

Definition grouped (gs : list (Z * list LeafDescriptor)) : list LeafDescriptor :=
  concat (snd <$> gs).

Lemma alter_grouped k x gs :
  (k < length gs)%nat →
  grouped (alter (λ g, (int64 (g.1 + x.1), g.2 ++ [x.2])) k gs) ≡ₚ x.2 :: grouped gs.
Proof.
  revert k. unfold grouped. induction gs as [|g gs IH]; intros k Hk; cbn in *; [lia|].
  destruct k as [|k]; cbn.
  - rewrite <- app_assoc. symmetry. apply (Permutation_middle g.2 (concat (snd <$> gs)) x.2).
  - rewrite IH by lia. symmetry. apply Permutation_middle.
Qed.

Lemma assign_grouped gs x : gs ≠ [] → grouped (assign gs x) ≡ₚ x.2 :: grouped gs.
Proof.
  intros H. destruct gs as [|g gs]; [done|]. unfold assign. apply alter_grouped.
  pose proof (min_index_bound 0 g.1 1 (fst <$> gs)) as Hb. rewrite length_fmap in Hb. cbn. lia.
Qed.

Lemma assign_length gs x : length (assign gs x) = length gs.
Proof. destruct gs; [done|]. unfold assign. by rewrite length_alter. Qed.

Lemma foldl_grouped l gs :
  gs ≠ [] → grouped (foldl assign gs l) ≡ₚ (snd <$> l) ++ grouped gs.
Proof.
  revert gs. induction l as [|x l IH]; intros gs Hg; [done|]. cbn [foldl fmap list_fmap].
  rewrite IH; [|by rewrite <- length_zero_iff_nil, assign_length, length_zero_iff_nil].
  rewrite (assign_grouped gs x Hg). symmetry. apply Permutation_middle.
Qed.

Lemma grouped_replicate r : grouped (replicate r (0, [])) = [].
Proof. induction r; [done|]. unfold grouped in *. cbn. done. Qed.

Lemma concat_filter {A} (l : list (list A)) : concat (filter (λ g, g ≠ []) l) = concat l.
Proof.
  induction l as [|g l IH]; [done|]. rewrite filter_cons. case_decide as H; cbn; rewrite IH; [done|].
  by rewrite H.
Qed.

Lemma partition_concat leaves radix w :
  (0 < radix)%nat → concat (partitionLeavesByWeight leaves radix w) ≡ₚ leaves.
Proof.
  intros Hr. unfold partitionLeavesByWeight. rewrite concat_filter.
  fold (grouped (foldl assign (replicate radix (0, [])) (sort_weighted ((λ l, (Z.max 0 (w l), l)) <$> leaves)))).
  rewrite foldl_grouped by (by destruct radix; [lia|]). rewrite grouped_replicate, app_nil_r.
  rewrite sort_weighted_perm, <- list_fmap_compose. by rewrite (list_fmap_ext _ id), list_fmap_id.
Qed.

(** Once two groups are taken they stay taken. *)
Definition two_taken (gs : list (Z * list LeafDescriptor)) : Prop :=
  ∃ a b rest, gs = a :: b :: rest ∧ a.2 ≠ [] ∧ b.2 ≠ [].

Lemma two_taken_assign gs x : two_taken gs → two_taken (assign gs x).
Proof.
  intros (a & b & rest & -> & Ha & Hb). unfold assign.
  destruct (min_index _ _ _ _) as [|[|k]]; cbn.
  - eexists _, b, rest. split; [done|]. split; [|done]. cbn. by destruct a.2.
  - eexists a, _, rest. split; [done|]. split; [done|]. cbn. by destruct b.2.
  - by eexists a, b, _.
Qed.

Lemma two_taken_foldl l gs : two_taken gs → two_taken (foldl assign gs l).
Proof. revert gs. induction l as [|x l IH]; intros gs H; [done|]. apply IH. by apply two_taken_assign. Qed.

Lemma two_taken_start x y l r :
  0 < x.1 < 9223372036854775808 →
  two_taken (foldl assign (replicate (S (S r)) (0, [])) (x :: y :: l)).
Proof.
  intros Hx. cbn [foldl]. apply two_taken_foldl.
  assert (assign (replicate (S (S r)) (0, [])) x = (x.1, [x.2]) :: replicate (S r) (0, [])) as ->.
  { cbn. rewrite min_index_stays; [|by apply Forall_fmap, Forall_replicate].
    cbn. rewrite int64_id by (unfold is_int64; cbn; lia). done. }
  unfold assign. cbn [replicate fmap list_fmap fst]. cbn [min_index].
  replace (0 <? x.1) with true by lia.
  rewrite min_index_stays; [|by apply Forall_fmap, Forall_replicate]. cbn. by eexists _, _, _.
Qed.

(** Positive amounts make every part smaller than the whole. *)
Lemma partition_smaller leaves r group :
  Forall (λ l, 0 < l_Amount l < 9223372036854775808) leaves → (2 ≤ length leaves)%nat →
  group ∈ partitionLeavesByWeight leaves (S (S r)) WeightByBtcAmount →
  (0 < length group < length leaves)%nat.
Proof.
  intros Hp Hl Hin. unfold partitionLeavesByWeight in Hin.
  set (ws := (λ l, (Z.max 0 (WeightByBtcAmount l), l)) <$> leaves) in *.
  apply list_elem_of_filter in Hin as [Hne Hin].
  assert (sort_weighted ws ≡ₚ ws) as Hperm by apply sort_weighted_perm.
  destruct (sort_weighted ws) as [|x [|y l]] eqn:E.
  { apply Permutation_length in Hperm. subst ws. rewrite length_fmap in Hperm. cbn in Hperm. lia. }
  { apply Permutation_length in Hperm. subst ws. rewrite length_fmap in Hperm. cbn in Hperm. lia. }
  assert (0 < x.1 < 9223372036854775808) as Hx.
  { assert (x ∈ ws) as Hx by (rewrite <- Hperm; by left). subst ws.
    apply list_elem_of_fmap in Hx as (d & -> & Hd). rewrite Forall_forall in Hp. specialize (Hp d Hd).
    cbn. unfold WeightByBtcAmount. lia. }
  pose proof (two_taken_start x y l r Hx) as (a & b & rest & Hgs & Ha & Hb).
  assert (length (grouped (foldl assign (replicate (S (S r)) (0, [])) (x :: y :: l))) = length leaves) as Hlen.
  { rewrite foldl_grouped by done. rewrite grouped_replicate, app_nil_r, length_fmap.
    rewrite <- E, sort_weighted_perm. subst ws. apply length_fmap. }
  rewrite Hgs in Hin, Hlen. unfold grouped in Hlen. cbn in Hin, Hlen. rewrite !length_app in Hlen.
  assert (0 < length a.2 ∧ 0 < length b.2)%nat as [? ?] by (split; [by destruct a.2; cbn; [|lia]|by destruct b.2; cbn; [|lia]]).
  split; [by destruct group; cbn; [|lia]|].
  apply elem_of_cons in Hin as [->|Hin]; [lia|]. apply elem_of_cons in Hin as [->|Hin]; [lia|].
  apply list_elem_of_split in Hin as (k1 & k2 & Hk). rewrite Hk, concat_app, !length_app in Hlen. cbn in Hlen.
  rewrite length_app in Hlen. lia.
Qed.

End Partition.

Section Built.
Context {TX : Txscript} {MS : Musig}.
Context (op : PublicKey) (sweep : list Z) (r : nat).

(** ** The shape *)

Definition leaf_total (ls : list LeafDescriptor) : Z := foldr (λ l t, l_Amount l + t) 0 ls.
Definition good_leaf (l : LeafDescriptor) : Prop :=
  0 < l_Amount l ∧ is_Some (CoSignerKey l) ∧ l_PkScript l ≠ [].
Definition payout (l : LeafDescriptor) : Z * list Z := (l_Amount l, l_PkScript l).

Definition shape_total (ch : list Structure) : Z := foldr (λ c t, s_Amount c + t) 0 ch.

Fixpoint shape_leaves (s : Structure) : list (Z * list Z) :=
  match s_Children s with
  | [] => [(s_Amount s, s_Script s)]
  | _ => s_Children s ≫= shape_leaves
  end.

Inductive shaped : Structure → Prop :=
| shaped_leaf cos amt script :
    cos ≠ [] → 0 ≤ amt → script ≠ [] → shaped (mkStructure cos amt script [])
| shaped_branch cos amt script ch :
    cos ≠ [] → amt = shape_total ch → ch ≠ [] → Forall shaped ch →
    shaped (mkStructure cos amt script ch).

Lemma shaped_nonneg s : shaped s → 0 ≤ s_Amount s.
Proof.
  induction s as [s IH] using Structure_nested_ind. inversion 1 as [|cos amt script ch ? -> ? Hch]; subst; [done|].
  cbn in *. clear - IH Hch. unfold shape_total. induction Hch as [|c ch Hc Hch IHch]; cbn; [lia|].
  inversion IH as [|? ? H1 H2]; subst. specialize (H1 Hc). specialize (IHch H2). lia.
Qed.

Lemma shape_total_le c ch : Forall shaped ch → c ∈ ch → s_Amount c ≤ shape_total ch.
Proof.
  unfold shape_total. induction 1 as [|d ch Hd Hch IH]; intros Hin; [by apply not_elem_of_nil in Hin|].
  pose proof (shaped_nonneg d Hd). cbn.
  assert (0 ≤ shape_total ch) by (clear - Hch; unfold shape_total; induction Hch as [|e ch He _ IH]; cbn; [lia|]; pose proof (shaped_nonneg e He); lia).
  unfold shape_total in *. apply elem_of_cons in Hin as [->|Hin]; [lia|]. specialize (IH Hin). lia.
Qed.

Lemma leaf_total_perm l k : l ≡ₚ k → leaf_total l = leaf_total k.
Proof. unfold leaf_total. induction 1; cbn; lia. Qed.
Lemma leaf_total_app l k : leaf_total (l ++ k) = leaf_total l + leaf_total k.
Proof. unfold leaf_total. induction l; cbn; lia. Qed.
Lemma leaf_total_nonneg l : Forall good_leaf l → 0 ≤ leaf_total l.
Proof. induction 1 as [|x l [Hx _] _ IH]; unfold leaf_total in *; cbn; lia. Qed.

Lemma group_total groups g :
  Forall good_leaf (concat groups) → g ∈ groups →
  Forall good_leaf g ∧ leaf_total g ≤ leaf_total (concat groups).
Proof.
  intros Hg Hin. apply list_elem_of_split in Hin as (k1 & k2 & ->). rewrite concat_app in *. cbn in *.
  rewrite !Forall_app in Hg. destruct Hg as (H1 & H2 & H3). split; [done|]. rewrite !leaf_total_app.
  pose proof (leaf_total_nonneg _ H1). pose proof (leaf_total_nonneg _ H3). lia.
Qed.

(** The running sum does not wrap. *)
Lemma sum_children ch t :
  Forall shaped ch → 0 ≤ t → t + shape_total ch ≤ MaxSatoshi →
  foldl (λ total c, int64 (total + s_Amount c)) t ch = t + shape_total ch.
Proof.
  unfold shape_total, MaxSatoshi. revert t. induction ch as [|c ch IH]; intros t H Ht Hs; cbn in *; [lia|].
  inversion H as [|? ? H1 H2]; subst. pose proof (shaped_nonneg c H1).
  assert (0 ≤ foldr (λ c t, s_Amount c + t) 0 ch).
  { clear - H2. induction H2 as [|e ch He _ IH]; cbn; [lia|]. pose proof (shaped_nonneg e He). lia. }
  rewrite int64_id by (unfold is_int64; lia). rewrite IH; [lia|done|lia..].
Qed.

Lemma leaf_le ls l : Forall good_leaf ls → l ∈ ls → l_Amount l ≤ leaf_total ls.
Proof.
  intros Hg Hin. apply list_elem_of_split in Hin as (k1 & k2 & ->). rewrite leaf_total_app.
  apply Forall_app in Hg as [H1 H2]. inversion H2 as [|? ? _ H3]; subst. unfold leaf_total at 2. cbn.
  pose proof (leaf_total_nonneg _ H1). pose proof (leaf_total_nonneg _ H3). unfold leaf_total in *. lia.
Qed.

Definition built (ls : list LeafDescriptor) (res : result error Structure) : Prop :=
  ∃ s, res = Ok s ∧ shaped s ∧ s_Amount s = leaf_total ls ∧ shape_leaves s ≡ₚ payout <$> ls.

Lemma built_groups (f : list LeafDescriptor → result error Structure) groups :
  Forall (λ g, built g (f g)) groups →
  ∃ ch, map_results f groups = Ok ch ∧ Forall shaped ch ∧
    shape_total ch = leaf_total (concat groups) ∧ (ch ≫= shape_leaves) ≡ₚ payout <$> concat groups.
Proof.
  induction 1 as [|g gs (s & Hs & Hss & Hsa & Hsl) _ (ch & Hch & H1 & H2 & H3)]; cbn; [by exists []|].
  rewrite Hs, Hch. exists (s :: ch). split; [done|]. split; [by constructor|].
  split; [cbn; rewrite leaf_total_app, Hsa; unfold shape_total in H2; lia|]. cbn.
  by rewrite fmap_app, Hsl, H3.
Qed.

Lemma built_structure fuel leaves :
  Forall good_leaf leaves → leaves ≠ [] → leaf_total leaves ≤ MaxSatoshi →
  (length leaves ≤ fuel)%nat →
  built leaves (buildStructureRecursive fuel leaves op (S (S r)) WeightByBtcAmount).
Proof.
  revert leaves. induction fuel as [|fuel IH]; intros leaves Hg Hne Ht Hf.
  { destruct leaves; [done|]. cbn in Hf. lia. }
  destruct leaves as [|l1 [|l2 ls]] eqn:El; [done| |].
  { inversion Hg as [|? ? (Ha & [k Hk] & Hs) _]; subst. cbn. unfold buildLeafStructure. rewrite Hk.
    eexists. split; [done|]. split; [constructor; [done|lia|done]|]. split; [cbn; lia|done]. }
  rewrite <- El in *. assert (2 ≤ length leaves)%nat as H2 by (subst; cbn; lia).
  assert (∀ f, match leaves with [leaf] => buildLeafStructure leaf op | _ => f end = f) as Hm
    by (intros; by subst).
  cbn [buildStructureRecursive]. rewrite Hm. clear Hm El l1 l2 ls.
  set (groups := partitionLeavesByWeight leaves (S (S r)) WeightByBtcAmount).
  assert (concat groups ≡ₚ leaves) as Hperm by (apply partition_concat; lia).
  assert (Forall good_leaf (concat groups)) as Hgc by by rewrite Hperm.
  pose proof (leaf_total_perm _ _ Hperm) as Hlt.
  edestruct (built_groups (λ g, buildStructureRecursive fuel g op (S (S r)) WeightByBtcAmount) groups)
    as (ch & Hch & Hsh & Hst & Hsl).
  { apply Forall_forall. intros g Hin. destruct (group_total groups g Hgc Hin) as [Hgg Hgt].
    destruct (partition_smaller leaves r g) as [Hl1 Hl2]; [|done|done|].
    - apply Forall_forall. intros l Hl. pose proof (leaf_le leaves l Hg Hl). rewrite Forall_forall in Hg.
      destruct (Hg l Hl). unfold MaxSatoshi in *. lia.
    - apply IH; [done|by destruct g; [cbn in Hl1; lia|]|lia|lia]. }
  rewrite Hch. eexists. split; [done|]. rewrite sum_children; [|done|lia|lia].
  assert (ch ≠ []) as Hcne.
  { intros ->. cbn in Hsl. apply Permutation_length in Hperm, Hsl. rewrite length_fmap in Hsl.
    cbn in Hsl. lia. }
  split; [by constructor|]. split; [cbn; lia|]. cbn. rewrite <- Hperm, <- Hsl. by destruct ch.
Qed.

(** ** The transactions *)

Lemma sum_outputs_total t outs :
  Forall (λ o, 0 ≤ Value o) outs → 0 ≤ t → t + total_value outs ≤ MaxSatoshi →
  sum_outputs t outs = Ok (t + total_value outs).
Proof.
  revert t. induction outs as [|o outs IH]; intros t Ho Ht Hs; cbn; [f_equal; lia|].
  inversion Ho as [|? ? H1 H2]; subst. cbn in Hs. fold (total_value outs) in *.
  assert (0 ≤ total_value outs) by (clear - H2; unfold total_value; induction H2; cbn; lia).
  unfold validateSatoshiValue. replace (Value o <? 0) with false by lia.
  replace (MaxSatoshi <? Value o) with false by lia. replace (MaxSatoshi - Value o <? t) with false by lia.
  cbn. rewrite IH; [f_equal; lia|done|lia..].
Qed.

Lemma index_results_total {E A B} (f : Z → A → result E B) (R : Z → A → B → Prop) i l :
  Forall (λ x, ∀ j, ∃ y, f j x = Ok y ∧ R j x y) l →
  ∃ ys, index_results f i l = Ok ys ∧ Forall2 (λ x p, R p.1 x p.2) l ys ∧
    ∀ j y, (j, y) ∈ ys → ∃ k x, j = i + Z.of_nat k ∧ l !! k = Some x ∧ R j x y.
Proof.
  intros H. revert i. induction H as [|x l Hx _ IH]; intros i; cbn.
  { exists []. split; [done|]. split; [done|]. intros j y Hy. by apply not_elem_of_nil in Hy. }
  destruct (Hx i) as (y & Hy & HR). rewrite Hy. destruct (IH (i + 1)) as (ys & -> & HF & Hin).
  exists ((i, y) :: ys). split; [done|]. split; [by constructor|]. intros j z Hz.
  apply elem_of_cons in Hz as [[= -> ->]|Hz]; [exists 0%nat, x; split; [lia|done]|].
  destruct (Hin j z Hz) as (k & x' & -> & Hk & HR'). exists (S k), x'. split; [lia|]. done.
Qed.

(** What is paid by the first output of a leaf. *)
Definition leaf_payout (n : Node) : Z * list Z :=
  match Outputs n with o :: _ => (Value o, PkScript o) | [] => (0, []) end.

Definition materialized_as (s : Structure) (input : OutPoint) (n : Node) : Prop :=
  CoSigners n = s_CoSigners s ∧
  validateNodeValueConservation n input (s_Amount s) = Ok tt ∧
  validateNodeChildScripts (λ _, sweep) n = Ok tt ∧
  Forall (λ m, validate_anchor m = Ok tt) (NodesIter n) ∧
  leaf_payout <$> GetLeafNodes n = shape_leaves s ∧ keys_computed (λ _, sweep) n.

Context (keys_total : ∀ cs, cs ≠ [] →
  ∃ k script, ComputeFinalKey cs sweep = Ok k ∧ PayToTaprootScript k = Ok script).

Definition pays (c : Structure) (o : TxOut) : Prop :=
  Value o = s_Amount c ∧ cosigner_script (s_CoSigners c) sweep = Ok (PkScript o).

Lemma shaped_cosigners s : shaped s → s_CoSigners s ≠ [].
Proof. by destruct 1. Qed.

Lemma branch_outputs_total ch :
  Forall shaped ch → ∃ outs, branch_outputs sweep ch = Ok outs ∧ Forall2 pays ch outs.
Proof.
  unfold branch_outputs. induction 1 as [|c ch Hc _ (outs & Ho & HF)]; [by exists []|].
  destruct (keys_total (s_CoSigners c)) as (k & script & Hk & Hs); [by apply shaped_cosigners|].
  assert (cosigner_script (s_CoSigners c) sweep = Ok script) as Hcs.
  { unfold cosigner_script. by rewrite Hk, Hs. }
  exists (mkTxOut (s_Amount c) script :: outs). cbn. rewrite Ho, Hcs. split; [done|]. by constructor.
Qed.

Lemma pays_total ch outs :
  Forall shaped ch → Forall2 pays ch outs →
  total_value (outs ++ [AnchorOutput]) = shape_total ch ∧
  Forall (λ o, 0 ≤ Value o) (outs ++ [AnchorOutput]).
Proof.
  intros Hs HF. induction HF as [|c o ch outs [Hv _] HF IH].
  { split; [done|]. constructor; [cbn; lia|constructor]. }
  inversion Hs as [|? ? H1 H2]; subst. destruct (IH H2) as [H3 H4]. split.
  - unfold total_value, shape_total in *. cbn. rewrite H3. lia.
  - constructor; [|done]. pose proof (shaped_nonneg c H1). lia.
Qed.

Lemma child_nodes_leaves ch nodes :
  Forall2 (λ c p, leaf_payout <$> GetLeafNodes p.2 = shape_leaves c) ch nodes →
  leaf_payout <$> ((nodes : list (Z * Node)) ≫= λ p, GetLeafNodes p.2) = ch ≫= shape_leaves.
Proof. induction 1 as [|c p ch nodes H _ IH]; [done|]. cbn. by rewrite fmap_app, H, IH. Qed.

Lemma child_nodes_all (P : Node → Prop) (ch : list Structure) nodes :
  Forall2 (λ c p, Forall P (NodesIter p.2)) ch nodes →
  Forall P ((nodes : list (Z * Node)) ≫= λ p, NodesIter p.2).
Proof. induction 1 as [|c p ch nodes H _ IH]; [constructor|]. cbn. by apply Forall_app. Qed.

(** A branch is valid when its children are. *)
Lemma branch_valid cos amt script ch input outs nodes k :
  ch ≠ [] → amt = shape_total ch → Forall shaped ch → amt ≤ MaxSatoshi → Forall2 pays ch outs →
  ComputeFinalKey cos sweep = Ok k →
  let n := mkNode input (outs ++ [AnchorOutput]) cos amt None (Some k) nodes in
  Forall2 (λ c p, materialized_as c (mkOutPoint (TXID n) p.1) p.2) ch nodes →
  (∀ j c, (j, c) ∈ nodes → ∃ q d, j = Z.of_nat q ∧ ch !! q = Some d ∧
    materialized_as d (mkOutPoint (TXID n) j) c) →
  materialized_as (mkStructure cos amt script ch) input n.
Proof.
  intros Hne Hamt Hsh Hmax Hp Hk n HF Hin. destruct (pays_total ch outs Hsh Hp) as [Htot Hnn].
  assert (∀ j c, (j, c) ∈ nodes → (j <? 0) = false ∧ ∃ d o, (outs ++ [AnchorOutput]) !! Z.to_nat j = Some o ∧
    pays d o ∧ materialized_as d (mkOutPoint (TXID n) j) c) as Hch.
  { intros j c Hjc. destruct (Hin j c Hjc) as (q & d & -> & Hq & Hm).
    destruct (Forall2_lookup_l _ _ _ _ _ Hp Hq) as (o & Ho & Hpo). split; [apply Z.ltb_ge; lia|].
    exists d, o. rewrite Nat2Z.id. split; [by apply lookup_app_l_Some|done]. }
  split; [done|]. split; [|split; [|split; [|split]]].
  - subst n. cbn [validateNodeValueConservation Input Outputs Children s_Amount].
    rewrite bool_decide_true by done. rewrite bool_decide_false by (by destruct outs). cbn [negb].
    rewrite sum_outputs_total by (done || lia). rewrite Z.add_0_l, Htot, <- Hamt, Z.ltb_irrefl. cbn [negb].
    apply for_each_ok. intros [j c] Hjc. destruct (Hch j c Hjc) as (Hj & d & o & Ho & [Hv _] & Hm).
    cbn [fst snd]. rewrite Hj, Ho, Hv. apply Hm.
  - subst n. cbn [validateNodeChildScripts Outputs Children]. apply for_each_ok. intros [j c] Hjc.
    destruct (Hch j c Hjc) as (Hj & d & o & Ho & [_ Hs] & Hm). cbn [fst snd]. rewrite Hj, Ho.
    destruct Hm as (-> & _ & Hcs & _). rewrite Hs. by rewrite bool_decide_true.
  - rewrite nodes_eq. constructor.
    + unfold validate_anchor. subst n. cbn [Outputs]. rewrite last_snoc. done.
    + apply (child_nodes_all _ ch). eapply Forall2_impl; [exact HF|]. intros c p Hm. apply Hm.
  - rewrite leaves_eq. assert (IsLeaf n = false) as ->.
    { unfold IsLeaf. subst n. cbn. apply Forall2_length in HF. destruct nodes, ch; done. }
    subst n. cbn [Children]. erewrite child_nodes_leaves; [by destruct ch|].
    eapply Forall2_impl; [exact HF|]. intros c p Hm. apply Hm.
  - intros m key Hm Hkey. rewrite nodes_eq in Hm. apply elem_of_cons in Hm as [->|Hm]; [by injection Hkey as <-|].
    apply list_elem_of_bind in Hm as ([j c] & Hm & Hjc). destruct (Hch j c Hjc) as (_ & d & o & _ & _ & Hmat).
    by apply Hmat.
Qed.

Lemma materialized s input :
  shaped s → s_Amount s ≤ MaxSatoshi →
  ∃ n, Materialize sweep input s = Ok n ∧ materialized_as s input n.
Proof.
  revert input. induction s as [s IH] using Structure_nested_ind. intros input Hs Hmax.
  inversion Hs as [cos amt script Hc Ha Hsc|cos amt script ch Hc Hamt Hne Hch]; subst s; cbn in Hmax.
  - destruct (keys_total cos Hc) as (k & _ & Hk & _). cbn. rewrite Hk. cbn.
    rewrite bool_decide_false by done.
    eexists. split; [done|]. split; [done|]. cbn [s_Amount]. repeat split.
    + cbn [validateNodeValueConservation Input Outputs Children]. rewrite bool_decide_true by done.
      rewrite sum_outputs_total; [|constructor; [cbn; lia|constructor; [cbn; lia|constructor]]|lia|cbn; lia]. cbn.
      rewrite Z.add_0_r, Z.add_0_l, Z.ltb_irrefl. done.
    + by repeat constructor.
    + intros m key Hm Hkey. apply elem_of_cons in Hm as [->|Hm]; [by injection Hkey as <-|].
      by apply not_elem_of_nil in Hm.
  - cbn in IH. destruct (keys_total cos Hc) as (k & _ & Hk & _).
    destruct (branch_outputs_total ch Hch) as (outs & Ho & Hp).
    set (id := ForfeitTxHash (mkForfeitMsgTx 3 0 [(input, MaxTxInSequenceNum)] (outs ++ [AnchorOutput]))).
    destruct (index_results_total (λ i c, Materialize sweep (mkOutPoint id i) c)
      (λ i c n, materialized_as c (mkOutPoint id i) n) 0 ch) as (nodes & Hn & HF & Hin).
    { apply Forall_forall. intros c Hcin j. rewrite Forall_forall in IH. apply IH; [done| |].
      - by rewrite Forall_forall in Hch; apply Hch.
      - pose proof (shape_total_le c ch Hch Hcin). lia. }
    exists (mkNode input (outs ++ [AnchorOutput]) cos amt None (Some k) nodes). split.
    + cbn [Materialize s_CoSigners s_Children s_Amount]. rewrite Hk. cbn [wrap].
      destruct ch as [|c ch]; [done|]. rewrite Ho. cbn zeta. fold id. by rewrite Hn.
    + by apply branch_valid.
Qed.

End Built.

(** Every list of keys has an output script. *)
Definition keys_total {TX : Txscript} {MS : Musig} (sweep : list Z) : Prop :=
  ∀ cs, cs ≠ [] → ∃ k script, ComputeFinalKey cs sweep = Ok k ∧ PayToTaprootScript k = Ok script.

(** What the builder guarantees, with the shape it used. *)
Lemma built_tree {TX : Txscript} {MS : Musig} op sweep radix input out leaves :
  keys_total sweep → leaves ≠ [] → Forall good_leaf leaves →
  leaf_total leaves = Value out → Value out ≤ MaxSatoshi → radix = 0 ∨ 2 ≤ radix →
  ∃ t root s r, BuildTree (Some op) sweep radix input (Some out) leaves = Ok t ∧
    buildStructureRecursive (length leaves) leaves op (S (S r)) WeightByBtcAmount = Ok s ∧
    CoSigners root = s_CoSigners s ∧
    Root t = Some root ∧ BatchOutpoint t = input ∧ BatchOutput t = Some out ∧
    Verify_ t = Ok tt ∧ ValidateChildScripts t = Ok tt ∧ ValidateAnchors t = Ok tt ∧
    leaf_payout <$> GetLeafNodes root ≡ₚ payout <$> leaves.
Proof.
  intros Hk Hne Hg Ht Hmax Hr. unfold BuildTree. rewrite bool_decide_false by done. cbn [negb].
  assert ((radix <? 2) && negb (radix =? 0) = false) as ->.
  { destruct Hr as [->|Hr]; [done|]. replace (radix <? 2) with false by lia. done. }
  cbn [negb]. assert (∃ r, Z.to_nat (if radix =? 0 then 2 else radix) = S (S r)) as [r ->].
  { destruct Hr as [->|Hr]; [by exists 0%nat|]. exists (Z.to_nat radix - 2)%nat.
    replace (radix =? 0) with false by lia. lia. }
  unfold BuildStructure.
  destruct (built_structure op r (length leaves) leaves Hg Hne) as (s & Hbs & Hs & Ha & Hl); [lia|done|].
  rewrite Hbs. cbn [wrap]. replace (s_Amount s =? Value out) with true by lia.
  destruct (materialized sweep Hk s input Hs) as (n & -> & Hm); [lia|]. cbn [wrap].
  eexists _, n, s, r. split; [done|]. split; [done|]. destruct Hm as (Hcos & Hv & Hsc & Han & Hlv & _).
  split; [done|].
  assert (0 ≤ Value out) by (pose proof (leaf_total_nonneg leaves Hg); lia).
  assert (validateSatoshiValue (Value out) = Ok tt) as Hvo.
  { unfold validateSatoshiValue. replace (Value out <? 0) with false by lia.
    by replace (MaxSatoshi <? Value out) with false by lia. }
  split; [done|]. split; [done|]. split; [done|]. rewrite Ha, Ht in Hv.
  split; [|split; [done|split; [|by rewrite Hlv]]].
  - unfold Verify_, ValidateValueConservation. cbn [Root BatchOutput BatchOutpoint]. rewrite Hvo, Hv.
    apply conservation_node in Hv as (-> & _). by rewrite bool_decide_true.
  - unfold ValidateAnchors. cbn [Root]. rewrite for_each_nodes. apply for_each_ok. intros m Hm.
    by rewrite Forall_forall in Han; apply Han.
Qed.

(** *** A concrete chain *)

(** A pairing that grows: the square of the sum and the second component. *)
Definition pair_up (a b : N) : N := ((a + b) * (a + b) + b)%N.

Lemma pair_up_inj a b a' b' : pair_up a b = pair_up a' b' → b = b'.
Proof.
  unfold pair_up. intros H. assert (a + b = a' + b')%N as He; [|rewrite He in H; lia].
  destruct (N.lt_trichotomy (a + b) (a' + b')) as [Hlt|[Heq|Hlt]]; [|done|]; nia.
Qed.

#[export] Instance TxOut_countable : Countable TxOut.
Proof. refine (inj_countable' (λ o, (Value o, PkScript o)) (λ p, mkTxOut p.1 p.2) _). by intros []. Defined.
#[export] Instance ForfeitMsgTx_countable : Countable ForfeitMsgTx.
Proof.
  refine (inj_countable' (λ t, (Version t, LockTime t, f_TxIn t, f_TxOut t))
    (λ p, mkForfeitMsgTx p.1.1.1 p.1.1.2 p.1.2 p.2) _). by intros [].
Defined.

(** The five transactions of a small tree, and a commitment transaction with the one
    below it, have short hashes; any other has one above them that grows. *)
Definition tree_tx (h : Hash) (i : Z) (outs : list TxOut) : ForfeitMsgTx :=
  mkForfeitMsgTx 3 0 [(mkOutPoint h i, MaxTxInSequenceNum)] (outs ++ [AnchorOutput]).
Definition chain_txs : list ForfeitMsgTx :=
  [tree_tx 77 0 [mkTxOut 500 [81; 32; 7011005]; mkTxOut 500 [81; 32; 7013012005]];
   tree_tx 101 0 [mkTxOut 500 [81; 1]];
   tree_tx 101 1 [mkTxOut 300 [81; 32; 7012005]; mkTxOut 200 [81; 32; 7013005]];
   tree_tx 103 0 [mkTxOut 300 [81; 2]];
   tree_tx 103 1 [mkTxOut 200 [81; 3]];
   mkForfeitMsgTx 3 0 [(mkOutPoint 9 0, MaxTxInSequenceNum)] [mkTxOut 900 [81; 32; 7011005]];
   tree_tx 106 0 [mkTxOut 900 [81; 1]]].
Definition long_hash (tx : ForfeitMsgTx) : Hash :=
  (1000 + pair_up (match f_TxIn tx with p :: _ => op_Hash p.1 | [] => 0 end) (Npos (encode tx)))%N.
Definition chain_hash (tx : ForfeitMsgTx) : Hash :=
  match list_find (λ t, t = tx) chain_txs with
  | Some (i, _) => (101 + N.of_nat i)%N
  | None => long_hash tx
  end.

(** Keys are numbers, a script is a key with a prefix, and a signature is the key and
    what it signs. *)
Definition chain_script : Txscript := {|
  control_block := unit;
  ParseControlBlock _ := Ok tt;
  InternalKey _ := 0%N;
  RootHash _ _ := 0%N;
  ComputeTaprootOutputKey k _ := k;
  PayToTaprootScript k := Ok [81; 32; Z.of_N k];
  ARKNUMSKey := 0%N;
  CalcTapscriptSignaturehash _ _ _ _ := Ok [];
  Verify sig h k := bool_decide (sig = Z.of_N k :: h);
  ParseSignature s := Ok s;
  ForfeitTxHash := chain_hash;
|}.
Definition chain_musig : Musig := {|
  AggregateKeys ks _ := Ok (foldr (λ k t, 1000 * t + k)%N 7%N ks);
  TweakKey k _ := k;
  SerializePubKey k := k;
  CalcTaprootSignatureHash tx out :=
    Ok (Z.of_N (chain_hash tx) :: match out with Some o => Value o :: PkScript o | None => [] end);
  IsPayToTaproot s := match s with 81 :: _ => true | _ => false end;
|}.

Lemma chain_hash_short tx i t :
  list_find (λ t, t = tx) chain_txs = Some (i, t) → chain_txs !! i = Some tx ∧ (i < 7)%nat.
Proof.
  intros H. apply list_find_Some in H as (H & -> & _). split; [done|]. by apply lookup_lt_Some in H.
Qed.

Lemma chain_hash_inj tx tx' : chain_hash tx = chain_hash tx' → tx = tx'.
Proof.
  unfold chain_hash.
  destruct (list_find (λ t, t = tx) chain_txs) as [[i t]|] eqn:E;
    destruct (list_find (λ t, t = tx') chain_txs) as [[j t']|] eqn:E'; intros H.
  - apply chain_hash_short in E as [E _], E' as [E' _]. assert (i = j) as -> by lia. congruence.
  - apply chain_hash_short in E as [_ E]. unfold long_hash in H. lia.
  - apply chain_hash_short in E' as [_ E']. unfold long_hash in H. lia.
  - unfold long_hash in H. apply N.add_cancel_l, pair_up_inj in H. injection H as H. by apply (inj encode) in H.
Qed.

Lemma chain_hash_above tx p : f_TxIn tx = [p] → (op_Hash p.1 < chain_hash tx)%N.
Proof.
  intros Hp. unfold chain_hash. destruct (list_find (λ t, t = tx) chain_txs) as [[i t]|] eqn:E.
  - apply chain_hash_short in E as [E _].
    do 7 (destruct i as [|i]; [injection E as <-; injection Hp as <-; cbn; lia|]). done.
  - unfold long_hash. rewrite Hp. unfold pair_up. cbn [fst op_Hash]. nia.
Qed.

Lemma chain_hash_laws : @HashLaws chain_script.
Proof.
  exact {| hash_inj := chain_hash_inj : ∀ tx tx', @ForfeitTxHash chain_script tx = _ → _;
    generation := id; hash_above := chain_hash_above |}.
Qed.

Definition three_leaves : list LeafDescriptor :=
  [mkLeaf [81; 1] 500 (Some 11%N) 0; mkLeaf [81; 2] 300 (Some 12%N) 0; mkLeaf [81; 3] 200 (Some 13%N) 0].

(** *** An exit *)

Definition from_result {A} (d : A) (r : result error A) : A := match r with Ok x => x | Err _ => d end.
Definition no_tree : Tree := mkTree None (mkOutPoint 0 0) None [] None 0 None.

Definition chain_tree : Tree :=
  from_result no_tree (@BuildTree chain_script chain_musig (Some 5%N) [9] 2 (mkOutPoint 77 0)
    (Some (mkTxOut 1000 [81])) three_leaves).
Definition chain_leaf : LeafDescriptor := mkLeaf [81; 2] 300 (Some 12%N) 0.
Definition chain_path : Tree :=
  from_result no_tree (@ValidatePath chain_script chain_musig chain_tree (Some 12%N) chain_leaf 5).

(** The signatures of every node of a path. *)
Definition sign_node {TX : Txscript} {MS : Musig} (prevs : gmap OutPoint TxOut) (n : Node) :
    Hash * Signature :=
  (TXID n, Z.of_N (default 0%N (FinalKey n)) :: from_result [] (SigHash n prevs)).
Definition sign_path {TX : Txscript} {MS : Musig} (t : Tree) : gmap Hash Signature :=
  match Root t, BatchOutput t with
  | Some root, Some out => list_to_map (map (sign_node (PrevOutputFetcher root out)) (NodesIter root))
  | _, _ => ∅
  end.
Definition chain_sigs : gmap Hash Signature := @sign_path chain_script chain_musig chain_path.

Definition keys_ok {MS : Musig} (tweak : Node → list Z) (m : Node) : bool :=
  match FinalKey m, ComputeFinalKey (CoSigners m) (tweak m) with
  | Some k, Ok k' => bool_decide (k = k')
  | None, _ => true
  | _, _ => false
  end.
Lemma keys_ok_computed {MS : Musig} tweak n :
  forallb (keys_ok tweak) (NodesIter n) = true → keys_computed tweak n.
Proof.
  rewrite forallb_forall. intros H m key Hm Hk. apply list_elem_of_In in Hm. specialize (H m Hm).
  unfold keys_ok in H. rewrite Hk in H. destruct (ComputeFinalKey _ _); [|done].
  apply bool_decide_eq_true in H. by subst.
Qed.


(** Two leaves without an amount are never split: the recursion has no end. *)
Lemma zero_leaves_not_split {MS : Musig} fuel op l :
  l_Amount l ≤ 0 →
  buildStructureRecursive fuel [l; l] op 2 WeightByBtcAmount = Err "stack overflow".
Proof.
  intros Hl. assert (partitionLeavesByWeight [l; l] 2 WeightByBtcAmount = [[l; l]]) as Hp.
  { unfold partitionLeavesByWeight, WeightByBtcAmount. cbn. by rewrite Z.max_l by done. }
  induction fuel as [|fuel IH]; [done|]. cbn [buildStructureRecursive]. rewrite Hp. cbn [map_results].
  by rewrite IH.
Qed.
