(* ===== verification/TxTreeBatch.v ===== *)
(** * Transaction trees: the batch output and the tree below it

    The operator computes the output of the commitment transaction from the
    requested VTXOs, and later the tree from the same list.  The tree fits: it
    spends exactly this output, and its root is signed by exactly the keys the
    output is locked to. *)

From S2P Require Import Prelude RecoveryProof VtxoExpiry VtxoForfeit TxTree TxTreeSafety TxTreeBuild.
Local Open Scope Z_scope.

Section Signers.
Context {TX : Txscript} {MS : Musig}.

Lemma unique_from_elem seen l k :
  k ∈ unique_from seen l → k ∈ l ∧ SerializePubKey k ∉ seen.
Proof.
  revert seen. induction l as [|x l IH]; intros seen Hk; cbn in Hk; [by apply not_elem_of_nil in Hk|].
  case_bool_decide as Hx.
  - apply IH in Hk as [? ?]. split; [by right|done].
  - apply elem_of_cons in Hk as [->|Hk]; [by split; [left|]|].
    apply IH in Hk as [? Hn]. split; [by right|]. intros Hs. apply Hn. by right.
Qed.

Lemma unique_from_nodup seen l : NoDup (SerializePubKey <$> unique_from seen l).
Proof.
  revert seen. induction l as [|x l IH]; intros seen; cbn; [constructor|].
  case_bool_decide; [apply IH|]. cbn. constructor; [|apply IH].
  intros H1. apply list_elem_of_fmap in H1 as (k & Hk & Hin).
  apply unique_from_elem in Hin as [_ Hn]. apply Hn. rewrite Hk. by left.
Qed.

Lemma unique_from_covers seen l k :
  k ∈ l → SerializePubKey k ∉ seen →
  ∃ k', k' ∈ unique_from seen l ∧ SerializePubKey k' = SerializePubKey k.
Proof.
  revert seen. induction l as [|x l IH]; intros seen Hk Hn; [by apply not_elem_of_nil in Hk|]. cbn.
  case_bool_decide as Hx.
  - apply elem_of_cons in Hk as [->|Hk]; [done|]. by apply IH.
  - destruct (decide (SerializePubKey k = SerializePubKey x)) as [He|He].
    { exists x. split; [by left|done]. }
    apply elem_of_cons in Hk as [->|Hk]; [done|].
    destruct (IH (SerializePubKey x :: seen) Hk) as (k' & Hk' & ?).
    { by apply not_elem_of_cons. }
    exists k'. split; [by right|done].
Qed.

(** Keys that differ in the form in which they are compared. *)
Definition distinct (U : list PublicKey) : Prop := NoDup (SerializePubKey <$> U).

Lemma distinct_inj U a b :
  distinct U → a ∈ U → b ∈ U → SerializePubKey a = SerializePubKey b → a = b.
Proof.
  intros Hd Ha Hb He. apply list_elem_of_lookup in Ha as [i Hi], Hb as [j Hj].
  assert (i = j) as ->; [|congruence].
  apply (NoDup_lookup _ i j (SerializePubKey a) Hd); rewrite list_lookup_fmap.
  - by rewrite Hi.
  - by rewrite Hj, He.
Qed.

Lemma unique_elem U l k :
  distinct U → l ⊆ U → k ∈ UniqueCosigners l ↔ k ∈ l.
Proof.
  intros Hd Hl. split; [intros Hk; by apply unique_from_elem in Hk as [? _]|]. intros Hk.
  destruct (unique_from_covers [] l k Hk) as (k' & Hk' & He); [apply not_elem_of_nil|].
  replace k with k'; [done|]. apply (distinct_inj U); [done| |by apply Hl|done].
  apply Hl. by apply unique_from_elem in Hk' as [? _].
Qed.

(** ** The signers of a tree *)

Definition leaf_keys (l : list LeafDescriptor) : list PublicKey := omap CoSignerKey l.

Definition signed_by (op : PublicKey) (l : list LeafDescriptor) (s : Structure) : Prop :=
  ∀ k, k ∈ s_CoSigners s ↔ k = op ∨ k ∈ leaf_keys l.

Lemma leaf_keys_app l k : leaf_keys (l ++ k) = leaf_keys l ++ leaf_keys k.
Proof. apply omap_app. Qed.

Lemma groups_signed op groups ch :
  Forall2 (signed_by op) groups ch →
  ∀ k, k ∈ op :: (ch ≫= s_CoSigners) ↔ k = op ∨ k ∈ leaf_keys (concat groups).
Proof.
  intros HF k. rewrite elem_of_cons. induction HF as [|g s groups ch H _ IH]; [done|].
  cbn. rewrite elem_of_app, leaf_keys_app, elem_of_app, (H k). tauto.
Qed.

Lemma structure_signers fuel op leaves r s :
  distinct (op :: leaf_keys leaves) → leaves ≠ [] →
  buildStructureRecursive fuel leaves op (S (S r)) WeightByBtcAmount = Ok s →
  signed_by op leaves s ∧ distinct (s_CoSigners s).
Proof.
  revert leaves s. induction fuel as [|fuel IH]; intros leaves s Hd Hne; [done|].
  assert (∀ l, (∀ k, k ∈ l ↔ k = op ∨ k ∈ leaf_keys leaves) →
    ∀ k, k ∈ UniqueCosigners l ↔ k = op ∨ k ∈ leaf_keys leaves) as Hu.
  { intros l H k. rewrite (unique_elem (op :: leaf_keys leaves) l k Hd); [done|].
    intros x Hx. by apply H in Hx as [->|Hx]; [left|right]. }
  destruct leaves as [|l1 [|l2 ls]] eqn:El; [done| |].
  { cbn [buildStructureRecursive]. unfold buildLeafStructure. destruct (CoSignerKey l1) as [key|] eqn:Ek; [|done].
    intros [= <-]. split; [|apply unique_from_nodup].
    unfold signed_by. cbn [s_CoSigners]. apply Hu. intros k.
    assert (leaf_keys [l1] = [key]) as -> by (cbn; by rewrite Ek). by rewrite elem_of_cons. }
  rewrite <- El in *. cbn [buildStructureRecursive].
  assert (∀ f, match leaves with [leaf] => buildLeafStructure leaf op | _ => f end = f) as ->
    by (intros; by subst).
  set (groups := partitionLeavesByWeight leaves (S (S r)) WeightByBtcAmount).
  assert (concat groups ≡ₚ leaves) as Hperm by (apply partition_concat; lia).
  assert (leaf_keys (concat groups) ≡ₚ leaf_keys leaves) as Hkp by (unfold leaf_keys; by rewrite Hperm).
  destruct (map_results _ groups) as [ch|] eqn:E; [|done]. intros [= <-]. split; [|apply unique_from_nodup].
  apply map_results_ok in E. assert (Forall2 (signed_by op) groups ch) as HF.
  { apply Forall2_same_length_lookup_2; [by apply Forall2_length in E|]. intros i g c Hg Hc.
    pose proof (Forall2_lookup_lr _ _ _ _ _ _ E Hg Hc) as Hgc. cbn in Hgc.
    apply IH in Hgc as [? _]; [done| |].
    - apply list_elem_of_lookup_2, list_elem_of_split in Hg as (k1 & k2 & Hg).
      unfold distinct in *. cbn in *. rewrite <- Hkp, Hg, concat_app in Hd. cbn in Hd.
      rewrite !leaf_keys_app, !fmap_app in Hd. apply NoDup_cons in Hd as [Hn Hd].
      apply NoDup_app in Hd as (_ & _ & Hd). apply NoDup_app in Hd as (Hd & _). apply NoDup_cons.
      split; [|done]. intros H. apply Hn. rewrite !elem_of_app. by right; left.
    - intros ->. apply list_elem_of_lookup_2 in Hg. unfold groups, partitionLeavesByWeight in Hg.
      by apply list_elem_of_filter in Hg as [? _]. }
  pose proof (groups_signed op groups ch HF) as Hgs.
  assert (∀ k, k ∈ op :: (ch ≫= s_CoSigners) ↔ k = op ∨ k ∈ leaf_keys leaves) as Hk
    by (intros k; by rewrite (Hgs k), Hkp).
  unfold signed_by. cbn [s_CoSigners]. by apply Hu.
Qed.

End Signers.

(** ** The batch output *)

(** MuSig2 sorts the keys it aggregates. *)
Class MusigLaws {MS : Musig} := {
  aggregate_sorted ks ks' tweak : ks ≡ₚ ks' → AggregateKeys ks tweak = AggregateKeys ks' tweak;
}.

Section Batch.
Context {TX : Txscript} {MS : Musig} {ML : MusigLaws}.
Context (sweepTapRoot : option PublicKey → Z → result error (list Z)).

Definition descriptor_keys (vtxos : list VTXODescriptor) : list PublicKey := omap vd_CoSignerKey vtxos.
Definition descriptor_total (vtxos : list VTXODescriptor) : Z := foldr (λ v t, vd_Amount v + t) 0 vtxos.

Lemma insert_leaf_perm x l : insert_leaf x l ≡ₚ x :: l.
Proof.
  induction l as [|y l IH]; cbn; [done|]. destruct (leaf_before y x); [|done].
  rewrite IH. apply Permutation_swap.
Qed.
Lemma sort_leaves_perm l : sort_leaves l ≡ₚ l.
Proof. induction l as [|x l IH]; cbn; [done|]. by rewrite insert_leaf_perm, IH. Qed.

Lemma validated_descriptors seen vtxos :
  validate_descriptors seen vtxos = Ok tt →
  Forall good_leaf (ToLeafDescriptor <$> vtxos) ∧ distinct (descriptor_keys vtxos) ∧
  Forall (λ k, SerializePubKey k ∉ seen) (descriptor_keys vtxos).
Proof.
  revert seen. induction vtxos as [|v vtxos IH]; intros seen; cbn [validate_descriptors].
  { intros _. split; [constructor|]. split; [apply NoDup_nil_2|constructor]. }
  destruct (0 <? vd_Amount v) eqn:E1; [|done]. case_bool_decide as E2; [done|].
  destruct (IsPayToTaproot _); [|done]. cbn [negb]. destruct (vd_CoSignerKey v) as [key|] eqn:Ek; [|done].
  case_bool_decide as E3; [done|]. cbn [negb]. intros H. apply IH in H as (H1 & H2 & H3).
  unfold descriptor_keys, distinct in *. cbn. rewrite Ek. split; [|split].
  - constructor; [|done]. split; [cbn; lia|]. split; [cbn; by rewrite Ek|done].
  - cbn. apply NoDup_cons. split; [|done]. intros Hin. apply list_elem_of_fmap in Hin as (k & Hk & Hin).
    rewrite Forall_forall in H3. apply (H3 k Hin). rewrite Hk. by left.
  - constructor; [done|]. eapply Forall_impl; [exact H3|]. intros k Hk Hs. apply Hk. by right.
Qed.

Lemma batch_signers_ok opk seen signers t vtxos p :
  batch_signers opk seen signers t vtxos = Ok p → distinct (descriptor_keys vtxos) →
  Forall (λ k, SerializePubKey k ∈ seen → SerializePubKey k = opk) (descriptor_keys vtxos) →
  p = (signers ++ descriptor_keys vtxos, t + descriptor_total vtxos) ∧
  Forall (λ k, SerializePubKey k ≠ opk) (descriptor_keys vtxos).
Proof.
  unfold descriptor_keys, descriptor_total, distinct.
  revert seen signers t. induction vtxos as [|v vtxos IH]; intros seen signers t; cbn [batch_signers].
  { intros [= <-] _ _. cbn. by rewrite app_nil_r, Z.add_0_r. }
  destruct (vd_Amount v <? 0); [done|]. cbn [negb]. cbn.
  destruct (vd_CoSignerKey v) as [key|] eqn:Ek; [|done].
  destruct (negb (_ <? t)); [|done]. destruct (N.eqb_spec (SerializePubKey key) opk) as [|Hop]; [done|]. cbn.
  intros H Hd Hs. inversion Hs as [|? ? Hk Hs']; subst. rewrite bool_decide_false in H by (intros Hin; auto).
  apply NoDup_cons in Hd as [Hn Hd]. apply IH in H as [-> H]; [|done|].
  - rewrite <- app_assoc. split; [f_equal; lia|]. by constructor.
  - apply Forall_forall. intros k Hin Hks. apply elem_of_cons in Hks as [Hks|Hks].
    + destruct Hn. rewrite <- Hks. by apply list_elem_of_fmap_2.
    + rewrite Forall_forall in Hs'. by apply Hs'.
Qed.

Lemma descriptor_leaves vtxos :
  leaf_keys (sort_leaves (ToLeafDescriptor <$> vtxos)) ≡ₚ descriptor_keys vtxos ∧
  leaf_total (sort_leaves (ToLeafDescriptor <$> vtxos)) = descriptor_total vtxos.
Proof.
  rewrite (leaf_total_perm _ _ (sort_leaves_perm _)). split.
  - unfold leaf_keys, descriptor_keys. rewrite sort_leaves_perm.
    induction vtxos as [|v l IH]; cbn; [done|]. by destruct (vd_CoSignerKey v); rewrite ?IH.
  - induction vtxos as [|v l IH]; cbn; [done|]. unfold leaf_total in *. cbn. by rewrite IH.
Qed.

Lemma distinct_cons op l :
  distinct l → Forall (λ k, SerializePubKey k ≠ SerializePubKey op) l → distinct (op :: l).
Proof.
  intros Hd Hop. apply NoDup_cons. split; [|done]. intros Hin.
  apply list_elem_of_fmap in Hin as (k & Hk & Hin). rewrite Forall_forall in Hop. by apply (Hop k).
Qed.

Lemma batch_output_parts op sweepKey delay vtxos root out :
  sweepTapRoot (Some sweepKey) delay = Ok root → ValidateVTXODescriptors vtxos = Ok tt →
  BuildBatchOutput sweepTapRoot vtxos (Some op) (Some sweepKey) delay = Ok out →
  ∃ agg, AggregateKeys (op :: descriptor_keys vtxos) root = Ok agg ∧
    PayToTaprootScript agg = Ok (PkScript out) ∧ Value out = descriptor_total vtxos ∧
    distinct (op :: descriptor_keys vtxos) ∧ Forall good_leaf (ToLeafDescriptor <$> vtxos) ∧ vtxos ≠ [].
Proof.
  intros Hroot Hval Hout. unfold ValidateVTXODescriptors in Hval.
  destruct (negb _) eqn:Ene; [|done]. pose proof (validated_descriptors _ _ Hval) as (Hg & Hd & _).
  unfold BuildBatchOutput in Hout. rewrite Ene in Hout. rewrite Hroot in Hout. cbn [wrap] in Hout.
  rewrite bool_decide_true in Hout by eauto.
  destruct (batch_signers _ _ _ _ vtxos) as [p|] eqn:Eb; [|done].
  apply batch_signers_ok in Eb as [-> Hop]; [|done|].
  2: { apply Forall_forall. intros k _ Hk. by apply list_elem_of_singleton in Hk. }
  cbn [fst snd app] in Hout. destruct (AggregateKeys _ root) as [agg|] eqn:Eagg; [|done]. cbn [wrap] in Hout.
  destruct (PayToTaprootScript agg) as [script|] eqn:Esc; [|done]. injection Hout as <-.
  exists agg. repeat (split; [done|]). split; [by apply distinct_cons|]. split; [done|]. by destruct vtxos.
Qed.

(** The signers of the tree make the key of the batch output. *)
Lemma tree_key op vtxos r fuel s root agg :
  distinct (op :: descriptor_keys vtxos) → Forall good_leaf (ToLeafDescriptor <$> vtxos) → vtxos ≠ [] →
  buildStructureRecursive fuel (sort_leaves (ToLeafDescriptor <$> vtxos)) op (S (S r)) WeightByBtcAmount = Ok s →
  AggregateKeys (op :: descriptor_keys vtxos) root = Ok agg → ComputeFinalKey (s_CoSigners s) root = Ok agg.
Proof.
  intros Hd Hg Hne Hs Eagg. destruct (descriptor_leaves vtxos) as [Hlk _].
  pose proof (sort_leaves_perm (ToLeafDescriptor <$> vtxos)) as Hsp.
  apply structure_signers in Hs as [Hsig Hds].
  - assert (s_CoSigners s ≡ₚ op :: descriptor_keys vtxos) as Hperm.
    { apply NoDup_Permutation; [by apply (NoDup_fmap_1 SerializePubKey)..|].
      intros k. by rewrite (Hsig k), Hlk, elem_of_cons. }
    unfold ComputeFinalKey. rewrite <- (aggregate_sorted _ _ root Hperm) in Eagg.
    destruct (s_CoSigners s) as [|k1 [|k2 ks]]; [by apply Permutation_nil_cons in Hperm| |by rewrite Eagg].
    apply Permutation_length in Hperm. destruct vtxos as [|v vs]; [done|].
    inversion Hg as [|? ? (_ & [k Hk] & _) _]; subst. cbn in Hk, Hperm. rewrite Hk in Hperm. done.
  - unfold distinct in *. cbn in *. by rewrite Hlk.
  - intros He. rewrite He in Hsp. apply Permutation_nil in Hsp. by destruct vtxos.
Qed.


End Batch.

(** *** A concrete batch *)

Definition sum_musig : Musig := {|
  AggregateKeys ks _ := Ok (foldr N.add 7%N ks);
  TweakKey k _ := k;
  SerializePubKey k := k;
  CalcTaprootSignatureHash tx out := Ok [];
  IsPayToTaproot s := match s with 81 :: _ => true | _ => false end;
|}.
Lemma sum_musig_sorted : @MusigLaws sum_musig.
Proof.
  constructor. intros ks ks' tweak H. cbn. f_equal. induction H; cbn; lia.
Qed.
Lemma sum_keys_total sweep : @keys_total chain_script sum_musig sweep.
Proof. intros [|k [|k' ks]] H; [done| |]; cbn; eauto. Qed.

Definition three_vtxos : list VTXODescriptor :=
  [mkVTXODescriptor [] [81; 1] 500 (Some 11%N); mkVTXODescriptor [] [81; 2] 300 (Some 12%N);
   mkVTXODescriptor [] [81; 3] 200 (Some 13%N)].

