(* ===== verification/RoundQuote.v ===== *)
(** * What a client brings to a round, and the quote it accepts:
      [round/interfaces.go], [round/states.go], [lib/types/boarding.go] and the
      quote part of [round/transitions.go]

    A client joins a round with boarding inputs and VTXOs to forfeit, and asks for
    VTXOs and on-chain outputs.  The operator answers with a quote that fixes every
    output amount; what is not paid out is the fee.  The client accepts a quote
    only when it echoes the request, changes at most the change output, and costs
    no more than the cap.

    The output script of a request comes from its policy template through the
    policy compiler, an interface. *)

From S2P Require Import Prelude RecoveryProof VtxoExpiry VtxoForfeit.
Local Open Scope Z_scope.

Abbreviation RoundID := N.

Inductive VTXOOrigin :=
| OriginUnknown | OriginRoundBoarding | OriginRoundRefresh | OriginRoundTransfer
| OriginAutoRefresh | OriginOther (n : Z).
#[export] Instance VTXOOrigin_eq_dec : EqDecision VTXOOrigin.
Proof. solve_decision. Defined.

Record VTXORequest := mkVTXORequest {
  v_Amount : Z;
  v_IsChange : bool;
  FixedAmount : bool;
  AssetRef : string;
  AssetAmount : Z;
  v_PolicyTemplate : list Z;
  v_PkScript : list Z;
  OwnerPubKey : option PublicKey;
  SigningKey : option PublicKey;
  v_Origin : VTXOOrigin;
  RefreshSourceOutpoint : option OutPoint;
}.
Definition HasLocalOwner (r : VTXORequest) : bool := bool_decide (is_Some (OwnerPubKey r)).

Record LeaveRequest := mkLeaveRequest {
  l_Output : option TxOut;
  l_IsChange : bool;
  DestinationOwnWallet : bool;
}.

Record ForfeitRequest := mkForfeitRequest {
  VTXOOutpoint : option OutPoint;
  f_Amount : Z;
  AuthSpend : option SpendPath;
  f_ForfeitSpend : option SpendPath;
}.

Inductive BoardingStatus :=
| BoardingStatusConfirmed | BoardingStatusAdopted | BoardingStatusFailed
| BoardingStatusExpired | BoardingStatusSwept | BoardingStatusSweepPending.

(** A confirmed deposit: its outpoint, amount, and the request that names it.  The
    request's outpoint is dereferenced without a check. *)
Record BoardingIntent := mkBoardingIntent {
  bi_Outpoint : OutPoint;
  bi_Amount : Z;
  bi_Request : OutPoint;
  bi_AssetRef : string;
  bi_KeyDesc : PublicKey;
  bi_OperatorKey : PublicKey;
  bi_ExitDelay : Z;
  bi_Status : BoardingStatus;
}.

Record Intents := mkIntents {
  Boarding : list BoardingIntent;
  VTXOs : list VTXORequest;
  Leaves : list (option LeaveRequest);
  Forfeits : list ForfeitRequest;
  QuotedLeaveAmounts : list Z;
}.

Definition leave_output (l : option LeaveRequest) : option TxOut := l ≫= l_Output.

Definition LeaveAmount (i : Intents) (idx : nat) : Z :=
  match QuotedLeaveAmounts i !! idx with
  | Some a => a
  | None => from_option Value 0 (Leaves i !! idx ≫= leave_output)
  end.

Record VTXOQuoteEntry := mkVTXOQuote { vq_PkScript : list Z; vq_AmountSat : Z; RecipientKey : list Z }.
Record LeaveQuoteEntry := mkLeaveQuote { lq_PkScript : list Z; lq_AmountSat : Z }.

Inductive QuoteReason := QUOTE_OK | INSUFFICIENT_RESIDUAL | INVALID_CHANGE_DESIGNATION | OtherReason (n : Z).
#[export] Instance QuoteReason_eq_dec : EqDecision QuoteReason.
Proof. solve_decision. Defined.

Record ClientQuote := mkQuote {
  QuoteID : N;
  SealPass : Z;
  OperatorFeeSat : Z;
  VTXOQuotes : list VTXOQuoteEntry;
  LeaveQuotes : list LeaveQuoteEntry;
  QuoteExpiresAt : Z;
  RejectReason : QuoteReason;
}.

(** The policy compiler and the compressed form of a key. *)
Class RoundScripts := {
  EffectivePkScript : VTXORequest → result error (list Z);
  (** the script of the policy with an asset root composed into its tree *)
  composed_script : VTXORequest → list Z → result error (list Z);
  SerializeCompressed : PublicKey → list Z;
}.

(** ** The change output *)

Definition set_change (r : VTXORequest) (b : bool) : VTXORequest :=
  mkVTXORequest (v_Amount r) b (FixedAmount r) (AssetRef r) (AssetAmount r) (v_PolicyTemplate r)
    (v_PkScript r) (OwnerPubKey r) (SigningKey r) (v_Origin r) (RefreshSourceOutpoint r).
Definition set_leave_change (l : option LeaveRequest) (b : bool) : option LeaveRequest :=
  (λ l, mkLeaveRequest (l_Output l) b (DestinationOwnWallet l)) <$> l.

Definition vtxo_marked (r : VTXORequest) : bool := v_IsChange r && negb (FixedAmount r).
Definition fixed_marked (r : VTXORequest) : bool := v_IsChange r && FixedAmount r.
Definition leave_marked (l : option LeaveRequest) : bool := from_option l_IsChange false l.

Fixpoint first_index {A} (p : A → bool) (l : list A) : option nat :=
  match l with
  | [] => None
  | x :: l => if p x then Some 0%nat else S <$> first_index p l
  end.
Definition count {A} (p : A → bool) (l : list A) : nat := length (filter (λ x, p x = true) l).

(** The first of the largest amounts among the requests that are not fixed. *)
Fixpoint largest_vtxo (i : nat) (best : option (nat * Z)) (l : list VTXORequest) : option nat :=
  match l with
  | [] => fst <$> best
  | r :: l =>
      if FixedAmount r then largest_vtxo (S i) best l
      else match best with
           | Some (_, amount) =>
               if v_Amount r <=? amount then largest_vtxo (S i) best l
               else largest_vtxo (S i) (Some (i, v_Amount r)) l
           | None => largest_vtxo (S i) (Some (i, v_Amount r)) l
           end
  end.

(** Only the request at the index keeps its mark. *)
Definition keep_vtxo (k : option nat) (l : list VTXORequest) : list VTXORequest :=
  imap (λ i r, if v_IsChange r && negb (bool_decide (k = Some i)) then set_change r false else r) l.
Definition keep_leave (k : option nat) (l : list (option LeaveRequest)) : list (option LeaveRequest) :=
  imap (λ i r, if leave_marked r && negb (bool_decide (k = Some i)) then set_leave_change r false else r) l.

Definition designateChangeMarker (vtxos : list VTXORequest) (leaves : list (option LeaveRequest)) :
    list VTXORequest * list (option LeaveRequest) :=
  let firstVTXO := first_index vtxo_marked vtxos in
  let firstFixed := first_index fixed_marked vtxos in
  let firstLeave := first_index leave_marked leaves in
  let nonFixed := (count vtxo_marked vtxos + count leave_marked leaves)%nat in
  let markers := (nonFixed + count fixed_marked vtxos)%nat in
  if ((1 <? markers) && (0 <? nonFixed))%nat
  then match firstVTXO with
       | Some i => (keep_vtxo (Some i) vtxos, keep_leave None leaves)
       | None => (keep_vtxo None vtxos, keep_leave firstLeave leaves)
       end
  else if (1 <? markers)%nat && bool_decide (is_Some firstFixed)
  then (imap (λ i r, if bool_decide (firstFixed = Some i) then r else set_change r false) vtxos,
        (λ l, set_leave_change l false) <$> leaves)
  else if (markers =? 1)%nat then (vtxos, leaves)
  else if (length vtxos + length leaves <=? 1)%nat then (vtxos, leaves)
  else match largest_vtxo 0 None vtxos with
       | Some i => (alter (λ r, set_change r true) i vtxos, leaves)
       | None =>
           match leaves with
           | Some l :: rest => (vtxos, set_leave_change (Some l) true :: rest)
           | _ => (vtxos, leaves)
           end
       end.

(** ** The quote *)

Inductive Decision_ :=
| QuoteAccepted_ (id : N)
| QuoteRejected_ (id : N) (reason : string).

(** The settings and answers a quote is judged by: the clock in seconds, the cap,
    the floor of a VTXO and the stored amount of a VTXO ([None] without a store). *)
Record QuoteEnv := mkQuoteEnv {
  q_NowUnix : Z;
  MaxOperatorFee : Z;
  MinVTXOFloor : Z;
  StoredAmount : option (OutPoint → result error Z);
}.

Definition computeTotalForfeitAmount (store : option (OutPoint → result error Z))
    (forfeits : list ForfeitRequest) : result error Z :=
  foldl (λ total f,
    let* total := total in
    match store with
    | Some get =>
        match VTXOOutpoint f with
        | Some op => let* a := wrap "forfeit amount lookup: " (get op) in Ok (int64 (total + a))
        | None => Err "nil pointer dereference"
        end
    | None =>
        if f_Amount f =? 0 then Err "no store and no embedded amount"
        else Ok (int64 (total + f_Amount f))
    end) (Ok 0) forfeits.

Definition sum_amounts (amounts : list Z) : result error Z :=
  foldl (λ total a,
    let* total := total in
    guard* negb (a <? 0) else "negative amount" in
    Ok (int64 (total + a))) (Ok 0) amounts.

Definition realisedQuoteFee (env : QuoteEnv) (intents : Intents) (quote : ClientQuote) :
    result error Z :=
  let* boarding := sum_amounts (bi_Amount <$> Boarding intents) in
  let* forfeitAmt := wrap "forfeit amount lookup: "
                       (computeTotalForfeitAmount (StoredAmount env) (Forfeits intents)) in
  let inputsSat := int64 (boarding + forfeitAmt) in
  let* outputsSat := sum_amounts ((vq_AmountSat <$> VTXOQuotes quote) ++
                                  (lq_AmountSat <$> LeaveQuotes quote)) in
  Ok (int64 (inputsSat - outputsSat)).

Definition hasManualIntents (intents : Intents) : bool :=
  negb (bool_decide (Boarding intents = [])) || negb (Nat.eqb (length (Leaves intents)) 0) ||
  existsb (λ r, negb (bool_decide (v_Origin r = OriginAutoRefresh))) (VTXOs intents).

(** The second result of [autoRefreshValue]; the first is only logged. *)
Definition hasAutoRefresh (intents : Intents) : bool :=
  existsb (λ r, bool_decide (v_Origin r = OriginAutoRefresh)) (VTXOs intents).

Section Quotes.
Context {RS : RoundScripts}.

Definition singleOutputFixed (intents : Intents) : bool :=
  match VTXOs intents, Leaves intents with
  | [r], [] => FixedAmount r
  | _, _ => false
  end.

Definition implicitChange (intents : Intents) : bool :=
  Nat.eqb (length (VTXOs intents) + length (Leaves intents)) 1 && negb (singleOutputFixed intents).

Definition key_bytes (k : option PublicKey) : list Z := from_option SerializeCompressed [] k.

Definition vtxo_echo (implicit : bool) (p : VTXORequest * VTXOQuoteEntry) : result error unit :=
  let '(req, entry) := p in
  let* intentScript := wrap "pkScript derivation: " (EffectivePkScript req) in
  guard* bool_decide (vq_PkScript entry = intentScript) else "pkScript echo mismatch" in
  guard* bool_decide (RecipientKey entry = key_bytes (SigningKey req))
    else "recipient key echo mismatch" in
  guard* negb (FixedAmount req && v_IsChange req) else "fixed amount cannot be change" in
  guard* (implicit || v_IsChange req || (vq_AmountSat entry =? v_Amount req))
    else "non-change amount != intent target" in
  Ok tt.

Definition leave_echo (implicit : bool) (p : option LeaveRequest * LeaveQuoteEntry) :
    result error unit :=
  let '(req, entry) := p in
  match leave_output req with
  | None => Err "intent missing output"
  | Some out =>
      guard* bool_decide (lq_PkScript entry = PkScript out) else "pkScript echo mismatch" in
      guard* (implicit || leave_marked req || (lq_AmountSat entry =? Value out))
        else "non-change amount != intent target" in
      Ok tt
  end.

Definition validateQuoteEchoes (intents : Intents) (quote : ClientQuote) : result error unit :=
  guard* Nat.eqb (length (VTXOQuotes quote)) (length (VTXOs intents))
    else "quote vtxo entries != intent vtxos" in
  guard* Nat.eqb (length (LeaveQuotes quote)) (length (Leaves intents))
    else "quote leave entries != intent leaves" in
  check* for_each (vtxo_echo (implicitChange intents)) (zip (VTXOs intents) (VTXOQuotes quote)) in
  for_each (leave_echo (implicitChange intents)) (zip (Leaves intents) (LeaveQuotes quote)).

Definition quoteRejectReason (r : QuoteReason) : string :=
  match r with
  | INSUFFICIENT_RESIDUAL => "server rejected intent: not enough value remains for the change output"
  | INVALID_CHANGE_DESIGNATION => "server rejected intent: the intent must have exactly one change output"
  | _ => "server rejected intent"
  end.

Definition evaluateQuote (env : QuoteEnv) (intents : Intents) (quote : option ClientQuote) :
    Decision_ :=
  match quote with
  | None => QuoteRejected_ 0 "nil quote"
  | Some quote =>
      let reject := QuoteRejected_ (QuoteID quote) in
      if negb (bool_decide (RejectReason quote = QUOTE_OK))
      then reject (quoteRejectReason (RejectReason quote))
      else if OperatorFeeSat quote <? 0 then reject "operator fee is negative"
      else if (0 <? QuoteExpiresAt quote) && (QuoteExpiresAt quote <=? q_NowUnix env)
      then reject "quote expired"
      else
        let feeCap := MaxOperatorFee env in
        if feeCap <=? 0 then reject "operator fee cap is unset: refusing to sign"
        else if feeCap <? OperatorFeeSat quote then reject "operator fee exceeds cap"
        else
          match validateQuoteEchoes intents quote with
          | Err reason => reject reason
          | Ok _ =>
              if (0 <? MinVTXOFloor env) &&
                 existsb (λ e, vq_AmountSat e <? MinVTXOFloor env) (VTXOQuotes quote)
              then reject "quoted vtxo amount is below operator minimum"
              else
                match realisedQuoteFee env intents quote with
                | Err _ => reject "realised fee computation failed"
                | Ok realised =>
                    if realised <? 0 then reject "realised fee is negative"
                    else if feeCap <? realised then reject "realised operator fee exceeds cap"
                    else if negb (realised =? OperatorFeeSat quote)
                    then reject "quoted operator_fee_sat disagrees with realised fee"
                    else if hasAutoRefresh intents && negb (realised =? 0)
                    then reject (if hasManualIntents intents
                                 then "automatic refresh requires zero fee; mixed manual/automatic round"
                                 else "automatic refresh requires zero fee")
                    else QuoteAccepted_ (QuoteID quote)
                end
          end
  end.

End Quotes.
