(* ===== verification/RoundQuoteSafety.v ===== *)
(** * What an accepted quote guarantees

    The sums of a quote are added in 64-bit integers, from amounts the operator
    chose.  Only the change output may deviate, and there is at most one, so the
    sums cannot wrap around to a small fee: an accepted quote costs exactly the fee
    it declares. *)

From S2P Require Import Prelude RecoveryProof VtxoExpiry VtxoForfeit TxTree TxTreeSafety RoundQuote.
Local Open Scope Z_scope.

(** ** The change marker *)

Definition marks (r : VTXORequest) : nat := if v_IsChange r then 1 else 0.
Definition leave_marks (l : option LeaveRequest) : nat := if leave_marked l then 1 else 0.
Definition vtxo_marks (l : list VTXORequest) : nat := sum_list_with marks l.
Definition all_leave_marks (l : list (option LeaveRequest)) : nat := sum_list_with leave_marks l.

Lemma count_cons {A} (p : A → bool) x l : count p (x :: l) = ((if p x then 1 else 0) + count p l)%nat.
Proof. unfold count. rewrite filter_cons. case_decide as H; destruct (p x); done. Qed.

Lemma count_marks l : vtxo_marks l = (count vtxo_marked l + count fixed_marked l)%nat.
Proof.
  unfold vtxo_marks, marks. induction l as [|r l IH]; [done|]. cbn [sum_list_with].
  rewrite !count_cons, IH. unfold vtxo_marked, fixed_marked. destruct (v_IsChange r), (FixedAmount r); cbn; lia.
Qed.

Lemma count_leave_marks l : all_leave_marks l = count leave_marked l.
Proof.
  unfold all_leave_marks, leave_marks. induction l as [|r l IH]; [done|].
  cbn [sum_list_with]. by rewrite count_cons, IH.
Qed.

Lemma no_mark {A} (f : A → nat) (l : list A) :
  (∀ i x, l !! i = Some x → f x = 0%nat) → sum_list_with f l = 0%nat.
Proof.
  induction l as [|y l IHl]; intros Hl; [done|]. cbn. rewrite (Hl 0%nat y eq_refl), IHl; [done|].
  intros i z Hi. by apply (Hl (S i)).
Qed.

(** A list in which only one position can be marked. *)
Lemma one_mark {A} (f : A → nat) (k : nat) (l : list A) :
  (∀ i x, l !! i = Some x → (f x ≤ 1)%nat ∧ (i ≠ k → f x = 0%nat)) → (sum_list_with f l ≤ 1)%nat.
Proof.
  revert k. induction l as [|x l IH]; intros k H; [cbn; lia|]. cbn.
  pose proof (H 0%nat x eq_refl) as [Hx H0]. destruct k as [|k].
  - rewrite (no_mark f l); [lia|]. intros i y Hi. by apply (H (S i) y Hi).
  - rewrite H0 by done. apply (IH k). intros i y Hi. destruct (H (S i) y Hi) as [? Hn].
    split; [done|]. intros. apply Hn. lia.
Qed.

Lemma marks_le r : (marks r ≤ 1)%nat.
Proof. unfold marks. by destruct (v_IsChange r); lia. Qed.
Lemma leave_marks_le r : (leave_marks r ≤ 1)%nat.
Proof. unfold leave_marks. by destruct (leave_marked r); lia. Qed.

Lemma keep_vtxo_marks k l i x :
  keep_vtxo k l !! i = Some x → (marks x ≤ 1)%nat ∧ (k ≠ Some i → marks x = 0%nat).
Proof.
  unfold keep_vtxo. rewrite list_lookup_imap. destruct (l !! i) as [r|]; [|done]. intros [= <-].
  split; [apply marks_le|]. intros Hk. rewrite bool_decide_false by done. unfold marks.
  destruct (v_IsChange r) eqn:E; cbn; by rewrite ?E.
Qed.

Lemma keep_leave_marks k l i x :
  keep_leave k l !! i = Some x → (leave_marks x ≤ 1)%nat ∧ (k ≠ Some i → leave_marks x = 0%nat).
Proof.
  unfold keep_leave. rewrite list_lookup_imap. destruct (l !! i) as [r|]; [|done]. intros [= <-].
  split; [apply leave_marks_le|]. intros Hk. rewrite bool_decide_false by done. unfold leave_marks.
  destruct (leave_marked r) eqn:E; [by destruct r|]. cbn [andb]. by rewrite E.
Qed.

Lemma keep_vtxo_none l : vtxo_marks (keep_vtxo None l) = 0%nat.
Proof. apply no_mark. intros i x Hx. by apply keep_vtxo_marks in Hx as [_ Hx]; apply Hx. Qed.
Lemma keep_leave_none l : all_leave_marks (keep_leave None l) = 0%nat.
Proof. apply no_mark. intros i x Hx. by apply keep_leave_marks in Hx as [_ Hx]; apply Hx. Qed.
Lemma keep_vtxo_one i l : (vtxo_marks (keep_vtxo (Some i) l) ≤ 1)%nat.
Proof.
  apply (one_mark _ i). intros j x Hx. apply keep_vtxo_marks in Hx as [? Hx].
  split; [done|]. intros Hj. apply Hx. congruence.
Qed.
Lemma keep_leave_one k l : (all_leave_marks (keep_leave k l) ≤ 1)%nat.
Proof.
  destruct k as [i|]; [|rewrite keep_leave_none; lia].
  apply (one_mark _ i). intros j x Hx. apply keep_leave_marks in Hx as [? Hx].
  split; [done|]. intros Hj. apply Hx. congruence.
Qed.

Lemma clear_leaves l : all_leave_marks ((λ l, set_leave_change l false) <$> l) = 0%nat.
Proof.
  apply no_mark. intros i x Hx. apply list_lookup_fmap_Some in Hx as (y & -> & _).
  by destruct y.
Qed.

(** Marking one of a list without marks. *)
Lemma mark_one i l : vtxo_marks l = 0%nat → (vtxo_marks (alter (λ r, set_change r true) i l) ≤ 1)%nat.
Proof.
  revert i. unfold vtxo_marks. induction l as [|r l IH]; intros [|i] H; cbn in *; [lia..| |].
  - pose proof (marks_le (set_change r true)). lia.
  - rewrite (proj1 (proj1 (Nat.eq_add_0 _ _) H)). apply IH. lia.
Qed.

Lemma change_unique vtxos leaves vtxos' leaves' :
  designateChangeMarker vtxos leaves = (vtxos', leaves') →
  (vtxo_marks vtxos' + all_leave_marks leaves' ≤ 1)%nat.
Proof.
  unfold designateChangeMarker. pose proof (count_marks vtxos) as Hv.
  pose proof (count_leave_marks leaves) as Hl.
  destruct (_ && (0 <? _)%nat) eqn:E1.
  { destruct (first_index vtxo_marked vtxos) as [i|].
    - intros [= <- <-]. rewrite keep_leave_none. pose proof (keep_vtxo_one i vtxos). lia.
    - intros [= <- <-]. rewrite keep_vtxo_none. apply keep_leave_one. }
  destruct (_ && bool_decide _) eqn:E2.
  { intros [= <- <-]. apply andb_true_iff in E2 as [_ E2]. apply bool_decide_eq_true in E2 as [k Hk].
    rewrite clear_leaves, Hk. cut (vtxo_marks (imap (λ i r, if bool_decide (Some k = Some i) then r
      else set_change r false) vtxos) ≤ 1)%nat; [lia|]. apply (one_mark _ k). intros j x.
    rewrite list_lookup_imap. destruct (vtxos !! j) as [r|]; [|done]. intros [= <-].
    split; [apply marks_le|]. intros Hj. rewrite bool_decide_false by congruence. done. }
  assert (count vtxo_marked vtxos + count leave_marked leaves + count fixed_marked vtxos ≤ 1)%nat as Hm.
  { destruct (first_index fixed_marked vtxos) as [k|] eqn:Ek.
    - rewrite bool_decide_true, andb_true_r in E2 by eauto. apply Nat.ltb_ge in E2. lia.
    - assert (count fixed_marked vtxos = 0%nat) as H0.
      { clear -Ek. induction vtxos as [|r l IH]; [done|]. cbn in Ek. rewrite count_cons.
        destruct (fixed_marked r) eqn:E; [done|]. apply IH.
        by destruct (first_index fixed_marked l). }
      apply andb_false_iff in E1 as [E1|E1]; apply Nat.ltb_ge in E1; lia. }
  destruct (Nat.eqb _ 1) eqn:E3; [intros [= <- <-]; lia|]. apply Nat.eqb_neq in E3.
  destruct (Nat.leb _ 1); [intros [= <- <-]; lia|].
  destruct (largest_vtxo 0 None vtxos) as [i|].
  { intros [= <- <-]. pose proof (mark_one i vtxos). lia. }
  destruct leaves as [|[l|] rest]; intros [= <- <-]; [lia| |lia].
  unfold all_leave_marks in *. cbn in *. unfold leave_marks in *. cbn in *. destruct (l_IsChange l); lia.
Qed.

(** ** Sums of machine integers *)

Definition total (l : list Z) : Z := foldr Z.add 0 l.

Lemma quoted_total_app l k : total (l ++ k) = total l + total k.
Proof. induction l as [|x l IH]; cbn; [done|]. fold (total (l ++ k)) (total l). lia. Qed.

Lemma total_nonneg l : Forall (λ a, 0 ≤ a) l → 0 ≤ total l.
Proof. induction 1 as [|x l ? ? IH]; cbn; [done|]. fold (total l). lia. Qed.

Lemma int64_add a b : int64 (int64 a + b) = int64 (a + b).
Proof.
  unfold int64. f_equal. set (m := 18446744073709551616). set (h := 9223372036854775808).
  replace ((a + h) mod m - h + b + h) with ((a + h) mod m + b) by lia.
  rewrite Z.add_mod_idemp_l by lia. f_equal. lia.
Qed.

(** A number and its wrapped value differ by a multiple of the width. *)
Lemma int64_cong z : ∃ k, int64 z = z + k * 18446744073709551616.
Proof.
  unfold int64. set (m := 18446744073709551616). set (h := 9223372036854775808).
  exists (- ((z + h) / m)). pose proof (Z.div_mod (z + h) m). lia.
Qed.

Section Fold.
Context {A : Type} (step : A → result error Z).

(** A loop that adds up checked amounts. *)
Definition add_step (t : result error Z) (x : A) : result error Z :=
  let* t := t in let* a := step x in Ok (int64 (t + a)).

Lemma add_steps_err l e : foldl add_step (Err e) l = Err e.
Proof. by induction l. Qed.

Lemma add_steps l t s :
  foldl add_step (Ok (int64 t)) l = Ok s →
  ∃ amounts, Forall2 (λ x a, step x = Ok a) l amounts ∧ s = int64 (t + total amounts).
Proof.
  revert t. induction l as [|x l IH]; intros t; cbn.
  - intros [= <-]. exists []. split; [constructor|]. cbn. by rewrite Z.add_0_r.
  - destruct (step x) as [a|e] eqn:E; [|rewrite add_steps_err; done]. rewrite int64_add. intros H.
    apply IH in H as (amounts & Hf & ->). exists (a :: amounts). split; [by constructor|].
    cbn. fold (total amounts). f_equal. lia.
Qed.
End Fold.

Lemma foldl_ext_acc {A B} (f g : A → B → A) (l : list B) a :
  (∀ a b, f a b = g a b) → foldl f a l = foldl g a l.
Proof. intros H. revert a. induction l as [|b l IH]; intros a; cbn; [done|]. by rewrite H, IH. Qed.

Lemma sum_amounts_ok l s :
  sum_amounts l = Ok s → Forall (λ a, 0 ≤ a) l ∧ s = int64 (total l).
Proof.
  unfold sum_amounts. rewrite (foldl_ext_acc _ (add_step (λ a,
    if a <? 0 then Err "negative amount" else Ok a))).
  - intros H. change (Ok 0) with (@Ok error Z (int64 0)) in H. apply add_steps in H as (amounts & Hf & ->).
    assert (amounts = l ∧ Forall (λ a, 0 ≤ a) l) as [-> ?]; [|done].
    induction Hf as [|x a l k Hx Hf IH]; [done|]. destruct IH as [-> IH].
    destruct (x <? 0) eqn:E; [done|]. injection Hx as ->. split; [done|]. constructor; [lia|done].
  - intros [t|e] a; [|done]. cbn. by destruct (a <? 0).
Qed.

(** What a forfeit is worth to the quote. *)
Definition forfeit_worth (store : option (OutPoint → result error Z)) (f : ForfeitRequest) :
    result error Z :=
  match store with
  | Some get =>
      match VTXOOutpoint f with
      | Some op => wrap "forfeit amount lookup: " (get op)
      | None => Err "nil pointer dereference"
      end
  | None => if f_Amount f =? 0 then Err "no store and no embedded amount" else Ok (f_Amount f)
  end.

Lemma forfeits_ok store l s :
  computeTotalForfeitAmount store l = Ok s →
  ∃ amounts, Forall2 (λ f a, forfeit_worth store f = Ok a) l amounts ∧ s = int64 (total amounts).
Proof.
  unfold computeTotalForfeitAmount. rewrite (foldl_ext_acc _ (add_step (forfeit_worth store))).
  - intros H. change (Ok 0) with (@Ok error Z (int64 0)) in H. by apply add_steps in H.
  - intros [t|e] f; [|done]. cbn. unfold forfeit_worth. destruct store as [get|].
    + by destruct (VTXOOutpoint f).
    + by destruct (f_Amount f =? 0).
Qed.

(** ** The slots of a request *)

Definition asked (i : Intents) : list Z :=
  (v_Amount <$> VTXOs i) ++ ((λ l, from_option Value 0 (leave_output l)) <$> Leaves i).
Definition quoted (q : ClientQuote) : list Z :=
  (vq_AmountSat <$> VTXOQuotes q) ++ (lq_AmountSat <$> LeaveQuotes q).

(** The outputs whose amount the operator sets. *)
Definition change_slots (i : Intents) : list bool :=
  ((λ r, implicitChange i || v_IsChange r) <$> VTXOs i) ++
  ((λ l, implicitChange i || leave_marked l) <$> Leaves i).

Definition differs (p : Z * Z) : bool := negb (p.1 =? p.2).
(** How many quoted amounts differ from the ones asked for. *)
Definition changed (i : Intents) (q : ClientQuote) : nat :=
  count differs (zip (asked i) (quoted q)).

Definition flags (l : list bool) : nat := sum_list_with (λ b : bool, if b then 1%nat else 0%nat) l.

Lemma flags_app l k : flags (l ++ k) = (flags l + flags k)%nat.
Proof. unfold flags. induction l as [|b l IH]; cbn; [done|]. lia. Qed.

Lemma flags_length l : (flags l ≤ length l)%nat.
Proof. unfold flags. induction l as [|[] l IH]; cbn; lia. Qed.

Lemma flags_fmap {A} (f : A → bool) l : flags (f <$> l) = sum_list_with (λ x, if f x then 1%nat else 0%nat) l.
Proof. unfold flags. induction l as [|x l IH]; cbn; [done|]. by rewrite IH. Qed.

Lemma one_change_slot i :
  (vtxo_marks (VTXOs i) + all_leave_marks (Leaves i) ≤ 1)%nat → (flags (change_slots i) ≤ 1)%nat.
Proof.
  intros Hm. unfold change_slots. destruct (implicitChange i) eqn:E.
  - apply andb_true_iff in E as [E _]. apply Nat.eqb_eq in E.
    etransitivity; [apply flags_length|]. rewrite length_app, !length_fmap. lia.
  - rewrite flags_app, !flags_fmap. exact Hm.
Qed.

(** Amounts that are the ones asked for, except in the flagged slots. *)
Inductive slots_match : list Z → list bool → list Z → Prop :=
| match_nil : slots_match [] [] []
| match_cons a b q l bs k :
    (b = true ∨ q = a) → slots_match l bs k → slots_match (a :: l) (b :: bs) (q :: k).

Lemma slots_match_app l bs k l' bs' k' :
  slots_match l bs k → slots_match l' bs' k' → slots_match (l ++ l') (bs ++ bs') (k ++ k').
Proof. induction 1; cbn; [done|]. constructor; auto. Qed.

Lemma slots_changed l bs k :
  slots_match l bs k → (count differs (zip l k) ≤ flags bs)%nat.
Proof.
  induction 1 as [|a b q l bs k Hb _ IH]; [done|]. cbn [zip_with flags sum_list_with].
  rewrite count_cons. unfold differs at 1. cbn [fst snd]. unfold flags in *. destruct Hb as [-> | ->].
  - destruct (negb _); cbn in *; lia.
  - rewrite Z.eqb_refl. cbn in *. lia.
Qed.

Lemma slots_total m l bs k :
  slots_match l bs k → 0 ≤ m → Forall (λ a, 0 ≤ a) l → Forall (λ q, q ≤ m) k →
  total k ≤ total l + Z.of_nat (flags bs) * m.
Proof.
  intros H Hm. induction H as [|a b q l bs k Hb _ IH]; intros Hl Hk; [cbn; lia|].
  inversion Hl; inversion Hk; subst. unfold flags in *. cbn [total foldr sum_list_with].
  fold (total l) (total k). specialize (IH ltac:(done) ltac:(done)). destruct Hb as [-> | ->]; [nia|].
  destruct b; nia.
Qed.

Section Accepted.
Context {RS : RoundScripts}.

Definition vtxo_echoed (i : Intents) (r : VTXORequest) (e : VTXOQuoteEntry) : Prop :=
  EffectivePkScript r = Ok (vq_PkScript e) ∧ RecipientKey e = key_bytes (SigningKey r) ∧
  (vq_AmountSat e = v_Amount r ∨ (implicitChange i || v_IsChange r = true ∧ FixedAmount r = false)).
Definition leave_echoed (i : Intents) (l : option LeaveRequest) (e : LeaveQuoteEntry) : Prop :=
  ∃ out, leave_output l = Some out ∧ lq_PkScript e = PkScript out ∧
    (lq_AmountSat e = Value out ∨ implicitChange i || leave_marked l = true).

Lemma vtxo_echo_ok i r e :
  r ∈ VTXOs i → vtxo_echo (implicitChange i) (r, e) = Ok tt → vtxo_echoed i r e.
Proof.
  intros Hr. unfold vtxo_echo, vtxo_echoed. destruct (EffectivePkScript r) as [sc|]; [|done]. cbn.
  case_bool_decide as H1; [|done]. case_bool_decide as H2; [|done].
  destruct (FixedAmount r && v_IsChange r) eqn:E3; [done|]. cbn.
  destruct (implicitChange i || v_IsChange r || (vq_AmountSat e =? v_Amount r)) eqn:E4; [|done]. intros _.
  split; [by rewrite H1|]. split; [done|]. destruct (vq_AmountSat e =? v_Amount r) eqn:E5; [left; lia|].
  rewrite orb_false_r in E4. right. split; [done|]. apply orb_true_iff in E4 as [E4|E4].
  - unfold implicitChange, singleOutputFixed in E4. apply andb_true_iff in E4 as [El Ef].
    apply Nat.eqb_eq in El. destruct (VTXOs i) as [|r' [|]]; [by apply not_elem_of_nil in Hr| |cbn in El; lia].
    apply list_elem_of_singleton in Hr as <-. destruct (Leaves i); [|cbn in El; lia]. by apply negb_true_iff in Ef.
  - rewrite E4, andb_true_r in E3. done.
Qed.

Lemma leave_echo_ok i l e :
  leave_echo (implicitChange i) (l, e) = Ok tt → leave_echoed i l e.
Proof.
  unfold leave_echo, leave_echoed. destruct (leave_output l) as [out|]; [|done].
  case_bool_decide as H1; [|done]. destruct (_ || (lq_AmountSat e =? _)) eqn:E; [|done]. intros _.
  exists out. split; [done|]. split; [done|]. apply orb_true_iff in E as [E|E]; [by right|left; lia].
Qed.

Lemma zip_Forall2 {A B} (f : A * B → result error unit) (P : A → B → Prop) (l : list A) (k : list B) :
  length k = length l → for_each f (zip l k) = Ok tt →
  (∀ x y, x ∈ l → f (x, y) = Ok tt → P x y) → Forall2 P l k.
Proof.
  revert k. induction l as [|x l IH]; intros [|y k]; try done. cbn. intros Hlen H HP.
  destruct (f (x, y)) as [[]|] eqn:E; [|done]. constructor; [apply HP; [by left|done]|].
  apply IH; [lia|done|]. intros x' y' Hx. apply HP. by right.
Qed.

Lemma echoes_ok i q :
  validateQuoteEchoes i q = Ok tt →
  Forall2 (vtxo_echoed i) (VTXOs i) (VTXOQuotes q) ∧ Forall2 (leave_echoed i) (Leaves i) (LeaveQuotes q).
Proof.
  unfold validateQuoteEchoes. destruct (Nat.eqb _ _) eqn:E1; [|done].
  destruct (Nat.eqb (length (LeaveQuotes q)) _) eqn:E2; [|done].
  apply Nat.eqb_eq in E1, E2. destruct (for_each _ (zip (VTXOs i) _)) as [[]|] eqn:E3; [|done]. intros E4. split.
  - eapply zip_Forall2; [done|exact E3|]. intros x y Hx. by apply vtxo_echo_ok.
  - eapply zip_Forall2; [done|exact E4|]. intros x y _. apply leave_echo_ok.
Qed.

Lemma echoed_slots i q :
  Forall2 (vtxo_echoed i) (VTXOs i) (VTXOQuotes q) → Forall2 (leave_echoed i) (Leaves i) (LeaveQuotes q) →
  slots_match (asked i) (change_slots i) (quoted q).
Proof.
  intros Hv Hl. apply slots_match_app.
  - induction Hv as [|r e l k (_ & _ & H) _ IH]; [constructor|]. constructor; [|done].
    destruct H as [H|[H _]]; auto.
  - induction Hl as [|r e l k (out & Ho & _ & H) _ IH]; [constructor|]. constructor; [|done].
    rewrite Ho. destruct H as [H|H]; auto.
Qed.

(** Amounts are those of coins that exist: what the client owns and asks for, and the
    cap; the operator's amounts are any 64-bit integers. *)
Definition money_range (env : QuoteEnv) (i : Intents) (q : ClientQuote) : Prop :=
  (∀ amounts, Forall2 (λ f a, forfeit_worth (StoredAmount env) f = Ok a) (Forfeits i) amounts →
     Forall (λ a, 0 ≤ a) amounts ∧
     total (bi_Amount <$> Boarding i) + total amounts ≤ MaxSatoshi) ∧
  Forall (λ a, 0 ≤ a) (asked i) ∧ total (asked i) ≤ MaxSatoshi ∧
  Forall (λ a, a ≤ 9223372036854775807) (quoted q) ∧ MaxOperatorFee env ≤ MaxSatoshi.

(** The fee is what the inputs bring and the outputs do not pay. *)
Definition pays_fee (env : QuoteEnv) (i : Intents) (q : ClientQuote) (fee : Z) : Prop :=
  ∃ amounts, Forall2 (λ f a, forfeit_worth (StoredAmount env) f = Ok a) (Forfeits i) amounts ∧
    total (bi_Amount <$> Boarding i) + total amounts = total (quoted q) + fee.

Lemma realised_exact env i q fee :
  money_range env i q → slots_match (asked i) (change_slots i) (quoted q) →
  (flags (change_slots i) ≤ 1)%nat → realisedQuoteFee env i q = Ok fee →
  0 ≤ fee ≤ MaxOperatorFee env → pays_fee env i q fee.
Proof.
  intros (Hin & Ha & Hat & Hq & Hcap) Hs Hf. unfold realisedQuoteFee.
  destruct (sum_amounts (bi_Amount <$> _)) as [b|] eqn:Eb; [|done].
  destruct (computeTotalForfeitAmount _ _) as [f|] eqn:Ef; [|done]. cbn [wrap]. fold (quoted q).
  destruct (sum_amounts (quoted q)) as [o|] eqn:Eo; [|done]. intros [= <-] Hfee.
  apply sum_amounts_ok in Eb as [Hb ->], Eo as [Ho ->]. apply forfeits_ok in Ef as (amounts & Hw & ->).
  exists amounts. split; [done|]. destruct (Hin _ Hw) as [Hw0 Hmax].
  pose proof (slots_total 9223372036854775807 _ _ _ Hs ltac:(done) Ha Hq) as Hbound.
  apply total_nonneg in Ho, Hb, Hw0.
  revert Hfee.
  destruct (int64_cong (total (bi_Amount <$> Boarding i))) as [k1 ->].
  destruct (int64_cong (total amounts)) as [k2 ->].
  destruct (int64_cong (total (quoted q))) as [k3 ->].
  match goal with |- context [int64 (int64 ?x - ?y)] =>
    destruct (int64_cong x) as [k4 ->]; destruct (int64_cong (x + k4 * 18446744073709551616 - y)) as [k5 ->] end.
  unfold MaxSatoshi in *. assert (Z.of_nat (flags (change_slots i)) ≤ 1) by lia. lia.
Qed.

(** C11 A quote the client accepts is the request it made.  Every output has its
    script and its key, and its amount unless it is the one change output; a fixed
    amount never changes.  The fee is declared exactly, as the difference of what
    the client brings and what the outputs pay, however the operator chose the
    amounts; it is within the cap, and nothing for an automatic refresh; every VTXO
    is above the floor, and the quote is still open. *)
Theorem quote_accepted_sound env vtxos leaves i q id :
  designateChangeMarker vtxos leaves = (VTXOs i, Leaves i) → money_range env i q →
  evaluateQuote env i (Some q) = QuoteAccepted_ id →
  id = QuoteID q ∧
  Forall2 (vtxo_echoed i) (VTXOs i) (VTXOQuotes q) ∧
  Forall2 (leave_echoed i) (Leaves i) (LeaveQuotes q) ∧ (changed i q ≤ 1)%nat ∧
  pays_fee env i q (OperatorFeeSat q) ∧ 0 ≤ OperatorFeeSat q ≤ MaxOperatorFee env ∧
  (hasAutoRefresh i = true → OperatorFeeSat q = 0) ∧
  Forall (λ e, MinVTXOFloor env ≤ 0 ∨ MinVTXOFloor env ≤ vq_AmountSat e) (VTXOQuotes q) ∧
  (QuoteExpiresAt q ≤ 0 ∨ q_NowUnix env < QuoteExpiresAt q).
Proof.
  intros Hd Hm. unfold evaluateQuote. destruct (negb (bool_decide _)); [done|].
  destruct (OperatorFeeSat q <? 0) eqn:E1; [done|].
  destruct ((0 <? QuoteExpiresAt q) && _) eqn:E2; [done|]. cbn zeta.
  destruct (MaxOperatorFee env <=? 0) eqn:E3; [done|].
  destruct (MaxOperatorFee env <? OperatorFeeSat q) eqn:E4; [done|].
  destruct (validateQuoteEchoes i q) as [[]|] eqn:Ee; [|done].
  destruct ((0 <? MinVTXOFloor env) && _) eqn:E5; [done|].
  destruct (realisedQuoteFee env i q) as [fee|] eqn:Er; [|done].
  destruct (fee <? 0) eqn:E6; [done|]. destruct (MaxOperatorFee env <? fee) eqn:E7; [done|].
  destruct (fee =? OperatorFeeSat q) eqn:E8; [|done]. cbn [negb].
  destruct (hasAutoRefresh i && _) eqn:E9; [done|]. intros [= <-].
  apply echoes_ok in Ee as [Hv Hl]. pose proof (echoed_slots _ _ Hv Hl) as Hs.
  pose proof (one_change_slot i (change_unique _ _ _ _ Hd)) as Hf.
  assert (fee = OperatorFeeSat q) as <- by lia.
  split; [done|]. split; [done|]. split; [done|].
  split; [unfold changed; pose proof (slots_changed _ _ _ Hs); lia|].
  split; [apply (realised_exact env i q fee Hm Hs Hf Er); lia|]. split; [lia|].
  split; [intros Ha; rewrite Ha in E9; cbn in E9; lia|]. split.
  - apply Forall_forall. intros e He. apply andb_false_iff in E5 as [E5|E5]; [left; lia|].
    right. destruct (vq_AmountSat e <? MinVTXOFloor env) eqn:E; [|lia].
    rewrite <- not_true_iff_false in E5. destruct E5. apply existsb_exists. exists e.
    split; [by apply list_elem_of_In|done].
  - apply andb_false_iff in E2 as [E2|E2]; [left|right]; lia.
Qed.

End Accepted.

(** *** A concrete quote *)

Definition plain_scripts : RoundScripts := {|
  EffectivePkScript r := Ok (v_PkScript r);
  composed_script r root := Ok (v_PkScript r ++ root);
  SerializeCompressed k := [2; Z.of_N k];
|}.
Definition plain_request (amount : Z) (script : list Z) (key : PublicKey) (change : bool) : VTXORequest :=
  mkVTXORequest amount change false "" 0 [] script (Some key) (Some key) OriginRoundRefresh None.
Definition quote_intents : Intents :=
  mkIntents [] [plain_request 600 [1] 11 false; plain_request 400 [2] 12 true] []
    [mkForfeitRequest (Some (mkOutPoint 9 0)) 1000 None None] [].
Definition plain_quote : ClientQuote :=
  mkQuote 3 1 25 [mkVTXOQuote [1] 600 [2; 11]; mkVTXOQuote [2] 375 [2; 12]] [] 0 QUOTE_OK.
Definition quote_env : QuoteEnv := mkQuoteEnv 100 50 330 (Some (λ _, Ok 1000)).

Lemma plain_money : money_range quote_env quote_intents plain_quote.
Proof.
  split.
  - intros amounts H. inversion H as [|? a ? l Ha Hl]; subst. injection Ha as <-. inversion Hl; subst.
    split; [by repeat constructor|]. cbn. unfold MaxSatoshi. lia.
  - split; [by repeat constructor|]. split; [done|]. split; [by repeat constructor|done].
Qed.

Lemma quote_accepted_sound_witness :
  @evaluateQuote plain_scripts quote_env quote_intents (Some plain_quote) = QuoteAccepted_ 3 ∧
  (changed quote_intents plain_quote ≤ 1)%nat ∧ pays_fee quote_env quote_intents plain_quote 25.
Proof.
  assert (@evaluateQuote plain_scripts quote_env quote_intents (Some plain_quote) = QuoteAccepted_ 3) as He
    by (vm_compute; reflexivity).
  assert (designateChangeMarker [plain_request 600 [1] 11 false; plain_request 400 [2] 12 true] [] =
    (VTXOs quote_intents, Leaves quote_intents)) as Hd by (vm_compute; reflexivity).
  destruct (@quote_accepted_sound plain_scripts quote_env _ _ quote_intents plain_quote 3 Hd plain_money He)
    as (_ & _ & _ & Hc & Hp & _).
  split; [exact He|]. split; [exact Hc|exact Hp].
Defined.
