(* ===== verification/RoundValidate.v ===== *)
(** * The checks of a round: [round/transitions.go], [round/validation.go],
      [round/sweep_policy.go], [lib/tx/forfeit.go]

    Before a client signs, it checks what the operator built: its deposits are
    spent and its exits paid by the commitment transaction, every tree hangs below
    an output of it and leads to the VTXOs of the quote, every connector descends
    from it, and every forfeit transaction pays the penalty and nothing else.  When
    the round confirms, the VTXOs and the fee follow from the same data.

    A nil tree, connector or transaction is ruled out by the decoders.  Maps are
    walked in one fixed order; the code takes any.  The asset verifier and the
    registry of owned scripts are answers of the environment. *)

From S2P Require Import Prelude RecoveryProof VtxoExpiry VtxoForfeit TxTree RoundQuote.
Local Open Scope Z_scope.

(** A PSBT: the transaction and what is known of the outputs it spends. *)
Record Packet := mkPacket {
  UnsignedTx : ForfeitMsgTx;
  WitnessUtxos : list (option TxOut);
}.

Record ConnectorLeafInfo := mkConnectorLeaf {
  LeafIndex : Z;
  ci_ConnectorOutpoint : OutPoint;
  ci_ConnectorPkScript : list Z;
  ci_ConnectorAmount : Z;
  VTXOAmount : Z;
  RootOutputIndex : Z;
  ci_NumLeaves : Z;
  Radix : Z;
}.

(** The scripts a round derives from keys. *)
Class RoundKeys := {
  (** [ComputeTaprootKeyNoScript] *)
  TaprootKeyNoScript : PublicKey → PublicKey;
  (** the hash of [UnilateralCSVTimeoutTapLeaf] *)
  SweepTapRoot : PublicKey → Z → result error (list Z);
  (** [schnorr.Signature.Serialize] *)
  SerializeSignature : Signature → list Z;
}.

(** ** Inputs and outputs of the commitment transaction *)

Definition input_indices (tx : ForfeitMsgTx) : gmap OutPoint Z :=
  foldl (λ m p, <[p.2 := p.1]> m) ∅ (imap (λ i x, (Z.of_nat i, x.1)) (f_TxIn tx)).

Definition validateBoardingInputs (tx : ForfeitMsgTx) (intents : list BoardingIntent) :
    result error (gmap OutPoint Z) :=
  guard* negb (Nat.eqb (length intents) 0) else "no boarding intents to validate" in
  let outpointToIdx := input_indices tx in
  guard* forallb (λ i, bool_decide (is_Some (outpointToIdx !! bi_Request i))) intents
    else "boarding UTXO not found in commitment tx" in
  Ok outpointToIdx.

Definition value_of (expectedAmounts : option (list Z)) (i : nat) (out : TxOut) : Z :=
  match expectedAmounts with
  | Some amounts => default (Value out) (amounts !! i)
  | None => Value out
  end.

Definition output_key (o : TxOut) : Z * list Z := (Value o, PkScript o).

(** The outputs that are expected; a leave without one is a nil dereference. *)
Definition expected_leaves (leaves : list (option LeaveRequest))
    (expectedAmounts : option (list Z)) : result error (list TxOut) :=
  let* outs := index_results (λ i l,
    match leave_output l with
    | Some out => Ok (mkTxOut (value_of expectedAmounts (Z.to_nat i) out) (PkScript out))
    | None => Err "nil pointer dereference"
    end) 0 leaves in
  Ok (snd <$> outs).

Definition count_expected (outs : list TxOut) : gmap (Z * list Z) nat :=
  foldl (λ m o, <[output_key o := S (default 0%nat (m !! output_key o))]> m) ∅ outs.
Definition take_output (m : gmap (Z * list Z) nat) (o : TxOut) : gmap (Z * list Z) nat :=
  match m !! output_key o with
  | Some (S n) => <[output_key o := n]> m
  | _ => m
  end.

Definition validateLeaveOutputs (tx : ForfeitMsgTx) (leaves : list (option LeaveRequest))
    (expectedAmounts : option (list Z)) : result error unit :=
  if Nat.eqb (length leaves) 0 then Ok tt
  else
    let* expected := expected_leaves leaves expectedAmounts in
    let left := foldl take_output (count_expected expected) (f_TxOut tx) in
    guard* bool_decide (map_Forall (λ _ n, n = 0%nat) left)
      else "leave output not found in commitment tx" in
    Ok tt.

Definition quoteVTXOAmount (quote : option ClientQuote) (i : nat) (req : VTXORequest) :
    result error Z :=
  match quote with
  | None => Ok (v_Amount req)
  | Some q =>
      match VTXOQuotes q !! i with
      | Some e => Ok (vq_AmountSat e)
      | None => Err "index out of range"
      end
  end.

Definition quoteLeaveAmounts (quote : option ClientQuote) (leaves : list (option LeaveRequest)) :
    result error (option (list Z)) :=
  match quote with
  | None => Ok None
  | Some q =>
      guard* (length leaves <=? length (LeaveQuotes q))%nat else "index out of range" in
      Ok (Some (take (length leaves) (lq_AmountSat <$> LeaveQuotes q)))
  end.

Definition MaxReasonableDelay : Z := 52560.
Definition ValidateDelayParameters (sweepDelay vtxoExitDelay : Z) : result error unit :=
  guard* negb (sweepDelay =? 0) else "sweep delay is zero" in
  guard* negb (vtxoExitDelay =? 0) else "VTXO exit delay is zero" in
  guard* negb (sweepDelay <=? vtxoExitDelay)
    else "sweep delay must be greater than VTXO exit delay" in
  guard* negb (MaxReasonableDelay <? sweepDelay)
    else "sweep delay exceeds maximum reasonable value" in
  guard* negb (MaxReasonableDelay <? vtxoExitDelay)
    else "VTXO exit delay exceeds maximum reasonable value" in
  Ok tt.

(** ** Forfeits *)

Definition forfeitRequestMap (requests : list ForfeitRequest) : gmap OutPoint ForfeitRequest :=
  foldl (λ m r, match VTXOOutpoint r with Some op => <[op := r]> m | None => m end) ∅ requests.

(** A custom forfeit carries an explicit spend path. *)
Definition is_custom (r : ForfeitRequest) : bool :=
  bool_decide (is_Some (AuthSpend r)) || bool_decide (is_Some (f_ForfeitSpend r)).
Definition add_once (l : list OutPoint) (op : OutPoint) : list OutPoint :=
  if bool_decide (op ∈ l) then l else l ++ [op].
Definition forfeitRollbackOutpoints (requests : list ForfeitRequest) :
    list OutPoint * list OutPoint :=
  foldl (λ acc r,
    match VTXOOutpoint r with
    | None => acc
    | Some op => if is_custom r then (acc.1, add_once acc.2 op) else (add_once acc.1 op, acc.2)
    end) ([], []) requests.

Definition forfeitOutpoints (forfeits : list ForfeitRequest) : list OutPoint :=
  omap VTXOOutpoint forfeits.

Definition set_vtxo_amount (info : ConnectorLeafInfo) (amount : Z) : ConnectorLeafInfo :=
  mkConnectorLeaf (LeafIndex info) (ci_ConnectorOutpoint info) (ci_ConnectorPkScript info)
    (ci_ConnectorAmount info) amount (RootOutputIndex info) (ci_NumLeaves info) (Radix info).

Definition populate_amount (requestIndex : gmap OutPoint ForfeitRequest)
    (p : OutPoint * ConnectorLeafInfo) : result error (OutPoint * ConnectorLeafInfo) :=
  match requestIndex !! p.1 with
  | None => Err "missing local forfeit request"
  | Some req =>
      guard* (0 <? f_Amount req) else "invalid local forfeit amount" in
      Ok (p.1, set_vtxo_amount p.2 (f_Amount req))
  end.
Definition populateForfeitMappingAmounts (mappings : gmap OutPoint ConnectorLeafInfo)
    (requests : list ForfeitRequest) : result error (gmap OutPoint ConnectorLeafInfo) :=
  let* l := map_results (populate_amount (forfeitRequestMap requests)) (map_to_list mappings) in
  Ok (list_to_map l).

Definition spend_field (get : SpendPath → Z) (req : option ForfeitRequest) : Z :=
  match req ≫= f_ForfeitSpend with
  | Some sp => if bool_decide (is_Some (sp_SpendInfo sp)) then get sp else 0
  | None => 0
  end.
Definition expectedForfeitSequence (req : option ForfeitRequest) : Z := spend_field RequiredSequence req.
Definition expectedForfeitLockTime (req : option ForfeitRequest) : Z := spend_field RequiredLockTime req.

Record ForfeitTxParams := mkForfeitTxParams {
  p_VTXOOutpoint : OutPoint;
  p_ConnectorOutpoint : OutPoint;
  ServerForfeitScript : list Z;
  ExpectedAmount : Z;
  ExpectedSequence : Z;
  ExpectedLockTime : Z;
}.

Definition forfeitConnectorSequence : Z := MaxTxInSequenceNum.

Definition ValidateForfeitTx (tx : option ForfeitMsgTx) (params : ForfeitTxParams) :
    result error unit :=
  match tx with
  | None => Err "forfeit tx is nil"
  | Some tx =>
      match f_TxIn tx with
      | [vtxoIn; connectorIn] =>
          guard* (Version tx =? forfeitTxVersion) else "forfeit tx version" in
          let sequence := if ExpectedSequence params =? 0 then MaxTxInSequenceNum
                          else ExpectedSequence params in
          guard* (vtxoIn.2 =? sequence) else "forfeit tx input 0 sequence" in
          guard* (connectorIn.2 =? forfeitConnectorSequence)
            else "forfeit tx input 1 sequence" in
          guard* (LockTime tx =? ExpectedLockTime params) else "forfeit tx locktime" in
          guard* bool_decide (vtxoIn.1 = p_VTXOOutpoint params) else "forfeit tx input 0" in
          guard* bool_decide (connectorIn.1 = p_ConnectorOutpoint params)
            else "forfeit tx input 1" in
          match f_TxOut tx with
          | [penaltyOut; anchorOut] =>
              guard* bool_decide (PkScript penaltyOut = ServerForfeitScript params)
                else "forfeit tx does not pay to server forfeit script" in
              guard* (negb (0 <? ExpectedAmount params) ||
                      (Value penaltyOut =? ExpectedAmount params))
                else "forfeit tx penalty output amount" in
              guard* is_anchor anchorOut else "forfeit tx output 1 is not a P2A anchor" in
              guard* (Value anchorOut =? 0) else "forfeit tx anchor has non-zero value" in
              Ok tt
          | _ => Err "forfeit tx outputs, expected 2"
          end
      | _ => Err "forfeit tx inputs, expected 2"
      end
  end.

Section Checks.
Context {TX : Txscript} {MS : Musig} {RS : RoundScripts} {RK : RoundKeys}.

Definition forfeitPenaltyScript (forfeitKey : option PublicKey) : result error (list Z) :=
  match forfeitKey with
  | None => Err "round forfeit key not set"
  | Some key => PayToTaprootScript (TaprootKeyNoScript key)
  end.

(** ** Connectors *)

Definition maxConnectorTreeLeaves : Z := 65536.
Definition maxConnectorTreeRadix : Z := 1024.

(** The only output that is not an anchor. *)
Definition leafNonAnchorOutput (leaf : Node) : result error TxOut :=
  match filter (λ o, is_anchor o = false) (Outputs leaf) with
  | [out] => Ok out
  | [] => Err "no non-anchor output found in leaf node"
  | _ => Err "leaf node has multiple non-anchor outputs"
  end.
Definition connectorLeafOutput (leaf : Node) : result error TxOut :=
  match filter (λ o, is_anchor o = false) (Outputs leaf) with
  | [out] => Ok out
  | [] => Err "connector leaf has no non-anchor output"
  | _ => Err "connector leaf has multiple non-anchor outputs"
  end.

Definition verifyConnectorLeaf (tx : ForfeitMsgTx) (operatorKey : PublicKey)
    (info : ConnectorLeafInfo) : result error unit :=
  match (if RootOutputIndex info <? 0 then None else f_TxOut tx !! Z.to_nat (RootOutputIndex info)) with
  | None => Err "root output index out of range"
  | Some rootOutput =>
      guard* negb (ci_NumLeaves info =? 0) else "num leaves must be positive" in
      guard* negb (maxConnectorTreeLeaves <? ci_NumLeaves info) else "num leaves exceeds maximum" in
      guard* negb (Radix info <? 2) else "radix must be at least 2" in
      guard* negb (maxConnectorTreeRadix <? Radix info) else "radix exceeds maximum" in
      guard* ((0 <=? LeafIndex info) && (LeafIndex info <? ci_NumLeaves info))
        else "leaf index out of range" in
      guard* (0 <? ci_ConnectorAmount info) else "connector leaf amount must be positive" in
      guard* negb (9223372036854775807 / ci_ConnectorAmount info <? ci_NumLeaves info)
        else "num leaves and leaf amount overflow int64" in
      guard* (Value rootOutput =? ci_NumLeaves info * ci_ConnectorAmount info)
        else "root output value != num leaves * leaf amount" in
      let rootOutpoint := mkOutPoint (ForfeitTxHash tx) (RootOutputIndex info) in
      let* connTree := wrap "reconstruct connector tree: "
        (BuildConnectorTree rootOutpoint rootOutput
           (mkConnector (PkScript rootOutput) (ci_NumLeaves info) (ci_ConnectorAmount info))
           operatorKey (Radix info)) in
      check* wrap "connector tree structure invalid: " (Verify_ connTree) in
      let leaves := root_leaves connTree in
      guard* (Z.of_nat (length leaves) =? ci_NumLeaves info)
        else "reconstructed tree has other leaves" in
      match leaves !! Z.to_nat (LeafIndex info) with
      | None => Err "index out of range"
      | Some leaf =>
          let* gotOutpoint := wrap "connector leaf outpoint: " (GetNonAnchorOutpoint leaf) in
          guard* bool_decide (gotOutpoint = ci_ConnectorOutpoint info)
            else "assigned connector outpoint is not the leaf of the reconstructed tree" in
          let* gotOutput := connectorLeafOutput leaf in
          guard* (Value gotOutput =? ci_ConnectorAmount info)
            else "connector leaf value != assigned amount" in
          guard* bool_decide (PkScript gotOutput = ci_ConnectorPkScript info)
            else "connector leaf script does not match" in
          Ok tt
      end
  end.

Definition validateConnectorAncestry (tx : ForfeitMsgTx) (operatorKey : option PublicKey)
    (mappings : gmap OutPoint ConnectorLeafInfo) : result error unit :=
  if bool_decide (mappings = ∅) then Ok tt
  else
    match operatorKey with
    | None => Err "operator key is nil"
    | Some key =>
        for_each (λ p, wrap "connector for forfeited VTXO: " (verifyConnectorLeaf tx key p.2))
          (map_to_list mappings)
    end.

(** ** Trees *)

Definition verifyVTXOTreeRoot (tx : ForfeitMsgTx) (outputIdx : Z) (t : Tree) : result error unit :=
  match Root t, BatchOutput t with
  | None, _ => Err "nil tree root"
  | _, None => Err "nil batch output"
  | Some root, Some out =>
      guard* negb (bool_decide (CoSigners root = [])) else "tree root has no cosigners" in
      guard* (outputIdx =? op_Index (BatchOutpoint t))
        else "map key does not match batch outpoint index" in
      guard* bool_decide (op_Hash (BatchOutpoint t) = ForfeitTxHash tx)
        else "batch outpoint hash does not match commitment txid" in
      match (if op_Index (BatchOutpoint t) <? 0 then None
             else f_TxOut tx !! Z.to_nat (op_Index (BatchOutpoint t))) with
      | None => Err "batch outpoint index out of range"
      | Some committed =>
          guard* (Value committed =? Value out) else "committed output value != batch output value" in
          guard* bool_decide (PkScript committed = PkScript out)
            else "committed output script does not match batch output script" in
          check* validate_context t root in
          let* rootScript := wrap "recompute tree root: "
                               (cosigner_script (CoSigners root) (childSigningTweak t root)) in
          guard* bool_decide (rootScript = PkScript committed)
            else "committed output script does not match the recomputed tree root" in
          check* wrap "child output scripts: " (ValidateChildScripts t) in
          check* wrap "value conservation failed: " (ValidateValueConservation t) in
          Ok tt
      end
  end.

Definition validateVTXOTreeBinding (tx : ForfeitMsgTx) (trees : gmap Z Tree) : result error unit :=
  for_each (λ p, wrap "vtxo tree at output: " (verifyVTXOTreeRoot tx p.1 p.2)) (map_to_list trees).

Definition validateRoundSweepPolicy (sweepKey : option PublicKey) (sweepDelay : Z)
    (trees : gmap Z Tree) : result error unit :=
  match sweepKey with
  | None => Err "sweep key must be provided"
  | Some key =>
      guard* negb (sweepDelay =? 0) else "sweep delay must be positive" in
      let* sweepRoot := wrap "build sweep leaf: " (SweepTapRoot key sweepDelay) in
      for_each (λ p,
        guard* bool_decide (sweepRoot = SweepTapscriptRoot p.2)
          else "vtxo tree has a sweep root that does not match the advertised key and delay" in
        Ok tt) (map_to_list trees)
  end.

(** The output script of a request: an asset VTXO commits to its asset root. *)
Definition asset_script (t : Tree) (request : VTXORequest) : result error (list Z) :=
  match AssetContext t, Root t with
  | Some c, Some root =>
      check* wrap "asset tree context: " (ValidateAssets c root) in
      guard* bool_decide (assetRef c = AssetRef request) else "tree asset does not match request" in
      let* path := wrap "extract asset VTXO path: "
                     (ExtractPathForCoSigners t [SigningKey request]) in
      match path with
      | None => Err "asset VTXO path not found"
      | Some path =>
          match root_leaves path, AssetContext path with
          | [leaf], Some c =>
              guard* (NodeAssetAmount c leaf =? AssetAmount request)
                else "asset VTXO amount does not match request" in
              composed_script request (LeafAssetRoot c (Input leaf))
          | _, _ => Err "expected one asset VTXO leaf"
          end
      end
  | _, _ => Err "asset VTXO requires an asset tree"
  end.

Definition validateRequestedVTXO (t : Tree) (request : VTXORequest) (expectedAmount : Z)
    (operatorKey : PublicKey) : result error Tree :=
  let* pkScript := wrap "derive VTXO script: " (EffectivePkScript request) in
  let* pkScript := if bool_decide (AssetRef request = "") then Ok pkScript
                   else asset_script t request in
  ValidatePath t (SigningKey request)
    (mkLeaf pkScript expectedAmount (SigningKey request) 0) operatorKey.

(** What the environment answers of assets and scripts. *)
Record AssetEnv := mkAssetEnv {
  VerifyAssetVTXO : option (string → Z → ForfeitMsgTx → Tree → list Z → result error unit);
  RegisterOwnedScript : option (list Z → result error unit);
}.

Definition set_context (t : Tree) (c : option AssetTreeContext) : Tree :=
  mkTree (Root t) (BatchOutpoint t) (BatchOutput t) (SweepTapscriptRoot t) (SweepKey t)
    (SweepDelay t) c.

(** The sealed package is kept in the context of the path. *)
Definition verifyRequestedAssetVTXO (env : AssetEnv) (request : VTXORequest)
    (tx : ForfeitMsgTx) (clientTree : Tree) (packages : gmap OutPoint (list Z)) :
    result error Tree :=
  if bool_decide (AssetRef request = "") then Ok clientTree
  else
    match VerifyAssetVTXO env with
    | None => Err "asset VTXO verifier is not configured"
    | Some verify =>
        match root_leaves clientTree with
        | leaf :: _ =>
            let* outpoint := GetNonAnchorOutpoint leaf in
            let sealedPackage := default [] (packages !! outpoint) in
            guard* negb (bool_decide (sealedPackage = [])) else "asset VTXO has no sealed package" in
            check* verify (AssetRef request) (AssetAmount request) tx clientTree sealedPackage in
            match AssetContext clientTree with
            | Some c => Ok (set_context clientTree (Some (set_package c (Input leaf) sealedPackage)))
            | None => Err "nil pointer dereference"
            end
        | [] => Err "index out of range"
        end
    end.

(** The script that is registered, if any. *)
Definition registerRequestedAssetVTXO (env : AssetEnv) (request : VTXORequest)
    (clientTree : Tree) : result error (option (list Z)) :=
  if bool_decide (AssetRef request = "") || negb (HasLocalOwner request) then Ok None
  else
    match RegisterOwnedScript env with
    | None => Ok None
    | Some register =>
        match root_leaves clientTree with
        | [leaf] =>
            let* leafOutput := leafNonAnchorOutput leaf in
            check* register (PkScript leafOutput) in
            Ok (Some (PkScript leafOutput))
        | _ => Err "expected one asset VTXO leaf"
        end
    end.

(** ** Signing the deposits *)

Record BoardingInputSignature := mkInputSig {
  InputIndex : Z;
  is_Outpoint : OutPoint;
  ClientSignature : Signature;
}.

(** The wallet signs an input of the transaction for a deposit. *)
Definition signBoardingInputs (sign : Packet → BoardingIntent → Z → result error Signature)
    (tx : Packet) (intents : Intents) (indices : gmap OutPoint Z) :
    result error (list BoardingInputSignature) :=
  guard* forallb (λ u, bool_decide (is_Some u)) (WitnessUtxos tx)
    else "PSBT input missing WitnessUtxo" in
  map_results (λ b,
    match indices !! bi_Request b with
    | None => Err "no input index found for boarding outpoint"
    | Some idx =>
        let* sig := wrap "failed to sign boarding input: " (sign tx b idx) in
        Ok (mkInputSig idx (bi_Request b) sig)
    end) (Boarding intents).

Definition confirmationWatchScript (tx : ForfeitMsgTx) (trees : gmap Z Tree) : list Z :=
  let idx := foldr Z.min (from_option id 0 (head (map_to_list trees).*1)) (map_to_list trees).*1 in
  match f_TxOut tx with
  | [] => []
  | out :: _ =>
      PkScript (default out (if idx <? 0 then None else f_TxOut tx !! Z.to_nat idx))
  end.

(** ** Confirmation *)

Record Ancestry := mkAncestry {
  TreePath : Tree;
  a_CommitmentTxID : Hash;
  TreeDepth : Z;
  CommitmentSweepDelay : Z;
  CommitmentSweepKey : option PublicKey;
}.

Record ClientVTXO := mkClientVTXO {
  cv_Outpoint : OutPoint;
  cv_Amount : Z;
  cv_PolicyTemplate : list Z;
  cv_PkScript : list Z;
  cv_Asset : option (list Z * string * Z * list Z);
  cv_Expiry : Z;
  cv_OwnerKey : option PublicKey;
  cv_OperatorKey : option PublicKey;
  cv_Ancestry : list Ancestry;
  cv_RoundID : RoundID;
  cv_Origin : VTXOOrigin;
  cv_CommitmentTxID : Hash;
  cv_BatchExpiry : Z;
  cv_CreatedHeight : Z;
}.

(** What the policy of a request decodes to, and who owns a script. *)
Record OwnerEnv := mkOwnerEnv {
  StandardPolicy : VTXORequest → option (Z * PublicKey);
  EffectivePolicyTemplate : VTXORequest → list Z;
  IsOwnedScript : option (list Z → result error bool);
}.

(** The asset fields of a VTXO: root, reference, amount, sealed package. *)
Definition clientVTXOAssetState (req : VTXORequest) (t : Tree) (root leaf : Node) :
    result error (option (list Z * string * Z * list Z)) :=
  if bool_decide (AssetRef req = "")
  then
    guard* bool_decide (AssetContext t = None) else "Bitcoin VTXO request has an asset tree" in
    Ok None
  else
    match AssetContext t with
    | None => Err "asset VTXO is missing tree context"
    | Some c =>
        check* wrap "asset VTXO tree context: " (ValidateAssets c root) in
        guard* (bool_decide (assetRef c = AssetRef req) && (NodeAssetAmount c leaf =? AssetAmount req))
          else "asset VTXO identity does not match request" in
        guard* Nat.eqb (length (LeafAssetRoot c (Input leaf))) 32
          else "asset VTXO is missing leaf commitment root" in
        guard* negb (bool_decide (SealedPackage c (Input leaf) = []))
          else "asset VTXO is missing sealed leaf package" in
        Ok (Some (LeafAssetRoot c (Input leaf), AssetRef req, AssetAmount req,
                  SealedPackage c (Input leaf)))
    end.

(** The VTXO of a request; [None] for a script that is not ours. *)
Definition client_vtxo (env : OwnerEnv) (trees : gmap PublicKey Tree) (roundID : RoundID)
    (req : VTXORequest) : result error (option ClientVTXO) :=
  match (SigningKey req ≫= λ k, trees !! k) with
  | None => Err "missing client tree for signing key"
  | Some t =>
      match Root t, root_leaves t with
      | Some root, [leaf] =>
          let* outpoint := wrap "failed to derive VTXO outpoint: " (GetNonAnchorOutpoint leaf) in
          let* leafOutput := wrap "derive leaf output: " (leafNonAnchorOutput leaf) in
          let* owned := match IsOwnedScript env with
                        | None => Ok true
                        | Some check => wrap "check owned script: " (check (PkScript leafOutput))
                        end in
          if negb owned then Ok None
          else
            let* asset := clientVTXOAssetState req t root leaf in
            Ok (Some (mkClientVTXO outpoint (Value leafOutput) (EffectivePolicyTemplate env req)
              (PkScript leafOutput) asset (from_option fst 0 (StandardPolicy env req))
              (OwnerPubKey req) (snd <$> StandardPolicy env req)
              [mkAncestry t 0%N (uint32 (Depth root)) (SweepDelay t) (SweepKey t)]
              roundID (v_Origin req) 0%N 0 0))
      | _, _ => Err "expected exactly 1 leaf for signing key"
      end
  end.

Definition buildClientVTXOs (env : OwnerEnv) (intents : Intents) (trees : gmap PublicKey Tree)
    (roundID : RoundID) : result error (list ClientVTXO) :=
  let* vtxos := map_results (client_vtxo env trees roundID)
                  (filter (λ r, HasLocalOwner r = true) (VTXOs intents)) in
  Ok (omap id vtxos).

Definition stamp_ancestry (txid : Hash) (a : Ancestry) : Ancestry :=
  mkAncestry (TreePath a) txid (TreeDepth a) (CommitmentSweepDelay a) (CommitmentSweepKey a).
Definition stamp_vtxo (txid : Hash) (batchExpiry height : Z) (v : ClientVTXO) : ClientVTXO :=
  mkClientVTXO (cv_Outpoint v) (cv_Amount v) (cv_PolicyTemplate v) (cv_PkScript v) (cv_Asset v)
    (cv_Expiry v) (cv_OwnerKey v) (cv_OperatorKey v) (stamp_ancestry txid <$> cv_Ancestry v)
    (cv_RoundID v) (cv_Origin v) txid batchExpiry height.

(** Amounts that count only when positive. *)
Definition add_positive (total amount : Z) : Z :=
  if 0 <? amount then int64 (total + amount) else total.

Definition leave_amounts (intents : Intents) : list Z :=
  LeaveAmount intents <$> seq 0 (length (Leaves intents)).
Definition foreign_amounts (intents : Intents) : list Z :=
  v_Amount <$> filter (λ r, HasLocalOwner r = false) (VTXOs intents).

Definition computeClientOperatorFee (intents : Intents) (owned : list ClientVTXO) : Z :=
  let boarding := bi_Amount <$> filter (λ b, bi_AssetRef b = "") (Boarding intents) in
  let inputsSat := foldl add_positive 0 (boarding ++ (f_Amount <$> Forfeits intents)) in
  let built := cv_Amount <$> filter (λ v, cv_Origin v ≠ OriginRoundTransfer) owned in
  let outputsSat := foldl add_positive 0 (foreign_amounts intents) in
  let outputsSat := foldl (λ t a, int64 (t + a)) outputsSat built in
  let outputsSat := foldl add_positive outputsSat (leave_amounts intents) in
  let fee := int64 (inputsSat - outputsSat) in
  if fee <=? 0 then 0 else fee.

Record RoundLedgerOutflow := mkOutflow {
  of_AmountSat : Z;
  of_Kind : string;
  of_Index : Z;
  ProceedsOwnWallet : bool;
  ProceedsVout : Z;
}.

(** The only output with the script and the amount. *)
Definition commitmentVout (tx : ForfeitMsgTx) (leave : option LeaveRequest) (amountSat : Z) :
    bool * Z :=
  match leave_output leave with
  | None => (false, 0)
  | Some out =>
      match filter (λ p, Value p.2 = amountSat ∧ PkScript p.2 = PkScript out)
              (imap (λ i o, (Z.of_nat i, o)) (f_TxOut tx)) with
      | [p] => (true, p.1)
      | _ => (false, 0)
      end
  end.

(** The key of an outflow is its round, kind and index. *)
Definition vtxo_outflow (p : nat * VTXORequest) : option RoundLedgerOutflow :=
  if HasLocalOwner p.2 || (v_Amount p.2 <=? 0) then None
  else Some (mkOutflow (v_Amount p.2) "vtxo" (Z.of_nat p.1) false 0).
Definition leave_outflow (intents : Intents) (tx : ForfeitMsgTx) (p : nat * option LeaveRequest) :
    option RoundLedgerOutflow :=
  let amt := LeaveAmount intents p.1 in
  if amt <=? 0 then None
  else
    let found := if from_option DestinationOwnWallet false p.2 then commitmentVout tx p.2 amt
                 else (false, 0) in
    Some (mkOutflow amt "leave" (Z.of_nat p.1) found.1 found.2).
Definition roundLedgerOutflows (intents : Intents) (tx : ForfeitMsgTx) : list RoundLedgerOutflow :=
  omap vtxo_outflow (imap pair (VTXOs intents)) ++
  omap (leave_outflow intents tx) (imap pair (Leaves intents)).

Definition roundOperatorFeeType (intents : Intents) : string :=
  if existsb (λ b, bool_decide (bi_AssetRef b = "")) (Boarding intents) ||
     existsb (λ r, bool_decide (v_Origin r = OriginRoundBoarding)) (VTXOs intents)
  then "boarding" else "refresh".

End Checks.
