(* ===== verification/RoundFsm.v ===== *)
(** * The client's state machine of a round: [round/transitions.go],
      [round/states.go], [round/events.go], [round/outbox_messages.go],
      [round/admission_timeout.go], [round/fsm_timeouts.go]

    Every [ProcessEvent] of the machine, from the assembly of a request to the
    confirmed round.  A step takes the state, the event and what the machine's
    environment answers, and gives the next state with internal events and outbox
    messages, or an error; it also lists what was written to the stores on the way
    and the admission budget, which the environment keeps between steps.

    The answers of a step are the stores', the wallet's and the signing executor's
    ([Env]); the clock is read once.  The slot of a scheduled registration
    ([scheduled_registration.go]) and the join authorization ([join_auth.go]) are
    answers too.  Signer sessions, nonces and partial signatures are opaque. *)

From S2P Require Import Prelude RecoveryProof VtxoExpiry VtxoForfeit TxTree RoundQuote RoundValidate.
Local Open Scope Z_scope.

(** The key under which the actor keeps a machine: temporary until the operator
    assigned an id. *)
Inductive RoundKeyStr := TempKey (n : N) | IdKey (r : RoundID).
Abbreviation Session := N.
Abbreviation Nonces := N.
Abbreviation PartialSigs := N.

Inductive RoundFailureCode := RoundFailureUnknown | RoundFailureInsufficientOperatorFunds.
Definition IsTerminalForJob (c : RoundFailureCode) : bool :=
  match c with RoundFailureInsufficientOperatorFunds => true | _ => false end.

Inductive RoundLifecycleStatus := ROUND_STATUS_DEAD | ROUND_STATUS_OTHER (n : Z).

Inductive TimeoutPhase :=
| TimeoutPhaseScheduledRegistration | TimeoutPhaseRefreshRegistration | TimeoutPhaseForfeitCollection
| TimeoutPhaseRegistration | TimeoutPhaseStatusReconcile | TimeoutPhaseFinalizeRetry
| TimeoutPhaseAdmission.

(** ** Messages *)

Record CommitmentTxBuilt := mkBuilt {
  b_RoundID : RoundID;
  b_Tx : Packet;
  b_VTXOTreePaths : gmap Z Tree;
  AssetLeafPackages : gmap OutPoint (list Z);
  b_ForfeitMappings : gmap OutPoint ConnectorLeafInfo;
  TreeCosignKey : option PublicKey;
  ConnectorOperatorKey : option PublicKey;
  b_SweepKey : option PublicKey;
  b_SweepDelay : Z;
  b_ForfeitKey : option PublicKey;
  b_FlowVersion : Z;
}.

Record BoardingFailed := mkBoardingFailed {
  bf_RoundID : option RoundID;
  bf_Reason : string;
  bf_Error : option error;
  bf_Recoverable : bool;
  bf_FailureCode : RoundFailureCode;
}.

Record ForfeitSignatureResponse := mkForfeitResponse {
  fs_VTXOOutpoint : OutPoint;
  fs_ForfeitTx : option ForfeitMsgTx;
  fs_Signature : option Signature;
  ParticipantVTXOSigs : list ForfeitParticipantSig;
  fs_SpendPath : option SpendPath;
}.

Inductive ClientEvent :=
| IntentPackage (i : Intents)
| IntentRequested
| RegistrationTimedOut
| RoundJoined (roundID : RoundID)
| JoinRoundQuoteReceived (roundID : RoundID) (quote : option ClientQuote)
| QuoteAccepted (roundID : RoundID) (quoteID : N)
| QuoteRejected (roundID : RoundID) (quoteID : N) (reason : string)
| CommitmentTxBuiltEvent (m : CommitmentTxBuilt)
| CommitmentTxValidatedEvent
| GenerateNonces
| NoncesAggregated (roundID : RoundID) (aggNonces : Nonces)
| GeneratePartialSigs
| OperatorSigned (roundID : RoundID) (aggSigs : gmap Hash Signature)
| AwaitingBoardingSigs (roundID : RoundID)
| ForfeitSignatureEvent (r : ForfeitSignatureResponse)
| ForfeitCollectionTimedOut (roundID : RoundID)
| AdmissionTimedOut (roundID : RoundID)
| BoardingConfirmed (txid : Hash) (height : Z) (blockHash : Hash) (confirmations : Z)
| BoardingFailedEvent (f : BoardingFailed)
| StatusReconcileTimedOut (roundID : RoundID)
| RoundStatusReported (roundID : RoundID) (status : RoundLifecycleStatus) (detail : string)
| RecoveryInitiated (outpoint : OutPoint) (sweepTxID : Hash) (reason : string)
| RoundComplete.

(** The signature of a forfeit as it goes to the operator. *)
Record ForfeitTxSig := mkForfeitTxSig {
  UnsignedForfeitTx : option ForfeitMsgTx;
  ClientVTXOSig : option Signature;
  ft_ParticipantVTXOSigs : list ForfeitParticipantSig;
  ft_SpendPath : option SpendPath;
}.

Inductive ClientOutMsg :=
| JoinRoundRequest (batchSlot : option N) (boarding : list OutPoint) (vtxos : list VTXORequest)
    (forfeits : list ForfeitRequest) (leaves : list (option LeaveRequest)) (identifier : PublicKey)
    (auth : option (list Z))
| JoinRoundAcceptOutbox (roundID : RoundID) (quoteID : N)
| JoinRoundRejectOutbox (roundID : RoundID) (quoteID : N) (reason : string)
| SubmitNoncesRequest (roundID : RoundID) (nonces : gmap PublicKey Nonces)
| SubmitPartialSigRequest (roundID : RoundID) (sigs : gmap PublicKey PartialSigs)
| SubmitForfeitSigRequest (roundID : RoundID) (sigs : list BoardingInputSignature)
| SubmitVTXOForfeitSigsToServer (roundID : RoundID) (forfeitTxs : gmap OutPoint ForfeitTxSig)
| ForfeitRequestToVTXO (vtxo : OutPoint) (roundID : RoundID) (connector : ConnectorLeafInfo)
    (serverForfeitPkScript : list Z) (forfeitSpend : option SpendPath)
| ForfeitConfirmedToVTXO (vtxo : OutPoint) (commitmentTxID : Hash) (height : Z)
| RegisterConfirmationRequest (txid : Hash) (pkScript : list Z) (targetConfs heightHint : Z)
| VTXOCreatedNotification (vtxos : list ClientVTXO) (outflows : list RoundLedgerOutflow)
    (roundID : RoundID) (commitmentTxID : Hash) (batchExpiry createdHeight : Z)
    (operatorFee : Z) (operatorFeeType : string)
| RoundCompletedNotification (roundID : RoundID) (txid : Hash) (height : Z) (blockHash : Hash)
| RoundCheckpointedNotification (roundID : RoundID)
| StartTimeoutReq (key : RoundKeyStr) (phase : TimeoutPhase) (duration : Z)
| CancelTimeoutReq (key : RoundKeyStr) (phase : TimeoutPhase)
| ReleaseForfeitReservation (outpoints : list OutPoint) (roundID : option RoundID)
| DropCustomForfeitReservation (outpoints : list OutPoint)
| RoundFailedNotification (roundID : option RoundID) (reason : string) (recoverable : bool)
    (err : option error)
| TerminalJobFailedNotification (roundID : option RoundID) (outpoints : list OutPoint)
    (code : RoundFailureCode) (reason : string)
| QueryRoundStatusOutbox (roundID : RoundID).

(** ** States *)

Record ScheduledBatchWait := mkBatchWait { Opens : Z; Cutoff : Z; PlannedJoin : Z }.

(** What is carried through the signing ceremony once the transaction is
    validated. *)
Record Ceremony := mkCeremony {
  c_RoundID : RoundID;
  c_CommitmentTx : Packet;
  VTXOTreePaths : gmap Z Tree;
  c_SweepDelay : Z;
  FlowVersion : Z;
  ForfeitKey : option PublicKey;
  c_Intents : Intents;
  ClientTrees : gmap PublicKey Tree;
  BoardingInputIndices : gmap OutPoint Z;
  ForfeitMappings : gmap OutPoint ConnectorLeafInfo;
}.

Record InputSigSentState := mkInputSigSent {
  i_Ceremony : Ceremony;
  InputSigs : list BoardingInputSignature;
  ForfeitedVTXOs : list OutPoint;
  PendingFailure : option BoardingFailed;
  ReconcileProbes : Z;
}.

Inductive ClientState :=
| Idle
| PendingRoundAssembly (wait : option ScheduledBatchWait) (pools : Intents)
| IntentSent (intents : Intents) (admittedRoundID : RoundID)
| QuoteReceived (roundID : RoundID) (quote : option ClientQuote) (intents : Intents)
| RoundJoinedState (roundID : RoundID) (intents : Intents) (quote : option ClientQuote)
| CommitmentTxReceived (m : CommitmentTxBuilt) (intents : Intents) (quote : option ClientQuote)
| CommitmentTxValidated (c : Ceremony)
| NoncesSent (c : Ceremony) (sessions : gmap PublicKey Session)
| NoncesAggregatedState (c : Ceremony) (sessions : gmap PublicKey Session) (aggNonces : Nonces)
| PartialSigsSent (c : Ceremony) (sessions : gmap PublicKey Session)
| ForfeitSignaturesCollecting (c : Ceremony)
    (collected : gmap OutPoint ForfeitSignatureResponse)
| InputSigSent (s : InputSigSentState)
| Confirmed (txid : Hash) (height : Z) (blockHash : Hash) (confirmations : Z)
    (vtxos : list ClientVTXO)
| ClientFailed (reason : string) (err : option error) (recoverable : bool)
    (code : RoundFailureCode)
| RecoveryInitiatedState (outpoint : OutPoint) (sweepTxID : Hash) (reason : string).

Record Transition := mkTransition {
  NextState : ClientState;
  InternalEvent : list ClientEvent;
  Outbox : list ClientOutMsg;
}.
Definition selfLoop (s : ClientState) : Transition := mkTransition s [] [].

(** The zero round id. *)
Definition NoRound : RoundID := 0%N.

(** ** The environment *)

(** The persisted budget of an admitted attempt and its cutoff on the monotonic
    clock. *)
Record admissionBudget := mkBudget {
  bg_roundID : RoundID;
  Closed : bool;
  ExpiresAt : Z;
  cutoff : Z;
}.

(** What a registration that waits for its slot is told. *)
Inductive SlotAnswer :=
| SlotProceed
| SlotWait (wait : ScheduledBatchWait) (duration : Z).

Record Round := mkRound {
  r_RoundID : RoundID;
  r_StartHeight : Z;
  r_SweepDelay : Z;
  r_CommitmentTx : Packet;
  r_VTXOTreePaths : gmap Z Tree;
  r_Intents : Intents;
  r_FlowVersion : Z;
}.

Record Env := mkEnv {
  OperatorPubKey : option PublicKey;
  e_VTXOExitDelay : Z;
  MinVTXOAmountFloor : Z;
  VTXOTargetConfirmations : Z;
  e_MaxOperatorFee : Z;
  RoundKey : RoundKeyStr;
  RegistrationTimeout : Z;
  AdmissionTimeout : Z;
  ForfeitCollectionTimeout : Z;
  StatusReconcileTimeout : Z;
  StartHeight : Z;
  DisableJoinRequestAuth : bool;
  (** wall clock in nanoseconds, and the monotonic clock *)
  NowUnixNano : Z;
  NowMono : Z;
  e_StoredAmount : option (OutPoint → result error Z);
  waitForScheduledSlot : result error SlotAnswer;
  validateScheduledSend : result error unit;
  batchSlot : option N;
  DeriveNextKey : nat → result error PublicKey;
  deriveJoinAuthIdentifierKey : result error PublicKey;
  buildJoinRoundAuth : result error (list Z);
  ConstrainAdmissionDeadline : RoundID → Z → result error (bool * Z);
  e_Assets : AssetEnv;
  CreateSessions : list (PublicKey * Tree) → result error (list (PublicKey * Session * Nonces));
  RegisterAggNonces : Session → Nonces → result error unit;
  Sign : list (PublicKey * Session) → result error (list (PublicKey * PartialSigs));
  CleanupSessions : gmap PublicKey Session → option error;
  SignVTXOCollabInput : Packet → BoardingIntent → Z → result error Signature;
  CommitState : result error unit;
  e_Owner : OwnerEnv;
  SaveVTXOs : list ClientVTXO → result error unit;
}.

(** What a step wrote. *)
Inductive Effect :=
| AdmissionConstrained (roundID : RoundID) (expiresAt : Z)
| AdmissionClosed (roundID : RoundID)
| ScriptRegistered (script : list Z)
| SessionsCleaned (sessions : gmap PublicKey Session)
| StateCommitted (r : Round) (s : InputSigSentState)
| VTXOsSaved (vtxos : list ClientVTXO).

Record Step := mkStep {
  st_result : result error Transition;
  st_effects : list Effect;
  st_budget : option admissionBudget;
}.

Definition quote_env (env : Env) : QuoteEnv :=
  mkQuoteEnv (NowUnixNano env / 1000000000) (e_MaxOperatorFee env) (MinVTXOAmountFloor env)
    (e_StoredAmount env).

(** ** Failures *)

Definition failWithNotification (reason : string) (err : option error) (recoverable : bool)
    (roundID : option RoundID) : Transition :=
  mkTransition (ClientFailed reason err recoverable RoundFailureUnknown) []
    [RoundFailedNotification roundID reason recoverable err].

Definition rollbackOutbox (roundID : option RoundID) (forfeits : list ForfeitRequest) :
    list ClientOutMsg :=
  let '(standard, custom) := forfeitRollbackOutpoints forfeits in
  (if Nat.eqb (length standard) 0 then [] else [ReleaseForfeitReservation standard roundID]) ++
  (if Nat.eqb (length custom) 0 then [] else [DropCustomForfeitReservation custom]).

Definition failureOutbox (reason : string) (err : option error) (recoverable : bool)
    (roundID : option RoundID) (forfeits : list ForfeitRequest) : list ClientOutMsg :=
  RoundFailedNotification roundID reason recoverable err :: rollbackOutbox roundID forfeits.

Definition failBeforeForfeitSigning (reason : string) (err : option error) (recoverable : bool)
    (roundID : RoundID) (forfeits : list ForfeitRequest) : Transition :=
  mkTransition (ClientFailed reason err recoverable RoundFailureUnknown) []
    (failureOutbox reason err recoverable (Some roundID) forfeits).

Definition withFailureCode (t : Transition) (code : RoundFailureCode) : Transition :=
  match code, NextState t with
  | RoundFailureUnknown, _ => t
  | _, ClientFailed reason err recoverable _ =>
      mkTransition (ClientFailed reason err recoverable code) (InternalEvent t) (Outbox t)
  | _, _ => t
  end.

Definition is_release (m : ClientOutMsg) : bool :=
  match m with
  | ReleaseForfeitReservation _ _ | DropCustomForfeitReservation _ => true
  | _ => false
  end.
Definition is_job_failed (m : ClientOutMsg) : bool :=
  match m with TerminalJobFailedNotification _ _ _ _ => true | _ => false end.

Definition release_on (t : Transition) (roundID : option RoundID) (forfeits : list ForfeitRequest) :
    Transition :=
  match NextState t with
  | ClientFailed reason err recoverable code =>
      let rollback := rollbackOutbox roundID forfeits in
      if Nat.eqb (length rollback) 0 then t
      else
        let alreadyReleased := existsb is_release (Outbox t) in
        let alreadyNotified := existsb is_job_failed (Outbox t) in
        let outbox := if alreadyReleased then Outbox t else rollback ++ Outbox t in
        let outbox := if IsTerminalForJob code && negb alreadyNotified
                      then outbox ++ [TerminalJobFailedNotification roundID
                                        (forfeitOutpoints forfeits) code reason]
                      else outbox in
        mkTransition (NextState t) (InternalEvent t) outbox
  | _ => t
  end.

Definition releaseForfeitsOnFailure (r : result error Transition) (roundID : option RoundID)
    (forfeits : list ForfeitRequest) : result error Transition :=
  match r with
  | Err e =>
      if Nat.eqb (length (rollbackOutbox roundID forfeits)) 0 then Err e
      else Ok (release_on (failWithNotification e (Some e) false roundID) roundID forfeits)
  | Ok t => Ok (release_on t roundID forfeits)
  end.

(** The state a delivered failure leads to. *)
Definition failed_with (f : BoardingFailed) : ClientState :=
  ClientFailed (bf_Reason f) (bf_Error f) (bf_Recoverable f) (bf_FailureCode f).

(** ** The admission budget *)

Definition expired (b : admissionBudget) (env : Env) : bool :=
  Closed b || (ExpiresAt b <=? NowUnixNano env) || negb (NowMono env <? cutoff b).

Definition admissionDeadlinePoll : Z := 1000000000.
Definition admissionWakeup (roundID : RoundID) : ClientOutMsg :=
  StartTimeoutReq (IdKey roundID) TimeoutPhaseAdmission admissionDeadlinePoll.

Definition constrainAdmission (env : Env) (b : option admissionBudget) (roundID : RoundID)
    (expiresAt : Z) : result error admissionBudget :=
  let* d := wrap "persist admission deadline: "
              (ConstrainAdmissionDeadline env roundID expiresAt) in
  let cut := NowMono env + (d.2 - NowUnixNano env) in
  let cut := match b with
             | Some old => if cutoff old <? cut then cutoff old else cut
             | None => cut
             end in
  Ok (mkBudget roundID d.1 d.2 cut).

Definition signingSessionsFromState (s : ClientState) : gmap PublicKey Session :=
  match s with
  | NoncesSent _ sessions | NoncesAggregatedState _ sessions _ => sessions
  | _ => ∅
  end.

Definition finishAdmissionTransition (st : Step) (roundID : RoundID)
    (forfeits : list ForfeitRequest) : Step :=
  let r := releaseForfeitsOnFailure (st_result st) (Some roundID) forfeits in
  match r, st_budget st with
  | Ok t, Some b =>
      match NextState t with
      | ClientFailed _ _ _ _ =>
          mkStep r (st_effects st ++ [AdmissionClosed (bg_roundID b)]) (st_budget st)
      | _ => mkStep r (st_effects st) (st_budget st)
      end
  | _, _ => mkStep r (st_effects st) (st_budget st)
  end.

Definition processPreCheckpointEvent (env : Env) (state : ClientState) (event : ClientEvent)
    (b : option admissionBudget) (roundID : RoundID) (forfeits : list ForfeitRequest)
    (process : Step) : Step :=
  let wake := match event with AdmissionTimedOut r => Some r | _ => None end in
  let stale := match wake with
               | Some r => from_option (λ b, negb (N.eqb r (bg_roundID b))) true b
               | None => false
               end in
  if stale then mkStep (Ok (selfLoop state)) [] b
  else
    match b with
    | Some budget =>
        if expired budget env
        then
          let sessions := signingSessionsFromState state in
          finishAdmissionTransition
            (mkStep (Ok (failWithNotification "round admission deadline expired"
                           (CleanupSessions env sessions) true (Some (bg_roundID budget))))
               [SessionsCleaned sessions] b) (bg_roundID budget) forfeits
        else
          match wake with
          | Some _ => mkStep (Ok (mkTransition state [] [admissionWakeup (bg_roundID budget)])) [] b
          | None => finishAdmissionTransition process roundID forfeits
          end
    | None => finishAdmissionTransition process roundID forfeits
    end.

(** ** Timeouts *)

Definition cancelForfeitTimeout (roundID : RoundID) : list ClientOutMsg :=
  [CancelTimeoutReq (IdKey roundID) TimeoutPhaseForfeitCollection].

Definition statusReconcileMaxBackoffShift : Z := 4.
Definition statusReconcileProbeOutbox (env : Env) (roundID : RoundID) (probes : Z) :
    list ClientOutMsg :=
  let shift := Z.min probes statusReconcileMaxBackoffShift in
  [QueryRoundStatusOutbox roundID;
   StartTimeoutReq (IdKey roundID) TimeoutPhaseStatusReconcile
     (int64 (Z.shiftl (StatusReconcileTimeout env) shift))].

Definition cancelStatusReconcileTimeout (roundID : RoundID) : ClientOutMsg :=
  CancelTimeoutReq (IdKey roundID) TimeoutPhaseStatusReconcile.

Definition appendReconcileDisarm (env : Env) (t : Transition) (roundID : RoundID) : Transition :=
  if StatusReconcileTimeout env <=? 0 then t
  else mkTransition (NextState t) (InternalEvent t)
         (Outbox t ++ [cancelStatusReconcileTimeout roundID]).

Section Handlers.
Context {TX : Txscript} {MS : Musig} {RS : RoundScripts} {RK : RoundKeys}.

(** ** Assembly *)

Definition isEmpty (i : Intents) : bool :=
  Nat.eqb (length (Boarding i)) 0 && Nat.eqb (length (Forfeits i)) 0 &&
  Nat.eqb (length (VTXOs i)) 0 && Nat.eqb (length (Leaves i)) 0.

Definition process_Idle (event : ClientEvent) : Transition :=
  match event with
  | IntentPackage i =>
      if isEmpty i then selfLoop Idle
      else mkTransition (PendingRoundAssembly None
             (mkIntents (Boarding i) (VTXOs i) (Leaves i) (Forfeits i) [])) [] []
  | _ => selfLoop Idle
  end.

(** Deposits once per outpoint, and forfeits likewise. *)
Fixpoint merge_boarding (seen : list OutPoint) (new : list BoardingIntent) : list BoardingIntent :=
  match new with
  | [] => []
  | b :: new =>
      if bool_decide (bi_Outpoint b ∈ seen) then merge_boarding seen new
      else b :: merge_boarding (bi_Outpoint b :: seen) new
  end.
Fixpoint merge_forfeits (seen : list OutPoint) (new : list ForfeitRequest) : list ForfeitRequest :=
  match new with
  | [] => []
  | f :: new =>
      match VTXOOutpoint f with
      | None => merge_forfeits seen new
      | Some op =>
          if bool_decide (op ∈ seen) then merge_forfeits seen new
          else f :: merge_forfeits (op :: seen) new
      end
  end.

(** The scripts of all requests, of the untagged ones, and the sources of the
    tagged ones. *)
Record SeenVTXOs := mkSeen {
  vtxoScriptSeen : list (list Z);
  untaggedVTXOScriptSeen : list (list Z);
  refreshSourceSeen : list OutPoint;
}.
Definition see (s : SeenVTXOs) (script : list Z) (source : option OutPoint) : SeenVTXOs :=
  match source with
  | None => mkSeen (script :: vtxoScriptSeen s) (script :: untaggedVTXOScriptSeen s) (refreshSourceSeen s)
  | Some op => mkSeen (script :: vtxoScriptSeen s) (untaggedVTXOScriptSeen s) (op :: refreshSourceSeen s)
  end.
Fixpoint see_all (s : SeenVTXOs) (vtxos : list VTXORequest) : result error SeenVTXOs :=
  match vtxos with
  | [] => Ok s
  | v :: vtxos =>
      let* script := wrap "derive VTXO pkScript: " (EffectivePkScript v) in
      see_all (see s script (RefreshSourceOutpoint v)) vtxos
  end.
Fixpoint merge_vtxos (s : SeenVTXOs) (new : list VTXORequest) : result error (list VTXORequest) :=
  match new with
  | [] => Ok []
  | v :: new =>
      let* script := wrap "derive new VTXO pkScript: " (EffectivePkScript v) in
      let duplicate := match RefreshSourceOutpoint v with
        | Some source => bool_decide (source ∈ refreshSourceSeen s) ||
                         bool_decide (script ∈ untaggedVTXOScriptSeen s)
        | None => bool_decide (script ∈ vtxoScriptSeen s)
        end in
      if duplicate then merge_vtxos s new
      else
        let* rest := merge_vtxos (see s script (RefreshSourceOutpoint v)) new in
        Ok (v :: rest)
  end.

Definition merge_package (p i : Intents) : result error Intents :=
  let* seen := see_all (mkSeen [] [] []) (VTXOs p) in
  let* vtxos := merge_vtxos seen (VTXOs i) in
  Ok (mkIntents (Boarding p ++ merge_boarding (bi_Outpoint <$> Boarding p) (Boarding i))
        (VTXOs p ++ vtxos) (Leaves p ++ Leaves i)
        (Forfeits p ++ merge_forfeits (forfeitOutpoints (Forfeits p)) (Forfeits i)) []).

(** Missing signing keys are derived, in order. *)
Definition set_signing_key (r : VTXORequest) (k : PublicKey) : VTXORequest :=
  mkVTXORequest (v_Amount r) (v_IsChange r) (FixedAmount r) (AssetRef r) (AssetAmount r)
    (v_PolicyTemplate r) (v_PkScript r) (OwnerPubKey r) (Some k) (v_Origin r) (RefreshSourceOutpoint r).
Definition ensureVTXOSigningKeys (derive : nat → result error PublicKey) (l : list VTXORequest) :
    result error (list VTXORequest) :=
  let* reqs := index_results (λ i r,
    match SigningKey r with
    | Some _ => Ok r
    | None =>
        let* k := wrap "derive signing key for vtxo: " (derive (Z.to_nat i)) in
        Ok (set_signing_key r k)
    end) 0 l in
  Ok (snd <$> reqs).

Definition outpoint_le (a b : OutPoint) : bool :=
  (op_Hash a <? op_Hash b)%N || N.eqb (op_Hash a) (op_Hash b) && (op_Index a <=? op_Index b).
Fixpoint insert_outpoint (x : OutPoint) (l : list OutPoint) : list OutPoint :=
  match l with
  | [] => [x]
  | y :: l => if outpoint_le x y then x :: y :: l else y :: insert_outpoint x l
  end.
Definition sortedForfeitRequests (forfeits : list ForfeitRequest) :
    result error (list ForfeitRequest) :=
  guard* forallb (λ f, bool_decide (is_Some (VTXOOutpoint f))) forfeits
    else "forfeit request has nil outpoint" in
  let requestByOP := forfeitRequestMap forfeits in
  Ok (omap (λ op, requestByOP !! op) (foldr insert_outpoint [] (forfeitOutpoints forfeits))).

Definition total_of (l : list Z) : Z := foldl (λ t a, int64 (t + a)) 0 l.

(** The sum of the outputs; a leave request is non-nil. *)
Definition leave_total (total : Z) (leaves : list (option LeaveRequest)) : option Z :=
  foldl (λ t l, t ← t; out ← leave_output l; Some (int64 (t + Value out))) (Some total) leaves.

Definition recoverable_failure (reason : string) (err : error) : Transition :=
  failWithNotification reason (Some err) true None.

(** The inputs bring at least what the outputs ask for. *)
Definition check_balance (env : Env) (p : Intents) : result Transition unit :=
  let boarding := total_of (bi_Amount <$> Boarding p) in
  let outputs := total_of (v_Amount <$> VTXOs p) in
  match computeTotalForfeitAmount (e_StoredAmount env) (Forfeits p) with
  | Err e => Err (recoverable_failure "failed to compute forfeit amount" e)
  | Ok forfeitAmt =>
      let totalInput := int64 (boarding + forfeitAmt) in
      match leave_total outputs (Leaves p) with
      | None => Err (recoverable_failure "leave request has nil output" "leave request has nil output")
      | Some totalOutput =>
          if totalOutput =? 0
          then Err (recoverable_failure "no VTXO output amount" "total VTXO output is zero")
          else if totalInput <? totalOutput
          then Err (recoverable_failure "outputs exceed inputs" "total output exceeds total input")
          else Ok tt
      end
  end.

Definition fail_result {A} (reason : string) (r : result error A) : result Transition A :=
  match r with Ok x => Ok x | Err e => Err (recoverable_failure reason e) end.

(** The request to join, when everything it needs is there. *)
Definition build_join (env : Env) (p : Intents) : result Transition (Intents * ClientOutMsg) :=
  let* _ := check_balance env p in
  let* vtxoReqs := fail_result "failed to derive vtxo signing keys"
                     (ensureVTXOSigningKeys (DeriveNextKey env) (VTXOs p)) in
  let* forfeitReqs := fail_result "invalid forfeit requests" (sortedForfeitRequests (Forfeits p)) in
  let '(vtxoReqs, leaveReqs) := designateChangeMarker vtxoReqs (Leaves p) in
  let intent := mkIntents (Boarding p) vtxoReqs leaveReqs (Forfeits p) [] in
  let* identifier := fail_result "failed to derive join auth identifier"
                       (deriveJoinAuthIdentifierKey env) in
  let* joinAuth := if DisableJoinRequestAuth env then Ok None
                   else
                     let* auth := fail_result "failed to build round auth"
                                    (wrap "join auth: " (buildJoinRoundAuth env)) in
                     Ok (Some auth) in
  let* _ := fail_result "scheduled registration unavailable" (validateScheduledSend env) in
  Ok (intent, JoinRoundRequest (batchSlot env) (bi_Request <$> Boarding p) vtxoReqs forfeitReqs
                leaveReqs identifier joinAuth).

Definition process_PendingRoundAssembly (env : Env) (wait : option ScheduledBatchWait) (p : Intents)
    (event : ClientEvent) : Transition :=
  match event with
  | IntentPackage i =>
      if isEmpty i then selfLoop (PendingRoundAssembly wait p)
      else
        match merge_package p i with
        | Err e => recoverable_failure "invalid VTXO policy" e
        | Ok p' => mkTransition (PendingRoundAssembly wait p') [] []
        end
  | IntentRequested =>
      match waitForScheduledSlot env with
      | Err e => recoverable_failure "scheduled registration unavailable" e
      | Ok (SlotWait w d) =>
          mkTransition (PendingRoundAssembly (Some w) p) []
            [StartTimeoutReq (RoundKey env) TimeoutPhaseScheduledRegistration d]
      | Ok SlotProceed =>
          match build_join env p with
          | Err t => t
          | Ok (intent, join) =>
              mkTransition (IntentSent intent NoRound) []
                (join :: if 0 <? RegistrationTimeout env
                         then [StartTimeoutReq (RoundKey env) TimeoutPhaseRegistration
                                 (RegistrationTimeout env)]
                         else [])
          end
      end
  | BoardingFailedEvent f => mkTransition (failed_with f) [] []
  | _ => selfLoop (PendingRoundAssembly wait p)
  end.

(** ** Admission and quotes *)

Definition ok_step (b : option admissionBudget) (t : Transition) : Step := mkStep (Ok t) [] b.

Definition decision_event (roundID : RoundID) (d : Decision_) : ClientEvent :=
  match d with
  | QuoteAccepted_ id => QuoteAccepted roundID id
  | QuoteRejected_ id reason => QuoteRejected roundID id reason
  end.

(** The quote is kept and judged. *)
Definition receive_quote (env : Env) (roundID : RoundID) (i : Intents) (q : option ClientQuote) :
    Transition :=
  mkTransition (QuoteReceived roundID q i)
    [decision_event roundID (evaluateQuote (quote_env env) i q)] [].

Definition process_RoundJoined (env : Env) (b : option admissionBudget) (i : Intents)
    (roundID : RoundID) : Step :=
  let joined outbox :=
    mkTransition (IntentSent i roundID) []
      (outbox ++ [CancelTimeoutReq (RoundKey env) TimeoutPhaseRegistration]) in
  if 0 <? AdmissionTimeout env
  then
    let expiresAt := NowUnixNano env + AdmissionTimeout env in
    match constrainAdmission env b roundID expiresAt with
    | Err e => ok_step b (failWithNotification "cannot persist round admission" (Some e) true (Some roundID))
    | Ok budget =>
        let effects := [AdmissionConstrained roundID expiresAt] in
        if expired budget env
        then mkStep (Ok (failWithNotification "round admission already expired" None true (Some roundID)))
               effects (Some budget)
        else mkStep (Ok (joined [admissionWakeup roundID])) effects (Some budget)
    end
  else ok_step b (joined []).

Definition process_IntentSent (env : Env) (b : option admissionBudget) (i : Intents)
    (admitted : RoundID) (event : ClientEvent) : Step :=
  match event with
  | RoundJoined roundID => process_RoundJoined env b i roundID
  | RegistrationTimedOut =>
      if negb (N.eqb admitted NoRound) then ok_step b (selfLoop (IntentSent i admitted))
      else
        let reason := "round admission timed out" in
        let err := Some "server did not acknowledge join request before registration timeout" in
        ok_step b (mkTransition (ClientFailed reason err true RoundFailureUnknown) []
                     (failureOutbox reason err true None (Forfeits i)))
  | JoinRoundQuoteReceived roundID quote =>
      if N.eqb admitted NoRound
      then ok_step b (failWithNotification "quote arrived before admission"
             (Some "no admitted RoundID on FSM") false (Some roundID))
      else if negb (N.eqb roundID admitted)
      then ok_step b (failWithNotification "quote round_id mismatch"
             (Some "quote round_id does not match admitted round_id") false (Some roundID))
      else
        match quote with
        | None => mkStep (Err "nil pointer dereference") [] b
        | Some _ => ok_step b (receive_quote env roundID i quote)
        end
  | BoardingFailedEvent f =>
      ok_step b (mkTransition (failed_with f) []
        (failureOutbox (bf_Reason f) (bf_Error f) (bf_Recoverable f) None (Forfeits i)))
  | _ => ok_step b (selfLoop (IntentSent i admitted))
  end.

(** The pass of a quote, and whether another supersedes it. *)
Definition currentPass (q : option ClientQuote) : Z := from_option SealPass 0 q.
Definition supersedes (new old : option ClientQuote) : bool :=
  match new with
  | None => false
  | Some q => currentPass old <? SealPass q
  end.

Definition quoted_intents (i : Intents) (q : option ClientQuote) : Intents :=
  match q with
  | Some q =>
      if Nat.eqb (length (LeaveQuotes q)) 0 then i
      else mkIntents (Boarding i) (VTXOs i) (Leaves i) (Forfeits i) (lq_AmountSat <$> LeaveQuotes q)
  | None => i
  end.

Definition process_QuoteReceived (env : Env) (roundID : RoundID) (q : option ClientQuote)
    (i : Intents) (event : ClientEvent) : result error Transition :=
  match event with
  | JoinRoundQuoteReceived r quote =>
      Ok (if supersedes quote q then receive_quote env r i quote
          else selfLoop (QuoteReceived roundID q i))
  | QuoteAccepted r quoteID =>
      match q with
      | None => Err "nil pointer dereference"
      | Some quote =>
          if (0 <? QuoteExpiresAt quote) && (QuoteExpiresAt quote <=? NowUnixNano env / 1000000000)
          then Ok (failWithNotification "round quote acceptance expired" None true (Some roundID))
          else Ok (mkTransition (RoundJoinedState r (quoted_intents i q) q) []
                     [JoinRoundAcceptOutbox r quoteID])
      end
  | QuoteRejected r quoteID reason =>
      Ok (mkTransition (ClientFailed reason None false RoundFailureUnknown) []
            (rollbackOutbox (Some roundID) (Forfeits i) ++ [JoinRoundRejectOutbox r quoteID reason]))
  | BoardingFailedEvent f => Ok (mkTransition (failed_with f) [] [])
  | _ => Ok (selfLoop (QuoteReceived roundID q i))
  end.

Definition process_RoundJoinedState (env : Env) (roundID : RoundID) (i : Intents)
    (q : option ClientQuote) (event : ClientEvent) : Transition :=
  match event with
  | CommitmentTxBuiltEvent m =>
      if negb (N.eqb (b_RoundID m) roundID)
      then failWithNotification "commitment round_id mismatch"
             (Some "commitment round_id does not match admitted round_id") false (Some roundID)
      else mkTransition (CommitmentTxReceived m i q) [event] []
  | JoinRoundQuoteReceived r quote =>
      if negb (supersedes quote q) then selfLoop (RoundJoinedState roundID i q)
      else if negb (N.eqb r roundID)
      then failWithNotification "reseal round_id mismatch"
             (Some "reseal quote round_id does not match admitted round_id") false (Some roundID)
      else receive_quote env r i quote
  | BoardingFailedEvent f => mkTransition (failed_with f) [] []
  | _ => selfLoop (RoundJoinedState roundID i q)
  end.

(** ** The commitment transaction *)

(** How a check fails: with a failed state, or with an error of the machine. *)
Inductive Verdict :=
| Reject (reason : string) (err : error) (recoverable : bool)
| Broken (err : error).

(** The first tree that holds the request; the last error when none does. *)
Fixpoint find_vtxo (trees : list (Z * Tree)) (req : VTXORequest) (amount : Z) (key : PublicKey)
    (last : option error) : result (option error) Tree :=
  match trees with
  | [] => Err last
  | p :: trees =>
      match validateRequestedVTXO p.2 req amount key with
      | Ok t => Ok t
      | Err e => find_vtxo trees req amount key (Some e)
      end
  end.

Definition with_sweep (t : Tree) (key : option PublicKey) (delay : Z) : Tree :=
  mkTree (Root t) (BatchOutpoint t) (BatchOutput t) (SweepTapscriptRoot t) key delay (AssetContext t).

(** The paths of the requests, by signer; the scripts registered on the way. *)
Fixpoint client_trees (env : Env) (m : CommitmentTxBuilt) (q : option ClientQuote)
    (key : PublicKey) (i : nat) (reqs : list VTXORequest) (trees : gmap PublicKey Tree)
    (effects : list Effect) : (Verdict + gmap PublicKey Tree) * list Effect :=
  match reqs with
  | [] => (inr trees, effects)
  | req :: reqs =>
      match quoteVTXOAmount q i req with
      | Err e => (inl (Broken e), effects)
      | Ok amount =>
          match find_vtxo (map_to_list (b_VTXOTreePaths m)) req amount key None with
          | Err None => (inl (Reject "no client tree found for VTXO request" "VTXO tree not found" false), effects)
          | Err (Some e) => (inl (Reject "VTXT validation failed for VTXO request" e false), effects)
          | Ok t =>
              match verifyRequestedAssetVTXO (e_Assets env) req (UnsignedTx (b_Tx m)) t
                      (AssetLeafPackages m) with
              | Err e => (inl (Reject "asset VTXO verification failed" e false), effects)
              | Ok t =>
                  match registerRequestedAssetVTXO (e_Assets env) req t with
                  | Err e => (inl (Reject "asset VTXO ownership registration failed" e false), effects)
                  | Ok registered =>
                      let effects := effects ++ from_option (λ s, [ScriptRegistered s]) [] registered in
                      match SigningKey req with
                      | None => (inl (Broken "nil pointer dereference"), effects)
                      | Some k =>
                          client_trees env m q key (S i) reqs
                            (<[k := with_sweep t (b_SweepKey m) (b_SweepDelay m)]> trees) effects
                      end
                  end
              end
          end
      end
  end.

(** The operator's key of this round, which every request is checked for; without one
    only a round without requests gets further. *)
Definition requested_paths (env : Env) (m : CommitmentTxBuilt) (q : option ClientQuote)
    (reqs : list VTXORequest) : (Verdict + gmap PublicKey Tree) * list Effect :=
  match (match TreeCosignKey m with Some k => Some k | None => OperatorPubKey env end), reqs with
  | Some key, _ => client_trees env m q key 0 reqs ∅ []
  | None, [] => (inr ∅, [])
  | None, _ => (inl (Broken "nil pointer dereference"), [])
  end.

(** A check of the transaction: on an error the round fails. *)
Definition or_reject {A} (reason : string) (recoverable : bool) (r : result error A) :
    result Verdict A :=
  match r with Ok x => Ok x | Err e => Err (Reject reason e recoverable) end.
Definition or_broken {A} (r : result error A) : result Verdict A :=
  match r with Ok x => Ok x | Err e => Err (Broken e) end.

(** The checks before the paths: deposits, leaves, trees and the sweep policy. *)
Definition check_outputs (env : Env) (m : CommitmentTxBuilt) (i : Intents)
    (q : option ClientQuote) : result Verdict (gmap OutPoint Z) :=
  let tx := UnsignedTx (b_Tx m) in
  let* _ := or_reject "invalid round sweep delay" false
              (ValidateDelayParameters (b_SweepDelay m) (e_VTXOExitDelay env)) in
  let* indices := if Nat.eqb (length (Boarding i)) 0 then Ok ∅
                  else or_reject "commitment tx validation failed" true
                         (validateBoardingInputs tx (Boarding i)) in
  let* _ := if Nat.eqb (length (Leaves i)) 0 then Ok tt
            else
              let* amounts := or_broken (quoteLeaveAmounts q (Leaves i)) in
              or_reject "leave output validation failed" true
                (validateLeaveOutputs tx (Leaves i) amounts) in
  let* _ := or_reject "VTXO tree commitment binding failed" false
              (validateVTXOTreeBinding tx (b_VTXOTreePaths m)) in
  let* _ := or_reject "invalid round sweep policy" false
              (validateRoundSweepPolicy (b_SweepKey m) (b_SweepDelay m) (b_VTXOTreePaths m)) in
  Ok indices.

(** The checks after the paths: anchors, connectors and forfeit amounts. *)
Definition check_forfeits (env : Env) (m : CommitmentTxBuilt) (i : Intents)
    (mappings : gmap OutPoint ConnectorLeafInfo) : result Verdict (gmap OutPoint ConnectorLeafInfo) :=
  let tx := UnsignedTx (b_Tx m) in
  let* _ := or_reject "anchor output validation failed" false
              (for_each (λ p, ValidateAnchors p.2) (map_to_list (b_VTXOTreePaths m))) in
  let connectorKey := match ConnectorOperatorKey m with
                      | Some k => Some k | None => OperatorPubKey env end in
  let* _ := or_reject "connector ancestry validation failed" false
              (validateConnectorAncestry tx connectorKey mappings) in
  or_broken (wrap "populate forfeit amounts: " (populateForfeitMappingAmounts mappings (Forfeits i))).

Definition validate_commitment (env : Env) (m : CommitmentTxBuilt) (i : Intents)
    (q : option ClientQuote) (mappings : gmap OutPoint ConnectorLeafInfo) :
    result Verdict Ceremony * list Effect :=
  match check_outputs env m i q with
  | Err v => (Err v, [])
  | Ok indices =>
      match requested_paths env m q (VTXOs i) with
      | (inl v, effects) => (Err v, effects)
      | (inr trees, effects) =>
          match check_forfeits env m i mappings with
          | Err v => (Err v, effects)
          | Ok forfeits =>
              (Ok (mkCeremony (b_RoundID m) (b_Tx m) (b_VTXOTreePaths m) (b_SweepDelay m)
                     (b_FlowVersion m) (b_ForfeitKey m) i trees indices forfeits), effects)
          end
      end
  end.

Definition process_CommitmentTxReceived (env : Env) (b : option admissionBudget)
    (m : CommitmentTxBuilt) (i : Intents) (q : option ClientQuote) (event : ClientEvent) : Step :=
  match event with
  | CommitmentTxBuiltEvent evt =>
      match validate_commitment env m i q (b_ForfeitMappings evt) with
      | (Err (Reject reason err recoverable), effects) =>
          mkStep (Ok (failBeforeForfeitSigning reason (Some err) recoverable (b_RoundID m) (Forfeits i)))
            effects b
      | (Err (Broken err), effects) => mkStep (Err err) effects b
      | (Ok c, effects) =>
          mkStep (Ok (mkTransition (CommitmentTxValidated c) [GenerateNonces] [])) effects b
      end
  | BoardingFailedEvent f =>
      ok_step b (withFailureCode
        (failBeforeForfeitSigning (bf_Reason f) (bf_Error f) (bf_Recoverable f) (b_RoundID m) (Forfeits i))
        (bf_FailureCode f))
  | _ => ok_step b (selfLoop (CommitmentTxReceived m i q))
  end.


(** ** The signing ceremony *)

(** Every handler of a failure the operator delivers. *)
Definition fail_delivered (b : option admissionBudget) (f : BoardingFailed) : Step :=
  ok_step b (mkTransition (failed_with f) [] []).

(** The timeout leads; every mapping then asks its VTXO for a forfeit. *)
Definition forfeit_requests (env : Env) (c : Ceremony) (forfeitScript : list Z) :
    list ClientOutMsg :=
  let forfeitReqs := forfeitRequestMap (Forfeits (c_Intents c)) in
  StartTimeoutReq (IdKey (c_RoundID c)) TimeoutPhaseForfeitCollection (ForfeitCollectionTimeout env) ::
  ((λ p, ForfeitRequestToVTXO p.1 (c_RoundID c) p.2 forfeitScript
           (forfeitReqs !! p.1 ≫= f_ForfeitSpend)) <$> map_to_list (ForfeitMappings c)).

Definition collect_forfeits (env : Env) (c : Ceremony) (forfeitScript : list Z) : Transition :=
  mkTransition (ForfeitSignaturesCollecting c ∅) [] (forfeit_requests env c forfeitScript).

(** One job for every request; a signer signs one path. *)
Fixpoint session_jobs (seen : list PublicKey) (trees : gmap PublicKey Tree)
    (reqs : list VTXORequest) : result error (list (PublicKey * Tree)) :=
  match reqs with
  | [] => Ok []
  | req :: reqs =>
      match SigningKey req with
      | None => Err "nil pointer dereference"
      | Some k =>
          guard* negb (bool_decide (k ∈ seen)) else "duplicate signer key" in
          match trees !! k with
          | None => Err "no client tree for signer key"
          | Some t =>
              let* jobs := session_jobs (k :: seen) trees reqs in
              Ok ((k, t) :: jobs)
          end
      end
  end.

(** A map filled in the order of a list. *)
Definition collect {A} (l : list (PublicKey * A)) : gmap PublicKey A :=
  foldl (λ m p, <[p.1 := p.2]> m) ∅ l.

Definition process_CommitmentTxValidated (env : Env) (b : option admissionBudget) (c : Ceremony)
    (event : ClientEvent) : Step :=
  match event with
  | GenerateNonces =>
      if Nat.eqb (length (VTXOs (c_Intents c))) 0 && negb (Nat.eqb (length (Leaves (c_Intents c))) 0)
      then
        ok_step b
          match forfeitPenaltyScript (ForfeitKey c) with
          | Err e => failBeforeForfeitSigning "invalid round forfeit key" (Some e) false
                       (c_RoundID c) (Forfeits (c_Intents c))
          | Ok script => collect_forfeits env c script
          end
      else
        let r :=
          let* jobs := session_jobs [] (ClientTrees c) (VTXOs (c_Intents c)) in
          let* results := wrap "failed to create signing sessions: " (CreateSessions env jobs) in
          let sessions := collect (fst <$> results) in
          let allNonces := collect ((λ p, (p.1.1, p.2)) <$> results) in
          Ok (mkTransition (NoncesSent c sessions) [] [SubmitNoncesRequest (c_RoundID c) allNonces]) in
        mkStep r [] b
  | BoardingFailedEvent f => fail_delivered b f
  | _ => ok_step b (selfLoop (CommitmentTxValidated c))
  end.

(** [errors.Join] of an error and one that may be nil. *)
Definition join_errors (e : error) (other : option error) : error :=
  from_option (λ o, e +:+ String (Ascii.ascii_of_nat 10) o) e other.

Definition process_NoncesSent (env : Env) (b : option admissionBudget) (c : Ceremony)
    (sessions : gmap PublicKey Session) (event : ClientEvent) : Step :=
  match event with
  | NoncesAggregated _ aggNonces =>
      match for_each (λ p, RegisterAggNonces env p.2 aggNonces) (map_to_list sessions) with
      | Err e => mkStep (Err (join_errors ("failed to register combined nonces: " +:+ e)
                                (CleanupSessions env sessions)))
                   [SessionsCleaned sessions] b
      | Ok _ => ok_step b (mkTransition (NoncesAggregatedState c sessions aggNonces)
                             [GeneratePartialSigs] [])
      end
  | BoardingFailedEvent f =>
      mkStep (Ok (mkTransition (failed_with f) [] [])) [SessionsCleaned sessions] b
  | _ => ok_step b (selfLoop (NoncesSent c sessions))
  end.

(** Sessions in the order of their keys. *)
Fixpoint insert_session (x : PublicKey * Session) (l : list (PublicKey * Session)) :
    list (PublicKey * Session) :=
  match l with
  | [] => [x]
  | y :: l => if (x.1 <=? y.1)%N then x :: y :: l else y :: insert_session x l
  end.

Definition process_NoncesAggregated (env : Env) (b : option admissionBudget) (c : Ceremony)
    (sessions : gmap PublicKey Session) (aggNonces : Nonces) (event : ClientEvent) : Step :=
  match event with
  | GeneratePartialSigs =>
      let r :=
        let* results := wrap "failed to generate partial signatures: "
          (Sign env (foldr insert_session [] (map_to_list sessions))) in
        Ok (mkTransition (PartialSigsSent c sessions) []
              [SubmitPartialSigRequest (c_RoundID c) (collect results)]) in
      mkStep r [] b
  | BoardingFailedEvent f => fail_delivered b f
  | _ => ok_step b (selfLoop (NoncesAggregatedState c sessions aggNonces))
  end.

(** ** Signatures *)

(** A map rewritten value by value, up to the first error. *)
Definition map_values {K A B} `{Countable K} (f : A → result error B) (m : gmap K A) :
    result error (gmap K B) :=
  let* l := map_results (λ p, let* y := f p.2 in Ok (p.1, y)) (map_to_list m) in
  Ok (list_to_map l).

(** Every tree gets the signatures of the operator and verifies. *)
Definition sign_trees (sigs : gmap Hash Signature) (trees : gmap Z Tree) : result error (gmap Z Tree) :=
  map_values (λ t, ValidateAndSubmitSignatures (Some t) (SerializeSignature <$> sigs)) trees.

(** The paths of the client, which were copied out of the trees, get them too. *)
Definition sign_client_trees (sigs : gmap Hash Signature) (roundID : RoundID)
    (trees : gmap PublicKey Tree) : result Transition (gmap PublicKey Tree) :=
  let fails reason e := failWithNotification reason (Some e) false (Some roundID) in
  let submit (p : PublicKey * Tree) :=
    match SubmitTreeSigs p.2 sigs with
    | Err e => Err (fails "failed to propagate sigs to client tree" e)
    | Ok t =>
        match VerifySigned t with
        | Err e => Err (fails "client tree sig verification failed" e)
        | Ok _ => Ok (p.1, t)
        end
    end in
  let* l := map_results submit (map_to_list trees) in
  Ok (list_to_map l).

Definition with_trees (c : Ceremony) (paths : gmap Z Tree) (clients : gmap PublicKey Tree) :
    Ceremony :=
  mkCeremony (c_RoundID c) (c_CommitmentTx c) paths (c_SweepDelay c) (FlowVersion c)
    (ForfeitKey c) (c_Intents c) clients (BoardingInputIndices c) (ForfeitMappings c).

(** The state after the checkpoint keeps neither indices nor mappings. *)
Definition input_sig_sent (c : Ceremony) (sigs : list BoardingInputSignature)
    (forfeited : list OutPoint) : InputSigSentState :=
  mkInputSigSent
    (mkCeremony (c_RoundID c) (c_CommitmentTx c) (VTXOTreePaths c) (c_SweepDelay c)
       (FlowVersion c) (ForfeitKey c) (c_Intents c) (ClientTrees c) ∅ ∅)
    sigs forfeited None 0.

Definition adopt (b : BoardingIntent) : BoardingIntent :=
  mkBoardingIntent (bi_Outpoint b) (bi_Amount b) (bi_Request b) (bi_AssetRef b) (bi_KeyDesc b)
    (bi_OperatorKey b) (bi_ExitDelay b) BoardingStatusAdopted.
Definition checkpointRound (env : Env) (c : Ceremony) : Round :=
  let i := c_Intents c in
  mkRound (c_RoundID c) (StartHeight env) (c_SweepDelay c) (c_CommitmentTx c) (VTXOTreePaths c)
    (mkIntents (adopt <$> Boarding i) (VTXOs i) (Leaves i) (Forfeits i) (QuotedLeaveAmounts i))
    (FlowVersion c).

Definition arm_reconcile (env : Env) (roundID : RoundID) : list ClientOutMsg :=
  if 0 <? StatusReconcileTimeout env
  then [StartTimeoutReq (IdKey roundID) TimeoutPhaseStatusReconcile (StatusReconcileTimeout env)]
  else [].

Definition watch_commitment (env : Env) (c : Ceremony) : ClientOutMsg :=
  let tx := UnsignedTx (c_CommitmentTx c) in
  RegisterConfirmationRequest (ForfeitTxHash tx) (confirmationWatchScript tx (VTXOTreePaths c))
    (VTXOTargetConfirmations env) (StartHeight env).

(** The checkpoint is written before any message leaves. *)
Definition checkpoint (env : Env) (b : option admissionBudget) (c : Ceremony)
    (s : InputSigSentState) (outbox : list ClientOutMsg) : Step :=
  match CommitState env with
  | Err e => mkStep (Err ("failed to commit round state: " +:+ e)) [] b
  | Ok _ =>
      mkStep (Ok (mkTransition (InputSigSent s) []
                    (outbox ++ [RoundCheckpointedNotification (c_RoundID c)])))
        [StateCommitted (checkpointRound env c) s] b
  end.

Definition finish_boarding (env : Env) (b : option admissionBudget) (c : Ceremony) : Step :=
  match signBoardingInputs (SignVTXOCollabInput env) (c_CommitmentTx c) (c_Intents c)
          (BoardingInputIndices c) with
  | Err e => mkStep (Err ("sign boarding inputs: " +:+ e)) [] b
  | Ok sigs =>
      checkpoint env b c (input_sig_sent c sigs [])
        (arm_reconcile env (c_RoundID c) ++
         [SubmitForfeitSigRequest (c_RoundID c) sigs; watch_commitment env c])
  end.

Definition transitionToForfeitCollection (env : Env) (c : Ceremony) : Transition :=
  match forfeitPenaltyScript (ForfeitKey c) with
  | Err e => mkTransition (ClientFailed "invalid round forfeit key" (Some e) false
                             RoundFailureUnknown) [] []
  | Ok script => collect_forfeits env c script
  end.

Definition process_PartialSigsSent (env : Env) (b : option admissionBudget) (c : Ceremony)
    (sessions : gmap PublicKey Session) (event : ClientEvent) : Step :=
  match event with
  | OperatorSigned _ aggSigs =>
      match sign_trees aggSigs (VTXOTreePaths c) with
      | Err e => ok_step b (mkTransition (ClientFailed "VTXT signature validation failed" (Some e)
                                            false RoundFailureUnknown) [] [])
      | Ok paths =>
          match sign_client_trees aggSigs (c_RoundID c) (ClientTrees c) with
          | Err t => ok_step b t
          | Ok clients =>
              let c := with_trees c paths clients in
              if bool_decide (ForfeitMappings c = ∅) then finish_boarding env b c
              else ok_step b (transitionToForfeitCollection env c)
          end
      end
  | BoardingFailedEvent f => fail_delivered b f
  | _ => ok_step b (selfLoop (PartialSigsSent c sessions))
  end.

(** ** Forfeit signatures *)

Definition forfeit_params (c : Ceremony) (op : OutPoint) (info : ConnectorLeafInfo)
    (script : list Z) : ForfeitTxParams :=
  let req := forfeitRequestMap (Forfeits (c_Intents c)) !! op in
  mkForfeitTxParams op (ci_ConnectorOutpoint info) script
    (int64 (VTXOAmount info + ci_ConnectorAmount info))
    (expectedForfeitSequence req) (expectedForfeitLockTime req).

Definition check_response (c : Ceremony) (r : ForfeitSignatureResponse) : result error unit :=
  match ForfeitMappings c !! fs_VTXOOutpoint r with
  | None => Err "unexpected forfeit signature"
  | Some info =>
      let* script := wrap "forfeit penalty script: " (forfeitPenaltyScript (ForfeitKey c)) in
      wrap "invalid forfeit tx: "
        (ValidateForfeitTx (fs_ForfeitTx r) (forfeit_params c (fs_VTXOOutpoint r) info script))
  end.

Definition forfeit_sig (r : ForfeitSignatureResponse) : ForfeitTxSig :=
  mkForfeitTxSig (fs_ForfeitTx r) (fs_Signature r) (ParticipantVTXOSigs r) (fs_SpendPath r).

Definition forfeitCollectionOutbox (env : Env) (c : Ceremony) (forfeitTxs : gmap OutPoint ForfeitTxSig)
    (sigs : list BoardingInputSignature) : list ClientOutMsg :=
  cancelForfeitTimeout (c_RoundID c) ++ arm_reconcile env (c_RoundID c) ++
  [SubmitVTXOForfeitSigsToServer (c_RoundID c) forfeitTxs] ++
  (if Nat.eqb (length sigs) 0 then [] else [SubmitForfeitSigRequest (c_RoundID c) sigs]) ++
  [watch_commitment env c].

Definition finishForfeitCollection (env : Env) (b : option admissionBudget) (c : Ceremony)
    (collected : gmap OutPoint ForfeitSignatureResponse) : Step :=
  match signBoardingInputs (SignVTXOCollabInput env) (c_CommitmentTx c) (c_Intents c)
          (BoardingInputIndices c) with
  | Err e => mkStep (Err ("sign boarding inputs: " +:+ e)) [] b
  | Ok sigs =>
      checkpoint env b c (input_sig_sent c sigs (map_to_list collected).*1)
        (forfeitCollectionOutbox env c (forfeit_sig <$> collected) sigs)
  end.

Definition process_ForfeitSignaturesCollecting (env : Env) (b : option admissionBudget)
    (c : Ceremony) (collected : gmap OutPoint ForfeitSignatureResponse) (event : ClientEvent) : Step :=
  let stay := ok_step b (selfLoop (ForfeitSignaturesCollecting c collected)) in
  match event with
  | ForfeitSignatureEvent r =>
      match check_response c r with
      | Err e => mkStep (Err e) [] b
      | Ok _ =>
          if bool_decide (is_Some (collected !! fs_VTXOOutpoint r)) then stay
          else
            let collected := <[fs_VTXOOutpoint r := r]> collected in
            if (size collected <? size (ForfeitMappings c))%nat
            then ok_step b (mkTransition (ForfeitSignaturesCollecting c collected) [] [])
            else finishForfeitCollection env b c collected
      end
  | BoardingFailedEvent f =>
      ok_step b (mkTransition (failed_with f) [] (cancelForfeitTimeout (c_RoundID c)))
  | ForfeitCollectionTimedOut r =>
      if negb (N.eqb r (c_RoundID c)) then stay
      else
        let reason := "forfeit signature collection timeout" in
        ok_step b (mkTransition (ClientFailed reason (Some reason) true RoundFailureUnknown) []
                     (cancelForfeitTimeout (c_RoundID c)))
  | _ => stay
  end.

(** ** After the checkpoint *)

Definition with_probes (s : InputSigSentState) (failure : option BoardingFailed) (probes : Z) :
    InputSigSentState :=
  mkInputSigSent (i_Ceremony s) (InputSigs s) (ForfeitedVTXOs s) failure probes.

(** The failure of a round the operator reports dead. *)
Definition dead_failure (s : InputSigSentState) (detail : string) : BoardingFailed :=
  match PendingFailure s with
  | Some f => f
  | None =>
      let reason := if bool_decide (detail = "") then "round dead at operator" else detail in
      mkBoardingFailed (Some (c_RoundID (i_Ceremony s))) reason None true RoundFailureUnknown
  end.

Definition batch_expiry (height sweepDelay : Z) : result error Z :=
  if 0 <? sweepDelay
  then
    guard* negb (2147483647 <? height + sweepDelay) else "round batch expiry overflows int32" in
    Ok (int32 (height + sweepDelay))
  else Ok 0.

(** What the confirmed round announces. *)
Definition confirmed_outbox (env : Env) (s : InputSigSentState) (vtxos : list ClientVTXO)
    (txid : Hash) (height : Z) (blockHash : Hash) (batchExpiry : Z) : list ClientOutMsg :=
  let c := i_Ceremony s in
  let fee := computeClientOperatorFee (c_Intents c) vtxos in
  let outflows := roundLedgerOutflows (c_Intents c) (UnsignedTx (c_CommitmentTx c)) in
  (if Nat.eqb (length vtxos) 0 && Nat.eqb (length outflows) 0 && (fee <=? 0) then []
   else [VTXOCreatedNotification vtxos outflows (c_RoundID c) txid batchExpiry height fee
           (roundOperatorFeeType (c_Intents c))]) ++
  [RoundCompletedNotification (c_RoundID c) txid height blockHash] ++
  ((λ op, ForfeitConfirmedToVTXO op txid height) <$> ForfeitedVTXOs s) ++
  (if 0 <? StatusReconcileTimeout env then [cancelStatusReconcileTimeout (c_RoundID c)] else []).

Definition process_BoardingConfirmed (env : Env) (b : option admissionBudget)
    (s : InputSigSentState) (txid : Hash) (height : Z) (blockHash : Hash) (confirmations : Z) : Step :=
  let c := i_Ceremony s in
  match buildClientVTXOs (e_Owner env) (c_Intents c) (ClientTrees c) (c_RoundID c) with
  | Err e =>
      ok_step b (appendReconcileDisarm env
        (mkTransition (ClientFailed "failed to build client VTXOs" (Some e) false
                         RoundFailureUnknown) [] []) (c_RoundID c))
  | Ok built =>
      match batch_expiry height (c_SweepDelay c) with
      | Err e => mkStep (Err e) [] b
      | Ok batchExpiry =>
          let vtxos := stamp_vtxo txid batchExpiry height <$> built in
          let t := mkTransition (Confirmed txid height blockHash confirmations vtxos) []
                     (confirmed_outbox env s vtxos txid height blockHash batchExpiry) in
          if Nat.eqb (length vtxos) 0 then ok_step b t
          else
            match SaveVTXOs env vtxos with
            | Err e => mkStep (Err ("failed to save VTXOs: " +:+ e)) [] b
            | Ok _ => mkStep (Ok t) [VTXOsSaved vtxos] b
            end
      end
  end.

Definition process_InputSigSent (env : Env) (b : option admissionBudget) (s : InputSigSentState)
    (event : ClientEvent) : Step :=
  let c := i_Ceremony s in
  let stay := ok_step b (selfLoop (InputSigSent s)) in
  match event with
  | BoardingFailedEvent f =>
      ok_step b
        (if Nat.eqb (length (Forfeits (c_Intents c))) 0 || (StatusReconcileTimeout env <=? 0)
         then appendReconcileDisarm env (mkTransition (failed_with f) [] []) (c_RoundID c)
         else mkTransition (InputSigSent (with_probes s (Some f) 1)) []
                (statusReconcileProbeOutbox env (c_RoundID c) 0))
  | StatusReconcileTimedOut _ =>
      if StatusReconcileTimeout env <=? 0 then stay
      else ok_step b
        (mkTransition (InputSigSent (with_probes s (PendingFailure s) (uint32 (ReconcileProbes s + 1))))
           [] (statusReconcileProbeOutbox env (c_RoundID c) (ReconcileProbes s)))
  | RoundStatusReported r status detail =>
      match status with
      | ROUND_STATUS_DEAD =>
          if negb (N.eqb r (c_RoundID c)) then stay
          else
            let f := dead_failure s detail in
            let announce := RoundFailedNotification (Some (c_RoundID c)) (bf_Reason f)
                              (bf_Recoverable f) (bf_Error f) in
            ok_step b (appendReconcileDisarm env
              (release_on (mkTransition (failed_with f) [] [announce]) (Some (c_RoundID c))
                 (Forfeits (c_Intents c))) (c_RoundID c))
      | ROUND_STATUS_OTHER _ => stay
      end
  | BoardingConfirmed txid height blockHash confirmations =>
      process_BoardingConfirmed env b s txid height blockHash confirmations
  | _ => stay
  end.

Definition process_Confirmed (s : ClientState) (event : ClientEvent) : Transition :=
  match event with RoundComplete => selfLoop Idle | _ => selfLoop s end.

Definition process_ClientFailed (s : ClientState) (event : ClientEvent) : Transition :=
  match event with
  | RecoveryInitiated outpoint sweepTxID reason =>
      selfLoop (RecoveryInitiatedState outpoint sweepTxID reason)
  | IntentPackage i => if isEmpty i then selfLoop s else mkTransition Idle [event] []
  | _ => selfLoop s
  end.

(** ** One event *)

Definition ProcessEvent (env : Env) (b : option admissionBudget) (s : ClientState)
    (event : ClientEvent) : Step :=
  let pre := processPreCheckpointEvent env s event b in
  match s with
  | Idle => ok_step b (process_Idle event)
  | PendingRoundAssembly wait p =>
      mkStep (releaseForfeitsOnFailure (Ok (process_PendingRoundAssembly env wait p event)) None
                (Forfeits p)) [] b
  | IntentSent i admitted => pre admitted (Forfeits i) (process_IntentSent env b i admitted event)
  | QuoteReceived r q i => pre r (Forfeits i) (mkStep (process_QuoteReceived env r q i event) [] b)
  | RoundJoinedState r i q => pre r (Forfeits i) (ok_step b (process_RoundJoinedState env r i q event))
  | CommitmentTxReceived m i q =>
      pre (b_RoundID m) (Forfeits i) (process_CommitmentTxReceived env b m i q event)
  | CommitmentTxValidated c =>
      pre (c_RoundID c) (Forfeits (c_Intents c)) (process_CommitmentTxValidated env b c event)
  | NoncesSent c ss =>
      pre (c_RoundID c) (Forfeits (c_Intents c)) (process_NoncesSent env b c ss event)
  | NoncesAggregatedState c ss n =>
      pre (c_RoundID c) (Forfeits (c_Intents c)) (process_NoncesAggregated env b c ss n event)
  | PartialSigsSent c ss =>
      pre (c_RoundID c) (Forfeits (c_Intents c)) (process_PartialSigsSent env b c ss event)
  | ForfeitSignaturesCollecting c got =>
      pre (c_RoundID c) (Forfeits (c_Intents c))
        (process_ForfeitSignaturesCollecting env b c got event)
  | InputSigSent s => process_InputSigSent env b s event
  | Confirmed _ _ _ _ _ => ok_step b (process_Confirmed s event)
  | ClientFailed _ _ _ _ => ok_step b (process_ClientFailed s event)
  | RecoveryInitiatedState _ _ _ => ok_step b (selfLoop s)
  end.

(** ** The events of a message *)

(** What a delivered event leaves: on an error the machine stops where it was and
    the messages of the run are lost. *)
Record Run := mkRun {
  rn_state : ClientState;
  rn_budget : option admissionBudget;
  rn_outbox : result error (list ClientOutMsg);
  rn_effects : list Effect;
}.

(** Internal events queue up behind; the clock and the answers may differ at every
    event.  [None] when the fuel is out. *)
Fixpoint applyEvents (envs : nat → Env) (fuel : nat) (b : option admissionBudget) (s : ClientState)
    (outbox : list ClientOutMsg) (effects : list Effect) (queue : list ClientEvent) : option Run :=
  match queue, fuel with
  | [], _ => Some (mkRun s b (Ok outbox) effects)
  | _ :: _, O => None
  | event :: queue, S fuel =>
      let st := ProcessEvent (envs fuel) b s event in
      match st_result st with
      | Err e => Some (mkRun s (st_budget st) (Err e) (effects ++ st_effects st))
      | Ok t =>
          applyEvents envs fuel (st_budget st) (NextState t) (outbox ++ Outbox t)
            (effects ++ st_effects st) (queue ++ InternalEvent t)
      end
  end.

End Handlers.
