(* ===== verification/RoundSteps.v ===== *)
(** * Steps of a round: releases, the admission budget, settling

    What every single event does to the reservations of a client, whatever the
    stores, the wallet and the operator answer: reserved inputs return exactly when
    the round fails before its checkpoint, or when the operator reports it dead
    afterwards; an admitted attempt cannot outlive its budget; and the events a
    message triggers run out. *)

From S2P Require Import Prelude RecoveryProof VtxoExpiry VtxoForfeit TxTree TxTreeSafety RoundQuote RoundValidate RoundFsm.
Local Open Scope Z_scope.

Section Steps.
Context {TX : Txscript} {MS : Musig} {RS : RoundScripts} {RK : RoundKeys}.

(** ** What the wrapper of the states before the checkpoint does *)

Definition failed (s : ClientState) : Prop :=
  match s with ClientFailed _ _ _ _ => True | _ => False end.

Definition releases (t : Transition) : list ClientOutMsg :=
  filter (λ m, is_release m = true) (Outbox t).

(** The four ways an event can end: it only concerns the budget, the budget is
    spent, the handler answered, or the handler erred with inputs reserved. *)
Inductive pre_outcome (env : Env) (s : ClientState) (event : ClientEvent)
    (b : option admissionBudget) (r : RoundID) (fs : list ForfeitRequest) (p : Step) :
    Transition → option admissionBudget → list Effect → Prop :=
| pre_budget outbox :
    (∀ m, m ∈ outbox → ∃ k ph d, m = StartTimeoutReq k ph d) →
    (∃ r', event = AdmissionTimedOut r') →
    pre_outcome env s event b r fs p (mkTransition s [] outbox) b []
| pre_expired budget err effects :
    b = Some budget → expired budget env = true →
    pre_outcome env s event b r fs p
      (release_on (failWithNotification "round admission deadline expired" err true
                     (Some (bg_roundID budget))) (Some (bg_roundID budget)) fs) b effects
| pre_handled t effects :
    from_option (λ b, expired b env) false b = false → st_result p = Ok t →
    (∀ x, x ∈ effects → x ∈ st_effects p ∨ ∃ r', x = AdmissionClosed r') →
    (∀ x, x ∈ st_effects p → x ∈ effects) →
    pre_outcome env s event b r fs p (release_on t (Some r) fs) (st_budget p) effects
| pre_error e effects :
    from_option (λ b, expired b env) false b = false → st_result p = Err e →
    rollbackOutbox (Some r) fs ≠ [] →
    (∀ x, x ∈ effects → x ∈ st_effects p ∨ ∃ r', x = AdmissionClosed r') →
    pre_outcome env s event b r fs p
      (release_on (failWithNotification e (Some e) false (Some r)) (Some r) fs) (st_budget p) effects.

Lemma finish_result p r fs :
  st_result (finishAdmissionTransition p r fs) = releaseForfeitsOnFailure (st_result p) (Some r) fs ∧
  st_budget (finishAdmissionTransition p r fs) = st_budget p ∧
  (∀ x, x ∈ st_effects (finishAdmissionTransition p r fs) →
        x ∈ st_effects p ∨ ∃ r', x = AdmissionClosed r') ∧
  (∀ x, x ∈ st_effects p → x ∈ st_effects (finishAdmissionTransition p r fs)).
Proof.
  unfold finishAdmissionTransition. destruct (releaseForfeitsOnFailure _ _ _) as [t|]; [|eauto].
  destruct (st_budget p) as [b|]; [|eauto]. destruct (NextState t); eauto. cbn.
  split; [done|]. split; [done|]. split; [|set_solver].
  intros x [?|?%list_elem_of_singleton]%elem_of_app; eauto.
Qed.

Lemma length_nonempty {A} (l : list A) : Nat.eqb (length l) 0 = false → l ≠ [].
Proof. by destruct l. Qed.

Lemma finish_outcome env s event b r fs p t :
  from_option (λ b, expired b env) false b = false →
  st_result (finishAdmissionTransition p r fs) = Ok t →
  pre_outcome env s event b r fs p t (st_budget (finishAdmissionTransition p r fs))
    (st_effects (finishAdmissionTransition p r fs)).
Proof.
  intros Hb. destruct (finish_result p r fs) as (-> & -> & He & Hs).
  destruct (st_result p) as [t'|e] eqn:E; cbn [releaseForfeitsOnFailure].
  - intros [= <-]. by apply pre_handled.
  - destruct (Nat.eqb _ 0) eqn:En; [done|]. intros [= <-]. apply pre_error; try done.
    by apply length_nonempty.
Qed.

Lemma pre_cases env s event b r fs p t :
  st_result (processPreCheckpointEvent env s event b r fs p) = Ok t →
  pre_outcome env s event b r fs p t (st_budget (processPreCheckpointEvent env s event b r fs p))
    (st_effects (processPreCheckpointEvent env s event b r fs p)).
Proof.
  unfold processPreCheckpointEvent.
  set (wake := match event with AdmissionTimedOut r => Some r | _ => None end).
  destruct (match wake with Some r => from_option (λ b, negb (N.eqb r (bg_roundID b))) true b | None => false end) eqn:Es.
  - intros [= <-]. cbn. destruct event; subst wake; try done. constructor; [set_solver|eauto].
  - destruct b as [budget|]; [|by apply finish_outcome].
    destruct (expired budget env) eqn:Ex.
    + match goal with |- context [finishAdmissionTransition ?p ?r ?fs] =>
        destruct (finish_result p r fs) as (-> & -> & _) end. cbn [st_result releaseForfeitsOnFailure st_budget].
      intros [= <-]. by econstructor.
    + destruct wake as [r'|] eqn:Ew; [|by apply finish_outcome]. intros [= <-].
      destruct event; subst wake; try done. constructor; [|eauto].
      intros m ->%list_elem_of_singleton. by eexists _, _, _.
Qed.

(** ** Events settle *)

(** How many events a delivered one can trigger, itself included. *)
Definition rank (s : ClientState) (e : ClientEvent) : nat :=
  match s, e with
  | ClientFailed _ _ _ _, IntentPackage _ => 2
  | (IntentSent _ _ | QuoteReceived _ _ _ | RoundJoinedState _ _ _), JoinRoundQuoteReceived _ _ => 2
  | RoundJoinedState _ _ _, CommitmentTxBuiltEvent _ => 3
  | CommitmentTxReceived _ _ _, CommitmentTxBuiltEvent _ => 2
  | NoncesSent _ _, NoncesAggregated _ _ => 2
  | _, _ => 1
  end.

Definition ranked (s : ClientState) (e : ClientEvent) (t : Transition) : Prop :=
  InternalEvent t = [] ∨ ∃ e', InternalEvent t = [e'] ∧ (rank (NextState t) e' < rank s e)%nat.

Lemma release_next t r fs : NextState (release_on t r fs) = NextState t.
Proof. unfold release_on. destruct (NextState t) eqn:E; try done. by destruct (Nat.eqb _ 0). Qed.

Lemma release_internal t r fs : InternalEvent (release_on t r fs) = InternalEvent t.
Proof. unfold release_on. destruct (NextState t) eqn:E; try done. by destruct (Nat.eqb _ 0). Qed.

(** ** Releases and signatures *)

Definition is_signature (m : ClientOutMsg) : bool :=
  match m with
  | SubmitForfeitSigRequest _ _ | SubmitVTXOForfeitSigsToServer _ _ => true
  | _ => false
  end.
Definition sensitive (m : ClientOutMsg) : bool := is_release m || is_signature m.

(** A step of a handler: nothing leaves, or the round fails and the handler itself
    rolls the inputs back. *)
Definition tidy (fs : list ForfeitRequest) (t : Transition) : Prop :=
  existsb sensitive (Outbox t) = false ∨
  (failed (NextState t) ∧ existsb is_signature (Outbox t) = false ∧
   ∃ r, releases t = rollbackOutbox r fs).

Definition handled (s : ClientState) (e : ClientEvent) (fs : list ForfeitRequest)
    (t : Transition) : Prop := ranked s e t ∧ tidy fs t.

(** The two states before the checkpoint may also sign. *)
Definition signs (t : Transition) : Prop :=
  existsb is_release (Outbox t) = false ∧ ∃ i, NextState t = InputSigSent i.
Definition handled_or_signed (s : ClientState) (e : ClientEvent) (fs : list ForfeitRequest)
    (t : Transition) : Prop := ranked s e t ∧ (tidy fs t ∨ signs t).

Lemma rollback_releases r fs : filter (λ m, is_release m = true) (rollbackOutbox r fs) = rollbackOutbox r fs.
Proof.
  unfold rollbackOutbox. destruct (forfeitRollbackOutpoints fs) as [st cu].
  by destruct st, cu.
Qed.
Lemma rollback_unsigned r fs : existsb is_signature (rollbackOutbox r fs) = false.
Proof.
  unfold rollbackOutbox. destruct (forfeitRollbackOutpoints fs) as [st cu].
  by destruct st, cu.
Qed.
Lemma rollback_empty r r' fs : rollbackOutbox r fs = [] → rollbackOutbox r' fs = [].
Proof.
  unfold rollbackOutbox. destruct (forfeitRollbackOutpoints fs) as [st cu].
  by destruct st, cu.
Qed.

Lemma no_releases t : existsb is_release (Outbox t) = false → releases t = [].
Proof.
  unfold releases. induction (Outbox t) as [|m l IH]; [done|]. cbn [existsb]. intros [Hm Hl]%orb_false_iff.
  rewrite filter_cons_False by congruence. by apply IH.
Qed.
Lemma some_releases t : existsb is_release (Outbox t) = true → releases t ≠ [].
Proof.
  unfold releases. induction (Outbox t) as [|m l IH]; [done|]. cbn [existsb]. rewrite filter_cons.
  destruct (is_release m) eqn:E; [by rewrite decide_True by done|]. cbn [orb].
  intros H. rewrite decide_False by congruence. by apply IH.
Qed.

Lemma not_sensitive l : existsb sensitive l = false →
  existsb is_release l = false ∧ existsb is_signature l = false.
Proof.
  induction l as [|m l IH]; [done|]. cbn. unfold sensitive at 1.
  intros [[-> ->]%orb_false_iff [-> ->]%IH]%orb_false_iff. done.
Qed.

(** What a step before the checkpoint has done with the reserved inputs. *)
Definition released (fs : list ForfeitRequest) (t : Transition) : Prop :=
  (failed (NextState t) → ∃ r, releases t = rollbackOutbox r fs) ∧
  (¬ failed (NextState t) → releases t = []) ∧
  (failed (NextState t) → existsb is_signature (Outbox t) = false).

Lemma tidy_parts fs t : tidy fs t →
  existsb is_signature (Outbox t) = false ∧
  (releases t = [] ∨ (failed (NextState t) ∧ ∃ r, releases t = rollbackOutbox r fs)).
Proof.
  intros [H|(Hf & Hs & Hr)]; [|by eauto]. apply not_sensitive in H as [H ->].
  split; [done|]. left. by apply no_releases.
Qed.

Lemma release_outbox t r fs :
  failed (NextState t) → rollbackOutbox r fs ≠ [] →
  ∃ tail, (tail = [] ∨ ∃ a b c d, tail = [TerminalJobFailedNotification a b c d]) ∧
    Outbox (release_on t r fs) =
      (if existsb is_release (Outbox t) then Outbox t else rollbackOutbox r fs ++ Outbox t) ++ tail.
Proof.
  unfold release_on. destruct (NextState t); try done. intros _ Hr.
  destruct (Nat.eqb _ 0) eqn:En; [apply Nat.eqb_eq, nil_length_inv in En; done|]. cbn.
  destruct (IsTerminalForJob code && _).
  - eexists. split; [right; by eexists _, _, _, _|done].
  - exists []. split; [by left|by rewrite app_nil_r].
Qed.

Lemma release_keep t r fs : rollbackOutbox r fs = [] → release_on t r fs = t.
Proof. intros H. unfold release_on. rewrite H. by destruct (NextState t). Qed.

Lemma release_other t r fs : ¬ failed (NextState t) → release_on t r fs = t.
Proof. unfold release_on. by destruct (NextState t). Qed.

Lemma failed_dec (s : ClientState) : {failed s} + {¬ failed s}.
Proof. destruct s; try (by left); right; by intros []. Qed.

Lemma release_exact t r fs : tidy fs t → released fs (release_on t r fs).
Proof.
  intros [Hs Hr]%tidy_parts. unfold released. rewrite release_next.
  destruct (failed_dec (NextState t)) as [Hf|Hf]; cycle 1.
  { rewrite release_other by done. split; [done|]. split; [|done]. intros _. by destruct Hr as [|[]]. }
  destruct (decide (rollbackOutbox r fs = [])) as [He|He].
  { rewrite release_keep by done. split; [|split; [done|done]]. intros _.
    destruct Hr as [Hr|[_ Hr]]; [|done]. exists r. by rewrite He. }
  destruct (release_outbox t r fs Hf He) as (tail & Ht & Ho).
  unfold releases in *. rewrite Ho, filter_app, existsb_app.
  assert (filter (λ m, is_release m = true) tail = [] ∧ existsb is_signature tail = false) as [-> ->]
    by (destruct Ht as [->|(? & ? & ? & ? & ->)]; done).
  rewrite app_nil_r, orb_false_r.
  destruct (existsb is_release (Outbox t)) eqn:Ex.
  - split; [|done]. intros _. destruct Hr as [Hr|[_ Hr]]; [|done].
    by apply some_releases in Ex.
  - apply no_releases in Ex. unfold releases in Ex.
    rewrite filter_app, Ex, app_nil_r, rollback_releases, existsb_app, rollback_unsigned.
    split; [by eexists|done].
Qed.

Lemma ranked_release s e t r fs : ranked s e t → ranked s e (release_on t r fs).
Proof. unfold ranked. by rewrite release_next, release_internal. Qed.

Lemma quiet_failure reason err rec r fs : tidy fs (failWithNotification reason err rec r).
Proof. by left. Qed.

Lemma signed_released fs t r : tidy fs t ∨ signs t → released fs (release_on t r fs).
Proof.
  intros [H|[Hr [i Hi]]]; [by apply release_exact|]. rewrite release_other by (by rewrite Hi; intros []).
  unfold released. rewrite Hi. cbn. split; [done|]. split; [|done]. intros _. by apply no_releases.
Qed.

Lemma pre_released env s e b r fs p t :
  (∀ t', st_result p = Ok t' → handled_or_signed s e fs t') → ¬ failed s →
  st_result (processPreCheckpointEvent env s e b r fs p) = Ok t → ranked s e t ∧ released fs t.
Proof.
  intros Hp Hs Ht. destruct (pre_cases _ _ _ _ _ _ _ _ Ht) as [outbox Ho _| |t0 ? _ Hr|].
  - split; [by left|]. cbn. split; [done|]. split; [|done]. intros _. unfold releases. cbn.
    clear Ht. induction outbox as [|m l IH]; [done|]. destruct (Ho m) as (? & ? & ? & ->); [left|].
    rewrite filter_cons_False by done. apply IH. intros m' ?. apply Ho. by right.
  - split; [by apply ranked_release; left|apply release_exact, quiet_failure].
  - destruct (Hp _ Hr). split; [by apply ranked_release|by apply signed_released].
  - split; [by apply ranked_release; left|apply release_exact, quiet_failure].
Qed.

(** ** The handlers *)

Ltac plain := by split; left.
Ltac answer := intros [= <-]; plain.

Lemma rollback_tidy fs n pre r post :
  failed n → existsb sensitive pre = false → existsb sensitive post = false →
  tidy fs (mkTransition n [] (pre ++ rollbackOutbox r fs ++ post)).
Proof.
  intros Hn [Hpr Hps]%not_sensitive [Hr Hs]%not_sensitive. right. split; [done|].
  cbn [Outbox]. rewrite !existsb_app, rollback_unsigned, Hps, Hs. split; [done|]. exists r.
  unfold releases. cbn [Outbox]. rewrite !filter_app, rollback_releases.
  pose proof (no_releases (mkTransition n [] pre) Hpr) as H1.
  pose proof (no_releases (mkTransition n [] post) Hr) as H2. unfold releases in H1, H2. cbn in H1, H2.
  by rewrite H1, H2, app_nil_r.
Qed.

Lemma failure_tidy fs n reason err rec r :
  failed n → tidy fs (mkTransition n [] (failureOutbox reason err rec r fs)).
Proof.
  intros Hn. unfold failureOutbox.
  rewrite <- (app_nil_r (rollbackOutbox r fs)).
  by apply (rollback_tidy fs n [_] r []).
Qed.

(** A request that cannot be built fails the round, recoverably. *)
Definition recoverably (t : Transition) : Prop :=
  ∃ reason err, t = failWithNotification reason (Some err) true None.

Lemma fail_result_err {A} reason (r : result error A) t :
  fail_result reason r = Err t → recoverably t.
Proof. destruct r; [done|]. intros [= <-]. by eexists _, _. Qed.

Lemma check_balance_err env p t : check_balance env p = Err t → recoverably t.
Proof.
  unfold check_balance. destruct (computeTotalForfeitAmount _ _); [|intros [= <-]; by eexists _, _].
  destruct (leave_total _ _) as [o|]; [|intros [= <-]; by eexists _, _].
  destruct (o =? 0); [intros [= <-]; by eexists _, _|].
  destruct (_ <? _); [intros [= <-]; by eexists _, _|done].
Qed.

Lemma build_join_err env p t : build_join env p = Err t → recoverably t.
Proof.
  unfold build_join.
  destruct (check_balance env p) eqn:E1; [|intros [= <-]; by eapply check_balance_err].
  destruct (fail_result _ (ensureVTXOSigningKeys _ _)) eqn:E2; [|intros [= <-]; by eapply fail_result_err].
  destruct (fail_result _ (sortedForfeitRequests _)) eqn:E3; [|intros [= <-]; by eapply fail_result_err].
  destruct (designateChangeMarker _ _).
  destruct (fail_result _ (deriveJoinAuthIdentifierKey _)) eqn:E4; [|intros [= <-]; by eapply fail_result_err].
  destruct (DisableJoinRequestAuth env); [|destruct (buildJoinRoundAuth env); [|intros [= <-]; by eexists _, _]].
  all: destruct (fail_result _ (validateScheduledSend _)) eqn:E5; [done|intros [= <-]; by eapply fail_result_err].
Qed.

Lemma build_join_message env p i m :
  build_join env p = Ok (i, m) →
  Forfeits i = Forfeits p ∧ sensitive m = false ∧ QuotedLeaveAmounts i = [] ∧
  ∃ vtxos leaves, designateChangeMarker vtxos leaves = (VTXOs i, Leaves i).
Proof.
  unfold build_join. destruct (check_balance env p); [|done].
  destruct (fail_result _ (ensureVTXOSigningKeys _ _)) as [vtxos|]; [|done].
  destruct (fail_result _ (sortedForfeitRequests _)); [|done].
  destruct (designateChangeMarker vtxos (Leaves p)) as [v l] eqn:Ed.
  destruct (fail_result _ (deriveJoinAuthIdentifierKey _)); [|done].
  destruct (DisableJoinRequestAuth env); [|destruct (buildJoinRoundAuth env); [|done]].
  all: destruct (fail_result _ (validateScheduledSend _)); [|done]; intros [= <- <-];
    repeat split; by eexists _, _.
Qed.

Lemma pending_handled env wait p e :
  handled (PendingRoundAssembly wait p) e (Forfeits p) (process_PendingRoundAssembly env wait p e).
Proof.
  destruct e; try plain; cbn [process_PendingRoundAssembly].
  - destruct (isEmpty i); [plain|]. destruct (merge_package p i); plain.
  - destruct (waitForScheduledSlot env) as [[|]|]; [|plain|plain].
    destruct (build_join env p) as [[i m]|t] eqn:E.
    + split; [by left|]. left. apply build_join_message in E as (_ & Hm & _). cbn. rewrite Hm.
      by destruct (0 <? _).
    + apply build_join_err in E as (? & ? & ->). plain.
Qed.

Lemma receive_handled env r i q s e fs : rank s e = 2%nat → handled s e fs (receive_quote env r i q).
Proof.
  intros H. split; [|by left]. right. eexists. split; [done|]. unfold receive_quote. cbn [NextState]. rewrite H.
  generalize (evaluateQuote (quote_env env) i q). intros []; cbn; lia.
Qed.

Lemma intent_handled env b i r e t :
  st_result (process_IntentSent env b i r e) = Ok t → handled (IntentSent i r) e (Forfeits i) t.
Proof.
  destruct e; cbn [process_IntentSent]; try answer.
  - destruct (negb _); [answer|]. intros [= <-]. split; [by left|by apply failure_tidy].
  - unfold process_RoundJoined. destruct (0 <? _); [|answer].
    destruct (constrainAdmission _ _ _ _) as [bg|]; [|answer]. destruct (expired bg env); answer.
  - destruct (N.eqb r NoRound); [answer|]. destruct (negb _); [answer|]. destruct quote; [|done].
    intros [= <-]. by apply receive_handled.
  - intros [= <-]. split; [by left|by apply failure_tidy].
Qed.

Lemma quote_handled env r q i e t :
  process_QuoteReceived env r q i e = Ok t → handled (QuoteReceived r q i) e (Forfeits i) t.
Proof.
  destruct e; cbn [process_QuoteReceived]; try answer.
  - destruct (supersedes _ _); [|answer]. intros [= <-]. by apply receive_handled.
  - destruct q; [|done]. destruct (_ && _); answer.
  - intros [= <-]. split; [by left|]. by apply (rollback_tidy _ _ [] _ [_]).
Qed.

Lemma joined_handled env r i q e :
  handled (RoundJoinedState r i q) e (Forfeits i) (process_RoundJoinedState env r i q e).
Proof.
  destruct e; cbn [process_RoundJoinedState]; try plain.
  - destruct (negb (supersedes _ _)); [plain|]. destruct (negb _); [plain|]. by apply receive_handled.
  - destruct (negb _); [plain|]. split; [|by left]. right. eexists. split; [done|]. cbn. lia.
Qed.

Lemma received_handled env b m i q e t :
  st_result (process_CommitmentTxReceived env b m i q e) = Ok t →
  handled (CommitmentTxReceived m i q) e (Forfeits i) t.
Proof.
  destruct e; cbn [process_CommitmentTxReceived]; try answer.
  - destruct (validate_commitment _ _ _ _ _) as [[c|[]] eff]; [|intros [= <-]|done].
    + intros [= <-]. split; [|by left]. right. eexists. split; [done|]. cbn. lia.
    + split; [by left|by apply failure_tidy].
  - intros [= <-]. split; [left; by destruct (bf_FailureCode f)|].
    destruct (bf_FailureCode f); by apply failure_tidy.
Qed.

Lemma requests_plain env c script : existsb sensitive (forfeit_requests env c script) = false.
Proof.
  unfold forfeit_requests. cbn [existsb]. induction (map_to_list _) as [|p l IH]; [done|]. by cbn.
Qed.

Lemma collect_handled env c script s e fs : handled s e fs (collect_forfeits env c script).
Proof. split; [by left|]. left. apply requests_plain. Qed.

Lemma validated_handled env b c e t :
  st_result (process_CommitmentTxValidated env b c e) = Ok t →
  handled (CommitmentTxValidated c) e (Forfeits (c_Intents c)) t.
Proof.
  destruct e; cbn [process_CommitmentTxValidated]; try answer.
  destruct (_ && _).
  - intros [= <-]. destruct (forfeitPenaltyScript _); [apply collect_handled|].
    split; [by left|by apply failure_tidy].
  - cbn. destruct (session_jobs _ _ _); [|done]. destruct (wrap _ _); [|done]. answer.
Qed.

Lemma nonces_handled env b c ss e t :
  st_result (process_NoncesSent env b c ss e) = Ok t →
  handled (NoncesSent c ss) e (Forfeits (c_Intents c)) t.
Proof.
  destruct e; cbn [process_NoncesSent]; try answer.
  destruct (for_each _ _); [|done]. intros [= <-]. split; [|by left].
  right. eexists. split; [done|]. cbn. lia.
Qed.

Lemma aggregated_handled env b c ss n e t :
  st_result (process_NoncesAggregated env b c ss n e) = Ok t →
  handled (NoncesAggregatedState c ss n) e (Forfeits (c_Intents c)) t.
Proof.
  destruct e; cbn [process_NoncesAggregated]; try answer.
  cbn. destruct (wrap _ _); [|done]. answer.
Qed.

Lemma sign_client_err sigs r trees t :
  sign_client_trees sigs r trees = Err t →
  ∃ reason e, t = failWithNotification reason (Some e) false (Some r).
Proof.
  unfold sign_client_trees. generalize (map_to_list trees). intros l H.
  destruct (map_results _ l) eqn:E; [done|]. injection H as <-. revert E.
  induction l as [|p l IH]; [done|]. cbn.
  destruct (SubmitTreeSigs p.2 sigs); [|intros [= <-]; by eexists _, _].
  destruct (VerifySigned _); [|intros [= <-]; by eexists _, _].
  cbn. destruct (map_results _ l); [done|]. intros [= <-]. by apply IH.
Qed.

(** The step that signs: what it commits, and what leaves with it. *)
Lemma checkpoint_signed env b c i outbox s e fs t :
  existsb is_release outbox = false → st_result (checkpoint env b c i outbox) = Ok t →
  handled_or_signed s e fs t.
Proof.
  unfold checkpoint. destruct (CommitState env); [|done]. intros Ho [= <-]. split; [by left|right].
  split; [|by eexists]. cbn. by rewrite existsb_app, Ho.
Qed.

Lemma arm_no_release env r : existsb is_release (arm_reconcile env r) = false.
Proof. unfold arm_reconcile. by destruct (0 <? _). Qed.

Lemma plainly s e fs t : handled s e fs t → handled_or_signed s e fs t.
Proof. intros [? ?]. split; [done|by left]. Qed.

Ltac answer_plainly := intros [= <-]; apply plainly; plain.

Lemma partial_handled env b c ss e t :
  st_result (process_PartialSigsSent env b c ss e) = Ok t →
  handled_or_signed (PartialSigsSent c ss) e (Forfeits (c_Intents c)) t.
Proof.
  destruct e; cbn [process_PartialSigsSent]; try answer_plainly.
  destruct (sign_trees _ _); [|answer_plainly].
  destruct (sign_client_trees _ _ _) eqn:E.
  - destruct (bool_decide _).
    + unfold finish_boarding. destruct (signBoardingInputs _ _ _ _); [|done]. apply checkpoint_signed.
      by rewrite existsb_app, arm_no_release.
    + intros [= <-]. apply plainly. unfold transitionToForfeitCollection.
      destruct (forfeitPenaltyScript _); [apply collect_handled|plain].
  - apply sign_client_err in E as (? & ? & ->). answer_plainly.
Qed.

Lemma collecting_handled env b c got e t :
  st_result (process_ForfeitSignaturesCollecting env b c got e) = Ok t →
  handled_or_signed (ForfeitSignaturesCollecting c got) e (Forfeits (c_Intents c)) t.
Proof.
  destruct e; cbn [process_ForfeitSignaturesCollecting]; try answer_plainly.
  - destruct (check_response c r); [|done]. destruct (bool_decide _); [answer_plainly|].
    destruct (_ <? _)%nat; [answer_plainly|]. unfold finishForfeitCollection.
    destruct (signBoardingInputs _ _ _ _) as [sigs|]; [|done]. apply checkpoint_signed.
    unfold forfeitCollectionOutbox. rewrite !existsb_app, arm_no_release. by destruct (Nat.eqb _ 0).
  - destruct (negb _); answer_plainly.
Qed.

(** ** After the checkpoint *)

Lemma disarm_next env t r : NextState (appendReconcileDisarm env t r) = NextState t.
Proof. unfold appendReconcileDisarm. by destruct (_ <=? 0). Qed.
Lemma disarm_releases env t r : releases (appendReconcileDisarm env t r) = releases t.
Proof.
  unfold appendReconcileDisarm, releases. destruct (_ <=? 0); [done|]. cbn [Outbox].
  rewrite filter_app. apply app_nil_r.
Qed.
Lemma disarm_signature env t r :
  existsb is_signature (Outbox (appendReconcileDisarm env t r)) = existsb is_signature (Outbox t).
Proof.
  unfold appendReconcileDisarm. destruct (_ <=? 0); [done|]. cbn [Outbox].
  rewrite existsb_app. apply orb_false_r.
Qed.
Lemma disarm_ranked env s e t r : InternalEvent t = [] → ranked s e (appendReconcileDisarm env t r).
Proof. intros H. left. unfold appendReconcileDisarm. by destruct (_ <=? 0). Qed.

Lemma confirmed_plain env i vtxos txid h bh ex :
  existsb sensitive (confirmed_outbox env i vtxos txid h bh ex) = false.
Proof.
  unfold confirmed_outbox. rewrite !existsb_app.
  assert (existsb sensitive ((λ op, ForfeitConfirmedToVTXO op txid h) <$> ForfeitedVTXOs i) = false) as ->
    by (induction (ForfeitedVTXOs i); done).
  by destruct (_ && _), (0 <? _).
Qed.

(** The verdict of the operator that allows a release. *)
Definition dead_report (i : InputSigSentState) (e : ClientEvent) : Prop :=
  ∃ detail, e = RoundStatusReported (c_RoundID (i_Ceremony i)) ROUND_STATUS_DEAD detail.

(** After the checkpoint nothing is signed, and a release takes that verdict. *)
Definition settled (i : InputSigSentState) (e : ClientEvent) (t : Transition) : Prop :=
  existsb is_signature (Outbox t) = false ∧
  ((¬ dead_report i e ∧ releases t = []) ∨
   (dead_report i e ∧ failed (NextState t) ∧
    releases t = rollbackOutbox (Some (c_RoundID (i_Ceremony i))) (Forfeits (c_Intents (i_Ceremony i))))).

Lemma settled_plain i e t :
  ¬ dead_report i e → existsb sensitive (Outbox t) = false → settled i e t.
Proof. intros Hd [H1 H2]%not_sensitive. split; [done|left]. split; [done|by apply no_releases]. Qed.

Lemma sent_settled env b i e t :
  st_result (process_InputSigSent env b i e) = Ok t → ranked (InputSigSent i) e t ∧ settled i e t.
Proof.
  destruct e; cbn [process_InputSigSent];
    try (intros [= <-]; split; [by left|apply settled_plain; [by intros []|done]]).
  - unfold process_BoardingConfirmed. destruct (buildClientVTXOs _ _ _ _).
    + destruct (batch_expiry _ _); [|done].
      destruct (Nat.eqb _ 0); [|destruct (SaveVTXOs _ _); [|done]].
      all: intros [= <-]; split; [by left|apply settled_plain; [by intros []|apply confirmed_plain]].
    + intros [= <-]. split; [by apply disarm_ranked|].
      split; [by rewrite disarm_signature|left]. split; [by intros []|by rewrite disarm_releases].
  - intros [= <-]. destruct (_ || _).
    + split; [by apply disarm_ranked|].
      split; [by rewrite disarm_signature|left]. split; [by intros []|by rewrite disarm_releases].
    + split; [by left|apply settled_plain; [by intros []|done]].
  - destruct (_ <=? 0); intros [= <-]; (split; [by left|apply settled_plain; [by intros []|done]]).
  - destruct status; [|intros [= <-]; split; [by left|apply settled_plain; [by intros []|done]]].
    destruct (N.eqb_spec roundID (c_RoundID (i_Ceremony i))) as [->|Hn]; cbn [negb].
    + intros [= <-]. split; [apply disarm_ranked; by rewrite release_internal|].
      match goal with |- context [release_on ?t ?r ?fs] =>
        destruct (release_exact t r fs (or_introl eq_refl)) as (_ & _ & Hs);
        assert (releases (release_on t r fs) = rollbackOutbox r fs) as Hr end.
      { destruct (decide (rollbackOutbox (Some (c_RoundID (i_Ceremony i))) (Forfeits (c_Intents (i_Ceremony i))) = [])) as [He|He].
        - rewrite release_keep by done. by rewrite He.
        - match goal with |- context [release_on ?t ?r ?fs] =>
            destruct (release_outbox t r fs I He) as (tail & Ht & Ho) end.
          unfold releases. rewrite Ho. cbn [existsb Outbox is_release orb]. rewrite !filter_app, rollback_releases.
          by destruct Ht as [->|(? & ? & ? & ? & ->)]; cbn; rewrite !app_nil_r. }
      split; [rewrite disarm_signature; apply Hs; by rewrite release_next|right].
      rewrite disarm_next, release_next, disarm_releases, Hr. split; [by eexists|done].
    + intros [= <-]. split; [by left|]. apply settled_plain; [|done]. by intros [? [=]].
Qed.

(** ** One event, any state *)

(** The reserved inputs of a state before the checkpoint. *)
Definition reserved (s : ClientState) : option (list ForfeitRequest) :=
  match s with
  | PendingRoundAssembly _ i | IntentSent i _ | QuoteReceived _ _ i | RoundJoinedState _ i _
  | CommitmentTxReceived _ i _ => Some (Forfeits i)
  | CommitmentTxValidated c | NoncesSent c _ | NoncesAggregatedState c _ _
  | PartialSigsSent c _ | ForfeitSignaturesCollecting c _ => Some (Forfeits (c_Intents c))
  | _ => None
  end.

Lemma process_released env b s e t fs :
  reserved s = Some fs → st_result (ProcessEvent env b s e) = Ok t → ranked s e t ∧ released fs t.
Proof.
  destruct s; try done; intros [= <-]; cbn [ProcessEvent]; [|apply pre_released; [|by intros []]..].
  - destruct (pending_handled env wait pools e) as [Hr Ht]. intros [= <-].
    split; [by apply ranked_release|by apply release_exact].
  - intros t' H. by apply plainly, (intent_handled env b).
  - intros t' H. by apply plainly, (quote_handled env).
  - intros t' [= <-]. apply plainly, joined_handled.
  - intros t' H. by apply plainly, (received_handled env b).
  - intros t' H. by apply plainly, (validated_handled env b).
  - intros t' H. by apply plainly, (nonces_handled env b).
  - intros t' H. by apply plainly, (aggregated_handled env b).
  - apply partial_handled.
  - apply collecting_handled.
Qed.

(** The other states neither hold inputs nor send anything sensitive. *)
Lemma process_other env b s e t :
  reserved s = None → (∀ i, s ≠ InputSigSent i) → st_result (ProcessEvent env b s e) = Ok t →
  ranked s e t ∧ Outbox t = [].
Proof.
  destruct s; try done; intros _ Hi; cbn [ProcessEvent]; [| |intros [= <-]..].
  - intros [= <-]. destruct e; try (by split; [left|]). cbn. destruct (isEmpty i); by split; [left|].
  - by destruct (Hi s).
  - destruct e; by split; [left|].
  - destruct e; try (by split; [left|]). cbn. destruct (isEmpty i); [by split; [left|]|].
    split; [|done]. right. eexists. split; [done|]. cbn. lia.
  - by split; [left|].
Qed.

Lemma process_ranked env b s e t : st_result (ProcessEvent env b s e) = Ok t → ranked s e t.
Proof.
  intros H. destruct (reserved s) as [fs|] eqn:Er; [by destruct (process_released _ _ _ _ _ _ Er H)|].
  destruct s; try (by apply process_other in H as [? _]).
  by apply sent_settled in H as [? _].
Qed.

(** C37 A message delivered to the machine settles.  Whatever state it meets and
    whatever the stores, the wallet and the operator answer, the events it triggers
    run out after three. *)
Theorem round_events_settle envs b s outbox effects e :
  ∃ r, applyEvents envs 3 b s outbox effects [e] = Some r.
Proof.
  assert (∀ n b s outbox effects e, (rank s e ≤ n)%nat →
    ∃ r, applyEvents envs n b s outbox effects [e] = Some r) as H; cycle 1.
  { apply H. destruct s, e; cbn; lia. }
  induction n as [|n IH]; intros b' s' o f e' Hr; [destruct s', e'; cbn in Hr; lia|].
  cbn. destruct (st_result (ProcessEvent (envs n) b' s' e')) as [t|] eqn:E; [|by eexists].
  apply process_ranked in E as [->|(e2 & -> & He)]; [by destruct n; eexists|].
  apply IH. lia.
Qed.

(** ** What a release returns *)

Definition returned_by (m : ClientOutMsg) : list OutPoint :=
  match m with
  | ReleaseForfeitReservation ops _ | DropCustomForfeitReservation ops => ops
  | _ => []
  end.
Definition returned (l : list ClientOutMsg) : list OutPoint := l ≫= returned_by.

Lemma returned_releases l : returned l = returned (filter (λ m, is_release m = true) l).
Proof.
  induction l as [|m l IH]; [done|]. rewrite filter_cons. unfold returned in *. cbn [mbind list_bind].
  destruct (decide (is_release m = true)) as [Hm|Hm]; [cbn; by rewrite IH|].
  rewrite IH. by destruct m.
Qed.

Lemma add_once_spec l op x : x ∈ add_once l op ↔ x ∈ l ∨ x = op.
Proof. unfold add_once. case_bool_decide; set_solver. Qed.

Lemma rollback_split l st cu x :
  let p := foldl (λ acc r,
    match VTXOOutpoint r with
    | None => acc
    | Some op => if is_custom r then (acc.1, add_once acc.2 op) else (add_once acc.1 op, acc.2)
    end) (st, cu) l in
  x ∈ p.1 ++ p.2 ↔ x ∈ st ++ cu ++ forfeitOutpoints l.
Proof.
  revert st cu. induction l as [|r l IH]; intros st cu; cbn [foldl]; [cbn; by rewrite app_nil_r|].
  unfold forfeitOutpoints. cbn [omap list_omap]. destruct (VTXOOutpoint r) as [op|] eqn:E; [|by apply IH].
  destruct (is_custom r); cbn [fst snd]; cbn zeta in IH; rewrite IH; unfold forfeitOutpoints;
    rewrite !elem_of_app, add_once_spec, elem_of_cons; tauto.
Qed.

Lemma returned_rollback r fs x : x ∈ returned (rollbackOutbox r fs) ↔ x ∈ forfeitOutpoints fs.
Proof.
  unfold rollbackOutbox. pose proof (rollback_split fs [] [] x) as H. cbn zeta in H.
  fold (forfeitRollbackOutpoints fs) in H. destruct (forfeitRollbackOutpoints fs) as [st cu]. cbn in H.
  rewrite <- H. unfold returned. by destruct st, cu; cbn; rewrite ?app_nil_r.
Qed.

Lemma pre_error_free env s e b r fs p err :
  st_result (processPreCheckpointEvent env s e b r fs p) = Err err → rollbackOutbox (Some r) fs = [].
Proof.
  assert (∀ q r', st_result (finishAdmissionTransition q r' fs) = Err err →
    rollbackOutbox (Some r) fs = []) as H.
  { intros q r' Hq. destruct (finish_result q r' fs) as (Hf & _). rewrite Hf in Hq.
    unfold releaseForfeitsOnFailure in Hq. destruct (st_result q); [done|].
    destruct (Nat.eqb _ 0) eqn:En; [|done]. apply Nat.eqb_eq, nil_length_inv in En.
    by eapply rollback_empty. }
  unfold processPreCheckpointEvent. destruct (match _ with Some _ => _ | None => false end); [done|].
  destruct b as [bg|]; [|apply H]. destruct (expired bg env); [apply H|].
  destruct (match e with AdmissionTimedOut r => Some r | _ => None end); [done|apply H].
Qed.

Lemma process_error env b s e err fs :
  reserved s = Some fs → st_result (ProcessEvent env b s e) = Err err → forfeitOutpoints fs = [].
Proof.
  intros Hs H. assert (∃ r, rollbackOutbox r fs = []) as [r Hr].
  { destruct s; try done; injection Hs as <-; cbn [ProcessEvent] in H; try by apply pre_error_free in H; eauto. }
  destruct (forfeitOutpoints fs) as [|op l] eqn:E; [done|].
  assert (op ∈ returned (rollbackOutbox r fs)) as Hin by (apply returned_rollback; rewrite E; by left).
  rewrite Hr in Hin. by apply not_elem_of_nil in Hin.
Qed.

(** Exactly these inputs return. *)
Definition returns (t : Transition) (fs : list ForfeitRequest) : Prop :=
  ∀ op, op ∈ returned (Outbox t) ↔ op ∈ forfeitOutpoints fs.

Lemma rollback_returns t r fs : releases t = rollbackOutbox r fs → returns t fs.
Proof. intros H op. rewrite returned_releases. unfold releases in H. rewrite H. apply returned_rollback. Qed.
Lemma nothing_returned t : releases t = [] → returned (Outbox t) = [].
Proof. intros H. rewrite returned_releases. unfold releases in H. by rewrite H. Qed.

(** C4 Reserved inputs return when a round fails before its checkpoint, and never
    while the operator may still spend them.  Before the checkpoint, an event that ends the round
    returns exactly the reserved inputs, any other event returns none, and an error
    that would tear the machine down cannot happen while inputs are reserved.  After
    the checkpoint inputs return on one event only, the operator's report that this
    very round is dead, and then all of them. *)
Theorem round_releases_exact env b s e :
  match st_result (ProcessEvent env b s e), reserved s with
  | Err _, Some fs => forfeitOutpoints fs = []
  | Err _, None => True
  | Ok t, Some fs =>
      (failed (NextState t) → returns t fs) ∧ (¬ failed (NextState t) → returned (Outbox t) = [])
  | Ok t, None =>
      match s with
      | InputSigSent i =>
          (dead_report i e → failed (NextState t) ∧ returns t (Forfeits (c_Intents (i_Ceremony i)))) ∧
          (¬ dead_report i e → returned (Outbox t) = [])
      | _ => returned (Outbox t) = []
      end
  end.
Proof.
  destruct (st_result (ProcessEvent env b s e)) as [t|] eqn:H; destruct (reserved s) as [fs|] eqn:Er.
  - destruct (process_released _ _ _ _ _ _ Er H) as (_ & Hf & Hn & _). split.
    + intros [r Hr]%Hf. by eapply rollback_returns.
    + intros ?%Hn. by apply nothing_returned.
  - destruct s; try (apply process_other in H as [_ ->]; done).
    apply sent_settled in H as (_ & _ & [[Hd Hr]|(Hd & Hf & Hr)]).
    + split; [done|]. intros _. by apply nothing_returned.
    + split; [|done]. intros _. split; [done|]. by eapply rollback_returns.
  - by eapply process_error.
  - done.
Qed.

(** ** The admission budget *)

(** The states an admitted attempt passes before its checkpoint. *)
Definition admitted (s : ClientState) : bool :=
  match s with
  | PendingRoundAssembly _ _ => false
  | _ => bool_decide (is_Some (reserved s))
  end.

(** A wakeup that was armed for another attempt. *)
Definition stale_wakeup (b : admissionBudget) (e : ClientEvent) : Prop :=
  match e with AdmissionTimedOut r => r ≠ bg_roundID b | _ => False end.

Lemma constrain_shrinks env b r x bg :
  constrainAdmission env b r x = Ok bg → from_option (λ old, cutoff bg ≤ cutoff old) True b.
Proof.
  unfold constrainAdmission. destruct (wrap _ _) as [d|]; [|done]. intros [= <-].
  destruct b as [old|]; [|done]. cbn. destruct (_ <? _) eqn:E; cbn; lia.
Qed.

Definition shrinks (b b' : option admissionBudget) : Prop :=
  from_option (λ old, from_option (λ new, cutoff new ≤ cutoff old) False b') True b.
Lemma shrinks_refl b : shrinks b b.
Proof. destruct b; cbn; [lia|done]. Qed.

Lemma pre_shrinks env s e b r fs p :
  shrinks b (st_budget p) → shrinks b (st_budget (processPreCheckpointEvent env s e b r fs p)).
Proof.
  intros Hp. assert (∀ q r', shrinks b (st_budget q) →
    shrinks b (st_budget (finishAdmissionTransition q r' fs))) as H.
  { intros q r' Hq. by destruct (finish_result q r' fs) as (_ & -> & _). }
  unfold processPreCheckpointEvent.
  destruct (match _ with Some _ => _ | None => false end); [apply shrinks_refl|].
  destruct b as [bg|]; [|by apply H]. destruct (expired bg env); [apply H, shrinks_refl|].
  destruct (match e with AdmissionTimedOut r => Some r | _ => None end); [apply shrinks_refl|by apply H].
Qed.

Ltac keeps_budget :=
  repeat match goal with
  | |- shrinks ?b ?b => apply shrinks_refl
  | |- shrinks _ (st_budget (ok_step _ _)) => apply shrinks_refl
  | |- shrinks _ (st_budget (fail_delivered _ _)) => apply shrinks_refl
  | |- shrinks _ (st_budget (mkStep _ _ _)) => cbn [st_budget]
  | |- context [match ?x with _ => _ end] => destruct x
  end.

Lemma checkpoint_budget env b c i outbox : shrinks b (st_budget (checkpoint env b c i outbox)).
Proof. unfold checkpoint. keeps_budget. Qed.

Lemma intent_budget env b i r e : shrinks b (st_budget (process_IntentSent env b i r e)).
Proof.
  destruct e; cbn [process_IntentSent]; keeps_budget.
  unfold process_RoundJoined. destruct (0 <? _); [|keeps_budget].
  destruct (constrainAdmission _ _ _ _) as [bg|] eqn:E; [|keeps_budget].
  apply constrain_shrinks in E. destruct (expired bg env); destruct b; done.
Qed.

Lemma partial_budget env b c ss e : shrinks b (st_budget (process_PartialSigsSent env b c ss e)).
Proof.
  destruct e; cbn [process_PartialSigsSent]; keeps_budget.
  unfold finish_boarding. keeps_budget. apply checkpoint_budget.
Qed.

Lemma collecting_budget env b c got e :
  shrinks b (st_budget (process_ForfeitSignaturesCollecting env b c got e)).
Proof.
  destruct e; cbn [process_ForfeitSignaturesCollecting]; keeps_budget.
  unfold finishForfeitCollection. keeps_budget. apply checkpoint_budget.
Qed.

Lemma process_budget env b s e : shrinks b (st_budget (ProcessEvent env b s e)).
Proof.
  destruct s; cbn [ProcessEvent]; try apply pre_shrinks; try apply shrinks_refl.
  - apply intent_budget.
  - destruct e; cbn [process_CommitmentTxReceived]; keeps_budget.
  - destruct e; cbn [process_CommitmentTxValidated]; keeps_budget.
  - destruct e; cbn [process_NoncesSent]; keeps_budget.
  - destruct e; cbn [process_NoncesAggregated]; keeps_budget.
  - apply partial_budget.
  - apply collecting_budget.
  - destruct e; cbn [process_InputSigSent]; unfold process_BoardingConfirmed; keeps_budget.
Qed.

Lemma spent_budget env s e bg r fs p :
  expired bg env = true → ¬ stale_wakeup bg e →
  ∃ t, st_result (processPreCheckpointEvent env s e (Some bg) r fs p) = Ok t ∧ failed (NextState t).
Proof.
  intros Hx Hw. unfold processPreCheckpointEvent.
  destruct (match _ with Some _ => _ | None => false end) eqn:Es.
  { destruct e; try done. cbn in Es. apply negb_true_iff, N.eqb_neq in Es. done. }
  rewrite Hx. match goal with |- context [finishAdmissionTransition ?q ?r ?fs] =>
    destruct (finish_result q r fs) as (-> & _) end.
  eexists. split; [done|]. by rewrite release_next.
Qed.

(** C7 The budget of an admitted attempt binds.  No event moves its cutoff to a
    later time, whatever the operator sends; and from the cutoff on, the first event
    the attempt meets before its checkpoint ends it: it fails, returns exactly the
    inputs it had reserved, and sends no signature. *)
Theorem admission_budget_binding env bg s e :
  (∃ bg', st_budget (ProcessEvent env (Some bg) s e) = Some bg' ∧ cutoff bg' ≤ cutoff bg) ∧
  (∀ fs, admitted s = true → reserved s = Some fs → cutoff bg ≤ NowMono env → ¬ stale_wakeup bg e →
   ∃ t, st_result (ProcessEvent env (Some bg) s e) = Ok t ∧ failed (NextState t) ∧ returns t fs ∧
     existsb is_signature (Outbox t) = false).
Proof.
  split.
  { pose proof (process_budget env (Some bg) s e) as H. unfold shrinks in H. cbn in H.
    destruct (st_budget _); [by eauto|done]. }
  intros fs Ha Hs Hc Hw. assert (expired bg env = true) as Hx.
  { unfold expired. apply orb_true_iff. right. apply negb_true_iff. lia. }
  assert (∃ t, st_result (ProcessEvent env (Some bg) s e) = Ok t ∧ failed (NextState t)) as (t & Ht & Hf).
  { destruct s; try done; injection Hs as <-; cbn [ProcessEvent]; by apply spent_budget. }
  exists t. destruct (process_released _ _ _ _ _ _ Hs Ht) as (_ & Hr & _ & Hg). split; [done|].
  split; [done|]. split; [|by apply Hg]. destruct (Hr Hf) as [r Hr']. by eapply rollback_returns.
Qed.
End Steps.
