(* ===== verification/RoundChecks.v ===== *)
(** * What the checks of a round establish

    The meaning of the validators of [RoundValidate], in terms of transactions: the
    exits a client asked for are outputs of the commitment transaction, its deposits
    are inputs, every connector lies below an output of it, a forfeit transaction
    spends a VTXO together with such a connector, and the paths of the VTXOs start
    at an output of it. *)

From S2P Require Import Prelude RecoveryProof VtxoExpiry VtxoForfeit TxTree TxTreeSafety RoundQuote RoundValidate RoundFsm.
Local Open Scope Z_scope.

(** ** Exits *)

Definition occurrences (k : Z * list Z) (l : list TxOut) : nat :=
  length (filter (λ o, output_key o = k) l).

Lemma output_key_inj o o' : output_key o = output_key o' → o = o'.
Proof. destruct o, o'. by intros [= -> ->]. Qed.

Lemma occurrences_cons k o l :
  occurrences k (o :: l) =
  (if decide (output_key o = k) then S (occurrences k l) else occurrences k l).
Proof. unfold occurrences. rewrite filter_cons. by case_decide. Qed.

Lemma occurrences_in o l : (0 < occurrences (output_key o) l)%nat → o ∈ l.
Proof.
  induction l as [|o' l IH]; [cbn; lia|]. rewrite occurrences_cons. case_decide as H.
  - apply output_key_inj in H as ->. by left.
  - intros. right. by apply IH.
Qed.

Lemma occurrences_perm k l l' : l ≡ₚ l' → occurrences k l = occurrences k l'.
Proof. intros H. unfold occurrences. by rewrite H. Qed.

Lemma occurrences_zero l : (∀ k, occurrences k l = 0%nat) → l = [].
Proof.
  destruct l as [|o l]; [done|]. intros H. specialize (H (output_key o)).
  rewrite occurrences_cons, decide_True in H by done. lia.
Qed.

Definition counts (m : gmap (Z * list Z) nat) (l : list TxOut) : Prop :=
  ∀ k, default 0%nat (m !! k) = occurrences k l.

Lemma counted l m l0 :
  counts m l0 →
  counts (foldl (λ m o, <[output_key o := S (default 0%nat (m !! output_key o))]> m) m l) (l ++ l0).
Proof.
  revert m l0. induction l as [|o l IH]; intros m l0 Hm; [done|]. cbn [foldl].
  intros k. rewrite (IH _ (o :: l0)).
  - apply occurrences_perm. cbn. by rewrite Permutation_middle.
  - intros k'. rewrite occurrences_cons. case_decide as H.
    + subst k'. by rewrite lookup_insert_eq, <- Hm.
    + by rewrite lookup_insert_ne by done.
Qed.

(** What is taken out of the counts are outputs. *)
Lemma taken outs m l :
  counts m l → map_Forall (λ _ n, n = 0%nat) (foldl take_output m outs) → l ⊆+ outs.
Proof.
  revert m l. induction outs as [|o outs IH]; intros m l Hm H; cbn [foldl] in H.
  - rewrite (occurrences_zero l); [done|]. intros k. rewrite <- Hm.
    destruct (m !! k) as [n|] eqn:E; [|done]. by apply (H k n).
  - unfold take_output in H at 2. destruct (m !! output_key o) as [[|n]|] eqn:E.
    + apply submseteq_cons. by eapply IH.
    + assert (o ∈ l) as Ho.
      { apply occurrences_in. rewrite <- Hm, E. cbn. lia. }
      apply elem_of_Permutation in Ho as [l' Hl]. rewrite Hl. apply submseteq_skip.
      eapply IH; [|exact H]. intros k. pose proof (Hm k) as Hk.
      rewrite (occurrences_perm k _ _ Hl), occurrences_cons in Hk. case_decide as Hd.
      * subst k. rewrite lookup_insert_eq. rewrite E in Hk. cbn in *. lia.
      * by rewrite lookup_insert_ne by done.
    + apply submseteq_cons. by eapply IH.
Qed.

Lemma index_results_spec {E A B} (f : Z → A → result E B) l i ys :
  index_results f i l = Ok ys →
  Forall2 (λ x y, ∃ j, f j x = Ok (y : B)) l (snd <$> ys) ∧
  ∀ k x, l !! k = Some x → ∃ y, (snd <$> ys) !! k = Some y ∧ f (i + Z.of_nat k) x = Ok y.
Proof.
  revert i ys. induction l as [|x l IH]; intros i ys; cbn.
  - intros [= <-]. split; [constructor|done].
  - destruct (f i x) as [y|] eqn:Ef; [|done]. destruct (index_results f (i + 1) l) as [ys'|] eqn:Er; [|done].
    intros [= <-]. destruct (IH _ _ Er) as [IH1 IH2]. split; [constructor; eauto|].
    intros [|k] z; cbn.
    + intros [= <-]. exists y. rewrite Z.add_0_r. done.
    + intros Hk. destruct (IH2 _ _ Hk) as (y' & ? & ?). exists y'. split; [done|].
      by replace (i + Z.of_nat (S k)) with (i + 1 + Z.of_nat k) by lia.
Qed.

(** Every exit is paid with its script and the amount that was agreed on. *)
Definition leaves_paid (tx : ForfeitMsgTx) (leaves : list (option LeaveRequest)) (amounts : list Z) :
    Prop :=
  ∃ outs, outs ⊆+ f_TxOut tx ∧ length outs = length leaves ∧
    ∀ k l a, leaves !! k = Some l → amounts !! k = Some a →
      ∃ out, leave_output l = Some out ∧ outs !! k = Some (mkTxOut a (PkScript out)).

Lemma leaves_validated tx leaves amounts :
  validateLeaveOutputs tx leaves (Some amounts) = Ok tt → leaves_paid tx leaves amounts.
Proof.
  unfold validateLeaveOutputs. destruct (Nat.eqb _ 0) eqn:En.
  { intros _. apply Nat.eqb_eq, nil_length_inv in En as ->. exists []. split; [apply submseteq_nil_l|].
    done. }
  unfold expected_leaves. destruct (index_results _ 0 leaves) as [ys|] eqn:E; [|done].
  apply index_results_spec in E as [Hf Hl]. case_bool_decide as Hz; [|done]. intros _.
  exists (snd <$> ys). split.
  - eapply taken; [|exact Hz]. unfold count_expected.
    rewrite <- (app_nil_r (snd <$> ys)) at 2. by apply counted.
  - split; [symmetry; by eapply Forall2_length|]. intros k l a Hk Ha.
    destruct (Hl _ _ Hk) as (y & Hy & Hout). destruct (leave_output l) as [out|]; [|done].
    exists out. split; [done|]. rewrite Hy. injection Hout as <-. unfold value_of.
    rewrite Z.add_0_l, Nat2Z.id, Ha. done.
Qed.

(** ** Deposits *)

Lemma foldl_insert_in {K A} `{Countable K} (l : list (A * K)) (m : gmap K A) k v :
  foldl (λ m p, <[p.2 := p.1]> m) m l !! k = Some v → m !! k = Some v ∨ (v, k) ∈ l.
Proof.
  revert m. induction l as [|[a k'] l IH]; intros m; cbn [foldl]; [eauto|]. intros Hk.
  destruct (IH _ Hk) as [Hm|Hm]; [|right; by right]. cbn in Hm.
  destruct (decide (k' = k)) as [->|Hne].
  - rewrite lookup_insert_eq in Hm. injection Hm as ->. right. by left.
  - rewrite lookup_insert_ne in Hm by done. by left.
Qed.

Lemma input_index tx op i :
  input_indices tx !! op = Some i →
  0 ≤ i ∧ ∃ seq, f_TxIn tx !! Z.to_nat i = Some (op, seq).
Proof.
  intros H. apply foldl_insert_in in H as [H|H]; [done|]. apply list_elem_of_lookup in H as [n H].
  rewrite list_lookup_imap in H. destruct (f_TxIn tx !! n) as [[op' seq]|] eqn:E; [|done].
  injection H as <- <-. split; [lia|]. exists seq. by rewrite Nat2Z.id.
Qed.

(** A signature is for an input that spends a deposit of the client. *)
Definition signs_deposit (tx : ForfeitMsgTx) (deposits : list BoardingIntent)
    (s : BoardingInputSignature) : Prop :=
  ∃ d seq, d ∈ deposits ∧ is_Outpoint s = bi_Request d ∧ 0 ≤ InputIndex s ∧
    f_TxIn tx !! Z.to_nat (InputIndex s) = Some (bi_Request d, seq).

Lemma deposits_signed sign p i indices sigs :
  (∀ op j, indices !! op = Some j →
     0 ≤ j ∧ ∃ seq, f_TxIn (UnsignedTx p) !! Z.to_nat j = Some (op, seq)) →
  signBoardingInputs sign p i indices = Ok sigs →
  Forall (signs_deposit (UnsignedTx p) (Boarding i)) sigs.
Proof.
  intros Hi. unfold signBoardingInputs. destruct (forallb _ _); [|done]. intros H.
  apply map_results_ok in H. apply Forall_forall. intros s Hs.
  apply list_elem_of_lookup in Hs as [k Hs]. destruct (Forall2_lookup_r _ _ _ _ _ H Hs) as (d & Hd & Hr).
  destruct (indices !! bi_Request d) as [j|] eqn:E; [|done].
  destruct (wrap _ _) as [sig|]; [|done]. injection Hr as <-.
  destruct (Hi _ _ E) as (Hj & seq & Hseq). exists d, seq. cbn.
  split; [by eapply list_elem_of_lookup_2|done].
Qed.

Section Checked.
Context {TX : Txscript} {MS : Musig} {RS : RoundScripts} {RK : RoundKeys}.

(** ** Connectors *)

(** A transaction at the end of a chain that starts by spending the outpoint. *)
Inductive descends : OutPoint → Node → Prop :=
| descends_here op n : Input n = op → descends op n
| descends_child op n i m :
    Input n = op → 0 ≤ i → (Z.to_nat i < length (Outputs n))%nat →
    descends (mkOutPoint (TXID n) i) m → descends op m.

Lemma conserved_descends n op v m :
  validateNodeValueConservation n op v = Ok tt → m ∈ NodesIter n → descends op m.
Proof.
  revert op v. induction n as [n IH] using Node_nested_ind. intros op v Hv Hm.
  apply conservation_node in Hv as (Hi & _ & _ & Hch). rewrite nodes_eq in Hm.
  apply elem_of_cons in Hm as [->|Hm]; [by apply descends_here|].
  apply list_elem_of_bind in Hm as ([i c] & Hm & Hc). cbn in Hm.
  destruct (Hch _ _ Hc) as (o & Hi0 & Ho & Hv). rewrite Forall_forall in IH.
  eapply descends_child; [done|done|by eapply lookup_lt_Some|].
  by apply (IH _ Hc _ _ Hv).
Qed.

Lemma leaf_in_nodes n m : m ∈ GetLeafNodes n → m ∈ NodesIter n.
Proof.
  induction n as [n IH] using Node_nested_ind. rewrite leaves_eq, nodes_eq.
  destruct (IsLeaf n); [by intros ->%list_elem_of_singleton; left|].
  intros (p & Hm & Hp)%list_elem_of_bind. right. apply list_elem_of_bind. exists p.
  rewrite Forall_forall in IH. split; [by apply IH|done].
Qed.

(** The outpoint belongs to a transaction below the commitment transaction: it
    exists only when that one confirms. *)
Definition connector_below (tx : ForfeitMsgTx) (op : OutPoint) : Prop :=
  ∃ idx out leaf i, 0 ≤ idx ∧ f_TxOut tx !! Z.to_nat idx = Some out ∧
    descends (mkOutPoint (ForfeitTxHash tx) idx) leaf ∧
    op = mkOutPoint (TXID leaf) i ∧ 0 ≤ i ∧ (Z.to_nat i < length (Outputs leaf))%nat.

Lemma first_output_bound i outs j :
  first_output i outs = Some j → i ≤ j ∧ (Z.to_nat (j - i) < length outs)%nat.
Proof.
  revert i. induction outs as [|o outs IH]; intros i; cbn; [done|]. destruct (is_anchor o).
  - intros H. apply IH in H. lia.
  - intros [= <-]. lia.
Qed.

Lemma built_connector op out d key radix t :
  BuildConnectorTree op out d key radix = Ok t → BatchOutpoint t = op ∧ BatchOutput t = Some out.
Proof. unfold BuildConnectorTree, BuildTree. intros H. inv_ok. done. Qed.

Lemma verified_root t :
  Verify_ t = Ok tt →
  ∃ root out, Root t = Some root ∧ BatchOutput t = Some out ∧
    validateNodeValueConservation root (BatchOutpoint t) (Value out) = Ok tt.
Proof.
  unfold Verify_, ValidateValueConservation. destruct (Root t) as [root|]; [|done].
  case_bool_decide as Hin; [|done]. destruct (BatchOutput t) as [out|]; [|done]. intros H%wrap_ok.
  inv_ok. by exists root, out.
Qed.

(** Every transaction of a verified tree moves amounts that exist. *)
Lemma conserved_values n op v m :
  validateNodeValueConservation n op v = Ok tt → m ∈ NodesIter n →
  Forall (λ o, 0 ≤ Value o ≤ MaxSatoshi) (Outputs m).
Proof.
  revert op v. induction n as [n IH] using Node_nested_ind. intros op v Hv Hm.
  apply conservation_node in Hv as (Hi & _ & Hf & Hch). rewrite nodes_eq in Hm.
  apply elem_of_cons in Hm as [->|Hm]; [done|].
  apply list_elem_of_bind in Hm as ([i c] & Hm & Hc). cbn in Hm.
  destruct (Hch _ _ Hc) as (o & Hi0 & Ho & Hv). rewrite Forall_forall in IH.
  by apply (IH _ Hc _ _ Hv).
Qed.

Lemma non_anchor_in leaf o : connectorLeafOutput leaf = Ok o → o ∈ Outputs leaf.
Proof.
  unfold connectorLeafOutput. destruct (filter _ _) as [|x [|]] eqn:E; try done. intros [= <-].
  assert (x ∈ filter (λ o, is_anchor o = false) (Outputs leaf)) as H by (rewrite E; by left).
  by apply list_elem_of_filter in H as [_ ?].
Qed.

Lemma outpoint_bound leaf op :
  GetNonAnchorOutpoint leaf = Ok op →
  ∃ i, op = mkOutPoint (TXID leaf) i ∧ 0 ≤ i ∧ (Z.to_nat i < length (Outputs leaf))%nat.
Proof.
  unfold GetNonAnchorOutpoint. destruct (IsLeaf leaf); [|done].
  destruct (first_output 0 (Outputs leaf)) as [i|] eqn:E; [|done]. intros [= <-].
  apply first_output_bound in E as [? ?]. exists i. rewrite Z.sub_0_r in *. done.
Qed.

Lemma connector_leaf t leaf k :
  Verify_ t = Ok tt → root_leaves t !! k = Some leaf →
  descends (BatchOutpoint t) leaf ∧ Forall (λ o, 0 ≤ Value o ≤ MaxSatoshi) (Outputs leaf).
Proof.
  intros (root & out & Hr & _ & Hv)%verified_root. unfold root_leaves. rewrite Hr. cbn. intros Hl.
  apply list_elem_of_lookup_2, leaf_in_nodes in Hl.
  split; [by eapply conserved_descends|by eapply conserved_values].
Qed.

Lemma connector_verified tx key info :
  verifyConnectorLeaf tx key info = Ok tt →
  connector_below tx (ci_ConnectorOutpoint info) ∧ 0 < ci_ConnectorAmount info ≤ MaxSatoshi.
Proof.
  unfold verifyConnectorLeaf. destruct (RootOutputIndex info <? 0) eqn:Ei; [done|].
  destruct (f_TxOut tx !! _) as [out|] eqn:Eo; [|done]. intros H. inv_ok.
  match goal with H : wrap _ (BuildConnectorTree _ _ _ _ _) = Ok ?t |- _ =>
    apply wrap_ok, built_connector in H as [Hop _]; rename t into ct end.
  match goal with H : wrap _ (Verify_ _) = Ok _ |- _ => apply wrap_ok in H; rename H into Hv end.
  destruct (root_leaves ct !! _) as [leaf|] eqn:El; [|done]. inv_ok.
  match goal with H : wrap _ (GetNonAnchorOutpoint leaf) = Ok _ |- _ =>
    apply wrap_ok, outpoint_bound in H as (i & -> & Hi & Hlt) end.
  match goal with H : connectorLeafOutput leaf = Ok _ |- _ => apply non_anchor_in in H as Hc end.
  destruct (connector_leaf _ _ _ Hv El) as [Hd Hf]. rewrite Forall_forall in Hf. apply Hf in Hc.
  zbool. rewrite Hop in Hd. split; [|lia].
  exists (RootOutputIndex info), out, leaf, i. repeat split; try done; lia.
Qed.

Lemma connectors_validated tx key mappings op info :
  validateConnectorAncestry tx key mappings = Ok tt → mappings !! op = Some info →
  connector_below tx (ci_ConnectorOutpoint info) ∧ 0 < ci_ConnectorAmount info ≤ MaxSatoshi.
Proof.
  unfold validateConnectorAncestry. case_bool_decide as He; [by rewrite He|].
  destruct key as [key|]; [|done]. intros H Hm. apply elem_of_map_to_list in Hm.
  apply for_each_ok with (x := (op, info)) in H; [|done]. apply wrap_ok in H.
  by apply connector_verified in H.
Qed.

(** ** Forfeits *)

Lemma populated mappings fs out op info :
  populateForfeitMappingAmounts mappings fs = Ok out → out !! op = Some info →
  ∃ info0 req, mappings !! op = Some info0 ∧ forfeitRequestMap fs !! op = Some req ∧
    0 < f_Amount req ∧ info = set_vtxo_amount info0 (f_Amount req).
Proof.
  unfold populateForfeitMappingAmounts.
  destruct (map_results _ (map_to_list mappings)) as [l|] eqn:E; [|done]. intros [= <-] Ho.
  apply map_results_ok in E. apply elem_of_list_to_map_2 in Ho.
  apply list_elem_of_lookup in Ho as [k Hk].
  destruct (Forall2_lookup_r _ _ _ _ _ E Hk) as ([op' info0] & Hin & Hp).
  unfold populate_amount in Hp. cbn in Hp. destruct (forfeitRequestMap fs !! op') as [req|] eqn:Er; [|done].
  destruct (0 <? f_Amount req) eqn:Ea; [|done]. injection Hp as -> <-.
  exists info0, req. apply list_elem_of_lookup_2, elem_of_map_to_list in Hin. repeat split; try done. lia.
Qed.

(** The forfeit spends the VTXO together with the connector, and pays the value of
    both to the operator's penalty script of the round. *)
Definition forfeit_bound (c : Ceremony) (op : OutPoint) (s : ForfeitTxSig) : Prop :=
  ∃ tx req connector amount seq penalty anchor script,
    UnsignedForfeitTx s = Some tx ∧ forfeitRequestMap (Forfeits (c_Intents c)) !! op = Some req ∧
    f_TxIn tx = [(op, seq); (connector, MaxTxInSequenceNum)] ∧ f_TxOut tx = [penalty; anchor] ∧
    connector_below (UnsignedTx (c_CommitmentTx c)) connector ∧
    forfeitPenaltyScript (ForfeitKey c) = Ok script ∧ PkScript penalty = script ∧
    0 < amount ∧ (f_Amount req ≤ MaxSatoshi → Value penalty = f_Amount req + amount) ∧
    PkScript anchor = AnchorPkScript ∧ Value anchor = 0.

Lemma forfeit_shape tx p :
  ValidateForfeitTx (Some tx) p = Ok tt →
  ∃ seq penalty anchor, f_TxIn tx = [(p_VTXOOutpoint p, seq); (p_ConnectorOutpoint p, MaxTxInSequenceNum)] ∧
    f_TxOut tx = [penalty; anchor] ∧ PkScript penalty = ServerForfeitScript p ∧
    (0 < ExpectedAmount p → Value penalty = ExpectedAmount p) ∧
    PkScript anchor = AnchorPkScript ∧ Value anchor = 0.
Proof.
  unfold ValidateForfeitTx. destruct (f_TxIn tx) as [|[o1 s1] [|[o2 s2] [|]]]; try done.
  cbn [fst snd]. intros H. inv_ok. destruct (f_TxOut tx) as [|penalty [|anchor [|]]]; try done. inv_ok.
  unfold is_anchor in *. zbool. subst o1 o2. exists s1, penalty, anchor.
  split; [by rewrite G1|]. split; [done|]. split; [done|]. split; [|done].
  intros Hp. apply orb_true_iff in G6 as [G6|G6]; zbool; lia.
Qed.

(** What the validated mappings say of the connector of a forfeit. *)
Definition mappings_ok (c : Ceremony) : Prop :=
  map_Forall (λ op info, ∃ req,
    forfeitRequestMap (Forfeits (c_Intents c)) !! op = Some req ∧ 0 < f_Amount req ∧
    VTXOAmount info = f_Amount req ∧
    connector_below (UnsignedTx (c_CommitmentTx c)) (ci_ConnectorOutpoint info) ∧
    0 < ci_ConnectorAmount info ≤ MaxSatoshi) (ForfeitMappings c).

Lemma response_bound c r :
  mappings_ok c → check_response c r = Ok tt → forfeit_bound c (fs_VTXOOutpoint r) (forfeit_sig r).
Proof.
  unfold check_response. intros Hm. destruct (ForfeitMappings c !! _) as [info|] eqn:E; [|done].
  destruct (Hm _ _ E) as (req & Hr & Ha & Hv & Hb & Hc).
  destruct (wrap _ (forfeitPenaltyScript _)) as [script|] eqn:Es; [|done]. apply wrap_ok in Es.
  intros H%wrap_ok. destruct (fs_ForfeitTx r) as [tx|] eqn:Et; [|done].
  apply forfeit_shape in H as (seq & penalty & anchor & Hi & Ho & Hs & Hp & Han & Hz). cbn in *.
  exists tx, req, (ci_ConnectorOutpoint info), (ci_ConnectorAmount info), seq, penalty, anchor, script.
  repeat split; try done; try lia. intros Hmax. rewrite Hv in Hp.
  rewrite int64_id in Hp by (unfold is_int64, MaxSatoshi in *; lia). apply Hp. lia.
Qed.

(** ** Paths *)

(** The tree hangs below an output of the transaction, which its root can spend. *)
Definition rooted (tx : ForfeitMsgTx) (t : Tree) : Prop :=
  ∃ root out, Root t = Some root ∧ BatchOutput t = Some out ∧
    op_Hash (BatchOutpoint t) = ForfeitTxHash tx ∧ 0 ≤ op_Index (BatchOutpoint t) ∧
    f_TxOut tx !! Z.to_nat (op_Index (BatchOutpoint t)) = Some out ∧
    keyed (childSigningTweak t) out root.

Lemma tree_rooted tx idx t : verifyVTXOTreeRoot tx idx t = Ok tt → rooted tx t.
Proof.
  unfold verifyVTXOTreeRoot. destruct (Root t) as [root|] eqn:Er; [|done].
  destruct (BatchOutput t) as [out|] eqn:Eo; [|done]. intros H. inv_ok. zbool.
  destruct (op_Index (BatchOutpoint t) <? 0) eqn:Ei; [done|].
  destruct (f_TxOut tx !! _) as [[v s]|] eqn:Et; [|done]. inv_ok. zbool. cbn in *.
  destruct out as [v' s']. cbn in *. subst. exists root, (mkTxOut v' s').
  repeat split; try done; try lia. unfold keyed. by apply wrap_ok in E0.
Qed.

Lemma trees_rooted tx trees idx t :
  validateVTXOTreeBinding tx trees = Ok tt → trees !! idx = Some t → rooted tx t.
Proof.
  intros H Ht. apply elem_of_map_to_list in Ht. apply for_each_ok with (x := (idx, t)) in H; [|done].
  apply wrap_ok in H. by eapply tree_rooted.
Qed.

(** Trees that differ only in what the operator may sweep and in asset packages. *)
Definition same_tree (t t' : Tree) : Prop :=
  Root t = Root t' ∧ BatchOutpoint t = BatchOutpoint t' ∧ BatchOutput t = BatchOutput t' ∧
  ∀ n, childSigningTweak t n = childSigningTweak t' n.

Lemma keyed_ext tweak tweak' out n : tweak n = tweak' n → keyed tweak out n → keyed tweak' out n.
Proof. unfold keyed. by intros ->. Qed.

Lemma same_rooted tx t t' : same_tree t t' → rooted tx t → rooted tx t'.
Proof.
  intros (Hr & Hp & Ho & Ht) (root & out & ? & ? & ? & ? & ? & Hk). exists root, out.
  rewrite <- Hr, <- Ho, <- Hp. repeat split; try done. eapply keyed_ext; [apply Ht|done].
Qed.

Lemma clone_tweak c root m :
  m ∈ NodesIter root → SigningTweak (cloneForRoot c root) (Input m) = SigningTweak c (Input m).
Proof.
  intros Hm. unfold SigningTweak, cloneForRoot. cbn [tweaksByInput].
  destruct (tweaksByInput c !! Input m) as [w|] eqn:E.
  - rewrite map_lookup_filter, E. cbn. rewrite option_guard_True; [done|]. by apply (list_elem_of_fmap_2 Input).
  - by rewrite map_lookup_filter, E.
Qed.

Lemma extract_nodes keys n n' m' :
  ExtractNode keys n = Some n' → m' ∈ NodesIter n' →
  ∃ m, m ∈ NodesIter n ∧ Input m' = Input m ∧ CoSigners m' = CoSigners m ∧ FinalKey m' = FinalKey m.
Proof.
  revert n' m'. induction n as [n IH] using Node_nested_ind. intros n' m' He Hm.
  destruct n as [inp outs cos amt sig key ch]. cbn in He. destruct (existsb _ _); [|done].
  injection He as <-. rewrite nodes_eq in Hm. cbn [Children] in *.
  apply elem_of_cons in Hm as [->|Hm]; [eexists; split; [by left|done]|].
  apply list_elem_of_bind in Hm as ([i c] & Hm & Hc). cbn [snd] in Hm.
  apply list_elem_of_omap in Hc as ([j d] & Hd & Hx). cbn in Hx.
  destruct (ExtractNode keys d) as [d'|] eqn:Ed; [|done]. injection Hx as -> ->.
  rewrite Forall_forall in IH. destruct (IH _ Hd _ _ Ed Hm) as (m & Hmn & Heq).
  exists m. split; [|done]. rewrite nodes_eq. right. cbn [Children]. apply list_elem_of_bind. by exists (i, d).
Qed.

Lemma extract_root keys n n' :
  ExtractNode keys n = Some n' → Input n' = Input n ∧ CoSigners n' = CoSigners n.
Proof. destruct n. cbn. destruct (existsb _ _); [|done]. by intros [= <-]. Qed.

Lemma extracted_tweak t key ct root' m' m :
  ExtractPathForCoSigners t [Some key] = Ok (Some ct) → Root ct = Some root' →
  m' ∈ NodesIter root' → Input m' = Input m → childSigningTweak ct m' = childSigningTweak t m.
Proof.
  intros (root & root'' & _ & _ & Hr & _ & _ & Hs & Ha)%extract_tree Hr' Hm Hi.
  unfold childSigningTweak. rewrite Ha, Hs. destruct (AssetContext t) as [c|]; [|done]. cbn.
  assert (root'' = root') as -> by congruence. rewrite clone_tweak by done. by rewrite Hi.
Qed.

Lemma extracted_rooted tx t key ct :
  ExtractPathForCoSigners t [Some key] = Ok (Some ct) → rooted tx t → rooted tx ct.
Proof.
  intros He (root & out & Hr & Ho & Hh & Hi & Hout & Hk). pose proof He as He'.
  apply extract_tree in He' as (r0 & root' & Hr0 & Hx & Hr' & Hp & Hb & _).
  assert (r0 = root) as -> by congruence. apply extract_root in Hx as [Hin Hcs].
  exists root', out. rewrite Hp, Hb. repeat split; try done. unfold keyed in *. rewrite Hcs.
  erewrite (extracted_tweak t key ct root' root' root); try done. rewrite nodes_eq. by left.
Qed.

(** The keys of a tree as its decoder computes them. *)
Definition decoded_tree (t : Tree) : Prop :=
  ∀ root, Root t = Some root → keys_computed (childSigningTweak t) root.

Lemma extracted_decoded t key ct :
  ExtractPathForCoSigners t [Some key] = Ok (Some ct) → decoded_tree t → decoded_tree ct.
Proof.
  intros He Hd root' Hr' m' k Hm Hf. pose proof He as He'.
  apply extract_tree in He' as (root & r0 & Hr & Hx & Hr0 & _). assert (r0 = root') as -> by congruence.
  destruct (extract_nodes _ _ _ _ Hx Hm) as (m & Hmn & Hi & Hc & Hk).
  rewrite (extracted_tweak t key ct root' m' m) by done. rewrite Hc. apply (Hd root Hr m k Hmn). congruence.
Qed.

(** A path of the client as it was checked, before it is signed. *)
Definition checked_path (tx : ForfeitMsgTx) (t : Tree) (key : PublicKey) (script : list Z)
    (amount : Z) : Prop :=
  rooted tx t ∧ ∃ root out vtxo anchor, Root t = Some root ∧ BatchOutput t = Some out ∧
    checked_root (childSigningTweak t) root (BatchOutpoint t) out key [vtxo; anchor] ∧
    PkScript vtxo = script ∧ Value vtxo = amount.

Lemma scripts_ext tweak tweak' n :
  (∀ m, tweak m = tweak' m) → validateNodeChildScripts tweak n = validateNodeChildScripts tweak' n.
Proof.
  intros Ht. induction n as [n IH] using Node_nested_ind.
  destruct n as [inp outs cos amt sig key ch]. cbn in *. apply for_each_ext.
  eapply Forall_impl; [exact IH|]. clear IH. intros [i c] IH. cbn in *.
  destruct (if i <? 0 then _ else _) as [o|]; [|done]. by rewrite IH, Ht.
Qed.

Lemma same_checked tx t t' key script amount :
  same_tree t t' → checked_path tx t key script amount → checked_path tx t' key script amount.
Proof.
  intros Hs [Hrt (root & out & vtxo & anchor & Hr & Ho & (Hv & Hc & Hl & Hk & Hf) & ? & ?)].
  pose proof (same_rooted _ _ _ Hs Hrt) as Hrt'. destruct Hs as (Er & Ep & Eo & Et). split; [done|].
  exists root, out, vtxo, anchor. rewrite <- Er, <- Ep, <- Eo. repeat split; try done.
  - rewrite <- Hc. symmetry. by apply scripts_ext.
  - intros m k Hm Hmk. rewrite <- Et. by apply Hf.
Qed.

Lemma requested_checked tx t req amount op ct :
  rooted tx t → decoded_tree t → validateRequestedVTXO t req amount op = Ok ct →
  ∃ key script, SigningKey req = Some key ∧ (AssetRef req = "" → EffectivePkScript req = Ok script) ∧
    checked_path tx ct key script amount.
Proof.
  intros Hr Hd. unfold validateRequestedVTXO.
  destruct (wrap _ _) as [s0|] eqn:E0; [|done]. apply wrap_ok in E0.
  destruct (if bool_decide _ then _ else _) as [script|] eqn:E1; [|done]. intros Hv.
  destruct (validated_key _ _ _ _ _ Hv) as [key Hkey]. rewrite Hkey in Hv.
  destruct (validated_path _ _ _ _ _ Hv) as [Hx _].
  destruct (validated_checked _ _ _ _ _ Hv (extracted_decoded _ _ _ Hx Hd))
    as (root & out & vtxo & anchor & Hrt & Ho & _ & _ & Hc & Hs & Ha).
  exists key, script. split; [done|]. split.
  - intros He. rewrite bool_decide_eq_true_2 in E1 by done. by injection E1 as <-.
  - split; [by eapply extracted_rooted|]. exists root, out, vtxo, anchor. done.
Qed.

Lemma found_checked tx trees req amount op last ct :
  Forall (λ p : Z * Tree, rooted tx p.2 ∧ decoded_tree p.2) trees →
  find_vtxo trees req amount op last = Ok ct →
  ∃ key script, SigningKey req = Some key ∧ (AssetRef req = "" → EffectivePkScript req = Ok script) ∧
    checked_path tx ct key script amount.
Proof.
  intros Hf. revert last. induction Hf as [|p trees [Hr Hd] _ IH]; intros last; cbn; [done|].
  destruct (validateRequestedVTXO _ _ _ _) as [t|] eqn:E; [|apply IH]. intros [= <-].
  by eapply requested_checked.
Qed.

Lemma sealed_same env req tx t pkgs t' :
  verifyRequestedAssetVTXO env req tx t pkgs = Ok t' → same_tree t t'.
Proof.
  unfold verifyRequestedAssetVTXO. destruct (bool_decide _); [by intros [= <-]|].
  destruct (VerifyAssetVTXO env) as [f|]; [|done]. destruct (root_leaves t) as [|leaf l]; [done|].
  intros H. inv_ok. destruct (AssetContext t) as [c|] eqn:Ec; [|done]. injection H as <-.
  repeat split. intros n. unfold childSigningTweak. by rewrite Ec.
Qed.

(** A request with the path that was found for it. *)
Definition request_checked (tx : ForfeitMsgTx) (q : option ClientQuote)
    (trees : gmap PublicKey Tree) (k : nat) (req : VTXORequest) : Prop :=
  ∃ key t amount script, SigningKey req = Some key ∧ trees !! key = Some t ∧
    quoteVTXOAmount q k req = Ok amount ∧
    (AssetRef req = "" → EffectivePkScript req = Ok script) ∧
    checked_path tx t key script amount.

(** The signers of a round are distinct: each has one path. *)
Definition distinct_signers (reqs : list VTXORequest) : Prop := NoDup (omap SigningKey reqs).

Lemma client_trees_checked env m q op i reqs trees eff trees' eff' :
  Forall (λ p : Z * Tree, rooted (UnsignedTx (b_Tx m)) p.2 ∧ decoded_tree p.2)
    (map_to_list (b_VTXOTreePaths m)) →
  distinct_signers reqs →
  client_trees env m q op i reqs trees eff = (inr trees', eff') →
  (∀ k req, reqs !! k = Some req → request_checked (UnsignedTx (b_Tx m)) q trees' (i + k) req) ∧
  (∀ x, x ∉ omap SigningKey reqs → trees' !! x = trees !! x).
Proof.
  intros Hf. revert i trees eff. induction reqs as [|req reqs IH]; intros i trees eff Hd; cbn [client_trees].
  { intros [= <- <-]. done. }
  destruct (quoteVTXOAmount q i req) as [amount|] eqn:Eq; [|done].
  destruct (find_vtxo _ _ _ _ _) as [t|[|]] eqn:Et; [|done..].
  destruct (verifyRequestedAssetVTXO _ _ _ _ _) as [t'|] eqn:Ev; [|done].
  destruct (registerRequestedAssetVTXO _ _ _) as [reg|]; [|done].
  destruct (SigningKey req) as [key|] eqn:Ek; [|done]. intros Hc.
  unfold distinct_signers in Hd. cbn in Hd. rewrite Ek in Hd. apply NoDup_cons in Hd as [Hn Hd].
  destruct (IH _ _ _ Hd Hc) as [IH1 IH2].
  destruct (found_checked _ _ _ _ _ _ _ Hf Et) as (key' & script & Hk & Hs & Hp).
  rewrite Ek in Hk. injection Hk as <-. split.
  - intros [|k] r; cbn.
    + intros [= <-]. eexists key, _, amount, script. rewrite Nat.add_0_r, IH2, lookup_insert_eq by done.
      split; [done|]. split; [done|]. split; [done|]. split; [done|].
      eapply same_checked; [|exact Hp]. apply sealed_same in Ev as (? & ? & ? & Htw).
      by repeat split.
    + intros Hr. destruct (IH1 _ _ Hr) as (a & b & c & d & H1 & H2 & H3 & H4).
      exists a, b, c, d. by rewrite <- Nat.add_succ_comm.
  - intros x Hx. cbn in Hx. rewrite Ek in Hx. apply not_elem_of_cons in Hx as [Hx1 Hx2].
    rewrite IH2 by done. by rewrite lookup_insert_ne.
Qed.

Lemma requests_checked env m q reqs trees eff :
  Forall (λ p : Z * Tree, rooted (UnsignedTx (b_Tx m)) p.2 ∧ decoded_tree p.2)
    (map_to_list (b_VTXOTreePaths m)) →
  distinct_signers reqs → requested_paths env m q reqs = (inr trees, eff) →
  ∀ k req, reqs !! k = Some req → request_checked (UnsignedTx (b_Tx m)) q trees k req.
Proof.
  intros Hf Hd. unfold requested_paths. destruct (match TreeCosignKey m with Some k => _ | None => _ end).
  - intros H. by eapply client_trees_checked in H as [? _].
  - by destruct reqs.
Qed.

End Checked.
