(* ===== verification/RoundSound.v ===== *)
(** * What a client signs away, and for what

    The whole life of a round under any operator: events arrive in any order, with
    any content, and every store, wallet and signer may fail.  A signature that
    leaves the client, for a deposit or for the forfeit of a VTXO, leaves with the
    round already checkpointed, for a quote the client accepted, and only when the
    commitment transaction pays every exit, starts a fully signed path to every VTXO
    and is an ancestor of every connector. *)

From S2P Require Import Prelude RecoveryProof VtxoExpiry VtxoForfeit TxTree TxTreeSafety RoundQuote RoundValidate RoundFsm RoundSteps RoundChecks.
Local Open Scope Z_scope.

Section Sound.
Context {TX : Txscript} {MS : Musig} {RS : RoundScripts} {RK : RoundKeys} {HL : HashLaws}.

(** ** The commitment transaction *)

(** The trees of a message, with the keys its decoder computed. *)
Definition decoded (m : CommitmentTxBuilt) : Prop :=
  map_Forall (λ _ t, decoded_tree t) (b_VTXOTreePaths m).

Definition commitment (c : Ceremony) : ForfeitMsgTx := UnsignedTx (c_CommitmentTx c).

Definition indices_ok (c : Ceremony) : Prop :=
  ∀ op j, BoardingInputIndices c !! op = Some j →
    0 ≤ j ∧ ∃ seq, f_TxIn (commitment c) !! Z.to_nat j = Some (op, seq).

(** What holds of a ceremony from the moment its transaction is accepted. *)
Record accepted (c : Ceremony) (quote : ClientQuote) : Prop := mkAccepted {
  acc_indices : indices_ok c;
  acc_leaves : leaves_paid (commitment c) (Leaves (c_Intents c)) (lq_AmountSat <$> LeaveQuotes quote);
  acc_quoted : (length (Leaves (c_Intents c)) ≤ length (LeaveQuotes quote))%nat;
  acc_mappings : mappings_ok c;
  acc_requests : distinct_signers (VTXOs (c_Intents c)) →
    ∀ k req, VTXOs (c_Intents c) !! k = Some req →
      request_checked (commitment c) (Some quote) (ClientTrees c) k req;
}.

Lemma or_reject_ok {A} reason rec (r : result error A) x : or_reject reason rec r = Ok x → r = Ok x.
Proof. destruct r; [|done]. by intros [= <-]. Qed.
Lemma or_broken_ok {A} (r : result error A) x : or_broken r = Ok x → r = Ok x.
Proof. destruct r; [|done]. by intros [= <-]. Qed.

Lemma deposits_checked tx deposits indices :
  (if Nat.eqb (length deposits) 0 then Ok ∅
   else or_reject "commitment tx validation failed" true (validateBoardingInputs tx deposits)) =
    Ok indices →
  ∀ op j, indices !! op = Some j → 0 ≤ j ∧ ∃ seq, f_TxIn tx !! Z.to_nat j = Some (op, seq).
Proof.
  destruct (Nat.eqb _ 0); [by intros [= <-]|]. intros H%or_reject_ok op j Hj. unfold validateBoardingInputs in H.
  inv_ok. by apply input_index.
Qed.

Lemma exits_checked tx quote leaves :
  (if Nat.eqb (length leaves) 0 then Ok tt
   else
     let* amounts := or_broken (quoteLeaveAmounts (Some quote) leaves) in
     or_reject "leave output validation failed" true (validateLeaveOutputs tx leaves amounts)) =
    Ok tt →
  leaves_paid tx leaves (lq_AmountSat <$> LeaveQuotes quote) ∧
  (length leaves ≤ length (LeaveQuotes quote))%nat.
Proof.
  destruct (Nat.eqb (length leaves) 0) eqn:En.
  { apply Nat.eqb_eq, nil_length_inv in En as ->. intros _. split; [|cbn; lia].
    exists []. split; [apply submseteq_nil_l|done]. }
  intros H. inv_ok. apply or_broken_ok in E. apply or_reject_ok in H. cbn in E. inv_ok.
  apply leaves_validated in H as (outs & Hs & Hl & Hp). apply Nat.leb_le in G. split; [|done].
  exists outs. split; [done|]. split; [done|]. intros k l a Hk Ha. apply (Hp k l a Hk).
  rewrite lookup_take. rewrite decide_True; [done|]. by eapply lookup_lt_Some.
Qed.

Lemma outputs_checked env m i quote indices :
  check_outputs env m i (Some quote) = Ok indices →
  (∀ op j, indices !! op = Some j →
     0 ≤ j ∧ ∃ seq, f_TxIn (UnsignedTx (b_Tx m)) !! Z.to_nat j = Some (op, seq)) ∧
  leaves_paid (UnsignedTx (b_Tx m)) (Leaves i) (lq_AmountSat <$> LeaveQuotes quote) ∧
  (length (Leaves i) ≤ length (LeaveQuotes quote))%nat ∧
  validateVTXOTreeBinding (UnsignedTx (b_Tx m)) (b_VTXOTreePaths m) = Ok tt.
Proof.
  unfold check_outputs.
  destruct (or_reject _ _ (ValidateDelayParameters _ _)); [|done].
  destruct (if Nat.eqb (length (Boarding i)) 0 then _ else _) as [idx|] eqn:E1; [|done].
  destruct (if Nat.eqb (length (Leaves i)) 0 then _ else _) as [[]|] eqn:E2; [|done].
  destruct (or_reject _ _ (validateVTXOTreeBinding _ _)) as [[]|] eqn:E3; [|done].
  destruct (or_reject _ _ (validateRoundSweepPolicy _ _ _)); [|done]. intros [= <-].
  apply exits_checked in E2 as [? ?]. apply or_reject_ok in E3.
  split; [by eapply deposits_checked|]. done.
Qed.

Lemma forfeits_checked env m i c :
  check_forfeits env m i (b_ForfeitMappings m) = Ok (ForfeitMappings c) →
  c_Intents c = i → commitment c = UnsignedTx (b_Tx m) → mappings_ok c.
Proof.
  unfold check_forfeits. intros H Hi Hc. inv_ok. apply or_broken_ok, wrap_ok in H.
  apply or_reject_ok in E0. intros op info Ho. unfold commitment in Hc. rewrite Hi, Hc.
  destruct (populated _ _ _ _ _ H Ho) as (info0 & req & Hm & Hr & Ha & ->).
  destruct (connectors_validated _ _ _ _ _ E0 Hm) as [Hb Hx]. by exists req.
Qed.

Lemma commitment_accepted env m i quote c eff :
  decoded m → validate_commitment env m i (Some quote) (b_ForfeitMappings m) = (Ok c, eff) →
  c_Intents c = i ∧ accepted c quote.
Proof.
  intros Hd. unfold validate_commitment.
  destruct (check_outputs env m i (Some quote)) as [idx|v] eqn:E1; [|done].
  apply outputs_checked in E1 as (Hidx & Hl & Hq & Hb).
  destruct (requested_paths _ _ _ _) as [[v|trees] eff'] eqn:E2; [done|].
  destruct (check_forfeits _ _ _ _) as [fm|v] eqn:E3; [|done].
  intros [= <- <-]. split; [done|]. constructor; try done.
  - by eapply forfeits_checked.
  - intros Hn. eapply requests_checked; [|exact Hn|exact E2].
    apply Forall_forall. intros [x t] Hx. apply elem_of_map_to_list in Hx. cbn.
    split; [by eapply trees_rooted|by apply (Hd x)].
Qed.

(** ** The signed paths *)

(** The exit of a request: a path below an output of the commitment transaction,
    signed throughout, to a leaf with the script and the quoted amount. *)
Definition owned_exit (c : Ceremony) (quote : ClientQuote) (k : nat) (req : VTXORequest) : Prop :=
  ∃ key t entry script, SigningKey req = Some key ∧ ClientTrees c !! key = Some t ∧
    VTXOQuotes quote !! k = Some entry ∧ (AssetRef req = "" → EffectivePkScript req = Ok script) ∧
    rooted (commitment c) t ∧ signed_path t key script (vq_AmountSat entry).

Record ready (c : Ceremony) (quote : ClientQuote) : Prop := mkReady {
  rd_indices : indices_ok c;
  rd_leaves : leaves_paid (commitment c) (Leaves (c_Intents c)) (lq_AmountSat <$> LeaveQuotes quote);
  rd_quoted : (length (Leaves (c_Intents c)) ≤ length (LeaveQuotes quote))%nat;
  rd_mappings : mappings_ok c;
  rd_exits : ∀ k req, VTXOs (c_Intents c) !! k = Some req → owned_exit c quote k req;
}.

Lemma list_to_map_values {K A B} `{Countable K} (R : A → B → Prop) (m : gmap K A) (l : list (K * B)) k x :
  Forall2 (λ p p', p'.1 = p.1 ∧ R p.2 p'.2) (map_to_list m) l → m !! k = Some x →
  ∃ y, (list_to_map l : gmap K B) !! k = Some y ∧ R x y.
Proof.
  intros Hl Hk. assert (l.*1 = (map_to_list m).*1) as Hkeys.
  { induction Hl as [|p p' xs ys [Hp _] _ IH]; [done|]. cbn. by rewrite Hp, IH. }
  apply elem_of_map_to_list, list_elem_of_lookup in Hk as [n Hn].
  destruct (Forall2_lookup_l _ _ _ _ _ Hl Hn) as ([k' y] & Hy & Hk' & Hr). cbn in *. subst k'.
  exists y. split; [|done]. apply elem_of_list_to_map_1; [rewrite Hkeys; apply NoDup_fst_map_to_list|].
  by eapply list_elem_of_lookup_2.
Qed.

Lemma clients_signed sigs r trees clients key t :
  sign_client_trees sigs r trees = Ok clients → trees !! key = Some t →
  ∃ t', clients !! key = Some t' ∧ SubmitTreeSigs t sigs = Ok t' ∧ VerifySigned t' = Ok tt.
Proof.
  unfold sign_client_trees. destruct (map_results _ _) as [l|] eqn:E; [|done]. intros [= <-] Ht.
  eapply (list_to_map_values (λ t t', SubmitTreeSigs t sigs = Ok t' ∧ VerifySigned t' = Ok tt)); [|exact Ht].
  apply map_results_ok in E. eapply Forall2_impl; [exact E|]. intros [k x] p. cbn.
  destruct (SubmitTreeSigs x sigs) as [x'|]; [|done]. destruct (VerifySigned x') as [[]|] eqn:Ev; [|done].
  intros [= <-]. done.
Qed.

Lemma exit_signed tx t key script amount sigs t' :
  checked_path tx t key script amount → SubmitTreeSigs t sigs = Ok t' → VerifySigned t' = Ok tt →
  rooted tx t' ∧ signed_path t' key script amount.
Proof.
  intros [(root & out & Hr & Ho & Hh & Hi & Hout & Hk) (root0 & out0 & vtxo & anchor & Hr0 & Ho0 & Hc & <- & <-)].
  assert (root0 = root) as -> by congruence. assert (out0 = out) as -> by congruence.
  unfold SubmitTreeSigs. rewrite Hr. destruct (submit_node sigs root) as [root'|] eqn:Es; [|done].
  intros [= <-] Hv. apply submit_erase in Es. split.
  - exists root', out. repeat split; try done. unfold keyed in *. cbn. destruct root', root. cbn in *.
    injection Es as -> _ -> _. done.
  - eapply checked_signed; [done|exact Ho|done|]. eapply checked_erased; [by intros []|exact Es|exact Hc].
Qed.

Lemma signed_ready c quote sigs paths clients :
  accepted c quote → distinct_signers (VTXOs (c_Intents c)) →
  sign_client_trees sigs (c_RoundID c) (ClientTrees c) = Ok clients →
  ready (with_trees c paths clients) quote.
Proof.
  intros [Hi Hl Hq Hm Hr] Hd Hs. constructor; try done. intros k req Hk.
  destruct (Hr Hd _ _ Hk) as (key & t & amount & script & Hkey & Ht & Ha & Hscript & Hp).
  destruct (clients_signed _ _ _ _ _ _ Hs Ht) as (t' & Ht' & Hsub & Hv).
  destruct (exit_signed _ _ _ _ _ _ _ Hp Hsub Hv) as [Hroot Hsig].
  cbn in Ha. destruct (VTXOQuotes quote !! k) as [entry|] eqn:Ee; [|done]. injection Ha as <-.
  by exists key, t', entry, script.
Qed.

Lemma leave_only_ready c quote : accepted c quote → VTXOs (c_Intents c) = [] → ready c quote.
Proof. intros [Hi Hl Hq Hm _] Hv. constructor; try done. intros k req. by rewrite Hv. Qed.

Lemma jobs_distinct seen trees reqs jobs :
  session_jobs seen trees reqs = Ok jobs →
  distinct_signers reqs ∧ Forall (λ k, k ∉ seen) (omap SigningKey reqs).
Proof.
  revert seen jobs. induction reqs as [|req reqs IH]; intros seen jobs; cbn [session_jobs].
  { intros _. split; constructor. }
  unfold distinct_signers. cbn. destruct (SigningKey req) as [k|]; [|done].
  case_bool_decide as Hin; [done|]. cbn. destruct (trees !! k); [|done].
  destruct (session_jobs _ _ _) as [jobs'|] eqn:E; [|done]. intros _.
  apply IH in E as [Hd Hf]. rewrite Forall_forall in Hf. split.
  - constructor; [|done]. intros Hk. apply Hf in Hk. set_solver.
  - constructor; [done|]. apply Forall_forall. intros x Hx%Hf. set_solver.
Qed.

(** ** Reachable states *)

(** The client asked for this, with at most one change output. *)
Definition designated (i : Intents) : Prop :=
  ∃ vtxos leaves, designateChangeMarker vtxos leaves = (VTXOs i, Leaves i).

(** The quote the client accepted for what it asked for. *)
Definition agreed (i : Intents) (quote : ClientQuote) : Prop :=
  ∃ env i0 id, designated i0 ∧ evaluateQuote (quote_env env) i0 (Some quote) = QuoteAccepted_ id ∧
    i = quoted_intents i0 (Some quote).

(** Events from outside: the decision on a quote and the two starts of the signing
    are the machine's own. *)
Definition external (e : ClientEvent) : Prop :=
  match e with
  | QuoteAccepted _ _ | QuoteRejected _ _ _ | GenerateNonces | GeneratePartialSigs => False
  | CommitmentTxBuiltEvent m => decoded m
  | _ => True
  end.

(** The machine between two events: its state, its budget and its queue. *)
Inductive reachable : ClientState → option admissionBudget → list ClientEvent → Prop :=
| reach_start : reachable Idle None []
| reach_deliver s b e : reachable s b [] → external e → reachable s b [e]
| reach_step env s b e queue t :
    reachable s b (e :: queue) → st_result (ProcessEvent env b s e) = Ok t →
    reachable (NextState t) (st_budget (ProcessEvent env b s e)) (queue ++ InternalEvent t).

Definition state_ok (s : ClientState) : Prop :=
  match s with
  | IntentSent i _ | QuoteReceived _ _ i => designated i
  | RoundJoinedState _ i q => ∃ quote, q = Some quote ∧ agreed i quote
  | CommitmentTxReceived m i q => decoded m ∧ ∃ quote, q = Some quote ∧ agreed i quote
  | CommitmentTxValidated c => ∃ quote, agreed (c_Intents c) quote ∧ accepted c quote
  | NoncesSent c _ | NoncesAggregatedState c _ _ | PartialSigsSent c _ =>
      ∃ quote, agreed (c_Intents c) quote ∧ accepted c quote ∧ distinct_signers (VTXOs (c_Intents c))
  | ForfeitSignaturesCollecting c got =>
      ∃ quote, agreed (c_Intents c) quote ∧ ready c quote ∧
        map_Forall (λ op r, forfeit_bound c op (forfeit_sig r)) got
  | _ => True
  end.

Definition queue_ok (s : ClientState) (queue : list ClientEvent) : Prop :=
  match s with
  | QuoteReceived r q i => ∃ env quote, q = Some quote ∧
      queue = [decision_event r (evaluateQuote (quote_env env) i q)]
  | CommitmentTxReceived m _ _ => queue = [CommitmentTxBuiltEvent m]
  | CommitmentTxValidated _ => queue = [GenerateNonces]
  | NoncesAggregatedState _ _ _ => queue = [GeneratePartialSigs]
  | _ => queue = [] ∨ ∃ e, queue = [e] ∧ external e
  end.

Definition inv (s : ClientState) (queue : list ClientEvent) : Prop := state_ok s ∧ queue_ok s queue.

Definition inv_next (t : Transition) : Prop := inv (NextState t) (InternalEvent t).

Lemma inv_failed t : failed (NextState t) → InternalEvent t = [] → inv_next t.
Proof. unfold inv_next, inv. intros Hf ->. destruct (NextState t); try done. split; [done|by left]. Qed.

Lemma pre_inv env s e b r fs p t :
  (∀ t', st_result p = Ok t' → inv_next t') → (∀ r', e = AdmissionTimedOut r' → inv s []) →
  st_result (processPreCheckpointEvent env s e b r fs p) = Ok t → inv_next t.
Proof.
  intros Hp Hw Ht. destruct (pre_cases _ _ _ _ _ _ _ _ Ht) as [outbox _ [r' Hr]| |t0 ? _ Hr|].
  - by eapply Hw.
  - apply inv_failed; [by rewrite release_next|by rewrite release_internal].
  - unfold inv_next. rewrite release_next, release_internal. by apply Hp.
  - apply inv_failed; [by rewrite release_next|by rewrite release_internal].
Qed.

(** *** The handlers *)

Lemma single_inj {A} (x y : A) : [x] = [y] → x = y.
Proof. by intros [= ->]. Qed.

Ltac fails := intros [= <-]; by apply inv_failed.
Ltac stays := split; [done|by left].

Lemma receive_inv env r i quote : designated i → inv_next (receive_quote env r i (Some quote)).
Proof. intros Hd. split; [done|]. by exists env, quote. Qed.

Lemma quoted_designated i q : designated i → designated (quoted_intents i q).
Proof.
  unfold quoted_intents. destruct q as [q|]; [|done]. by destruct (Nat.eqb _ 0).
Qed.
Lemma agreed_designated i quote : agreed i quote → designated i.
Proof. intros (env & i0 & id & Hd & _ & ->). by apply quoted_designated. Qed.

Lemma pending_inv env wait p e : inv_next (process_PendingRoundAssembly env wait p e).
Proof.
  destruct e; try (by stays); cbn [process_PendingRoundAssembly].
  - destruct (isEmpty i); [stays|]. destruct (merge_package p i); [stays|by apply inv_failed].
  - destruct (waitForScheduledSlot env) as [[|]|]; [|stays|by apply inv_failed].
    destruct (build_join env p) as [[i m]|t] eqn:E.
    + apply build_join_message in E as (_ & _ & _ & Hd). split; [done|by left].
    + apply build_join_err in E as (? & ? & ->). by apply inv_failed.
Qed.

Lemma intent_inv env b i r e t :
  designated i → st_result (process_IntentSent env b i r e) = Ok t → inv_next t.
Proof.
  intros Hd. destruct e; cbn [process_IntentSent]; try (intros [= <-]; split; [done|by left]).
  - destruct (negb _); [intros [= <-]; split; [done|by left]|fails].
  - unfold process_RoundJoined. destruct (0 <? _); [|intros [= <-]; split; [done|by left]].
    destruct (constrainAdmission _ _ _ _) as [bg|]; [|fails].
    destruct (expired bg env); [fails|intros [= <-]; split; [done|by left]].
  - destruct (N.eqb r NoRound); [fails|]. destruct (negb _); [fails|]. destruct quote as [quote|]; [|done].
    intros [= <-]. by apply receive_inv.
Qed.

Lemma quote_inv env r q i e t :
  inv (QuoteReceived r q i) [e] → process_QuoteReceived env r q i e = Ok t → inv_next t.
Proof.
  intros [Hd (env' & quote & -> & ->%single_inj)].
  destruct (evaluateQuote (quote_env env') i (Some quote)) as [id|id reason] eqn:Ev;
    cbn [decision_event process_QuoteReceived]; [|fails].
  destruct (_ && _); [fails|]. intros [= <-]. split; [|by left].
  exists quote. split; [done|]. by exists env', i, id.
Qed.

Lemma joined_inv env r i q e :
  inv (RoundJoinedState r i q) [e] → inv_next (process_RoundJoinedState env r i q e).
Proof.
  intros [(quote & -> & Ha) [|(e' & [= <-] & He)]]; [done|].
  destruct e; cbn [process_RoundJoinedState];
    try (split; [by exists quote|by left]); try (by apply inv_failed).
  - destruct (supersedes quote0 (Some quote)) eqn:Es; cbn [negb]; [|split; [by exists quote|by left]].
    destruct (negb _); [by apply inv_failed|]. destruct quote0 as [q0|]; [|done].
    apply receive_inv. by eapply agreed_designated.
  - destruct (negb _); [by apply inv_failed|]. split; [|done]. split; [done|by exists quote].
Qed.

Lemma received_inv env b m i q e t :
  inv (CommitmentTxReceived m i q) [e] →
  st_result (process_CommitmentTxReceived env b m i q e) = Ok t → inv_next t.
Proof.
  intros [[Hdec (quote & -> & Ha)] [= ->]]. cbn [process_CommitmentTxReceived].
  destruct (validate_commitment _ _ _ _ _) as [[c|[]] eff] eqn:E; [|fails|done]. intros [= <-].
  apply commitment_accepted in E as [<- Hc]; [|done]. split; [by exists quote|done].
Qed.

Lemma validated_inv env b c e t :
  inv (CommitmentTxValidated c) [e] →
  st_result (process_CommitmentTxValidated env b c e) = Ok t → inv_next t.
Proof.
  intros [(quote & Ha & Hc) [= ->]]. cbn [process_CommitmentTxValidated].
  destruct (Nat.eqb _ 0 && _) eqn:El.
  - apply andb_true_iff in El as [Hv _]. apply Nat.eqb_eq, nil_length_inv in Hv.
    destruct (forfeitPenaltyScript _); [|fails]. intros [= <-]. split; [|by left].
    exists quote. split; [done|]. split; [by apply leave_only_ready|apply map_Forall_empty].
  - cbn. destruct (session_jobs _ _ _) eqn:Ej; [|done]. destruct (wrap _ _); [|done].
    intros [= <-]. apply jobs_distinct in Ej as [Hd _]. split; [by exists quote|by left].
Qed.

Lemma partial_inv env b c ss e t :
  inv (PartialSigsSent c ss) [e] →
  st_result (process_PartialSigsSent env b c ss e) = Ok t → inv_next t.
Proof.
  intros [(quote & Ha & Hc & Hd) _].
  destruct e; cbn [process_PartialSigsSent]; try (intros [= <-]; split; [by exists quote|by left]); try fails.
  destruct (sign_trees _ _) as [paths|]; [|fails].
  destruct (sign_client_trees _ _ _) as [clients|t'] eqn:Es.
  - destruct (bool_decide _).
    + unfold finish_boarding, checkpoint. destruct (signBoardingInputs _ _ _ _); [|done].
      destruct (CommitState env); [|done]. intros [= <-]. stays.
    + intros [= <-]. unfold transitionToForfeitCollection. destruct (forfeitPenaltyScript _); [|by apply inv_failed].
      split; [|by left]. exists quote. split; [done|].
      split; [by eapply signed_ready|apply map_Forall_empty].
  - apply sign_client_err in Es as (? & ? & ->). fails.
Qed.

Lemma collecting_inv env b c got e t :
  inv (ForfeitSignaturesCollecting c got) [e] →
  st_result (process_ForfeitSignaturesCollecting env b c got e) = Ok t → inv_next t.
Proof.
  intros [(quote & Ha & Hr & Hg) _].
  destruct e; cbn [process_ForfeitSignaturesCollecting];
    try (intros [= <-]; split; [by exists quote|by left]); try fails.
  - destruct (check_response c r) as [[]|] eqn:Ec; [|done].
    destruct (bool_decide _); [intros [= <-]; split; [by exists quote|by left]|].
    destruct (_ <? _)%nat.
    + intros [= <-]. split; [|by left]. exists quote. split; [done|]. split; [done|].
      apply map_Forall_insert_2; [|done]. apply response_bound; [apply Hr|done].
    + unfold finishForfeitCollection, checkpoint. destruct (signBoardingInputs _ _ _ _); [|done].
      destruct (CommitState env); [|done]. intros [= <-]. stays.
  - destruct (negb _); [intros [= <-]; split; [by exists quote|by left]|fails].
Qed.

Lemma sent_inv env b i e t : st_result (process_InputSigSent env b i e) = Ok t → inv_next t.
Proof.
  destruct e; cbn [process_InputSigSent]; try (intros [= <-]; stays).
  - unfold process_BoardingConfirmed. destruct (buildClientVTXOs _ _ _ _).
    + destruct (batch_expiry _ _); [|done].
      destruct (Nat.eqb _ 0); [|destruct (SaveVTXOs _ _); [|done]]; intros [= <-]; stays.
    + intros [= <-]. unfold appendReconcileDisarm. by destruct (_ <=? 0); apply inv_failed.
  - intros [= <-]. destruct (_ || _); [|stays].
    unfold appendReconcileDisarm. by destruct (_ <=? 0); apply inv_failed.
  - destruct (_ <=? 0); intros [= <-]; stays.
  - destruct status; [|intros [= <-]; stays]. destruct (negb _); intros [= <-]; [stays|].
    apply inv_failed; [by rewrite disarm_next, release_next|].
    unfold appendReconcileDisarm. destruct (_ <=? 0); cbn [InternalEvent]; apply release_internal.
Qed.

Lemma process_inv env b s e t :
  inv s [e] → st_result (ProcessEvent env b s e) = Ok t → inv_next t.
Proof.
  intros Hi. assert (∀ r, e = AdmissionTimedOut r → inv s []) as Hw.
  { intros r ->. destruct Hi as [Hs Hq]. destruct s; try (by split; [done|left]); cbn in Hq; try done.
    destruct Hq as (? & ? & _ & Hq%single_inj). revert Hq. generalize (evaluateQuote (quote_env x) intents quote). by intros []. }
  destruct s; cbn [ProcessEvent]; try (apply pre_inv; [|done]).
  - intros [= <-]. destruct e; try stays. cbn. by destruct (isEmpty i); stays.
  - intros [= <-]. unfold inv_next. rewrite release_next, release_internal. apply pending_inv.
  - intros t'. apply intent_inv, Hi.
  - intros t'. by apply quote_inv.
  - intros t' [= <-]. by apply joined_inv.
  - intros t'. by apply received_inv.
  - intros t'. by apply validated_inv.
  - destruct Hi as [(quote & Ha) _]. intros t'.
    destruct e; cbn; try (intros [= <-]; split; [by exists quote|by left]); try fails.
    destruct (for_each _ _); [|done]. intros [= <-]. split; [by exists quote|done].
  - destruct Hi as [(quote & Ha) [= ->]]. intros t'. cbn. destruct (wrap _ _); [|done].
    intros [= <-]. split; [by exists quote|by left].
  - intros t'. by apply partial_inv.
  - intros t'. by apply collecting_inv.
  - apply sent_inv.
  - intros [= <-]. by destruct e; stays.
  - intros [= <-]. destruct Hi as [_ [|(e' & [= <-] & He)]]; [done|]. destruct e; try stays. cbn.
    destruct (isEmpty i); [stays|]. split; [done|]. right. by eexists.
  - intros [= <-]. stays.
Qed.

Lemma queue_single s e queue : queue_ok s (e :: queue) → queue = [].
Proof.
  destruct s; cbn; try (intros [?|(? & [= _ ->] & _)]; done); try by intros [= _ ->].
  intros (? & ? & _ & Hq). by apply (f_equal tail) in Hq.
Qed.

Lemma round_reachable_inv s b queue : reachable s b queue → inv s queue.
Proof.
  induction 1 as [|s b e _ [Hs Hq] He|env s b e queue t _ IH Ht].
  - split; [done|by left].
  - split; [done|]. destruct s; try (by right; eexists); try (by cbn in Hq).
    by destruct Hq as (? & ? & _ & ?).
  - assert (queue = []) as -> by (by destruct IH as [_ ?%queue_single]). by eapply process_inv.
Qed.

(** ** Signatures *)

Lemma not_signature l m : existsb is_signature l = false → m ∈ l → is_signature m = false.
Proof.
  intros H Hm. destruct (is_signature m) eqn:E; [|done]. rewrite <- H. symmetry. apply existsb_exists.
  exists m. split; [by apply list_elem_of_In|done].
Qed.

Lemma release_message t r fs m :
  m ∈ Outbox (release_on t r fs) → is_signature m = true → m ∈ Outbox t.
Proof.
  destruct (failed_dec (NextState t)) as [Hf|Hf]; [|by rewrite release_other].
  destruct (decide (rollbackOutbox r fs = [])) as [He|He]; [by rewrite release_keep|].
  destruct (release_outbox t r fs Hf He) as (tail & Ht & ->). intros [Hm|Hm]%elem_of_app Hs.
  - destruct (existsb is_release (Outbox t)); [done|]. apply elem_of_app in Hm as [Hm|Hm]; [|done].
    by rewrite (not_signature _ _ (rollback_unsigned r fs) Hm) in Hs.
  - destruct Ht as [->|(? & ? & ? & ? & ->)]; [by apply not_elem_of_nil in Hm|].
    by apply list_elem_of_singleton in Hm as ->.
Qed.

(** A signature that leaves a state before the checkpoint is the handler's. *)
Lemma pre_message env s e b r fs p t m :
  st_result (processPreCheckpointEvent env s e b r fs p) = Ok t → m ∈ Outbox t →
  is_signature m = true →
  ∃ t0, st_result p = Ok t0 ∧ m ∈ Outbox t0 ∧ NextState t = NextState t0 ∧
    ∀ x, x ∈ st_effects p → x ∈ st_effects (processPreCheckpointEvent env s e b r fs p).
Proof.
  intros Ht Hm Hs. destruct (pre_cases _ _ _ _ _ _ _ _ Ht) as [outbox Ho _| |t0 ? _ Hr _ He|].
  - by destruct (Ho _ Hm) as (? & ? & ? & ->).
  - apply release_message in Hm; [|done]. by apply list_elem_of_singleton in Hm as ->.
  - apply release_message in Hm; [|done]. rewrite release_next. by exists t0.
  - apply release_message in Hm; [|done]. by apply list_elem_of_singleton in Hm as ->.
Qed.

Lemma pre_silent env s e b r fs p t m :
  (∀ t', st_result p = Ok t' → handled s e fs t') →
  st_result (processPreCheckpointEvent env s e b r fs p) = Ok t → m ∈ Outbox t → is_signature m = false.
Proof.
  intros Hp Ht Hm. destruct (is_signature m) eqn:E; [|done].
  destruct (pre_message _ _ _ _ _ _ _ _ _ Ht Hm E) as (t0 & Hr & Hm0 & _).
  destruct (Hp _ Hr) as [_ [Hg _]%tidy_parts]. by rewrite (not_signature _ _ Hg Hm0) in E.
Qed.

(** What is signed: inputs that spend deposits, and forfeits bound to the round. *)
Definition signed_message (c : Ceremony) (m : ClientOutMsg) : Prop :=
  match m with
  | SubmitForfeitSigRequest r sigs =>
      r = c_RoundID c ∧ Forall (signs_deposit (commitment c) (Boarding (c_Intents c))) sigs
  | SubmitVTXOForfeitSigsToServer r txs => r = c_RoundID c ∧ map_Forall (forfeit_bound c) txs
  | _ => False
  end.

(** A handler that signs: the checkpoint is written, and the message is sound. *)
Definition signs_soundly (env : Env) (st : Step) (m : ClientOutMsg) : Prop :=
  ∃ c quote i t, st_result st = Ok t ∧ NextState t = InputSigSent i ∧
    StateCommitted (checkpointRound env c) i ∈ st_effects st ∧
    agreed (c_Intents c) quote ∧ ready c quote ∧ signed_message c m.

Lemma checkpoint_sound env b c quote i outbox t m :
  agreed (c_Intents c) quote → ready c quote →
  st_result (checkpoint env b c i outbox) = Ok t → m ∈ Outbox t → is_signature m = true →
  (m ∈ outbox → signed_message c m) → signs_soundly env (checkpoint env b c i outbox) m.
Proof.
  intros Ha Hr. unfold checkpoint. destruct (CommitState env); [|done]. intros [= <-] Hm Hs Hmsg.
  eexists c, quote, i, _. split; [done|]. split; [done|]. split; [by left|].
  split; [done|]. split; [done|]. apply Hmsg. cbn in Hm.
  apply elem_of_app in Hm as [Hm|Hm]; [done|]. by apply list_elem_of_singleton in Hm as ->.
Qed.

Lemma arm_message env r m : m ∈ arm_reconcile env r → is_signature m = false.
Proof. apply not_signature. unfold arm_reconcile. by destruct (0 <? _). Qed.

Lemma partial_sound env b c ss e t m :
  inv (PartialSigsSent c ss) [e] →
  st_result (process_PartialSigsSent env b c ss e) = Ok t → m ∈ Outbox t → is_signature m = true →
  signs_soundly env (process_PartialSigsSent env b c ss e) m.
Proof.
  intros [(quote & Ha & Hc & Hd) _] Ht Hm Hs.
  destruct (partial_handled _ _ _ _ _ _ Ht) as [_ [[Hg _]%tidy_parts|[_ [i Hi]]]];
    [by rewrite (not_signature _ _ Hg Hm) in Hs|].
  destruct e; cbn [process_PartialSigsSent] in *; try (injection Ht as <-; done).
  destruct (sign_trees _ _) as [paths|]; [|injection Ht as <-; done].
  destruct (sign_client_trees _ _ _) as [clients|t'] eqn:Es; cycle 1.
  { apply sign_client_err in Es as (? & ? & ->). injection Ht as <-. done. }
  pose proof (signed_ready _ _ _ paths _ Hc Hd Es) as Hr. destruct (bool_decide _); cycle 1.
  { injection Ht as <-. revert Hi. unfold transitionToForfeitCollection. by destruct (forfeitPenaltyScript _). }
  unfold finish_boarding in *. destruct (signBoardingInputs _ _ _ _) as [sigs|] eqn:Eb; [|done].
  eapply checkpoint_sound; try done. intros [Hin|Hin]%elem_of_app; [by rewrite (arm_message _ _ _ Hin) in Hs|].
  apply elem_of_cons in Hin as [-> | ->%list_elem_of_singleton]; [|done].
  split; [done|]. eapply deposits_signed; [|exact Eb]. apply Hr.
Qed.

Lemma collecting_sound env b c got e t m :
  inv (ForfeitSignaturesCollecting c got) [e] →
  st_result (process_ForfeitSignaturesCollecting env b c got e) = Ok t → m ∈ Outbox t →
  is_signature m = true → signs_soundly env (process_ForfeitSignaturesCollecting env b c got e) m.
Proof.
  intros [(quote & Ha & Hr & Hgot) _] Ht Hm Hs.
  destruct (collecting_handled _ _ _ _ _ _ Ht) as [_ [[Hg _]%tidy_parts|[_ [i Hi]]]];
    [by rewrite (not_signature _ _ Hg Hm) in Hs|].
  destruct e; cbn [process_ForfeitSignaturesCollecting] in *; try (injection Ht as <-; done); cycle 1.
  { by destruct (negb _); injection Ht as <-. }
  destruct (check_response c r) as [[]|] eqn:Ec; [|done].
  destruct (bool_decide _); [by injection Ht as <-|]. destruct (_ <? _)%nat; [by injection Ht as <-|].
  unfold finishForfeitCollection in *. destruct (signBoardingInputs _ _ _ _) as [sigs|] eqn:Eb; [|done].
  eapply checkpoint_sound; try done. unfold forfeitCollectionOutbox.
  intros [Hin|[Hin|[Hin|[Hin|Hin]%elem_of_app]%elem_of_app]%elem_of_app]%elem_of_app.
  - by apply list_elem_of_singleton in Hin as ->.
  - by rewrite (arm_message _ _ _ Hin) in Hs.
  - apply list_elem_of_singleton in Hin as ->. split; [done|]. apply map_Forall_fmap.
    intros op r' [[<- <-]|[Hne Hl]]%lookup_insert_Some; [|by apply (Hgot op)].
    apply response_bound; [apply Hr|done].
  - destruct (Nat.eqb _ 0); [by apply not_elem_of_nil in Hin|]. apply list_elem_of_singleton in Hin as ->.
    split; [done|]. eapply deposits_signed; [|exact Eb]. apply Hr.
  - by apply list_elem_of_singleton in Hin as ->.
Qed.

Definition signing (s : ClientState) : bool :=
  match s with PartialSigsSent _ _ | ForfeitSignaturesCollecting _ _ => true | _ => false end.

Lemma others_silent env b s e t m :
  signing s = false → st_result (ProcessEvent env b s e) = Ok t → m ∈ Outbox t → is_signature m = false.
Proof.
  intros Hs Ht Hm. destruct s; try done; cbn [ProcessEvent] in Ht;
    try (eapply pre_silent; [|exact Ht|exact Hm]).
  - destruct (process_other env b Idle e t) as [_ Ho]; [done..|]. rewrite Ho in Hm. by apply not_elem_of_nil in Hm.
  - injection Ht as <-. destruct (is_signature m) eqn:E; [|done]. apply release_message in Hm; [|done].
    destruct (pending_handled env wait pools e) as [_ [Hg _]%tidy_parts]. by rewrite (not_signature _ _ Hg Hm) in E.
  - intros t'. apply intent_handled.
  - intros t'. apply quote_handled.
  - intros t' [= <-]. apply joined_handled.
  - intros t'. apply received_handled.
  - intros t'. apply validated_handled.
  - intros t'. apply nonces_handled.
  - intros t'. apply aggregated_handled.
  - apply sent_settled in Ht as [_ [Hg _]]. by eapply not_signature.
  - eapply (process_other env b (Confirmed _ _ _ _ _)) in Ht as [_ Ho]; [|done..]. rewrite Ho in Hm. by apply not_elem_of_nil in Hm.
  - eapply (process_other env b (ClientFailed _ _ _ _)) in Ht as [_ Ho]; [|done..]. rewrite Ho in Hm. by apply not_elem_of_nil in Hm.
  - injection Ht as <-. by apply not_elem_of_nil in Hm.
Qed.

Lemma pre_sound env s e b r fs p t m :
  st_result (processPreCheckpointEvent env s e b r fs p) = Ok t → m ∈ Outbox t → is_signature m = true →
  (∀ t0, st_result p = Ok t0 → m ∈ Outbox t0 → signs_soundly env p m) →
  signs_soundly env (processPreCheckpointEvent env s e b r fs p) m.
Proof.
  intros Ht Hm Hs Hp. destruct (pre_message _ _ _ _ _ _ _ _ _ Ht Hm Hs) as (t0 & Hr & Hm0 & Hn & He).
  destruct (Hp _ Hr Hm0) as (c & quote & i & t1 & Hr1 & Hi1 & Hc & Ha).
  assert (t1 = t0) as -> by congruence. exists c, quote, i, t. rewrite Hn.
  split; [done|]. split; [done|]. split; [by apply He|done].
Qed.

(** ** The driver stays within the reachable states *)

Lemma applied_reachable envs n s b outbox effects queue r out :
  reachable s b queue → applyEvents envs n b s outbox effects queue = Some r →
  rn_outbox r = Ok out → reachable (rn_state r) (rn_budget r) [].
Proof.
  revert s b outbox effects queue. induction n as [|n IH]; intros s b o f [|e queue] Hr; cbn;
    try (intros [= <-]; done).
  destruct (st_result (ProcessEvent (envs n) b s e)) as [t|] eqn:E; [|intros [= <-]; done].
  apply IH. by apply reach_step.
Qed.

(** Messages one after the other. *)
Fixpoint deliver (env : Env) (s : ClientState) (b : option admissionBudget)
    (events : list ClientEvent) : option (ClientState * option admissionBudget) :=
  match events with
  | [] => Some (s, b)
  | e :: events =>
      match applyEvents (λ _, env) 3 b s [] [] [e] with
      | Some r =>
          match rn_outbox r with
          | Ok _ => deliver env (rn_state r) (rn_budget r) events
          | Err _ => None
          end
      | None => None
      end
  end.

Lemma delivered_reachable env s b events s' b' :
  reachable s b [] → Forall external events → deliver env s b events = Some (s', b') →
  reachable s' b' [].
Proof.
  intros Hr Hf. revert s b Hr. induction Hf as [|e events He _ IH]; intros s b Hr; [by intros [= <- <-]|].
  cbn [deliver]. destruct (applyEvents _ _ _ _ _ _ _) as [r|] eqn:Ea; [|done].
  destruct (rn_outbox r) as [out|] eqn:Eo; [|done]. apply IH.
  eapply applied_reachable; [|exact Ea|exact Eo]. by apply reach_deliver.
Qed.

End Sound.
