(* ===== verification/RoundDemo.v ===== *)
(** * A round, played

    A client with one deposit asks for one VTXO, agrees to a quote, checks the
    commitment transaction and the tree, signs with the operator and releases the
    signature of its deposit: the premises of the theorems on rounds hold of a round
    that runs to its checkpoint. *)

From S2P Require Import Prelude RecoveryProof VtxoExpiry VtxoForfeit TxTree TxTreeSafety TxTreeBuild RoundQuote RoundQuoteSafety RoundValidate RoundFsm RoundSteps RoundChecks RoundSound.
Local Open Scope Z_scope.

Definition demo_keys : RoundKeys := {|
  TaprootKeyNoScript k := k;
  SweepTapRoot _ _ := Ok [9];
  SerializeSignature s := s;
|}.

Definition demo_deposit : BoardingIntent :=
  mkBoardingIntent (mkOutPoint 9 0) 1000 (mkOutPoint 9 0) "" 21 5 10 BoardingStatusConfirmed.
Definition demo_request : VTXORequest := plain_request 950 [81; 1] 11 false.
Definition demo_intents : Intents := mkIntents [demo_deposit] [demo_request] [] [] [].
Definition demo_quote : ClientQuote :=
  mkQuote 3 1 100 [mkVTXOQuote [81; 1] 900 [2; 11]] [] 0 QUOTE_OK.

Definition demo_output : TxOut := mkTxOut 900 [81; 32; 7011005].
Definition demo_tx : ForfeitMsgTx :=
  mkForfeitMsgTx 3 0 [(mkOutPoint 9 0, MaxTxInSequenceNum)] [demo_output].
Definition demo_tree : Tree :=
  from_result no_tree (@BuildTree chain_script chain_musig (Some 5%N) [9] 2
    (mkOutPoint (chain_hash demo_tx) 0) (Some demo_output) [mkLeaf [81; 1] 900 (Some 11%N) 0]).
Definition demo_built : CommitmentTxBuilt :=
  mkBuilt 7 (mkPacket demo_tx [Some (mkTxOut 1000 [81])]) {[0 := demo_tree]} ∅ ∅ None None
    (Some 6%N) 144 (Some 8%N) 1.
Definition demo_sigs : gmap Hash Signature := @sign_path chain_script chain_musig demo_tree.

Definition demo_env : Env :=
  mkEnv (Some 5%N) 10 330 1 100 (TempKey 1) 0 0 60 30 100 true 5000000000 0 None
    (Ok SlotProceed) (Ok tt) None (λ _, Ok 33%N) (Ok 44%N) (Ok []) (λ _ x, Ok (false, x))
    (mkAssetEnv None None)
    (λ jobs, Ok ((λ p : PublicKey * Tree, (p.1, 1%N, 2%N)) <$> jobs)) (λ _ _, Ok tt)
    (λ l, Ok ((λ p : PublicKey * Session, (p.1, 3%N)) <$> l)) (λ _, None)
    (λ _ _ _, Ok [1]) (Ok tt) (mkOwnerEnv (λ _, None) (λ _, []) None) (λ _, Ok tt).

Definition demo_events : list ClientEvent :=
  [IntentPackage demo_intents; IntentRequested; RoundJoined 7;
   JoinRoundQuoteReceived 7 (Some demo_quote); CommitmentTxBuiltEvent demo_built;
   NoncesAggregated 7 0].

Definition demo_state : option (ClientState * option admissionBudget) :=
  @deliver chain_script chain_musig plain_scripts demo_keys demo_env Idle None demo_events.

Definition demo_signed : ClientEvent := OperatorSigned 7 demo_sigs.

(** The last event before the checkpoint, met in the state that was reached. *)
Definition demo_step : option Step :=
  (λ p, @ProcessEvent chain_script chain_musig plain_scripts demo_keys demo_env p.2 p.1 demo_signed)
    <$> demo_state.
Definition demo_signs (st : Step) : bool :=
  match st_result st with Ok t => existsb is_signature (Outbox t) | Err _ => false end.

Lemma demo_external : Forall (@external chain_musig) demo_events.
Proof.
  unfold demo_events. repeat (apply Forall_cons; split; [|]); try exact I; [|by apply Forall_nil].
  intros k t Hk. change (({[0 := demo_tree]} : gmap Z Tree) !! k = Some t) in Hk. apply lookup_singleton_Some in Hk as [_ <-]. intros root Hr. apply keys_ok_computed.
  assert (from_option (λ n, forallb (@keys_ok chain_musig (childSigningTweak demo_tree)) (NodesIter n)) true
    (Root demo_tree) = true) as H by (vm_compute; reflexivity).
  by rewrite Hr in H.
Qed.

